(* ===== verification/_CoqProject ===== *)
-Q . S2P
Prelude.v
CString.v
DecTypes.v
BjHash.v
SymTab.v
AcDecoder.v
AcDecoderOk.v
CoreActions.v
CoreActionsOk.v
AsmTypes.v
AsmMap.v
AsmInsn.v
AsmInsnOk.v
BinUtils.v
BinOpcodes.v
BinOpcodesOk.v
BinGas.v
BinBfd.v
BinShare.v
BinShareOk.v
BinDis.v
BinDisOk.v
BinArgsOk.v
BinSearchOk.v
BinMain.v
ArmCore.v
ArmCoreOk.v
ArmFormats.v
ArmFormatsOk.v
ArmData.v
ArmMem.v
ArmIsa.v
ArmDataOk.v
ArmStepOk.v
ArmMmu.v
ArmMemOk.v
ArmMmuOk.v
ArmSystemOk.v
Tzic.v
TzicOk.v
Gpt.v
GptOk.v
AcDecoderRt.v
ArmDecode.v
ArmDecodeOk.v
ArmRun.v
Uart.v
UartOk.v
Sd.v
Esdhc.v
EsdhcOk.v
Board.v
MemMap.v
MemMapOk.v
DynMem.v
DynSym.v
SymLookupOk.v
RelMap.v
DynInfo.v
RelConvert.v
RelConvertOk.v
LinkNode.v
RelocOk.v
ElfLoad.v
ImageOk.v
Storage.v
Syscall.v
ArmSyscall.v
Gdb.v
GdbOk.v
ArmGdb.v
AcSim.v
AcSimRes.v
AcSimIsa.v
AcSimProc.v
AcSimFiles.v
AcSimMain.v
AcSimOk.v
AcSimTextOk.v
ArmGen.v
