(* ===== verification/Prelude.v ===== *)
(** * ArchC and the ARMv7 platform: a verification library

    The repository holds two programs.  [archc/] is a tool chain for
    architecture descriptions: a parser, generators of simulators and of binary
    utilities, and a library the simulators are built with.  [armv7/] is a
    simulator of an ARM core on an i.MX53 board, made of files that the
    generator of [archc/] wrote and of files written by hand.  This library
    models both as pure functions and proves what makes them correct.

    ** How the parts fit together

    A description (the [.ac] files) is read by the semantic actions of
    [archc/src/acpp].  What they leave is the input of two generators.
    [acsim] writes the C++ files of a simulator; the tables among them are
    read by the run-time decoder of [aclib].  [acbingen] writes the tables of
    an assembler, a disassembler and a linker.  [aclib] also loads and links
    programs, serves a debugger and the system calls of the program.  The ARM
    core fetches words through its memory port, decodes them with the generated
    tables and runs the behaviours of [arm_isa.cpp]; port, MMU, bus, memories
    and devices are objects of their own that meet on the bus and in the
    interrupt controller.

    ** Files and sources

    [Prelude] holds machine integers, bits, the outcome [exec] of C functions
    (a value, [exit] or undefined behaviour), strings and sorted insertion;
    [CString] the character and number functions of the C library.

    - The parser, [archc/src/acpp]: [BjHash] (bj_hash.c); [SymTab],
      [CoreActions], [CoreActionsOk] (core_actions.c and the actions of
      archc_grammar.y); [AsmTypes], [AsmMap], [AsmInsn], [AsmInsnOk]
      (asm_actions.c, asm_actions.h).
    - The decoder library, [archc/src/aclib/ac_decoder]: [DecTypes],
      [AcDecoder], [AcDecoderOk] (ac_decoder.c), [AcDecoderRt]
      (ac_decoder_rt.cpp), and [ArmDecode], [ArmDecodeOk] for
      arm_isa_init.cpp, arm_decode_unit.cpp and ac_decoded_cache.H.
    - The generator of binary utilities, [archc/src/acbinutils]: [BinUtils]
      (utils.c), [BinOpcodes], [BinOpcodesOk] (opcodes.c), [BinGas] (gas.c and
      the field functions of bfd.c), [BinBfd] (bfd.c), [BinMain] (main.c); the
      templates [BinShare], [BinShareOk] (share-xxxxx.c) and [BinDis],
      [BinDisOk], [BinArgsOk], [BinSearchOk] (xxxxx-dis.c); [RelConvert],
      [RelConvertOk] (acrelconvert.c).
    - The generator of simulators, [archc/src/acsim]: [AcSim] (printing,
      options), [AcSimRes], [AcSimIsa], [AcSimProc], [AcSimFiles], [AcSimMain]
      (the files it writes), [AcSimOk], [AcSimTextOk]; [ArmGen] is its run on
      arm.ac and arm_isa.ac.  On that description and the options -gdb -np the
      model prints the committed files arm.H, arm.cpp, arm_arch.*,
      arm_isa_init.cpp, arm_decode_unit.* and the others byte for byte.
    - The ARM core, [armv7/src/arm_isa.cpp]: [ArmCore] (registers, status,
      exceptions), [ArmFormats], [ArmData], [ArmMem], [ArmIsa]; [ArmCoreOk],
      [ArmFormatsOk], [ArmDataOk], [ArmStepOk], [ArmMemOk]; [ArmRun] runs
      programs.
    - The board, [armv7/src]: [ArmMmu], [ArmMmuOk], [ArmSystemOk] (cp15.cpp,
      mmu.cpp, bus.cpp, ram, rom and the memory port of the library); [Tzic],
      [TzicOk]; [Gpt], [GptOk]; [Uart], [UartOk]; [Sd]; [Esdhc], [EsdhcOk];
      [Board] (ccm.cpp, dpllc.cpp, src.cpp, tlb.h, the memory map and the debug
      option of main.cpp).
    - Loading and linking, [archc/src/aclib/ac_rtld] and [ac_utils]: [MemMap],
      [MemMapOk] (memmap.cpp), [DynMem], [DynSym], [SymLookupOk] (symbols,
      versions, relocation tables), [RelMap] (ac_rtld_config.cpp), [DynInfo]
      (dynamic_info.cpp), [LinkNode], [RelocOk] (link_node.cpp, ac_rtld.cpp),
      [ElfLoad], [ImageOk] (ac_load_elf).
    - Storage, [archc/src/aclib/ac_storage] and [ac_tlm]: [Storage]
      (ac_storage.cpp, ac_tlm_port.cpp, ac_memport.H, ac_reg.H, ac_regbank.H and
      the queues of delayed updates).
    - The debugger's stub, [archc/src/aclib/ac_gdb]: [Gdb], [GdbOk], and
      [ArmGdb] for the ARM's side of it.
    - System calls, [archc/src/aclib/ac_syscall]: [Syscall], and [ArmSyscall]
      for arm_syscall.cpp and the SWI of a simulator without [SYSTEM_MODEL].

    State is passed explicitly.  Pointers into lists are indices, pointers into
    the target memory are offsets, tables of functions are lists.  Components
    meet through classes: [SymbolMap] (the symbol table and its users),
    [MemPort], [CoprocPort] and [Memory] (the core and whatever memory it has),
    [Peripheral], [RamDevice], [SoundDevice] (the bus and what is on it),
    [Gdb_Interface] (the stub and a processor),
    [Target] and [Host] (the system calls, the processor below and the host
    above), [InOut], [Transport] and [WordDevice] (a storage, a port and the
    device behind it).

    ** What the theorems show

    - Hashing, symbols, parsing: the hash depends on the bytes of the key only,
      the symbol table is a finite map, every run of the loop of the parser of
      format strings ends and it reads what is printed, and in a description
      read without an error every decode list names fields of its format, the
      precondition of the decoder generator being met exactly by the lists of at
      most 64 elements.
    - Decoding: the decoder built from a description finds an instruction whose
      whole decode list holds, whatever the order of insertion; the C++ decoder
      is the same; the tables printed for the simulator read back as the
      description; the ARM's tables are those the generator prints, and the
      decoder with its cache decodes every word as without.
    - Binary utilities: an operand put in an instruction word is read back, the
      disassembler's search selects the right rows, arguments (constants and
      fields, joined by plus signs or not) are bound to the operands they name,
      and converting relocation codes can be undone when the map has them all.
    - The ARM core: banked registers, exceptions, the shifter, the sixteen
      data-processing operations and block transfers against the architecture;
      a run keeps the core well formed and user mode confined.
    - The board: the memory port is an array of bytes, translation follows the
      tables; an interrupt of the timer arrives in time; the interrupt
      controller, the serial line and the SD card with its controller do what
      their registers promise whatever the order of the threads; on the whole
      board the memories keep what is written through any interleaving, and a
      read completes unless it leaves the memory of the device: a register
      array (0x18 of the reset controller is behind its six registers), the
      last word of the window of a RAM, which main.cpp does not allocate, and
      the window of the ROM past the boot file.
    - Programs: the segments of a file reach the memory, regions of the memory
      map never overlap, visible defined symbols are found through the hash
      chains and the version tables, relocations patch their words and nothing
      else; with REL entries the addend is 0 instead of the word at the place.
    - Storage: a block written directly and through transactions is the same
      block; delayed updates take effect in time as long as they fall due in
      order.
    - The debugger: packets are delivered through noise, memory written is
      memory read.
    - What goes wrong where it does is proved as well: the theorems named in
      the findings of the manifest are runs of the model that end otherwise
      than the comments and documents say.
    - System calls: file data passes the memory of the program unchanged, its
      arguments reach it, with newlib and with glibc, as long as they fit, the
      start functions of shared objects are entered in order, Linux's numbers
      reach the calls of their names, and a number the ARM's table does not list
      is compared with memory behind it.

    ** Conventions and bounds

    Integers are [Z] cut to their width where the code cuts them ([u32],
    [s32], ...).  The host is a little-endian x86 with 64-bit [long]; signed
    overflow wraps and shift counts are masked as its instructions do.  An
    array index out of range, a NULL dereference and a write behind a buffer
    are [Crash] (or [Stop 139], [Fault]) except where a header says that the
    bytes behind an array are part of the state.  A value C leaves undefined is
    a parameter ([undefined], [junk], [uninitialised]).  Allocation succeeds.
    Loops that are not structural have fuel, and a theorem of each component
    says that enough fuel gives a result: [parse_format_terminates] (the length
    of the text), [Decode_correct] (the search), [lookup_symbol_exact] (the
    number of symbols), [regions_never_overlap] (the search for a region).
    Formats of [printf] are written with [\q] for a quotation mark.  Threads of
    the board are functions of one turn, and theorems quantify over every
    sequence of turns.  Messages on the terminal are left out.

    ** Not modelled

    - [accsim/] and [actsim/]: two further generators; their emitters print
      program text of their own with the same tables as [acsim].
    - acpp.c, the lexer and the productions without an action of their own:
      input and tables of flex and bison.
    - Files whose code belongs to other projects: elf32-xxxxx.c, cpu-xxxxx.c,
      tc-xxxxx.c.in and the gdb templates are pieces of binutils and gdb that
      call those projects' internals; [replace/] is the C library's.
    - elf32-tiny.h beyond the constants in use; archc.cpp and the option
      parsing of the simulators.
    - ac_cache, ac_mem, ac_sync_reg and ac_verify of the storage library: no
      makefile builds them and ac_cache.H does not compile.
    - The start-up code of the board, and the dump of a register bank.
    - Statistics, tracing, the debugger's sockets, the terminal modes, and
      SystemC itself.
    - acverifier, acstone, acdoc and the test drivers. *)
From stdpp Require Export base numbers list strings gmap pretty sorting.
From Stdlib Require Export ZArith Lia Ascii.
#[global] Open Scope Z_scope.

(** ** Machine integers *)

(** Unsigned and two's-complement wrap-around at width [w]. *)
Definition uwrap (w z : Z) : Z := z mod 2 ^ w.
Definition swrap (w z : Z) : Z := (z + 2 ^ (w - 1)) mod 2 ^ w - 2 ^ (w - 1).

Notation u8 := (uwrap 8).
Notation u16 := (uwrap 16).
Notation u32 := (uwrap 32).
Notation u64 := (uwrap 64).
Notation s16 := (swrap 16).
Notation s32 := (swrap 32).
Notation s64 := (swrap 64).

Lemma uwrap_range w z : 0 <= w -> 0 <= uwrap w z < 2 ^ w.
Proof. intros. unfold uwrap. apply Z.mod_pos_bound. lia. Qed.

Lemma uwrap_small w z : 0 <= z < 2 ^ w -> uwrap w z = z.
Proof. apply Z.mod_small. Qed.

Lemma uwrap_uwrap w z : uwrap w (uwrap w z) = uwrap w z.
Proof. unfold uwrap. apply Zmod_mod. Qed.

Lemma swrap_small w z : 0 < w -> - 2 ^ (w - 1) <= z < 2 ^ (w - 1) -> swrap w z = z.
Proof.
  intros Hw Hz. unfold swrap.
  assert (2 ^ w = 2 * 2 ^ (w - 1)) by (rewrite <- Z.pow_succ_r by lia; f_equal; lia).
  rewrite Z.mod_small by lia. lia.
Qed.

Lemma uwrap_add_l w a b : uwrap w (uwrap w a + b) = uwrap w (a + b).
Proof. unfold uwrap. apply Zplus_mod_idemp_l. Qed.

Lemma uwrap_add_r w a b : uwrap w (a + uwrap w b) = uwrap w (a + b).
Proof. unfold uwrap. apply Zplus_mod_idemp_r. Qed.

Lemma uwrap_sub_l w a b : uwrap w (uwrap w a - b) = uwrap w (a - b).
Proof. unfold uwrap. apply Zminus_mod_idemp_l. Qed.

Lemma uwrap_sub_r w a b : uwrap w (a - uwrap w b) = uwrap w (a - b).
Proof. unfold uwrap. apply Zminus_mod_idemp_r. Qed.

Lemma uwrap_add_ll w a b c : uwrap w (uwrap w a + b + c) = uwrap w (a + b + c).
Proof. rewrite <- !Z.add_assoc. apply uwrap_add_l. Qed.

Lemma uwrap_add_lll w a b c d : uwrap w (uwrap w a + b + c + d) = uwrap w (a + b + c + d).
Proof. rewrite <- !Z.add_assoc. apply uwrap_add_l. Qed.

Create HintDb wrap.
#[export] Hint Rewrite uwrap_uwrap uwrap_add_l uwrap_add_ll uwrap_add_lll uwrap_add_r uwrap_sub_l uwrap_sub_r : wrap.

(** ** Bits *)

Lemma testbit_uwrap w z i : 0 <= w -> Z.testbit (uwrap w z) i = (i <? w) && Z.testbit z i.
Proof. intros. unfold uwrap. apply Z.testbit_mod_pow2. assumption. Qed.

Lemma testbit_high w z i : 0 <= z < 2 ^ w -> w <= i -> Z.testbit z i = false.
Proof.
  intros Hz Hi. destruct (Z.ltb_spec w 0).
  - rewrite Z.pow_neg_r in Hz by lia. lia.
  - rewrite <- (Z.mod_small z (2 ^ w)) by lia. apply Z.mod_pow2_bits_high. lia.
Qed.

Lemma testbit_ones w i : 0 <= w -> Z.testbit (Z.ones w) i = (0 <=? i) && (i <? w).
Proof. intros. apply Z.testbit_ones. assumption. Qed.

Lemma bits_range w z : 0 <= w -> 0 <= z -> (forall i, w <= i -> Z.testbit z i = false) -> z < 2 ^ w.
Proof.
  intros Hw Hz Hb. destruct (Z.ltb_spec z (2 ^ w)); [assumption|].
  exfalso. assert (0 < z) by (pose proof (Z.pow_pos_nonneg 2 w); lia).
  assert (w <= Z.log2 z).
  { rewrite <- (Z.log2_pow2 w) by lia. apply Z.log2_le_mono. assumption. }
  pose proof (Z.bit_log2 z ltac:(assumption)) as Hbit. rewrite Hb in Hbit by assumption. discriminate.
Qed.

Create HintDb zbit.
#[export] Hint Rewrite Z.land_spec Z.lor_spec Z.lxor_spec Z.lnot_spec Z.shiftl_spec Z.shiftr_spec
  Z.ldiff_spec Z.bits_0 testbit_uwrap testbit_ones using lia : zbit.

(** Proves equalities of integers built from bit operations, bit by bit:
    case analysis on every comparison of a bit index with a width, then
    propositional reasoning on the remaining bits. *)
Ltac bit_cases :=
  repeat match goal with
  | |- context [?a <? ?b] => destruct (Z.ltb_spec a b)
  | |- context [?a <=? ?b] => destruct (Z.leb_spec a b)
  | |- context [Z.testbit ?z ?i] => rewrite (Z.testbit_neg_r z i) by lia
  end.

Ltac zbits :=
  apply Z.bits_inj'; let i := fresh "i" in let Hi := fresh "Hi" in intros i Hi;
  autorewrite with zbit; bit_cases; cbn [andb orb negb xorb];
  repeat rewrite ?Bool.andb_true_r, ?Bool.andb_false_r, ?Bool.orb_false_r, ?Bool.orb_true_r,
    ?Bool.andb_true_l, ?Bool.andb_false_l, ?Bool.orb_false_l, ?Bool.orb_true_l,
    ?Bool.xorb_false_l, ?Bool.xorb_false_r;
  try reflexivity; try lia; try (f_equal; lia).

(** Evaluates the sums and products of integer literals in the goal. *)
Ltac is_zlit z :=
  lazymatch z with Z0 => idtac | Zpos _ => idtac | Zneg _ => idtac | _ => fail end.

Ltac zlits :=
  repeat match goal with
  | |- context [?a + ?b] =>
      is_zlit a; is_zlit b; let c := eval vm_compute in (a + b) in change (a + b) with c
  | |- context [?a * ?b] =>
      is_zlit a; is_zlit b; let c := eval vm_compute in (a * b) in change (a * b) with c
  | |- context [?a <? ?b] =>
      is_zlit a; is_zlit b; let c := eval vm_compute in (a <? b) in change (a <? b) with c
  end.

(** ** Outcomes of C functions *)

(** A run returns a value, ends the process ([exit], with what it printed), or
    reaches undefined behaviour (a NULL dereference, an index out of range). *)
Inductive exec (A : Type) :=
  | Ret (a : A)
  | Exit (msg : string)
  | Crash.
Arguments Ret {A} a.
Arguments Exit {A} msg.
Arguments Crash {A}.

#[export] Instance exec_ret : MRet exec := @Ret.
#[export] Instance exec_bind : MBind exec := fun A B f m =>
  match m with Ret a => f a | Exit msg => Exit msg | Crash => Crash end.
#[export] Instance exec_fmap : FMap exec := fun A B f m => m ≫= (fun a => Ret (f a)).

Definition of_option {A} (o : option A) : exec A :=
  match o with Some a => Ret a | None => Crash end.

Lemma exec_bind_ret {A B} (m : exec A) (f : A -> exec B) b :
  m ≫= f = Ret b <-> exists a, m = Ret a /\ f a = Ret b.
Proof.
  destruct m; cbn; split; try discriminate.
  - intros H. exists a. split; [reflexivity|assumption].
  - intros (a' & [= ->] & H). assumption.
  - intros (a' & H & _). discriminate.
  - intros (a' & H & _). discriminate.
Qed.

(** Splits a successful run of a sequence into the runs of its parts. *)
Ltac exec_inv H :=
  let a := fresh "a" in let E := fresh "E" in
  apply exec_bind_ret in H as (a & E & H).

(** The line terminator of the printed messages. *)
Definition nl : string := String (Ascii.ascii_of_nat 10) EmptyString.

(** ** C strings and linked lists *)

(** [strcmp]: its sign, on strings of unsigned characters. *)
Definition strcmp (s t : string) : comparison := String.compare s t.
Definition streq (s t : string) : bool := match strcmp s t with Eq => true | _ => false end.

Lemma strcmp_refl s : strcmp s s = Eq.
Proof.
  unfold strcmp. induction s as [|c s IH]; cbn; [reflexivity|].
  unfold Ascii.compare. rewrite N.compare_refl. assumption.
Qed.

Lemma strcmp_Eq s t : strcmp s t = Eq <-> s = t.
Proof. split; [apply String.compare_eq_iff|]. intros ->. apply strcmp_refl. Qed.

Lemma streq_spec s t : streq s t = true <-> s = t.
Proof. unfold streq. rewrite <- strcmp_Eq. destruct (strcmp s t); split; congruence. Qed.

Lemma streq_refl s : streq s s = true.
Proof. apply streq_spec. reflexivity. Qed.

Lemma streq_false s t : streq s t = false <-> s <> t.
Proof. rewrite <- streq_spec. destruct (streq s t); split; congruence. Qed.

(** The first element of a linked list that satisfies a test, as the loops
    [while (p && !test) p = p->next] find it. *)
Fixpoint list_first {A} (P : A -> bool) (l : list A) : option A :=
  match l with [] => None | x :: l => if P x then Some x else list_first P l end.

Lemma list_first_Some {A} (P : A -> bool) l x :
  list_first P l = Some x -> x ∈ l /\ P x = true.
Proof.
  induction l as [|y l IH]; cbn; [discriminate|]. destruct (P y) eqn:E.
  - intros [= ->]. split; [left|assumption].
  - intros H. destruct (IH H). split; [right|]; assumption.
Qed.

Lemma list_first_None {A} (P : A -> bool) l :
  list_first P l = None <-> forall x, x ∈ l -> P x = false.
Proof.
  induction l as [|y l IH]; cbn.
  - split; [intros _ x Hx; inversion Hx|reflexivity].
  - destruct (P y) eqn:E.
    + split; [discriminate|]. intros H. specialize (H y ltac:(left)). congruence.
    + rewrite IH. split; intros H x.
      * intros [->|Hx]%elem_of_cons; auto.
      * intros Hx. apply H. right. assumption.
Qed.

Lemma list_first_Forall2 {A B} (R : A -> B -> Prop) (P : A -> bool) (Q : B -> bool) l l' :
  Forall2 R l l' -> (forall x y, R x y -> P x = Q y) ->
  match list_first P l, list_first Q l' with
  | Some x, Some y => R x y
  | None, None => True
  | _, _ => False
  end.
Proof.
  intros H HPQ. induction H as [|x y l l' Hxy _ IH]; cbn; [exact I|].
  rewrite (HPQ x y Hxy). destruct (Q y); assumption.
Qed.

(** ** The order of strings *)

Lemma ascii_compare_spec a b :
  Ascii.compare a b = (N_of_ascii a ?= N_of_ascii b)%N.
Proof. reflexivity. Qed.

Lemma strcmp_antisym s t : strcmp t s = CompOpp (strcmp s t).
Proof.
  unfold strcmp. revert t. induction s as [|a s IH]; intros [|b t]; cbn; try reflexivity.
  rewrite !ascii_compare_spec, (N.compare_antisym (N_of_ascii a)).
  destruct (N_of_ascii a ?= N_of_ascii b)%N; cbn; [apply IH|reflexivity|reflexivity].
Qed.

(** [s] is not after [t]. *)
Definition str_le (s t : string) : Prop := strcmp s t <> Gt.

#[export] Instance str_le_dec s t : Decision (str_le s t).
Proof. unfold str_le. destruct (strcmp s t); [left|left|right]; congruence. Defined.

Lemma str_le_refl s : str_le s s.
Proof. unfold str_le. rewrite strcmp_refl. discriminate. Qed.

Lemma str_le_trans s t u : str_le s t -> str_le t u -> str_le s u.
Proof.
  unfold str_le, strcmp. revert t u. induction s as [|a s IH]; intros [|b t] [|c u]; cbn; try congruence.
  rewrite !ascii_compare_spec. intros H1 H2.
  destruct (N.compare_spec (N_of_ascii a) (N_of_ascii b)), (N.compare_spec (N_of_ascii b) (N_of_ascii c)),
    (N.compare_spec (N_of_ascii a) (N_of_ascii c)); try congruence; try lia.
  eapply IH; eassumption.
Qed.

#[export] Instance str_le_preorder : PreOrder str_le.
Proof. split; [exact str_le_refl|exact str_le_trans]. Qed.

Lemma str_le_total s t : str_le s t \/ str_le t s.
Proof. unfold str_le. rewrite (strcmp_antisym s t). destruct (strcmp s t); cbn; [left|left|right]; discriminate. Qed.

Lemma str_le_antisym s t : str_le s t -> str_le t s -> s = t.
Proof.
  unfold str_le. rewrite (strcmp_antisym s t). intros H1 H2. apply strcmp_Eq.
  destruct (strcmp s t); cbn in *; congruence.
Qed.

Lemma filter_none {A} (P : A -> bool) l : (forall x, x ∈ l -> P x = false) -> List.filter P l = [].
Proof.
  induction l as [|x l IH]; intros H; cbn; [reflexivity|]. rewrite (H x) by left.
  apply IH. intros y Hy. apply H. right. assumption.
Qed.

(** ** Stable insertion in a sorted list *)

Section StableInsert.
Context {A : Type} (key : A -> string).

(** After every element whose key is not greater. *)
Fixpoint insert_after (x : A) (l : list A) : list A :=
  match l with
  | [] => [x]
  | y :: l => match strcmp (key x) (key y) with Lt => x :: y :: l | _ => y :: insert_after x l end
  end.

Definition key_le (x y : A) : Prop := str_le (key x) (key y).

Lemma insert_after_sorted x l : StronglySorted key_le l -> StronglySorted key_le (insert_after x l).
Proof.
  induction 1 as [|y l Hs IH Hy]; cbn; [repeat constructor|].
  assert (Hle : strcmp (key x) (key y) <> Lt -> StronglySorted key_le (y :: insert_after x l)).
  { intros Hc. constructor; [assumption|]. clear IH Hs. assert (Hyx : key_le y x).
    { unfold key_le, str_le. rewrite (strcmp_antisym (key x)). destruct (strcmp (key x) (key y)); cbn; congruence. }
    induction Hy as [|z l Hz Hl IHl]; cbn; [repeat constructor; assumption|].
    destruct (strcmp (key x) (key z)); repeat constructor; auto. }
  destruct (strcmp (key x) (key y)) eqn:E; try (apply Hle; congruence).
  assert (Hxy : key_le x y) by (unfold key_le, str_le; congruence).
  constructor; [constructor; assumption|]. constructor; [assumption|].
  eapply Forall_impl; [exact Hy|]. intros z. unfold key_le in *. etransitivity; eassumption.
Qed.

Lemma insert_after_perm x l : insert_after x l ≡ₚ x :: l.
Proof.
  induction l as [|y l IH]; cbn; [reflexivity|].
  destruct (strcmp (key x) (key y)); rewrite ?IH; try reflexivity; apply Permutation_swap.
Qed.

(** The elements with one key keep their order, the new one is the last. *)
Lemma insert_after_stable k x l : StronglySorted key_le l ->
  List.filter (fun y => streq (key y) k) (insert_after x l)
  = List.filter (fun y => streq (key y) k) (l ++ [x]).
Proof.
  induction 1 as [|y l Hs IH Hy]; cbn; [reflexivity|].
  destruct (strcmp (key x) (key y)) eqn:E; cbn; rewrite ?IH; try reflexivity.
  destruct (streq (key x) k) eqn:Ek.
  - apply streq_spec in Ek. subst k.
    assert (Hn : forall z, z ∈ y :: l -> streq (key z) (key x) = false).
    { intros z Hz. apply streq_false. intros Heq. rewrite Forall_forall in Hy.
      assert (key_le y z) as H by (apply elem_of_cons in Hz as [->|Hz]; [apply str_le_refl|auto]).
      unfold key_le, str_le in H. rewrite Heq, (strcmp_antisym (key x)), E in H. apply H. reflexivity. }
    rewrite List.filter_app. rewrite (Hn y) by left. cbn. rewrite streq_refl.
    rewrite filter_none; [reflexivity|]. intros z Hz. apply Hn. right. assumption.
  - rewrite List.filter_app. cbn. rewrite Ek, app_nil_r. reflexivity.
Qed.
End StableInsert.
