(* ===== verification/CString.v ===== *)
(** * The C library's character and number functions

    A [char *] is the string that starts there; the terminating NUL is the end
    of the string.  [isspace], [toupper], [strtol] and [atoi] in the C locale,
    with [long] of 64 bits, and the fact that reading back a number printed with
    ["%d"] gives the number. *)
From S2P Require Import Prelude.

Definition cc (c : ascii) : Z := Z.of_N (N_of_ascii c).

Definition is_char (a c : ascii) : bool := Ascii.eqb a c.

Definition isspace (c : ascii) : bool := (cc c =? 32) || ((9 <=? cc c) && (cc c <=? 13)).
Definition isdigit (c : ascii) : bool := (48 <=? cc c) && (cc c <=? 57).

Definition toupper (c : ascii) : ascii :=
  if (97 <=? cc c) && (cc c <=? 122) then ascii_of_N (N_of_ascii c - 32) else c.

Fixpoint skip_spaces (s : string) : string :=
  match s with
  | String c s' => if isspace c then skip_spaces s' else s
  | EmptyString => s
  end.

(** The value of a character as a digit in a base up to 36. *)
Definition digit_val (c : ascii) : option Z :=
  if isdigit c then Some (cc c - 48)
  else if (97 <=? cc c) && (cc c <=? 122) then Some (cc c - 87)
  else if (65 <=? cc c) && (cc c <=? 90) then Some (cc c - 55)
  else None.

Definition digit (base : Z) (c : ascii) : option Z :=
  match digit_val c with Some d => if d <? base then Some d else None | None => None end.

Definition starts_digit (base : Z) (s : string) : bool :=
  match s with String c _ => bool_decide (is_Some (digit base c)) | EmptyString => false end.

Fixpoint digits (base acc : Z) (s : string) : Z * string :=
  match s with
  | String c s' =>
      match digit base c with
      | Some d => digits base (acc * base + d) s'
      | None => (acc, s)
      end
  | EmptyString => (acc, s)
  end.

Definition LONG_MIN : Z := - 2 ^ 63.
Definition LONG_MAX : Z := 2 ^ 63 - 1.
Definition clamp_long (z : Z) : Z := Z.max LONG_MIN (Z.min LONG_MAX z).

Definition strtol_sign (s : string) : bool * string :=
  match s with
  | String c s' => if is_char "-" c then (true, s') else if is_char "+" c then (false, s') else (false, s)
  | EmptyString => (false, s)
  end.

(** The base actually used and the digits that follow an optional prefix. *)
Definition strtol_base (base : Z) (s : string) : Z * string :=
  match s with
  | String z (String x t) =>
      if ((base =? 0) || (base =? 16)) && is_char "0" z && (is_char "x" x || is_char "X" x)
         && starts_digit 16 t
      then (16, t)
      else if base =? 0 then (if is_char "0" z then 8 else 10, s) else (base, s)
  | String z EmptyString => if base =? 0 then (if is_char "0" z then 8 else 10, s) else (base, s)
  | EmptyString => (base, s)
  end.

(** The value and [*endptr], which is [s] itself when there is no number. *)
Definition strtol (base : Z) (s : string) : Z * string :=
  let '(neg, t) := strtol_sign (skip_spaces s) in
  let '(base, t) := strtol_base base t in
  if starts_digit base t then
    let '(v, t) := digits base 0 t in
    (clamp_long (if neg then - v else v), t)
  else (0, s).

Definition atoi (s : string) : Z := s32 (fst (strtol 10 s)).

Definition quote : string := String (ascii_of_nat 34) EmptyString.

(** The longest prefix of characters that satisfy a test, and the rest. *)
Fixpoint span (P : ascii -> bool) (s : string) : string * string :=
  match s with
  | String c t => if P c then let '(a, b) := span P t in (String c a, b) else (EmptyString, s)
  | EmptyString => (EmptyString, EmptyString)
  end.

Definition head_is (P : ascii -> bool) (s : string) : bool :=
  match s with String c _ => P c | EmptyString => false end.

(** ** Lemmas *)

Lemma span_length P s : (String.length (snd (span P s)) <= String.length s)%nat.
Proof.
  induction s as [|c s IH]; cbn [span]; [cbn; lia|]. destruct (P c); [|cbn; lia].
  destruct (span P s). cbn in *. lia.
Qed.

Lemma span_head P s : head_is P s = true -> (String.length (snd (span P s)) < String.length s)%nat.
Proof.
  destruct s as [|c s]; [discriminate|]. cbn [head_is span]. intros ->.
  pose proof (span_length P s). destruct (span P s). cbn in *. lia.
Qed.

Lemma skip_spaces_suffix s : exists p, s = p +:+ skip_spaces s.
Proof.
  induction s as [|c s [p IH]]; cbn; [exists ""; reflexivity|]. destruct (isspace c).
  - exists (String c p). change (String c s = String c (p +:+ skip_spaces s)). congruence.
  - exists "". reflexivity.
Qed.

Lemma skip_spaces_idemp s : skip_spaces (skip_spaces s) = skip_spaces s.
Proof.
  induction s as [|c s IH]; cbn; [reflexivity|]. destruct (isspace c) eqn:E; [assumption|].
  cbn. rewrite E. reflexivity.
Qed.

Lemma skip_spaces_length s : (String.length (skip_spaces s) <= String.length s)%nat.
Proof. induction s as [|c s IH]; cbn; [lia|]. destruct (isspace c); cbn; lia. Qed.

Lemma digits_length base acc s : (String.length (snd (digits base acc s)) <= String.length s)%nat.
Proof.
  revert acc. induction s as [|c s IH]; intros acc; cbn; [lia|].
  destruct (digit base c); cbn; [|lia]. specialize (IH (acc * base + z)). lia.
Qed.

(** A conversion that takes place consumes at least one character. *)
Lemma strtol_length base s :
  snd (strtol base s) = s \/ (String.length (snd (strtol base s)) < String.length s)%nat.
Proof.
  unfold strtol. pose proof (skip_spaces_length s) as Hs.
  destruct (strtol_sign (skip_spaces s)) as [neg t] eqn:Et.
  assert (String.length t <= String.length s)%nat.
  { unfold strtol_sign in Et. destruct (skip_spaces s) as [|c u]; [injection Et as _ <-; exact Hs|].
    cbn in Hs. repeat case_match; injection Et as _ <-; cbn; lia. }
  destruct (strtol_base base t) as [b u] eqn:Eu.
  assert (String.length u <= String.length t)%nat.
  { unfold strtol_base in Eu. destruct t as [|z [|x t]]; [injection Eu as _ <-; lia|..].
    - repeat case_match; injection Eu as _ <-; cbn; lia.
    - repeat case_match; injection Eu as _ <-; cbn; lia. }
  destruct (starts_digit b u) eqn:Ed; [|left; reflexivity]. right.
  destruct u as [|c u]; [discriminate|]. cbn in Ed |- *. apply bool_decide_eq_true in Ed as [d Ed].
  rewrite Ed. pose proof (digits_length b (0 * b + d) u) as Hd.
  destruct (digits b (0 * b + d) u) as [v w]. cbn in *. lia.
Qed.

Lemma digit_pretty d : (d < 10)%N -> digit 10 (pretty_N_char d) = Some (Z.of_N d).
Proof.
  intros H.
  assert (d = 0 \/ d = 1 \/ d = 2 \/ d = 3 \/ d = 4 \/ d = 5 \/ d = 6 \/ d = 7 \/ d = 8 \/ d = 9)%N as Hd by lia.
  repeat (destruct Hd as [->|Hd]; [reflexivity|]). rewrite Hd. reflexivity.
Qed.

Lemma digits_pretty_go x s : exists k, forall acc,
  digits 10 acc (pretty_N_go x s) = digits 10 (acc * k + Z.of_N x) s.
Proof.
  revert s. induction (N.lt_wf_0 x) as [x _ IH]; intros s.
  assert (x = 0 \/ 0 < x)%N as [->|Hx] by lia.
  - exists 1. intros acc. rewrite pretty_N_go_0. f_equal. lia.
  - rewrite pretty_N_go_step by assumption.
    destruct (IH (x / 10)%N ltac:(apply N.div_lt; lia) (String (pretty_N_char (x mod 10)) s)) as [k Hk].
    exists (k * 10). intros acc. rewrite Hk. cbn [digits].
    rewrite digit_pretty by (apply N.mod_lt; lia). f_equal.
    rewrite N2Z.inj_div, N2Z.inj_mod. pose proof (Z.div_mod (Z.of_N x) (Z.of_N 10) ltac:(lia)). lia.
Qed.

Lemma pretty_go_head x s : (0 < x)%N -> exists d t,
  pretty_N_go x s = String (pretty_N_char d) t /\ (0 < d < 10)%N.
Proof.
  revert s. induction (N.lt_wf_0 x) as [x _ IH]; intros s Hx. rewrite pretty_N_go_step by assumption.
  assert (x < 10 \/ 10 <= x)%N as [H|H] by lia.
  - rewrite N.div_small, pretty_N_go_0, N.mod_small by assumption. eexists _, _. split; [reflexivity|lia].
  - apply IH; [apply N.div_lt; lia|]. apply N.div_str_pos. lia.
Qed.

Lemma pretty_go_app x s r : pretty_N_go x s +:+ r = pretty_N_go x (s +:+ r).
Proof.
  revert s. induction (N.lt_wf_0 x) as [x _ IH]; intros s.
  assert (x = 0 \/ 0 < x)%N as [->|Hx] by lia; [rewrite !pretty_N_go_0; reflexivity|].
  rewrite !(pretty_N_go_step x) by assumption. rewrite IH by (apply N.div_lt; lia). reflexivity.
Qed.

(** What follows a number in the source text: not a letter, not a digit. *)
Definition stops (s : string) : Prop :=
  match s with String c _ => digit_val c = None | EmptyString => True end.

Lemma stops_digits acc b s : stops s -> digits b acc s = (acc, s).
Proof. destruct s as [|c s]; cbn; [reflexivity|]. unfold digit. intros ->. reflexivity. Qed.

Lemma pretty_char_plain d : (d < 10)%N ->
  isspace (pretty_N_char d) = false /\ is_char "-" (pretty_N_char d) = false /\
  is_char "+" (pretty_N_char d) = false /\ (is_char "0" (pretty_N_char d) = true -> d = 0%N).
Proof.
  intros H.
  assert (d = 0 \/ d = 1 \/ d = 2 \/ d = 3 \/ d = 4 \/ d = 5 \/ d = 6 \/ d = 7 \/ d = 8 \/ d = 9)%N as Hd by lia.
  repeat (destruct Hd as [->|Hd]; [cbn; repeat split; congruence|]). rewrite Hd. cbn. repeat split; congruence.
Qed.

(** The digits of a positive number, read in base 10 or 0. *)
Lemma strtol_digits b n r neg t : b = 0 \/ b = 10 -> stops r ->
  t = pretty (Npos n) +:+ r ->
  strtol_sign (skip_spaces t) = (false, t) /\
  (let '(base, u) := strtol_base b t in
   if starts_digit base u then let '(v, u) := digits base 0 u in (clamp_long (if neg : bool then - v else v), u) else (0, t))
  = (clamp_long (if neg then Zneg n else Zpos n), r).
Proof.
  intros Hb Hr ->. change (pretty (Npos n)) with (pretty_N_go (Npos n) ""). rewrite pretty_go_app.
  change ("" +:+ r) with r.
  destruct (pretty_go_head (Npos n) r ltac:(lia)) as (d & t & E & Hd).
  destruct (pretty_char_plain d ltac:(lia)) as (H1 & H2 & H3 & H4).
  assert (Hz : is_char "0" (pretty_N_char d) = false).
  { destruct (is_char "0" (pretty_N_char d)); [|reflexivity]. specialize (H4 eq_refl). lia. }
  destruct (digits_pretty_go (Npos n) r) as [k Hk]. specialize (Hk 0). rewrite E in *.
  split.
  - cbn [skip_spaces]. rewrite H1. cbn [strtol_sign]. rewrite H2, H3. reflexivity.
  - assert (strtol_base b (String (pretty_N_char d) t) = (10, String (pretty_N_char d) t)) as ->.
    { unfold strtol_base. rewrite Hz, Bool.andb_false_r. destruct t; destruct Hb as [->| ->]; reflexivity. }
    assert (starts_digit 10 (String (pretty_N_char d) t) = true) as ->.
    { cbn [starts_digit]. rewrite digit_pretty by lia. apply bool_decide_eq_true. eauto. }
    rewrite Hk. rewrite stops_digits by assumption. destruct neg; reflexivity.
Qed.

(** A printed number is read back, whatever text follows it. *)
Lemma strtol_pretty b z r : b = 0 \/ b = 10 -> LONG_MIN <= z <= LONG_MAX -> stops r ->
  strtol b (pretty z +:+ r) = (z, r).
Proof.
  intros Hb Hz Hr. assert (clamp_long z = z) as Hc by (unfold clamp_long; lia).
  destruct z as [|n|n].
  - change (pretty 0) with "0". change ("0" +:+ r) with (String "0" r). unfold strtol.
    assert (strtol_sign (skip_spaces (String "0" r)) = (false, String "0" r)) as -> by reflexivity.
    assert (exists b', strtol_base b (String "0" r) = (b', String "0" r) /\ (b' = 8 \/ b' = 10)) as (b' & -> & Hb').
    { unfold strtol_base. destruct r as [|x t]; [destruct Hb as [-> | ->]; eauto|].
      assert (is_char "x" x || is_char "X" x = false) as ->.
      { unfold is_char. cbn in Hr.
        destruct (Ascii.eqb_spec "x" x) as [<-|_]; [discriminate|].
        destruct (Ascii.eqb_spec "X" x) as [<-|_]; [discriminate|reflexivity]. }
      rewrite Bool.andb_false_r. destruct Hb as [-> | ->]; eauto. }
    destruct Hb' as [-> | ->]; cbn [starts_digit digits];
      change (digit 8 "0") with (Some 0); change (digit 10 "0") with (Some 0);
      cbn [bool_decide]; rewrite ?bool_decide_true by eauto; rewrite stops_digits by assumption; reflexivity.
  - destruct (strtol_digits b n r false _ Hb Hr eq_refl) as [H1 H2]. unfold strtol.
    change (pretty (Zpos n)) with (pretty (Npos n)). rewrite H1, H2, Hc. reflexivity.
  - destruct (strtol_digits b n r true _ Hb Hr eq_refl) as [_ H2]. unfold strtol.
    change (pretty (Zneg n) +:+ r) with (String "-" (pretty (Npos n) +:+ r)).
    change (strtol_sign (skip_spaces (String "-" (pretty (Npos n) +:+ r)))) with (true, pretty (Npos n) +:+ r).
    cbv beta iota. revert H2. destruct (strtol_base b _) as [base u]. destruct (starts_digit base u).
    + intros ->. rewrite Hc. reflexivity.
    + intros [= H ?]. exfalso. change (clamp_long (Z.neg n)) with (clamp_long (Zneg n)) in H. lia.
Qed.

Lemma atoi_pretty z : - 2 ^ 31 <= z < 2 ^ 31 -> atoi (pretty z) = z.
Proof.
  intros Hz. unfold atoi. replace (pretty z) with (pretty z +:+ "").
  - rewrite strtol_pretty; [apply swrap_small; lia|auto|unfold LONG_MIN, LONG_MAX; lia|exact I].
  - generalize (pretty z). intros s. induction s as [|c s IH]; [reflexivity|].
    change (String c (s +:+ "") = String c s). congruence.
Qed.

(** ** The first character of a number *)

Definition number_char (c : ascii) : bool := isdigit c || is_char "-" c.

Lemma pretty_Z_head (z : Z) : exists c t, pretty z = String c t /\ number_char c = true.
Proof.
  assert (Hp : forall n, exists c t, pretty (Npos n) = String c t /\ isdigit c = true).
  { intros n. destruct (pretty_go_head (Npos n) "" ltac:(lia)) as (d & t & E & Hd).
    exists (pretty_N_char d), t. split; [exact E|].
    assert (d = 1 \/ d = 2 \/ d = 3 \/ d = 4 \/ d = 5 \/ d = 6 \/ d = 7 \/ d = 8 \/ d = 9)%N as Hc by lia.
    repeat (destruct Hc as [->|Hc]; [reflexivity|]). rewrite Hc. reflexivity. }
  destruct z as [|n|n].
  - exists "0"%char, "". split; reflexivity.
  - destruct (Hp n) as (c & t & E & Hc). exists c, t. split; [exact E|]. unfold number_char. rewrite Hc. reflexivity.
  - exists "-"%char, (pretty (Npos n)). split; reflexivity.
Qed.

Lemma number_char_plain c : number_char c = true ->
  isspace c = false /\ forall d, number_char d = false -> is_char d c = false.
Proof.
  intros Hc. split.
  - unfold number_char, is_char in Hc. apply orb_prop in Hc as [Hc|Hc%Ascii.eqb_eq]; [|subst; reflexivity].
    unfold isdigit, isspace in *. apply andb_prop in Hc as [H1%Z.leb_le H2%Z.leb_le].
    destruct (Z.eqb_spec (cc c) 32); [lia|]. destruct (Z.leb_spec (cc c) 13); [lia|].
    rewrite Bool.andb_false_r. reflexivity.
  - intros d Hd. unfold is_char. apply Ascii.eqb_neq. congruence.
Qed.

Lemma str_app_length s t : String.length (s +:+ t) = (String.length s + String.length t)%nat.
Proof.
  induction s as [|c s IH]; [reflexivity|].
  change (String.length (String c s +:+ t)) with (S (String.length (s +:+ t))). rewrite IH. reflexivity.
Qed.

Lemma str_app_assoc (s t u : string) : (s +:+ t) +:+ u = s +:+ (t +:+ u).
Proof.
  induction s as [|c s IH]; [reflexivity|].
  change (String c ((s +:+ t) +:+ u) = String c (s +:+ (t +:+ u))). congruence.
Qed.

Lemma str_app_cons c s t : String c s +:+ t = String c (s +:+ t).
Proof. reflexivity. Qed.

Lemma str_app_nil (s : string) : s +:+ "" = s.
Proof. induction s as [|c s IH]; [reflexivity|]. rewrite str_app_cons. congruence. Qed.

Lemma streq_shorter s t : (String.length s < String.length t)%nat -> streq s t = false.
Proof. intros H. apply streq_false. intros ->. lia. Qed.

(** Where a number was read the end pointer has moved. *)
Lemma pretty_moved (z : Z) r : streq r (pretty z +:+ r) = false.
Proof.
  apply streq_shorter. destruct (pretty_Z_head z) as (c & t & -> & _).
  rewrite str_app_length. cbn. lia.
Qed.
