(* ===== verification/DecTypes.v ===== *)
(** * Data types of the decoder library ([archc/src/aclib/ac_decoder/ac_decoder.h])

    Formats, fields, decode lists and instructions, shared by the parser's
    semantic actions, the decoder generator and the binary-utilities generator.
    A linked list is a Rocq list; [next] pointers are the list's tail. *)
From S2P Require Import Prelude.

Record ac_dec_field := MkField {
  f_name : string;
  f_size : Z;
  f_first_bit : Z;
  f_id : Z;
  f_val : Z;
  f_sign : Z
}.

Record ac_dec_format := MkFormat {
  fmt_id : Z;
  fmt_name : string;
  fmt_size : Z;
  fmt_fields : list ac_dec_field
}.

(** One element of a decode list. *)
Record ac_dec_list := MkDec {
  dl_name : string;
  dl_id : Z;
  dl_value : Z
}.

Record ac_control_flow := MkCflow {
  cf_cond : option string;
  cf_target : option string;
  cf_delay_slot : Z;
  cf_delay_slot_cond : option string;
  cf_action : option string
}.

Record ac_dec_instr := MkInstr {
  i_name : string;
  i_size : Z;
  i_mnemonic : option string;
  i_asm_str : option string;
  i_format : string;
  i_id : Z;
  i_cycles : Z;
  i_min_latency : Z;
  i_max_latency : Z;
  i_dec_list : list ac_dec_list;
  i_cflow : option ac_control_flow
}.

Definition set_f_id (id : Z) (f : ac_dec_field) : ac_dec_field :=
  MkField (f_name f) (f_size f) (f_first_bit f) id (f_val f) (f_sign f).
Definition set_fmt_id (id : Z) (f : ac_dec_format) : ac_dec_format :=
  MkFormat id (fmt_name f) (fmt_size f) (fmt_fields f).
Definition set_fmt_fields (l : list ac_dec_field) (f : ac_dec_format) : ac_dec_format :=
  MkFormat (fmt_id f) (fmt_name f) (fmt_size f) l.
Definition set_dl_id (id : Z) (l : ac_dec_list) : ac_dec_list :=
  MkDec (dl_name l) id (dl_value l).
Definition set_i_dec_list (l : list ac_dec_list) (i : ac_dec_instr) : ac_dec_instr :=
  MkInstr (i_name i) (i_size i) (i_mnemonic i) (i_asm_str i) (i_format i) (i_id i)
    (i_cycles i) (i_min_latency i) (i_max_latency i) l (i_cflow i).
Definition set_i_size (n : Z) (i : ac_dec_instr) : ac_dec_instr :=
  MkInstr (i_name i) n (i_mnemonic i) (i_asm_str i) (i_format i) (i_id i)
    (i_cycles i) (i_min_latency i) (i_max_latency i) (i_dec_list i) (i_cflow i).
Definition set_i_cflow (c : option ac_control_flow) (i : ac_dec_instr) : ac_dec_instr :=
  MkInstr (i_name i) (i_size i) (i_mnemonic i) (i_asm_str i) (i_format i) (i_id i)
    (i_cycles i) (i_min_latency i) (i_max_latency i) (i_dec_list i) c.

#[export] Instance ac_dec_field_eq_dec : EqDecision ac_dec_field.
Proof. solve_decision. Defined.
#[export] Instance ac_dec_list_eq_dec : EqDecision ac_dec_list.
Proof. solve_decision. Defined.
#[export] Instance ac_control_flow_eq_dec : EqDecision ac_control_flow.
Proof. solve_decision. Defined.
#[export] Instance ac_dec_format_eq_dec : EqDecision ac_dec_format.
Proof. solve_decision. Defined.
#[export] Instance ac_dec_instr_eq_dec : EqDecision ac_dec_instr.
Proof. solve_decision. Defined.
