(* ===== verification/BjHash.v ===== *)
(** * Bob Jenkins' lookup3 hash ([archc/src/acpp/bj_hash.c])

    The three hash functions of the symbol table, over a byte-addressed memory.
    Loads follow the host's byte order; [hashlittle] and [hashbig] choose their
    loop by the alignment of the key as the C code does.  The theorems: [mix] is
    reversible, [hashlittle] computes one function of the key's bytes whatever
    the alignment and whatever lies after the key, [hashword] agrees with it on
    whole words, and [hashbig] agrees with [hashword] only on aligned keys made
    of whole words. *)
From S2P Require Import Prelude.

(** ** Word operations *)

Definition add32 (x y : Z) : Z := u32 (x + y).
Definition sub32 (x y : Z) : Z := u32 (x - y).
Definition shl32 (x k : Z) : Z := u32 (Z.shiftl x k).

Definition rot (x k : Z) : Z := Z.lxor (shl32 x k) (Z.shiftr x (32 - k)).

(** One line of the [mix] macro: [x -= z; x ^= rot(z, k); z += y]. *)
Definition mix_line (k : Z) (x y z : Z) : Z * Z * Z :=
  let x := sub32 x z in
  let x := Z.lxor x (rot z k) in
  let z := add32 z y in
  (x, y, z).

Definition mix (s : Z * Z * Z) : Z * Z * Z :=
  let '(a, b, c) := s in
  let '(a, b, c) := mix_line 4 a b c in
  let '(b, c, a) := mix_line 6 b c a in
  let '(c, a, b) := mix_line 8 c a b in
  let '(a, b, c) := mix_line 16 a b c in
  let '(b, c, a) := mix_line 19 b c a in
  let '(c, a, b) := mix_line 4 c a b in
  (a, b, c).

(** One line of the [final] macro: [x ^= y; x -= rot(y, k)]. *)
Definition final_line (k x y : Z) : Z := sub32 (Z.lxor x y) (rot y k).

Definition final (s : Z * Z * Z) : Z * Z * Z :=
  let '(a, b, c) := s in
  let c := final_line 14 c b in
  let a := final_line 11 a c in
  let b := final_line 25 b a in
  let c := final_line 16 c b in
  let a := final_line 4 a c in
  let b := final_line 14 b a in
  let c := final_line 24 c b in
  (a, b, c).

Definition third (s : Z * Z * Z) : Z := let '(_, _, c) := s in c.

(** ** Memory and the host's byte order *)

Section Memory.
(** [big]: the host is big endian; [mem]: the byte at each address. *)
Context (big : bool) (mem : Z -> Z).

Definition host_word (b0 b1 b2 b3 : Z) : Z :=
  if big then b3 + 256 * b2 + 65536 * b1 + 16777216 * b0
  else b0 + 256 * b1 + 65536 * b2 + 16777216 * b3.

Definition host_half (b0 b1 : Z) : Z := if big then b1 + 256 * b0 else b0 + 256 * b1.

(** The [endian] union test: [testchar.c[3] = 255] against [testint.i = 255]. *)
Definition host_is_big : bool := host_word 0 0 0 255 =? 255.

Definition load32 (p : Z) : Z := host_word (mem p) (mem (p + 1)) (mem (p + 2)) (mem (p + 3)).
Definition load16 (p : Z) : Z := host_half (mem p) (mem (p + 1)).

(** [while (length > limit) { absorb; mix; length -= limit; k += stride }];
    [None] when the fuel runs out, which the theorems exclude. *)
Fixpoint hash_loop (fuel : nat) (limit stride : Z) (absorb : Z -> Z * Z * Z -> Z * Z * Z)
    (p length : Z) (s : Z * Z * Z) : option (Z * Z * (Z * Z * Z)) :=
  match fuel with
  | O => None
  | S fuel =>
      if limit <? length
      then hash_loop fuel limit stride absorb (p + stride) (length - limit) (mix (absorb p s))
      else Some (p, length, s)
  end.

Definition absorb32 (p : Z) (s : Z * Z * Z) : Z * Z * Z :=
  let '(a, b, c) := s in
  (add32 a (load32 p), add32 b (load32 (p + 4)), add32 c (load32 (p + 8))).

(** *** hashword: the length counts words *)
Definition hashword_tail (p length : Z) (s : Z * Z * Z) : Z :=
  let '(a, b, c) := s in
  match length with
  | 3 => third (final (add32 a (load32 p), add32 b (load32 (p + 4)), add32 c (load32 (p + 8))))
  | 2 => third (final (add32 a (load32 p), add32 b (load32 (p + 4)), c))
  | 1 => third (final (add32 a (load32 p), b, c))
  | _ => c
  end.

Definition hashword (k length initval : Z) : option Z :=
  let i := u32 (0xdeadbeef + u32 (Z.shiftl (u32 length) 2) + initval) in
  '(p, length, s) ← hash_loop (S (Z.to_nat length)) 3 12 absorb32 k length (i, i, i);
  Some (hashword_tail p length s).

(** *** hashlittle *)

Definition absorb16 (p : Z) (s : Z * Z * Z) : Z * Z * Z :=
  let '(a, b, c) := s in
  (add32 a (add32 (load16 p) (shl32 (load16 (p + 2)) 16)),
   add32 b (add32 (load16 (p + 4)) (shl32 (load16 (p + 6)) 16)),
   add32 c (add32 (load16 (p + 8)) (shl32 (load16 (p + 10)) 16))).

Definition absorb8_word (x p : Z) : Z :=
  let x := add32 x (mem p) in
  let x := add32 x (shl32 (mem (p + 1)) 8) in
  let x := add32 x (shl32 (mem (p + 2)) 16) in
  add32 x (shl32 (mem (p + 3)) 24).

Definition absorb8 (p : Z) (s : Z * Z * Z) : Z * Z * Z :=
  let '(a, b, c) := s in
  (absorb8_word a p, absorb8_word b (p + 4), absorb8_word c (p + 8)).

(** The last block; [None] stands for the early [return c] of length 0. *)
Definition tail32 (p length : Z) (s : Z * Z * Z) : option (Z * Z * Z) :=
  let '(a, b, c) := s in
  let k0 := load32 p in
  let k1 := load32 (p + 4) in
  let k2 := load32 (p + 8) in
  match length with
  | 12 => Some (add32 a k0, add32 b k1, add32 c k2)
  | 11 => Some (add32 a k0, add32 b k1, add32 c (Z.land k2 0xffffff))
  | 10 => Some (add32 a k0, add32 b k1, add32 c (Z.land k2 0xffff))
  | 9 => Some (add32 a k0, add32 b k1, add32 c (Z.land k2 0xff))
  | 8 => Some (add32 a k0, add32 b k1, c)
  | 7 => Some (add32 a k0, add32 b (Z.land k1 0xffffff), c)
  | 6 => Some (add32 a k0, add32 b (Z.land k1 0xffff), c)
  | 5 => Some (add32 a k0, add32 b (Z.land k1 0xff), c)
  | 4 => Some (add32 a k0, b, c)
  | 3 => Some (add32 a (Z.land k0 0xffffff), b, c)
  | 2 => Some (add32 a (Z.land k0 0xffff), b, c)
  | 1 => Some (add32 a (Z.land k0 0xff), b, c)
  | _ => None
  end.

Definition tail16 (p length : Z) (s : Z * Z * Z) : option (Z * Z * Z) :=
  let '(a, b, c) := s in
  let k i := load16 (p + 2 * i) in
  let a4 := add32 a (add32 (k 0) (shl32 (k 1) 16)) in
  let b4 := add32 b (add32 (k 2) (shl32 (k 3) 16)) in
  match length with
  | 12 => Some (a4, b4, add32 c (add32 (k 4) (shl32 (k 5) 16)))
  | 11 => Some (a4, b4, add32 (add32 c (shl32 (Z.land (k 5) 0xff) 16)) (k 4))
  | 10 => Some (a4, b4, add32 c (k 4))
  | 9 => Some (a4, b4, add32 c (Z.land (k 4) 0xff))
  | 8 => Some (a4, b4, c)
  | 7 => Some (a4, add32 (add32 b (shl32 (Z.land (k 3) 0xff) 16)) (k 2), c)
  | 6 => Some (a4, add32 b (k 2), c)
  | 5 => Some (a4, add32 b (Z.land (k 2) 0xff), c)
  | 4 => Some (a4, b, c)
  | 3 => Some (add32 (add32 a (shl32 (Z.land (k 1) 0xff) 16)) (k 0), b, c)
  | 2 => Some (add32 a (k 0), b, c)
  | 1 => Some (add32 a (Z.land (k 0) 0xff), b, c)
  | _ => None
  end.

(** The byte-wise tail, shared text of [hashlittle] and [hashbig]: every case
    falls through, so byte [i] is added when [length > i]. *)
Definition tail8_word (x p from length : Z) : Z :=
  let x := if from + 3 <? length then add32 x (shl32 (mem (p + from + 3)) 24) else x in
  let x := if from + 2 <? length then add32 x (shl32 (mem (p + from + 2)) 16) else x in
  let x := if from + 1 <? length then add32 x (shl32 (mem (p + from + 1)) 8) else x in
  if from <? length then add32 x (mem (p + from)) else x.

Definition tail8 (p length : Z) (s : Z * Z * Z) : option (Z * Z * Z) :=
  let '(a, b, c) := s in
  if length =? 0 then None
  else Some (tail8_word a p 0 length, tail8_word b p 4 length, tail8_word c p 8 length).

(** [final(a, b, c); return c], or [return c] when the tail was empty. *)
Definition finish (s : Z * Z * Z) (t : option (Z * Z * Z)) : Z :=
  match t with Some t => third (final t) | None => third s end.

Definition hash_run (absorb : Z -> Z * Z * Z -> Z * Z * Z)
    (tail : Z -> Z -> Z * Z * Z -> option (Z * Z * Z)) (key length i : Z) : option Z :=
  '(p, length, s) ← hash_loop (S (Z.to_nat length)) 12 12 absorb key length (i, i, i);
  Some (finish s (tail p length s)).

Definition hashlittle (key length initval : Z) : option Z :=
  let hash_little_endian := negb host_is_big in
  let i := u32 (0xdeadbeef + u32 length + initval) in
  if hash_little_endian && (Z.land key 0x3 =? 0) then hash_run absorb32 tail32 key length i
  else if hash_little_endian && (Z.land key 0x1 =? 0) then hash_run absorb16 tail16 key length i
  else hash_run absorb8 tail8 key length i.

(** *** hashbig *)

Definition absorb8_big_word (x p : Z) : Z :=
  let x := add32 x (shl32 (mem p) 24) in
  let x := add32 x (shl32 (mem (p + 1)) 16) in
  let x := add32 x (shl32 (mem (p + 2)) 8) in
  add32 x (mem (p + 3)).

Definition absorb8_big (p : Z) (s : Z * Z * Z) : Z * Z * Z :=
  let '(a, b, c) := s in
  (absorb8_big_word a p, absorb8_big_word b (p + 4), absorb8_big_word c (p + 8)).

Definition tail32_big (p length : Z) (s : Z * Z * Z) : option (Z * Z * Z) :=
  let '(a, b, c) := s in
  let k0 := load32 p in
  let k1 := load32 (p + 4) in
  let k2 := load32 (p + 8) in
  match length with
  | 12 => Some (add32 a k0, add32 b k1, add32 c k2)
  | 11 => Some (add32 a k0, add32 b k1, add32 c (shl32 k2 8))
  | 10 => Some (add32 a k0, add32 b k1, add32 c (shl32 k2 16))
  | 9 => Some (add32 a k0, add32 b k1, add32 c (shl32 k2 24))
  | 8 => Some (add32 a k0, add32 b k1, c)
  | 7 => Some (add32 a k0, add32 b (shl32 k1 8), c)
  | 6 => Some (add32 a k0, add32 b (shl32 k1 16), c)
  | 5 => Some (add32 a k0, add32 b (shl32 k1 24), c)
  | 4 => Some (add32 a k0, b, c)
  | 3 => Some (add32 a (shl32 k0 8), b, c)
  | 2 => Some (add32 a (shl32 k0 16), b, c)
  | 1 => Some (add32 a (shl32 k0 24), b, c)
  | _ => None
  end.

Definition hashbig (key length initval : Z) : option Z :=
  let hash_big_endian := host_is_big in
  let i := u32 (0xdeadbeef + u32 length + initval) in
  if hash_big_endian && (Z.land key 0x3 =? 0) then hash_run absorb32 tail32_big key length i
  else hash_run absorb8_big tail8 key length i.

Definition bj_hash (key length initval : Z) : option Z :=
  if host_is_big then hashbig key length initval else hashlittle key length initval.
End Memory.

(** ** Reference function: lookup3 on a list of bytes *)

(** The little-endian value of a list of bytes. *)
Fixpoint le_value (bs : list Z) : Z :=
  match bs with [] => 0 | b :: bs => b + 256 * le_value bs end.

Definition add_block (bs : list Z) (s : Z * Z * Z) : Z * Z * Z :=
  let '(a, b, c) := s in
  (add32 a (le_value (take 4 bs)), add32 b (le_value (take 4 (drop 4 bs))),
   add32 c (le_value (take 4 (drop 8 bs)))).

Fixpoint lookup3_blocks (n : nat) (bs : list Z) (s : Z * Z * Z) : Z :=
  match n with
  | O => match bs with [] => third s | _ => third (final (add_block bs s)) end
  | S n => lookup3_blocks n (drop 12 bs) (mix (add_block bs s))
  end.

(** The hash of a key: all blocks of twelve bytes but the last are mixed. *)
Definition lookup3 (bs : list Z) (initval : Z) : Z :=
  let i := u32 (0xdeadbeef + Z.of_nat (length bs) + initval) in
  lookup3_blocks ((length bs - 1) / 12) bs (i, i, i).

(** The [n] bytes at address [p]. *)
Fixpoint bytes_at (mem : Z -> Z) (p : Z) (n : nat) : list Z :=
  match n with O => [] | S n => mem p :: bytes_at mem (p + 1) n end.

Definition is_byte (b : Z) : Prop := 0 <= b < 256.
Definition is_word (x : Z) : Prop := 0 <= x < 2 ^ 32.

(** The inverse of [mix]: its lines undone in reverse order. *)
Definition unmix_line (k : Z) (x y z : Z) : Z * Z * Z :=
  let z := sub32 z y in
  let x := Z.lxor x (rot z k) in
  let x := add32 x z in
  (x, y, z).

Definition unmix (s : Z * Z * Z) : Z * Z * Z :=
  let '(a, b, c) := s in
  let '(c, a, b) := unmix_line 4 c a b in
  let '(b, c, a) := unmix_line 19 b c a in
  let '(a, b, c) := unmix_line 16 a b c in
  let '(c, a, b) := unmix_line 8 c a b in
  let '(b, c, a) := unmix_line 6 b c a in
  let '(a, b, c) := unmix_line 4 a b c in
  (a, b, c).

(** The key "Four score and seven years ago", the vector of lookup3.c's own tests. *)
Definition ascii_mem (s : string) (p : Z) : Z :=
  match String.get (Z.to_nat p) s with Some c => Z.of_N (N_of_ascii c) | None => 0 end.
Example hashlittle_vector :
  hashlittle false (ascii_mem "Four score and seven years ago") 0 30 0 = Some 0x17770551.
Proof. vm_compute. reflexivity. Qed.

(** ** Reversibility of mix *)

Lemma is_word_u32 x : is_word (u32 x).
Proof. apply uwrap_range. lia. Qed.

Lemma is_word_lxor x y : is_word x -> is_word y -> is_word (Z.lxor x y).
Proof.
  intros Hx Hy. unfold is_word in *. assert (0 <= Z.lxor x y) by (apply Z.lxor_nonneg; lia).
  split; [assumption|]. apply bits_range; [lia|assumption|]. intros i Hi.
  rewrite Z.lxor_spec, (testbit_high 32 x), (testbit_high 32 y) by lia. reflexivity.
Qed.

Lemma is_word_rot x k : is_word x -> 0 <= k < 32 -> is_word (rot x k).
Proof.
  intros Hx Hk. apply is_word_lxor; [apply is_word_u32|].
  unfold is_word in *. rewrite Z.shiftr_div_pow2 by lia.
  pose proof (Z.pow_pos_nonneg 2 (32 - k)).
  split; [apply Z.div_pos; lia|]. apply Z.div_lt_upper_bound; nia.
Qed.

Lemma lxor_lxor_r x y : Z.lxor (Z.lxor x y) y = x.
Proof. rewrite Z.lxor_assoc, Z.lxor_nilpotent, Z.lxor_0_r. reflexivity. Qed.

Lemma sub32_add32 x y : is_word x -> sub32 (add32 x y) y = x.
Proof.
  intros. unfold sub32, add32. autorewrite with wrap.
  replace (x + y - y) with x by lia. apply uwrap_small. assumption.
Qed.

Lemma add32_sub32 x y : is_word x -> add32 (sub32 x y) y = x.
Proof.
  intros. unfold sub32, add32. autorewrite with wrap.
  replace (x - y + y) with x by lia. apply uwrap_small. assumption.
Qed.

Lemma mix_line_words k x y z :
  0 <= k < 32 -> is_word x -> is_word y -> is_word z ->
  exists x' z', mix_line k x y z = (x', y, z') /\ is_word x' /\ is_word z'.
Proof.
  intros. unfold mix_line. do 2 eexists. split; [reflexivity|].
  split; [apply is_word_lxor; [|apply is_word_rot]|]; try assumption; apply is_word_u32.
Qed.

Lemma unmix_mix_line k x y z :
  is_word x -> is_word z ->
  let '(x', y', z') := mix_line k x y z in unmix_line k x' y' z' = (x, y, z).
Proof.
  intros. unfold mix_line, unmix_line.
  rewrite sub32_add32 by assumption. rewrite lxor_lxor_r, add32_sub32 by assumption. reflexivity.
Qed.

(** Steps through one line of [mix] and undoes it. *)
Ltac mix_line_step :=
  match goal with
  | |- context [mix_line ?k ?x ?y ?z] =>
      let x' := fresh "x" in let z' := fresh "z" in let E := fresh "E" in
      let W := fresh "W" in let V := fresh "V" in
      destruct (mix_line_words k x y z) as (x' & z' & E & W & V);
        [lia|assumption..|];
      pose proof (unmix_mix_line k x y z ltac:(assumption) ltac:(assumption));
      rewrite E in *
  end.

(** [mix] is reversible: no two triples of 32-bit words have the same
    image, because undoing its six lines gives the triple back. *)
Theorem mix_reversible a b c :
  is_word a -> is_word b -> is_word c -> unmix (mix (a, b, c)) = (a, b, c).
Proof.
  intros. unfold mix. do 6 mix_line_step. unfold unmix.
  repeat match goal with H : unmix_line _ _ _ _ = _ |- _ => rewrite H; clear H end.
  reflexivity.
Qed.

Lemma mix_reversible_witness :
  (is_word 1 /\ is_word 2 /\ is_word 3) /\ unmix (mix (1, 2, 3)) = (1, 2, 3).
Proof. split; [unfold is_word; lia|]. apply (mix_reversible 1 2 3); unfold is_word; lia. Defined.

Definition words (s : Z * Z * Z) : Prop :=
  let '(a, b, c) := s in is_word a /\ is_word b /\ is_word c.

Lemma mix_words s : words s -> words (mix s).
Proof.
  destruct s as [[a b] c]. intros (? & ? & ?). unfold mix. do 6 mix_line_step. split; [|split]; assumption.
Qed.

Lemma add32_0_r x : is_word x -> add32 x 0 = x.
Proof. intros. unfold add32. rewrite Z.add_0_r. apply uwrap_small. assumption. Qed.

(** ** The blocks of a key *)

Section Blocks.
Context (mem : Z -> Z) (Hmem : forall p, is_byte (mem p)).

Lemma bytes_at_length p n : length (bytes_at mem p n) = n.
Proof. revert p. induction n; intros; cbn; [reflexivity|]. rewrite IHn. reflexivity. Qed.

Lemma bytes_at_drop p n m : drop m (bytes_at mem p n) = bytes_at mem (p + Z.of_nat m) (n - m).
Proof.
  revert p n. induction m; intros p n.
  - rewrite drop_0, Nat.sub_0_r. f_equal. lia.
  - destruct n; [reflexivity|]. cbn [bytes_at drop Nat.sub]. rewrite IHm. f_equal. lia.
Qed.

Lemma bytes_at_take p n m : take m (bytes_at mem p n) = bytes_at mem p (m `min` n).
Proof.
  revert p n. induction m; intros p n; [reflexivity|].
  destruct n; [reflexivity|]. cbn. rewrite IHm. reflexivity.
Qed.

Lemma add_block_words bs s : words (add_block bs s).
Proof. destruct s as [[a b] c]. split; [|split]; apply is_word_u32. Qed.

(** A whole block absorbed by each loop is [add_block] of its bytes. *)
Definition absorbs (absorb : Z -> Z * Z * Z -> Z * Z * Z) : Prop :=
  forall p n s, (12 <= n)%nat -> absorb p s = add_block (bytes_at mem p n) s.

(** A tail routine is [final] of the block when there are bytes left. *)
Definition finishes (tail : Z -> Z -> Z * Z * Z -> option (Z * Z * Z)) : Prop :=
  forall p n s, (n <= 12)%nat -> words s ->
    tail p (Z.of_nat n) s = match n with O => None | _ => Some (add_block (bytes_at mem p n) s) end.

Lemma lookup3_blocks_finish p n s : (n <= 12)%nat ->
  lookup3_blocks ((n - 1) / 12) (bytes_at mem p n) s
  = finish s (match n with O => None | _ => Some (add_block (bytes_at mem p n) s) end).
Proof.
  intros Hn. rewrite Nat.div_small by lia. destruct n; reflexivity.
Qed.

Lemma hash_loop_lookup3 absorb tail fuel p n s :
  absorbs absorb -> finishes tail -> words s -> (n < fuel)%nat ->
  ('(p, length, s) ← hash_loop fuel 12 12 absorb p (Z.of_nat n) s; Some (finish s (tail p length s)))
  = Some (lookup3_blocks ((n - 1) / 12) (bytes_at mem p n) s).
Proof.
  intros Habs Htail. revert p n s. induction fuel; intros p n s Hs Hn; [lia|].
  cbn [hash_loop]. destruct (Z.ltb_spec 12 (Z.of_nat n)).
  - rewrite (Habs _ n) by lia.
    replace (Z.of_nat n - 12) with (Z.of_nat (n - 12)) by lia.
    rewrite IHfuel by (try apply mix_words, add_block_words; lia).
    assert (((n - 1) / 12)%nat = S ((n - 12 - 1) / 12)) as ->.
    { replace (n - 1)%nat with (n - 12 - 1 + 1 * 12)%nat by lia. rewrite Nat.div_add by lia. lia. }
    cbn [lookup3_blocks]. rewrite bytes_at_drop. do 2 f_equal.
  - rewrite lookup3_blocks_finish by lia. cbn -[Nat.div Nat.sub]. rewrite Htail by (assumption || lia). reflexivity.
Qed.
End Blocks.

(** Splits a bounded natural number into its values. *)
Ltac cases_upto n k :=
  lazymatch k with
  | O => destruct n as [|n]; [|exfalso; lia]
  | S ?k => destruct n as [|n]; [|cases_upto n k]
  end.

Lemma shl32_mul x k m : 0 <= k -> m = 2 ^ k -> shl32 x k = u32 (x * m).
Proof. intros ? ->. unfold shl32. rewrite Z.shiftl_mul_pow2 by assumption. reflexivity. Qed.

(** Masking a word of bytes keeps its first bytes. *)
Lemma land_low x y k m n : 0 <= k -> m = Z.ones k -> n = 2 ^ k -> 0 <= x < n -> Z.land (x + n * y) m = x.
Proof.
  intros Hk -> -> Hx. rewrite Z.land_ones by assumption.
  rewrite Z.mul_comm, Z_mod_plus_full. apply Z.mod_small. assumption.
Qed.

Section Masks.
Context (b0 b1 b2 b3 : Z) (H0 : is_byte b0) (H1 : is_byte b1) (H2 : is_byte b2).
#[local] Notation word := (b0 + 256 * b1 + 65536 * b2 + 16777216 * b3).

Lemma mask_half : Z.land (b0 + 256 * b1) 0xff = b0.
Proof using H0. apply (land_low _ _ 8); (reflexivity || lia || apply H0). Qed.

Lemma mask_word1 : Z.land word 0xff = b0.
Proof using H0.
  replace word with (b0 + 256 * (b1 + 256 * b2 + 65536 * b3)) by lia.
  apply (land_low _ _ 8); (reflexivity || lia || apply H0).
Qed.

Lemma mask_word2 : Z.land word 0xffff = b0 + 256 * b1.
Proof using H0 H1.
  replace word with (b0 + 256 * b1 + 65536 * (b2 + 256 * b3)) by lia.
  unfold is_byte in *. apply (land_low _ _ 16); (reflexivity || lia).
Qed.

Lemma mask_word3 : Z.land word 0xffffff = b0 + 256 * b1 + 65536 * b2.
Proof using H0 H1 H2.
  unfold is_byte in *. apply (land_low _ _ 24); (reflexivity || lia).
Qed.
End Masks.

(** Shifted bytes and half-words do not wrap. *)
Lemma u32_byte_mul x m : is_byte x -> 0 <= m <= 16777216 -> u32 (x * m) = x * m.
Proof. unfold is_byte. intros. apply uwrap_small. nia. Qed.

Lemma u32_half_mul x y : is_byte x -> is_byte y -> u32 ((x + 256 * y) * 65536) = (x + 256 * y) * 65536.
Proof. unfold is_byte. intros. apply uwrap_small. lia. Qed.

Lemma triple_eq (a b c a' b' c' : Z) : a = a' -> b = b' -> c = c' -> (a, b, c) = (a', b', c').
Proof. intros -> -> ->. reflexivity. Qed.

(** Normalises sums of wrapped words of bytes and compares them linearly. *)
Ltac word_sum mem Hmem :=
  unfold add32, load16, load32, host_half, host_word;
  rewrite ?(shl32_mul _ 8 256), ?(shl32_mul _ 16 65536), ?(shl32_mul _ 24 16777216) by (reflexivity || lia);
  rewrite ?mask_word1, ?mask_word2, ?mask_word3, ?mask_half by apply Hmem;
  rewrite ?u32_half_mul, ?u32_byte_mul by (apply Hmem || lia);
  autorewrite with wrap; f_equal; repeat rewrite <- Z.add_assoc;
  rewrite ?take_0; cbn [le_value]; zlits; rewrite ?Z.add_0_r; ring.

Section LittleEndian.
Context (mem : Z -> Z) (Hmem : forall p, is_byte (mem p)).

Lemma absorb32_block : absorbs mem (absorb32 false mem).
Proof.
  intros p n [[a b] c] Hn. do 12 (destruct n as [|n]; [lia|]).
  cbn [bytes_at take drop add_block absorb32].
  apply triple_eq; word_sum mem Hmem.
Qed.

Lemma absorb16_block : absorbs mem (absorb16 false mem).
Proof.
  intros p n [[a b] c] Hn. do 12 (destruct n as [|n]; [lia|]).
  cbn [bytes_at take drop add_block absorb16].
  apply triple_eq; word_sum mem Hmem.
Qed.

Lemma absorb8_block : absorbs mem (absorb8 mem).
Proof.
  intros p n [[a b] c] Hn. do 12 (destruct n as [|n]; [lia|]).
  cbn [bytes_at take drop add_block absorb8]. unfold absorb8_word.
  apply triple_eq; word_sum mem Hmem.
Qed.

Ltac word_sum_or_refl :=
  match goal with |- ?x = ?x => reflexivity | _ => word_sum mem Hmem end.

Lemma tail32_block : finishes mem (tail32 false mem).
Proof.
  intros p n [[a b] c] Hn (? & ? & ?). cases_upto n 12%nat; [reflexivity|..].
  all: cbn [bytes_at take drop add_block tail32 Z.of_nat Pos.of_succ_nat Pos.succ].
  all: apply f_equal, triple_eq; change (le_value []) with 0; rewrite ?add32_0_r by assumption; word_sum_or_refl.
Qed.

Lemma tail16_block : finishes mem (tail16 false mem).
Proof.
  intros p n [[a b] c] Hn (? & ? & ?). cases_upto n 12%nat; [reflexivity|..].
  all: cbn [bytes_at take drop add_block tail16 Z.of_nat Pos.of_succ_nat Pos.succ Z.mul Pos.mul].
  all: apply f_equal, triple_eq; change (le_value []) with 0; rewrite ?add32_0_r by assumption; word_sum_or_refl.
Qed.

Lemma tail8_block : finishes mem (tail8 mem).
Proof.
  intros p n [[a b] c] Hn (? & ? & ?). cases_upto n 12%nat; [reflexivity|..].
  all: match goal with |- tail8 _ _ (Z.of_nat ?k) _ = _ =>
         let z := eval vm_compute in (Z.of_nat k) in change (Z.of_nat k) with z end.
  all: cbn [bytes_at take drop add_block tail8 Z.eqb]; unfold tail8_word; zlits; cbv iota.
  all: apply f_equal, triple_eq; change (le_value []) with 0; rewrite ?add32_0_r by assumption; word_sum_or_refl.
Qed.
End LittleEndian.

(** ** hashlittle is a function of the bytes of the key *)

Lemma u32_seed n iv : u32 (0xdeadbeef + u32 n + iv) = u32 (0xdeadbeef + n + iv).
Proof.
  replace (0xdeadbeef + u32 n + iv) with (u32 n + (0xdeadbeef + iv)) by lia.
  rewrite uwrap_add_l. f_equal. lia.
Qed.

Lemma hash_run_lookup3 mem absorb tail key n i :
  absorbs mem absorb -> finishes mem tail -> is_word i ->
  hash_run absorb tail key (Z.of_nat n) i
  = Some (lookup3_blocks ((n - 1) / 12) (bytes_at mem key n) (i, i, i)).
Proof.
  intros. unfold hash_run. apply hash_loop_lookup3; try assumption.
  - split; [|split]; assumption.
  - lia.
Qed.

Lemma hashlittle_bytes big mem key n initval :
  (forall p, is_byte (mem p)) ->
  hashlittle big mem key (Z.of_nat n) initval = Some (lookup3 (bytes_at mem key n) initval).
Proof.
  intros Hmem. unfold hashlittle, lookup3. rewrite bytes_at_length, u32_seed.
  pose proof (is_word_u32 (0xdeadbeef + Z.of_nat n + initval)).
  destruct big; cbn [host_is_big host_word negb andb].
  - apply hash_run_lookup3; auto using absorb8_block, tail8_block.
  - change (negb (host_is_big false)) with true. cbn [andb].
    repeat case_match; apply hash_run_lookup3;
      auto using absorb32_block, tail32_block, absorb16_block, tail16_block, absorb8_block, tail8_block.
Qed.

(** C1. [hashlittle] computes lookup3 of the bytes of the key on every host:
    its three loops agree whatever the alignment of the key, and the bytes that
    the word-wise loops read after the key do not matter. *)
Theorem hashlittle_lookup3 big mem key n initval :
  (forall p, is_byte (mem p)) ->
  hashlittle big mem key (Z.of_nat n) initval = Some (lookup3 (bytes_at mem key n) initval).
Proof. apply hashlittle_bytes. Qed.

Lemma hashlittle_lookup3_witness :
  (forall p, is_byte ((fun p => p mod 256) p)) /\
  hashlittle false (fun p => p mod 256) 5 30 0 = Some (lookup3 (bytes_at (fun p => p mod 256) 5 30) 0).
Proof.
  assert (H : forall p, is_byte ((fun p => p mod 256) p)).
  { intros p. unfold is_byte. apply Z.mod_pos_bound. lia. }
  split; [exact H|]. exact (hashlittle_lookup3 false (fun p => p mod 256) 5 30 0 H).
Defined.

(** ** hashword *)

Section Words.
Context (big : bool) (mem : Z -> Z).

Lemma hash_loop_fuel_mono limit absorb fuel fuel' p n s r :
  hash_loop fuel limit 12 absorb p n s = Some r -> (fuel <= fuel')%nat ->
  hash_loop fuel' limit 12 absorb p n s = Some r.
Proof.
  revert fuel' p n s. induction fuel; intros fuel' p n s Hr Hle; [discriminate|].
  destruct fuel'; [lia|]. cbn in *. case_match; [|assumption]. apply IHfuel; [assumption|lia].
Qed.

(** The word-counting loop runs as the byte-counting loop, and ends within
    its fuel with at most three words left. *)
Lemma hash_loop_words absorb fuel p n s :
  (n < fuel)%nat ->
  exists p' l s', hash_loop fuel 3 12 absorb p (Z.of_nat n) s = Some (p', Z.of_nat l, s') /\
    hash_loop fuel 12 12 absorb p (4 * Z.of_nat n) s = Some (p', 4 * Z.of_nat l, s') /\ (l <= 3)%nat.
Proof.
  revert p n s. induction fuel; intros p n s Hn; [lia|]. cbn.
  destruct (Z.ltb_spec 3 (Z.of_nat n)), (Z.ltb_spec 12 (4 * Z.of_nat n)); try lia.
  - destruct (IHfuel (p + 12) (n - 3)%nat (mix (absorb p s))) as (p' & l & s' & H1 & H2 & H3); [lia|].
    exists p', l, s'. rewrite <- H1, <- H2.
    split; [f_equal; lia|]. split; [f_equal; lia|assumption].
  - exists p, n, s. split; [reflexivity|]. split; [reflexivity|lia].
Qed.

Lemma hashword_tail_words p l s : (l <= 3)%nat ->
  hashword_tail big mem p (Z.of_nat l) s = finish s (tail32 big mem p (4 * Z.of_nat l) s) /\
  tail32_big big mem p (4 * Z.of_nat l) s = tail32 big mem p (4 * Z.of_nat l) s.
Proof. intros. destruct s as [[a b] c]. cases_upto l 3%nat; split; reflexivity. Qed.

Lemma hashword_run tail key n initval :
  (forall p l s, (l <= 3)%nat -> tail p (4 * Z.of_nat l) s = tail32 big mem p (4 * Z.of_nat l) s) ->
  hashword big mem key (Z.of_nat n) initval
  = hash_run (absorb32 big mem) tail key (4 * Z.of_nat n) (u32 (0xdeadbeef + 4 * Z.of_nat n + initval)).
Proof.
  intros Htail. unfold hashword, hash_run.
  assert (u32 (Z.shiftl (u32 (Z.of_nat n)) 2) = u32 (4 * Z.of_nat n)) as ->.
  { rewrite Z.shiftl_mul_pow2 by lia. unfold uwrap. rewrite Z.mul_mod_idemp_l by lia. f_equal. lia. }
  rewrite u32_seed, Nat2Z.id. set (i := u32 _).
  destruct (hash_loop_words (absorb32 big mem) (S n) key n (i, i, i)) as (p' & l & s' & E1 & E2 & Hl); [lia|].
  rewrite E1. apply (hash_loop_fuel_mono _ _ _ (S (Z.to_nat (4 * Z.of_nat n)))) in E2; [|lia].
  rewrite E2. cbn -[tail32 Z.mul hashword_tail]. rewrite Htail by assumption.
  rewrite (proj1 (hashword_tail_words _ _ _ Hl)). reflexivity.
Qed.
End Words.

(** On an aligned key made of whole words, [hashword] agrees with the hash
    the host uses: [hashlittle] on little-endian machines and [hashbig] on
    big-endian ones. *)
Theorem hashword_bj_hash big mem key n initval :
  Z.land key 3 = 0 ->
  hashword big mem key (Z.of_nat n) initval = bj_hash big mem key (4 * Z.of_nat n) initval.
Proof.
  intros Hkey. unfold bj_hash, hashlittle, hashbig. rewrite !u32_seed, Hkey.
  destruct big; cbn -[Z.mul Z.of_nat hash_run].
  - apply hashword_run. intros. apply hashword_tail_words. assumption.
  - apply hashword_run. reflexivity.
Qed.

Lemma hashword_bj_hash_witness :
  Z.land 8 3 = 0 /\
  hashword true (fun p => p mod 256) 8 5 7 = bj_hash true (fun p => p mod 256) 8 20 7.
Proof. split; [reflexivity|]. apply (hashword_bj_hash true (fun p => p mod 256) 8 5 7). reflexivity. Defined.

(** On a big-endian host the hash of a string is not a function of its
    bytes: the aligned loop of [hashbig] shifts the last partial word left, so
    it drops the key's byte and adds the byte after the key, and the byte-wise
    loop adds the last block in little-endian order. *)
Theorem hashbig_not_a_function_of_the_key :
  (exists mem mem', bytes_at mem 0 3 = bytes_at mem' 0 3 /\ bj_hash true mem 0 3 0 <> bj_hash true mem' 0 3 0) /\
  (exists mem, bytes_at mem 0 4 = bytes_at mem 5 4 /\ bj_hash true mem 0 4 0 <> bj_hash true mem 5 4 0).
Proof.
  split.
  - exists (ascii_mem "abc"), (ascii_mem "abcd"). split; [reflexivity|]. vm_compute. congruence.
  - exists (ascii_mem "abcd abcd"). split; [reflexivity|]. vm_compute. congruence.
Qed.
