(* ===== verification/SymTab.v ===== *)
(** * The preprocessor's symbol table ([archc/src/acpp/core_actions.c])

    512 buckets of linked entries, indexed by the low 9 bits of [bj_hash] of the
    name.  The client sees the abstract table of the class [SymbolMap]: a finite
    map from names to entries in which the first definition of a name stays. *)
From S2P Require Import Prelude BjHash.

(** [ac_parser_type] *)
Inductive ac_parser_type := INSTR | INSTR_FMT | REG_FMT | INSTR_GRP | GEN_ID.

#[export] Instance ac_parser_type_eq_dec : EqDecision ac_parser_type.
Proof. solve_decision. Defined.

Definition ST_IDX_SIZE : Z := 9.

(** The bytes of a string and its hash on a little-endian host. *)
Fixpoint bytes_of (s : string) : list Z :=
  match s with EmptyString => [] | String c s => Z.of_N (N_of_ascii c) :: bytes_of s end.
Definition string_hash (s : string) : Z := lookup3 (bytes_of s) 0.

Definition st_index (name : string) : nat :=
  Z.to_nat (Z.land (string_hash name) (Z.shiftl 1 ST_IDX_SIZE - 1)).

Section Table.
(** [A]: what the [void *] of an entry points to. *)
Context {A : Type}.

Record symbol_table_entry := MkEntry {
  st_name : string;
  st_type : ac_parser_type;
  st_info : A
}.

Notation symbol_table := (list (list symbol_table_entry)).

(** The loop of [init_core_actions]. *)
Definition empty_table : symbol_table := replicate (Z.to_nat (Z.shiftl 1 ST_IDX_SIZE)) [].

(** The [type] argument is not used. *)
Definition find_symbol (t : symbol_table) (name : string) (type : ac_parser_type)
    : exec (option symbol_table_entry) :=
  p ← of_option (t !! st_index name);
  Ret (list_first (fun e => streq (st_name e) name) p).

Definition add_symbol (t : symbol_table) (name : string) (type : ac_parser_type) (info : A)
    : exec (symbol_table * Z) :=
  p ← find_symbol t name type;
  match p with
  | Some _ => Ret (t, 0)
  | None =>
      b ← of_option (t !! st_index name);
      Ret (<[st_index name := b ++ [MkEntry name type info]]> t, 1)
  end.
End Table.
Arguments symbol_table_entry : clear implicits.
Notation symbol_table A := (list (list (symbol_table_entry A))).

(** ** The interface *)

(** A table of type [T] that holds a finite map of entries and offers the two
    operations; the client relies on these laws only. *)
Class SymbolMap (A T : Type) := {
  sm_holds : T -> gmap string (symbol_table_entry A) -> Prop;
  sm_empty : T;
  sm_find : T -> string -> ac_parser_type -> exec (option (symbol_table_entry A));
  sm_add : T -> string -> ac_parser_type -> A -> exec (T * Z);
  sm_holds_empty : sm_holds sm_empty ∅;
  sm_find_ok t m name ty : sm_holds t m -> sm_find t name ty = Ret (m !! name);
  sm_add_new t m name ty info : sm_holds t m -> m !! name = None ->
    exists t', sm_add t name ty info = Ret (t', 1) /\ sm_holds t' (<[name := MkEntry name ty info]> m);
  sm_add_old t m name ty info e : sm_holds t m -> m !! name = Some e ->
    sm_add t name ty info = Ret (t, 0)
}.

(** ** The hash *)

Lemma bytes_of_length s : length (bytes_of s) = String.length s.
Proof. induction s as [|c s IH]; cbn; [reflexivity|]. rewrite IH. reflexivity. Qed.

Lemma bytes_of_byte s : Forall is_byte (bytes_of s).
Proof.
  induction s as [|c s IH]; cbn; constructor; [|assumption]. unfold is_byte.
  pose proof (N_ascii_bounded c). lia.
Qed.

(** On a little-endian host [string_hash] is what [bj_hash] returns, wherever
    the string is stored. *)
Lemma string_hash_bj_hash mem key s :
  (forall p, is_byte (mem p)) -> bytes_at mem key (String.length s) = bytes_of s ->
  bj_hash false mem key (Z.of_nat (String.length s)) 0 = Some (string_hash s).
Proof.
  intros Hmem Hs. unfold bj_hash, string_hash. rewrite <- Hs.
  exact (hashlittle_bytes false mem key (String.length s) 0 Hmem).
Qed.

Lemma st_index_lt name : (st_index name < 512)%nat.
Proof.
  unfold st_index. change (Z.shiftl 1 ST_IDX_SIZE - 1) with (Z.ones 9).
  rewrite Z.land_ones by lia. pose proof (Z.mod_pos_bound (string_hash name) (2 ^ 9)). lia.
Qed.

(** ** The table implements the map *)

Section Refinement.
Context {A : Type}.
Implicit Types (t : symbol_table A) (m : gmap string (symbol_table_entry A)).

Record holds t m : Prop := {
  holds_length : length t = 512%nat;
  holds_in i b e : t !! i = Some b -> e ∈ b -> i = st_index (st_name e) /\ m !! st_name e = Some e;
  holds_all name e : m !! name = Some e ->
    st_name e = name /\ exists b, t !! st_index name = Some b /\ e ∈ b
}.

Lemma bucket t m name : holds t m -> exists b, t !! st_index name = Some b.
Proof. intros H. apply lookup_lt_is_Some. rewrite (holds_length _ _ H). apply st_index_lt. Qed.

Lemma holds_empty : holds empty_table ∅.
Proof.
  split; [reflexivity| |].
  - intros i b e Hb He. apply lookup_replicate in Hb as [-> _]. inversion He.
  - intros name e H. rewrite lookup_empty in H. discriminate.
Qed.

Lemma find_symbol_ok t m name ty : holds t m -> find_symbol t name ty = Ret (m !! name).
Proof.
  intros H. unfold find_symbol. destruct (bucket t m name H) as [b Hb]. rewrite Hb. cbn. f_equal.
  destruct (list_first _ b) as [e|] eqn:E.
  - apply list_first_Some in E as [Hin <-%streq_spec]. symmetry.
    apply (holds_in _ _ H _ _ _ Hb Hin).
  - destruct (m !! name) as [e|] eqn:Em; [|reflexivity]. rewrite list_first_None in E.
    destruct (holds_all _ _ H _ _ Em) as (Hn & b' & Hb' & Hin). replace b' with b in * by congruence.
    specialize (E e Hin). rewrite Hn, streq_refl in E. discriminate.
Qed.

Lemma add_symbol_new t m name ty info : holds t m -> m !! name = None ->
  exists t', add_symbol t name ty info = Ret (t', 1) /\ holds t' (<[name := MkEntry name ty info]> m).
Proof.
  intros H Hm. unfold add_symbol. rewrite (find_symbol_ok _ _ _ _ H), Hm. cbn.
  destruct (bucket t m name H) as [b Hb]. rewrite Hb. cbn. eexists. split; [reflexivity|].
  pose proof (st_index_lt name) as Hlt. pose proof (holds_length _ _ H) as Hlen.
  split; [rewrite length_insert; assumption| |].
  - intros i b' e Hi He. apply list_lookup_insert_Some in Hi as [(<- & <- & _)|(Hne & Hi)].
    + apply elem_of_app in He as [He|He%list_elem_of_singleton].
      * destruct (holds_in _ _ H _ _ _ Hb He) as [Hi Hl]. split; [assumption|].
        rewrite lookup_insert_ne by congruence. assumption.
      * subst e. cbn. split; [reflexivity|]. apply lookup_insert_eq.
    + destruct (holds_in _ _ H _ _ _ Hi He) as [-> Hl]. split; [reflexivity|].
      rewrite lookup_insert_ne by congruence. assumption.
  - intros n e Hn. apply lookup_insert_Some in Hn as [(-> & <-)|(Hne & Hn)].
    + split; [reflexivity|]. eexists. rewrite list_lookup_insert_eq by lia. split; [reflexivity|].
      apply elem_of_app. right. apply list_elem_of_singleton. reflexivity.
    + destruct (holds_all _ _ H _ _ Hn) as (Hname & b' & Hb' & Hin). split; [assumption|].
      destruct (decide (st_index name = st_index n)) as [Heq|Hi].
      * rewrite <- Heq in *. eexists. rewrite list_lookup_insert_eq by lia. split; [reflexivity|].
        apply elem_of_app. left. congruence.
      * exists b'. rewrite list_lookup_insert_ne by assumption. auto.
Qed.

Lemma add_symbol_old t m name ty info e : holds t m -> m !! name = Some e ->
  add_symbol t name ty info = Ret (t, 0).
Proof. intros H Hm. unfold add_symbol. rewrite (find_symbol_ok _ _ _ _ H), Hm. reflexivity. Qed.

#[export] Instance hash_table : SymbolMap A (symbol_table A) := {
  sm_holds := holds;
  sm_empty := empty_table;
  sm_find := find_symbol;
  sm_add := add_symbol;
  sm_holds_empty := holds_empty;
  sm_find_ok := find_symbol_ok;
  sm_add_new := add_symbol_new;
  sm_add_old := add_symbol_old
}.
End Refinement.

(** ** Runs of definitions *)

Section Runs.
Context {A : Type}.

Fixpoint add_symbols (t : symbol_table A) (l : list (string * ac_parser_type * A)) : exec (symbol_table A) :=
  match l with
  | [] => Ret t
  | (name, ty, info) :: l => '(t, _) ← add_symbol t name ty info; add_symbols t l
  end.

(** The first definition of a name in a list. *)
Definition first_definition (l : list (string * ac_parser_type * A)) (name : string)
    : option (symbol_table_entry A) :=
  (fun '(name, ty, info) => MkEntry name ty info) <$> list_first (fun '(n, _, _) => streq n name) l.

Lemma add_symbols_ok l : forall t m, holds t m ->
  exists t' m', add_symbols t l = Ret t' /\ holds t' m' /\
    forall name, m' !! name = match m !! name with Some e => Some e | None => first_definition l name end.
Proof.
  induction l as [|[[name ty] info] l IH]; intros t m H; cbn [add_symbols].
  - exists t, m. split; [reflexivity|]. split; [assumption|]. intros n. destruct (m !! n); reflexivity.
  - destruct (m !! name) as [e|] eqn:Em.
    + rewrite (add_symbol_old _ _ _ _ _ _ H Em). cbn.
      destruct (IH t m H) as (t' & m' & E & H' & Hm). exists t', m'. split; [assumption|].
      split; [assumption|]. intros n. rewrite Hm. destruct (m !! n) eqn:En; [reflexivity|].
      unfold first_definition. cbn. rewrite (proj2 (streq_false name n)) by congruence. reflexivity.
    + destruct (add_symbol_new _ _ _ ty info H Em) as (t1 & E1 & H1). rewrite E1. cbn.
      destruct (IH _ _ H1) as (t' & m' & E & H' & Hm). exists t', m'. split; [assumption|].
      split; [assumption|]. intros n. rewrite Hm. unfold first_definition. cbn.
      destruct (decide (name = n)) as [<-|Hne].
      * rewrite lookup_insert_eq, Em, streq_refl. reflexivity.
      * rewrite lookup_insert_ne, (proj2 (streq_false name n)) by assumption. reflexivity.
Qed.
End Runs.

(** C6. The symbol table refines a finite map in which the first definition of a
    name wins: after any sequence of [add_symbol] on the table that
    [init_core_actions] builds, [find_symbol] returns the first entry added with
    that name, of whatever type it is, and never runs out of the buckets; a
    further [add_symbol] succeeds exactly when the name is new. *)
Theorem symbol_table_first_definition {A} (l : list (string * ac_parser_type * A)) :
  exists t, add_symbols empty_table l = Ret t /\
    (forall name ty, find_symbol t name ty = Ret (first_definition l name)) /\
    forall name ty info, exists t', add_symbol t name ty info =
      Ret (t', match first_definition l name with Some _ => 0 | None => 1 end).
Proof.
  destruct (add_symbols_ok l empty_table ∅ holds_empty) as (t & m & E & H & Hm).
  assert (Hd : forall name, m !! name = first_definition l name).
  { intros name. rewrite Hm, lookup_empty. reflexivity. }
  exists t. split; [assumption|]. split.
  - intros name ty. rewrite (find_symbol_ok t m), Hd by assumption. reflexivity.
  - intros name ty info. rewrite <- Hd. destruct (m !! name) as [e|] eqn:Em.
    + exists t. apply (add_symbol_old t m name ty info e); assumption.
    + destruct (add_symbol_new t m name ty info H Em) as (t' & E' & _). exists t'. assumption.
Qed.
