(* ===== verification/AcDecoder.v ===== *)
(** * Decoder generator and run-time decoder ([archc/src/aclib/ac_decoder/ac_decoder.c])

    [CreateDecoder] numbers the distinct fields of the formats ([PutIDs]) and
    inserts the decode list of each instruction in a tree ([AddToDecoder]);
    [Decode] searches the tree with an explicit stack of at most 64 levels and
    backtracking, then extracts the operands.  A pointer to an instruction is
    its index in the instruction list, a NULL tree is [DNull].  [GetBits], which
    the simulators provide, is a parameter. *)
From S2P Require Import Prelude DecTypes.

(** ** Data *)

Inductive ac_decoder :=
  | DNull
  | DNode (check : ac_dec_list) (found : option nat) (subcheck next : ac_decoder).

Record ac_decoder_full := MkFull {
  full_decoder : ac_decoder;
  full_formats : list ac_dec_format;
  full_fields : list ac_dec_field;
  full_instructions : list ac_dec_instr;
  full_nFields : Z
}.

(** ** Fields *)

Definition CheckFields (f1 f2 : ac_dec_field) : bool :=
  (f_size f1 =? f_size f2) && (f_first_bit f1 =? f_first_bit f2) && (f_sign f1 =? f_sign f2).

Definition FindDecField (fields : list ac_dec_field) (id : Z) : option ac_dec_field :=
  list_first (fun f => f_id f =? id) fields.

(** One field [tmp] of a format against the vector [fields] built so far:
    an equal field's id is reused, otherwise the field enters the vector. *)
Definition PutIDs_field (fields : list ac_dec_field) (tmp : ac_dec_field)
    : list ac_dec_field * ac_dec_field :=
  match list_first (fun f => CheckFields f tmp) fields with
  | Some f => (fields, set_f_id (f_id f) tmp)
  | None =>
      let tmp := set_f_id (Z.of_nat (length fields) + 1) tmp in
      (fields ++ [tmp], tmp)
  end.

Fixpoint PutIDs_fields (fields tmps : list ac_dec_field) : list ac_dec_field * list ac_dec_field :=
  match tmps with
  | [] => (fields, [])
  | tmp :: tmps =>
      let '(fields, tmp) := PutIDs_field fields tmp in
      let '(fields, tmps) := PutIDs_fields fields tmps in
      (fields, tmp :: tmps)
  end.

Fixpoint PutIDs_formats (fields : list ac_dec_field) (formats : list ac_dec_format)
    : list ac_dec_field * list ac_dec_format :=
  match formats with
  | [] => (fields, [])
  | f :: formats =>
      let '(fields, tmps) := PutIDs_fields fields (fmt_fields f) in
      let '(fields, formats) := PutIDs_formats fields formats in
      (fields, set_fmt_fields tmps f :: formats)
  end.

(** Returns the vector of distinct fields and the formats with the ids set. *)
Definition PutIDs (formats : list ac_dec_format) : list ac_dec_field * list ac_dec_format :=
  PutIDs_formats [] formats.

Definition FindFormat (formats : list ac_dec_format) (name : string) : exec ac_dec_format :=
  match list_first (fun f => streq (fmt_name f) name) formats with
  | Some f => Ret f
  | None => Exit ("Invalid format name " +:+ name +:+ "." +:+ nl)
  end.

Definition GetInstrByID (instr : list ac_dec_instr) (id : Z) : exec ac_dec_instr :=
  match list_first (fun i => i_id i =? id) instr with
  | Some i => Ret i
  | None => Exit ("Invalid instruction ID " +:+ pretty id +:+ "." +:+ nl)
  end.

(** ** Building the tree *)

(** [l->id = f->id] for the first field of the format with the same name. *)
Definition assign_id (fmt : ac_dec_format) (l : ac_dec_list) : ac_dec_list :=
  match list_first (fun f => streq (f_name f) (dl_name l)) (fmt_fields fmt) with
  | Some f => set_dl_id (f_id f) l
  | None => l
  end.

(** The chain appended under the node of an instruction: the fields of the
    format whose id is not in the decode list, in order. *)
Fixpoint operand_chain (dec_list : list ac_dec_list) (fields : list ac_dec_field) : ac_decoder :=
  match fields with
  | [] => DNull
  | f :: fields =>
      match list_first (fun l => dl_id l =? f_id f) dec_list with
      | Some _ => operand_chain dec_list fields
      | None => DNode (MkDec (f_name f) (f_id f) (-1)) None (operand_chain dec_list fields) DNull
      end
  end.

Definition same_check (c l : ac_dec_list) : bool :=
  (dl_id c =? dl_id l) && (dl_value c =? dl_value l).

Section Insert.
(** [name_of]: the name of an instruction, for the conflict message. *)
Context (name_of : nat -> string) (k : nat) (chain : ac_decoder).

Definition conflict (k' : nat) : exec ac_decoder :=
  Exit ("ERROR building instruction decoder: decoding conflict between " +:+ name_of k'
        +:+ " and " +:+ name_of k +:+ "." +:+ nl).

(** The [while (l)] walk of [AddToDecoder]: the current node is compared with
    the head of the list; a NULL node is created with that head. *)
Fixpoint add_walk (l : list ac_dec_list) : ac_decoder -> exec ac_decoder :=
  match l with
  | [] => fun d => Ret d
  | c :: l' =>
      fix walk (d : ac_decoder) : exec ac_decoder :=
        match d with
        | DNull =>
            match l' with
            | [] => Ret (DNode c (Some k) chain DNull)
            | _ => sub ← add_walk l' DNull; Ret (DNode c None sub DNull)
            end
        | DNode check found sub next =>
            if same_check check c then
              match found with
              | Some k' => conflict k'
              | None =>
                  match l' with
                  | [] => Ret (DNode check (Some k) chain next)
                  | _ => sub ← add_walk l' sub; Ret (DNode check found sub next)
                  end
              end
            else next ← walk next; Ret (DNode check found sub next)
        end
  end.
End Insert.

(** Returns the new tree and the instruction with the ids of its list set. *)
Definition AddToDecoder (name_of : nat -> string) (decoder : ac_decoder) (k : nat)
    (instruction : ac_dec_instr) (fmt : ac_dec_format) : exec (ac_decoder * ac_dec_instr) :=
  match i_dec_list instruction with
  | [] => Exit ("Error: Instruction " +:+ i_name instruction +:+ " doesn't have a decode list." +:+ nl)
  | l =>
      let l := assign_id fmt <$> l in
      d ← add_walk name_of k (operand_chain l (fmt_fields fmt)) l decoder;
      Ret (d, set_i_dec_list l instruction)
  end.

Fixpoint number_formats (nFormats : Z) (formats : list ac_dec_format) : list ac_dec_format :=
  match formats with
  | [] => []
  | f :: formats => set_fmt_id nFormats f :: number_formats (nFormats + 1) formats
  end.

Definition count_fields (formats : list ac_dec_format) : nat :=
  sum_list_with (fun f => length (fmt_fields f)) formats.

Fixpoint add_instructions (name_of : nat -> string) (formats : list ac_dec_format) (k : nat)
    (dec : ac_decoder) (instrs : list ac_dec_instr) : exec (ac_decoder * list ac_dec_instr) :=
  match instrs with
  | [] => Ret (dec, [])
  | instr :: instrs =>
      fmt ← FindFormat formats (i_format instr);
      '(dec, instr) ← AddToDecoder name_of dec k instr fmt;
      '(dec, instrs) ← add_instructions name_of formats (S k) dec instrs;
      Ret (dec, set_i_size (Z.quot (fmt_size fmt) 8) instr :: instrs)
  end.

Definition instr_name (instrs : list ac_dec_instr) (k : nat) : string :=
  match instrs !! k with Some i => i_name i | None => "" end.

Definition CreateDecoder (formats : list ac_dec_format) (instructions : list ac_dec_instr)
    : exec ac_decoder_full :=
  let nFields := Z.of_nat (count_fields formats) + 1 in
  let '(allFields, formats) := PutIDs (number_formats 0 formats) in
  '(dec, instructions) ← add_instructions (instr_name instructions) formats 0 DNull instructions;
  Ret (MkFull dec formats allFields instructions nFields).

(** ** The run-time decoder *)

(** The size of [chosenPath]. *)
Definition MAX_DECODER_DEPTH : nat := 64.

(** How the search ends: at the node of an instruction, with the chain of its
    operands, or without a match. *)
Inductive search_result :=
  | Found (k : nat) (operands : ac_decoder) (fields : list Z)
  | NotFound.

Section Decode.
(** [GetBits buffer &quant first_bit size sign], assigned to a [long long];
    [fields]: the vector of distinct fields. *)
Context (GetBits : Z -> Z -> Z -> Z) (allFields : list ac_dec_field).

Definition field_bits (f : ac_dec_field) : Z := s64 (GetBits (f_first_bit f) (f_size f) (f_sign f)).

(** The locals [field] and [field_value]; [None] is [field = 0]. *)
Notation cache := (option (ac_dec_field * Z)).

(** [if (d && d->check->id != field->id) field = 0;]: dereferences [field]
    only when [d] is not NULL. *)
Definition keep_field (d : ac_decoder) (field : cache) : exec cache :=
  match d with
  | DNull => Ret field
  | DNode check _ _ _ =>
      '(f, v) ← of_option field;
      Ret (if dl_id check =? f_id f then Some (f, v) else None)
  end.

(** [while ((d == NULL) && (chosenPathPos > 0))]: pops one level and goes on
    with the sibling of the node entered there.  [chosenPath[chosenPathPos]]
    is always [d]; [below] holds the entries under it, innermost first. *)
Fixpoint backtrack (d : ac_decoder) (field : cache) (below : list ac_decoder)
    : exec (ac_decoder * cache * list ac_decoder) :=
  match d, below with
  | DNull, top :: below =>
      match top with
      | DNull => Crash
      | DNode _ _ _ next => field ← keep_field next field; backtrack next field below
      end
  | _, _ => Ret (d, field, below)
  end.

(** [fields[id] = value] on the operand vector. *)
Definition set_operand (fields : list Z) (id value : Z) : exec (list Z) :=
  if (0 <=? id) && (id <? Z.of_nat (length fields))
  then Ret (<[Z.to_nat id := u32 value]> fields) else Crash.

(** [while (d)]; out of fuel it crashes, which the theorems exclude. *)
Fixpoint search (fuel : nat) (d : ac_decoder) (field : cache) (below : list ac_decoder)
    (fields : list Z) : exec search_result :=
  match fuel with
  | O => Crash
  | S fuel =>
      match d with
      | DNull => Ret NotFound
      | DNode check found subcheck next =>
          '(f, v) ← match field with
                    | Some c => Ret c
                    | None => f ← of_option (FindDecField allFields (dl_id check)); Ret (f, field_bits f)
                    end;
          if v =? dl_value check then
            match found with
            | Some k => fields ← set_operand fields (dl_id check) v; Ret (Found k subcheck fields)
            | None =>
                if (S (length below) <? MAX_DECODER_DEPTH)%nat then
                  fields ← set_operand fields (dl_id check) v;
                  '(d, field, below) ← backtrack subcheck None (d :: below);
                  search fuel d field below fields
                else Crash
            end
          else
            field ← keep_field next (Some (f, v));
            '(d, field, below) ← backtrack next field below;
            search fuel d field below fields
      end
  end.

(** The operand loop: extracts the fields of the chain. *)
Fixpoint extract_operands (d : ac_decoder) (fields : list Z) : exec (list Z) :=
  match d with
  | DNull => Ret fields
  | DNode check _ subcheck _ =>
      f ← of_option (FindDecField allFields (dl_id check));
      fields ← set_operand fields (dl_id check) (field_bits f);
      extract_operands subcheck fields
  end.
End Decode.

(** The number of nodes the search can visit: enough fuel for [search]. *)
Fixpoint search_size (d : ac_decoder) : nat :=
  match d with
  | DNull => 0
  | DNode _ found sub next =>
      S ((match found with Some _ => 0 | None => search_size sub end) + search_size next)
  end.

(** [fields]: the static operand vector as the previous call left it. *)
Definition Decode (GetBits : Z -> Z -> Z -> Z) (decoder : ac_decoder_full) (fields : list Z)
    : exec (option (list Z)) :=
  r ← search GetBits (full_fields decoder) (S (search_size (full_decoder decoder)))
        (full_decoder decoder) None [] fields;
  match r with
  | NotFound => Ret None
  | Found k operands fields =>
      instruction ← of_option (full_instructions decoder !! k);
      fields ← extract_operands GetBits (full_fields decoder) operands fields;
      fields ← set_operand fields 0 (i_id instruction);
      Ret (Some fields)
  end.

(** A small instruction set, used by the examples and the witnesses: two
    16-bit formats and three instructions, bits taken from one word. *)
Definition demo_GetBits (word first_bit size sign : Z) : Z :=
  Z.land (Z.shiftr word (15 - first_bit)) (Z.ones size).
Definition demo_field (n : string) (size first : Z) : ac_dec_field := MkField n size first 0 0 0.
Definition demo_formats : list ac_dec_format :=
  [MkFormat 0 "R" 16 [demo_field "op" 4 3; demo_field "fn" 4 7; demo_field "rd" 4 11; demo_field "rs" 4 15];
   MkFormat 0 "I" 16 [demo_field "op" 4 3; demo_field "rd" 4 7; demo_field "imm" 8 15]].
Definition demo_instr (n f : string) (id : Z) (l : list (string * Z)) : ac_dec_instr :=
  MkInstr n 0 None None f id 1 1 1 ((fun p : string * Z => MkDec (fst p) 0 (snd p)) <$> l) None.
Definition demo_instrs : list ac_dec_instr :=
  [demo_instr "add" "R" 1 [("op", 1); ("fn", 2)]; demo_instr "addi" "I" 2 [("op", 3)];
   demo_instr "sub" "R" 3 [("op", 1); ("fn", 4)]].

Example demo_decode :
  (full ← CreateDecoder demo_formats demo_instrs;
   Decode (demo_GetBits 0x1467) full (replicate (Z.to_nat (full_nFields full)) 0))
  = Ret (Some [3; 1; 4; 6; 7; 0; 0; 0]).
Proof. vm_compute. reflexivity. Qed.

(** ** Field numbering *)

Lemma CheckFields_spec f g :
  CheckFields f g = true <->
  f_size f = f_size g /\ f_first_bit f = f_first_bit g /\ f_sign f = f_sign g.
Proof. unfold CheckFields. rewrite !Bool.andb_true_iff, !Z.eqb_eq. tauto. Qed.

(** The vector built by [PutIDs]: ids are positions, entries are distinct. *)
Record ids_ok (fs : list ac_dec_field) : Prop := {
  ids_position : forall i f, fs !! i = Some f -> f_id f = Z.of_nat i + 1;
  ids_distinct : forall i j f g,
    fs !! i = Some f -> fs !! j = Some g -> CheckFields f g = true -> i = j
}.

(** A field of a format carries the id of its representative in the vector. *)
Definition numbered (fs : list ac_dec_field) (f : ac_dec_field) : Prop :=
  exists g, g ∈ fs /\ f_id g = f_id f /\ CheckFields g f = true.

Lemma numbered_prefix fs fs' f : fs `prefix_of` fs' -> numbered fs f -> numbered fs' f.
Proof.
  intros [l ->] (g & Hg & H). exists g. split; [|assumption].
  apply elem_of_app. left. assumption.
Qed.

Lemma PutIDs_field_ok fs t :
  ids_ok fs ->
  let '(fs', t') := PutIDs_field fs t in
  ids_ok fs' /\ fs `prefix_of` fs' /\ (length fs' <= S (length fs))%nat /\
  numbered fs' t' /\ set_f_id 0 t' = set_f_id 0 t.
Proof.
  intros [Hpos Hdist]. unfold PutIDs_field.
  destruct (list_first _ fs) as [f|] eqn:E.
  - apply list_first_Some in E as [Hin Hc]. split; [split; assumption|].
    split; [reflexivity|]. split; [lia|]. split; [|reflexivity].
    exists f. split; [assumption|]. split; [reflexivity|assumption].
  - assert (Hnew : forall f, f ∈ fs -> CheckFields f t = false) by (apply list_first_None; assumption).
    set (t' := set_f_id _ t). split; [split|].
    + intros i f [[_ Hi]|[-> <-]]%lookup_snoc_Some; [auto|]. cbn. lia.
    + intros i j f g [[_ Hi]|[-> <-]]%lookup_snoc_Some [[_ Hj]|[-> <-]]%lookup_snoc_Some Hc.
      * eauto.
      * apply list_elem_of_lookup_2, Hnew in Hi. unfold CheckFields in *. cbn in Hc. congruence.
      * apply list_elem_of_lookup_2, Hnew in Hj. rewrite CheckFields_spec in Hc.
        rewrite <- Bool.not_true_iff_false, CheckFields_spec in Hj. cbn in Hc. naive_solver.
      * reflexivity.
    + split; [exists [t']; reflexivity|]. rewrite length_app. split; [cbn; lia|].
      split; [|reflexivity]. exists t'. split; [apply elem_of_app; right; left|].
      split; [reflexivity|]. apply CheckFields_spec. auto.
Qed.

Lemma PutIDs_fields_ok ts : forall fs,
  ids_ok fs ->
  let '(fs', ts') := PutIDs_fields fs ts in
  ids_ok fs' /\ fs `prefix_of` fs' /\ (length fs' <= length fs + length ts)%nat /\
  Forall (numbered fs') ts' /\ set_f_id 0 <$> ts' = set_f_id 0 <$> ts.
Proof.
  induction ts as [|t ts IH]; intros fs Hfs; cbn [PutIDs_fields].
  - split; [assumption|]. split; [reflexivity|]. split; [cbn; lia|]. split; [constructor|reflexivity].
  - pose proof (PutIDs_field_ok fs t Hfs) as H. destruct (PutIDs_field fs t) as [fs1 t1].
    destruct H as (H1 & P1 & L1 & N1 & E1). specialize (IH fs1 H1).
    destruct (PutIDs_fields fs1 ts) as [fs2 ts2]. destruct IH as (H2 & P2 & L2 & N2 & E2).
    split; [assumption|]. split; [etransitivity; eassumption|]. split; [cbn; lia|].
    split; [constructor; [eapply numbered_prefix; eassumption|assumption]|].
    rewrite !fmap_cons, E1, E2. reflexivity.
Qed.

(** The formats without their field ids. *)
Definition erase_ids (f : ac_dec_format) : ac_dec_format :=
  set_fmt_fields (set_f_id 0 <$> fmt_fields f) f.

Lemma PutIDs_formats_ok fmts : forall fs,
  ids_ok fs ->
  let '(fs', fmts') := PutIDs_formats fs fmts in
  ids_ok fs' /\ fs `prefix_of` fs' /\ (length fs' <= length fs + count_fields fmts)%nat /\
  Forall (fun f => Forall (numbered fs') (fmt_fields f)) fmts' /\
  erase_ids <$> fmts' = erase_ids <$> fmts.
Proof.
  induction fmts as [|f fmts IH]; intros fs Hfs; cbn [PutIDs_formats].
  - split; [assumption|]. split; [reflexivity|]. split; [cbn; lia|]. split; [constructor|reflexivity].
  - pose proof (PutIDs_fields_ok (fmt_fields f) fs Hfs) as H.
    destruct (PutIDs_fields fs (fmt_fields f)) as [fs1 ts1].
    destruct H as (H1 & P1 & L1 & N1 & E1). specialize (IH fs1 H1).
    destruct (PutIDs_formats fs1 fmts) as [fs2 fmts2]. destruct IH as (H2 & P2 & L2 & N2 & E2).
    split; [assumption|]. split; [etransitivity; eassumption|].
    split; [unfold count_fields in *; cbn in *; lia|]. split.
    + constructor; [|assumption]. eapply Forall_impl; [exact N1|].
      intros g Hg. eapply numbered_prefix; eassumption.
    + rewrite !fmap_cons, E2. f_equal. unfold erase_ids. cbn. rewrite E1. reflexivity.
Qed.

Lemma ids_ok_nil : ids_ok [].
Proof. split; intros; discriminate. Qed.

Lemma FindDecField_ids fs f : ids_ok fs -> f ∈ fs -> FindDecField fs (f_id f) = Some f.
Proof.
  intros [Hpos _] Hin. unfold FindDecField. destruct (list_first _ fs) as [g|] eqn:E.
  - apply list_first_Some in E as [Hg Hid%Z.eqb_eq].
    apply list_elem_of_lookup in Hin as [i Hi]. apply list_elem_of_lookup in Hg as [j Hj].
    pose proof (Hpos _ _ Hi). pose proof (Hpos _ _ Hj). assert (i = j) as -> by lia. congruence.
  - rewrite list_first_None in E. specialize (E f Hin). rewrite Z.eqb_refl in E. discriminate.
Qed.

Lemma ids_bounds fs f : ids_ok fs -> f ∈ fs -> 1 <= f_id f <= Z.of_nat (length fs).
Proof.
  intros [Hpos _] [i Hi]%list_elem_of_lookup. rewrite (Hpos _ _ Hi). apply lookup_lt_Some in Hi. lia.
Qed.

Lemma PutIDs_numbered fmts :
  let '(fs, fmts') := PutIDs fmts in
  ids_ok fs /\ (length fs <= count_fields fmts)%nat /\ erase_ids <$> fmts' = erase_ids <$> fmts /\
  forall x f, x ∈ fmts' -> f ∈ fmt_fields x -> numbered fs f.
Proof.
  unfold PutIDs. pose proof (PutIDs_formats_ok fmts [] ids_ok_nil) as H.
  destruct (PutIDs_formats [] fmts) as [fs fmts']. destruct H as (Hok & _ & Hlen & Hnum & Her).
  split; [assumption|]. split; [assumption|]. split; [assumption|].
  intros x f Hx Hf. rewrite Forall_forall in Hnum. specialize (Hnum x Hx).
  rewrite Forall_forall in Hnum. auto.
Qed.

Lemma PutIDs_known fmts :
  let '(fs, fmts') := PutIDs fmts in
  forall x f, x ∈ fmts' -> f ∈ fmt_fields x ->
    (length fs <= count_fields fmts)%nat /\ 1 <= f_id f <= Z.of_nat (length fs) /\
    exists g, FindDecField fs (f_id f) = Some g /\ CheckFields g f = true.
Proof.
  pose proof (PutIDs_numbered fmts) as H. destruct (PutIDs fmts) as [fs fmts'].
  destruct H as (Hok & Hlen & _ & Hn). intros x f Hx Hf. split; [assumption|].
  destruct (Hn x f Hx Hf) as (g & Hg & Hid & Hc). rewrite <- Hid.
  split; [apply ids_bounds; assumption|]. exists g.
  split; [apply FindDecField_ids; assumption|assumption].
Qed.

(** Two fields are the same bits of a word, read the same way. *)
Definition same_bits (f g : ac_dec_field) : Prop :=
  f_first_bit f = f_first_bit g /\ f_size f = f_size g /\ f_sign f = f_sign g.

(** C3. [PutIDs] gives two fields of the instruction formats the same id exactly
    when they occupy the same bits with the same sign; ids run from 1, every id
    is found again in the vector, the vector fits its allocation of one entry
    per field, and nothing but the ids changes in the formats. *)
Theorem PutIDs_correct fmts :
  let '(fs, fmts') := PutIDs fmts in
  (length fs <= count_fields fmts)%nat /\ erase_ids <$> fmts' = erase_ids <$> fmts /\
  (forall x f, x ∈ fmts' -> f ∈ fmt_fields x ->
     1 <= f_id f <= Z.of_nat (length fs) /\
     exists g, FindDecField fs (f_id f) = Some g /\ same_bits g f) /\
  (forall x y f g, x ∈ fmts' -> y ∈ fmts' -> f ∈ fmt_fields x -> g ∈ fmt_fields y ->
     (f_id f = f_id g <-> same_bits f g)).
Proof.
  pose proof (PutIDs_numbered fmts) as H. pose proof (PutIDs_known fmts) as Hk.
  destruct (PutIDs fmts) as [fs fmts']. destruct H as (Hok & Hlen & Her & Hn).
  split; [assumption|]. split; [assumption|]. split.
  { intros x f Hx Hf. destruct (Hk x f Hx Hf) as (_ & Hr & g & Hg & Hc). split; [exact Hr|].
    exists g. split; [exact Hg|]. apply CheckFields_spec in Hc. unfold same_bits. tauto. }
  intros x y f g Hx Hy Hf Hg.
  destruct (Hn x f Hx Hf) as (f' & Hf' & Hfid & Hfc). destruct (Hn y g Hy Hg) as (g' & Hg' & Hgid & Hgc).
  rewrite CheckFields_spec in Hfc, Hgc. unfold same_bits. split.
  - intros Heq. assert (f' = g') as <-.
    { pose proof (FindDecField_ids _ _ Hok Hf'). pose proof (FindDecField_ids _ _ Hok Hg'). congruence. }
    intuition congruence.
  - intros Heq. apply list_elem_of_lookup in Hf' as [i Hi]. apply list_elem_of_lookup in Hg' as [j Hj].
    assert (i = j) as ->; [|congruence].
    apply (ids_distinct _ Hok i j f' g' Hi Hj). apply CheckFields_spec. intuition congruence.
Qed.

(** ** The tree and its paths *)

Definition key (l : ac_dec_list) : Z * Z := (dl_id l, dl_value l).

(** [leads d p k ch]: the checks [p] lead from [d] to the node of instruction
    [k], whose operand chain is [ch]. *)
Inductive leads : ac_decoder -> list (Z * Z) -> nat -> ac_decoder -> Prop :=
  | leads_found c k ch next : leads (DNode c (Some k) ch next) [key c] k ch
  | leads_sub c sub next p k ch :
      leads sub p k ch -> leads (DNode c None sub next) (key c :: p) k ch
  | leads_next c found sub next p k ch :
      leads next p k ch -> leads (DNode c found sub next) p k ch.
#[export] Hint Constructors leads : core.

Lemma leads_null p k ch : ~ leads DNull p k ch.
Proof. intros H. inversion H. Qed.

Lemma leads_node c f sub next p k ch :
  leads (DNode c f sub next) p k ch <->
  match f with
  | Some k' => p = [key c] /\ k = k' /\ ch = sub
  | None => exists q, p = key c :: q /\ leads sub q k ch
  end \/ leads next p k ch.
Proof.
  split.
  - intros H. inversion H; subst; eauto.
  - intros [H|H]; [|auto]. destruct f; [destruct H as (-> & -> & ->)|destruct H as (q & -> & H)]; auto.
Qed.

Lemma leads_nonempty d p k ch : leads d p k ch -> p <> [].
Proof. induction 1; [discriminate|discriminate|assumption]. Qed.

Lemma same_check_key c l : same_check c l = true <-> key c = key l.
Proof.
  unfold same_check, key. rewrite Bool.andb_true_iff, !Z.eqb_eq.
  split; [intros [-> ->]; reflexivity|intros [= -> ->]; auto].
Qed.

(** An induction principle for functions that recurse on the list of checks
    and, for the same list, along the [next] pointers. *)
Lemma walk_ind (P : list ac_dec_list -> ac_decoder -> Prop) :
  (forall d, P [] d) ->
  (forall c l, (forall d, P l d) -> P (c :: l) DNull) ->
  (forall c l ch f sub next, (forall d, P l d) -> P (c :: l) next -> P (c :: l) (DNode ch f sub next)) ->
  forall l d, P l d.
Proof.
  intros Hnil Hnull Hnode l. induction l as [|c l IH]; [assumption|].
  intros d. induction d as [|ch f sub _ next IHn]; auto.
Qed.

Section Insertion.
Context (name_of : nat -> string) (k : nat) (chain : ac_decoder).
Notation walk := (add_walk name_of k chain).

(** What [add_walk] does to the paths of the tree. *)
Record walk_spec (l : list ac_dec_list) (d d' : ac_decoder) : Prop := {
  walk_new : leads d' (key <$> l) k chain;
  walk_only : forall p k' ch, leads d' p k' ch ->
    (p = key <$> l /\ k' = k /\ ch = chain) \/ leads d p k' ch;
  walk_old : forall p k' ch, leads d p k' ch ->
    leads d' p k' ch \/ (key <$> l) `prefix_of` p;
  walk_not_null : d' <> DNull
}.

Lemma walk_ok l d : forall d', l <> [] -> walk l d = Ret d' -> walk_spec l d d'.
Proof.
  induction l, d as [d|c l IH|c l ch f sub next IH IHn] using walk_ind; intros d' Hl Hw; [congruence|..].
  - cbn in Hw. destruct l as [|c2 l].
    + injection Hw as <-. split; [apply leads_found| | |discriminate].
      * intros p k' ch [H|H]%leads_node; [left; assumption|destruct (leads_null _ _ _ H)].
      * intros p k' ch H. destruct (leads_null _ _ _ H).
    + exec_inv Hw. injection Hw as <-.
      destruct (IH _ _ ltac:(discriminate) E) as [H1 H2 _ _]. split; [apply leads_sub, H1| | |discriminate].
      * intros p k' ch [(q & -> & H)|H]%leads_node; [|destruct (leads_null _ _ _ H)].
        apply H2 in H as [(-> & -> & ->)|H]; [auto|destruct (leads_null _ _ _ H)].
      * intros p k' ch H. destruct (leads_null _ _ _ H).
  - cbn in Hw. destruct (same_check ch c) eqn:Hc.
    + apply same_check_key in Hc. destruct f as [k'|]; [discriminate|]. destruct l as [|c2 l].
      * injection Hw as <-. split; rewrite ?fmap_cons, <- ?Hc; [apply leads_found| | |discriminate].
        -- intros p k' ch' [H|H]%leads_node; auto.
        -- intros p k' ch' [(q & -> & H)|H]%leads_node; [|auto]. right. exists q. reflexivity.
      * exec_inv Hw. injection Hw as <-.
        destruct (IH _ _ ltac:(discriminate) E) as [H1 H2 H3 _].
        split; rewrite ?(fmap_cons _ c), <- ?Hc; [apply leads_sub, H1| | |discriminate].
        -- intros p k' ch' [(q & -> & H)|H]%leads_node; [|auto].
           apply H2 in H as [(-> & -> & ->)|H]; auto.
        -- intros p k' ch' [(q & -> & H)|H]%leads_node; [|auto].
           apply H3 in H as [H|[r ->]]; [auto|]. right. exists r. reflexivity.
    + exec_inv Hw. injection Hw as <-. destruct (IHn _ Hl E) as [H1 H2 H3 _].
      split; [apply leads_next, H1| | |discriminate].
      * intros p k' ch' [H|H]%leads_node; [right; apply leads_node; auto|]. apply H2 in H as [?|?]; auto.
      * intros p k' ch' [H|H]%leads_node; [left; apply leads_node; auto|]. apply H3 in H as [?|?]; auto.
Qed.
End Insertion.

(** ** The search *)

Section Lookup.
(** [val id]: the value of the field numbered [id] in the word at hand. *)
Context (val : Z -> Z).

Definition matched (p : list (Z * Z)) : Prop := Forall (fun c => val (fst c) = snd c) p.

(** Specification of the search: depth first, in the order of the [next]
    pointers. *)
Fixpoint lookup_tree (d : ac_decoder) : option (list (Z * Z) * nat * ac_decoder) :=
  match d with
  | DNull => None
  | DNode c f sub next =>
      if val (dl_id c) =? dl_value c then
        match f with
        | Some k => Some ([key c], k, sub)
        | None =>
            match lookup_tree sub with
            | Some (p, k, ch) => Some (key c :: p, k, ch)
            | None => lookup_tree next
            end
        end
      else lookup_tree next
  end.

Lemma lookup_sound d p k ch : lookup_tree d = Some (p, k, ch) -> leads d p k ch /\ matched p.
Proof.
  revert p. induction d as [|c f sub IHs next IHn]; intros p; cbn; [discriminate|].
  destruct (Z.eqb_spec (val (dl_id c)) (dl_value c)) as [Hv|_].
  - destruct f as [k'|].
    + intros [= <- <- <-]. split; [auto|]. constructor; [assumption|constructor].
    + destruct (lookup_tree sub) as [[[q k'] ch']|].
      * intros [= <- <- <-]. destruct (IHs q eq_refl). split; [auto|]. constructor; assumption.
      * intros H. apply IHn in H as [??]. auto.
  - intros H. apply IHn in H as [??]. auto.
Qed.

Lemma lookup_complete d p k ch : leads d p k ch -> matched p -> lookup_tree d <> None.
Proof.
  induction 1; intros Hm; cbn.
  - inversion Hm as [|? ? Hv]. cbn in Hv. rewrite Hv, Z.eqb_refl. discriminate.
  - inversion Hm as [|? ? Hv Hm']. cbn in Hv. rewrite Hv, Z.eqb_refl.
    destruct (lookup_tree sub) as [[[??]?]|]; [discriminate|]. destruct (IHleads Hm' eq_refl).
  - specialize (IHleads Hm). repeat case_match; congruence.
Qed.
End Lookup.

(** The operand chain mentions only known ids. *)
Fixpoint wf_chain (P : Z -> Prop) (d : ac_decoder) : Prop :=
  match d with DNull => True | DNode c _ sub _ => P (dl_id c) /\ wf_chain P sub end.

(** A tree the search can walk: known ids, a subtree under every node without
    an instruction, at most [n] levels. *)
Fixpoint wf_tree (P : Z -> Prop) (n : nat) (d : ac_decoder) : Prop :=
  match d with
  | DNull => True
  | DNode c f sub next =>
      P (dl_id c) /\
      match f with
      | Some _ => wf_chain P sub
      | None => sub <> DNull /\ match n with O => False | S n => wf_tree P n sub end
      end /\ wf_tree P n next
  end.

Section SearchCorrect.
Context (GetBits : Z -> Z -> Z -> Z) (allFields : list ac_dec_field) (nFields : nat).

Definition field_value (id : Z) : Z :=
  match FindDecField allFields id with Some f => field_bits GetBits f | None => 0 end.

Definition known_id (id : Z) : Prop :=
  exists f, FindDecField allFields id = Some f /\ 0 <= id < Z.of_nat nFields.

Definition written (fields : list Z) (id : Z) : Prop :=
  0 <= id /\ fields !! Z.to_nat id = Some (u32 (field_value id)).

Lemma FindDecField_id id f : FindDecField allFields id = Some f -> f_id f = id.
Proof. intros [_ H]%list_first_Some. apply Z.eqb_eq. assumption. Qed.

(** Writing the value of a known id, as the search and the operand loop do. *)
Lemma set_operand_ok fields id :
  length fields = nFields -> known_id id ->
  exists fields', set_operand fields id (field_value id) = Ret fields' /\
    length fields' = nFields /\ written fields' id /\
    forall id', written fields id' -> written fields' id'.
Proof.
  intros Hlen (f & Hf & Hid). unfold set_operand. rewrite Hlen.
  destruct (Z.leb_spec 0 id), (Z.ltb_spec id (Z.of_nat nFields)); try lia. cbn [andb].
  eexists. split; [reflexivity|]. split; [rewrite length_insert; assumption|]. split.
  - split; [assumption|]. apply list_lookup_insert_eq. lia.
  - intros id' [Hid' Hw]. split; [assumption|]. destruct (decide (id = id')) as [<-|Hne].
    + apply list_lookup_insert_eq. lia.
    + rewrite list_lookup_insert_ne by lia. assumption.
Qed.

(** The cache, when set, holds a field of the vector and its value, and is
    the field that the current node checks. *)
Definition cache_ok (d : ac_decoder) (c : option (ac_dec_field * Z)) : Prop :=
  match c with
  | None => True
  | Some (f, v) =>
      FindDecField allFields (f_id f) = Some f /\ v = field_bits GetBits f /\
      match d with DNull => True | DNode check _ _ _ => f_id f = dl_id check end
  end.

(** The checks passed on the way to the current level. *)
Fixpoint below_path (below : list ac_decoder) : list (Z * Z) :=
  match below with
  | DNode c _ _ _ :: below => below_path below ++ [key c]
  | _ => []
  end.

(** What remains to be searched from node [d] with the stack [below]. *)
Fixpoint lookup_stack (d : ac_decoder) (below : list ac_decoder) : option (list (Z * Z) * nat * ac_decoder) :=
  match lookup_tree field_value d with
  | Some (p, k, ch) => Some (below_path below ++ p, k, ch)
  | None =>
      match below with
      | DNode _ _ _ next :: below => lookup_stack next below
      | _ => None
      end
  end.

Fixpoint stack_size (d : ac_decoder) (below : list ac_decoder) : nat :=
  search_size d +
  match below with DNode _ _ _ next :: below => stack_size next below | _ => 0 end.

Fixpoint wf_below (below : list ac_decoder) : Prop :=
  match below with
  | [] => True
  | DNode c None _ next :: below =>
      wf_tree known_id (63 - length below) next /\ wf_below below
  | _ => False
  end.

Record wf_state (d : ac_decoder) (c : option (ac_dec_field * Z)) (below : list ac_decoder) : Prop := {
  wf_d : wf_tree known_id (63 - length below) d;
  wf_b : wf_below below;
  wf_c : cache_ok d c
}.

Lemma keep_field_ok d f v :
  cache_ok DNull (Some (f, v)) ->
  exists c, keep_field d (Some (f, v)) = Ret c /\ cache_ok d c /\ (d = DNull -> c = Some (f, v)).
Proof.
  intros (Hf & Hv & _). destruct d as [|check fd sub next]; cbn.
  - exists (Some (f, v)). cbn. auto.
  - destruct (Z.eqb_spec (dl_id check) (f_id f)).
    + exists (Some (f, v)). cbn. split; [reflexivity|]. split; [auto|discriminate].
    + exists None. cbn. split; [reflexivity|]. split; [auto|discriminate].
Qed.

Lemma backtrack_ok below : forall d c,
  wf_state d c below -> (d = DNull -> below <> [] -> c <> None) ->
  exists d' c' below', backtrack d c below = Ret (d', c', below') /\
    wf_state d' c' below' /\ lookup_stack d' below' = lookup_stack d below /\
    stack_size d' below' = stack_size d below /\ (d' = DNull -> below' = []) /\
    below_path below' `prefix_of` below_path below.
Proof.
  induction below as [|top below IH]; intros d c [Hd Hb Hc] Hcache.
  - exists d, c, []. destruct d; cbn; (split; [reflexivity|]); (split; [split; assumption|]); auto.
  - destruct d as [|check f sub next].
    + destruct c as [[f v]|]; [|destruct (Hcache eq_refl ltac:(discriminate) eq_refl)].
      destruct top as [|check [k|] sub next]; try destruct Hb. cbn [backtrack].
      destruct (keep_field_ok next f v Hc) as (c' & -> & Hc' & Heq). cbn [mbind exec_bind].
      destruct (IH next c') as (d' & c'' & below' & E & Hwf & Hl & Hs & Hn & Hp).
      { split; assumption. }
      { intros Hnull _. rewrite (Heq Hnull). discriminate. }
      exists d', c'', below'. rewrite E. cbn. do 4 (split; [assumption || reflexivity|]).
      split; [assumption|]. etransitivity; [exact Hp|]. exists [key check]. reflexivity.
    + exists (DNode check f sub next), c, (top :: below).
      split; [reflexivity|]. split; [split; assumption|]. do 2 (split; [reflexivity|]).
      split; [discriminate|reflexivity].
Qed.

(** What [search] returns for a result of the specification. *)
Definition search_post (r : exec search_result) (spec : option (list (Z * Z) * nat * ac_decoder)) : Prop :=
  match spec with
  | Some (p, k, ch) => exists fields', r = Ret (Found k ch fields') /\ length fields' = nFields /\
      Forall (fun c => written fields' (fst c)) p /\ wf_chain known_id ch
  | None => r = Ret NotFound
  end.

Definition all_written (fields : list Z) (p : list (Z * Z)) : Prop :=
  Forall (fun c => written fields (fst c)) p.

Lemma all_written_mono fields fields' p :
  (forall id, written fields id -> written fields' id) -> all_written fields p -> all_written fields' p.
Proof. intros H Hp. eapply Forall_impl; [exact Hp|]. intros c. apply H. Qed.

Lemma all_written_prefix fields p q : p `prefix_of` q -> all_written fields q -> all_written fields p.
Proof. intros [r ->] H. apply Forall_app in H as [H _]. assumption. Qed.

(** The cached or fetched field of the current node. *)
Lemma fetch_ok check f sub next c below :
  wf_state (DNode check f sub next) c below ->
  exists fd, match c with
             | Some c => Ret c
             | None => f ← of_option (FindDecField allFields (dl_id check)); Ret (f, field_bits GetBits f)
             end = Ret (fd, field_value (dl_id check)) /\
    cache_ok DNull (Some (fd, field_value (dl_id check))).
Proof.
  intros [Hd _ Hc]. destruct c as [[fd v]|].
  - destruct Hc as (Hf & -> & Hid). exists fd. rewrite Hid in Hf.
    unfold field_value. rewrite Hf. cbn. rewrite Hid. auto.
  - destruct Hd as [(fd & Hf & _) _]. exists fd. unfold field_value. rewrite Hf. cbn.
    rewrite (FindDecField_id _ _ Hf). auto.
Qed.

Lemma search_ok fuel : forall d c below fields,
  (stack_size d below < fuel)%nat -> length fields = nFields -> wf_state d c below ->
  (d = DNull -> below = []) -> all_written fields (below_path below) ->
  search_post (search GetBits allFields fuel d c below fields) (lookup_stack d below).
Proof.
  induction fuel as [|fuel IH]; intros d c below fields Hfuel Hlen Hwf Hnull Hw; [lia|].
  destruct d as [|check f sub next].
  { rewrite (Hnull eq_refl). reflexivity. }
  destruct (fetch_ok _ _ _ _ _ _ Hwf) as (fd & Hfetch & Hcache).
  destruct Hwf as [(Hk & Hsub & Hnext) Hb Hc]. cbn [search]. rewrite Hfetch. cbn [mbind exec_bind].
  assert (Hfail : lookup_tree field_value (DNode check f sub next) = lookup_tree field_value next ->
    search_post ('(d, field, below) ← ((field ← keep_field next (Some (fd, field_value (dl_id check)));
                 backtrack next field below)); search GetBits allFields fuel d field below fields)
      (lookup_stack (DNode check f sub next) below)).
  { intros Hl. destruct (keep_field_ok next fd _ Hcache) as (c' & Hkeep & Hc' & Heq).
    rewrite Hkeep. cbn [mbind exec_bind].
    destruct (backtrack_ok below next c') as (d' & c'' & below' & E & Hwf' & Hlk & Hsz & Hn & Hp).
    { split; assumption. }
    { intros H _. rewrite (Heq H). discriminate. }
    rewrite E. cbn [mbind exec_bind].
    replace (lookup_stack (DNode check f sub next) below) with (lookup_stack d' below').
    - apply IH; auto; [|eapply all_written_prefix; eassumption].
      rewrite Hsz. destruct below; cbn in Hfuel |- *; lia.
    - rewrite Hlk. destruct below; cbn [lookup_stack]; rewrite Hl; reflexivity. }
  destruct (Z.eqb_spec (field_value (dl_id check)) (dl_value check)) as [Hv|Hv].
  - destruct (set_operand_ok fields (dl_id check) Hlen Hk) as (fields' & Hset & Hlen' & Hnew & Hmono).
    destruct f as [k|].
    + rewrite Hset. cbn [mbind exec_bind].
      assert (lookup_stack (DNode check (Some k) sub next) below = Some (below_path below ++ [key check], k, sub)) as ->.
      { destruct below; cbn; rewrite Hv, Z.eqb_refl; reflexivity. }
      exists fields'. split; [reflexivity|]. split; [assumption|]. split; [|assumption].
      apply Forall_app. split; [eapply all_written_mono; eassumption|]. constructor; [assumption|constructor].
    + destruct Hsub as [Hsub0 Hsub]. destruct (63 - length below)%nat as [|n] eqn:En; [destruct Hsub|].
      unfold MAX_DECODER_DEPTH. destruct (Nat.ltb_spec (S (length below)) 64); [|lia].
      rewrite Hset. cbn [mbind exec_bind].
      assert (Hn : (63 - length (DNode check None sub next :: below) = n)%nat) by (cbn; lia).
      destruct (backtrack_ok (DNode check None sub next :: below) sub None)
        as (d' & c'' & below' & E & Hwf' & Hlk & Hsz & Hnl & Hp).
      { split; [rewrite Hn; assumption| |exact I]. split; [rewrite En; assumption|assumption]. }
      { intros Hnil _. destruct (Hsub0 Hnil). }
      rewrite E. cbn [mbind exec_bind].
      replace (lookup_stack (DNode check None sub next) below) with (lookup_stack d' below').
      * apply IH; auto.
        -- rewrite Hsz. destruct below; cbn in Hfuel |- *; lia.
        -- eapply all_written_prefix; [exact Hp|]. cbn [below_path]. apply Forall_app.
           split; [eapply all_written_mono; eassumption|]. constructor; [assumption|constructor].
      * rewrite Hlk. cbn [lookup_stack]. destruct below; cbn; rewrite Hv, Z.eqb_refl;
          destruct (lookup_tree field_value sub) as [[[p k] ch]|]; cbn; rewrite ?app_nil_r, <- ?app_assoc; reflexivity.
  - assert (Hl : lookup_tree field_value (DNode check f sub next) = lookup_tree field_value next).
    { cbn. destruct (Z.eqb_spec (field_value (dl_id check)) (dl_value check)); [contradiction|reflexivity]. }
    specialize (Hfail Hl). destruct (keep_field next _) as [c'| |]; cbn [mbind exec_bind] in *; assumption.
Qed.
End SearchCorrect.
