(* ===== verification/AcDecoderOk.v ===== *)
(** * Correctness of the generated decoder

    The tree that [CreateDecoder] builds and the search of [Decode] taken
    together: decoding never crashes, returns an instruction whose whole decode
    list matches the word together with every operand of its format, and
    returns nothing only when no instruction matches. *)
From S2P Require Import Prelude DecTypes AcDecoder.

(** ** The specification *)

(** An instruction matches a word when every element of its decode list names a
    field of its format that holds the required value. *)
Definition instr_matches (GetBits : Z -> Z -> Z -> Z) (formats : list ac_dec_format)
    (i : ac_dec_instr) : Prop :=
  exists fmt, FindFormat formats (i_format i) = Ret fmt /\
    Forall (fun l => exists f,
      list_first (fun f => streq (f_name f) (dl_name l)) (fmt_fields fmt) = Some f /\
      field_bits GetBits f = dl_value l) (i_dec_list i).

(** What the parser guarantees for an instruction: its decode list names fields
    of its format; and the bound of [chosenPath]. *)
Definition decodable (formats : list ac_dec_format) (i : ac_dec_instr) : Prop :=
  (length (i_dec_list i) <= MAX_DECODER_DEPTH)%nat /\
  forall fmt, FindFormat formats (i_format i) = Ret fmt ->
    Forall (fun l => exists f,
      list_first (fun f => streq (f_name f) (dl_name l)) (fmt_fields fmt) = Some f) (i_dec_list i).

(** The field numbers of an operand chain. *)
Fixpoint chain_ids (d : ac_decoder) : list Z :=
  match d with DNull => [] | DNode c _ sub _ => dl_id c :: chain_ids sub end.

(** The operand vector of a decoded instruction: entry 0 is the instruction's id,
    every field of its format is at the index of its id. *)
Definition decoded_as (GetBits : Z -> Z -> Z -> Z) (formats : list ac_dec_format)
    (i : ac_dec_instr) (out : list Z) : Prop :=
  out !! 0%nat = Some (u32 (i_id i)) /\
  exists fmt, FindFormat formats (i_format i) = Ret fmt /\
    forall f, f ∈ fmt_fields fmt ->
      0 < f_id f /\ out !! Z.to_nat (f_id f) = Some (u32 (field_bits GetBits f)).

(** ** Operands *)

Section Operands.
Context (GetBits : Z -> Z -> Z -> Z) (allFields : list ac_dec_field) (nFields : nat).
Notation known := (known_id allFields nFields).
Notation written := (written GetBits allFields).

Lemma known_value id : known id ->
  exists f, FindDecField allFields id = Some f /\ field_bits GetBits f = field_value GetBits allFields id.
Proof. intros (f & Hf & _). exists f. split; [assumption|]. unfold field_value. rewrite Hf. reflexivity. Qed.

Lemma extract_operands_ok d : forall fields,
  length fields = nFields -> wf_chain known d ->
  exists fields', extract_operands GetBits allFields d fields = Ret fields' /\
    length fields' = nFields /\ Forall (written fields') (chain_ids d) /\
    forall id, written fields id -> written fields' id.
Proof.
  induction d as [|c f sub IH next _]; intros fields Hlen Hwf; cbn.
  - exists fields. auto.
  - destruct Hwf as [Hk Hwf]. destruct (known_value _ Hk) as (fd & -> & Hv). cbn. rewrite Hv.
    destruct (set_operand_ok GetBits allFields nFields fields (dl_id c) Hlen Hk)
      as (fields1 & -> & Hlen1 & Hnew & Hmono). cbn.
    destruct (IH fields1 Hlen1 Hwf) as (fields2 & -> & Hlen2 & Hall & Hmono2).
    exists fields2. split; [reflexivity|]. split; [assumption|]. split; [constructor; auto|auto].
Qed.

Lemma operand_chain_ids l fs id :
  id ∈ chain_ids (operand_chain l fs) <-> id ∉ (dl_id <$> l) /\ exists f, f ∈ fs /\ f_id f = id.
Proof.
  induction fs as [|f fs IH]; cbn.
  - split; [intros H; inversion H|intros (_ & f & H & _); inversion H].
  - destruct (list_first _ l) as [x|] eqn:E.
    + apply list_first_Some in E as [Hx Hid%Z.eqb_eq]. rewrite IH. split.
      * intros (Hn & g & Hg & He). split; [assumption|]. exists g. split; [right|]; assumption.
      * intros (Hn & g & Hg & He). split; [assumption|]. apply elem_of_cons in Hg as [->|Hg]; [|eauto].
        destruct Hn. rewrite <- He, <- Hid. apply list_elem_of_fmap_2. assumption.
    + rewrite list_first_None in E. cbn. rewrite elem_of_cons, IH. split.
      * intros [->|(Hn & g & Hg & He)].
        -- split; [|exists f; split; [left|reflexivity]].
           intros (x & Hid & Hx)%list_elem_of_fmap. specialize (E x Hx). apply Z.eqb_neq in E. congruence.
        -- split; [assumption|]. exists g. split; [right|]; assumption.
      * intros (Hn & g & Hg & He). apply elem_of_cons in Hg as [->|Hg]; [auto|]. right. eauto.
Qed.

Lemma operand_chain_wf P l fs : Forall (fun f => P (f_id f)) fs -> wf_chain P (operand_chain l fs).
Proof.
  induction 1 as [|f fs Hf _ IH]; cbn; [exact I|]. destruct (list_first _ l); [assumption|].
  split; assumption.
Qed.
End Operands.

(** ** The tree stays walkable *)

Lemma walk_nonnull name_of k chain l d d' :
  add_walk name_of k chain l d = Ret d' -> l <> [] -> d' <> DNull.
Proof. intros Hw Hl. apply (walk_not_null _ _ _ _ _ (walk_ok _ _ _ _ _ _ Hl Hw)). Qed.

Lemma add_walk_wf name_of k chain P l d : forall n d',
  l <> [] -> (length l <= S n)%nat -> Forall (fun c => P (dl_id c)) l -> wf_chain P chain ->
  wf_tree P n d -> add_walk name_of k chain l d = Ret d' -> wf_tree P n d'.
Proof.
  induction l, d as [d|c l IH|c l ch f sub next IH IHn] using walk_ind;
    intros n d' Hl Hlen HP Hch Hwf Hw; [congruence|..]; inversion HP as [|? ? Hc HP']; subst.
  - cbn in Hw. destruct l as [|c2 l].
    + injection Hw as <-. cbn. auto.
    + exec_inv Hw. injection Hw as <-. destruct n as [|n]; [cbn in Hlen; lia|].
      cbn in Hlen. cbn [wf_tree]. split; [assumption|]. split; [|exact I].
      split; [apply (walk_nonnull _ _ _ _ _ _ E); discriminate|].
      apply (IH DNull n a); auto; cbn in *; lia.
  - cbn in Hw. destruct Hwf as (Hk & Hsub & Hnext). destruct (same_check ch c).
    + destruct f; [discriminate|]. destruct l as [|c2 l].
      * injection Hw as <-. cbn. auto.
      * exec_inv Hw. injection Hw as <-. destruct Hsub as [Hs0 Hsub]. destruct n as [|n]; [destruct Hsub|].
        cbn in Hlen. cbn [wf_tree]. split; [assumption|]. split; [|assumption].
        split; [apply (walk_nonnull _ _ _ _ _ _ E); discriminate|].
        apply (IH sub n a); auto; cbn in *; lia.
    + exec_inv Hw. injection Hw as <-. cbn [wf_tree]. split; [assumption|]. split; [assumption|].
      eapply IHn; eauto.
Qed.

(** ** The instructions of the tree *)

Section Build.
Context (name_of : nat -> string) (formats : list ac_dec_format) (P : Z -> Prop).
Hypothesis known_formats :
  forall fmt f, fmt ∈ formats -> f ∈ fmt_fields fmt -> P (f_id f).

Definition prepare (fmt : ac_dec_format) (i : ac_dec_instr) : ac_dec_instr :=
  set_i_size (Z.quot (fmt_size fmt) 8) (set_i_dec_list (assign_id fmt <$> i_dec_list i) i).

Definition prepared (i i' : ac_dec_instr) : Prop :=
  exists fmt, FindFormat formats (i_format i) = Ret fmt /\ i_dec_list i <> [] /\ i' = prepare fmt i.

Definition keys (i : ac_dec_instr) : list (Z * Z) := key <$> i_dec_list i.

(** The operand chain of a prepared instruction. *)
Definition chain_of (i : ac_dec_instr) (ch : ac_decoder) : Prop :=
  exists fmt, FindFormat formats (i_format i) = Ret fmt /\
    ch = operand_chain (i_dec_list i) (fmt_fields fmt).

Record tree_inv (dec : ac_decoder) (built : list ac_dec_instr) : Prop := {
  tree_only : forall p k ch, leads dec p k ch ->
    exists i, built !! k = Some i /\ p = keys i /\ chain_of i ch;
  tree_all : forall k i, built !! k = Some i ->
    (exists ch, leads dec (keys i) k ch) \/
    exists k' i', (k < k')%nat /\ built !! k' = Some i' /\ keys i' `prefix_of` keys i;
  tree_wf : wf_tree P 63 dec
}.

Lemma FindFormat_in name fmt : FindFormat formats name = Ret fmt -> fmt ∈ formats /\ fmt_name fmt = name.
Proof.
  unfold FindFormat. destruct (list_first _ formats) as [f|] eqn:E; [|discriminate].
  intros [= ->]. apply list_first_Some in E as [Hin H%streq_spec]. auto.
Qed.

Lemma assign_id_known fmt l :
  fmt ∈ formats -> (exists f, list_first (fun f => streq (f_name f) (dl_name l)) (fmt_fields fmt) = Some f) ->
  P (dl_id (assign_id fmt l)).
Proof.
  intros Hin (f & Hf). unfold assign_id. rewrite Hf. apply list_first_Some in Hf as [Hf _].
  apply (known_formats fmt f Hin Hf).
Qed.

Lemma tree_inv_step dec built i fmt d' :
  tree_inv dec built -> decodable formats i -> FindFormat formats (i_format i) = Ret fmt ->
  i_dec_list i <> [] ->
  add_walk name_of (length built) (operand_chain (assign_id fmt <$> i_dec_list i) (fmt_fields fmt))
    (assign_id fmt <$> i_dec_list i) dec = Ret d' ->
  tree_inv d' (built ++ [prepare fmt i]).
Proof.
  intros [Honly Hall Hwf] [Hlen Hdec] Hfmt Hne Hw. destruct (FindFormat_in _ _ Hfmt) as [Hin _].
  set (l := assign_id fmt <$> i_dec_list i) in *.
  assert (Hl : l <> []) by (unfold l; destruct (i_dec_list i); [congruence|discriminate]).
  assert (Hk : keys (prepare fmt i) = key <$> l) by reflexivity.
  destruct (walk_ok _ _ _ _ _ _ Hl Hw) as [Hnew Hsome Hold _]. split.
  - intros p k ch H. apply Hsome in H as [(-> & -> & ->)|H].
    + exists (prepare fmt i). rewrite list_lookup_middle by reflexivity.
      split; [reflexivity|]. split; [reflexivity|]. exists fmt. auto.
    + destruct (Honly _ _ _ H) as (i' & Hi' & Hp & Hch). exists i'.
      split; [apply lookup_app_l_Some; assumption|]. auto.
  - intros k i' [[_ Hi]|[-> <-]]%lookup_snoc_Some.
    + destruct (Hall k i' Hi) as [[ch H]|(k' & i'' & Hlt & Hi'' & Hp)].
      * apply Hold in H as [H|H]; [eauto|]. right. exists (length built), (prepare fmt i).
        apply lookup_lt_Some in Hi. split; [assumption|].
        split; [apply list_lookup_middle; reflexivity|]. rewrite Hk. assumption.
      * right. exists k', i''. split; [assumption|].
        split; [apply lookup_app_l_Some; assumption|assumption].
    + left. eexists. exact Hnew.
  - eapply add_walk_wf; [exact Hl| | | |exact Hwf|exact Hw].
    + unfold l. rewrite length_fmap. unfold MAX_DECODER_DEPTH in Hlen. lia.
    + unfold l. apply Forall_fmap. eapply Forall_impl; [exact (Hdec fmt Hfmt)|].
      intros c Hc. apply assign_id_known; assumption.
    + apply operand_chain_wf. apply Forall_forall. intros f Hf. apply (known_formats fmt f Hin Hf).
Qed.

Lemma add_instructions_ok todo : forall dec built dec' todo',
  tree_inv dec built -> Forall (decodable formats) todo ->
  add_instructions name_of formats (length built) dec todo = Ret (dec', todo') ->
  tree_inv dec' (built ++ todo') /\ Forall2 prepared todo todo'.
Proof.
  induction todo as [|i todo IH]; intros dec built dec' todo' Hinv Hd H.
  - injection H as <- <-. rewrite app_nil_r. split; [assumption|constructor].
  - inversion Hd as [|? ? Hi Hd']; subst. cbn [add_instructions] in H.
    apply exec_bind_ret in H as (fmt & Hfmt & H).
    apply exec_bind_ret in H as ([d i'] & Hadd & H).
    apply exec_bind_ret in H as ([d2 todo2] & Hrest & H). injection H as <- <-.
    unfold AddToDecoder in Hadd. destruct (i_dec_list i) as [|c l] eqn:El; [discriminate|].
    rewrite <- El in Hadd. apply exec_bind_ret in Hadd as (d1 & Hw & Hadd). injection Hadd as -> <-.
    assert (Hne : i_dec_list i <> []) by (rewrite El; discriminate).
    pose proof (tree_inv_step _ _ _ _ _ Hinv Hi Hfmt Hne Hw) as Hinv'.
    replace (S (length built)) with (length (built ++ [prepare fmt i])) in Hrest
      by (rewrite length_app; cbn; lia).
    destruct (IH _ _ _ _ Hinv' Hd' Hrest) as [H1 H2]. rewrite <- app_assoc in H1.
    split; [assumption|]. constructor; [|assumption]. exists fmt. auto.
Qed.
End Build.

(** ** Formats before and after numbering *)

Record same_field (f g : ac_dec_field) : Prop := {
  same_name : f_name f = f_name g;
  same_place : CheckFields f g = true
}.

Record same_format (f g : ac_dec_format) : Prop := {
  same_fmt_name : fmt_name f = fmt_name g;
  same_fmt_fields : Forall2 same_field (fmt_fields f) (fmt_fields g)
}.

Lemma same_erased f g : set_f_id 0 f = set_f_id 0 g -> same_field f g.
Proof. intros [=]. split; [assumption|]. apply CheckFields_spec. auto. Qed.

Lemma same_erased_fields l : forall l', set_f_id 0 <$> l = set_f_id 0 <$> l' -> Forall2 same_field l l'.
Proof.
  induction l as [|f l IH]; intros [|g l'] H; try discriminate; [constructor|].
  rewrite !fmap_cons in H. injection H as H1 H2. constructor; [|auto].
  apply same_erased. unfold set_f_id. congruence.
Qed.

Lemma same_numbered fmts : forall n fmts',
  erase_ids <$> fmts' = erase_ids <$> number_formats n fmts -> Forall2 same_format fmts fmts'.
Proof.
  induction fmts as [|f fmts IH]; intros n [|g fmts'] H; try discriminate; [constructor|].
  injection H as _ Hn _ Hf H. constructor; [|eauto].
  split; [symmetry; assumption|]. apply same_erased_fields. symmetry. assumption.
Qed.

Lemma count_fields_numbered n fmts : count_fields (number_formats n fmts) = count_fields fmts.
Proof.
  unfold count_fields. revert n. induction fmts as [|f fmts IH]; intros n; cbn; [reflexivity|].
  rewrite IH. reflexivity.
Qed.

Lemma FindFormat_same fmts fmts' name fmt : Forall2 same_format fmts fmts' ->
  FindFormat fmts' name = Ret fmt -> exists fmt0, FindFormat fmts name = Ret fmt0 /\ same_format fmt0 fmt.
Proof.
  intros H. unfold FindFormat.
  pose proof (list_first_Forall2 same_format (fun f => streq (fmt_name f) name)
    (fun f => streq (fmt_name f) name) _ _ H) as Hl.
  destruct (list_first _ fmts) as [f|], (list_first _ fmts') as [g|]; try discriminate.
  - intros [= <-]. exists f. split; [reflexivity|]. apply Hl. intros x y [-> _]. reflexivity.
  - intros _. destruct Hl. intros x y [-> _]. reflexivity.
Qed.

Lemma FindField_same fs fs' name : Forall2 same_field fs fs' ->
  match list_first (fun f => streq (f_name f) name) fs, list_first (fun f => streq (f_name f) name) fs' with
  | Some x, Some y => same_field x y
  | None, None => True
  | _, _ => False
  end.
Proof. intros H. apply list_first_Forall2; [assumption|]. intros x y [-> _]. reflexivity. Qed.

Lemma field_bits_same GetBits f g : CheckFields f g = true -> field_bits GetBits f = field_bits GetBits g.
Proof. intros (H1 & H2 & H3)%CheckFields_spec. unfold field_bits. congruence. Qed.

Lemma decodable_same fmts fmts' i : Forall2 same_format fmts fmts' -> decodable fmts i -> decodable fmts' i.
Proof.
  intros H [Hlen Hd]. split; [assumption|]. intros fmt' Hf'.
  destruct (FindFormat_same _ _ _ _ H Hf') as (fmt & Hf & [_ Hs]).
  eapply Forall_impl; [exact (Hd fmt Hf)|]. intros l (f & Hl). cbn.
  pose proof (FindField_same _ _ (dl_name l) Hs) as Hm. rewrite Hl in Hm.
  destruct (list_first _ (fmt_fields fmt')) as [g|]; [eauto|destruct Hm].
Qed.

Lemma assign_id_value fmt l : dl_value (assign_id fmt l) = dl_value l.
Proof. unfold assign_id. destruct (list_first _ _); reflexivity. Qed.

(** ** The decoder as built *)

Section Built.
Context (GetBits : Z -> Z -> Z -> Z) (formats : list ac_dec_format) (instrs : list ac_dec_instr).
Context (fs : list ac_dec_field) (fmts : list ac_dec_format) (dec : ac_decoder) (built : list ac_dec_instr).
Let nFields : nat := S (count_fields formats).
Notation known := (known_id fs nFields).
Notation value := (field_value GetBits fs).

Hypothesis ids : PutIDs (number_formats 0 formats) = (fs, fmts).
Hypothesis instrs_ok : Forall (decodable formats) instrs.
Hypothesis same : Forall2 same_format formats fmts.
Hypothesis tree : tree_inv fmts known dec built.
Hypothesis prep : Forall2 (prepared fmts) instrs built.

Lemma format_field fmt f : fmt ∈ fmts -> f ∈ fmt_fields fmt ->
  known (f_id f) /\ 1 <= f_id f /\ value (f_id f) = field_bits GetBits f.
Proof.
  intros Hfmt Hf. pose proof (PutIDs_known (number_formats 0 formats)) as H. rewrite ids in H.
  destruct (H fmt f Hfmt Hf) as (Hlen & Hid & g & Hg & Hc). rewrite count_fields_numbered in Hlen.
  split; [exists g; split; [assumption|unfold nFields; lia]|]. split; [lia|].
  unfold field_value. rewrite Hg. apply field_bits_same. assumption.
Qed.

Lemma matches_iff k i i' : instrs !! k = Some i -> built !! k = Some i' ->
  (instr_matches GetBits formats i <-> matched value (keys i')).
Proof.
  intros Hi Hi'. destruct (Forall2_lookup_lr _ _ _ _ _ _ prep Hi Hi') as (fmt & Hfmt & _ & ->).
  destruct (FindFormat_same _ _ _ _ same Hfmt) as (fmt0 & Hfmt0 & [_ Hs]).
  rewrite Forall_forall in instrs_ok. destruct (instrs_ok i) as [_ Hd].
  { eapply list_elem_of_lookup_2. exact Hi. }
  specialize (Hd fmt0 Hfmt0). destruct (FindFormat_in _ _ _ Hfmt) as [Hin _].
  assert (Hl : forall l f, list_first (fun f => streq (f_name f) (dl_name l)) (fmt_fields fmt0) = Some f ->
    value (dl_id (assign_id fmt l)) = field_bits GetBits f).
  { intros l f Hf. pose proof (FindField_same _ _ (dl_name l) Hs) as Hm. rewrite Hf in Hm.
    unfold assign_id. destruct (list_first _ (fmt_fields fmt)) as [g|] eqn:Eg; [|destruct Hm].
    apply list_first_Some in Eg as [Hg _]. destruct (format_field _ _ Hin Hg) as (_ & _ & Hv).
    cbn. rewrite Hv. symmetry. apply field_bits_same, Hm. }
  unfold instr_matches, matched, keys, prepare. cbn. rewrite !Forall_fmap, Forall_forall. split.
  - intros (fmt1 & Hf1 & Hall). assert (fmt1 = fmt0) as -> by congruence. rewrite Forall_forall in Hall.
    intros l Hin'. destruct (Hall l Hin') as (f & Hf & Hv). cbn. rewrite (Hl l f Hf), Hv.
    symmetry. apply assign_id_value.
  - intros Hall. exists fmt0. split; [assumption|]. rewrite Forall_forall in Hd |- *. intros l Hin'.
    destruct (Hd l Hin') as (f & Hf). exists f. split; [assumption|].
    specialize (Hall l Hin'). cbn in Hall. rewrite <- (Hl l f Hf), Hall.
    apply assign_id_value.
Qed.

(** Among the matching instructions the last one is reachable. *)
Lemma matched_reachable n : forall k i', (length built - k <= n)%nat -> built !! k = Some i' ->
  matched value (keys i') -> exists p k' ch, leads dec p k' ch /\ matched value p.
Proof.
  induction n as [|n IH]; intros k i' Hn Hi' Hm.
  - apply lookup_lt_Some in Hi'. lia.
  - destruct (tree_all _ _ _ _ tree k i' Hi') as [[ch H]|(k2 & i2 & Hlt & Hi2 & [r Hp])]; [eauto|].
    apply (IH k2 i2); [lia|assumption|]. unfold matched in *. rewrite Hp in Hm.
    apply Forall_app in Hm as [Hm _]. assumption.
Qed.

(** Everything the format of a found instruction holds has been extracted. *)
Lemma operands_written i' fmt fields : FindFormat fmts (i_format i') = Ret fmt ->
  Forall (fun c => written GetBits fs fields (fst c)) (keys i') ->
  Forall (written GetBits fs fields) (chain_ids (operand_chain (i_dec_list i') (fmt_fields fmt))) ->
  forall f, f ∈ fmt_fields fmt ->
    0 < f_id f /\ fields !! Z.to_nat (f_id f) = Some (u32 (field_bits GetBits f)).
Proof.
  intros Hfmt Hk Hc f Hf. destruct (FindFormat_in _ _ _ Hfmt) as [Hin _].
  destruct (format_field fmt f Hin Hf) as (_ & Hpos & Hv). split; [lia|]. rewrite <- Hv.
  destruct (decide (f_id f ∈ dl_id <$> i_dec_list i')) as [Hl|Hl].
  - apply list_elem_of_fmap in Hl as (l & Hid & Hl). rewrite Hid.
    unfold keys in Hk. rewrite Forall_fmap, Forall_forall in Hk. apply (Hk l Hl).
  - rewrite Forall_forall in Hc. apply Hc. apply operand_chain_ids. eauto.
Qed.

Lemma Decode_built out : length out = nFields ->
  let r := Decode GetBits (MkFull dec fmts fs built (Z.of_nat nFields)) out in
  (exists out' i, r = Ret (Some out') /\ length out' = nFields /\ i ∈ instrs /\
     instr_matches GetBits formats i /\ decoded_as GetBits fmts i out') \/
  (r = Ret None /\ forall i, i ∈ instrs -> ~ instr_matches GetBits formats i).
Proof.
  intros Hout r. unfold r, Decode. cbn [full_fields full_decoder full_instructions].
  pose proof (search_ok GetBits fs nFields (S (search_size dec)) dec None [] out) as Hs.
  specialize (Hs ltac:(cbn; lia) Hout).
  specialize (Hs ltac:(split; [exact (tree_wf _ _ _ _ tree)|exact I|exact I])).
  specialize (Hs ltac:(auto) ltac:(constructor)). cbn [lookup_stack below_path] in Hs.
  destruct (lookup_tree value dec) as [[[p k] ch]|] eqn:El; cbn [search_post app] in Hs.
  - left. destruct Hs as (fields & -> & Hlen & Hw & Hch). cbn [mbind exec_bind].
    apply lookup_sound in El as [Hleads Hm].
    destruct (tree_only _ _ _ _ tree _ _ _ Hleads) as (i' & Hi' & -> & (fmt & Hfmt & ->)).
    rewrite Hi'. cbn [of_option mbind exec_bind].
    destruct (extract_operands_ok GetBits fs nFields _ _ Hlen Hch) as (fields2 & -> & Hlen2 & Hc & Hmono).
    cbn [mbind exec_bind]. unfold set_operand. rewrite Hlen2. cbn.
    destruct (Forall2_lookup_r _ _ _ _ _ prep Hi') as (i & Hi & Hp).
    exists (<[0%nat := u32 (i_id i')]> fields2), i. split; [reflexivity|].
    split; [rewrite length_insert; assumption|].
    split; [eapply list_elem_of_lookup_2; exact Hi|]. split; [apply (matches_iff k i i' Hi Hi'), Hm|].
    destruct Hp as (fmt' & _ & _ & Hpi). split.
    + rewrite list_lookup_insert_eq by lia. rewrite Hpi. reflexivity.
    + exists fmt. split; [rewrite <- Hfmt, Hpi; reflexivity|]. intros f Hf.
      destruct (operands_written i' fmt fields2 Hfmt) with (f := f) as [Hpos Hf2]; auto.
      { eapply Forall_impl; [exact Hw|]. intros c. apply Hmono. }
      split; [assumption|]. rewrite list_lookup_insert_ne by lia. assumption.
  - right. rewrite Hs. split; [reflexivity|]. intros i [k Hi]%list_elem_of_lookup Hm.
    destruct (Forall2_lookup_l _ _ _ _ _ prep Hi) as (i' & Hi' & _).
    apply (matches_iff k i i' Hi Hi') in Hm.
    destruct (matched_reachable (length built - k) k i' ltac:(lia) Hi' Hm) as (p & k' & ch & Hl & Hp).
    exact (lookup_complete _ _ _ _ _ Hl Hp El).
Qed.
End Built.

Lemma CreateDecoder_built formats instrs full :
  Forall (decodable formats) instrs -> CreateDecoder formats instrs = Ret full ->
  exists fs fmts dec built,
    full = MkFull dec fmts fs built (Z.of_nat (S (count_fields formats))) /\
    PutIDs (number_formats 0 formats) = (fs, fmts) /\ Forall2 same_format formats fmts /\
    tree_inv fmts (known_id fs (S (count_fields formats))) dec built /\
    Forall2 (prepared fmts) instrs built.
Proof.
  intros Hd H. unfold CreateDecoder in H. pose proof (PutIDs_numbered (number_formats 0 formats)) as Hn.
  pose proof (format_field (demo_GetBits 0) formats) as Hff.
  destruct (PutIDs (number_formats 0 formats)) as [fs fmts] eqn:Hids.
  destruct Hn as (_ & _ & Her & _). apply same_numbered in Her.
  apply exec_bind_ret in H as ([dec built] & Hadd & H). injection H as <-.
  exists fs, fmts, dec, built. split; [f_equal; lia|]. split; [reflexivity|]. split; [assumption|].
  assert (Hk : forall fmt f, fmt ∈ fmts -> f ∈ fmt_fields fmt -> known_id fs (S (count_fields formats)) (f_id f)).
  { intros fmt f H1 H2. destruct (Hff fs fmts eq_refl fmt f H1 H2) as [Hk _]. exact Hk. }
  apply (add_instructions_ok (instr_name instrs) fmts _ Hk instrs DNull [] dec built).
  - split; [|intros k i H; discriminate|exact I].
    intros p k ch Hl. destruct (leads_null _ _ _ Hl).
  - eapply Forall_impl; [exact Hd|]. intros i. apply decodable_same. assumption.
  - exact Hadd.
Qed.


Lemma demo_decodable : Forall (decodable demo_formats) demo_instrs.
Proof.
  repeat (constructor; [split; [apply Nat.leb_le; reflexivity|]; intros fmt [= <-];
    repeat (constructor; [eexists; reflexivity|]); constructor|]); constructor.
Defined.


(** A later instruction whose decode list is a prefix of an earlier one's
    removes the earlier one from the tree without a message, while the opposite
    order is reported as a conflict: with [x1] checking [op] and [fn] and [x2]
    checking [op] only, a word of [x1] decodes as [x2]. *)
Theorem decode_shadowing GetBits :
  let x1 := demo_instr "x1" "R" 1 [("op", 1); ("fn", 2)] in
  let x2 := demo_instr "x2" "R" 2 [("op", 1)] in
  CreateDecoder demo_formats [x2; x1] =
    Exit ("ERROR building instruction decoder: decoding conflict between x2 and x1." +:+ nl) /\
  exists full, CreateDecoder demo_formats [x1; x2] = Ret full /\
    forall out, length out = 8%nat -> instr_matches GetBits demo_formats x1 ->
    exists out', Decode GetBits full out = Ret (Some out') /\ out' !! 0%nat = Some 2.
Proof.
  intros x1 x2. split; [reflexivity|]. eexists. split; [vm_compute; reflexivity|]. intros out Hout Hm.
  assert (Hop : field_bits GetBits (MkField "op" 4 3 1 0 0) = 1).
  { destruct Hm as (fmt & Hfmt & Hm). vm_compute in Hfmt. injection Hfmt as <-.
    inversion Hm as [|? ? (f & Hf & Hv)]. vm_compute in Hf. injection Hf as <-. exact Hv. }
  unfold Decode. cbn -[field_bits]. rewrite Hop. cbn -[field_bits].
  do 9 (destruct out as [|? out]; try discriminate Hout). clear.
  cbn -[field_bits u32]. eexists. split; [reflexivity|]. reflexivity.
Qed.

Lemma decode_shadowing_witness :
  exists full out', CreateDecoder demo_formats
      [demo_instr "x1" "R" 1 [("op", 1); ("fn", 2)]; demo_instr "x2" "R" 2 [("op", 1)]] = Ret full /\
    Decode (demo_GetBits 0x1267) full (replicate 8 0) = Ret (Some out') /\ out' !! 0%nat = Some 2.
Proof.
  destruct (decode_shadowing (demo_GetBits 0x1267)) as (_ & full & H & Hd). exists full.
  destruct (Hd (replicate 8 0) eq_refl) as (out' & H1 & H2).
  { eexists. split; [reflexivity|].
    repeat (constructor; [eexists; split; reflexivity|]). constructor. }
  exists out'. auto.
Defined.
