(* ===== verification/CoreActions.v ===== *)
(** * Semantic actions of the core language ([archc/src/acpp/core_actions.c])

    What the parser builds while it reads a description: the symbol table, the
    format lists with their parsed fields, the instructions with their decode
    lists, groups, pipelines, stages and storage devices.  A pointer to a list
    element is the element's index in its list; [info] is what the [void *] of a
    symbol-table entry points to, and a cast of it to the wrong type is a crash
    when it is dereferenced. *)
From S2P Require Import Prelude CString DecTypes SymTab.

(** ** Data *)

Inductive info :=
  | PInstr (k : nat)
  | PFormat (is_instr : bool) (k : nat)
  | PGroup (k : nat)
  | PPipe (k : nat)
  | PStage (pipe k : nat)
  | PStorage (k : nat)
  | PTlmIntrPort (k : nat).

Inductive ac_sto_types := MEM | CACHE | ICACHE | DCACHE | REG | REGBANK | TLM_PORT | TLM_INTR_PORT.

#[export] Instance ac_sto_types_eq_dec : EqDecision ac_sto_types.
Proof. solve_decision. Defined.

Record ac_cache_parms := MkParm { parm_str : option string; parm_value : Z }.

(** [sto_parms]: [None] when the field is left uninitialised. *)
Record ac_sto_list := MkSto {
  sto_name : string;
  sto_format : option string;
  sto_size : Z;
  sto_width : Z;
  sto_level : Z;
  sto_type : ac_sto_types;
  sto_higher : option nat;
  sto_parms : option (list ac_cache_parms)
}.

Record ac_stg_list := MkStg { stg_name : string; stg_id : Z }.
Record ac_pipe_list := MkPipe { pipe_name : string; pipe_id : Z; pipe_stages : list ac_stg_list }.

(** An instruction reference is the index of the instruction. *)
Record ac_grp_list := MkGrp { grp_name : string; grp_id : Z; grp_instrs : list nat }.

(** Lists with a separate tail pointer: the tail is the last element of the
    list, or belongs to a list that the head no longer points to. *)
Inductive tail_ptr (A : Type) := OwnTail | LostTail (l : list A).
Arguments OwnTail {A}.
Arguments LostTail {A} l.

(** The static [field_list] and the format lists. *)
Record format_state := MkFormats {
  field_list : list ac_dec_field;
  const_count : Z;
  largest_format_size : Z;
  format_ins_list : list ac_dec_format;
  format_reg_list : list ac_dec_format;
  common_instr_field_list : list ac_dec_field
}.

Record instr_state := MkInstrs { instr_num : Z; instr_list : list ac_dec_instr }.

Record group_state := MkGroups {
  group_num : Z;
  group_list : list ac_grp_list;
  group_list_tail : tail_ptr ac_grp_list
}.

Record pipe_state := MkPipes { pipe_num : Z; stage_num : Z; pipe_list : list ac_pipe_list }.

Record storage_state := MkStorage {
  parms_list : list ac_cache_parms;
  reg_width : Z;
  storage_list : list ac_sto_list;
  tlm_intr_port_list : list ac_sto_list;
  fetch_device : option nat
}.

Record core_state (T : Type) := MkCore {
  symbols : T;
  formats : format_state;
  instrs : instr_state;
  groups : group_state;
  pipes : pipe_state;
  storage : storage_state
}.
Arguments MkCore {T}.
Arguments symbols {T}.
Arguments formats {T}.
Arguments instrs {T}.
Arguments groups {T}.
Arguments pipes {T}.
Arguments storage {T}.

(** ** Format strings *)

(** The state of [parse_format]: the text still to be read, the field list with
    the index of the element that the tail pointer designates, the counter of
    constants and the error message. *)
Record parse_state := MkParse {
  ps_str : string;
  ps_list : list ac_dec_field;
  ps_tail : nat;
  ps_consts : Z;
  ps_msg : string
}.

Definition ps_at (s : string) (st : parse_state) : parse_state :=
  MkParse s (ps_list st) (ps_tail st) (ps_consts st) (ps_msg st).
Definition ps_error (msg : string) (st : parse_state) : parse_state :=
  MkParse (ps_str st) (ps_list st) (ps_tail st) (ps_consts st) msg.
Definition ps_count (st : parse_state) : parse_state :=
  MkParse (ps_str st) (ps_list st) (ps_tail st) (ps_consts st + 1) (ps_msg st).

(** Links a field after the tail, which cuts what followed the tail. *)
Definition put_field (f : ac_dec_field) (st : parse_state) : parse_state :=
  match ps_list st with
  | [] => MkParse (ps_str st) [f] 0 (ps_consts st) (ps_msg st)
  | l => MkParse (ps_str st) (take (S (ps_tail st)) l ++ [f]) (S (ps_tail st)) (ps_consts st) (ps_msg st)
  end.

Definition eat_spaces (st : parse_state) : parse_state := ps_at (skip_spaces (ps_str st)) st.

(** The part of a string before and from the first [':']. *)
Fixpoint split_colon (s : string) : string * string :=
  match s with
  | EmptyString => (EmptyString, s)
  | String c t =>
      if is_char ":" c then (EmptyString, s)
      else let '(name, rest) := split_colon t in (String c name, rest)
  end.

(** The first [n] characters of a string. *)
Fixpoint str_take (n : nat) (s : string) : string :=
  match n, s with
  | S n, String c s => String c (str_take n s)
  | _, _ => EmptyString
  end.

Definition const_name (n : Z) : string := str_take 9 ("CONST_" +:+ pretty n).

(** [*p - str] for a pointer into [str]. *)
Definition offset (str p : string) : Z := Z.of_nat (String.length str) - Z.of_nat (String.length p).

(** A sum of [int]s; its overflow is undefined. *)
Definition int_add (a b : Z) : exec Z :=
  if (- 2 ^ 31 <=? a + b) && (a + b <? 2 ^ 31) then Ret (a + b) else Crash.

(** The optional sign of a field at [s]: the sign and the text that follows. *)
Definition parse_sign (s : string) : option (Z * string) :=
  match s with
  | String c rest =>
      if is_char ":" c then
        match rest with
        | String d rest' =>
            if is_char "s" d || is_char "S" d then Some (1, rest')
            else if is_char "u" d || is_char "U" d then Some (0, rest')
            else None
        | EmptyString => None
        end
      else Some (0, s)
  | EmptyString => Some (0, s)
  end.

(** The name and the value of a field or a constant, with the text from the
    name's end: the [strtol] branch and the [split_colon] branch. *)
Definition parse_name (st : parse_state) : string * Z * string * parse_state :=
  let '(value, fieldend) := strtol 0 (ps_str st) in
  if negb (streq fieldend (ps_str st)) then
    (const_name (ps_consts st), s32 value, fieldend, ps_count st)
  else
    let s := match ps_str st with
             | String c rest => if is_char "%" c then rest else ps_str st
             | EmptyString => ps_str st
             end in
    let '(name, fieldend) := split_colon s in
    (name, 0, fieldend, ps_at s st).

(** One field: [str] is the start of the group, for the messages; [None] is
    [return -1]. *)
Definition parse_field (str : string) (sum_size : Z) (st : parse_state) : exec (parse_state * option Z) :=
  let '(name, val, fieldend, st) := parse_name st in
  match fieldend with
  | EmptyString => Ret (ps_error ("Size not given in " +:+ quote +:+ ps_str st +:+ quote) st, None)
  | String c s =>
      if negb (is_char ":" c)
      then Ret (ps_error ("Size not given in " +:+ quote +:+ ps_str st +:+ quote) st, None)
      else
        let '(value, fieldend) := strtol 0 s in
        if streq fieldend s
        then Ret (ps_error ("Invalid size in " +:+ quote +:+ str +:+ quote +:+ ", character "
                            +:+ pretty (offset str s)) (ps_at s st), None)
        else
          let size := s32 value in
          match parse_sign fieldend with
          | None =>
              let p := match fieldend with String _ p => p | EmptyString => fieldend end in
              Ret (ps_error ("Invalid sign specification in " +:+ quote +:+ str +:+ quote +:+ ", character "
                             +:+ pretty (offset str p)) (ps_at p st), None)
          | Some (sign, rest) =>
              sum_size ← int_add sum_size size;
              first_bit ← int_add sum_size (-1);
              Ret (put_field (MkField name size first_bit 0 val sign) (ps_at rest st), Some sum_size)
          end
  end.

Definition size_mismatch (str : string) : string :=
  "Size mismatch in format choices for " +:+ quote +:+ str +:+ quote.

(** The loop of [parse_format]; [str]: the text at the entry of this group. *)
Fixpoint parse_group (fuel : nat) (str : string) (first_bit sum_size size_limit : Z)
    (st : parse_state) : exec (parse_state * Z) :=
  match fuel with
  | O => Crash
  | S fuel =>
      match ps_str st with
      | EmptyString => Ret (st, sum_size)
      | String c rest =>
          if is_char "[" c then
            '(st, sum_size) ← parse_group fuel rest sum_size sum_size (-1) (eat_spaces (ps_at rest st));
            if sum_size =? -1 then Ret (st, -1)
            else parse_group fuel str first_bit sum_size size_limit (eat_spaces st)
          else if is_char "]" c then
            let st := ps_at rest st in
            if negb (size_limit =? -1) && negb (size_limit =? sum_size)
            then Ret (ps_error (size_mismatch str) st, -1)
            else Ret (st, sum_size)
          else if is_char "|" c then
            let st := ps_at rest st in
            if negb (size_limit =? -1) then
              if negb (size_limit =? sum_size) then Ret (ps_error (size_mismatch str) st, -1)
              else parse_group fuel str first_bit first_bit size_limit (eat_spaces st)
            else parse_group fuel str first_bit first_bit sum_size (eat_spaces st)
          else
            '(st, sum) ← parse_field str sum_size st;
            match sum with
            | None => Ret (st, -1)
            | Some sum_size => parse_group fuel str first_bit sum_size size_limit (eat_spaces st)
            end
      end
  end.

Definition parse_format (sum_size size_limit : Z) (st : parse_state) : exec (parse_state * Z) :=
  parse_group (S (String.length (ps_str st))) (ps_str st) sum_size sum_size size_limit (eat_spaces st).

(** ** Formats *)

Definition has_field (name : string) (fs : list ac_dec_field) : bool :=
  existsb (fun f => streq name (f_name f)) fs.

Fixpoint number_from (n : Z) (fs : list ac_dec_field) : list ac_dec_field :=
  match fs with [] => [] | f :: fs => set_f_id n f :: number_from (n + 1) fs end.

(** The common fields after a new instruction format. *)
Definition update_common (common fields : list ac_dec_field) : list ac_dec_field :=
  match common with
  | [] => number_from 1 fields
  | _ => List.filter (fun f => has_field (f_name f) fields) common
  end.

(** Returns the result and the message.  [head] and [tail] are those of the
    instruction formats when [is_instr], of the register formats otherwise. *)
Definition add_format (fs : format_state) (name str : string) (is_instr : bool)
    : exec (format_state * Z * string) :=
  '(st, sum_size) ← parse_format 0 (-1) (MkParse str (field_list fs) 0 (const_count fs) EmptyString);
  if sum_size =? -1 then
    Ret (MkFormats (ps_list st) (ps_consts st) (largest_format_size fs) (format_ins_list fs)
           (format_reg_list fs) (common_instr_field_list fs), 0, ps_msg st)
  else
    let pformat := MkFormat 0 name sum_size (ps_list st) in
    let largest := if largest_format_size fs <? sum_size then sum_size else largest_format_size fs in
    Ret (if is_instr
         then MkFormats [] (ps_consts st) largest (format_ins_list fs ++ [pformat]) (format_reg_list fs)
                (update_common (common_instr_field_list fs) (ps_list st))
         else MkFormats [] (ps_consts st) largest (format_ins_list fs) (format_reg_list fs ++ [pformat])
                (common_instr_field_list fs),
         1, EmptyString).

Definition find_field (pformat : ac_dec_format) (name : string) : option ac_dec_field :=
  list_first (fun f => streq (f_name f) name) (fmt_fields pformat).

(** ** Pipelines and storage *)

Definition add_pipe (s : pipe_state) (name : string) : pipe_state :=
  let id := pipe_num s + 1 in
  MkPipes id (stage_num s) (pipe_list s ++ [MkPipe name id []]).

(** Adds a stage to pipeline number [k]. *)
Definition add_stage (s : pipe_state) (name : string) (k : nat) : exec pipe_state :=
  p ← of_option (pipe_list s !! k);
  let id := stage_num s + 1 in
  Ret (MkPipes (pipe_num s) id
         (<[k := MkPipe (pipe_name p) (pipe_id p) (pipe_stages p ++ [MkStg name id])]> (pipe_list s))).

Definition add_parms (s : storage_state) (name : option string) (value : Z) : storage_state :=
  MkStorage (parms_list s ++ [MkParm name (u32 value)]) (reg_width s) (storage_list s)
    (tlm_intr_port_list s) (fetch_device s).

Definition is_cache (type : ac_sto_types) : bool :=
  match type with CACHE | ICACHE | DCACHE => true | _ => false end.

Definition find_storage (s : storage_state) (name : string) : option ac_sto_list :=
  list_first (fun p => streq (sto_name p) name) (storage_list s).

Definition add_storage (s : storage_state) (name : string) (size : Z) (type : ac_sto_types)
    (typestr : option string) : storage_state * Z * string :=
  let format := if decide (type = REG) then typestr else None in
  if is_cache type && bool_decide (parms_list s = []) && (size =? 0)
  then (s, 0, "Invalid size in cache declaration: " +:+ name)
  else
    let '(parms, list) :=
      if is_cache type then
        match parms_list s with [] => (Some [], []) | l => (Some l, []) end
      else (None, parms_list s) in
    let width := if (bool_decide (type = REGBANK) || bool_decide (type = REG)) && negb (reg_width s =? 0)
                 then reg_width s else 0 in
    let pstorage := MkSto name format size width 0 type None parms in
    let fetch := if decide (type = ICACHE) then Some (length (storage_list s)) else fetch_device s in
    (if decide (type = TLM_INTR_PORT)
     then MkStorage list (reg_width s) (storage_list s) (tlm_intr_port_list s ++ [pstorage]) fetch
     else MkStorage list (reg_width s) (storage_list s ++ [pstorage]) (tlm_intr_port_list s) fetch,
     1, EmptyString).

Fixpoint str_upper (str : string) : string :=
  match str with EmptyString => EmptyString | String c str => String (toupper c) (str_upper str) end.

(** ** Instructions and groups *)

(** [calloc]: all fields zero. *)
Definition get_control_flow_struct (pinstr : ac_dec_instr) : ac_dec_instr :=
  match i_cflow pinstr with
  | Some _ => pinstr
  | None => set_i_cflow (Some (MkCflow None None 0 None None)) pinstr
  end.

Definition add_group (s : group_state) (name : string) : group_state :=
  let id := group_num s + 1 in
  let group := MkGrp name id [] in
  match group_list_tail s with
  | OwnTail => MkGroups id (group_list s ++ [group]) OwnTail
  | LostTail l => MkGroups id (group_list s) (LostTail (l ++ [group]))
  end.

(** The list of instruction references after the lookup of the instruction:
    the result is 2 when the duplicate is seen. *)
Definition link_instr_ref (k : nat) (refs : list nat) : list nat * Z :=
  match refs with
  | [] => ([k], 1)
  | first :: _ =>
      if bool_decide (first = k) || existsb (Nat.eqb k) (removelast refs) then (refs, 2)
      else (refs ++ [k], 1)
  end.

(** The test [value > ((1 << size) - 1)]; the shift is defined below the width
    of [int]. *)
Definition value_too_big (size value : Z) : exec bool :=
  if (0 <=? size) && (size <? 31) then Ret (Z.shiftl 1 size - 1 <? value) else Crash.

Section Core.
Context {T : Type} `{!SymbolMap info T}.
(** [uninit]: what [malloc] leaves in the [id] of a new decode-list element. *)
Context (uninit : Z).
Notation core := (core_state T).

Definition set_symbols (t : T) (s : core) : core :=
  MkCore t (formats s) (instrs s) (groups s) (pipes s) (storage s).
Definition set_formats (x : format_state) (s : core) : core :=
  MkCore (symbols s) x (instrs s) (groups s) (pipes s) (storage s).
Definition set_instrs (x : instr_state) (s : core) : core :=
  MkCore (symbols s) (formats s) x (groups s) (pipes s) (storage s).
Definition set_groups (x : group_state) (s : core) : core :=
  MkCore (symbols s) (formats s) (instrs s) x (pipes s) (storage s).
Definition set_pipes (x : pipe_state) (s : core) : core :=
  MkCore (symbols s) (formats s) (instrs s) (groups s) x (storage s).
Definition set_storage (x : storage_state) (s : core) : core :=
  MkCore (symbols s) (formats s) (instrs s) (groups s) (pipes s) x.

(** [init_core_actions] resets every list and counter but the tail of the
    group list, which stays on the groups of the previous run. *)
Definition init_core_actions (s : core) : core :=
  MkCore (sm_empty (A:=info)) (MkFormats [] 0 0 [] [] []) (MkInstrs 0 [])
    (MkGroups 0 []
       match group_list_tail (groups s) with
       | LostTail l => LostTail l
       | OwnTail => match group_list (groups s) with [] => OwnTail | l => LostTail l end
       end)
    (MkPipes 0 0 []) (MkStorage [] 0 [] [] None).

(** The static storage of a new process. *)
Definition zero_core : core :=
  MkCore (sm_empty (A:=info)) (MkFormats [] 0 0 [] [] []) (MkInstrs 0 []) (MkGroups 0 [] OwnTail)
    (MkPipes 0 0 []) (MkStorage [] 0 [] [] None).

Definition find_symbol_in (s : core) (name : string) (type : ac_parser_type)
    : exec (option (symbol_table_entry info)) := sm_find (symbols s) name type.

Definition add_symbol_in (s : core) (name : string) (type : ac_parser_type) (p : info)
    : exec (T * Z) := sm_add (symbols s) name type p.

(** [find_symbol] with the cast of the entry's [void *]. *)
Definition find_instr (s : core) (name : string) : exec (option info) :=
  p ← find_symbol_in s name INSTR; Ret (option_map st_info p).

Definition find_format (s : core) (name : string) : exec (option info) :=
  p ← find_symbol_in s name INSTR_FMT; Ret (option_map st_info p).

Definition deref_instr (s : core) (p : info) : exec ac_dec_instr :=
  match p with PInstr k => of_option (instr_list (instrs s) !! k) | _ => Crash end.

Definition deref_format (s : core) (p : info) : exec ac_dec_format :=
  match p with
  | PFormat true k => of_option (format_ins_list (formats s) !! k)
  | PFormat false k => of_option (format_reg_list (formats s) !! k)
  | _ => Crash
  end.

(** Returns the result, the message and the new instruction [*pinstr], which
    is linked in the list when the result is 1. *)
Definition add_instr (s : core) (name typestr : string) : exec (core * Z * string * ac_dec_instr) :=
  let id := instr_num (instrs s) + 1 in
  let pinstr := MkInstr name 0 None None typestr (u32 id) 1 1 1 [] None in
  match instr_list (instrs s) with
  | [] => Ret (set_instrs (MkInstrs id [pinstr]) s, 1, EmptyString, pinstr)
  | l =>
      p ← find_instr s name;
      match p with
      | Some _ => Ret (set_instrs (MkInstrs id l) s, 0, "Duplicated instruction name: " +:+ name, pinstr)
      | None => Ret (set_instrs (MkInstrs id (l ++ [pinstr])) s, 1, EmptyString, pinstr)
      end
  end.

(** Pointers to instructions are compared, not dereferenced. *)
Definition add_instr_ref (s : core) (name : string) (refs : list nat) : exec (list nat * Z * string) :=
  p ← find_instr s name;
  match p with
  | None => Ret (refs, 0, "Undeclared instruction: " +:+ name)
  | Some (PInstr k) =>
      let '(refs, r) := link_instr_ref k refs in
      Ret (refs, r, if r =? 2 then "Instruction " +:+ name +:+ " already in group" else EmptyString)
  | Some _ => Crash
  end.

Definition add_dec_list (s : core) (pinstr : option info) (name : string) (value : Z)
    : exec (core * Z * string) :=
  match pinstr with
  | None => Ret (s, 0, "Ignoring undeclared instruction arguments")
  | Some p =>
      instr ← deref_instr s p;
      f ← find_format s (i_format instr);
      match f with
      | None => Ret (s, 0, "Instr " +:+ i_name instr +:+ ": Format not found for this instruction")
      | Some f =>
          pformat ← deref_format s f;
          match find_field pformat name with
          | None => Ret (s, 0, "Instr " +:+ i_name instr +:+ ": Field '" +:+ name
                               +:+ "' not found in type " +:+ fmt_name pformat)
          | Some pfield =>
              big ← value_too_big (f_size pfield) value;
              if big : bool then
                Ret (s, 0, "Instr " +:+ i_name instr +:+ ": Field '" +:+ name +:+ "' value "
                           +:+ pretty value +:+ " too big")
              else
                let instr := set_i_dec_list (i_dec_list instr ++ [MkDec name uninit value]) instr in
                match p with
                | PInstr k =>
                    Ret (set_instrs (MkInstrs (instr_num (instrs s)) (<[k := instr]> (instr_list (instrs s)))) s,
                         1, EmptyString)
                | _ => Crash
                end
          end
      end
  end.

(** ** Declarations: the actions of the grammar that call the above *)

(** [ac_format NAME = "str";] in an ISA or an architecture description.  The
    symbol is added whatever [add_format] returns; the result tells whether
    no error was reported. *)
Definition declare_format (s : core) (name str : string) (is_instr : bool) : exec (core * bool) :=
  '(fs, r, _) ← add_format (formats s) name str is_instr;
  let s := set_formats fs s in
  let list := if is_instr then format_ins_list fs else format_reg_list fs in
  '(t, added) ← add_symbol_in s name (if is_instr then INSTR_FMT else REG_FMT)
                  (PFormat is_instr (length list - 1));
  Ret (set_symbols t s, (r =? 1) && (added =? 1)).

(** [ac_instr<TYPE> NAME;] *)
Definition declare_instr (s : core) (typestr name : string) : exec (core * bool) :=
  p ← find_instr s name;
  match p with
  | Some _ => Ret (s, false)
  | None =>
      '(s, r, _, _) ← add_instr s name typestr;
      if r =? 0 then Ret (s, false)
      else
        '(t, added) ← add_symbol_in s name INSTR (PInstr (length (instr_list (instrs s)) - 1));
        Ret (set_symbols t s, added =? 1)
  end.

(** [NAME.set_decoder(FIELD = VALUE)] *)
Definition set_decoder (s : core) (name field : string) (value : Z) : exec (core * bool) :=
  p ← find_instr s name;
  match p with
  | None => Ret (s, false)
  | Some p => '(s, r, _) ← add_dec_list s (Some p) field value; Ret (s, r =? 1)
  end.

(** A memory, register, port or cache. *)
Definition declare_storage (s : core) (name : string) (size : Z) (type : ac_sto_types)
    (typestr : option string) : exec (core * bool) :=
  let '(st, r, _) := add_storage (storage s) name size type typestr in
  '(t, added) ← add_symbol_in s name GEN_ID (PStorage (length (storage_list st) - 1));
  Ret (set_symbols t (set_storage st s), (r =? 1) && (added =? 1)).

(** [ac_group NAME { ... }] up to its first reference. *)
Definition declare_group (s : core) (name : string) : exec (core * bool) :=
  let g := add_group (groups s) name in
  '(t, added) ← add_symbol_in s name GEN_ID (PGroup (length (group_list g) - 1));
  Ret (set_symbols t (set_groups g s), added =? 1).

Inductive declaration :=
  | DFormat (name str : string)
  | DRegFormat (name str : string)
  | DInstr (typestr name : string)
  | DDecoder (name field : string) (value : Z)
  | DStorage (name : string) (size : Z) (type : ac_sto_types) (typestr : option string)
  | DGroup (name : string).

Definition declare (s : core) (d : declaration) : exec (core * bool) :=
  match d with
  | DFormat name str => declare_format s name str true
  | DRegFormat name str => declare_format s name str false
  | DInstr typestr name => declare_instr s typestr name
  | DDecoder name field value => set_decoder s name field value
  | DStorage name size type typestr => declare_storage s name size type typestr
  | DGroup name => declare_group s name
  end.

(** A description read without an error. *)
Inductive described : list declaration -> core -> Prop :=
  | described_nil : described [] (init_core_actions zero_core)
  | described_snoc l s d s' :
      described l s -> declare s d = Ret (s', true) -> described (l ++ [d]) s'.
End Core.
