(* ===== verification/CoreActionsOk.v ===== *)
(** * Correctness of the core semantic actions

    Termination and round trip of the format-string parser, the common-field
    list, and the invariants of a description that is read without an error. *)
From S2P Require Import Prelude CString DecTypes SymTab CoreActions AcDecoder AcDecoderOk.

(** ** The parser consumes its text *)

Lemma put_field_str f st : ps_str (put_field f st) = ps_str st.
Proof. unfold put_field. destruct (ps_list st); reflexivity. Qed.

Lemma split_colon_length s : (String.length (snd (split_colon s)) <= String.length s)%nat.
Proof.
  induction s as [|c s IH]; cbn [split_colon]; [cbn; lia|]. destruct (is_char ":" c); [cbn; lia|].
  destruct (split_colon s). cbn in *. lia.
Qed.

Lemma parse_name_length st name val e st' : parse_name st = (name, val, e, st') ->
  (String.length e <= String.length (ps_str st))%nat /\
  (String.length (ps_str st') <= String.length (ps_str st))%nat.
Proof.
  unfold parse_name. pose proof (strtol_length 0 (ps_str st)) as Hl.
  destruct (strtol 0 (ps_str st)) as [v e1]. cbn in Hl. destruct (negb (streq e1 (ps_str st))).
  - intros [= _ _ <- <-]. cbn. destruct Hl as [->|Hl]; lia.
  - set (s := match ps_str st with String c rest => if is_char "%" c then rest else ps_str st | _ => ps_str st end).
    assert (String.length s <= String.length (ps_str st))%nat.
    { unfold s. destruct (ps_str st) as [|c t]; [cbn; lia|]. destruct (is_char "%" c); cbn; lia. }
    pose proof (split_colon_length s) as Hs. destruct (split_colon s) as [n e2].
    intros [= _ _ <- <-]. cbn in *. lia.
Qed.

Lemma parse_sign_length s sign rest : parse_sign s = Some (sign, rest) ->
  (String.length rest <= String.length s)%nat.
Proof.
  unfold parse_sign. destruct s as [|c s]; [intros [= _ <-]; lia|]. destruct (is_char ":" c).
  - destruct s as [|d s]; [discriminate|]. repeat case_match; intros [= _ <-]; cbn; lia.
  - intros [= _ <-]. lia.
Qed.

Lemma int_add_Ret a b c : int_add a b = Ret c -> c = a + b.
Proof. unfold int_add. destruct ((_ <=? _) && _); [congruence|discriminate]. Qed.

Lemma parse_field_length str sum st st' r : parse_field str sum st = Ret (st', Some r) ->
  (String.length (ps_str st') < String.length (ps_str st))%nat.
Proof.
  unfold parse_field. destruct (parse_name st) as [[[name val] e] st1] eqn:En.
  apply parse_name_length in En as [He _]. destruct e as [|c s]; [discriminate|].
  destruct (negb (is_char ":" c)); [discriminate|]. pose proof (strtol_length 0 s) as Hl.
  destruct (strtol 0 s) as [v e2]. cbn in He, Hl. destruct (streq e2 s); [discriminate|].
  destruct (parse_sign e2) as [[sign rest]|] eqn:Es; [|discriminate].
  apply parse_sign_length in Es. intros H. exec_inv H. exec_inv H. injection H as <- _.
  rewrite put_field_str. cbn. destruct Hl as [->|Hl]; lia.
Qed.

Lemma eat_spaces_length st : (String.length (ps_str (eat_spaces st)) <= String.length (ps_str st))%nat.
Proof. apply skip_spaces_length. Qed.

Lemma parse_group_length fuel : forall str fb sum lim st st' r,
  parse_group fuel str fb sum lim st = Ret (st', r) ->
  r = -1 \/ (String.length (ps_str st') <= String.length (ps_str st))%nat.
Proof.
  induction fuel as [|fuel IH]; intros str fb sum lim st st' r H; [discriminate|].
  cbn [parse_group] in H. destruct (ps_str st) as [|c rest] eqn:Es; [injection H as <- <-; rewrite Es; right; lia|].
  assert (Hrec : forall str fb sum lim st1, (String.length (ps_str st1) <= String.length (String c rest))%nat ->
    parse_group fuel str fb sum lim (eat_spaces st1) = Ret (st', r) ->
    r = -1 \/ (String.length (ps_str st') <= String.length (String c rest))%nat).
  { intros ? ? ? ? st1 Hst1 H1. apply IH in H1 as [H1|H1]; [left; assumption|].
    pose proof (eat_spaces_length st1). right. lia. }
  assert (Hr : (String.length (ps_str (ps_at rest st)) <= String.length (String c rest))%nat) by (cbn; lia).
  destruct (is_char "[" c).
  { exec_inv H. destruct a as [st1 sum1]. destruct (Z.eqb_spec sum1 (-1)); [injection H as _ <-; auto|].
    apply IH in E as [E|E]; [congruence|]. eapply Hrec; [|exact H]. pose proof (eat_spaces_length (ps_at rest st)). lia. }
  destruct (is_char "]" c).
  { destruct (_ && _); injection H as <- <-; auto. }
  destruct (is_char "|" c).
  { destruct (negb (lim =? -1)); [destruct (negb (lim =? sum)); [injection H as _ <-; auto|]|]; eauto. }
  exec_inv H. destruct a as [st1 [sum1|]]; [|injection H as _ <-; auto].
  apply parse_field_length in E. rewrite Es in E. eapply Hrec; [|exact H]. lia.
Qed.

(** ** Termination *)

Lemma parse_group_fuel fuel : forall fuel' str fb sum lim st,
  (String.length (ps_str st) < fuel)%nat -> (String.length (ps_str st) < fuel')%nat ->
  parse_group fuel str fb sum lim st = parse_group fuel' str fb sum lim st.
Proof.
  induction fuel as [|fuel IH]; intros [|fuel'] str fb sum lim st H H'; try lia.
  cbn [parse_group]. destruct (ps_str st) as [|c rest] eqn:Es; [reflexivity|].
  assert (Hrec : forall str fb sum lim st1, (String.length (ps_str st1) < String.length (String c rest))%nat ->
    parse_group fuel str fb sum lim (eat_spaces st1) = parse_group fuel' str fb sum lim (eat_spaces st1)).
  { intros ? ? ? ? st1 Hst1. pose proof (eat_spaces_length st1). apply IH; lia. }
  assert (Hr : (String.length (ps_str (ps_at rest st)) < String.length (String c rest))%nat) by (cbn; lia).
  destruct (is_char "[" c).
  { rewrite Hrec by assumption.
    destruct (parse_group fuel' rest sum sum (-1) (eat_spaces (ps_at rest st))) as [[st1 sum1]| |] eqn:E; [|reflexivity..].
    cbn. destruct (Z.eqb_spec sum1 (-1)); [reflexivity|]. apply Hrec.
    apply parse_group_length in E as [E|E]; [congruence|]. pose proof (eat_spaces_length (ps_at rest st)). lia. }
  destruct (is_char "]" c); [reflexivity|].
  destruct (is_char "|" c).
  { destruct (negb (lim =? -1)); [destruct (negb (lim =? sum)); [reflexivity|]|]; apply Hrec; assumption. }
  destruct (parse_field str sum st) as [[st1 [sum1|]]| |] eqn:E; [|reflexivity..]. cbn. apply Hrec.
  apply parse_field_length in E. rewrite Es in E. assumption.
Qed.

(** A run with the fuel of [parse_format]. *)
Definition parse_run (str : string) (fb sum lim : Z) (st : parse_state) : exec (parse_state * Z) :=
  parse_group (S (String.length (ps_str st))) str fb sum lim st.

Lemma parse_run_fuel fuel str fb sum lim st : (String.length (ps_str st) < fuel)%nat ->
  parse_group fuel str fb sum lim st = parse_run str fb sum lim st.
Proof. intros H. apply parse_group_fuel; lia. Qed.

(** The runs of the C loop, with no bound on their length: a rule per branch.
    [str] is the text at the entry of the group, [fb] and [sum] are [first_bit]
    and [sum_size], [lim] is [size_limit]; a run that never ends has no
    derivation, and only a sum of sizes that overflows is undefined. *)
Inductive loop_runs : string -> Z -> Z -> Z -> parse_state -> exec (parse_state * Z) -> Prop :=
  | runs_end str fb sum lim st : ps_str st = EmptyString -> loop_runs str fb sum lim st (Ret (st, sum))
  | runs_open str fb sum lim st rest st1 sum1 r : ps_str st = String "[" rest ->
      loop_runs rest sum sum (-1) (eat_spaces (ps_at rest st)) (Ret (st1, sum1)) -> sum1 <> -1 ->
      loop_runs str fb sum1 lim (eat_spaces st1) r -> loop_runs str fb sum lim st r
  | runs_open_error str fb sum lim st rest st1 : ps_str st = String "[" rest ->
      loop_runs rest sum sum (-1) (eat_spaces (ps_at rest st)) (Ret (st1, -1)) -> loop_runs str fb sum lim st (Ret (st1, -1))
  | runs_open_undefined str fb sum lim st rest : ps_str st = String "[" rest ->
      loop_runs rest sum sum (-1) (eat_spaces (ps_at rest st)) Crash -> loop_runs str fb sum lim st Crash
  | runs_close str fb sum lim st rest : ps_str st = String "]" rest -> lim = -1 \/ lim = sum ->
      loop_runs str fb sum lim st (Ret (ps_at rest st, sum))
  | runs_close_error str fb sum lim st rest : ps_str st = String "]" rest -> lim <> -1 -> lim <> sum ->
      loop_runs str fb sum lim st (Ret (ps_error (size_mismatch str) (ps_at rest st), -1))
  | runs_first_choice str fb sum st rest r : ps_str st = String "|" rest ->
      loop_runs str fb fb sum (eat_spaces (ps_at rest st)) r -> loop_runs str fb sum (-1) st r
  | runs_choice str fb sum st rest r : ps_str st = String "|" rest -> sum <> -1 ->
      loop_runs str fb fb sum (eat_spaces (ps_at rest st)) r -> loop_runs str fb sum sum st r
  | runs_choice_error str fb sum lim st rest : ps_str st = String "|" rest -> lim <> -1 -> lim <> sum ->
      loop_runs str fb sum lim st (Ret (ps_error (size_mismatch str) (ps_at rest st), -1))
  | runs_field str fb sum lim st c rest st1 sum1 r : ps_str st = String c rest -> c ∉ ["["; "]"; "|"]%char ->
      parse_field str sum st = Ret (st1, Some sum1) -> loop_runs str fb sum1 lim (eat_spaces st1) r ->
      loop_runs str fb sum lim st r
  | runs_field_error str fb sum lim st c rest st1 : ps_str st = String c rest -> c ∉ ["["; "]"; "|"]%char ->
      parse_field str sum st = Ret (st1, None) -> loop_runs str fb sum lim st (Ret (st1, -1))
  | runs_overflow str fb sum lim st c rest : ps_str st = String c rest -> c ∉ ["["; "]"; "|"]%char ->
      parse_field str sum st = Crash -> loop_runs str fb sum lim st Crash.

Lemma parse_field_Exit str sum st msg : parse_field str sum st <> Exit msg.
Proof.
  unfold parse_field, int_add. destruct (parse_name st) as [[[? ?] e] ?]. destruct e; [discriminate|].
  destruct (negb _); [discriminate|]. destruct (strtol 0 e) as [? e2]. destruct (streq e2 e); [discriminate|].
  destruct (parse_sign e2) as [[? ?]|]; [|discriminate]. repeat (case_match; cbn; try discriminate).
Qed.

Lemma parse_group_Exit fuel : forall str fb sum lim st msg, parse_group fuel str fb sum lim st <> Exit msg.
Proof.
  induction fuel as [|fuel IH]; intros str fb sum lim st msg; [discriminate|]. cbn [parse_group].
  destruct (ps_str st) as [|c rest]; [discriminate|].
  destruct (is_char "[" c); [|destruct (is_char "]" c); [|destruct (is_char "|" c)]].
  - destruct (parse_group fuel rest sum sum (-1) _) as [[st1 sum1]|m|] eqn:E; cbn; [|destruct (IH _ _ _ _ _ _ E)|discriminate].
    destruct (sum1 =? -1); [discriminate|apply IH].
  - destruct (_ && _); discriminate.
  - destruct (negb (lim =? -1)); [destruct (negb (lim =? sum)); [discriminate|]|]; apply IH.
  - destruct (parse_field str sum st) as [[st1 [sum1|]]|m|] eqn:E; cbn; [apply IH|discriminate|destruct (parse_field_Exit _ _ _ _ E)|discriminate].
Qed.

Lemma parse_group_loop fuel : forall str fb sum lim st, (String.length (ps_str st) < fuel)%nat ->
  loop_runs str fb sum lim st (parse_group fuel str fb sum lim st).
Proof.
  induction fuel as [|fuel IH]; intros str fb sum lim st H; [lia|].
  cbn [parse_group]. destruct (ps_str st) as [|c rest] eqn:Es; [apply runs_end, Es|].
  assert (Hrec : forall str fb sum lim st1, (String.length (ps_str st1) < String.length (String c rest))%nat ->
    loop_runs str fb sum lim (eat_spaces st1) (parse_group fuel str fb sum lim (eat_spaces st1))).
  { intros ? ? ? ? st1 Hst1. pose proof (eat_spaces_length st1). apply IH; lia. }
  assert (Hr : (String.length (ps_str (ps_at rest st)) < String.length (String c rest))%nat) by (cbn; lia).
  destruct (is_char "[" c) eqn:E1; [|destruct (is_char "]" c) eqn:E2; [|destruct (is_char "|" c) eqn:E3]].
  - apply Ascii.eqb_eq in E1 as <-. specialize (Hrec rest sum sum (-1) _ Hr) as Hi.
    destruct (parse_group fuel rest sum sum (-1) (eat_spaces (ps_at rest st))) as [[st1 sum1]|msg|] eqn:E.
    + cbn. destruct (Z.eqb_spec sum1 (-1)) as [->|Hn]; [eapply runs_open_error; eassumption|].
      eapply runs_open; [exact Es|exact Hi|exact Hn|]. apply Hrec.
      apply parse_group_length in E as [E|E]; [congruence|]. pose proof (eat_spaces_length (ps_at rest st)). lia.
    + exfalso. exact (parse_group_Exit _ _ _ _ _ _ _ E).
    + eapply runs_open_undefined; eassumption.
  - apply Ascii.eqb_eq in E2 as <-. destruct (Z.eqb_spec lim (-1)), (Z.eqb_spec lim sum); cbn;
      solve [apply (runs_close _ _ _ _ _ rest); auto | apply (runs_close_error _ _ _ _ _ rest); auto].
  - apply Ascii.eqb_eq in E3 as <-. destruct (Z.eqb_spec lim (-1)) as [->|]; cbn; [apply (runs_first_choice _ _ _ _ rest); auto|].
    destruct (Z.eqb_spec lim sum) as [->|]; cbn; [apply (runs_choice _ _ _ _ rest); auto|apply (runs_choice_error _ _ _ _ _ rest); auto].
  - assert (Hc : c ∉ ["["; "]"; "|"]%char) by (rewrite !elem_of_cons; intros [->|[->|[->|Hc]]]; [discriminate..|inversion Hc]).
    destruct (parse_field str sum st) as [[st1 [sum1|]]|msg|] eqn:E; cbn.
    + apply (runs_field _ _ _ _ _ c rest st1 sum1); auto. apply Hrec.
      apply parse_field_length in E. rewrite Es in E. exact E.
    + apply (runs_field_error _ _ _ _ _ c rest); assumption.
    + exfalso. exact (parse_field_Exit _ _ _ _ E).
    + apply (runs_overflow _ _ _ _ _ c rest); assumption.
Qed.

Lemma plain_item c : c ∉ ["["; "]"; "|"]%char -> is_char "[" c = false /\ is_char "]" c = false /\ is_char "|" c = false.
Proof.
  rewrite !elem_of_cons. intros H. repeat split; apply Ascii.eqb_neq; intros <-; apply H; auto.
Qed.

Lemma loop_runs_group str fb sum lim st r : loop_runs str fb sum lim st r ->
  forall fuel, (String.length (ps_str st) < fuel)%nat -> parse_group fuel str fb sum lim st = r.
Proof.
  assert (Hs : forall st1 n, (String.length (ps_str st1) < n)%nat -> (String.length (ps_str (eat_spaces st1)) < n)%nat).
  { intros st1 n H. pose proof (eat_spaces_length st1). lia. }
  induction 1 as [str fb sum lim st Es|str fb sum lim st rest st1 sum1 r Es _ IH1 Hn _ IH2|str fb sum lim st rest st1 Es _ IH
    |str fb sum lim st rest Es _ IH|str fb sum lim st rest Es Hl|str fb sum lim st rest Es H1 H2|str fb sum st rest r Es _ IH
    |str fb sum st rest r Es Hn _ IH|str fb sum lim st rest Es H1 H2|str fb sum lim st c rest st1 sum1 r Es Hc Hf _ IH
    |str fb sum lim st c rest st1 Es Hc Hf|str fb sum lim st c rest Es Hc Hf]; intros [|fuel] H; try lia;
    cbn [parse_group]; rewrite Es in *; cbn [String.length] in H;
    try (apply plain_item in Hc as (E1 & E2 & E3); rewrite E1, E2, E3, Hf; cbn); cbn [is_char Ascii.eqb Bool.eqb].
  - reflexivity.
  - assert (E := IH1 fuel ltac:(apply Hs; cbn; lia)). cbn in E |- *. rewrite E. cbn. rewrite (proj2 (Z.eqb_neq _ _) Hn). apply IH2, Hs.
    apply parse_group_length in E as [E|E]; [congruence|]. pose proof (eat_spaces_length (ps_at rest st)). cbn in *. lia.
  - cbn. rewrite (IH fuel) by (apply Hs; cbn; lia). reflexivity.
  - cbn. rewrite (IH fuel) by (apply Hs; cbn; lia). reflexivity.
  - cbn. destruct Hl as [->| ->]; [reflexivity|]. rewrite Z.eqb_refl, andb_false_r. reflexivity.
  - cbn. rewrite (proj2 (Z.eqb_neq _ _) H1), (proj2 (Z.eqb_neq _ _) H2). reflexivity.
  - cbn. apply IH, Hs. cbn. lia.
  - cbn. rewrite (proj2 (Z.eqb_neq _ _) Hn), Z.eqb_refl. apply IH, Hs. cbn. lia.
  - cbn. rewrite (proj2 (Z.eqb_neq _ _) H1), (proj2 (Z.eqb_neq _ _) H2). reflexivity.
  - apply IH, Hs. apply parse_field_length in Hf. rewrite Es in Hf. cbn in Hf. lia.
  - reflexivity.
  - reflexivity.
Qed.

(** C7. The format-string parser terminates: on every text the C loop has one
    finite run, whatever the state it is called in, and [parse_format] is its
    result; that result is undefined only where a sum of sizes overflows. *)
Theorem parse_format_terminates sum lim st r :
  loop_runs (ps_str st) sum sum lim (eat_spaces st) r <-> r = parse_format sum lim st.
Proof.
  assert (H : (String.length (ps_str (eat_spaces st)) < S (String.length (ps_str st)))%nat) by (pose proof (eat_spaces_length st); lia).
  unfold parse_format. split; [|intros ->; apply parse_group_loop, H].
  intros Hr. symmetry. apply (loop_runs_group _ _ _ _ _ _ Hr), H.
Qed.

(** A choice whose parts have one size. *)
Lemma parse_format_terminates_witness : loop_runs "[%a:8|%b:4 %c:4]" 0 0 (-1) (MkParse "[%a:8|%b:4 %c:4]" [] 0 0 "")
  (Ret (MkParse "" [MkField "a" 8 7 0 0 0; MkField "b" 4 3 0 0 0; MkField "c" 4 7 0 0 0] 2 0 "", 8)).
Proof. apply (parse_format_terminates 0 (-1) (MkParse "[%a:8|%b:4 %c:4]" [] 0 0 "")). reflexivity. Defined.

(** ** Round trip *)

(** The items of a format and the alternatives of a choice. *)
Inductive items :=
  | INil
  | IField (name : string) (size : Z) (signed : bool) (l : items)
  | IConst (value size : Z) (l : items)
  | IChoice (c : choice) (l : items)
with choice :=
  | COne (l : items)
  | CMore (l : items) (c : choice).

Scheme items_mut := Induction for items Sort Prop
  with choice_mut := Induction for choice Sort Prop.
Combined Scheme items_choice_ind from items_mut, choice_mut.

(** How a description is written. *)
Fixpoint print_items (l : items) : string :=
  match l with
  | INil => ""
  | IField name size signed l =>
      String "%" (name +:+ String ":" (pretty size +:+ (if signed then ":s " else " ") +:+ print_items l))
  | IConst v size l => pretty v +:+ String ":" (pretty size +:+ String " " (print_items l))
  | IChoice c l => String "[" (String " " (print_choice c +:+ String " " (print_items l)))
  end
with print_choice (c : choice) : string :=
  match c with
  | COne l => print_items l +:+ "]"
  | CMore l c => print_items l +:+ String "|" (String " " (print_choice c))
  end.

Fixpoint no_colon (s : string) : bool :=
  match s with EmptyString => true | String c s => negb (is_char ":" c) && no_colon s end.

Definition is_int (z : Z) : bool := (- 2 ^ 31 <=? z) && (z <? 2 ^ 31).

(** The fields that a format denotes: laid out from bit [p], constants numbered
    from [n], every alternative of a choice from the same bit and of the same
    size.  [None]: not a format. *)
Fixpoint layout (n p : Z) (l : items) : option (list ac_dec_field * Z * Z) :=
  match l with
  | INil => Some ([], n, p)
  | IField name size signed l =>
      if no_colon name && (0 <=? size) && (p + size <? 2 ^ 31) then
        '(fs, n', e) ← layout n (p + size) l;
        Some (MkField name size (p + size - 1) 0 0 (if signed then 1 else 0) :: fs, n', e)
      else None
  | IConst v size l =>
      if is_int v && (0 <=? size) && (p + size <? 2 ^ 31) then
        '(fs, n', e) ← layout (n + 1) (p + size) l;
        Some (MkField (const_name n) size (p + size - 1) 0 v 0 :: fs, n', e)
      else None
  | IChoice c l =>
      '(fs, n', e) ← layout_choice n p c;
      '(fs', n'', e') ← layout n' e l;
      Some (fs ++ fs', n'', e')
  end
with layout_choice (n p : Z) (c : choice) : option (list ac_dec_field * Z * Z) :=
  match c with
  | COne l => layout n p l
  | CMore l c =>
      '(fs, n', e) ← layout n p l;
      '(fs', n'', e') ← layout_choice n' p c;
      if e =? e' then Some (fs ++ fs', n'', e) else None
  end.

(** The tail pointer designates the last element. *)
Definition tail_ok (st : parse_state) : Prop := ps_tail st = Nat.pred (length (ps_list st)).

(** The state after the fields [fs], at the text [r]. *)
Definition advance (r : string) (fs : list ac_dec_field) (n : Z) (st : parse_state) : parse_state :=
  let l := ps_list st ++ fs in MkParse r l (Nat.pred (length l)) n (ps_msg st).

Lemma advance_ok r fs n st : tail_ok (advance r fs n st).
Proof. reflexivity. Qed.

Lemma advance_advance r fs n r' fs' n' st :
  advance r' fs' n' (advance r fs n st) = advance r' (fs ++ fs') n' st.
Proof. unfold advance. cbn. rewrite <- app_assoc. reflexivity. Qed.

Lemma put_field_tail f st : tail_ok st -> put_field f st = advance (ps_str st) [f] (ps_consts st) st.
Proof.
  intros H. unfold put_field, advance. destruct (ps_list st) as [|g l] eqn:E; [reflexivity|].
  unfold tail_ok in H. rewrite E in H. rewrite H. cbn [length Nat.pred].
  rewrite (take_ge (g :: l)) by (cbn; lia). rewrite length_app. f_equal. cbn. lia.
Qed.

Lemma at_advance r st : tail_ok st -> ps_at r st = advance r [] (ps_consts st) st.
Proof. unfold tail_ok, ps_at, advance. intros ->. rewrite app_nil_r. reflexivity. Qed.

(** A text that does not start with a space. *)
Definition unspaced (s : string) : Prop := skip_spaces s = s.

Lemma eat_space r st : unspaced r -> ps_str st = String " " r -> eat_spaces st = ps_at r st.
Proof. intros Hr Hs. unfold eat_spaces. rewrite Hs. cbn. rewrite Hr. reflexivity. Qed.

Lemma eat_none st : unspaced (ps_str st) -> eat_spaces st = st.
Proof. intros Hr. unfold eat_spaces. rewrite Hr. destruct st. reflexivity. Qed.

Lemma unspaced_number z r : unspaced (pretty (z : Z) +:+ r).
Proof.
  destruct (pretty_Z_head z) as (c & t & -> & Hc). unfold unspaced. rewrite str_app_cons. cbn.
  rewrite (proj1 (number_char_plain c Hc)). reflexivity.
Qed.

Lemma unspaced_items l r : unspaced r -> unspaced (print_items l +:+ r).
Proof.
  intros Hr. destruct l; cbn [print_items]; [exact Hr|reflexivity| |reflexivity].
  rewrite str_app_assoc. apply unspaced_number.
Qed.

Lemma split_colon_name name r : no_colon name = true -> split_colon (name +:+ String ":" r) = (name, String ":" r).
Proof.
  induction name as [|c s IH]; [reflexivity|]. rewrite str_app_cons. cbn [no_colon split_colon].
  destruct (is_char ":" c); [discriminate|]. intros H. rewrite IH by assumption. reflexivity.
Qed.

Lemma int_add_ok a b : - 2 ^ 31 <= a + b < 2 ^ 31 -> int_add a b = Ret (a + b).
Proof.
  intros H. unfold int_add. destruct (Z.leb_spec (- 2 ^ 31) (a + b)); [|lia].
  destruct (Z.ltb_spec (a + b) (2 ^ 31)); [reflexivity|lia].
Qed.

(** The part of [parse_field] after the name. *)
Lemma parse_field_size str p st name val st1 size t sign r :
  parse_name st = (name, val, String ":" (pretty size +:+ t), st1) -> tail_ok st1 ->
  0 <= p -> 0 <= size -> p + size < 2 ^ 31 -> stops t -> parse_sign t = Some (sign, r) ->
  parse_field str p st
  = Ret (advance r [MkField name size (p + size - 1) 0 val sign] (ps_consts st1) st1, Some (p + size)).
Proof.
  intros Hn Hok Hp Hs Hlt Ht Hsign. unfold parse_field. rewrite Hn.
  change (negb (is_char ":" ":")) with false. cbv iota.
  rewrite strtol_pretty by (auto; unfold LONG_MIN, LONG_MAX; lia). rewrite pretty_moved, Hsign.
  rewrite swrap_small by lia. rewrite int_add_ok by lia. cbn [mbind exec_bind].
  rewrite int_add_ok by lia. cbn [mbind exec_bind]. rewrite put_field_tail by exact Hok. reflexivity.
Qed.

Lemma parse_name_field name t st : no_colon name = true ->
  ps_str st = String "%" (name +:+ String ":" t) ->
  parse_name st = (name, 0, String ":" t, ps_at (name +:+ String ":" t) st).
Proof.
  intros Hn Hs. unfold parse_name. rewrite Hs.
  assert (strtol 0 (String "%" (name +:+ String ":" t)) = (0, String "%" (name +:+ String ":" t))) as ->.
  { unfold strtol. cbn [skip_spaces strtol_sign].
    change (skip_spaces (String "%" (name +:+ String ":" t))) with (String "%" (name +:+ String ":" t)).
    cbn. destruct (name +:+ String ":" t); reflexivity. }
  rewrite streq_refl. cbn [negb]. change (is_char "%" "%") with true. cbv iota.
  rewrite split_colon_name by assumption. reflexivity.
Qed.

Lemma parse_name_const v t st : is_int v = true ->
  ps_str st = pretty v +:+ String ":" t ->
  parse_name st = (const_name (ps_consts st), v, String ":" t, ps_count st).
Proof.
  unfold is_int. intros [H1%Z.leb_le H2%Z.ltb_lt]%andb_prop Hs. unfold parse_name. rewrite Hs.
  rewrite strtol_pretty; [|auto|unfold LONG_MIN, LONG_MAX; lia|reflexivity].
  rewrite pretty_moved. cbn [negb]. rewrite swrap_small by lia. reflexivity.
Qed.

(** Steps of the loop. *)
Lemma run_open str fb sum lim st t st1 e :
  ps_str st = String "[" (String " " t) -> unspaced t ->
  parse_run (String " " t) sum sum (-1) (ps_at t st) = Ret (st1, e) -> 0 <= e ->
  parse_run str fb sum lim st = parse_run str fb e lim (eat_spaces st1).
Proof.
  intros Hs Ht Hrun He. unfold parse_run at 1. remember (String.length (ps_str st)) as n eqn:Hn.
  rewrite Hs in Hn. cbn in Hn. cbn [parse_group]. rewrite Hs.
  change (is_char "[" "[") with true. cbv iota.
  rewrite (eat_space t) by (exact Ht || reflexivity).
  change (ps_at t (ps_at (String " " t) st)) with (ps_at t st).
  pose proof Hrun as Hl. apply parse_group_length in Hl as [Hl|Hl]; [lia|]. cbn in Hl.
  rewrite parse_run_fuel by (cbn; lia). rewrite Hrun. cbn [mbind exec_bind].
  destruct (Z.eqb_spec e (-1)); [lia|]. apply parse_run_fuel.
  pose proof (eat_spaces_length st1). lia.
Qed.

Lemma run_close str fb sum lim st r :
  ps_str st = String "]" r -> lim = -1 \/ lim = sum -> parse_run str fb sum lim st = Ret (ps_at r st, sum).
Proof.
  intros Hs Hlim. unfold parse_run. cbn [parse_group]. rewrite Hs.
  change (is_char "[" "]") with false. change (is_char "]" "]") with true. cbv iota.
  destruct Hlim as [->| ->]; [reflexivity|]. rewrite (Z.eqb_refl sum), Bool.andb_false_r. reflexivity.
Qed.

Lemma run_bar str fb sum lim st r :
  ps_str st = String "|" (String " " r) -> unspaced r -> lim = -1 \/ lim = sum ->
  parse_run str fb sum lim st = parse_run str fb fb sum (ps_at r st).
Proof.
  intros Hs Hr Hlim. unfold parse_run at 1. remember (String.length (ps_str st)) as n eqn:Hn.
  rewrite Hs in Hn. cbn in Hn. cbn [parse_group]. rewrite Hs.
  change (is_char "[" "|") with false. change (is_char "]" "|") with false.
  change (is_char "|" "|") with true. cbv iota zeta.
  rewrite (eat_space r) by (exact Hr || reflexivity).
  change (ps_at r (ps_at (String " " r) st)) with (ps_at r st).
  destruct Hlim as [->| ->].
  - apply parse_run_fuel. cbn. lia.
  - rewrite (Z.eqb_refl sum). cbn [negb].
    destruct (negb (sum =? -1)); apply parse_run_fuel; cbn; lia.
Qed.

Lemma run_field str fb sum lim st c t st1 s1 :
  ps_str st = String c t -> is_char "[" c = false -> is_char "]" c = false -> is_char "|" c = false ->
  parse_field str sum st = Ret (st1, Some s1) ->
  parse_run str fb sum lim st = parse_run str fb s1 lim (eat_spaces st1).
Proof.
  intros Hs H1 H2 H3 Hf. unfold parse_run at 1. cbn [parse_group]. rewrite Hs, H1, H2, H3, Hf.
  cbn [mbind exec_bind]. rewrite <- Hs. apply parse_run_fuel.
  apply parse_field_length in Hf. pose proof (eat_spaces_length st1). lia.
Qed.

(** What the loop does on printed items and on the alternatives of a choice. *)
Definition items_parse (l : items) : Prop := forall n p fs n' e,
  layout n p l = Some (fs, n', e) -> 0 <= p ->
  p <= e /\ forall str fb lim r st, unspaced r -> tail_ok st -> ps_consts st = n ->
    ps_str st = print_items l +:+ r ->
    parse_run str fb p lim st = parse_run str fb e lim (advance r fs n' st).

Definition choice_parse (c : choice) : Prop := forall n p fs n' e,
  layout_choice n p c = Some (fs, n', e) -> 0 <= p ->
  p <= e /\ forall str lim r st, lim = -1 \/ lim = e -> tail_ok st -> ps_consts st = n ->
    ps_str st = print_choice c +:+ r ->
    parse_run str p p lim st = Ret (advance r fs n' st, e).

Lemma layout_inv {A} (m : option A) {B} (f : A -> option B) b :
  m ≫= f = Some b -> exists a, m = Some a /\ f a = Some b.
Proof. destruct m as [a|]; [|discriminate]. intros H. exists a. auto. Qed.

Lemma size_guard (g : bool) p size :
  g && (0 <=? size) && (p + size <? 2 ^ 31) = true -> g = true /\ 0 <= size /\ p + size < 2 ^ 31.
Proof. intros [[Hg H1%Z.leb_le]%andb_prop H2%Z.ltb_lt]%andb_prop. auto. Qed.

(** A field followed by items whose parsing is known. *)
Lemma items_parse_step l n p e fs n' str fb lim r st st1 c t name val size sign :
  items_parse l -> layout n (p + size) l = Some (fs, n', e) -> 0 <= p -> 0 <= size -> unspaced r ->
  ps_str st = String c t -> is_char "[" c = false -> is_char "]" c = false -> is_char "|" c = false ->
  ps_consts st1 = n -> ps_list st1 = ps_list st -> ps_msg st1 = ps_msg st ->
  parse_field str p st = Ret (advance (String " " (print_items l +:+ r))
    [MkField name size (p + size - 1) 0 val sign] (ps_consts st1) st1, Some (p + size)) ->
  parse_run str fb p lim st
  = parse_run str fb e lim (advance r (MkField name size (p + size - 1) 0 val sign :: fs) n' st).
Proof.
  intros IH Hl Hp Hs Hr Hst H1 H2 H3 Hn Hlist Hmsg Hf.
  rewrite (run_field _ _ _ _ _ _ _ _ _ Hst H1 H2 H3 Hf).
  rewrite (eat_space (print_items l +:+ r)) by (apply unspaced_items; exact Hr) || reflexivity.
  destruct (IH _ _ _ _ _ Hl ltac:(lia)) as [_ Hrun].
  rewrite Hrun with (r := r); [|exact Hr|reflexivity|exact Hn|reflexivity]. f_equal.
  unfold advance, ps_at. cbn. rewrite Hlist, Hmsg, <- app_assoc. reflexivity.
Qed.

Lemma parse_print_items : (forall l, items_parse l) /\ (forall c, choice_parse c).
Proof.
  apply items_choice_ind.
  - intros n p fs n' e [= <- <- <-] Hp. split; [lia|]. intros str fb lim r st Hr Hok Hn Hs.
    f_equal. replace st with (ps_at r st) at 1; [rewrite at_advance, Hn by assumption; reflexivity|].
    change (ps_str st = r) in Hs. rewrite <- Hs. destruct st. reflexivity.
  - intros name size signed l IH n p fs n' e H Hp. cbn [layout] in H.
    destruct (no_colon name && _ && _) eqn:Hg; [|discriminate]. apply size_guard in Hg as (Hname & Hsz & Hlt).
    apply layout_inv in H as ([[fs1 n1] e1] & Hl & [= <- <- <-]).
    split; [destruct (IH _ _ _ _ _ Hl); lia|]. intros str fb lim r st Hr Hok Hn Hs. cbn [print_items] in Hs.
    rewrite str_app_cons, str_app_assoc, str_app_cons, str_app_assoc in Hs.
    pose proof (parse_name_field _ _ _ Hname Hs) as Hpn.
    eapply (items_parse_step _ _ _ _ _ _ _ _ _ _ _ (ps_at (name +:+ String ":" _) st));
      try eassumption; try reflexivity.
    apply (parse_field_size _ _ _ _ _ _ _ _ _ _ Hpn); auto; destruct signed; reflexivity.
  - intros v size l IH n p fs n' e H Hp. cbn [layout] in H.
    destruct (is_int v && _ && _) eqn:Hg; [|discriminate]. apply size_guard in Hg as (Hv & Hsz & Hlt).
    apply layout_inv in H as ([[fs1 n1] e1] & Hl & [= <- <- <-]).
    split; [destruct (IH _ _ _ _ _ Hl); lia|]. intros str fb lim r st Hr Hok Hn Hs. cbn [print_items] in Hs.
    rewrite str_app_assoc, str_app_cons, str_app_assoc in Hs.
    pose proof (parse_name_const _ _ _ Hv Hs) as Hpn.
    destruct (pretty_Z_head v) as (c & t & Ev & Hc). pose proof (proj2 (number_char_plain c Hc)) as Hplain.
    rewrite <- Hn in *. eapply (items_parse_step _ _ _ _ _ _ _ _ _ _ _ (ps_count st));
      try exact Hl; try assumption; try reflexivity; try (apply Hplain; reflexivity);
      [rewrite Hs, Ev; reflexivity|].
    apply (parse_field_size _ _ _ _ _ _ _ _ _ _ Hpn); auto; reflexivity.
  - intros c IHc l IH n p fs n' e H Hp. cbn [layout] in H.
    apply layout_inv in H as ([[fs1 n1] e1] & Hc & H). apply layout_inv in H as ([[fs2 n2] e2] & Hl & [= <- <- <-]).
    destruct (IHc _ _ _ _ _ Hc Hp) as [Hp1 Hrun1]. destruct (IH _ _ _ _ _ Hl ltac:(lia)) as [Hp2 Hrun2].
    split; [lia|]. intros str fb lim r st Hr Hok Hn Hs. cbn [print_items] in Hs.
    rewrite !str_app_cons, str_app_assoc, str_app_cons in Hs.
    rewrite (run_open _ _ _ _ _ _ (advance (String " " (print_items l +:+ r)) fs1 n1 st) e1 Hs);
      [| |etransitivity; [apply Hrun1; auto|reflexivity]|lia].
    + rewrite (eat_space (print_items l +:+ r)) by (apply unspaced_items; exact Hr) || reflexivity.
      rewrite Hrun2 with (r := r); try assumption; try reflexivity. f_equal.
      change (ps_at (print_items l +:+ r) (advance (String " " (print_items l +:+ r)) fs1 n1 st))
        with (advance (print_items l +:+ r) fs1 n1 st). apply advance_advance.
    + destruct c; cbn [print_choice]; rewrite str_app_assoc; apply unspaced_items; reflexivity.
  - intros l IH n p fs n' e H Hp. destruct (IH _ _ _ _ _ H Hp) as [Hpe Hrun]. split; [assumption|].
    intros str lim r st Hlim Hok Hn Hs. cbn [print_choice] in Hs. rewrite str_app_assoc in Hs.
    rewrite Hrun with (r := String "]" r); try assumption; [|reflexivity].
    rewrite (run_close _ _ _ _ _ r); [reflexivity|reflexivity|assumption].
  - intros l IH c IHc n p fs n' e H Hp. cbn [layout_choice] in H.
    apply layout_inv in H as ([[fs1 n1] e1] & Hl & H). apply layout_inv in H as ([[fs2 n2] e2] & Hc & H).
    destruct (Z.eqb_spec e1 e2) as [<-|]; [|discriminate]. injection H as <- <- <-.
    destruct (IH _ _ _ _ _ Hl Hp) as [Hp1 Hrun1]. destruct (IHc _ _ _ _ _ Hc Hp) as [Hp2 Hrun2].
    split; [assumption|]. intros str lim r st Hlim Hok Hn Hs. cbn [print_choice] in Hs.
    rewrite str_app_assoc, !str_app_cons in Hs.
    rewrite Hrun1 with (r := String "|" (String " " (print_choice c +:+ r))); try assumption; [|reflexivity].
    rewrite (run_bar _ _ _ _ _ (print_choice c +:+ r)); [|reflexivity| |assumption].
    + change (ps_at (print_choice c +:+ r) (advance (String "|" (String " " (print_choice c +:+ r))) fs1 n1 st))
        with (advance (print_choice c +:+ r) fs1 n1 st).
      rewrite Hrun2 with (r := r); [|auto|reflexivity|reflexivity|reflexivity].
      rewrite advance_advance. reflexivity.
    + destruct c; cbn [print_choice]; rewrite str_app_assoc; apply unspaced_items; reflexivity.
Qed.

(** C4. Round trip of format strings: the text printed for a list of fields,
    constants and choices (nested to any depth, with sizes that keep the layout
    within an [int]) is accepted by [add_format], and the format it adds holds
    exactly the fields of the layout, in order, each with its first bit, sign and
    value, with the size of the layout. *)
Theorem add_format_print l n fields n' e largest ins regs common name is_instr :
  layout n 0 l = Some (fields, n', e) ->
  add_format (MkFormats [] n largest ins regs common) name (print_items l) is_instr
  = Ret (MkFormats [] n' (if largest <? e then e else largest)
           (if is_instr then ins ++ [MkFormat 0 name e fields] else ins)
           (if is_instr then regs else regs ++ [MkFormat 0 name e fields])
           (if is_instr then update_common common fields else common), 1, EmptyString).
Proof.
  intros H. destruct (proj1 parse_print_items l _ _ _ _ _ H ltac:(lia)) as [He Hrun].
  unfold add_format, parse_format. cbn [field_list const_count ps_str].
  set (st := MkParse (print_items l) [] 0 n EmptyString).
  assert (Hu : unspaced (print_items l)).
  { destruct l; try reflexivity. cbn [print_items]. apply unspaced_number. }
  rewrite eat_none by exact Hu. rewrite parse_run_fuel by (cbn; lia). rewrite (Hrun (print_items l) 0 (-1) "" st); try reflexivity.
  2: { symmetry. apply str_app_nil. }
  unfold parse_run. cbn. destruct (Z.eqb_spec e (-1)); [lia|]. destruct is_instr; reflexivity.
Qed.

Lemma add_format_print_witness :
  let l := IField "op" 8 false (IChoice (CMore (IField "rd" 4 true (IConst 5 4 INil)) (COne (IField "imm" 8 false INil))) INil) in
  print_items l = "%op:8 [ %rd:4:s 5:4 | %imm:8 ] " /\
  add_format (MkFormats [] 0 0 [] [] []) "R" (print_items l) true
  = Ret (MkFormats [] 1 16
      [MkFormat 0 "R" 16 [MkField "op" 8 7 0 0 0; MkField "rd" 4 11 0 0 1; MkField "CONST_0" 4 15 0 5 0;
                          MkField "imm" 8 15 0 0 0]] []
      [MkField "op" 8 7 1 0 0; MkField "rd" 4 11 2 0 1; MkField "CONST_0" 4 15 3 5 0; MkField "imm" 8 15 4 0 0],
      1, EmptyString).
Proof.
  intros l. split; [reflexivity|].
  etransitivity; [eapply (add_format_print l 0 _ 1 16 0 [] [] [] "R" true); reflexivity|reflexivity].
Defined.

(** A format that is rejected leaves its first fields in the static
    [field_list]: the next format that is accepted starts with a field of the
    rejected one, at the same bits as its own first field. *)
Theorem rejected_format_leaks_field :
  exists fs msg, add_format (MkFormats [] 0 0 [] [] []) "bad" "%a:4 %b" true = Ret (fs, 0, msg) /\
  exists fs', add_format fs "good" "%c:8" true = Ret (fs', 1, EmptyString) /\
    fmt_fields <$> format_ins_list fs' = [[MkField "a" 4 3 0 0 0; MkField "c" 8 7 0 0 0]].
Proof.
  eexists _, _. split; [vm_compute; reflexivity|]. eexists. split; vm_compute; reflexivity.
Qed.

(** ** Common fields *)

Definition common_of (formats : list (list ac_dec_field)) : list ac_dec_field :=
  foldl update_common [] formats.

(** The fields of the first format that every other format has too. *)
Definition shared_fields (first : list ac_dec_field) (rest : list (list ac_dec_field)) : list ac_dec_field :=
  List.filter (fun f => forallb (has_field (f_name f)) rest) (number_from 1 first).

Lemma has_field_number name fs n : has_field name (number_from n fs) = has_field name fs.
Proof.
  revert n. induction fs as [|f fs IH]; intros n; cbn; [reflexivity|].
  unfold has_field in IH. rewrite IH. reflexivity.
Qed.

Lemma has_field_In name fs : has_field name fs = true <-> exists f, In f fs /\ f_name f = name.
Proof.
  unfold has_field. rewrite existsb_exists. split.
  - intros (f & Hin & H%streq_spec). eauto.
  - intros (f & Hin & <-). exists f. rewrite streq_refl. auto.
Qed.

Lemma filter_filter {A} (P Q : A -> bool) l :
  List.filter Q (List.filter P l) = List.filter (fun x => P x && Q x) l.
Proof.
  induction l as [|x l IH]; cbn; [reflexivity|]. destruct (P x); cbn; [|assumption].
  rewrite IH. reflexivity.
Qed.

Lemma filter_true {A} (l : list A) : List.filter (fun _ => true) l = l.
Proof. induction l as [|x l IH]; cbn; [reflexivity|]. rewrite IH. reflexivity. Qed.

Lemma common_of_shared first rest name :
  has_field name first = true -> forallb (has_field name) rest = true ->
  common_of (first :: rest) = shared_fields first rest.
Proof.
  intros Hf. induction rest as [|fs rest IH] using rev_ind; intros Hr.
  - unfold common_of, shared_fields. cbn. symmetry. apply filter_true.
  - rewrite forallb_app in Hr. apply andb_prop in Hr as [Hr Hfs]. specialize (IH Hr).
    unfold common_of in *. rewrite app_comm_cons, foldl_app, IH. cbn.
    assert (exists g, In g (shared_fields first rest)) as (g & Hg).
    { rewrite <- (has_field_number _ _ 1) in Hf. apply has_field_In in Hf as (g & Hg & Hn). exists g.
      unfold shared_fields. apply List.filter_In. rewrite Hn. auto. }
    unfold update_common. destruct (shared_fields first rest) as [|x l] eqn:E; [destruct Hg|].
    rewrite <- E. unfold shared_fields. rewrite filter_filter. apply List.filter_ext.
    intros f. rewrite forallb_app. cbn. rewrite Bool.andb_true_r. reflexivity.
Qed.

(** ** Descriptions read without an error *)

Lemma add_format_ok fs name str is_instr fs' msg :
  add_format fs name str is_instr = Ret (fs', 1, msg) ->
  exists f, fmt_name f = name /\
    format_ins_list fs' = (if is_instr then format_ins_list fs ++ [f] else format_ins_list fs) /\
    format_reg_list fs' = (if is_instr then format_reg_list fs else format_reg_list fs ++ [f]) /\
    common_instr_field_list fs' = if is_instr then update_common (common_instr_field_list fs) (fmt_fields f)
                                  else common_instr_field_list fs.
Proof.
  unfold add_format. intros H. exec_inv H. destruct a as [st sum]. destruct (sum =? -1); [discriminate|].
  injection H as <- _. exists (MkFormat 0 name sum (ps_list st)). destruct is_instr; auto.
Qed.

Section Described.
Context {T : Type} `{!SymbolMap info T}.
Context (uninit : Z).
Notation core := (core_state T).
Implicit Types (s : core) (m : gmap string (symbol_table_entry info)).

(** The format that the name of an instruction's type designates. *)
Definition type_format s m (name : string) (f : ac_dec_format) : Prop :=
  exists e, m !! name = Some e /\ deref_format s (st_info e) = Ret f.

Record desc_inv s m : Prop := {
  di_table : sm_holds (symbols s) m;
  di_common : common_instr_field_list (formats s)
              = common_of (fmt_fields <$> format_ins_list (formats s));
  di_formats k f : format_ins_list (formats s) !! k = Some f ->
    exists e, m !! fmt_name f = Some e /\ st_info e = PFormat true k;
  di_count : instr_num (instrs s) = Z.of_nat (length (instr_list (instrs s)));
  di_ids k i : instr_list (instrs s) !! k = Some i -> i_id i = u32 (Z.of_nat k + 1);
  di_instrs k i : instr_list (instrs s) !! k = Some i ->
    exists e, m !! i_name i = Some e /\ st_info e = PInstr k;
  di_dec i l : i ∈ instr_list (instrs s) -> l ∈ i_dec_list i ->
    exists f, type_format s m (i_format i) f /\ is_Some (find_field f (dl_name l))
}.

(** A successful definition inserts a new name. *)
Lemma add_symbol_true s m name ty p t r : sm_holds (symbols s) m ->
  add_symbol_in s name ty p = Ret (t, r) -> (r =? 1) = true ->
  m !! name = None /\ sm_holds t (<[name := MkEntry name ty p]> m).
Proof.
  intros Hm H Hr. unfold add_symbol_in in H. destruct (m !! name) as [e|] eqn:E.
  - rewrite (sm_add_old _ _ _ _ _ _ Hm E) in H. injection H as _ <-. discriminate.
  - destruct (sm_add_new _ _ _ ty p Hm E) as (t' & H' & Ht). rewrite H' in H. injection H as <- _. auto.
Qed.

Lemma find_instr_ok s m name : sm_holds (symbols s) m -> find_instr s name = Ret (st_info <$> m !! name).
Proof.
  intros Hm. unfold find_instr, find_symbol_in. rewrite (sm_find_ok _ _ _ _ Hm). reflexivity.
Qed.

Lemma find_format_ok s m name : sm_holds (symbols s) m -> find_format s name = Ret (st_info <$> m !! name).
Proof.
  intros Hm. unfold find_format, find_symbol_in. rewrite (sm_find_ok _ _ _ _ Hm). reflexivity.
Qed.

(** Extending the table and the format lists keeps a format designated. *)
Lemma type_format_mono s m s' m' name f :
  m ⊆ m' -> format_ins_list (formats s) `prefix_of` format_ins_list (formats s') ->
  format_reg_list (formats s) `prefix_of` format_reg_list (formats s') ->
  type_format s m name f -> type_format s' m' name f.
Proof.
  intros Hm [li Hi] [lr Hr] (e & He & Hd). exists e. split; [eapply lookup_weaken; eassumption|].
  destruct (st_info e) as [|[|] k| | | | |]; cbn in *; try discriminate.
  - rewrite Hi. destruct (format_ins_list (formats s) !! k) eqn:E; [|discriminate].
    rewrite (lookup_app_l_Some _ _ _ _ E). assumption.
  - rewrite Hr. destruct (format_reg_list (formats s) !! k) eqn:E; [|discriminate].
    rewrite (lookup_app_l_Some _ _ _ _ E). assumption.
Qed.

Lemma dec_mono s m s' m' :
  desc_inv s m -> m ⊆ m' -> format_ins_list (formats s) `prefix_of` format_ins_list (formats s') ->
  format_reg_list (formats s) `prefix_of` format_reg_list (formats s') ->
  forall i l, i ∈ instr_list (instrs s) -> l ∈ i_dec_list i ->
    exists f, type_format s' m' (i_format i) f /\ is_Some (find_field f (dl_name l)).
Proof.
  intros Hinv Hm Hi Hr i l Hin Hl. destruct (di_dec _ _ Hinv i l Hin Hl) as (f & Hf & Hs).
  exists f. split; [eapply type_format_mono; eassumption|assumption].
Qed.

Lemma lookup_new m name n (e e' : symbol_table_entry info) : m !! name = None -> m !! n = Some e ->
  <[name := e']> m !! n = Some e.
Proof. intros Hn He. rewrite lookup_insert_ne by congruence. assumption. Qed.

(** A definition that touches neither formats nor instructions. *)
Lemma inv_other s m s' name e : desc_inv s m -> m !! name = None ->
  formats s' = formats s -> instrs s' = instrs s -> sm_holds (symbols s') (<[name := e]> m) ->
  desc_inv s' (<[name := e]> m).
Proof.
  intros Hinv Hn Hf Hi Ht. pose proof Hinv as [H1 H2 H3 H4 H5 H6 H7].
  split; rewrite ?Hf, ?Hi; try assumption.
  - intros k f Hk. destruct (H3 k f Hk) as (e1 & He & Hp). exists e1. auto using lookup_new.
  - intros k i Hk. destruct (H6 k i Hk) as (e1 & He & Hp). exists e1. auto using lookup_new.
  - apply (dec_mono s m); rewrite ?Hf; try reflexivity; [assumption|]. apply insert_subseteq. assumption.
Qed.

Lemma inv_format s m name str is_instr s' : desc_inv s m ->
  declare_format s name str is_instr = Ret (s', true) -> exists m', desc_inv s' m'.
Proof.
  intros Hinv H. unfold declare_format in H. exec_inv H. destruct a as [[fs r] msg].
  exec_inv H. destruct a as [t added]. injection H as <- [Hr%Z.eqb_eq Hadd]%andb_prop. subst r.
  apply add_format_ok in E as (f & Hname & Hins & Hregs & Hc).
  pose proof Hinv as [H1 H2 H3 H4 H5 H6 H7].
  destruct (add_symbol_true _ m _ _ _ _ _ H1 E0 Hadd) as [Hn Ht].
  set (m' := <[name := _]> m) in Ht. exists m'.
  assert (Hpi : format_ins_list (formats s) `prefix_of` format_ins_list fs).
  { rewrite Hins. destruct is_instr; [exists [f]|]; reflexivity. }
  assert (Hpr : format_reg_list (formats s) `prefix_of` format_reg_list fs).
  { rewrite Hregs. destruct is_instr; [|exists [f]]; reflexivity. }
  split; try assumption.
  - cbn. rewrite Hc, Hins, H2. destruct is_instr; [|reflexivity].
    rewrite fmap_app. unfold common_of. rewrite foldl_app. reflexivity.
  - intros k g Hk. cbn in Hk. rewrite Hins in Hk.
    assert (Hold : format_ins_list (formats s) !! k = Some g ->
              exists e, m' !! fmt_name g = Some e /\ st_info e = PFormat true k).
    { intros Hk'. destruct (H3 k g Hk') as (e & He & Hp). exists e. split; [apply lookup_new; assumption|assumption]. }
    destruct is_instr; [|auto]. apply lookup_snoc_Some in Hk as [[_ Hk]|[-> <-]]; [auto|].
    eexists. rewrite Hname. split; [apply lookup_insert_eq|]. cbn. rewrite Hins, length_app. cbn. f_equal. lia.
  - intros k i Hk. destruct (H6 k i Hk) as (e1 & He & Hp). exists e1. split; [apply lookup_new; assumption|assumption].
  - apply (dec_mono s m); try assumption. apply insert_subseteq. assumption.
Qed.

Lemma inv_instr s m typestr name s' : desc_inv s m ->
  declare_instr s typestr name = Ret (s', true) -> exists m', desc_inv s' m'.
Proof.
  intros Hinv H. pose proof Hinv as [H1 H2 H3 H4 H5 H6 H7]. unfold declare_instr in H.
  rewrite (find_instr_ok s m name H1) in H. cbn [mbind exec_bind] in H.
  destruct (m !! name) as [e|] eqn:Hn; [discriminate|]. cbn [fmap option_fmap option_map] in H.
  set (i := MkInstr name 0 None None typestr (u32 (instr_num (instrs s) + 1)) 1 1 1 [] None).
  assert (Hadd : add_instr s name typestr = Ret (set_instrs (MkInstrs (instr_num (instrs s) + 1)
                   (instr_list (instrs s) ++ [i])) s, 1, EmptyString, i)).
  { unfold add_instr. rewrite (find_instr_ok s m name H1), Hn. destruct (instr_list (instrs s)); reflexivity. }
  rewrite Hadd in H. cbn [mbind exec_bind Z.eqb] in H. cbv beta iota in H. exec_inv H.
  destruct a as [t added]. injection H as <- Hr.
  destruct (add_symbol_true _ m _ _ _ _ _ H1 E Hr) as [_ Ht].
  set (m' := <[name := _]> m) in Ht. exists m'. split; try assumption; cbn [instrs set_symbols set_instrs instr_list instr_num formats].
  - intros k f Hk. destruct (H3 k f Hk) as (e1 & He & Hp). exists e1. split; [apply lookup_new; assumption|assumption].
  - rewrite H4, length_app. cbn. lia.
  - intros k j [[_ Hk]|[-> <-]]%lookup_snoc_Some; [auto|]. cbn. rewrite H4. reflexivity.
  - intros k j [[_ Hk]|[-> <-]]%lookup_snoc_Some.
    + destruct (H6 k j Hk) as (e1 & He & Hp). exists e1. split; [apply lookup_new; assumption|assumption].
    + eexists. split; [apply lookup_insert_eq|]. cbn. rewrite length_app. cbn. f_equal. lia.
  - intros j l [Hj|Hj%list_elem_of_singleton]%elem_of_app Hl.
    + eapply (dec_mono s m);
        [exact Hinv|apply insert_subseteq; exact Hn|reflexivity|reflexivity|exact Hj|exact Hl].
    + subst j. inversion Hl.
Qed.

Lemma inv_decoder s m name field value s' : desc_inv s m ->
  set_decoder uninit s name field value = Ret (s', true) -> desc_inv s' m.
Proof.
  intros Hinv H. pose proof Hinv as [H1 H2 H3 H4 H5 H6 H7]. unfold set_decoder in H.
  rewrite (find_instr_ok s m name H1) in H. cbn [mbind exec_bind] in H.
  destruct (st_info <$> m !! name) as [p|] eqn:Hp; [|discriminate].
  exec_inv H. destruct a as [[s1 r] msg]. injection H as <- Hr%Z.eqb_eq. subst r.
  unfold add_dec_list in E. exec_inv E. rename a into i. rewrite (find_format_ok s m _ H1) in E.
  cbn [mbind exec_bind] in E. destruct (st_info <$> m !! i_format i) as [q|] eqn:Hq; [|discriminate].
  exec_inv E. rename a into f. destruct (find_field f field) as [fd|] eqn:Hfd; [|discriminate].
  exec_inv E. destruct a; [discriminate|]. destruct p as [k| | | | | |]; try discriminate.
  injection E as <- _. cbn in E0. destruct (instr_list (instrs s) !! k) as [i'|] eqn:Hk; [|discriminate].
  injection E0 as ->.
  assert (Hupd : forall k' j, <[k := set_i_dec_list (i_dec_list i ++ [MkDec field uninit value]) i]>
      (instr_list (instrs s)) !! k' = Some j ->
    exists j', instr_list (instrs s) !! k' = Some j' /\ i_name j = i_name j' /\ i_id j = i_id j').
  { intros k' j [(<- & <- & _)|(_ & Hj)]%list_lookup_insert_Some; [exists i|exists j]; auto. }
  split; try assumption; cbn [instrs set_instrs instr_list instr_num].
  - rewrite length_insert. assumption.
  - intros k' j Hj. destruct (Hupd _ _ Hj) as (j' & Hj' & _ & ->). auto.
  - intros k' j Hj. destruct (Hupd _ _ Hj) as (j' & Hj' & -> & _). auto.
  - intros j l [k' Hj]%list_elem_of_lookup Hl. change (type_format (set_instrs _ s) m) with (type_format s m).
    apply list_lookup_insert_Some in Hj as [(<- & <- & _)|(_ & Hj)].
    + cbn in Hl |- *. apply elem_of_app in Hl as [Hl|Hl%list_elem_of_singleton].
      * apply (H7 i l); [|assumption]. eapply list_elem_of_lookup_2. exact Hk.
      * subst l. exists f. split; [|exists fd; exact Hfd].
        apply fmap_Some in Hq as (e & He & ->). exists e. auto.
    + apply (H7 j l); [|assumption]. eapply list_elem_of_lookup_2. exact Hj.
Qed.

Lemma described_inv l s : described uninit l s -> exists m, desc_inv s m.
Proof.
  induction 1 as [|l s d s' _ [m Hinv] H].
  - exists ∅. split; cbn; try (intros; discriminate); try reflexivity; [apply sm_holds_empty|].
    intros i x Hi. inversion Hi.
  - destruct d; cbn [declare] in H; eauto using inv_format, inv_instr, inv_decoder.
    + unfold declare_storage in H. destruct (add_storage _ _ _ _ _) as [[st r] msg]. exec_inv H.
      destruct a as [t added]. injection H as <- [_ Hr]%andb_prop.
      destruct (add_symbol_true _ m _ _ _ _ _ (di_table _ _ Hinv) E Hr) as [Hn Ht].
      eexists. eapply inv_other; try eassumption; reflexivity.
    + unfold declare_group in H. exec_inv H. destruct a as [t added]. injection H as <- Hr.
      destruct (add_symbol_true _ m _ _ _ _ _ (di_table _ _ Hinv) E Hr) as [Hn Ht].
      eexists. eapply inv_other; try eassumption; reflexivity.
Qed.
End Described.

(** C5. In a description read without an error, whatever the order of the
    declarations, every element of every decode list names a field of the format
    that [FindFormat] finds for the instruction, if any.  The reader does not bound
    the length of a decode list: an instruction meets the precondition of the
    decoder generator, [decodable], exactly when its list has at most
    MAX_DECODER_DEPTH = 64 elements. *)
Theorem described_decodable {T} `{!SymbolMap info T} uninit l (s : core_state T) i :
  described uninit l s -> i ∈ instr_list (instrs s) ->
  (forall fmt, FindFormat (format_ins_list (formats s)) (i_format i) = Ret fmt ->
     Forall (fun x => exists f, f ∈ fmt_fields fmt /\ f_name f = dl_name x) (i_dec_list i)) /\
  (decodable (format_ins_list (formats s)) i <-> (length (i_dec_list i) <= 64)%nat).
Proof.
  intros Hd Hi. destruct (described_inv uninit l s Hd) as [m Hinv].
  enough (H : forall fmt, FindFormat (format_ins_list (formats s)) (i_format i) = Ret fmt ->
    Forall (fun l => exists f,
      list_first (fun f => streq (f_name f) (dl_name l)) (fmt_fields fmt) = Some f) (i_dec_list i)).
  { split.
    - intros fmt Hfmt. eapply Forall_impl; [exact (H fmt Hfmt)|]. intros x [f Hf]. apply list_first_Some in Hf as [Hin Hn].
      exists f. split; [exact Hin|]. apply streq_spec, Hn.
    - split; [intros [Hl _]; exact Hl|]. intros Hl. split; [exact Hl|exact H]. }
  intros fmt Hfmt. apply Forall_forall. intros x Hx.
  destruct (di_dec _ _ Hinv i x Hi Hx) as (f & (e & He & Hf) & fd & Hfd). exists fd.
  apply FindFormat_in in Hfmt as [[k Hk]%list_elem_of_lookup Hn].
  destruct (di_formats _ _ Hinv k fmt Hk) as (e' & He' & Hp). rewrite Hn in He'.
  assert (e' = e) as -> by congruence. rewrite Hp in Hf. cbn in Hf. rewrite Hk in Hf. injection Hf as ->.
  exact Hfd.
Qed.

Definition demo_description : list declaration :=
  [DFormat "R" "%op:4 %fn:4 %rd:4 %rs:4"; DInstr "R" "add"; DInstr "R" "sub"; DStorage "MEM" 64 MEM None;
   DDecoder "sub" "op" 1; DDecoder "add" "op" 1; DDecoder "add" "fn" 2; DDecoder "sub" "fn" 4].

(** Running a description on the hash table. *)
Fixpoint describe (s : core_state (symbol_table info)) (l : list declaration) : exec (core_state (symbol_table info) * bool) :=
  match l with
  | [] => Ret (s, true)
  | d :: l => '(s, ok) ← declare 0 s d; if ok : bool then describe s l else Ret (s, false)
  end.

Lemma describe_described l : forall l0 s s',
  described 0 l0 s -> describe s l = Ret (s', true) -> described 0 (l0 ++ l) s'.
Proof.
  induction l as [|d l IH]; intros l0 s s' Hs H.
  - injection H as <-. rewrite app_nil_r. assumption.
  - cbn [describe] in H. exec_inv H. destruct a as [s1 [|]]; [|discriminate].
    rewrite cons_middle, app_assoc. apply (IH (l0 ++ [d]) s1); [|assumption].
    eapply described_snoc; eassumption.
Qed.

Lemma described_decodable_witness :
  exists s : core_state (symbol_table info), described 0 demo_description s /\
    length (instr_list (instrs s)) = 2%nat /\
    forall i, i ∈ instr_list (instrs s) -> decodable (format_ins_list (formats s)) i.
Proof.
  destruct (describe (init_core_actions zero_core) demo_description) as [[s ok]| |] eqn:E;
    [|vm_compute in E; discriminate E..].
  assert (Hok : ok = true) by (vm_compute in E; congruence). subst ok.
  pose proof (describe_described _ _ _ _ (described_nil 0) E) as Hd. exists s. split; [exact Hd|].
  split; [vm_compute in E; injection E as <-; reflexivity|].
  intros i Hi. apply (proj2 (described_decodable 0 _ s i Hd Hi)).
  assert (Hb : forallb (fun i => length (i_dec_list i) <=? 64)%nat (instr_list (instrs s)) = true)
    by (vm_compute in E; injection E as <-; reflexivity).
  rewrite forallb_forall in Hb. apply Nat.leb_le, Hb. apply list_elem_of_In. exact Hi.
Defined.

(** In a description read without an error the instructions are numbered
    from 1 in the order of their declarations, [instr_num] is their number, their
    names are distinct and [find_instr] finds each one by its name. *)
Theorem described_instructions {T} `{!SymbolMap info T} uninit l (s : core_state T) :
  described uninit l s ->
  instr_num (instrs s) = Z.of_nat (length (instr_list (instrs s))) /\
  (forall k i, instr_list (instrs s) !! k = Some i ->
     i_id i = u32 (Z.of_nat k + 1) /\ find_instr s (i_name i) = Ret (Some (PInstr k))) /\
  NoDup (i_name <$> instr_list (instrs s)).
Proof.
  intros Hd. destruct (described_inv uninit l s Hd) as [m Hinv]. split; [apply (di_count _ _ Hinv)|]. split.
  - intros k i Hk. split; [apply (di_ids _ _ Hinv); assumption|].
    destruct (di_instrs _ _ Hinv k i Hk) as (e & He & Hp).
    rewrite (find_instr_ok s m _ (di_table _ _ Hinv)), He. cbn. rewrite Hp. reflexivity.
  - apply NoDup_alt. intros j k n Hj Hk. apply list_lookup_fmap_Some in Hj as (i & -> & Hi).
    apply list_lookup_fmap_Some in Hk as (i' & Hn & Hi').
    destruct (di_instrs _ _ Hinv j i Hi) as (e & He & Hp).
    destruct (di_instrs _ _ Hinv k i' Hi') as (e' & He' & Hp').
    rewrite <- Hn in He'. assert (e' = e) by congruence. congruence.
Qed.

Lemma described_instructions_witness :
  exists s : core_state (symbol_table info), described 0 demo_description s /\
    NoDup (i_name <$> instr_list (instrs s)) /\ find_instr s "sub" = Ret (Some (PInstr 1)).
Proof.
  destruct (describe (init_core_actions zero_core) demo_description) as [[s ok]| |] eqn:E;
    [|vm_compute in E; discriminate E..].
  assert (Hok : ok = true) by (vm_compute in E; congruence). subst ok.
  pose proof (describe_described _ _ _ _ (described_nil 0) E) as Hd. exists s. split; [exact Hd|].
  destruct (described_instructions 0 _ s Hd) as (_ & Hf & Hn). split; [exact Hn|].
  destruct (instr_list (instrs s) !! 1%nat) as [i|] eqn:Hi; [|vm_compute in E; injection E as <-; discriminate Hi].
  destruct (Hf 1%nat i Hi) as [_ Hfi].
  assert (i_name i = "sub") as <- by (vm_compute in E; injection E as <-; injection Hi as <-; reflexivity).
  exact Hfi.
Defined.

(** The list of common fields: when some field name occurs in every
    instruction format of the description, the list holds exactly the fields of
    the first format whose names occur in all the others, numbered by their
    position in the first format. *)
Theorem described_common_fields {T} `{!SymbolMap info T} uninit l (s : core_state T) first rest name :
  described uninit l s -> fmt_fields <$> format_ins_list (formats s) = first :: rest ->
  has_field name first = true -> forallb (has_field name) rest = true ->
  common_instr_field_list (formats s) = shared_fields first rest.
Proof.
  intros Hd Hf H1 H2. destruct (described_inv uninit l s Hd) as [m Hinv].
  rewrite (di_common _ _ Hinv), Hf. eapply common_of_shared; eassumption.
Qed.

Lemma described_common_fields_witness :
  exists s : core_state (symbol_table info),
    described 0 [DFormat "R" "%op:4 %fn:4"; DFormat "I" "%imm:4 %op:4"] s /\
    common_instr_field_list (formats s) = [MkField "op" 4 3 1 0 0].
Proof.
  destruct (describe (init_core_actions zero_core) [DFormat "R" "%op:4 %fn:4"; DFormat "I" "%imm:4 %op:4"])
    as [[s ok]| |] eqn:E; [|vm_compute in E; discriminate E..].
  assert (Hok : ok = true) by (vm_compute in E; congruence). subst ok.
  pose proof (describe_described _ _ _ _ (described_nil 0) E) as Hd. exists s. split; [exact Hd|].
  rewrite (described_common_fields 0 _ s [MkField "op" 4 3 0 0 0; MkField "fn" 4 7 0 0 0]
    [[MkField "imm" 4 3 0 0 0; MkField "op" 4 7 0 0 0]] "op" Hd); [reflexivity| |reflexivity|reflexivity].
  vm_compute in E. injection E as <-. reflexivity.
Defined.

(** Three formats without a common field: once the list of common fields has
    become empty the next format fills it again, so that it holds the fields of
    the last format only. *)
Theorem common_fields_refilled :
  exists s, describe (init_core_actions zero_core)
              [DFormat "A" "%a:8"; DFormat "B" "%b:8"; DFormat "C" "%c:8"] = Ret (s, true) /\
    f_name <$> common_instr_field_list (formats s) = ["c"] /\
    exists f, f ∈ format_ins_list (formats s) /\ has_field "c" (fmt_fields f) = false.
Proof.
  eexists. split; [vm_compute; reflexivity|]. split; [reflexivity|].
  eexists. split; [left|reflexivity].
Qed.

(** [find_symbol] ignores the class of the symbol: [NAME.set_decoder(...)]
    with the name of a format takes the format for an instruction. *)
Theorem set_decoder_on_a_format_crashes {T} `{!SymbolMap info T} uninit l (s : core_state T) name f field value :
  described uninit l s -> f ∈ format_ins_list (formats s) -> fmt_name f = name ->
  set_decoder uninit s name field value = Crash.
Proof.
  intros Hd [k Hk]%list_elem_of_lookup Hn. destruct (described_inv uninit l s Hd) as [m Hinv].
  destruct (di_formats _ _ Hinv k f Hk) as (e & He & Hp). unfold set_decoder.
  rewrite Hn in He. rewrite (find_instr_ok s m _ (di_table _ _ Hinv)), He. cbn. rewrite Hp. reflexivity.
Qed.

Lemma set_decoder_on_a_format_crashes_witness :
  exists s : core_state (symbol_table info), described 0 [DFormat "R" "%op:4"] s /\
    set_decoder 0 s "R" "op" 1 = Crash.
Proof.
  destruct (describe (init_core_actions zero_core) [DFormat "R" "%op:4"]) as [[s ok]| |] eqn:E;
    [|vm_compute in E; discriminate E..].
  assert (Hok : ok = true) by (vm_compute in E; congruence). subst ok.
  pose proof (describe_described _ _ _ _ (described_nil 0) E) as Hd. exists s. split; [exact Hd|].
  apply (set_decoder_on_a_format_crashes 0 _ s "R" (MkFormat 0 "R" 4 [MkField "op" 4 3 0 0 0]) "op" 1 Hd);
    [|reflexivity].
  vm_compute in E. injection E as <-. left.
Defined.

(** Groups: a reference is refused exactly when the instruction is already
    in the list at a position other than the last of several, so a repetition of
    the last reference is accepted. *)
Theorem link_instr_ref_duplicates k refs :
  link_instr_ref k refs =
    if decide (k ∈ removelast refs \/ refs = [k]) then (refs, 2) else (refs ++ [k], 1).
Proof.
  destruct refs as [|x refs].
  - rewrite decide_False; [reflexivity|]. intros [H|H]; [inversion H|discriminate].
  - unfold link_instr_ref.
    assert (Hex : existsb (Nat.eqb k) (removelast (x :: refs)) = true <-> k ∈ removelast (x :: refs)).
    { rewrite existsb_exists, list_elem_of_In. split.
      - intros (y & Hy & ->%Nat.eqb_eq). assumption.
      - intros Hy. exists k. rewrite Nat.eqb_refl. auto. }
    case_decide as Hd.
    + assert (bool_decide (x = k) || existsb (Nat.eqb k) (removelast (x :: refs)) = true) as ->; [|reflexivity].
      destruct Hd as [Hd|[= -> _]]; [rewrite (proj2 Hex Hd); apply Bool.orb_true_r|].
      rewrite bool_decide_true by reflexivity. reflexivity.
    + assert (bool_decide (x = k) || existsb (Nat.eqb k) (removelast (x :: refs)) = false) as ->; [|reflexivity].
      apply Bool.orb_false_iff. split.
      * apply bool_decide_false. intros ->. apply Hd. destruct refs; [right; reflexivity|]. left. left.
      * apply Bool.not_true_iff_false. rewrite Hex. auto.
Qed.
