(* ===== verification/AsmTypes.v ===== *)
(** * Data of the assembly-syntax actions ([archc/src/acpp/asm_actions.h])

    Shared by the parser's actions and by the binary-utilities generator. *)
From S2P Require Import Prelude.

Record ac_asm_symbol := MkSym { sym_symbol : string; sym_value : Z; sym_map : string }.

Inductive operand_type := op_userdef | op_exp | op_imm | op_addr.

Record ac_asm_insn_field := MkAField {
  af_name : option string;
  af_size : Z;
  af_first_bit : Z;
  af_id : Z
}.

Record ac_modifier := MkModifier { mod_name : option string; mod_type : Z; mod_addend : Z }.

(** [fields]: the chain of fields the operand is assigned to. *)
Record ac_operand := MkOperand {
  op_str : string;
  op_type : operand_type;
  op_modifier : ac_modifier;
  op_fields : list ac_asm_insn_field;
  op_is_list : bool;
  op_oper_id : Z;
  op_reloc_id : Z
}.

Record ac_const_field := MkConst { cst_value : Z; cst_field : ac_asm_insn_field }.

(** [asm_insn]: the index of the instruction, [None] for a pseudo instruction. *)
Record ac_asm_insn := MkAsm {
  asm_mnemonic : string;
  asm_op_literal : string;
  asm_op_literal_unformatted : string;
  asm_operands : list ac_operand;
  asm_insn : option nat;
  asm_const_fields : list ac_const_field;
  asm_pseudolist : list string;
  asm_num_pseudo : Z
}.

Definition set_op_fields (l : list ac_asm_insn_field) (o : ac_operand) : ac_operand :=
  MkOperand (op_str o) (op_type o) (op_modifier o) l (op_is_list o) (op_oper_id o) (op_reloc_id o).
Definition set_op_oper_id (id : Z) (o : ac_operand) : ac_operand :=
  MkOperand (op_str o) (op_type o) (op_modifier o) (op_fields o) (op_is_list o) id (op_reloc_id o).
Definition set_op_reloc_id (id : Z) (o : ac_operand) : ac_operand :=
  MkOperand (op_str o) (op_type o) (op_modifier o) (op_fields o) (op_is_list o) (op_oper_id o) id.
Definition set_op_modifier (m : ac_modifier) (o : ac_operand) : ac_operand :=
  MkOperand (op_str o) (op_type o) m (op_fields o) (op_is_list o) (op_oper_id o) (op_reloc_id o).

#[export] Instance operand_type_eq_dec : EqDecision operand_type.
Proof. solve_decision. Defined.
#[export] Instance ac_asm_symbol_eq_dec : EqDecision ac_asm_symbol.
Proof. solve_decision. Defined.
#[export] Instance ac_asm_insn_field_eq_dec : EqDecision ac_asm_insn_field.
Proof. solve_decision. Defined.
#[export] Instance ac_modifier_eq_dec : EqDecision ac_modifier.
Proof. solve_decision. Defined.
#[export] Instance ac_operand_eq_dec : EqDecision ac_operand.
Proof. solve_decision. Defined.
