(* ===== verification/AsmMap.v ===== *)
(** * Symbol mappings of the assembly syntax ([archc/src/acpp/asm_actions.c])

    [ac_asm_map] blocks: the list of markers, the queue of symbol names of the
    mapping being read, and the one alphabetically sorted list of all symbols.
    A function returns the new state and the message of its error, [None] when
    it returns 1.  The theorems: searches that stop early in the sorted list are
    exhaustive, and every symbol of a mapping gets its value and keeps it. *)
From S2P Require Import Prelude CString AsmTypes.

(** ** State *)

Record map_state := MkMaps {
  mapping_list : list string;
  symbol_list : list ac_asm_symbol;
  symbol_name_list : list string
}.

Definition empty_maps : map_state := MkMaps [] [] [].

Definition set_names (l : list string) (s : map_state) : map_state :=
  MkMaps (mapping_list s) (symbol_list s) l.

(** [mapping_list_tail->marker] *)
Definition current_marker (s : map_state) : exec string := of_option (last (mapping_list s)).

(** ** Character classes *)

Definition between (a c b : ascii) : bool := (cc a <=? cc c) && (cc c <=? cc b).
Definition is_letter (c : ascii) : bool := between "a" c "z" || between "A" c "Z".

Definition one_of (s : list ascii) (c : ascii) : bool := existsb (fun d => is_char d c) s.

Definition is_map_symbol_name (c : ascii) : bool :=
  is_letter c || between "0" c "9" || one_of ["."; "_"]%char c.

Definition is_map_symbol_begin (s : string) : bool :=
  match s with
  | EmptyString => true
  | String c _ =>
      is_map_symbol_name c ||
      one_of ["%"; "!"; "@"; "#"; "$"; "&"; "*"; "-"; "+"; "="; "|"; ":"; "<"; ">"; "^"; "~";
              "?"; "/"; ","; "_"]%char c
  end.

Definition is_map_symbol_end (c : ascii) : bool := is_map_symbol_name c.

Definition is_identifier (c : ascii) : bool :=
  is_letter c || between "0" c "9" || is_char "_" c.

Definition is_builtin_marker (s : string) : bool :=
  streq s "exp" || streq s "addr" || streq s "imm".

(** ** Searches *)

(** The loop shared by the two searches: the first symbol that satisfies the
    test, giving up after a symbol greater than [symbol]. *)
Fixpoint search_sorted (test : ac_asm_symbol -> exec bool) (symbol : string) (sl : list ac_asm_symbol)
    : exec (option ac_asm_symbol) :=
  match sl with
  | [] => Ret None
  | x :: sl =>
      b ← test x;
      if b : bool then Ret (Some x)
      else match strcmp (sym_symbol x) symbol with
           | Gt => Ret None
           | _ => search_sorted test symbol sl
           end
  end.

(** Returns the value of [*symbol_id] and [found]. *)
Definition get_symbol_value (s : map_state) (symbol : string) (map : option string) : exec (Z * bool) :=
  x ← search_sorted (fun x => Ret (streq (sym_symbol x) symbol &&
                       match map with None => true | Some m => streq (sym_map x) m end))
        symbol (symbol_list s);
  Ret match x with Some x => (sym_value x, true) | None => (-1, false) end.

Definition find_mapping_marker (s : map_state) (marker : string) : option string :=
  list_first (fun m => streq m marker) (mapping_list s).

Definition find_mapping_symbol (s : map_state) (symbol : string) : exec (option ac_asm_symbol) :=
  search_sorted (fun x => if streq (sym_symbol x) symbol
                          then m ← current_marker s; Ret (streq (sym_map x) m) else Ret false)
    symbol (symbol_list s).

(** ** Declarations *)

Definition acpp_asm_create_mapping_block (s : map_state) (marker : string) : map_state * option string :=
  if is_builtin_marker marker then
    (s, Some ("Invalid conversion specifier '" +:+ marker +:+ "' . It's a built-in type"))
  else
    match find_mapping_marker s marker with
    | Some _ => (s, Some ("Conversion specifier already used: '" +:+ marker +:+ "'"))
    | None => (MkMaps (mapping_list s ++ [marker]) (symbol_list s) (symbol_name_list s), None)
    end.

(** The [while (1)] loop: the first character has been accepted by
    [is_map_symbol_begin]. *)
Fixpoint check_symbol_name (symbol : string) (c : ascii) (s : string) : option string :=
  match s with
  | EmptyString =>
      if is_map_symbol_end c then None
      else Some ("Symbol '" +:+ symbol +:+ "' cannot end with character '" +:+ String c "'")
  | String d s =>
      if is_map_symbol_name d then check_symbol_name symbol d s
      else Some ("Symbol '" +:+ symbol +:+ "' cannot have character '" +:+ String d "' in its name")
  end.

Definition check_symbol (symbol : string) : option string :=
  match symbol with
  | EmptyString => None
  | String c s =>
      if is_map_symbol_begin symbol then check_symbol_name symbol c s
      else Some ("Symbol '" +:+ symbol +:+ "' cannot start with character '" +:+ String c "'")
  end.

Definition acpp_asm_add_mapping_symbol (s : map_state) (symbol : string) : exec (map_state * option string) :=
  x ← find_mapping_symbol s symbol;
  match x with
  | Some _ => Ret (s, Some ("Symbol already used: '" +:+ symbol +:+ "'"))
  | None =>
      if existsb (fun n => streq n symbol) (symbol_name_list s)
      then Ret (s, Some ("Symbol already used: '" +:+ symbol +:+ "'"))
      else match check_symbol symbol with
           | Some msg => Ret (s, Some msg)
           | None => Ret (set_names (symbol_name_list s ++ [symbol]) s, None)
           end
  end.

(** [abs] of a difference of [int]s. *)
Definition int_distance (a b : Z) : exec Z :=
  if (- 2 ^ 31 <? b - a) && (b - a <? 2 ^ 31) then Ret (Z.abs (b - a)) else Crash.

Definition increment_sign (a b : Z) : Z := if a <? b then 1 else -1.

Definition opt_str (o : option string) : string := match o with Some s => s | None => "" end.

(** The loop from [i] for [n] more symbols; [final_symbol] has 200 characters. *)
Fixpoint add_range (s : map_state) (sb sa : string) (r1 sign : Z) (i : Z) (n : nat)
    : exec (map_state * option string) :=
  match n with
  | O => Ret (s, None)
  | S n =>
      let final_symbol := sb +:+ pretty (r1 + i * sign) +:+ sa in
      if (String.length final_symbol <? 200)%nat then
        '(s, err) ← acpp_asm_add_mapping_symbol s final_symbol;
        match err with
        | Some msg => Ret (s, Some msg)
        | None => add_range s sb sa r1 sign (i + 1) n
        end
      else Crash
  end.

Definition acpp_asm_add_mapping_symbol_range (s : map_state) (sb sa : option string) (r1 r2 : Z)
    : exec (map_state * option string) :=
  range ← int_distance r1 r2;
  match sb, sa with
  | None, None => Ret (s, Some "Internal parser error")
  | _, _ =>
      if (r1 <? 0) || (r2 <? 0) then Ret (s, Some "Only positive values are accepted")
      else add_range s (opt_str sb) (opt_str sa) r1 (increment_sign r1 r2) 0 (S (Z.to_nat range))
  end.

(** Insertion in [symbol_list]: before the head, or after the last element that
    is not greater. *)
Definition insert_symbol (x : ac_asm_symbol) (l : list ac_asm_symbol) : list ac_asm_symbol :=
  match l with
  | [] => [x]
  | t :: _ =>
      match strcmp (sym_symbol x) (sym_symbol t) with
      | Lt => x :: l
      | _ =>
          (fix after (l : list ac_asm_symbol) : list ac_asm_symbol :=
             match l with
             | [] => [x]
             | t :: rest =>
                 match rest with
                 | next :: _ =>
                     match strcmp (sym_symbol x) (sym_symbol next) with
                     | Lt => t :: x :: rest
                     | _ => t :: after rest
                     end
                 | [] => [t; x]
                 end
             end) l
      end
  end.

(** The symbols of the queue in order, the [i]-th with its value. *)
Fixpoint assign_values (names : list string) (marker : exec string) (val1 range sign i : Z)
    (l : list ac_asm_symbol) : exec (list ac_asm_symbol) :=
  match names with
  | [] => Ret l
  | n :: names =>
      m ← marker;
      let value := if range =? 0 then val1 else val1 + i * sign in
      assign_values names marker val1 range sign (i + 1) (insert_symbol (MkSym n value m) l)
  end.

Definition acpp_asm_add_symbol_value (s : map_state) (val1 val2 : Z) : exec (map_state * option string) :=
  range ← int_distance val1 val2;
  if negb (range =? 0) && negb (range + 1 =? Z.of_nat (length (symbol_name_list s)))
  then Ret (s, Some "Different ranges specified in symbol mapping")
  else
    l ← assign_values (symbol_name_list s) (current_marker s) val1 range (increment_sign val1 val2) 0
          (symbol_list s);
    Ret (MkMaps (mapping_list s) l [], None).

(** ** Sorted searches are exhaustive *)

Lemma insert_symbol_after x l : insert_symbol x l = insert_after sym_symbol x l.
Proof.
  destruct l as [|t l]; [reflexivity|]. cbn.
  assert (H : strcmp (sym_symbol x) (sym_symbol t) <> Lt ->
    (fix after (l : list ac_asm_symbol) : list ac_asm_symbol :=
       match l with
       | [] => [x]
       | t :: rest =>
           match rest with
           | next :: _ =>
               match strcmp (sym_symbol x) (sym_symbol next) with
               | Lt => t :: x :: rest
               | _ => t :: after rest
               end
           | [] => [t; x]
           end
       end) (t :: l) = t :: insert_after sym_symbol x l).
  { intros _. revert t. induction l as [|n l IH]; intros t; [reflexivity|].
    cbn. destruct (strcmp (sym_symbol x) (sym_symbol n)) eqn:E; [|reflexivity|];
      f_equal; specialize (IH n); cbn in IH; exact IH. }
  cbn in H. destruct (strcmp (sym_symbol x) (sym_symbol t)); try (apply H; congruence). reflexivity.
Qed.

Notation sorted_symbols := (StronglySorted (key_le sym_symbol)).

(** The early exit loses nothing in a sorted list. *)
Lemma search_sorted_ok (P : ac_asm_symbol -> bool) test symbol l :
  sorted_symbols l ->
  (forall x, x ∈ l -> test x = Ret (streq (sym_symbol x) symbol && P x)) ->
  search_sorted test symbol l = Ret (list_first (fun x => streq (sym_symbol x) symbol && P x) l).
Proof.
  induction 1 as [|x l Hs IH Hx]; intros Ht; cbn; [reflexivity|].
  rewrite (Ht x) by left. cbn. destruct (streq (sym_symbol x) symbol && P x) eqn:E; [reflexivity|].
  assert (Hrec := IH (fun y Hy => Ht y (list_elem_of_further _ _ _ Hy))).
  destruct (strcmp (sym_symbol x) symbol) eqn:Ec; try exact Hrec. f_equal. symmetry.
  apply list_first_None. intros y Hy. apply Bool.andb_false_iff. left. apply streq_false. intros Heq.
  rewrite Forall_forall in Hx. specialize (Hx y Hy). unfold key_le, str_le in Hx. congruence.
Qed.

(** ** Invariant *)

Definition sym_key (x : ac_asm_symbol) : string * string := (sym_map x, sym_symbol x).

Record map_inv (s : map_state) : Prop := {
  mi_sorted : sorted_symbols (symbol_list s);
  mi_unique : NoDup (sym_key <$> symbol_list s);
  mi_markers x : x ∈ symbol_list s -> sym_map x ∈ mapping_list s;
  mi_blocks : NoDup (mapping_list s);
  mi_names : NoDup (symbol_name_list s);
  mi_fresh m n : last (mapping_list s) = Some m -> n ∈ symbol_name_list s ->
    (m, n) ∉ sym_key <$> symbol_list s
}.

(** States reached by the calls of the parser, failed calls included. *)
Inductive map_reachable : map_state -> Prop :=
  | reach_empty : map_reachable empty_maps
  | reach_block s m : map_reachable s -> map_reachable (fst (acpp_asm_create_mapping_block s m))
  | reach_symbol s n s' e : map_reachable s ->
      acpp_asm_add_mapping_symbol s n = Ret (s', e) -> map_reachable s'
  | reach_range s sb sa r1 r2 s' e : map_reachable s ->
      acpp_asm_add_mapping_symbol_range s sb sa r1 r2 = Ret (s', e) -> map_reachable s'
  | reach_value s v1 v2 s' e : map_reachable s ->
      acpp_asm_add_symbol_value s v1 v2 = Ret (s', e) -> map_reachable s'.

Lemma find_mapping_marker_None s m : find_mapping_marker s m = None -> m ∉ mapping_list s.
Proof.
  unfold find_mapping_marker. rewrite list_first_None. intros H Hin. specialize (H m Hin).
  rewrite streq_refl in H. discriminate.
Qed.

Lemma inv_marker s x : map_inv s -> x ∈ symbol_list s -> exists m, last (mapping_list s) = Some m.
Proof.
  intros H Hx. apply (mi_markers _ H) in Hx. destruct (last (mapping_list s)) as [m|] eqn:E; [eauto|].
  apply last_None in E. rewrite E in Hx. inversion Hx.
Qed.

(** [find_mapping_symbol] searches the current block. *)
Lemma find_mapping_symbol_ok s symbol : map_inv s ->
  find_mapping_symbol s symbol = Ret (list_first (fun x => streq (sym_symbol x) symbol &&
    bool_decide (Some (sym_map x) = last (mapping_list s))) (symbol_list s)).
Proof.
  intros H. apply (search_sorted_ok (fun x => bool_decide (Some (sym_map x) = last (mapping_list s)))).
  - apply (mi_sorted _ H).
  - intros x Hx. destruct (streq (sym_symbol x) symbol); [|reflexivity].
    destruct (inv_marker s x H Hx) as [m Hm]. unfold current_marker. rewrite Hm. cbn. f_equal.
    destruct (streq (sym_map x) m) eqn:E.
    + apply streq_spec in E. rewrite bool_decide_true by congruence. reflexivity.
    + apply streq_false in E. rewrite bool_decide_false by congruence. reflexivity.
Qed.

Lemma inv_block s m : map_inv s -> map_inv (fst (acpp_asm_create_mapping_block s m)).
Proof.
  intros H. unfold acpp_asm_create_mapping_block. destruct (is_builtin_marker m); [assumption|].
  destruct (find_mapping_marker s m) eqn:E; [assumption|]. apply find_mapping_marker_None in E.
  destruct H as [H1 H2 H3 H4 H5 H6]. split; cbn; try assumption.
  - intros x Hx. apply elem_of_app. auto.
  - apply NoDup_app. split; [assumption|]. split; [|apply NoDup_singleton].
    intros x Hx ->%list_elem_of_singleton. contradiction.
  - intros m' n. rewrite last_snoc. intros [= <-] Hn Hin.
    apply list_elem_of_fmap in Hin as (x & [= -> _] & Hx). apply H3 in Hx. contradiction.
Qed.

Lemma inv_names s l : map_inv s -> NoDup l ->
  (forall m n, last (mapping_list s) = Some m -> n ∈ l -> (m, n) ∉ sym_key <$> symbol_list s) ->
  map_inv (set_names l s).
Proof. intros [] Hl Hf. split; assumption. Qed.

Lemma inv_symbol s n s' e : map_inv s -> acpp_asm_add_mapping_symbol s n = Ret (s', e) -> map_inv s'.
Proof.
  intros H Ha. unfold acpp_asm_add_mapping_symbol in Ha. rewrite find_mapping_symbol_ok in Ha by assumption.
  cbn in Ha. destruct (list_first _ (symbol_list s)) as [x|] eqn:Ef; [injection Ha as <- _; assumption|].
  rewrite list_first_None in Ef.
  destruct (existsb _ (symbol_name_list s)) eqn:Eq; [injection Ha as <- _; assumption|].
  destruct (check_symbol n); [injection Ha as <- _; assumption|]. injection Ha as <- _.
  apply inv_names; [assumption| |].
  - apply NoDup_app. split; [apply (mi_names _ H)|]. split; [|apply NoDup_singleton].
    intros y Hy ->%list_elem_of_singleton. apply Bool.not_true_iff_false in Eq. apply Eq.
    apply existsb_exists. exists n. rewrite streq_refl. split; [|reflexivity].
    apply list_elem_of_In. assumption.
  - intros m y Hm [Hy|Hy%list_elem_of_singleton]%elem_of_app; [eapply mi_fresh; eassumption|]. subst y.
    intros (x & [= -> ->] & Hx)%list_elem_of_fmap. specialize (Ef x Hx).
    rewrite streq_refl, bool_decide_true in Ef by congruence. discriminate.
Qed.

Lemma inv_range sb sa r1 sign n : forall s i s' e, map_inv s ->
  add_range s sb sa r1 sign i n = Ret (s', e) -> map_inv s'.
Proof.
  induction n as [|n IH]; intros s i s' e H Ha; cbn [add_range] in Ha; [injection Ha as <- _; assumption|].
  destruct (_ <? 200)%nat; [|discriminate]. exec_inv Ha. destruct a as [s1 [msg|]].
  - injection Ha as <- _. eapply inv_symbol; eassumption.
  - eapply IH; [|exact Ha]. eapply inv_symbol; eassumption.
Qed.

(** The symbols that [assign_values] inserts. *)
Fixpoint new_symbols (m : string) (names : list string) (val1 range sign i : Z) : list ac_asm_symbol :=
  match names with
  | [] => []
  | n :: names =>
      MkSym n (if range =? 0 then val1 else val1 + i * sign) m :: new_symbols m names val1 range sign (i + 1)
  end.

Lemma assign_values_ok m names val1 range sign : forall i l,
  sorted_symbols l -> exists l', assign_values names (Ret m) val1 range sign i l = Ret l' /\
    sorted_symbols l' /\ l' ≡ₚ new_symbols m names val1 range sign i ++ l.
Proof.
  induction names as [|n names IH]; intros i l Hl; cbn [assign_values new_symbols mbind exec_bind].
  - exists l. split; [reflexivity|]. split; [assumption|reflexivity].
  - rewrite insert_symbol_after. set (x := MkSym _ _ _).
    destruct (IH (i + 1) (insert_after sym_symbol x l)) as (l' & E & Hs & Hp);
      [apply insert_after_sorted; assumption|].
    exists l'. split; [assumption|]. split; [assumption|]. rewrite Hp, insert_after_perm.
    rewrite <- Permutation_middle. reflexivity.
Qed.

Lemma new_symbols_keys m names val1 range sign : forall i,
  sym_key <$> new_symbols m names val1 range sign i = (fun n => (m, n)) <$> names.
Proof. induction names as [|n names IH]; intros i; cbn; [reflexivity|]. f_equal. apply IH. Qed.

(** What a successful [acpp_asm_add_symbol_value] does to the symbols. *)
Lemma add_symbol_value_ok s val1 val2 s' e : map_inv s ->
  acpp_asm_add_symbol_value s val1 val2 = Ret (s', e) ->
  (s' = s /\ e <> None) \/
  (e = None /\ mapping_list s' = mapping_list s /\ symbol_name_list s' = [] /\
   sorted_symbols (symbol_list s') /\ NoDup (sym_key <$> symbol_list s') /\
   (symbol_name_list s = [] -> symbol_list s' = symbol_list s) /\
   forall m, last (mapping_list s) = Some m ->
     symbol_list s' ≡ₚ new_symbols m (symbol_name_list s) val1 (Z.abs (val2 - val1)) (increment_sign val1 val2) 0
                       ++ symbol_list s).
Proof.
  intros H Ha. unfold acpp_asm_add_symbol_value in Ha. exec_inv Ha. unfold int_distance in E.
  destruct (_ && _) in E; [|discriminate]. injection E as <-.
  destruct (negb _ && negb _) in Ha; [injection Ha as <- <-; left; split; [reflexivity|discriminate]|]. right.
  exec_inv Ha. injection Ha as <- <-. split; [reflexivity|]. split; [reflexivity|]. split; [reflexivity|].
  cbn [symbol_list]. destruct H as [H1 H2 H3 H4 H5 H6].
  unfold current_marker in E. destruct (last (mapping_list s)) as [m|] eqn:Em; cbn [of_option] in E.
  - destruct (assign_values_ok m (symbol_name_list s) val1 (Z.abs (val2 - val1)) (increment_sign val1 val2) 0
      (symbol_list s) H1) as (l' & E' & Hs & Hp). rewrite E' in E. injection E as <-.
    split; [assumption|]. split; [|split].
    + rewrite Hp, fmap_app, new_symbols_keys. apply NoDup_app. split.
      * apply NoDup_fmap; [|assumption]. intros ? ? [=]. assumption.
      * split; [|assumption]. intros [m' n] (n' & [= -> ->] & Hn)%list_elem_of_fmap. eapply H6; [reflexivity|assumption].
    + intros Hnil. rewrite Hnil in E'. injection E' as <-. reflexivity.
    + intros m' [= <-]. assumption.
  - destruct (symbol_name_list s); [|discriminate]. injection E as <-.
    split; [assumption|]. split; [assumption|]. split; [reflexivity|discriminate].
Qed.

Lemma new_symbols_marker m names val1 range sign i x :
  x ∈ new_symbols m names val1 range sign i -> sym_map x = m.
Proof.
  revert i. induction names as [|n names IH]; intros i Hx; cbn in Hx; [inversion Hx|].
  apply elem_of_cons in Hx as [->|Hx]; [reflexivity|eauto].
Qed.

Lemma inv_value s v1 v2 s' e : map_inv s -> acpp_asm_add_symbol_value s v1 v2 = Ret (s', e) -> map_inv s'.
Proof.
  intros H Ha. destruct (add_symbol_value_ok _ _ _ _ _ H Ha) as [[-> _]|(_ & Hm & Hn & Hs & Hk & Hnil & Hp)];
    [assumption|]. pose proof H as [H1 H2 H3 H4 H5 H6].
  split; rewrite ?Hm, ?Hn; try assumption; [|constructor|intros m n _ Hx; inversion Hx].
  intros x Hx. destruct (last (mapping_list s)) as [m|] eqn:Em.
  - rewrite (Hp m eq_refl) in Hx. apply elem_of_app in Hx as [Hx|Hx]; [|auto].
    rewrite (new_symbols_marker _ _ _ _ _ _ _ Hx).
    apply last_Some in Em as [l ->]. apply elem_of_app. right. left.
  - destruct (symbol_name_list s) eqn:En; [rewrite Hnil in Hx by reflexivity; auto|].
    apply last_None in Em. exfalso. unfold acpp_asm_add_symbol_value, current_marker in Ha.
    rewrite Em, En in Ha. exec_inv Ha. destruct (_ && _) in Ha; [|discriminate].
    injection Ha as <- _. rewrite En in Hn. discriminate.
Qed.

Lemma map_reachable_inv s : map_reachable s -> map_inv s.
Proof.
  induction 1 as [|s m _ IH|s n s' e _ IH H|s sb sa r1 r2 s' e _ IH H|s v1 v2 s' e _ IH H];
    eauto using inv_block, inv_symbol, inv_value.
  - split; cbn; try (intros; set_solver); constructor.
  - unfold acpp_asm_add_mapping_symbol_range in H. exec_inv H.
    destruct sb, sa; try (injection H as <- _; assumption);
      destruct (_ || _) in H; (injection H as <- _; assumption) || (eapply inv_range; eassumption).
Qed.

(** ** The mapping as a function of marker and name *)

(** The value of a name in a map. *)
Definition map_value (s : map_state) (m n : string) : option Z :=
  sym_value <$> list_first (fun x => streq (sym_symbol x) n && streq (sym_map x) m) (symbol_list s).

Lemma get_symbol_value_map s n m : map_inv s ->
  get_symbol_value s n (Some m) = Ret match map_value s m n with Some v => (v, true) | None => (-1, false) end.
Proof.
  intros H. unfold get_symbol_value, map_value.
  rewrite (search_sorted_ok (fun x => streq (sym_map x) m)) by (auto; apply (mi_sorted _ H)).
  cbn. destruct (list_first _ (symbol_list s)); reflexivity.
Qed.

(** With unique keys the value is a matter of membership. *)
Lemma map_value_in s m n v : map_inv s ->
  map_value s m n = Some v <-> MkSym n v m ∈ symbol_list s.
Proof.
  intros H. unfold map_value. split.
  - intros ([sy v' mm] & Hl & ->)%fmap_Some.
    apply list_first_Some in Hl as [Hin [Hn%streq_spec Hm%streq_spec]%andb_prop].
    cbn in *. congruence.
  - intros Hin. destruct (list_first _ (symbol_list s)) as [y|] eqn:E.
    + apply list_first_Some in E as [Hy [Hn%streq_spec Hm%streq_spec]%andb_prop]. cbn. f_equal.
      assert (y = MkSym n v m) as ->; [|reflexivity].
      apply list_elem_of_lookup in Hin as [i Hi]. apply list_elem_of_lookup in Hy as [j Hj].
      assert (i = j) as ->; [|congruence]. pose proof (mi_unique _ H) as Hu. rewrite NoDup_alt in Hu.
      apply (Hu i j (m, n)); rewrite list_lookup_fmap, ?Hi, ?Hj; [reflexivity|]. cbn. unfold sym_key. congruence.
    + rewrite list_first_None in E. specialize (E _ Hin). cbn in E. rewrite !streq_refl in E. discriminate.
Qed.

Lemma new_symbols_in m val1 range sign names x : forall i,
  x ∈ new_symbols m names val1 range sign i <-> exists k n, names !! k = Some n /\
    x = MkSym n (if range =? 0 then val1 else val1 + (i + Z.of_nat k) * sign) m.
Proof.
  induction names as [|n names IH]; intros i; cbn [new_symbols].
  - split; [intros H; inversion H|intros (k & n & H & _); discriminate].
  - rewrite elem_of_cons, IH. split.
    + intros [->|(k & n' & Hk & ->)].
      * exists 0%nat, n. split; [reflexivity|]. change (Z.of_nat 0) with 0. rewrite Z.add_0_r. reflexivity.
      * exists (S k), n'. split; [assumption|].
        replace (i + Z.of_nat (S k)) with (i + 1 + Z.of_nat k) by lia. reflexivity.
    + intros ([|k] & n' & Hk & ->); [left|right].
      * injection Hk as ->. change (Z.of_nat 0) with 0. rewrite Z.add_0_r. reflexivity.
      * exists k, n'. split; [assumption|].
        replace (i + Z.of_nat (S k)) with (i + 1 + Z.of_nat k) by lia. reflexivity.
Qed.

Lemma map_value_None s m n : map_inv s -> map_value s m n = None <-> forall v, MkSym n v m ∉ symbol_list s.
Proof.
  intros H. split.
  - intros Hn v Hin. apply (map_value_in s m n v H) in Hin. congruence.
  - intros Hn. destruct (map_value s m n) as [v|] eqn:E; [|reflexivity].
    apply (map_value_in s m n v H) in E. destruct (Hn v E).
Qed.

(** Searches of the sorted symbol list: in every state that the parser's
    calls reach, the early exit of [get_symbol_value] and [find_mapping_symbol]
    loses nothing, so they return what a search of the whole list returns; names
    are unique within a map and [find_mapping_symbol] never dereferences a
    missing block. *)
Theorem symbol_searches_exhaustive s symbol m : map_reachable s ->
  get_symbol_value s symbol (Some m)
    = Ret match map_value s m symbol with Some v => (v, true) | None => (-1, false) end /\
  find_mapping_symbol s symbol
    = Ret (list_first (fun x => streq (sym_symbol x) symbol &&
        bool_decide (Some (sym_map x) = last (mapping_list s))) (symbol_list s)) /\
  NoDup (sym_key <$> symbol_list s).
Proof.
  intros Hr%map_reachable_inv. split; [apply get_symbol_value_map; assumption|].
  split; [apply find_mapping_symbol_ok; assumption|apply (mi_unique _ Hr)].
Qed.

(** The calls for a block [reg] with ["$"[0..2] = [5..7]] and ["$z" = 9]. *)
Definition demo_map : exec map_state :=
  let s := fst (acpp_asm_create_mapping_block empty_maps "reg") in
  '(s, _) ← acpp_asm_add_mapping_symbol_range s (Some "$") None 0 2;
  '(s, _) ← acpp_asm_add_symbol_value s 5 7;
  '(s, _) ← acpp_asm_add_mapping_symbol s "$z";
  '(s, _) ← acpp_asm_add_symbol_value s 9 9;
  '(s, _) ← acpp_asm_add_mapping_symbol_range s (Some "a") (Some "x") 3 2;
  Ret s.

Lemma demo_map_reachable s : demo_map = Ret s -> map_reachable s.
Proof.
  unfold demo_map. intros H. exec_inv H. destruct a as [s1 e1]. exec_inv H. destruct a as [s2 e2].
  exec_inv H. destruct a as [s3 e3]. exec_inv H. destruct a as [s4 e4]. exec_inv H. destruct a as [s5 e5].
  injection H as <-.
  eapply reach_range; [|exact E3]. eapply reach_value; [|exact E2]. eapply reach_symbol; [|exact E1].
  eapply reach_value; [|exact E0]. eapply reach_range; [|exact E]. apply reach_block. constructor.
Qed.

Lemma symbol_searches_exhaustive_witness :
  exists s, demo_map = Ret s /\ get_symbol_value s "$1" (Some "reg") = Ret (6, true).
Proof.
  destruct demo_map as [s| |] eqn:E; [|discriminate E..]. exists s. split; [reflexivity|].
  destruct (symbol_searches_exhaustive s "$1" "reg" (demo_map_reachable s E)) as [-> _].
  vm_compute in E. injection E as <-. reflexivity.
Defined.

(** [acpp_asm_add_symbol_value] on a reachable state: when it succeeds the
    [k]-th queued name gets the value [val1] plus [k] steps towards [val2]
    ([val1] alone for a single value) in the current map, the queue is emptied,
    and no other binding of this or another map changes; when it fails nothing
    changes. *)
Theorem add_symbol_value_binds s s' val1 val2 e m : map_reachable s ->
  last (mapping_list s) = Some m -> acpp_asm_add_symbol_value s val1 val2 = Ret (s', e) ->
  (e <> None /\ s' = s) \/
  (e = None /\ symbol_name_list s' = [] /\
   (forall k n, symbol_name_list s !! k = Some n ->
      get_symbol_value s' n (Some m)
      = Ret (if val1 =? val2 then val1 else val1 + Z.of_nat k * increment_sign val1 val2, true)) /\
   forall m' n, m' <> m \/ n ∉ symbol_name_list s ->
      get_symbol_value s' n (Some m') = get_symbol_value s n (Some m')).
Proof.
  intros Hr%map_reachable_inv Hm Ha. pose proof (inv_value _ _ _ _ _ Hr Ha) as Hr'.
  destruct (add_symbol_value_ok _ _ _ _ _ Hr Ha) as [[-> He]|(-> & Hml & Hn & _ & _ & _ & Hp)]; [auto|].
  right. split; [reflexivity|]. split; [assumption|]. specialize (Hp m Hm). split.
  - intros k n Hk. rewrite get_symbol_value_map by assumption.
    replace (map_value s' m n)
      with (Some (if val1 =? val2 then val1 else val1 + Z.of_nat k * increment_sign val1 val2)); [reflexivity|].
    symmetry. apply map_value_in; [assumption|]. rewrite Hp. apply elem_of_app. left.
    apply new_symbols_in. exists k, n. split; [assumption|]. f_equal.
    destruct (Z.eqb_spec val1 val2), (Z.eqb_spec (Z.abs (val2 - val1)) 0); try reflexivity; lia.
  - intros m' n Hmn. rewrite !get_symbol_value_map by assumption.
    replace (map_value s' m' n) with (map_value s m' n); [reflexivity|].
    assert (Hiff : forall v, MkSym n v m' ∈ symbol_list s' <-> MkSym n v m' ∈ symbol_list s).
    { intros v. rewrite Hp, elem_of_app. split; [|auto]. intros [Hin|Hin]; [|assumption].
      apply new_symbols_in in Hin as (k & n' & Hk & [= -> _ ->]). exfalso.
      apply list_elem_of_lookup_2 in Hk. destruct Hmn; contradiction. }
    destruct (map_value s m' n) as [v|] eqn:E.
    + symmetry. apply map_value_in; [assumption|]. apply Hiff. apply map_value_in; assumption.
    + symmetry. apply map_value_None; [assumption|]. intros v. rewrite Hiff. revert v.
      apply map_value_None; assumption.
Qed.

Lemma add_symbol_value_binds_witness :
  exists s s', demo_map = Ret s /\ acpp_asm_add_symbol_value s 20 19 = Ret (s', None) /\
    get_symbol_value s' "a2x" (Some "reg") = Ret (19, true) /\
    get_symbol_value s' "$2" (Some "reg") = Ret (7, true).
Proof.
  destruct demo_map as [s| |] eqn:E; [|discriminate E..]. pose proof (demo_map_reachable s E) as Hr.
  exists s. destruct (acpp_asm_add_symbol_value s 20 19) as [[s' e]| |] eqn:Ha;
    [|vm_compute in E; injection E as <-; discriminate Ha..].
  exists s'. split; [reflexivity|].
  assert (Hm : last (mapping_list s) = Some "reg") by (vm_compute in E; injection E as <-; reflexivity).
  destruct (add_symbol_value_binds s s' 20 19 e "reg" Hr Hm Ha) as [[He ->]|(-> & _ & Hb & Ho)].
  - vm_compute in E. injection E as <-. vm_compute in Ha. discriminate Ha.
  - split; [reflexivity|]. split.
    + rewrite (Hb 1%nat "a2x"); [reflexivity|]. vm_compute in E. injection E as <-. reflexivity.
    + rewrite (Ho "reg" "$2"); vm_compute in E; injection E as <-; [reflexivity|]. right. set_solver.
Defined.

(** A mapping whose ranges do not agree leaves its names in the queue, also
    over the start of the next block: they are bound in that block by its first
    mapping. *)
Theorem failed_mapping_leaks_names :
  exists s s', (let s := fst (acpp_asm_create_mapping_block empty_maps "a") in
     '(s, _) ← acpp_asm_add_mapping_symbol_range s (Some "r") None 0 1;
     '(s, e) ← acpp_asm_add_symbol_value s 0 5;
     Ret (fst (acpp_asm_create_mapping_block s "b"), e))
    = Ret (s, Some "Different ranges specified in symbol mapping") /\
  ('(s, _) ← acpp_asm_add_mapping_symbol s "x"; acpp_asm_add_symbol_value s 7 7) = Ret (s', None) /\
  get_symbol_value s' "r0" (Some "b") = Ret (7, true).
Proof. eexists _, _. split; [vm_compute; reflexivity|]. split; vm_compute; reflexivity. Qed.
