(* ===== verification/AsmInsn.v ===== *)
(** * Assembly syntax of instructions ([archc/src/acpp/asm_actions.c])

    [set_asm] and [pseudo_instr]: the syntax string is validated and formatted,
    its markers become operands, the arguments attach format fields to the
    operands, and the instruction is inserted in an alphabetical list and in a
    list in source order.  The formatting buffers have 200 characters; writing
    past their end is a crash. *)
From S2P Require Import Prelude CString DecTypes AsmTypes AsmMap.

(** ** State *)

(** [current_insn]; [None]: NULL, or uninitialised for the mnemonic. *)
Record current := MkCurrent {
  cur_mnemonic : option string;
  cur_op_literal : option string;
  cur_unformatted : option string;
  cur_operands : list ac_operand;
  cur_const_fields : list ac_const_field
}.

Record asm_state := MkAsmState {
  num_args_expected : Z;
  num_args_found : Z;
  in_error : bool;
  current_insn : current;
  pseudo_list : list string;
  num_pseudo_insn : Z;
  asm_insn_list : list ac_asm_insn;
  asm_insn_list_original_order : list ac_asm_insn
}.

Definition set_args (expected found : Z) (s : asm_state) : asm_state :=
  MkAsmState expected found (in_error s) (current_insn s) (pseudo_list s) (num_pseudo_insn s)
    (asm_insn_list s) (asm_insn_list_original_order s).
Definition set_error (s : asm_state) : asm_state :=
  MkAsmState (num_args_expected s) (num_args_found s) true (current_insn s) (pseudo_list s)
    (num_pseudo_insn s) (asm_insn_list s) (asm_insn_list_original_order s).
Definition set_current (c : current) (s : asm_state) : asm_state :=
  MkAsmState (num_args_expected s) (num_args_found s) (in_error s) c (pseudo_list s)
    (num_pseudo_insn s) (asm_insn_list s) (asm_insn_list_original_order s).
Definition set_pseudo (l : list string) (n : Z) (s : asm_state) : asm_state :=
  MkAsmState (num_args_expected s) (num_args_found s) (in_error s) (current_insn s) l n
    (asm_insn_list s) (asm_insn_list_original_order s).
Definition set_lists (l o : list ac_asm_insn) (s : asm_state) : asm_state :=
  MkAsmState (num_args_expected s) (num_args_found s) (in_error s) (current_insn s) (pseudo_list s)
    (num_pseudo_insn s) l o.
Definition set_cur_operands (l : list ac_operand) (c : current) : current :=
  MkCurrent (cur_mnemonic c) (cur_op_literal c) (cur_unformatted c) l (cur_const_fields c).
Definition set_cur_consts (l : list ac_const_field) (c : current) : current :=
  MkCurrent (cur_mnemonic c) (cur_op_literal c) (cur_unformatted c) (cur_operands c) l.

Definition acpp_asm_new_insn (s : asm_state) : asm_state :=
  MkAsmState (num_args_expected s) 0 false (MkCurrent None None None [] []) [] 0
    (asm_insn_list s) (asm_insn_list_original_order s).

(** ** Comment characters *)

Record comment_state := MkComments { comment_chars : option string; line_comment_chars : option string }.

Definition acpp_set_assembler_comment_chars (s : comment_state) (input : string)
    : comment_state * option string :=
  match comment_chars s with
  | Some _ => (s, Some ("Assembler comment characters have duplicated declaration: '" +:+ input +:+ "'"))
  | None => (MkComments (Some input) (line_comment_chars s), None)
  end.

Definition acpp_set_assembler_line_comment_chars (s : comment_state) (input : string)
    : comment_state * option string :=
  match line_comment_chars s with
  | Some _ => (s, Some ("Assembler line comment characters have duplicated declaration: '" +:+ input +:+ "'"))
  | None => (MkComments (comment_chars s) (Some input), None)
  end.

Definition ac_asm_get_comment_chars (s : comment_state) : string :=
  match comment_chars s with Some c => c | None => "#!" end.
Definition ac_asm_get_line_comment_chars (s : comment_state) : string :=
  match line_comment_chars s with Some c => c | None => "#" end.

(** ** Character classes *)

Definition is_pseudo_mnemonic_begin (c : ascii) : bool := is_letter c || is_char "_" c.
Definition is_mnemonic_begin (c : ascii) : bool := is_letter c || one_of ["_"; "%"]%char c.

(** The two characters of a C comment mark. *)
Definition comment_mark (s : string) : bool :=
  match s with
  | String c (String d _) => (is_char "/" c && is_char "*" d) || (is_char "*" c && is_char "/" d)
  | _ => false
  end.

Definition is_mnemonic_name (s : string) : bool :=
  negb (head_is (one_of [";"; "'"]%char) s || comment_mark s).

Definition is_pseudo_mnemonic_name (s : string) : bool :=
  negb (head_is (one_of [";"; "#"; "'"; "%"]%char) s || comment_mark s).

Definition is_operand_string (s : string) : bool := is_mnemonic_name s.

Definition is_group_token (c : ascii) : bool := one_of ["$"; "."]%char c || is_identifier c.

(** ** Operands *)

(** The type of the operand named [name], or the error. *)
Definition operand_kind (maps : map_state) (mne_mode : bool) (name : string) : string + operand_type :=
  let builtin t :=
    if mne_mode then inl ("Cannot define a mnemonic suffix as type " +:+ quote +:+ name +:+ quote)
    else inr t in
  if streq name "exp" then builtin op_exp
  else if streq name "imm" then builtin op_imm
  else if streq name "addr" then builtin op_addr
  else match find_mapping_marker maps name with
       | None => inl ("Invalid conversion specifier: '%%" +:+ name +:+ "'")
       | Some _ => inr op_userdef
       end.

(** The end of an operand: the bracket that closes the one it started with. *)
Definition close_operand (has_lbrack : bool) (oper : ac_operand) (s : string) : string + ac_operand * string :=
  if has_lbrack then
    match s with
    | String c s => if is_char "]" c then inr (oper, s) else inl "No matching ']' found"
    | EmptyString => inl "No matching ']' found"
    end
  else inr (oper, s).

Definition eat_blanks (s : string) : string := snd (span (is_char " ") s).

(** The modifier after its opening parenthesis. *)
Definition parse_modifier (s : string) : string + ac_modifier * string :=
  let '(name, s) := span is_identifier s in
  if streq name "" then inl "No modifier identifier specified"
  else
    match eat_blanks s with
    | String c s =>
        if is_char ")" c then inr (MkModifier (Some name) (-1) 0, s)
        else if is_char "," c then
          let '(num, s) := span isdigit (eat_blanks s) in
          if streq num "" then inl "No addend specified"
          else match eat_blanks s with
               | String d s =>
                   if is_char ")" d then inr (MkModifier (Some name) (-1) (atoi num), s)
                   else inl "No closing ')' found"
               | EmptyString => inl "No closing ')' found"
               end
        else inl "Comma expected but not found"
    | EmptyString => inl "Comma expected but not found"
    end.

(** Three dots. *)
Definition list_mark (s : string) : option string :=
  match s with
  | String a (String b (String c t)) =>
      if is_char "." a && is_char "." b && is_char "." c then Some t else None
  | _ => None
  end.

(** An operand from the text after its ['%'], with the text that follows. *)
Definition create_operand (maps : map_state) (s : string) (mne_mode : bool) : string + ac_operand * string :=
  let '(has_lbrack, s) := match s with
                          | String c t => if is_char "[" c then (true, t) else (false, s)
                          | EmptyString => (false, s)
                          end in
  let '(name, s) := span is_identifier s in
  if streq name "" then inl "No operand specified"
  else
    match operand_kind maps mne_mode name with
    | inl msg => inl msg
    | inr type =>
        let '(has_listmod, s) := match list_mark s with Some t => (true, t) | None => (false, s) end in
        if has_listmod && bool_decide (type = op_addr)
        then inl ("List operator cannot work with " +:+ quote +:+ "addr" +:+ quote +:+ " operands")
        else
          let oper m := MkOperand name type m [] has_listmod (-1) 0 in
          match s with
          | String c t =>
              if is_char "(" c then
                match parse_modifier t with
                | inl msg => inl msg
                | inr (m, t) => close_operand has_lbrack (oper m) t
                end
              else if has_listmod
              then inl ("List operator " +:+ quote +:+ "..." +:+ quote +:+ " must implement a modifier")
              else close_operand has_lbrack (oper (MkModifier None (-1) 0)) s
          | EmptyString =>
              if has_listmod
              then inl ("List operator " +:+ quote +:+ "..." +:+ quote +:+ " must implement a modifier")
              else close_operand has_lbrack (oper (MkModifier None (-1) 0)) s
          end
    end.

(** ** The syntax string *)

(** Appends to a buffer of 200 characters. *)
Definition put (out t : string) : exec string :=
  if (String.length out + String.length t <=? 200)%nat then Ret (out +:+ t) else Crash.
(** Stores the final NUL. *)
Definition terminate (out : string) : exec string :=
  if (String.length out <? 200)%nat then Ret out else Crash.

Definition escape_error (c : string) : string := "Invalid escape sequence found: '" +:+ c +:+ "'".
Definition scape_error (c : string) : string := "Invalid scape sequence found: '" +:+ c +:+ "'".

(** The first character, as ["%c"] prints it. *)
Definition first_char (s : string) : string := match s with String c _ => String c "" | EmptyString => "" end.

(** The loop over the mnemonic: the text written and the text that remains. *)
Fixpoint mnemonic_loop (is_pseudo : bool) (out s : string) : exec (string + string * string) :=
  match s with
  | EmptyString => Ret (inr (out, s))
  | String c t =>
      if isspace c then Ret (inr (out, s))
      else if (is_pseudo && negb (is_pseudo_mnemonic_name s)) || negb (is_mnemonic_name s)
      then Ret (inl ("Invalid symbol found in mnemonic string: '" +:+ first_char s +:+ "'"))
      else if is_char "%" c && negb is_pseudo then Ret (inr (out, s))
      else if is_char "\" c then
        match t with
        | String d t' =>
            if is_char "%" d then out ← put out "\%"; mnemonic_loop is_pseudo out t'
            else Ret (inl (escape_error (first_char t)))
        | EmptyString => Ret (inl (escape_error ""))
        end
      else out ← put out (String c ""); mnemonic_loop is_pseudo out t
  end.

(** The result of the operand loop: the error, or the text written; with the
    operands created and the counter of expected arguments. *)
Record op_result := MkOp { op_text : string + string; op_operands : list ac_operand; op_expected : Z }.

Fixpoint operand_loop (fuel : nat) (maps : map_state) (is_pseudo mne_mode : bool) (out s : string)
    (operands : list ac_operand) (expected : Z) : exec op_result :=
  let fail msg := Ret (MkOp (inl msg) operands expected) in
  match fuel with
  | O => Crash
  | S fuel =>
      match s with
      | EmptyString => Ret (MkOp (inr out) operands expected)
      | String _ s1 =>
          '(out, mne_mode, s) ←
            (if mne_mode && head_is isspace s then out ← put out " "; Ret (out, false, s1)
             else Ret (out, mne_mode, s));
          let s := skip_spaces s in
          if negb (is_operand_string s)
          then fail ("Invalid character found in assembly string: '/" +:+ first_char s +:+ "'")
          else if head_is is_group_token s then
            let '(token, s) := span is_group_token s in
            out ← put out token;
            if head_is isspace s && negb mne_mode then
              let s := skip_spaces s in
              out ← (if head_is is_group_token s then put out " " else Ret out);
              operand_loop fuel maps is_pseudo mne_mode out s operands expected
            else operand_loop fuel maps is_pseudo mne_mode out s operands expected
          else
            match s with
            | EmptyString => Crash
            | String c t =>
                if is_char "%" c then
                  out ← put out "%";
                  if is_pseudo then
                    match t with
                    | String d t' =>
                        if isdigit d then
                          if 48 + expected - 1 <? cc d
                          then fail ("Argument in macro not valid: '" +:+ first_char t +:+ "'")
                          else
                            out ← put out (String d "");
                            operand_loop fuel maps is_pseudo mne_mode out t' operands expected
                        else fail ("Invalid macro substitution: '" +:+ first_char t +:+ "'")
                    | EmptyString => fail ("Invalid macro substitution: '" +:+ "" +:+ "'")
                    end
                  else
                    match create_operand maps t mne_mode with
                    | inl msg => fail msg
                    | inr (operand, t') =>
                        operand_loop fuel maps is_pseudo mne_mode out t' (operands ++ [operand]) (expected + 1)
                    end
                else if is_char "\" c then
                  out ← put out "\\";
                  match t with
                  | String d t' =>
                      if is_char "%" d then
                        out ← put out "%";
                        operand_loop fuel maps is_pseudo mne_mode out t' operands expected
                      else fail (scape_error (first_char t))
                  | EmptyString => fail (scape_error "")
                  end
                else
                  out ← put out (String c "");
                  operand_loop fuel maps is_pseudo mne_mode out t operands expected
            end
      end
  end.

(** The part of the function after the mnemonic, at the text [s] with the output
    [out]. *)
Definition operand_part (maps : map_state) (is_pseudo : bool) (out s : string) (expected : Z)
    : exec op_result :=
  let space := head_is isspace s in
  let rest := if space then skip_spaces s else s in
  match rest with
  | EmptyString => out ← (if space then put out " " ≫= fun _ => Ret out else Ret out);
                   out ← terminate out; Ret (MkOp (inr out) [] expected)
  | _ =>
      out ← (if space then put out " " else Ret out);
      r ← operand_loop (S (String.length rest)) maps is_pseudo (negb space) out rest [] expected;
      match op_text r with
      | inl _ => Ret r
      | inr out => _ ← terminate out; Ret r
      end
  end.

(** Returns the state and the message of the error, or the formatted string. *)
Definition acpp_asm_parse_asm_string (maps : map_state) (s : asm_state) (asm_str : string) (is_pseudo : bool)
    : exec (asm_state * (string + string)) :=
  let s := if is_pseudo then s else set_args 0 (num_args_found s) s in
  let fail s msg := Ret (set_error s, inl msg) in
  match skip_spaces asm_str with
  | EmptyString => fail s "No assembly syntax specified"
  | String c _ as t =>
      if (is_pseudo && negb (is_pseudo_mnemonic_begin c)) || negb (is_mnemonic_begin c)
      then fail s ("Invalid symbol found in the beginning of mnemonic string: '" +:+ first_char t +:+ "'")
      else
        m ← mnemonic_loop is_pseudo "" t;
        match m with
        | inl msg => fail s msg
        | inr (out, rest) =>
            _ ← (if is_pseudo then Ret out else terminate out);
            let cur := current_insn s in
            let s := if is_pseudo then s
                     else set_current (MkCurrent (Some out) (cur_op_literal cur) (cur_unformatted cur) []
                                         (cur_const_fields cur)) s in
            r ← operand_part maps is_pseudo (if is_pseudo then out else "") rest (num_args_expected s);
            let s := set_args (op_expected r) (num_args_found s) s in
            match op_text r with
            | inl msg => fail s msg
            | inr text =>
                let s := if is_pseudo then s
                         else set_current (MkCurrent (Some out) (Some text) (Some asm_str) (op_operands r)
                                             (cur_const_fields cur)) s in
                Ret (s, inr text)
            end
        end
  end.

(** ** Arguments *)

(** The position of the first field with that name. *)
Fixpoint field_index (name : string) (fs : list ac_dec_field) : option (nat * ac_dec_field) :=
  match fs with
  | [] => None
  | f :: fs => if streq name (f_name f) then Some (0%nat, f)
               else match field_index name fs with Some (k, f) => Some (S k, f) | None => None end
  end.

Definition acpp_asm_parse_asm_argument (s : asm_state) (pf : option ac_dec_format) (field_str : string)
    (is_concatenated : bool) : asm_state * option string :=
  match pf with
  | None => (s, Some "Ignoring undeclared instruction set_asm argument")
  | Some pf =>
      match field_index field_str (fmt_fields pf) with
      | None => (set_error s, Some ("Invalid field used as argument: '" +:+ field_str +:+ "'"))
      | Some (f_id, pfield) =>
          let found := if is_concatenated then num_args_found s else num_args_found s + 1 in
          let s := set_args (num_args_expected s) found s in
          let newfield := MkAField (Some (f_name pfield)) (u32 (f_size pfield)) (u32 (f_first_bit pfield))
                            (Z.of_nat f_id) in
          let operands := cur_operands (current_insn s) in
          let k := Z.to_nat (u32 (found - 1)) in
          match operands !! k with
          | None => (set_error s, Some "Invalid number of arguments")
          | Some op =>
              (set_current (set_cur_operands (<[k := set_op_fields (op_fields op ++ [newfield]) op]> operands)
                              (current_insn s)) s, None)
          end
      end
  end.

(** The value of a symbolic constant, or the error. *)
Definition const_symbol (maps : map_state) (map : option string) (sym : string) : exec (string + Z) :=
  '(v, found) ← get_symbol_value maps sym map;
  if found : bool then Ret (inr v)
  else Ret (inl ("Invalid map symbol assigned in argument declaration: '" +:+
                 match map with Some m => m +:+ "." +:+ sym | None => sym end +:+ "'")).

Definition acpp_asm_parse_const_asm_argument (maps : map_state) (s : asm_state) (pf : option ac_dec_format)
    (field_str : string) (map : option string) (iconst_field : Z) (sconst_field : option string)
    : exec (asm_state * option string) :=
  c ← match sconst_field with
      | Some sym => const_symbol maps map sym
      | None => Ret (inr iconst_field)
      end;
  match c with
  | inl msg => Ret (set_error s, Some msg)
  | inr v =>
      pf ← of_option pf;
      match field_index field_str (fmt_fields pf) with
      | None => Ret (set_error s, Some ("Invalid field used as argument: '" +:+ field_str +:+ "'"))
      | Some (_, pfield) =>
          let cfield := MkConst (u32 v) (MkAField (Some (f_name pfield)) (u32 (f_size pfield))
                                           (u32 (f_first_bit pfield)) 0) in
          let cur := current_insn s in
          Ret (set_current (set_cur_consts (cur_const_fields cur ++ [cfield]) cur) s, None)
      end
  end.

(** An argument of a [set_asm], as the rules of [id_list] in archc_grammar.y read
    it: a constant for a field, given by a number or by a symbol of a map, or
    fields joined by plus signs. *)
Inductive argument :=
  | AConst (field : string) (map : option string) (value : Z) (sym : option string)
  | AFields (field : string) (more : list string).

(** The actions of [concatfields_list] and [id_list], up to the first error. *)
Fixpoint parse_more (s : asm_state) (pf : ac_dec_format) (names : list string) : asm_state * option string :=
  match names with
  | [] => (s, None)
  | n :: names =>
      match acpp_asm_parse_asm_argument s (Some pf) n true with
      | (s, None) => parse_more s pf names
      | (s, Some msg) => (s, Some msg)
      end
  end.

Definition parse_argument (maps : map_state) (s : asm_state) (pf : ac_dec_format) (a : argument) : exec (asm_state * option string) :=
  match a with
  | AConst n map v sym => acpp_asm_parse_const_asm_argument maps s (Some pf) n map v sym
  | AFields n more =>
      match acpp_asm_parse_asm_argument s (Some pf) n false with
      | (s, None) => Ret (parse_more s pf more)
      | (s, Some msg) => Ret (s, Some msg)
      end
  end.

Fixpoint parse_arguments (maps : map_state) (s : asm_state) (pf : ac_dec_format) (args : list argument) : exec (asm_state * option string) :=
  match args with
  | [] => Ret (s, None)
  | a :: args =>
      '(s, e) ← parse_argument maps s pf a;
      match e with None => parse_arguments maps s pf args | Some msg => Ret (s, Some msg) end
  end.

(** ** The end of a declaration *)

(** A copy, element by element. *)
Fixpoint clone_const_fields (cfields : list ac_const_field) : list ac_const_field :=
  match cfields with
  | [] => []
  | lh :: rest => MkConst (cst_value lh) (cst_field lh) :: clone_const_fields rest
  end.

(** Both insertions: before the head when [cmp] of the new element with it is
    [Lt], otherwise before the first later element for which it is. *)
Section InsertInsn.
Context (cmp : ac_asm_insn -> exec comparison) (insn : ac_asm_insn).

Fixpoint insert_rest (l : list ac_asm_insn) : exec (list ac_asm_insn) :=
  match l with
  | [] => Ret [insn]
  | t :: rest =>
      c ← cmp t;
      match c with
      | Lt => Ret (insn :: l)
      | _ => l ← insert_rest rest; Ret (t :: l)
      end
  end.

Definition insert_insn (l : list ac_asm_insn) : exec (list ac_asm_insn) :=
  match l with
  | [] => Ret [insn]
  | t :: rest =>
      c ← cmp t;
      match c with
      | Lt => Ret (insn :: l)
      | _ => l ← insert_rest rest; Ret (t :: l)
      end
  end.
End InsertInsn.

Section EndInsn.
(** [name_of]: the [name] of an instruction. *)
Context (name_of : nat -> string).

(** The comparison of the list in source order. *)
Definition original_cmp (x t : ac_asm_insn) : exec comparison :=
  match asm_insn x with
  | None => Ret (strcmp (asm_mnemonic x) (asm_mnemonic t))
  | Some k => k' ← of_option (asm_insn t); Ret (strcmp (name_of k) (name_of k'))
  end.

Definition alphabetic_cmp (x t : ac_asm_insn) : exec comparison :=
  Ret (strcmp (asm_mnemonic x) (asm_mnemonic t)).

Definition dummy_field : ac_asm_insn_field := MkAField None 0 0 0.

(** The new instruction; both lists get an equal copy. *)
Definition make_insn (s : asm_state) (p : option nat) (operands : list ac_operand) : exec ac_asm_insn :=
  let cur := current_insn s in
  literal ← of_option (cur_op_literal cur);
  unformatted ← of_option (cur_unformatted cur);
  mnemonic ← of_option (cur_mnemonic cur);
  Ret (MkAsm mnemonic literal unformatted operands p (clone_const_fields (cur_const_fields cur))
         (pseudo_list s) (num_pseudo_insn s)).

Definition acpp_asm_end_insn (s : asm_state) (p : option nat) : exec (asm_state * option string) :=
  if negb (num_args_found s =? num_args_expected s) then Ret (s, Some "Invalid number of arguments")
  else if in_error s then Ret (s, None)
  else
    let cur := current_insn s in
    match p, pseudo_list s with
    | None, [] => Ret (s, Some "No pseudo instructions declared")
    | _, _ =>
        let operands := match p with
                        | None => set_op_fields [dummy_field] <$> cur_operands cur
                        | Some _ => cur_operands cur
                        end in
        insn ← make_insn s p operands;
        l ← insert_insn (alphabetic_cmp insn) insn (asm_insn_list s);
        o ← insert_insn (original_cmp insn) insn (asm_insn_list_original_order s);
        Ret (set_lists l o (set_current (set_cur_operands operands cur) s), None)
    end.
End EndInsn.

(** ** Pseudo instructions *)

Definition acpp_asm_new_pseudo (s : asm_state) : asm_state :=
  set_args (num_args_expected s) (num_args_expected s) (set_pseudo [] 0 s).

Definition acpp_asm_add_pseudo_member (maps : map_state) (s : asm_state) (pseudo : string)
    : exec (asm_state * option string) :=
  '(s, r) ← acpp_asm_parse_asm_string maps s pseudo true;
  match r with
  | inl msg => Ret (s, Some msg)
  | inr formatted_pseudo =>
      Ret (set_pseudo (pseudo_list s ++ [formatted_pseudo]) (num_pseudo_insn s + 1) s, None)
  end.

Definition zero_asm : asm_state := MkAsmState 0 0 false (MkCurrent None None None [] []) [] 0 [] [].
