(* ===== verification/AsmInsnOk.v ===== *)
(** * Correctness of the assembly-syntax actions

    Termination of the syntax-string parser, agreement of the markers of the
    formatted string with the operands, binding of arguments to operands, and
    the order of the instruction lists. *)
From S2P Require Import Prelude CString DecTypes AsmTypes AsmMap AsmInsn.

(** ** Termination *)

Lemma close_operand_length b o s o' s' : close_operand b o s = inr (o', s') ->
  (String.length s' <= String.length s)%nat.
Proof.
  unfold close_operand. destruct b; [|intros [= _ <-]; lia]. destruct s as [|c s]; [discriminate|].
  destruct (is_char "]" c); [|discriminate]. intros [= _ <-]. cbn. lia.
Qed.

Lemma eat_blanks_length s : (String.length (eat_blanks s) <= String.length s)%nat.
Proof. apply span_length. Qed.

Lemma parse_modifier_length s m s' : parse_modifier s = inr (m, s') ->
  (String.length s' <= String.length s)%nat.
Proof.
  unfold parse_modifier. pose proof (span_length is_identifier s) as H1. destruct (span is_identifier s) as [name s1].
  cbn in H1. destruct (streq name ""); [discriminate|]. pose proof (eat_blanks_length s1) as H2.
  destruct (eat_blanks s1) as [|c s2]; [discriminate|]. cbn in H2.
  destruct (is_char ")" c); [intros [= _ <-]; lia|]. destruct (is_char "," c); [|discriminate].
  pose proof (eat_blanks_length s2) as H3. pose proof (span_length isdigit (eat_blanks s2)) as H4.
  destruct (span isdigit (eat_blanks s2)) as [num s4]. cbn in H4. destruct (streq num ""); [discriminate|].
  pose proof (eat_blanks_length s4) as H5. destruct (eat_blanks s4) as [|d s5]; [discriminate|]. cbn in H5.
  destruct (is_char ")" d); [|discriminate]. intros [= _ <-]. lia.
Qed.

Lemma list_mark_length s t : list_mark s = Some t -> (String.length t <= String.length s)%nat.
Proof.
  destruct s as [|a [|b [|c s]]]; try discriminate. cbn. destruct (_ && _); [|discriminate].
  intros [= <-]. lia.
Qed.

Lemma create_operand_length maps s mne o s' : create_operand maps s mne = inr (o, s') ->
  (String.length s' <= String.length s)%nat.
Proof.
  unfold create_operand.
  set (x := match s with String c t => if is_char "[" c then (true, t) else (false, s) | EmptyString => (false, s) end).
  assert (Hx : (String.length (snd x) <= String.length s)%nat).
  { unfold x. destruct s as [|c t]; [cbn; lia|]. destruct (is_char "[" c); cbn; lia. }
  destruct x as [b s1]. cbn in Hx. pose proof (span_length is_identifier s1) as H1.
  destruct (span is_identifier s1) as [name s2]. cbn in H1. destruct (streq name ""); [discriminate|].
  destruct (operand_kind maps mne name) as [|type]; [discriminate|].
  destruct (list_mark s2) as [t|] eqn:Em.
  - apply list_mark_length in Em. destruct (_ && _); [discriminate|]. destruct t as [|c t]; [discriminate|].
    destruct (is_char "(" c); [|discriminate]. destruct (parse_modifier t) as [|[m t']] eqn:Ep; [discriminate|].
    apply parse_modifier_length in Ep. intros H%close_operand_length. cbn in Em. lia.
  - destruct (_ && _); [discriminate|]. destruct s2 as [|c t]; [intros H%close_operand_length; lia|].
    destruct (is_char "(" c); [|intros H%close_operand_length; lia].
    destruct (parse_modifier t) as [|[m t']] eqn:Ep; [discriminate|].
    apply parse_modifier_length in Ep. intros H%close_operand_length. cbn in H1. lia.
Qed.

(** Every step of the loop goes on with a shorter text; [k]: the recursive call. *)
Lemma exec_bind_ext {A B} (m : exec A) (f g : A -> exec B) :
  (forall a, m = Ret a -> f a = g a) -> m ≫= f = m ≫= g.
Proof. destruct m; cbn; auto. Qed.

Lemma operand_loop_fuel fuel : forall fuel' maps ps mne out s ops n,
  (String.length s < fuel)%nat -> (String.length s < fuel')%nat ->
  operand_loop fuel maps ps mne out s ops n = operand_loop fuel' maps ps mne out s ops n.
Proof.
  induction fuel as [|fuel IH]; intros [|fuel'] maps ps mne out s ops n H H'; try lia.
  cbn [operand_loop]. destruct s as [|c0 s0]; [reflexivity|]. apply exec_bind_ext. intros [[out1 mne1] s1] Hs1.
  assert (Hl1 : (String.length s1 <= String.length (String c0 s0))%nat).
  { destruct (_ && _); [exec_inv Hs1|]; injection Hs1 as _ _ <-; cbn; lia. }
  pose proof (skip_spaces_length s1) as Hl2.
  set (t := skip_spaces s1) in *. clearbody t.
  assert (Hrec : forall mne out s ops n, (String.length s < String.length (String c0 s0))%nat ->
    operand_loop fuel maps ps mne out s ops n = operand_loop fuel' maps ps mne out s ops n).
  { intros. apply IH; lia. }
  destruct (negb (is_operand_string t)); [reflexivity|].
  destruct (head_is is_group_token t) eqn:Eg.
  - pose proof (span_head _ _ Eg) as Hl3. destruct (span is_group_token t) as [token t1]. cbn [snd] in Hl3.
    apply exec_bind_ext. intros out2 _. destruct (head_is isspace t1 && negb mne1); [|apply Hrec; lia].
    apply exec_bind_ext. intros out3 _. apply Hrec. pose proof (skip_spaces_length t1). lia.
  - destruct t as [|c t]; [reflexivity|].
    assert (Ht : (String.length t < String.length (String c0 s0))%nat) by (cbn in Hl2 |- *; cbn in Hl1; lia).
    destruct (is_char "%" c).
    { apply exec_bind_ext. intros out2 _. destruct ps.
      - destruct t as [|d t]; [reflexivity|]. destruct (isdigit d); [|reflexivity].
        destruct (_ <? _); [reflexivity|]. apply exec_bind_ext. intros out3 _. apply Hrec. cbn in *. lia.
      - destruct (create_operand maps t mne1) as [|[o t']] eqn:Ec; [reflexivity|].
        apply create_operand_length in Ec. apply Hrec. lia. }
    destruct (is_char "\" c).
    { apply exec_bind_ext. intros out2 _. destruct t as [|d t]; [reflexivity|].
      destruct (is_char "%" d); [|reflexivity]. apply exec_bind_ext. intros out3 _. apply Hrec. cbn in *. lia. }
    apply exec_bind_ext. intros out2 _. apply Hrec. assumption.
Qed.

(** The loop over the operands of a syntax string terminates: with more
    steps than characters its result does not depend on the number of steps, so
    the fuel of [operand_part] is enough for every string. *)
Theorem operand_loop_terminates fuel maps ps mne out s ops n :
  (String.length s < fuel)%nat ->
  operand_loop fuel maps ps mne out s ops n
  = operand_loop (S (String.length s)) maps ps mne out s ops n.
Proof. intros H. apply operand_loop_fuel; lia. Qed.

Lemma operand_loop_terminates_witness :
  operand_loop 50 empty_maps false false "" "%imm, %exp(lo)" [] 0
  = operand_loop 15 empty_maps false false "" "%imm, %exp(lo)" [] 0.
Proof. apply operand_loop_terminates. apply Nat.ltb_lt. reflexivity. Defined.

(** ** Markers of the formatted string *)

(** The ['%'] characters that a reader of the formatted string takes for
    operands: those that two backslashes do not precede. *)
Fixpoint count_markers (lit : string) : nat :=
  match lit with
  | EmptyString => 0
  | String c lit =>
      if is_char "%" c then S (count_markers lit)
      else if is_char "\" c then
        match lit with
        | String d lit' =>
            if is_char "\" d then
              match lit' with
              | String e lit'' => if is_char "%" e then count_markers lit'' else count_markers lit'
              | EmptyString => 0
              end
            else count_markers lit
        | EmptyString => 0
        end
      else count_markers lit
  end.

(** Strings written by the operand loop, with their number of markers. *)
Inductive formatted : string -> nat -> Prop :=
  | fmt_nil : formatted "" 0
  | fmt_marker s n : formatted s n -> formatted (s +:+ "%") (S n)
  | fmt_escape s n : formatted s n -> formatted (s +:+ "\\%") n
  | fmt_char s n c : formatted s n -> is_char "%" c = false -> is_char "\" c = false ->
      formatted (s +:+ String c "") n.

Lemma count_formatted s n t : formatted s n -> count_markers (s +:+ t) = (n + count_markers t)%nat.
Proof.
  intros H. revert t. induction H as [|s n H IH|s n H IH|s n c H IH H1 H2]; intros t; [reflexivity|..];
    rewrite str_app_assoc, IH.
  - change ("%" +:+ t) with (String "%" t). cbn [count_markers]. change (is_char "%" "%") with true. cbv iota. lia.
  - reflexivity.
  - rewrite str_app_cons. cbn [count_markers]. rewrite H1, H2. reflexivity.
Qed.

Lemma put_formatted out t out' : put out t = Ret out' -> out' = out +:+ t.
Proof. unfold put. destruct (_ <=? _)%nat; [congruence|discriminate]. Qed.

Lemma group_token_plain c : is_group_token c = true -> is_char "%" c = false /\ is_char "\" c = false.
Proof.
  intros H. unfold is_char. split; apply Ascii.eqb_neq; intros <-; discriminate H.
Qed.

Lemma formatted_span out n s : formatted out n -> formatted (out +:+ fst (span is_group_token s)) n.
Proof.
  revert out. induction s as [|c s IH]; intros out H; cbn [span]; [rewrite str_app_nil; assumption|].
  destruct (is_group_token c) eqn:E; [|rewrite str_app_nil; assumption].
  apply group_token_plain in E as [H1 H2]. specialize (IH (out +:+ String c "") (fmt_char _ _ _ H H1 H2)).
  destruct (span is_group_token s) as [a b]. cbn [fst] in *. rewrite str_app_assoc in IH. exact IH.
Qed.

Lemma operand_loop_formatted fuel : forall maps mne out s ops r,
  operand_loop fuel maps false mne out s ops (Z.of_nat (length ops)) = Ret r ->
  formatted out (length ops) ->
  op_expected r = Z.of_nat (length (op_operands r)) /\
  forall text, op_text r = inr text -> formatted text (length (op_operands r)).
Proof.
  induction fuel as [|fuel IH]; intros maps mne out s ops r H Hf; [discriminate|].
  cbn [operand_loop] in H.
  assert (Hfail : forall msg, Ret (MkOp (inl msg) ops (Z.of_nat (length ops))) = Ret r ->
    op_expected r = Z.of_nat (length (op_operands r)) /\
    forall text, op_text r = inr text -> formatted text (length (op_operands r))).
  { intros msg [= <-]. split; [reflexivity|discriminate]. }
  destruct s as [|c0 s0]; [injection H as <-; split; [reflexivity|intros text [= <-]; assumption]|].
  exec_inv H. destruct a as [[out1 mne1] s1].
  assert (Hf1 : formatted out1 (length ops)).
  { destruct (_ && _) in E; [exec_inv E; apply put_formatted in E0; subst a|]; injection E as <- _ _; [|assumption].
    apply fmt_char; [assumption|reflexivity|reflexivity]. }
  clear E. set (t := skip_spaces s1) in *. clearbody t.
  destruct (negb (is_operand_string t)); [eauto|].
  destruct (head_is is_group_token t).
  - pose proof (formatted_span out1 _ t Hf1) as Hf2. destruct (span is_group_token t) as [token t1]. cbn [fst] in Hf2.
    exec_inv H. apply put_formatted in E. subst a. destruct (_ && _) in H; [|eauto].
    exec_inv H. eapply IH; [exact H|]. destruct (head_is is_group_token (skip_spaces t1)) in E.
    + apply put_formatted in E. subst a. apply fmt_char; [assumption|reflexivity|reflexivity].
    + injection E as <-. assumption.
  - destruct t as [|c t]; [discriminate|]. destruct (is_char "%" c) eqn:Ep.
    { exec_inv H. apply put_formatted in E. subst a.
      destruct (create_operand maps t mne1) as [msg|[o t']]; [eauto|].
      eapply (IH maps mne1 (out1 +:+ "%") t' (ops ++ [o])).
      - rewrite length_app. cbn [length]. rewrite Nat2Z.inj_add. exact H.
      - rewrite length_app, Nat.add_comm. apply fmt_marker. assumption. }
    destruct (is_char "\" c) eqn:Eb.
    { exec_inv H. apply put_formatted in E. subst a. destruct t as [|d t]; [eauto|].
      destruct (is_char "%" d); [|eauto]. exec_inv H. apply put_formatted in E. subst a.
      eapply IH; [exact H|]. rewrite str_app_assoc. apply (fmt_escape out1). assumption. }
    exec_inv H. apply put_formatted in E. subst a. eapply IH; [exact H|]. apply fmt_char; assumption.
Qed.

Lemma operand_part_formatted maps out s r :
  operand_part maps false out s 0 = Ret r -> out = "" ->
  op_expected r = Z.of_nat (length (op_operands r)) /\
  forall text, op_text r = inr text -> formatted text (length (op_operands r)).
Proof.
  intros H ->. unfold operand_part in H.
  destruct (if head_is isspace s then skip_spaces s else s) as [|c t] eqn:Er.
  - exec_inv H. exec_inv H. injection H as <-. split; [reflexivity|]. intros text [= <-].
    assert (a = "") as ->; [|].
    { destruct (head_is isspace s); cbn in E; congruence. }
    unfold terminate in E0. cbn in E0. injection E0 as <-. constructor.
  - exec_inv H. exec_inv H.
    assert (Hf : formatted a 0).
    { destruct (head_is isspace s); [|injection E as <-; constructor]. apply put_formatted in E. subst a.
      apply fmt_char; [constructor|reflexivity|reflexivity]. }
    assert (Hr : a0 = r).
    { destruct (op_text a0); [injection H as <-; reflexivity|]. exec_inv H. injection H as <-. reflexivity. }
    subst a0. exact (operand_loop_formatted _ _ _ _ _ [] _ E0 Hf).
Qed.

Lemma parse_asm_string_formatted maps s str s' text :
  acpp_asm_parse_asm_string maps s str false = Ret (s', inr text) ->
  cur_op_literal (current_insn s') = Some text /\
  num_args_expected s' = Z.of_nat (length (cur_operands (current_insn s'))) /\
  formatted text (length (cur_operands (current_insn s'))).
Proof.
  unfold acpp_asm_parse_asm_string. destruct (skip_spaces str) as [|c t]; [discriminate|].
  destruct (_ || _); [discriminate|]. intros H. exec_inv H. destruct a as [msg|[out rest]]; [discriminate|].
  exec_inv H. exec_inv H. destruct (op_text a0) as [msg|text'] eqn:Et; [discriminate|]. injection H as <- <-.
  destruct (operand_part_formatted _ _ _ _ E1 eq_refl) as [He Hf]. auto.
Qed.

(** Markers and operands: when [acpp_asm_parse_asm_string] accepts the
    syntax string of an instruction, the formatted literal contains exactly one
    unescaped ['%'] per operand created, and that is the number of arguments
    expected. *)
Theorem parse_asm_string_markers maps s str s' text :
  acpp_asm_parse_asm_string maps s str false = Ret (s', inr text) ->
  cur_op_literal (current_insn s') = Some text /\
  count_markers text = length (cur_operands (current_insn s')) /\
  num_args_expected s' = Z.of_nat (count_markers text).
Proof.
  intros H. destruct (parse_asm_string_formatted _ _ _ _ _ H) as (Hl & Hn & Hf).
  pose proof (count_formatted _ _ "" Hf) as Hc. rewrite str_app_nil, Nat.add_0_r in Hc.
  rewrite Hc. auto.
Qed.

Definition reg_maps : map_state := MkMaps ["reg"] [] [].

Lemma parse_asm_string_markers_witness :
  exists s' text, acpp_asm_parse_asm_string reg_maps zero_asm " add  %reg , \%hi %imm(lo, 4) r1" false
                  = Ret (s', inr text) /\
    text = " %,\\%hi%r1" /\ count_markers text = length (cur_operands (current_insn s')).
Proof.
  destruct (acpp_asm_parse_asm_string reg_maps zero_asm " add  %reg , \%hi %imm(lo, 4) r1" false)
    as [[s' [msg|text]]| |] eqn:E; try (vm_compute in E; discriminate E).
  exists s', text. split; [reflexivity|].
  destruct (parse_asm_string_markers _ _ _ _ _ E) as (_ & Hc & _).
  split; [vm_compute in E; congruence|exact Hc].
Defined.

(** White space after the last operand makes the parser read past the end of
    the syntax string: after skipping it the loop copies the terminating NUL and
    goes on behind it. *)
Theorem trailing_space_overruns maps s :
  acpp_asm_parse_asm_string maps s "add %imm " false = Crash.
Proof. vm_compute. reflexivity. Qed.

(** ** Arguments *)

(** The fields of each argument that has fields; the other arguments. *)
Definition groups (args : list argument) : list (list string) :=
  omap (fun a => match a with AFields n more => Some (n :: more) | AConst _ _ _ _ => None end) args.
Definition constants (args : list argument) : list argument :=
  omap (fun a => match a with AFields _ _ => None | AConst _ _ _ _ => Some a end) args.

(** [n] is the name of a field of the format; the record holds it, and the position of the first field of that
    name. *)
Definition names_field (pf : ac_dec_format) (n : string) (r : ac_asm_insn_field) : Prop :=
  exists id f, fmt_fields pf !! id = Some f /\ f_name f = n /\
    (forall j g, (j < id)%nat -> fmt_fields pf !! j = Some g -> f_name g <> n) /\
    r = MkAField (Some n) (u32 (f_size f)) (u32 (f_first_bit f)) (Z.of_nat id).

(** A constant: the number itself, or the value of the symbol with its field. *)
Definition names_constant (maps : map_state) (pf : ac_dec_format) (a : argument) (c : ac_const_field) : Prop :=
  match a with
  | AConst n map v sym =>
      exists r w, names_field pf n r /\
        match sym with None => w = v | Some y => get_symbol_value maps y map = Ret (w, true) end /\
        c = MkConst (u32 w) (MkAField (af_name r) (af_size r) (af_first_bit r) 0)
  | AFields _ _ => False
  end.

Lemma field_index_first name fs k f : field_index name fs = Some (k, f) ->
  fs !! k = Some f /\ f_name f = name /\ forall j g, (j < k)%nat -> fs !! j = Some g -> f_name g <> name.
Proof.
  revert k. induction fs as [|g fs IH]; intros k; cbn; [discriminate|].
  destruct (streq name (f_name g)) eqn:E.
  - intros [= <- <-]. apply streq_spec in E. split; [reflexivity|]. split; [congruence|]. lia.
  - apply streq_false in E. destruct (field_index name fs) as [[k' f']|]; [|discriminate]. intros [= <- <-].
    destruct (IH k' eq_refl) as (H1 & H2 & H3). split; [exact H1|]. split; [exact H2|].
    intros [|j] h Hj Hh; [injection Hh as ->; congruence|]. apply (H3 j); [lia|exact Hh].
Qed.

Lemma field_index_names pf n k f : field_index n (fmt_fields pf) = Some (k, f) ->
  names_field pf n (MkAField (Some (f_name f)) (u32 (f_size f)) (u32 (f_first_bit f)) (Z.of_nat k)).
Proof. intros H. destruct (field_index_first _ _ _ _ H) as (H1 & H2 & H3). exists k, f. rewrite H2. auto. Qed.

(** The state after arguments: operands, constants and the number of operands
    that have an argument. *)
Definition bound (ops : list ac_operand) (cs : list ac_const_field) (found : Z) (s : asm_state) : asm_state :=
  let c := current_insn s in
  set_current (MkCurrent (cur_mnemonic c) (cur_op_literal c) (cur_unformatted c) ops (cur_const_fields c ++ cs))
    (set_args (num_args_expected s) found s).

Definition add_fields (fs : list ac_asm_insn_field) (op : ac_operand) : ac_operand := set_op_fields (op_fields op ++ fs) op.

(** The operands from number [k] on get the fields of the list. *)
Definition bind_from (k : nat) (fss : list (list ac_asm_insn_field)) (ops : list ac_operand) : list ac_operand :=
  imap (fun i op => if (k <=? i)%nat then match fss !! (i - k)%nat with Some fs => add_fields fs op | None => op end else op) ops.

Notation operands s := (cur_operands (current_insn s)).

Lemma bound_bound ops cs found ops' cs' found' s : bound ops' cs' found' (bound ops cs found s) = bound ops' (cs ++ cs') found' s.
Proof. unfold bound. cbn. rewrite app_assoc. reflexivity. Qed.

Lemma bound_id s : bound (operands s) [] (num_args_found s) s = s.
Proof. destruct s as [? ? ? [] ? ? ? ?]. unfold bound. cbn. rewrite app_nil_r. reflexivity. Qed.

Lemma parse_asm_argument_ok s pf n cat s' k : acpp_asm_parse_asm_argument s (Some pf) n cat = (s', None) ->
  num_args_found s + (if cat then 0 else 1) = Z.of_nat k + 1 -> Z.of_nat k < 2 ^ 32 ->
  exists r op, names_field pf n r /\ operands s !! k = Some op /\
    s' = bound (<[k := add_fields [r] op]> (operands s)) [] (Z.of_nat k + 1) s.
Proof.
  unfold acpp_asm_parse_asm_argument. destruct (field_index n (fmt_fields pf)) as [[id f]|] eqn:Ef; [|discriminate].
  intros H Hk Hlt. cbn [num_args_found current_insn set_args] in H.
  assert (E : (if cat then num_args_found s else num_args_found s + 1) = Z.of_nat k + 1) by (destruct cat; lia).
  rewrite E in H. replace (Z.of_nat k + 1 - 1) with (Z.of_nat k) in H by lia.
  rewrite uwrap_small, Nat2Z.id in H by lia. destruct (operands s !! k) as [op|] eqn:Eo; [|discriminate]. injection H as <-.
  eexists _, op. split; [exact (field_index_names _ _ _ _ Ef)|]. split; [reflexivity|].
  unfold bound. cbn. rewrite app_nil_r. reflexivity.
Qed.

Lemma parse_more_ok pf k more : forall s s' op, parse_more s pf more = (s', None) ->
  num_args_found s = Z.of_nat k + 1 -> Z.of_nat k < 2 ^ 32 -> operands s !! k = Some op ->
  exists fs, Forall2 (names_field pf) more fs /\ s' = bound (<[k := add_fields fs op]> (operands s)) [] (Z.of_nat k + 1) s.
Proof.
  induction more as [|n more IH]; intros s s' op H Hf Hk Ho; cbn [parse_more] in H.
  - injection H as <-. exists []. split; [constructor|]. unfold add_fields. rewrite app_nil_r, <- Hf.
    replace (set_op_fields (op_fields op) op) with op by (destruct op; reflexivity).
    rewrite list_insert_id by exact Ho. symmetry. apply bound_id.
  - destruct (acpp_asm_parse_asm_argument s (Some pf) n true) as [s1 [msg|]] eqn:E; [discriminate|].
    destruct (parse_asm_argument_ok _ _ _ _ _ k E ltac:(lia) Hk) as (r & op' & Hr & Ho' & ->).
    assert (op' = op) as -> by congruence.
    destruct (IH _ _ (add_fields [r] op) H eq_refl Hk) as (fs & Hfs & ->).
    { cbn. apply list_lookup_insert_eq. eapply lookup_lt_Some. exact Ho. }
    exists (r :: fs). split; [constructor; assumption|]. rewrite bound_bound. cbn.
    rewrite list_insert_insert_eq. unfold add_fields. cbn. rewrite <- app_assoc. reflexivity.
Qed.

Lemma parse_const_ok maps s pf n map v sym s' : acpp_asm_parse_const_asm_argument maps s (Some pf) n map v sym = Ret (s', None) ->
  exists c, names_constant maps pf (AConst n map v sym) c /\ s' = bound (operands s) [c] (num_args_found s) s.
Proof.
  unfold acpp_asm_parse_const_asm_argument. intros H. exec_inv H. destruct a as [msg|w]; [discriminate|]. cbn in H.
  destruct (field_index n (fmt_fields pf)) as [[id f]|] eqn:Ef; [|discriminate]. injection H as <-.
  eexists. split.
  - exists (MkAField (Some (f_name f)) (u32 (f_size f)) (u32 (f_first_bit f)) (Z.of_nat id)), w.
    split; [exact (field_index_names _ _ _ _ Ef)|]. split; [|reflexivity].
    destruct sym as [y|]; [|congruence]. unfold const_symbol in E. exec_inv E. destruct a as [w' [|]]; [|discriminate].
    injection E as ->. exact E0.
  - destruct s as [? ? ? [] ? ? ? ?]. reflexivity.
Qed.

Lemma bind_from_nil k ops : bind_from k [] ops = ops.
Proof.
  apply list_eq. intros i. unfold bind_from. rewrite list_lookup_imap. destruct (ops !! i); [|reflexivity]. cbn.
  destruct (k <=? i)%nat; reflexivity.
Qed.

Lemma bind_from_cons k fs fss ops op : ops !! k = Some op ->
  bind_from (S k) fss (<[k := add_fields fs op]> ops) = bind_from k (fs :: fss) ops.
Proof.
  intros Ho. apply list_eq. intros i. unfold bind_from. rewrite !list_lookup_imap. destruct (decide (i = k)) as [->|Hn].
  - rewrite list_lookup_insert_eq by (eapply lookup_lt_Some; exact Ho). rewrite Ho. cbn -[Nat.leb].
    rewrite (proj2 (Nat.leb_gt (S k) k)), (Nat.leb_refl k), Nat.sub_diag by lia. reflexivity.
  - rewrite list_lookup_insert_ne by congruence. destruct (ops !! i); [|reflexivity]. cbn -[Nat.leb Nat.sub].
    destruct (Nat.leb_spec k i), (Nat.leb_spec (S k) i); try lia; [|reflexivity].
    replace (i - k)%nat with (S (i - S k)) by lia. reflexivity.
Qed.

Lemma parse_arguments_ok maps pf args : forall k s s', parse_arguments maps s pf args = Ret (s', None) ->
  num_args_found s = Z.of_nat k -> Z.of_nat (length (operands s)) < 2 ^ 32 -> (k <= length (operands s))%nat ->
  exists fss cs, Forall2 (Forall2 (names_field pf)) (groups args) fss /\ Forall2 (names_constant maps pf) (constants args) cs /\
    (k + length fss <= length (operands s))%nat /\
    s' = bound (bind_from k fss (operands s)) cs (Z.of_nat (k + length fss)) s.
Proof.
  induction args as [|[n map v sym|n more] args IH]; intros k s s' H Hf Hlt Hle; cbn [parse_arguments parse_argument] in H.
  - injection H as <-. exists [], []. split; [constructor|]. split; [constructor|]. cbn [length]. rewrite Nat.add_0_r. split; [exact Hle|].
    rewrite bind_from_nil, <- Hf. symmetry. apply bound_id.
  - exec_inv H. destruct a as [s1 [msg|]]; [discriminate|]. apply parse_const_ok in E as (c & Hc & ->).
    destruct (IH k _ _ H Hf Hlt Hle) as (fss & cs & H1 & H2 & H3 & ->). exists fss, (c :: cs).
    split; [exact H1|]. split; [constructor; assumption|]. split; [exact H3|]. rewrite bound_bound. reflexivity.
  - destruct (acpp_asm_parse_asm_argument s (Some pf) n false) as [s1 [msg|]] eqn:E; [discriminate|].
    cbn [mbind exec_bind] in H. destruct (parse_more s1 pf more) as [s2 [msg|]] eqn:E2; [discriminate|].
    assert (Hk : Z.of_nat k < 2 ^ 32) by lia.
    destruct (parse_asm_argument_ok _ _ _ _ _ k E ltac:(lia) Hk) as (r & op & Hr & Ho & ->).
    assert (Hlk := lookup_lt_Some _ _ _ Ho).
    destruct (parse_more_ok pf k more _ _ (add_fields [r] op) E2 eq_refl Hk) as (fs & Hfs & ->);
      [cbn; apply list_lookup_insert_eq, Hlk|].
    rewrite bound_bound in H. cbn [app bound current_insn set_current cur_operands] in H.
    rewrite list_insert_insert_eq in H.
    replace (add_fields fs (add_fields [r] op)) with (add_fields (r :: fs) op) in H
      by (unfold add_fields; cbn; rewrite <- app_assoc; reflexivity).
    destruct (IH (S k) _ _ H ltac:(cbn; lia)) as (fss & cs & H1 & H2 & H3 & ->).
    { cbn. rewrite length_insert. exact Hlt. }
    { cbn. rewrite length_insert. lia. }
    cbn in H3. rewrite length_insert in H3.
    exists ((r :: fs) :: fss), cs. split; [constructor; [constructor; assumption|exact H1]|]. split; [exact H2|].
    cbn [length]. split; [lia|]. rewrite bound_bound. cbn [app bound current_insn set_current cur_operands].
    rewrite (bind_from_cons _ _ _ _ _ Ho). f_equal. lia.
Qed.

(** What [acpp_asm_end_insn] says about the number of arguments. *)
Lemma end_insn_count name_of s p : num_args_found s <> num_args_expected s <->
  acpp_asm_end_insn name_of s p = Ret (s, Some "Invalid number of arguments").
Proof.
  unfold acpp_asm_end_insn. destruct (Z.eqb_spec (num_args_found s) (num_args_expected s)); cbn [negb]; [|tauto].
  split; [congruence|]. intros H. exfalso. destruct (in_error s); [discriminate|].
  destruct p, (pseudo_list s); try discriminate; exec_inv H; exec_inv H; exec_inv H; discriminate.
Qed.

(** C8. Arguments and operands: when the arguments of a [set_asm] are all
    accepted, constants and fields joined by plus signs in any order, there are
    no more arguments with fields than operands, and the test of
    [acpp_asm_end_insn] passes exactly when there are as many; the [k]-th of them
    adds to the [k]-th operand, in their order, the records of the fields it names,
    each the first field of the format of that name with its position as id;
    the constants are added to those of the instruction, and nothing else
    changes.  The number of operands fits an unsigned. *)
Theorem arguments_bind_operands maps pf s s' args :
  num_args_found s = 0 -> Z.of_nat (length (operands s)) < 2 ^ 32 ->
  parse_arguments maps s pf args = Ret (s', None) ->
  exists fss cs ops,
    Forall2 (Forall2 (names_field pf)) (groups args) fss /\
    Forall2 (names_constant maps pf) (constants args) cs /\
    s' = bound ops cs (Z.of_nat (length (groups args))) s /\
    (length (groups args) <= length (operands s))%nat /\ length ops = length (operands s) /\
    (forall k op, operands s !! k = Some op ->
       ops !! k = Some (match fss !! k with Some fs => set_op_fields (op_fields op ++ fs) op | None => op end)) /\
    (forall name_of p, acpp_asm_end_insn name_of s' p = Ret (s', Some "Invalid number of arguments") <->
       num_args_expected s <> Z.of_nat (length (groups args))).
Proof.
  intros H0 Hlt H. destruct (parse_arguments_ok maps pf args 0 s s' H H0 Hlt (Nat.le_0_l _)) as (fss & cs & H1 & H2 & H3 & ->).
  cbn [Nat.add] in *. rewrite (Forall2_length _ _ _ H1). exists fss, cs, (bind_from 0 fss (operands s)).
  split; [exact H1|]. split; [exact H2|]. split; [reflexivity|]. split; [exact H3|].
  split; [apply length_imap|]. split.
  - intros k op Ho. unfold bind_from. rewrite list_lookup_imap, Ho. cbn. rewrite Nat.sub_0_r. reflexivity.
  - intros name_of p. rewrite <- end_insn_count. cbn. split; congruence.
Qed.

Definition demo_asm_format : ac_dec_format :=
  MkFormat 0 "R" 16 [MkField "op" 8 7 0 0 0; MkField "rd" 4 11 0 0 0; MkField "lo" 2 13 0 0 0; MkField "hi" 2 15 0 0 0].

Definition demo_arguments : list argument := [AFields "rd" []; AConst "op" None 5 None; AFields "hi" ["lo"]].

Lemma arguments_bind_operands_witness :
  match acpp_asm_parse_asm_string reg_maps (acpp_asm_new_insn zero_asm) "add %reg, %imm" false with
  | Ret (s, inr _) =>
      match parse_arguments reg_maps s demo_asm_format demo_arguments with
      | Ret (s', None) => exists ops, operands s' = ops /\ num_args_found s' = 2 /\ (length (groups demo_arguments) <= length (operands s))%nat
      | _ => False
      end
  | _ => False
  end.
Proof.
  destruct (acpp_asm_parse_asm_string reg_maps (acpp_asm_new_insn zero_asm) "add %reg, %imm" false)
    as [[s [msg|text]]| |] eqn:E; try (vm_compute in E; discriminate E).
  destruct (parse_arguments reg_maps s demo_asm_format demo_arguments) as [[s' [msg|]]| |] eqn:Ea;
    try (vm_compute in E; injection E as <- _; vm_compute in Ea; discriminate Ea).
  destruct (arguments_bind_operands reg_maps demo_asm_format s s' demo_arguments) as (fss & cs & ops & H1 & H2 & -> & H3 & H4);
    [vm_compute in E; injection E as <- _; reflexivity..|exact Ea|].
  exists ops. split; [reflexivity|]. split; [reflexivity|exact H3].
Defined.

(** ** The order of the lists *)

Lemma insert_insn_alphabetic x l :
  insert_insn (alphabetic_cmp x) x l = Ret (insert_after asm_mnemonic x l).
Proof.
  assert (H : forall l, insert_rest (alphabetic_cmp x) x l = Ret (insert_after asm_mnemonic x l)).
  { intros l0. induction l0 as [|t l0 IH]; cbn; [reflexivity|].
    destruct (strcmp (asm_mnemonic x) (asm_mnemonic t)); rewrite ?IH; reflexivity. }
  destruct l as [|t l]; [reflexivity|]. cbn. rewrite H.
  destruct (strcmp (asm_mnemonic x) (asm_mnemonic t)); reflexivity.
Qed.

(** What [acpp_asm_end_insn] adds: the operands of a pseudo instruction get a
    dummy field. *)
Definition final_operands (s : asm_state) (p : option nat) : list ac_operand :=
  match p with
  | None => set_op_fields [dummy_field] <$> cur_operands (current_insn s)
  | Some _ => cur_operands (current_insn s)
  end.

Lemma end_insn_ok name_of s p s' : acpp_asm_end_insn name_of s p = Ret (s', None) ->
  (in_error s = true /\ s' = s) \/
  exists x, make_insn s p (final_operands s p) = Ret x /\
    asm_insn_list s' = insert_after asm_mnemonic x (asm_insn_list s) /\
    insert_insn (original_cmp name_of x) x (asm_insn_list_original_order s)
      = Ret (asm_insn_list_original_order s').
Proof.
  unfold acpp_asm_end_insn. destruct (negb _); [discriminate|]. destruct (in_error s); [intros [= <-]; auto|].
  intros H. right. fold (final_operands s p) in H.
  assert (Hr : (insn ← make_insn s p (final_operands s p);
                l ← insert_insn (alphabetic_cmp insn) insn (asm_insn_list s);
                o ← insert_insn (original_cmp name_of insn) insn (asm_insn_list_original_order s);
                Ret (set_lists l o (set_current (set_cur_operands (final_operands s p) (current_insn s)) s), None))
               = Ret (s', None : option string)).
  { destruct p; [exact H|]. destruct (pseudo_list s); [discriminate|exact H]. }
  exec_inv Hr. rewrite insert_insn_alphabetic in Hr. cbn [mbind exec_bind] in Hr. exec_inv Hr. injection Hr as <-.
  exists a. auto.
Qed.

(** [declared s xs]: the instructions accepted so far are [xs], in this order. *)
Inductive declared (name_of : nat -> string) : asm_state -> list ac_asm_insn -> Prop :=
  | declared_zero : declared name_of zero_asm []
  | declared_other s xs s' : declared name_of s xs ->
      asm_insn_list s' = asm_insn_list s ->
      asm_insn_list_original_order s' = asm_insn_list_original_order s -> declared name_of s' xs
  | declared_end s xs s' p x : declared name_of s xs ->
      acpp_asm_end_insn name_of s p = Ret (s', None) -> in_error s = false ->
      make_insn s p (final_operands s p) = Ret x -> declared name_of s' (xs ++ [x]).

(** The instruction list is sorted by mnemonic and stable: whatever the order
    of the declarations, the list of [acpp_asm_end_insn] holds exactly the accepted
    instructions, sorted, and the instructions of one mnemonic are in the order
    of their declarations. *)
Theorem asm_insn_list_sorted name_of s xs : declared name_of s xs ->
  StronglySorted (key_le asm_mnemonic) (asm_insn_list s) /\ asm_insn_list s ≡ₚ xs /\
  forall m, List.filter (fun x => streq (asm_mnemonic x) m) (asm_insn_list s)
            = List.filter (fun x => streq (asm_mnemonic x) m) xs.
Proof.
  induction 1 as [|s xs s' _ IH Hl _|s xs s' p x _ (IH1 & IH2 & IH3) He Herr Hx].
  - repeat constructor.
  - rewrite Hl. exact IH.
  - destruct (end_insn_ok _ _ _ _ He) as [[Herr' _]|(x' & Hx' & Hl & _)]; [congruence|].
    assert (x' = x) as -> by congruence. rewrite Hl. split; [apply insert_after_sorted; assumption|]. split.
    + rewrite insert_after_perm, IH2. apply Permutation_cons_append.
    + intros m. rewrite insert_after_stable, !List.filter_app, IH3 by assumption. reflexivity.
Qed.

(** A state in which a complete instruction can be ended. *)
Definition ready (mnemonic : string) (pseudo : list string) (s : asm_state) : asm_state :=
  set_args 0 0 (set_current (MkCurrent (Some mnemonic) (Some "") (Some mnemonic) [] []) (set_pseudo pseudo 0 (acpp_asm_new_insn s))).

Lemma asm_insn_list_sorted_witness :
  exists s (xs : list ac_asm_insn), declared (fun _ => "i") s xs /\ List.map asm_mnemonic xs = ["sub"; "add"; "sub"] /\
    StronglySorted (key_le asm_mnemonic) (asm_insn_list s).
Proof.
  pose (end_ s m k := acpp_asm_end_insn (fun _ => "i") (ready m [] s) (Some k)).
  destruct (end_ zero_asm "sub" 0%nat) as [[s1 [e|]]| |] eqn:E1; try (vm_compute in E1; discriminate E1).
  destruct (end_ s1 "add" 1%nat) as [[s2 [e|]]| |] eqn:E2;
    try (vm_compute in E1; injection E1 as <-; vm_compute in E2; discriminate E2).
  destruct (end_ s2 "sub" 2%nat) as [[s3 [e|]]| |] eqn:E3;
    try (vm_compute in E1; injection E1 as <-; vm_compute in E2; injection E2 as <-; vm_compute in E3; discriminate E3).
  assert (Hd : declared (fun _ => "i") s3
     (([] ++ [MkAsm "sub" "" "sub" [] (Some 0%nat) [] [] 0]) ++ [MkAsm "add" "" "add" [] (Some 1%nat) [] [] 0]
      ++ [MkAsm "sub" "" "sub" [] (Some 2%nat) [] [] 0])).
  { rewrite app_assoc. eapply declared_end; [|exact E3|reflexivity|reflexivity].
    eapply declared_other; [eapply declared_end; [|exact E2|reflexivity|reflexivity]|reflexivity|reflexivity].
    eapply declared_other; [eapply declared_end; [|exact E1|reflexivity|reflexivity]|reflexivity|reflexivity].
    eapply declared_other; [apply declared_zero|reflexivity|reflexivity]. }
  eexists s3, _. split; [exact Hd|]. split; [reflexivity|]. apply (asm_insn_list_sorted _ _ _ Hd).
Defined.

(** A native instruction declared after a pseudo instruction that heads the
    list in source order crashes: the comparison by instruction name
    dereferences the pseudo instruction's NULL [insn]. *)
Theorem native_after_pseudo_crashes name_of s x l k :
  asm_insn_list_original_order s = x :: l -> asm_insn x = None ->
  num_args_found s = num_args_expected s -> in_error s = false ->
  cur_op_literal (current_insn s) <> None -> cur_unformatted (current_insn s) <> None ->
  cur_mnemonic (current_insn s) <> None ->
  acpp_asm_end_insn name_of s (Some k) = Crash.
Proof.
  intros Hl Hx Hargs Herr H1 H2 H3. unfold acpp_asm_end_insn, make_insn. rewrite Hargs, Z.eqb_refl, Herr. cbn [negb].
  destruct (cur_op_literal (current_insn s)); [|congruence].
  destruct (cur_unformatted (current_insn s)); [|congruence].
  destruct (cur_mnemonic (current_insn s)); [|congruence].
  destruct (pseudo_list s); cbn [of_option mbind exec_bind]; rewrite insert_insn_alphabetic, Hl; cbn;
    rewrite Hx; reflexivity.
Qed.

Lemma native_after_pseudo_crashes_witness :
  exists s, acpp_asm_end_insn (fun _ => "i") (ready "li" ["addi"] zero_asm) None = Ret (s, None) /\
    acpp_asm_end_insn (fun _ => "i") (ready "add" [] s) (Some 0%nat) = Crash.
Proof.
  destruct (acpp_asm_end_insn (fun _ => "i") (ready "li" ["addi"] zero_asm) None) as [[s [e|]]| |] eqn:E;
    try (vm_compute in E; discriminate E).
  exists s. split; [reflexivity|].
  eapply (native_after_pseudo_crashes _ (ready "add" [] s)); try (cbn; congruence);
    vm_compute in E; injection E as <-; reflexivity.
Defined.
