(* ===== verification/BinUtils.v ===== *)
(** * Services of the binary-utilities generator ([archc/src/acbinutils/utils.c])

    Queries over the formats of the description, the bit images of operand
    fields, the architecture name, and the printing the generator's files use.
    [int] and [unsigned] have 32 bits and [long] 64; a shift by 32 or more is
    undefined, [1 << 31] is the sign bit. *)
From S2P Require Import Prelude CString DecTypes AsmTypes.

(** ** Printing: [%d], [%u], [%x], [%X], [%08lX] *)

Definition fmt_d (z : Z) : string := pretty z.

Definition hex_digit (upper : bool) (d : Z) : ascii :=
  ascii_of_N (Z.to_N (d + (if d <? 10 then 48 else if upper then 55 else 87))).

Fixpoint hex_digits (fuel : nat) (upper : bool) (z : Z) (acc : string) : string :=
  match fuel with
  | O => acc
  | S n =>
      let acc := String (hex_digit upper (z mod 16)) acc in
      if z / 16 =? 0 then acc else hex_digits n upper (z / 16) acc
  end.

(** Sixteen digits are those of a [long]. *)
Definition fmt_x (upper : bool) (z : Z) : string := hex_digits 16 upper z "".

Definition zero_pad (n : nat) (s : string) : string :=
  String.concat "" (repeat "0" (n - String.length s)) +:+ s.

Definition quoted (s : string) : string := quote +:+ s +:+ quote.
Definition tab : string := String (ascii_of_nat 9) EmptyString.

Definition IND1 : string := "  ".
Definition IND2 : string := "    ".
Definition IND3 : string := "      ".
Definition IND4 : string := "        ".
Definition IND5 : string := "          ".

(** A file of the generator: [opens] tells whether [fopen] succeeds; [None] is
    the return value 0, otherwise the name and the text written. *)
Definition with_file (opens : string -> bool) (name : string) (text : exec string)
    : exec (option (string * string)) :=
  if opens name then t ← text; Ret (Some (name, t)) else Ret None.

(** The texts of successive list elements, one after the other. *)
Definition concat_map {A} (f : A -> string) (l : list A) : string := String.concat "" (map f l).

(** The same with the position of each element. *)
Fixpoint concat_mapi {A} (f : Z -> A -> string) (i : Z) (l : list A) : string :=
  match l with [] => "" | x :: l => f i x +:+ concat_mapi f (i + 1) l end.

(** ** Formats *)

Definition internal_error {A} : exec A := Exit ("Internal Error. Contact the ArchC Team." +:+ nl).

Fixpoint format_position (fname : string) (formatid : Z) (l : list ac_dec_format) : Z :=
  match l with
  | [] => -1
  | pfrm :: l => if streq fname (fmt_name pfrm) then s32 formatid else format_position fname (u32 (formatid + 1)) l
  end.

Definition get_format_id (format_ins_list : list ac_dec_format) (fname : string) : Z :=
  format_position fname 0 format_ins_list.

Definition get_arch_size (wordsize : Z) : Z := if wordsize =? 0 then 32 else u32 wordsize.

(** The instruction a syntax declaration points to. *)
Definition insn_of (instrs : list ac_dec_instr) (insn : ac_asm_insn) : exec (option ac_dec_instr) :=
  match asm_insn insn with
  | None => Ret None
  | Some k => match instrs !! k with Some i => Ret (Some i) | None => Crash end
  end.

Definition find_format_named (format_ins_list : list ac_dec_format) (fname : string) : option ac_dec_format :=
  list_first (fun pfrm => streq fname (fmt_name pfrm)) format_ins_list.

Definition get_insn_size (format_ins_list : list ac_dec_format) (instrs : list ac_dec_instr)
    (insn : ac_asm_insn) : exec Z :=
  i ← insn_of instrs insn;
  match i with
  | Some i =>
      match find_format_named format_ins_list (i_format i) with
      | Some pfrm => Ret (u32 (fmt_size pfrm))
      | None => internal_error
      end
  | None => internal_error
  end.

Definition set_arch_name (arch_name str : option string) : option string :=
  match str with None => None | Some s => Some s end.
Definition get_arch_name (arch_name : option string) : option string := arch_name.

Fixpoint max_size_from (max_size : Z) (l : list ac_dec_format) : Z :=
  match l with
  | [] => max_size
  | pfrm :: l => max_size_from (if fmt_size pfrm >? max_size then fmt_size pfrm else max_size) l
  end.
Definition get_max_format_size (format_ins_list : list ac_dec_format) : Z :=
  u32 (max_size_from 0 format_ins_list).

(** [pfrm->size] is read before the list is tested. *)
Definition get_variable_format_size (format_ins_list : list ac_dec_format) : exec Z :=
  match format_ins_list with
  | [] => Crash
  | pfrm :: _ =>
      match list_first (fun p => negb (fmt_size p =? fmt_size pfrm)) format_ins_list with
      | Some _ => Ret 1
      | None => Ret 0
      end
  end.

Fixpoint count_from (n : Z) (fields : list ac_dec_field) : Z :=
  match fields with [] => n | _ :: fields => count_from (u32 (n + 1)) fields end.
Definition get_format_number_fields (format : ac_dec_format) : Z := count_from 0 (fmt_fields format).

Fixpoint max_number_from (max_number_fields : Z) (l : list ac_dec_format) : Z :=
  match l with
  | [] => max_number_fields
  | pfrm :: l =>
      let nt := get_format_number_fields pfrm in
      max_number_from (if nt >? max_number_fields then nt else max_number_fields) l
  end.
Definition get_max_number_fields (format_ins_list : list ac_dec_format) : Z := max_number_from 0 format_ins_list.

(** ** Bit images of fields *)

(** [a << n] on 32 bits. *)
Definition shl32 (a n : Z) : exec Z := if (0 <=? n) && (n <? 32) then Ret (u32 (Z.shiftl a n)) else Crash.
Definition shr32 (a n : Z) : exec Z := if (0 <=? n) && (n <? 32) then Ret (Z.shiftr a n) else Crash.

Fixpoint encode_fields_from (encoding : Z) (fields : list ac_asm_insn_field) : exec Z :=
  match fields with
  | [] => Ret encoding
  | fieldP :: fields => b ← shl32 1 (af_id fieldP); encode_fields_from (Z.lor encoding b) fields
  end.
Definition encode_fields (fields : list ac_asm_insn_field) : exec Z := encode_fields_from 0 fields.

Fixpoint encode_positions_from (encoding insn_size : Z) (fields : list ac_asm_insn_field) : exec Z :=
  match fields with
  | [] => Ret encoding
  | fieldP :: fields =>
      let startbit := u32 (insn_size - af_first_bit fieldP - 1) in
      let endbit := u32 (startbit + af_size fieldP - 1) in
      b ← shl32 1 startbit;
      e ← shl32 1 endbit;
      encode_positions_from (Z.lor encoding (Z.lor b e)) insn_size fields
  end.
Definition encode_fields_positions (fields : list ac_asm_insn_field) (insn_size : Z) : exec Z :=
  encode_positions_from 0 insn_size fields.

(** ** Lemmas *)

Lemma list_first_position fname l : forall n k,
  0 <= n -> n + Z.of_nat (length l) < 2 ^ 31 ->
  format_position fname n l = k -> 0 <= k ->
  exists f, l !! Z.to_nat (k - n) = Some f /\ fmt_name f = fname /\ n <= k < n + Z.of_nat (length l).
Proof.
  induction l as [|f l IH]; intros n k Hn Hl; cbn [format_position length]; [lia|].
  destruct (streq fname (fmt_name f)) eqn:E.
  - cbn [length] in Hl. rewrite swrap_small by lia. intros <- _. exists f.
    rewrite Z.sub_diag. apply streq_spec in E. repeat split; [congruence|lia..].
  - cbn [length] in Hl. rewrite uwrap_small by lia. intros Hk H0.
    destruct (IH (n + 1) k ltac:(lia) ltac:(lia) Hk H0) as (g & Hg & Hname & Hr).
    exists g. replace (Z.to_nat (k - n)) with (S (Z.to_nat (k - (n + 1)))) by lia.
    repeat split; [exact Hg|exact Hname|lia..].
Qed.

Lemma shl32_ok a n : 0 <= n < 32 -> shl32 a n = Ret (u32 (Z.shiftl a n)).
Proof. intros. unfold shl32. rewrite (proj2 (Z.leb_le _ _)), (proj2 (Z.ltb_lt _ _)) by lia. reflexivity. Qed.

Lemma shr32_ok a n : 0 <= n < 32 -> shr32 a n = Ret (Z.shiftr a n).
Proof. intros. unfold shr32. rewrite (proj2 (Z.leb_le _ _)), (proj2 (Z.ltb_lt _ _)) by lia. reflexivity. Qed.

(** Bit [i] of the image is set exactly when a field of the chain has id [i]. *)
Lemma encode_fields_from_bits fs : forall e r i, 0 <= i < 32 ->
  encode_fields_from e fs = Ret r ->
  Z.testbit r i = Z.testbit e i || existsb (fun f => af_id f =? i) fs.
Proof.
  induction fs as [|f fs IH]; cbn [encode_fields_from existsb]; intros e r i Hi H.
  - injection H as <-. rewrite orb_false_r. reflexivity.
  - unfold shl32 in H. destruct ((0 <=? af_id f) && (af_id f <? 32)) eqn:E; [|discriminate].
    apply andb_prop in E as [E1%Z.leb_le E2%Z.ltb_lt].
    rewrite (IH _ _ i Hi H), Z.lor_spec, testbit_uwrap, (proj2 (Z.ltb_lt i 32)) by lia.
    rewrite Z.shiftl_1_l, Z.pow2_bits_eqb by lia. rewrite orb_assoc. reflexivity.
Qed.
