(* ===== verification/BinOpcodes.v ===== *)
(** * Opcode library files ([archc/src/acbinutils/opcodes.c])

    The operand types and modifiers collected from the instruction list, the
    opcode table with its argument strings and bit images, and the other tables
    of the opcodes library.  The argument string is built in a buffer of 100
    characters; writing past its end is a crash. *)
From S2P Require Import Prelude CString DecTypes AsmTypes BinUtils.

(** ** Operand and modifier lists *)

(** [oper_list]. *)
Record oper := MkOper {
  o_id : Z;
  o_name : string;
  o_type : operand_type;
  o_mod_type : Z;
  o_mod_addend : Z;
  o_is_list : bool;
  o_fields : Z;
  o_format_id : Z;
  o_reloc_id : Z;
  o_fields_positions : Z
}.

(** [mod_list]. *)
Record mod_entry := MkMod { m_id : Z; m_name : string }.

Definition set_o_id (id : Z) (o : oper) : oper :=
  MkOper id (o_name o) (o_type o) (o_mod_type o) (o_mod_addend o) (o_is_list o) (o_fields o)
    (o_format_id o) (o_reloc_id o) (o_fields_positions o).
Definition set_o_reloc_id (id : Z) (o : oper) : oper :=
  MkOper (o_id o) (o_name o) (o_type o) (o_mod_type o) (o_mod_addend o) (o_is_list o) (o_fields o)
    (o_format_id o) id (o_fields_positions o).
Definition set_asm_operands (l : list ac_operand) (a : ac_asm_insn) : ac_asm_insn :=
  MkAsm (asm_mnemonic a) (asm_op_literal a) (asm_op_literal_unformatted a) l (asm_insn a)
    (asm_const_fields a) (asm_pseudolist a) (asm_num_pseudo a).
Definition set_mod_type (t : Z) (m : ac_modifier) : ac_modifier := MkModifier (mod_name m) t (mod_addend m).

(** The elements of a list, each with a state threaded from left to right. *)
Fixpoint thread {S A} (f : S -> A -> exec (S * A)) (s : S) (l : list A) : exec (S * list A) :=
  match l with
  | [] => Ret (s, [])
  | x :: l =>
      '(s, y) ← f s x;
      '(s, l) ← thread f s l;
      Ret (s, y :: l)
  end.

Definition modifier_of (ml : list mod_entry) (name : string) : list mod_entry * Z :=
  match list_first (fun m => streq (m_name m) name) ml with
  | Some m => (ml, m_id m)
  | None => (ml ++ [MkMod (Z.of_nat (length ml)) name], Z.of_nat (length ml))
  end.

Definition modifier_operand (ml : list mod_entry) (opP : ac_operand) : exec (list mod_entry * ac_operand) :=
  match mod_name (op_modifier opP) with
  | None => Ret (ml, set_op_modifier (set_mod_type 0 (op_modifier opP)) opP)
  | Some name =>
      let '(ml, t) := modifier_of ml name in
      Ret (ml, set_op_modifier (set_mod_type t (op_modifier opP)) opP)
  end.

Definition modifier_insn (ml : list mod_entry) (asml : ac_asm_insn) : exec (list mod_entry * ac_asm_insn) :=
  '(ml, ops) ← thread modifier_operand ml (asm_operands asml);
  Ret (ml, set_asm_operands ops asml).

Definition create_modifier_list (asml : list ac_asm_insn) : exec (list mod_entry * list ac_asm_insn) :=
  thread modifier_insn [MkMod 0 "default"] asml.

(** The fields [find_operand] compares. *)
Definition oper_eqb (o opl : oper) : bool :=
  streq (o_name o) (o_name opl) && bool_decide (o_type o = o_type opl)
  && Bool.eqb (o_is_list o) (o_is_list opl) && (o_mod_type o =? o_mod_type opl)
  && (o_mod_addend o =? o_mod_addend opl) && (o_fields o =? o_fields opl)
  && (o_format_id o =? o_format_id opl).

Definition find_operand (operand_list : list oper) (opl : oper) : option oper :=
  list_first (fun o => oper_eqb o opl) operand_list.

(** An operand is entered with the number after the last one's. *)
Definition enter_operand (operand_list : list oper) (opl : oper) : list oper * Z :=
  match find_operand operand_list opl with
  | Some o => (operand_list, o_id o)
  | None =>
      let id := match last operand_list with None => 0 | Some o => u32 (o_id o + 1) end in
      (operand_list ++ [set_o_id id opl], id)
  end.

Section Opcodes.
Context (format_ins_list : list ac_dec_format) (instrs : list ac_dec_instr).

Definition new_oper (asml : ac_asm_insn) (i : ac_dec_instr) (opP : ac_operand) : exec oper :=
  fields ← encode_fields (op_fields opP);
  size ← get_insn_size format_ins_list instrs asml;
  positions ← encode_fields_positions (op_fields opP) size;
  Ret (MkOper 0 (op_str opP) (op_type opP) (mod_type (op_modifier opP)) (mod_addend (op_modifier opP))
         (op_is_list opP) fields (u32 (get_format_id format_ins_list (i_format i))) 0 positions).

Definition operand_step (asml : ac_asm_insn) (i : ac_dec_instr) (ol : list oper) (opP : ac_operand)
    : exec (list oper * ac_operand) :=
  o ← new_oper asml i opP;
  let '(ol, id) := enter_operand ol o in
  Ret (ol, set_op_oper_id (s32 id) opP).

(** Only native instructions are visited. *)
Definition operand_insn (ol : list oper) (asml : ac_asm_insn) : exec (list oper * ac_asm_insn) :=
  i ← insn_of instrs asml;
  match i with
  | None => Ret (ol, asml)
  | Some i =>
      '(ol, ops) ← thread (operand_step asml i) ol (asm_operands asml);
      Ret (ol, set_asm_operands ops asml)
  end.

Definition create_operand_list (operand_list : list oper) (asml : list ac_asm_insn)
    : exec (list mod_entry * list oper * list ac_asm_insn) :=
  '(ml, asml) ← create_modifier_list asml;
  '(ol, asml) ← thread operand_insn operand_list asml;
  Ret (ml, ol, asml).

Fixpoint update_oper_list (oper_id reloc_id : Z) (operand_list : list oper) : exec (list oper) :=
  match operand_list with
  | [] => internal_error
  | o :: l =>
      if o_id o =? u32 oper_id then Ret (set_o_reloc_id reloc_id o :: l)
      else l ← update_oper_list oper_id reloc_id l; Ret (o :: l)
  end.

(** ** Argument strings *)

Definition get_compatible_oper_id (operand_list : list oper) (opt : operand_type) : Z :=
  match list_first (fun o => bool_decide (o_type o = opt)) operand_list with
  | Some o => s32 (o_id o)
  | None => -1
  end.

(** The buffer has [ARGS_SIZE] characters. *)
Definition ARGS_SIZE : nat := 100.
Definition put_arg (out t : string) : exec string :=
  if (String.length out + String.length t <=? ARGS_SIZE)%nat then Ret (out +:+ t) else Crash.
(** [*s = '\0'] and [sprintf] also write a NUL. *)
Definition put_nul (out t : string) : exec string :=
  if (String.length out + String.length t + 1 <=? ARGS_SIZE)%nat then Ret t else Crash.

(** A pseudo operand gets the number of an operand of its type. *)
Definition resolve_operand (operand_list : list oper) (opP : ac_operand) : ac_operand :=
  if op_oper_id opP =? -1 then set_op_oper_id (get_compatible_oper_id operand_list (op_type opP)) opP else opP.

(** After [sprintf] the pointer moves behind the digits only. *)
Definition put_oper_id (out : string) (id : Z) : exec string :=
  t ← put_nul out (fmt_d id);
  put_arg (out +:+ fst (span isdigit t)) ":".

Fixpoint operand_string (ol : list oper) (out lit : string) (ops : list ac_operand)
    : exec (string * list ac_operand) :=
  match lit with
  | EmptyString => _ ← put_nul out ""; Ret (out, ops)
  | String c lit' =>
      if is_char "%" c then
        out ← put_arg out "%";
        match ops with
        | [] => Crash
        | opP :: ops =>
            let opP := resolve_operand ol opP in
            out ← put_oper_id out (op_oper_id opP);
            '(out, ops) ← operand_string ol out lit' ops;
            Ret (out, opP :: ops)
        end
      else if is_char "\" c then
        out ← put_arg out "\";
        match lit' with
        | String c2 lit2 =>
            if is_char "\" c2 then
              out ← put_arg out "\";
              match lit2 with
              | String c3 lit3 =>
                  if is_char "%" c3 then
                    out ← put_arg out "%";
                    operand_string ol out lit3 ops
                  else operand_string ol out lit2 ops
              | EmptyString => operand_string ol out lit2 ops
              end
            else operand_string ol out lit' ops
        | EmptyString => operand_string ol out lit' ops
        end
      else
        out ← put_arg out (String c "");
        operand_string ol out lit' ops
  end.

Definition create_operand_string (ol : list oper) (insn : ac_asm_insn) : exec (string * ac_asm_insn) :=
  '(text, ops) ← operand_string ol "" (asm_op_literal insn) (asm_operands insn);
  Ret (text, set_asm_operands ops insn).

(** ** Bit images *)

Definition MAX_UINT : Z := 4294967295.

Definition encode_insn_field (field_value insn_size fbit fsize : Z) : exec Z :=
  mask1 ← shl32 MAX_UINT (u32 (insn_size - (fbit + 1)));
  mask2 ← shr32 MAX_UINT (u32 (fbit + 1 - fsize));
  v ← shl32 field_value (u32 (insn_size - (fbit + 1)));
  Ret (Z.land v (Z.land mask1 mask2)).

Definition all_ones (fsize : Z) : Z := Nat.iter (Z.to_nat fsize) (fun v => u32 (u32 (Z.shiftl v 1) + 1)) 0.

Definition encode_dmask_field (insn_size fbit fsize : Z) : exec Z :=
  mask1 ← shl32 MAX_UINT (u32 (insn_size - (fbit + 1)));
  mask2 ← shr32 MAX_UINT (u32 (fbit + 1 - fsize));
  v ← shl32 (all_ones fsize) (u32 (insn_size - (fbit + 1)));
  Ret (Z.land v (Z.land mask1 mask2)).

(** A field value to put in the image: value, last bit, size. *)
Definition bit_field : Type := Z * Z * Z.

Definition add_field (size : Z) (acc : Z * Z) (f : bit_field) : exec (Z * Z) :=
  let '(v, fbit, fsize) := f in
  i ← encode_insn_field v size fbit fsize;
  m ← encode_dmask_field size fbit fsize;
  Ret (Z.lor acc.1 i, Z.lor acc.2 m).

Fixpoint add_fields (size : Z) (acc : Z * Z) (l : list bit_field) : exec (Z * Z) :=
  match l with [] => Ret acc | f :: l => acc ← add_field size acc f; add_fields size acc l end.

(** The decode list names fields of the format. *)
Fixpoint add_dec_fields (pfrm : ac_dec_format) (acc : Z * Z) (l : list ac_dec_list) : exec (Z * Z) :=
  match l with
  | [] => Ret acc
  | pdl :: l =>
      match list_first (fun pdf => streq (dl_name pdl) (f_name pdf)) (fmt_fields pfrm) with
      | None => internal_error
      | Some pdf =>
          acc ← add_field (u32 (fmt_size pfrm)) acc (u32 (dl_value pdl), u32 (f_first_bit pdf), u32 (f_size pdf));
          add_dec_fields pfrm acc l
      end
  end.

Definition const_bits (c : ac_const_field) : bit_field :=
  (cst_value c, af_first_bit (cst_field c), af_size (cst_field c)).

(** [base_image] and [dmask] of a native instruction. *)
Definition insn_image (pfrm : ac_dec_format) (i : ac_dec_instr) (a : ac_asm_insn) : exec (Z * Z) :=
  acc ← add_dec_fields pfrm (0, 0) (i_dec_list i);
  add_fields (u32 (fmt_size pfrm)) acc (map const_bits (asm_const_fields a)).

(** ** The opcode table *)

Record opcode_row := MkRow {
  row_mnemonic : string;
  row_args : string;
  row_image : Z;
  row_format_id : Z;
  row_pseudo_idx : Z;
  row_dmask : Z
}.

Definition PSEUDO_FORMAT : Z := 99.

Definition opcode_row_of (ol : list oper) (pseudo_idx : Z) (asml : ac_asm_insn)
    : exec (opcode_row * Z * ac_asm_insn) :=
  '(args, asml) ← create_operand_string ol asml;
  i ← insn_of instrs asml;
  '(format_id, image, dmask) ←
    match i with
    | None => Ret (PSEUDO_FORMAT, 0, 0)
    | Some i =>
        match find_format_named format_ins_list (i_format i) with
        | None => internal_error
        | Some pfrm =>
            '(image, dmask) ← insn_image pfrm i asml;
            Ret (get_format_id format_ins_list (i_format i), image, dmask)
        end
    end;
  match asm_pseudolist asml with
  | [] => Ret (MkRow (asm_mnemonic asml) args image format_id 0 dmask, pseudo_idx, asml)
  | _ => Ret (MkRow (asm_mnemonic asml) args image format_id pseudo_idx dmask,
              s64 (pseudo_idx + (asm_num_pseudo asml + 1)), asml)
  end.

Fixpoint opcode_rows (ol : list oper) (pseudo_idx : Z) (asml : list ac_asm_insn)
    : exec (list opcode_row * list ac_asm_insn) :=
  match asml with
  | [] => Ret ([], [])
  | a :: l =>
      '(r, pseudo_idx, a) ← opcode_row_of ol pseudo_idx a;
      '(rows, l) ← opcode_rows ol pseudo_idx l;
      Ret (r :: rows, a :: l)
  end.

Definition print_row (r : opcode_row) : string :=
  IND1 +:+ "{" +:+ quoted (row_mnemonic r) +:+ "," +:+ tab
  +:+ quoted (row_args r) +:+ "," +:+ tab
  +:+ "0x" +:+ zero_pad 8 (fmt_x true (row_image r)) +:+ "," +:+ tab
  +:+ fmt_d (row_format_id r) +:+ "," +:+ tab
  +:+ fmt_d (row_pseudo_idx r)
  +:+ "," +:+ tab +:+ "0"
  +:+ ", " +:+ tab +:+ "0x" +:+ zero_pad 8 (fmt_x true (row_dmask r))
  +:+ "}," +:+ nl.

(** The instruction list comes back with the pseudo operands resolved. *)
Definition CreateOpcodeTable (opens : string -> bool) (table_filename : string) (ol : list oper)
    (asml : list ac_asm_insn) : exec (option (string * string) * list ac_asm_insn) :=
  if opens table_filename then
    '(rows, asml) ← opcode_rows ol 1 asml;
    Ret (Some (table_filename, concat_map print_row rows), asml)
  else Ret (None, asml).
End Opcodes.

(** ** The other tables *)

Definition symbol_row (s : ac_asm_symbol) : string :=
  IND1 +:+ "{" +:+ quoted (sym_symbol s) +:+ "," +:+ tab +:+ quoted (sym_map s) +:+ "," +:+ tab
  +:+ fmt_d (sym_value s) +:+ "}," +:+ nl.

Definition CreateAsmSymbolTable (opens : string -> bool) (symtab_filename : string)
    (symbols : list ac_asm_symbol) : exec (option (string * string)) :=
  with_file opens symtab_filename (Ret (concat_map symbol_row symbols)).

(** The entries of the pseudo table; [None] is printed as [NULL]. *)
Definition pseudo_entries (asml : list ac_asm_insn) : list (option string) :=
  None :: concat (map (fun a => match asm_pseudolist a with
                                | [] => []
                                | pl => map Some pl ++ [None]
                                end) asml).

Definition pseudo_text (e : option string) : string :=
  IND1 +:+ match e with Some str => quoted str | None => "NULL" end.

Definition CreatePseudoOpsTable (opens : string -> bool) (optable_filename : string)
    (asml : list ac_asm_insn) : exec (option (string * string)) :=
  with_file opens optable_filename (Ret (String.concat ("," +:+ nl) (map pseudo_text (pseudo_entries asml)))).

Definition type_number (t : operand_type) : Z :=
  match t with op_userdef => 0 | op_exp => 1 | op_imm => 2 | op_addr => 3 end.

(** The first 36 relocation numbers are reserved. *)
Definition RELOC_BASE : Z := 36.

Definition operand_row (o : oper) : string :=
  IND1 +:+ "{" +:+ quoted (o_name o) +:+ "," +:+ tab +:+ " // (" +:+ fmt_d (s32 (o_id o)) +:+ ")" +:+ nl +:+ tab
  +:+ fmt_d (type_number (o_type o)) +:+ "," +:+ tab
  +:+ fmt_d (o_mod_type o) +:+ "," +:+ tab
  +:+ fmt_d (if o_is_list o then 1 else 0) +:+ "," +:+ tab
  +:+ fmt_d (o_mod_addend o) +:+ "," +:+ tab
  +:+ fmt_d (o_fields o) +:+ "," +:+ tab
  +:+ fmt_d (o_format_id o) +:+ "," +:+ tab
  +:+ fmt_d (u32 (o_reloc_id o + RELOC_BASE)) +:+ "," +:+ tab
  +:+ "0x" +:+ zero_pad 8 (fmt_x false (o_fields_positions o)) +:+ " "
  +:+ "}," +:+ nl.

Definition CreateOperandTable (opens : string -> bool) (optable_filename : string)
    (operand_list : list oper) : exec (option (string * string)) :=
  with_file opens optable_filename (Ret (concat_map operand_row operand_list)).

Definition modifier_item (m : mod_entry) : string := "mod_" +:+ m_name m +:+ " = " +:+ fmt_d (m_id m).

(** The head of the list is read without a test. *)
Definition CreateModifierEnum (opens : string -> bool) (filename : string)
    (modifier_list : list mod_entry) : exec (option (string * string)) :=
  with_file opens filename
    match modifier_list with
    | [] => Crash
    | modifier :: l =>
        Ret ("typedef enum {" +:+ modifier_item modifier
             +:+ concat_map (fun m => ", " +:+ modifier_item m) l
             +:+ "} operand_modifier;" +:+ nl)
    end.

Definition CreateModifierProt (opens : string -> bool) (filename : string)
    (modifier_list : list mod_entry) : exec (option (string * string)) :=
  with_file opens filename (Ret (concat_map (fun m =>
    "extern void modifier_" +:+ m_name m +:+ "_encode(mod_parms *reloc);" +:+ nl
    +:+ "extern void modifier_" +:+ m_name m +:+ "_decode(mod_parms *reloc);" +:+ nl) modifier_list)).

Definition format_struct (pfrm : ac_dec_format) : string :=
  IND2 +:+ "struct {" +:+ nl
  +:+ concat_map (fun f => IND3 +:+ " unsigned int " +:+ f_name f +:+ ";" +:+ nl) (fmt_fields pfrm)
  +:+ IND2 +:+ "} " +:+ fmt_name pfrm +:+ ";" +:+ nl.

Definition CreateFormatStruct (opens : string -> bool) (filename : string)
    (format_ins_list : list ac_dec_format) : exec (option (string * string)) :=
  with_file opens filename (Ret (concat_map format_struct format_ins_list)).

Definition CreateModifierPtr (opens : string -> bool) (filename : string) (which : Z)
    (modifier_list : list mod_entry) : exec (option (string * string)) :=
  with_file opens filename (Ret (concat_map (fun m =>
    if which =? 0 then "&modifier_" +:+ m_name m +:+ "_encode," +:+ nl
    else "&modifier_" +:+ m_name m +:+ "_decode," +:+ nl) modifier_list)).
