(* ===== verification/BinOpcodesOk.v ===== *)
(** * The opcode tables are correct

    The operand and modifier tables are numbered, free of duplicates and exactly
    what the instructions need; argument strings keep the literal; the mask and
    the image of an instruction select the words that hold its fields; the pseudo
    table has the members of a pseudo instruction at its index. *)
From S2P Require Import Prelude CString DecTypes AsmTypes BinUtils BinOpcodes.

(** ** Lists with a threaded state *)

Section Thread.
Context {S A : Type} (f : S -> A -> exec (S * A)).

(** An invariant of the state, a preorder on states and what a step establishes. *)
Lemma thread_inv (R : S -> S -> Prop) (Q : S -> A -> A -> Prop) :
  PreOrder R ->
  (forall s s' x y, R s s' -> Q s x y -> Q s' x y) ->
  (forall s x s' y, f s x = Ret (s', y) -> R s s' /\ Q s' x y) ->
  forall l s s' l', thread f s l = Ret (s', l') -> R s s' /\ Forall2 (Q s') l l'.
Proof.
  intros HR Hmono Hf. induction l as [|x l IH]; intros s s' l'; cbn [thread]; intros H.
  - injection H as <- <-. split; [reflexivity|constructor].
  - exec_inv H. destruct a as [s1 y]. exec_inv H. destruct a as [s2 l2]. injection H as <- <-.
    apply Hf in E as [H1 H2]. apply IH in E0 as [H3 H4].
    split; [etransitivity; eassumption|]. constructor; [eapply Hmono; eassumption|assumption].
Qed.

Lemma thread_keeps (I : S -> Prop) :
  (forall s x s' y, f s x = Ret (s', y) -> I s -> I s') ->
  forall l s s' l', thread f s l = Ret (s', l') -> I s -> I s'.
Proof.
  intros Hf. induction l as [|x l IH]; intros s s' l'; cbn [thread]; intros H HI.
  - injection H as <- <-. assumption.
  - exec_inv H. destruct a as [s1 y]. exec_inv H. destruct a as [s2 l2]. injection H as <- <-.
    eapply IH; [eassumption|]. eapply Hf; eassumption.
Qed.
End Thread.

(** What a threaded list of entries contains comes from the start or from one
    of the elements. *)
Lemma thread_new {A T} (f : list T -> A -> exec (list T * A)) (P : T -> A -> Prop) :
  (forall s x s' y, f s x = Ret (s', y) -> forall o, o ∈ s' -> o ∈ s \/ P o y) ->
  forall l s s' l', thread f s l = Ret (s', l') -> forall o, o ∈ s' -> o ∈ s \/ exists y, y ∈ l' /\ P o y.
Proof.
  intros Hf. induction l as [|x l IH]; intros s s' l'; cbn [thread]; intros H o Ho.
  - injection H as <- <-. left. assumption.
  - exec_inv H. destruct a as [s1 y]. exec_inv H. destruct a as [s2 l2]. injection H as <- <-.
    destruct (IH _ _ _ E0 o Ho) as [H1|(z & Hz & H1)].
    + destruct (Hf _ _ _ _ E o H1) as [H2|H2]; [left; assumption|]. right. exists y. split; [left|assumption].
    + right. exists z. split; [right|]; assumption.
Qed.

Lemma prefix_lookup {T} (l l' : list T) k x : l `prefix_of` l' -> l !! k = Some x -> l' !! k = Some x.
Proof. apply prefix_lookup_Some_2 || (intros [m ->]; apply lookup_app_l_Some). Qed.

(** ** Numbered tables without duplicates *)

Section Table.
Context {T K : Type} (id : T -> Z) (key : T -> K).

Definition numbered (l : list T) : Prop := forall k x, l !! k = Some x -> id x = Z.of_nat k.
Definition table_ok (l : list T) : Prop := numbered l /\ NoDup (map key l).

Lemma table_ok_prefix l l' : l `prefix_of` l' -> table_ok l' -> table_ok l.
Proof.
  intros [m ->] [Hn Hd]. split.
  - intros k x Hk. apply Hn. apply lookup_app_l_Some. assumption.
  - rewrite map_app in Hd. apply NoDup_app in Hd as [Hd _]. assumption.
Qed.

Lemma table_ok_snoc l x :
  table_ok l -> id x = Z.of_nat (length l) -> (forall y, y ∈ l -> key y <> key x) -> table_ok (l ++ [x]).
Proof.
  intros [Hn Hd] Hid Hnew. split.
  - intros k y [Hk|[-> ->]]%lookup_snoc_Some; [apply Hn; tauto|assumption].
  - rewrite map_app. cbn [map]. apply NoDup_app. split; [assumption|]. split; [|apply NoDup_singleton].
    intros z Hz Hzx%list_elem_of_singleton. subst z. apply list_elem_of_fmap in Hz as (y & E & Hy).
    eapply Hnew; eauto.
Qed.

Lemma table_last l : table_ok l -> match last l with Some x => id x + 1 | None => 0 end = Z.of_nat (length l).
Proof.
  intros [Hn _]. destruct l as [|x l _] using rev_ind; [reflexivity|]. rewrite last_snoc.
  rewrite (Hn (length l) x) by apply list_lookup_middle, eq_refl. rewrite length_app. cbn. lia.
Qed.

Lemma table_entry l x : table_ok l -> x ∈ l -> 0 <= id x < Z.of_nat (length l) /\ l !! Z.to_nat (id x) = Some x.
Proof.
  intros [Hn _] [k Hk]%list_elem_of_lookup. rewrite (Hn _ _ Hk), Nat2Z.id. apply lookup_lt_Some in Hk as Hl.
  split; [lia|assumption].
Qed.
End Table.

(** ** Modifiers *)

Definition modifier_assigned (ml : list mod_entry) (opP : ac_operand) : Prop :=
  match mod_name (op_modifier opP) with
  | None => mod_type (op_modifier opP) = 0
  | Some n => 0 <= mod_type (op_modifier opP)
      /\ exists m, ml !! Z.to_nat (mod_type (op_modifier opP)) = Some m /\ m_name m = n
  end.

Definition same_but_modifier (x y : ac_operand) : Prop :=
  exists t, y = set_op_modifier (set_mod_type t (op_modifier x)) x.

Notation mods_ok := (table_ok m_id m_name).

Lemma modifier_of_ok ml name ml' t : modifier_of ml name = (ml', t) ->
  ml `prefix_of` ml' /\ (mods_ok ml -> mods_ok ml') /\
  (mods_ok ml -> 0 <= t /\ exists m, ml' !! Z.to_nat t = Some m /\ m_name m = name).
Proof.
  unfold modifier_of. destruct (list_first _ ml) as [m|] eqn:E; intros [= <- <-].
  - apply list_first_Some in E as [Hm Hn%streq_spec]. split; [reflexivity|]. split; [tauto|]. intros Hok.
    destruct (table_entry _ _ _ _ Hok Hm) as [Hr Hl]. split; [lia|]. eauto.
  - rewrite list_first_None in E. split; [apply prefix_app_r; reflexivity|]. split.
    + intros Hok. apply table_ok_snoc; [assumption|reflexivity|]. intros y Hy. cbn. apply E in Hy.
      apply streq_false in Hy. assumption.
    + intros Hok. split; [lia|]. rewrite Nat2Z.id. exists (MkMod (Z.of_nat (length ml)) name).
      split; [apply list_lookup_middle, eq_refl|reflexivity].
Qed.

Lemma modifier_operand_ok ml x ml' y : modifier_operand ml x = Ret (ml', y) ->
  (ml `prefix_of` ml' /\ (mods_ok ml -> mods_ok ml')) /\
  same_but_modifier x y /\ (mods_ok ml' -> modifier_assigned ml' y).
Proof.
  unfold modifier_operand. destruct (mod_name (op_modifier x)) as [n|] eqn:En.
  - destruct (modifier_of ml n) as [ml1 t] eqn:Em. intros [= <- <-].
    apply modifier_of_ok in Em as (Hp & Hk & Ht). split; [auto|]. split; [eexists; reflexivity|].
    intros Hok. unfold modifier_assigned. cbn. rewrite En. apply Ht. eapply table_ok_prefix; eassumption.
  - intros [= <- <-]. split; [split; [reflexivity|tauto]|]. split; [eexists; reflexivity|].
    intros _. unfold modifier_assigned. cbn. rewrite En. reflexivity.
Qed.

Definition grown (ml ml' : list mod_entry) : Prop := ml `prefix_of` ml' /\ (mods_ok ml -> mods_ok ml').

#[export] Instance grown_preorder : PreOrder grown.
Proof.
  split; [split; [reflexivity|tauto]|]. intros a b c [H1 H2] [H3 H4].
  split; [etransitivity; eassumption|tauto].
Qed.

Lemma modifier_assigned_mono ml ml' y : ml `prefix_of` ml' -> modifier_assigned ml y -> modifier_assigned ml' y.
Proof.
  intros Hp. unfold modifier_assigned. destruct (mod_name _); [|tauto].
  intros (H0 & m & Hm & Hn). split; [assumption|]. exists m. split; [eapply prefix_lookup; eassumption|assumption].
Qed.

Lemma modifier_insn_ok ml x ml' y : modifier_insn ml x = Ret (ml', y) ->
  grown ml ml' /\
  exists ops, y = set_asm_operands ops x /\ Forall2 same_but_modifier (asm_operands x) ops /\
    (mods_ok ml' -> Forall (modifier_assigned ml') ops).
Proof.
  unfold modifier_insn. intros H. exec_inv H. destruct a as [s ops]. injection H as <- <-.
  assert (HQ : grown ml s /\ Forall2 (fun x y => same_but_modifier x y /\ (mods_ok s -> modifier_assigned s y))
                               (asm_operands x) ops).
  { revert E. apply (thread_inv modifier_operand grown
      (fun s x y => same_but_modifier x y /\ (mods_ok s -> modifier_assigned s y))); [exact _| |exact modifier_operand_ok].
    intros s1 s2 a b [Hp Hk] [H1 H2]. split; [assumption|]. intros Hok.
    eapply modifier_assigned_mono; [eassumption|]. apply H2. eapply table_ok_prefix; eassumption. }
  destruct HQ as [HR HQ]. split; [assumption|]. exists ops. split; [reflexivity|]. split.
  - eapply Forall2_impl; [eassumption|]. cbn. tauto.
  - intros Hok. eapply Forall2_Forall_r; [eassumption|]. eapply Forall_true. cbn. tauto.
Qed.

Lemma thread_total {S A} (f : S -> A -> exec (S * A)) l :
  (forall s x, x ∈ l -> exists r, f s x = Ret r) -> forall s, exists r, thread f s l = Ret r.
Proof.
  intros Hf. induction l as [|x l IH]; intros s; cbn [thread]; [eauto|].
  destruct (Hf s x ltac:(left)) as [[s1 y] ->]. cbn [mbind exec_bind].
  destruct (IH ltac:(intros; apply Hf; right; assumption) s1) as [[s2 l2] ->]. cbn. eauto.
Qed.

Lemma modifier_insn_total ml a : exists r, modifier_insn ml a = Ret r.
Proof.
  unfold modifier_insn. destruct (thread_total modifier_operand (asm_operands a)) with (s := ml) as [[s ops] ->].
  - intros s x _. unfold modifier_operand. destruct (mod_name _); [destruct (modifier_of _ _)|]; eauto.
  - cbn. eauto.
Qed.

Lemma modifier_operand_new s x s' y : modifier_operand s x = Ret (s', y) ->
  forall m, m ∈ s' -> m ∈ s \/ mod_name (op_modifier y) = Some (m_name m).
Proof.
  unfold modifier_operand, modifier_of. intros H m Hm. destruct (mod_name (op_modifier x)) as [n|] eqn:En.
  - destruct (list_first _ s); injection H as <- <-; [left; assumption|].
    apply elem_of_app in Hm as [Hm| ->%list_elem_of_singleton]; [left; assumption|]. right. exact En.
  - injection H as <- <-. left. assumption.
Qed.

(** The modifier table: [create_modifier_list] always succeeds; its table is
    numbered from 0 with ["default"] first, has no name twice and only names the
    operands use; every operand gets the number of its modifier, or 0 without
    one, and nothing else in the instructions changes. *)
Theorem modifier_table_exact asml : exists ml asml',
  create_modifier_list asml = Ret (ml, asml') /\
  table_ok m_id m_name ml /\ ml !! 0%nat = Some (MkMod 0 "default") /\
  (forall m, m ∈ ml -> m = MkMod 0 "default" \/
     exists a opP, a ∈ asml' /\ opP ∈ asm_operands a /\ mod_name (op_modifier opP) = Some (m_name m)) /\
  Forall2 (fun a a' => exists ops, a' = set_asm_operands ops a /\
    Forall2 same_but_modifier (asm_operands a) ops /\ Forall (modifier_assigned ml) ops) asml asml'.
Proof.
  unfold create_modifier_list.
  destruct (thread_total modifier_insn asml (fun s a _ => modifier_insn_total s a) [MkMod 0 "default"])
    as [[ml asml'] H].
  exists ml, asml'. split; [assumption|].
  destruct (thread_inv modifier_insn grown (fun ml x y => exists ops, y = set_asm_operands ops x /\
    Forall2 same_but_modifier (asm_operands x) ops /\ (mods_ok ml -> Forall (modifier_assigned ml) ops)) _)
    with (l := asml) (s := [MkMod 0 "default"]) (s' := ml) (l' := asml') as [[Hp Hk] HQ]; [| |assumption|].
  - intros s1 s2 a b [Hp _] (ops & -> & Hs & Ha). exists ops. split; [reflexivity|]. split; [assumption|]. intros Hok.
    eapply Forall_impl; [apply Ha; eapply table_ok_prefix; eassumption|]. intros o. apply modifier_assigned_mono, Hp.
  - intros s a s' b E. apply modifier_insn_ok in E. assumption.
  - assert (Hok : mods_ok ml).
    { apply Hk. split; [intros [|k] m Hm; [injection Hm as <-; reflexivity|discriminate]|apply NoDup_singleton]. }
    split; [assumption|]. split; [eapply prefix_lookup; [eassumption|reflexivity]|]. split.
    + intros m Hm. destruct (thread_new modifier_insn (fun m a => exists opP, opP ∈ asm_operands a /\
        mod_name (op_modifier opP) = Some (m_name m))) with (3 := Hm) (2 := H) as [H1|(a & Ha & opP & H1)].
      * intros s a s' b E o Ho. unfold modifier_insn in E. exec_inv E. destruct a0 as [s1 ops]. injection E as <- <-.
        destruct (thread_new _ _ modifier_operand_new _ _ _ _ E0 o Ho) as [H1|(y & H1)]; [left; assumption|].
        right. exists y. exact H1.
      * left. apply list_elem_of_singleton in H1. assumption.
      * right. exists a, opP. tauto.
    + eapply Forall2_impl; [eassumption|]. cbn. intros a a' (ops & -> & Hs & Ha). exists ops. auto.
Qed.

(** ** Operands *)

Section OperandTable.
Context (formats : list ac_dec_format) (instrs : list ac_dec_instr).

(** What [find_operand] compares. *)
Definition okey (o : oper) : string * operand_type * bool * Z * Z * Z * Z :=
  (o_name o, o_type o, o_is_list o, o_mod_type o, o_mod_addend o, o_fields o, o_format_id o).

Notation opers_ok := (table_ok o_id okey).

Lemma oper_eqb_spec o p : oper_eqb o p = true <-> okey o = okey p.
Proof.
  unfold oper_eqb, okey. rewrite !andb_true_iff, streq_spec, bool_decide_eq_true, eqb_true_iff, !Z.eqb_eq.
  split; [intros; f_equal; intuition congruence|]. intros [= -> -> -> -> -> -> ->]. tauto.
Qed.

(** [oper_id] is the number of the table's entry for the operand. *)
Definition operand_assigned (ol : list oper) (a : ac_asm_insn) (i : ac_dec_instr) (opP : ac_operand) : Prop :=
  0 <= op_oper_id opP /\
  exists o n, new_oper formats instrs a i opP = Ret n /\ ol !! Z.to_nat (op_oper_id opP) = Some o /\ okey o = okey n.

Definition same_but_id (x y : ac_operand) : Prop := exists id, y = set_op_oper_id id x.

(** Tables of fewer than [2 ^ 31] operands. *)
Definition small_ok (ol : list oper) : Prop := Z.of_nat (length ol) < 2 ^ 31 -> opers_ok ol.

Definition ol_grown (ol ol' : list oper) : Prop := ol `prefix_of` ol' /\ (small_ok ol -> small_ok ol').

#[export] Instance ol_grown_preorder : PreOrder ol_grown.
Proof.
  split; [split; [reflexivity|tauto]|]. intros a b c [H1 H2] [H3 H4].
  split; [etransitivity; eassumption|tauto].
Qed.

Lemma enter_operand_ok ol o ol' id : enter_operand ol o = (ol', id) ->
  ol_grown ol ol' /\
  (Z.of_nat (length ol') < 2 ^ 31 -> opers_ok ol' ->
   0 <= id < 2 ^ 31 /\ exists p, ol' !! Z.to_nat id = Some p /\ okey p = okey o) /\
  (forall p, p ∈ ol' -> p ∈ ol \/ okey p = okey o).
Proof.
  unfold enter_operand, find_operand. destruct (list_first _ ol) as [p|] eqn:E; intros [= <- <-].
  - apply list_first_Some in E as [Hp Hk%oper_eqb_spec]. split; [reflexivity|]. split; [|tauto]. intros Hl Hok.
    destruct (table_entry _ _ _ _ Hok Hp). split; [lia|]. eauto.
  - rewrite list_first_None in E.
    assert (Hid : opers_ok ol -> Z.of_nat (length ol) < 2 ^ 31 ->
              match last ol with None => 0 | Some o => u32 (o_id o + 1) end = Z.of_nat (length ol)).
    { intros Hok Hl. rewrite <- (table_last _ _ _ Hok). pose proof (table_last _ _ _ Hok) as Hlast.
      destruct (last ol); [|reflexivity]. apply uwrap_small. lia. }
    rewrite length_app. cbn [length]. split; [split; [apply prefix_app_r; reflexivity|]|].
    + intros Hsm Hl. rewrite length_app in Hl. cbn [length] in Hl. specialize (Hsm ltac:(lia)).
      apply table_ok_snoc; [assumption|apply Hid; [assumption|lia]|].
      intros y Hy. cbn. apply E in Hy. intros Hk. change (okey y = okey o) in Hk.
      apply oper_eqb_spec in Hk. congruence.
    + split.
      * intros Hl Hok. apply (table_ok_prefix _ _ ol) in Hok as Hol; [|apply prefix_app_r; reflexivity].
        rewrite Hid by (assumption || lia). split; [lia|]. rewrite Nat2Z.id.
        eexists. split; [apply list_lookup_middle, eq_refl|reflexivity].
      * intros p [Hp| ->%list_elem_of_singleton]%elem_of_app; [left; assumption|right; reflexivity].
Qed.

Lemma operand_step_ok a i ol x ol' y : operand_step formats instrs a i ol x = Ret (ol', y) ->
  ol_grown ol ol' /\
  (same_but_id x y /\ (Z.of_nat (length ol') < 2 ^ 31 -> opers_ok ol' -> operand_assigned ol' a i y)).
Proof.
  unfold operand_step. intros H. exec_inv H. rename a0 into n. destruct (enter_operand ol n) as [l id] eqn:En.
  injection H as <- <-. apply enter_operand_ok in En as (Hg & Ha & _). split; [assumption|].
  split; [eexists; reflexivity|]. intros Hl Hok. destruct (Ha Hl Hok) as (Hr & p & Hp & Hk).
  unfold operand_assigned. cbn. rewrite swrap_small by lia. split; [lia|]. exists p, n. auto.
Qed.

Lemma operand_step_new a i ol x ol' y : operand_step formats instrs a i ol x = Ret (ol', y) ->
  forall p, p ∈ ol' -> p ∈ ol \/ exists n, new_oper formats instrs a i y = Ret n /\ okey p = okey n.
Proof.
  unfold operand_step. intros H. exec_inv H. rename a0 into n. destruct (enter_operand ol n) as [l id] eqn:En.
  injection H as <- <-. apply enter_operand_ok in En as (_ & _ & Hn). intros p Hp.
  destruct (Hn p Hp) as [H1|H1]; [left; assumption|]. right. exists n. split; [exact E|assumption].
Qed.

Lemma operand_assigned_mono ol ol' a i y :
  ol `prefix_of` ol' -> operand_assigned ol a i y -> operand_assigned ol' a i y.
Proof.
  intros Hp (H0 & o & n & Hn & Ho & Hk). split; [assumption|]. exists o, n. split; [assumption|].
  split; [eapply prefix_lookup; eassumption|assumption].
Qed.

(** An instruction after numbering: only native instructions change, and only
    in the numbers of their operands. *)
Definition insn_numbered (ol : list oper) (a a' : ac_asm_insn) : Prop :=
  exists i, insn_of instrs a = Ret i /\
  match i with
  | None => a' = a
  | Some i => exists ops, a' = set_asm_operands ops a /\ Forall2 same_but_id (asm_operands a) ops /\
      Forall (operand_assigned ol a' i) ops
  end.

Lemma small_mono (ol ol' : list oper) : ol `prefix_of` ol' -> Z.of_nat (length ol') < 2 ^ 31 -> Z.of_nat (length ol) < 2 ^ 31.
Proof. intros [m ->]. rewrite length_app. lia. Qed.

Lemma operand_insn_ok ol x ol' y : operand_insn formats instrs ol x = Ret (ol', y) ->
  ol_grown ol ol' /\ (Z.of_nat (length ol') < 2 ^ 31 -> opers_ok ol' -> insn_numbered ol' x y).
Proof.
  unfold operand_insn. intros H. exec_inv H. destruct a as [i|].
  2:{ injection H as <- <-. split; [reflexivity|]. intros _ _. exists None. auto. }
  exec_inv H. destruct a as [s ops]. injection H as <- <-.
  assert (HQ : ol_grown ol s /\ Forall2 (fun o o' => same_but_id o o' /\
      (Z.of_nat (length s) < 2 ^ 31 -> opers_ok s -> operand_assigned s x i o')) (asm_operands x) ops).
  { revert E0. apply (thread_inv (operand_step formats instrs x i) ol_grown (fun (s : list oper) o o' => same_but_id o o' /\
      (Z.of_nat (length s) < 2 ^ 31 -> opers_ok s -> operand_assigned s x i o'))); [exact _| |apply operand_step_ok].
    intros s1 s2 a b [Hp _] [H1 H2]. split; [assumption|]. intros Hl Hok. eapply operand_assigned_mono; [eassumption|].
    apply H2; [eapply small_mono; eassumption|eapply table_ok_prefix; eassumption]. }
  destruct HQ as [HR HQ]. split; [assumption|]. intros Hl Hok. exists (Some i). split; [assumption|].
  exists ops. split; [reflexivity|]. split.
  - eapply Forall2_impl; [eassumption|]. cbn. tauto.
  - eapply Forall2_Forall_r; [eassumption|]. eapply Forall_true. cbn. intros o o' [_ H1]. exact (H1 Hl Hok).
Qed.

(** The operand table: when [create_operand_list] succeeds, the entries are
    numbered from 0, no two have the same key, each is the key of an operand of a
    native instruction, and every operand of a native instruction carries the
    number of the entry with its own key; pseudo instructions are not touched. *)
Theorem operand_table_exact asml ml ol asml' :
  create_operand_list formats instrs [] asml = Ret (ml, ol, asml') -> Z.of_nat (length ol) < 2 ^ 31 ->
  opers_ok ol /\
  (exists asm1, create_modifier_list asml = Ret (ml, asm1) /\ Forall2 (insn_numbered ol) asm1 asml') /\
  (forall o, o ∈ ol -> exists a i opP n, a ∈ asml' /\ insn_of instrs a = Ret (Some i) /\
     opP ∈ asm_operands a /\ new_oper formats instrs a i opP = Ret n /\ okey o = okey n).
Proof.
  unfold create_operand_list. intros H Hl. exec_inv H. destruct a as [ml1 asm1]. exec_inv H. destruct a as [ol1 asm2].
  injection H as <- <- <-.
  assert (HQ : ol_grown [] ol1 /\
    Forall2 (fun x y => Z.of_nat (length ol1) < 2 ^ 31 -> opers_ok ol1 -> insn_numbered ol1 x y) asm1 asm2).
  { revert E0. apply (thread_inv (operand_insn formats instrs) ol_grown (fun (s : list oper) x y =>
      Z.of_nat (length s) < 2 ^ 31 -> opers_ok s -> insn_numbered s x y)); [exact _| |apply operand_insn_ok].
    intros s1 s2 a b [Hp _] H1 Hs Hok.
    destruct (H1 (small_mono _ _ Hp Hs) (table_ok_prefix _ _ _ _ Hp Hok)) as (i & Hi & Hn).
    exists i. split; [assumption|]. destruct i as [i|]; [|assumption].
    destruct Hn as (ops & Ha & Hsame & Has). exists ops. split; [assumption|]. split; [assumption|].
    eapply Forall_impl; [eassumption|]. intros o. apply operand_assigned_mono, Hp. }
  destruct HQ as [[_ Hsm] HQ].
  assert (Hok : opers_ok ol1).
  { apply Hsm; [|assumption]. intros _. split; [intros k o Ho; discriminate|constructor]. }
  split; [assumption|]. split.
  - exists asm1. split; [assumption|]. eapply Forall2_impl; [eassumption|]. cbn. auto.
  - intros o Ho. destruct (thread_new (operand_insn formats instrs) (fun o a => exists i opP n,
      insn_of instrs a = Ret (Some i) /\ opP ∈ asm_operands a /\ new_oper formats instrs a i opP = Ret n /\
      okey o = okey n)) with (3 := Ho) (2 := E0) as [H1|(a & Ha & i & opP & n & H1)].
    + intros s a s' b Ea p Hp. unfold operand_insn in Ea. exec_inv Ea. destruct a0 as [i|].
      * exec_inv Ea. destruct a0 as [s1 ops]. injection Ea as <- <-.
        destruct (thread_new _ _ (operand_step_new a i) _ _ _ _ E2 p Hp) as [H1|(y & Hy & n & Hn & Hk)];
          [left; assumption|]. right. exists i, y, n. auto.
      * injection Ea as <- <-. left. assumption.
    + inversion H1.
    + exists a, i, opP, n. tauto.
Qed.
End OperandTable.

(** ** Images and masks *)

Definition field_shift (size : Z) (f : bit_field) : Z := size - (f.1.2 + 1).

(** A field inside an instruction of at most 32 bits, with a value that fits. *)
Definition fits (size : Z) (f : bit_field) : Prop :=
  0 < f.2 /\ f.2 <= f.1.2 + 1 /\ f.1.2 + 1 <= size /\ size <= 32 /\ 0 <= f.1.1 < 2 ^ f.2.

(** The field of the word [w] has the value. *)
Definition holds (size w : Z) (f : bit_field) : Prop :=
  Z.land (Z.shiftr w (field_shift size f)) (Z.ones f.2) = f.1.1.

Definition field_mask (size : Z) (f : bit_field) : Z := Z.shiftl (Z.ones f.2) (field_shift size f).

Lemma all_ones_ones n : 0 <= n <= 32 -> all_ones n = Z.ones n.
Proof.
  intros Hn. unfold all_ones. rewrite <- (Z2Nat.id n) at 2 by lia. assert (Z.to_nat n <= 32)%nat as H by lia.
  clear Hn. induction (Z.to_nat n) as [|k IH]; [reflexivity|]. cbn [Nat.iter nat_rect]. unfold Nat.iter in IH.
  rewrite IH by lia. rewrite uwrap_add_l, Z.shiftl_mul_pow2 by lia. rewrite !Z.ones_equiv.
  replace (Z.of_nat (S k)) with (Z.of_nat k + 1) by lia. rewrite Z.pow_add_r by lia.
  assert (0 < 2 ^ Z.of_nat k) by (apply Z.pow_pos_nonneg; lia).
  assert (2 ^ Z.of_nat (S k) <= 2 ^ 32) by (apply Z.pow_le_mono_r; lia).
  assert (2 ^ Z.of_nat (S k) = 2 * 2 ^ Z.of_nat k) by (rewrite Nat2Z.inj_succ, Z.pow_succ_r; lia).
  rewrite uwrap_small; lia.
Qed.

(** The two masks cut [v << shift] to the field's bits and those above it. *)
Lemma masked_field v size fbit fsize :
  0 < fsize -> fsize <= fbit + 1 -> fbit + 1 <= size -> size <= 32 -> 0 <= v < 2 ^ fsize ->
  Z.land (u32 (Z.shiftl v (size - (fbit + 1))))
    (Z.land (u32 (Z.shiftl MAX_UINT (size - (fbit + 1)))) (Z.shiftr MAX_UINT (fbit + 1 - fsize)))
  = Z.shiftl v (size - (fbit + 1)).
Proof.
  intros H1 H2 H3 H4 Hv. change MAX_UINT with (Z.ones 32).
  apply Z.bits_inj'; intros i Hi. rewrite !Z.land_spec, !testbit_uwrap, !Z.shiftl_spec, Z.shiftr_spec by lia.
  destruct (Z.ltb_spec (i - (size - (fbit + 1))) 0) as [Hn|Hn].
  { rewrite !(Z.testbit_neg_r _ (i - _)) by lia. cbn. rewrite andb_false_r. reflexivity. }
  destruct (Z.leb_spec fsize (i - (size - (fbit + 1)))) as [Hm|Hm].
  { rewrite (testbit_high fsize v) by lia. rewrite andb_false_r. reflexivity. }
  rewrite !testbit_ones by lia. bit_cases; try lia. cbn. rewrite andb_true_r. reflexivity.
Qed.

Lemma add_field_ok size acc f : fits size f ->
  add_field size acc f = Ret (Z.lor acc.1 (Z.shiftl f.1.1 (field_shift size f)), Z.lor acc.2 (field_mask size f)).
Proof.
  destruct f as [[v fbit] fsize]. unfold fits, field_shift, field_mask. cbn [fst snd]. intros (H1 & H2 & H3 & H4 & Hv).
  cbn [add_field]. unfold encode_insn_field, encode_dmask_field.
  rewrite !(uwrap_small 32) by lia. rewrite !shl32_ok, !shr32_ok by lia. cbn [mbind exec_bind].
  rewrite all_ones_ones by lia. rewrite !masked_field; try lia; [reflexivity|].
  rewrite Z.ones_equiv. assert (0 < 2 ^ fsize) by (apply Z.pow_pos_nonneg; lia). lia.
Qed.

Lemma field_mask_bits size f i : fits size f ->
  Z.testbit (field_mask size f) i = (field_shift size f <=? i) && (i <? field_shift size f + f.2).
Proof.
  intros (H1 & H2 & H3 & H4 & Hv). unfold field_mask. destruct (Z.ltb_spec i 0).
  - rewrite Z.testbit_neg_r by lia. unfold field_shift. bit_cases; try lia; reflexivity.
  - rewrite Z.shiftl_spec by lia. destruct (Z.leb_spec (field_shift size f) i).
    + rewrite testbit_ones by lia. bit_cases; lia || reflexivity.
    + rewrite Z.testbit_neg_r by lia. reflexivity.
Qed.

(** A field that holds in [w] is the part of [w] under its mask. *)
Lemma holds_mask size w f : fits size f ->
  holds size w f <-> Z.land w (field_mask size f) = Z.shiftl f.1.1 (field_shift size f).
Proof.
  intros Hf. pose proof Hf as (H1 & H2 & H3 & H4 & Hv). unfold holds.
  assert (0 <= field_shift size f) by (unfold field_shift; lia).
  assert (Hm : Z.land w (field_mask size f) = Z.shiftl (Z.land (Z.shiftr w (field_shift size f)) (Z.ones f.2)) (field_shift size f)).
  { apply Z.bits_inj'; intros i Hi. rewrite Z.land_spec, field_mask_bits, Z.shiftl_spec by assumption.
    destruct (Z.leb_spec (field_shift size f) i).
    - rewrite Z.land_spec, Z.shiftr_spec, testbit_ones by lia. rewrite Z.sub_add. f_equal. bit_cases; lia || reflexivity.
    - rewrite (Z.testbit_neg_r _ (i - _)) by lia. rewrite andb_false_l. apply andb_false_r. }
  rewrite Hm. split; [congruence|]. intros E. apply (f_equal (fun z => Z.shiftr z (field_shift size f))) in E.
  rewrite !Z.shiftr_shiftl_l, Z.sub_diag, !Z.shiftl_0_r in E by lia. exact E.
Qed.

Definition masks (size : Z) (m : Z) (l : list bit_field) : Z := fold_left (fun m f => Z.lor m (field_mask size f)) l m.

Lemma add_fields_ok size w l : forall m, Forall (fits size) l -> Forall (holds size w) l ->
  add_fields size (Z.land w m, m) l = Ret (Z.land w (masks size m l), masks size m l).
Proof.
  induction l as [|f l IH]; intros m Hf Hw; [reflexivity|]. inversion Hf; inversion Hw; subst.
  cbn [add_fields masks fold_left]. rewrite add_field_ok by assumption. cbn [mbind exec_bind fst snd].
  match goal with H : holds _ _ _ |- _ => apply holds_mask in H; [rewrite <- H|assumption] end.
  rewrite <- Z.land_lor_distr_r. apply IH; assumption.
Qed.

Lemma add_fields_app size l l' acc :
  add_fields size acc (l ++ l') = (acc ← add_fields size acc l; add_fields size acc l').
Proof.
  revert acc. induction l as [|f l IH]; intros acc; [reflexivity|]. cbn [add_fields app].
  destruct (add_field size acc f); cbn [mbind exec_bind]; [apply IH|reflexivity..].
Qed.

Lemma masks_lor size l m : masks size m l = Z.lor m (masks size 0 l).
Proof.
  unfold masks. revert m. induction l as [|f l IH]; intros m; cbn [fold_left]; [rewrite Z.lor_0_r; reflexivity|].
  rewrite IH, (IH (Z.lor 0 _)), Z.lor_0_l, Z.lor_assoc. reflexivity.
Qed.

(** Two words agree under a union of masks when they agree under each. *)
Lemma masks_agree size w w' l :
  Z.land w (masks size 0 l) = Z.land w' (masks size 0 l) <->
  Forall (fun f => Z.land w (field_mask size f) = Z.land w' (field_mask size f)) l.
Proof.
  assert (Hor : forall a b, Z.land w (Z.lor a b) = Z.land w' (Z.lor a b) <->
                 Z.land w a = Z.land w' a /\ Z.land w b = Z.land w' b).
  { intros a b. rewrite !Z.land_lor_distr_r. split; [|intros [-> ->]; reflexivity]. intros E.
    split; apply Z.bits_inj'; intros i Hi; apply (f_equal (fun z => Z.testbit z i)) in E;
      rewrite !Z.lor_spec, !Z.land_spec in E; rewrite !Z.land_spec;
      destruct (Z.testbit w i), (Z.testbit w' i), (Z.testbit a i), (Z.testbit b i); cbn in *; congruence. }
  induction l as [|f l IH].
  - unfold masks. cbn. rewrite !Z.land_0_r. split; [constructor|reflexivity].
  - change (masks size 0 (f :: l)) with (masks size (Z.lor 0 (field_mask size f)) l).
    rewrite masks_lor, Z.lor_0_l, Hor, IH. split.
    + intros [H1 H2]. constructor; assumption.
    + intros H. inversion H; auto.
Qed.

Definition dec_bits (pfrm : ac_dec_format) (pdl : ac_dec_list) : option bit_field :=
  pdf ← list_first (fun pdf => streq (dl_name pdl) (f_name pdf)) (fmt_fields pfrm);
  Some (u32 (dl_value pdl), u32 (f_first_bit pdf), u32 (f_size pdf)).

Lemma add_dec_fields_bits pfrm l : forall acc bits, mapM (dec_bits pfrm) l = Some bits ->
  add_dec_fields pfrm acc l = add_fields (u32 (fmt_size pfrm)) acc bits.
Proof.
  induction l as [|pdl l IH]; intros acc bits H; [injection H as <-; reflexivity|].
  apply bind_Some in H as (b & Hb & H). apply bind_Some in H as (bs & Hbs & [= <-]).
  cbn [add_dec_fields add_fields]. unfold dec_bits in Hb.
  destruct (list_first _ (fmt_fields pfrm)) as [pdf|]; [|discriminate]. injection Hb as <-.
  destruct (add_field _ _ _); cbn [mbind exec_bind]; [apply IH; assumption|reflexivity..].
Qed.

(** Image and mask: for a native instruction whose decode and constant
    fields lie in a format of at most 32 bits, have values that fit and can hold
    together, the table's image and mask select exactly the words in which every
    one of these fields has its value. *)
Theorem image_selects pfrm i a dec w0 :
  let size := u32 (fmt_size pfrm) in
  let fields := dec ++ map const_bits (asm_const_fields a) in
  mapM (dec_bits pfrm) (i_dec_list i) = Some dec ->
  Forall (fits size) fields -> Forall (holds size w0) fields ->
  exists image dmask, insn_image pfrm i a = Ret (image, dmask) /\
    forall w, Z.land w dmask = image <-> Forall (holds size w) fields.
Proof.
  intros size fields Hdec Hfit H0. exists (Z.land w0 (masks size 0 fields)), (masks size 0 fields). split.
  - unfold insn_image. rewrite (add_dec_fields_bits _ _ _ _ Hdec), <- add_fields_app.
    pose proof (add_fields_ok size w0 fields 0 Hfit H0) as H. rewrite Z.land_0_r in H. exact H.
  - intros w. rewrite masks_agree. split; intros H.
    + apply Forall_forall. intros f Hf. rewrite Forall_forall in H, H0, Hfit.
      apply holds_mask; [auto|]. rewrite (H f Hf). apply holds_mask; auto.
    + apply Forall_forall. intros f Hf. rewrite Forall_forall in H, H0, Hfit.
      rewrite (proj1 (holds_mask size w f (Hfit f Hf)) (H f Hf)), (proj1 (holds_mask size w0 f (Hfit f Hf)) (H0 f Hf)).
      reflexivity.
Qed.

(** A 32-bit format [op:6 rs:5 imm:21], with [op] decoded and [rs] constant. *)
Definition demo_bin_format : ac_dec_format :=
  MkFormat 0 "Type_I" 32 [MkField "op" 6 5 1 0 0; MkField "rs" 5 10 2 0 0; MkField "imm" 21 31 3 0 1].
Definition demo_bin_instr : ac_dec_instr :=
  MkInstr "addi" 4 None None "Type_I" 1 1 1 1 [MkDec "op" 1 35] None.
Definition demo_bin_insn : ac_asm_insn :=
  MkAsm "addi" " %,%" " %reg,%imm"
    [MkOperand "reg" op_userdef (MkModifier None (-1) 0) [MkAField (Some "rs") 5 10 1] false (-1) 0;
     MkOperand "imm" op_imm (MkModifier (Some "low") (-1) 0) [MkAField (Some "imm") 21 31 2] false (-1) 0]
    (Some 0%nat) [MkConst 7 (MkAField (Some "rs") 5 10 0)] [] 0.

Lemma image_selects_witness : exists image dmask,
  insn_image demo_bin_format demo_bin_instr demo_bin_insn = Ret (image, dmask) /\
  image = 0x8CE00000 /\ dmask = 0xFFE00000 /\
  forall w, Z.land w dmask = image <-> Forall (holds 32 w) [(35, 5, 6); (7, 10, 5)].
Proof.
  destruct (image_selects demo_bin_format demo_bin_instr demo_bin_insn [(35, 5, 6)] 0x8CE00000)
    as (image & dmask & H & Hw).
  - reflexivity.
  - repeat constructor; vm_compute; congruence.
  - repeat constructor.
  - exists image, dmask. split; [exact H|]. split; [vm_compute in H; congruence|].
    split; [vm_compute in H; congruence|]. exact Hw.
Defined.

Lemma operand_table_exact_witness : exists ml ol asml',
  create_operand_list [demo_bin_format] [demo_bin_instr] [] [demo_bin_insn; demo_bin_insn] = Ret (ml, ol, asml') /\
  length ol = 2%nat /\ table_ok o_id okey ol.
Proof.
  destruct (create_operand_list [demo_bin_format] [demo_bin_instr] [] [demo_bin_insn; demo_bin_insn])
    as [[[ml ol] asml']| |] eqn:E; [|vm_compute in E; discriminate E..].
  exists ml, ol, asml'. split; [reflexivity|].
  assert (Hl : length ol = 2%nat) by (vm_compute in E; injection E as <- <- <-; reflexivity).
  split; [exact Hl|]. eapply (operand_table_exact _ _ _ _ _ _ E). rewrite Hl. reflexivity.
Defined.
