(* ===== verification/BinGas.v ===== *)
(** * Generated field functions ([archc/src/acbinutils/gas.c] and [bfd.c])

    The generator prints, for every format and field, the C statements that put
    a value in the field, read it back, and return sizes.  Each printed [case]
    is a row; the text prints the rows, and the functions of the generated
    library run them: [ac_encode_insn], [ac_get_field_value], [get_field_size]
    and [get_insn_size] of [share-xxxxx.c]. *)
From S2P Require Import Prelude CString DecTypes BinUtils BinOpcodes.

(** ** Rows *)

(** The mask, in an [unsigned long], and the shift of a field. *)
Record encode_case := MkEnc { enc_mask : Z; enc_shift : Z }.

Definition encode_mask (size : Z) (pf : ac_dec_field) : exec Z :=
  a ← shr32 MAX_UINT (s32 (32 - size + f_first_bit pf + 1 - f_size pf));
  b ← shl32 MAX_UINT (s32 (size - (f_first_bit pf + 1)));
  Ret (Z.land a b).

Definition encode_case_of (size : Z) (pf : ac_dec_field) : exec encode_case :=
  mask ← encode_mask size pf;
  Ret (MkEnc mask (s32 (size - (f_first_bit pf + 1)))).

(** [mask |= 1 << k] for [k] from 0 to [size - 1]. *)
Fixpoint low_mask (n : nat) (k mask : Z) : exec Z :=
  match n with
  | O => Ret mask
  | S n => b ← shl32 1 k; low_mask n (k + 1) (Z.lor mask b)
  end.

Definition value_case_of (size : Z) (pf : ac_dec_field) : exec encode_case :=
  mask ← low_mask (Z.to_nat (f_size pf)) 0 0;
  Ret (MkEnc mask (s32 (size - (f_first_bit pf + 1)))).

Fixpoint exec_map {A B} (f : A -> exec B) (l : list A) : exec (list B) :=
  match l with
  | [] => Ret []
  | x :: l => y ← f x; l ← exec_map f l; Ret (y :: l)
  end.

Definition format_cases (row : Z -> ac_dec_field -> exec encode_case) (format_ins_list : list ac_dec_format)
    : exec (list (list encode_case)) :=
  exec_map (fun pfrm => exec_map (row (fmt_size pfrm)) (fmt_fields pfrm)) format_ins_list.

Definition encode_cases : list ac_dec_format -> exec (list (list encode_case)) := format_cases encode_case_of.
Definition value_cases : list ac_dec_format -> exec (list (list encode_case)) := format_cases value_case_of.

(** ** The printed text *)

(** [~mask] in an [unsigned long]. *)
Definition not64 (mask : Z) : Z := Z.lxor mask (Z.ones 64).

Definition print_encode_case (j : Z) (c : encode_case) : string :=
  IND4 +:+ "case " +:+ fmt_d j +:+ ":" +:+ nl
  +:+ IND5 +:+ "*image &= 0x" +:+ fmt_x false (not64 (enc_mask c)) +:+ ";" +:+ nl
  +:+ IND5 +:+ "*image |= ((value << " +:+ fmt_d (enc_shift c) +:+ ") & 0x" +:+ fmt_x false (enc_mask c) +:+ ");" +:+ nl
  +:+ IND5 +:+ "break;" +:+ nl.

Definition print_value_case (j : Z) (c : encode_case) : string :=
  IND4 +:+ "case " +:+ fmt_d j +:+ ":" +:+ nl
  +:+ IND5 +:+ "return (value >> " +:+ fmt_d (enc_shift c) +:+ ") & 0x" +:+ fmt_x true (enc_mask c) +:+ ";" +:+ nl.

Definition print_size_case (j : Z) (pf : ac_dec_field) : string :=
  IND4 +:+ "case " +:+ fmt_d j +:+ ":" +:+ nl +:+ IND4 +:+ "return " +:+ fmt_d (f_size pf) +:+ ";" +:+ nl +:+ nl.

(** The two nested [switch] statements. *)
Definition print_switch {A} (selector : string) (print : Z -> A -> string) (rows : list (list A)) : string :=
  IND1 +:+ "switch(" +:+ selector +:+ ") {" +:+ nl
  +:+ concat_mapi (fun i row =>
        IND2 +:+ "case " +:+ fmt_d i +:+ ":" +:+ nl
        +:+ IND3 +:+ "switch (field_id) {" +:+ nl
        +:+ concat_mapi print 0 row
        +:+ IND3 +:+ "}" +:+ nl
        +:+ nl +:+ IND3 +:+ "break;" +:+ nl) 0 rows
  +:+ nl +:+ IND1 +:+ "}" +:+ nl
  +:+ IND1 +:+ "return 0;".

Definition CreateEncodingFunc (opens : string -> bool) (encfunc_filename : string)
    (format_ins_list : list ac_dec_format) : exec (option (string * string)) :=
  with_file opens encfunc_filename
    (rows ← encode_cases format_ins_list; Ret (print_switch "insn_type" print_encode_case rows)).

Definition CreateGetFieldValueFunc (opens : string -> bool) (filename : string)
    (format_ins_list : list ac_dec_format) : exec (option (string * string)) :=
  with_file opens filename
    (rows ← value_cases format_ins_list; Ret (print_switch "insn_type" print_value_case rows)).

Definition CreateGetFieldSizeFunc (opens : string -> bool) (getfsz_filename : string)
    (format_ins_list : list ac_dec_format) : exec (option (string * string)) :=
  with_file opens getfsz_filename (Ret (print_switch "insn_fmt" print_size_case (map fmt_fields format_ins_list))).

Definition CreateGetInsnSizeFunc (opens : string -> bool) (insnsz_filename : string)
    (format_ins_list : list ac_dec_format) : exec (option (string * string)) :=
  with_file opens insnsz_filename (Ret (
    IND1 +:+ "switch(insn_fmt) {" +:+ nl
    +:+ concat_mapi (fun i pfrm => IND2 +:+ "case " +:+ fmt_d i +:+ ":" +:+ nl
                                   +:+ IND3 +:+ "return " +:+ fmt_d (fmt_size pfrm) +:+ ";" +:+ nl) 0 format_ins_list
    +:+ nl +:+ IND1 +:+ "}" +:+ nl
    +:+ IND1 +:+ "return 0;")).

(** ** Running the generated functions *)

(** The case of a nested [switch]; [None]: no case matches. *)
Definition select {A} (rows : list (list A)) (insn_type field_id : Z) : option A :=
  if (insn_type <? 0) || (field_id <? 0) then None
  else row ← rows !! Z.to_nat insn_type; row !! Z.to_nat field_id.

(** [value] is an [unsigned long], [*image] an [unsigned int]. *)
Definition ac_encode_insn (rows : list (list encode_case)) (insn_type field_id value image : Z) : Z :=
  match select rows insn_type field_id with
  | None => image
  | Some c =>
      let image := Z.land image (u32 (not64 (enc_mask c))) in
      u32 (Z.lor image (Z.land (u64 (Z.shiftl value (enc_shift c))) (enc_mask c)))
  end.

Definition ac_get_field_value (rows : list (list encode_case)) (insn_type field_id value : Z) : Z :=
  match select rows insn_type field_id with
  | None => 0
  | Some c => Z.land (Z.shiftr value (enc_shift c)) (enc_mask c)
  end.

Definition get_field_size (format_ins_list : list ac_dec_format) (insn_fmt field_id : Z) : Z :=
  match select (map fmt_fields format_ins_list) insn_fmt field_id with
  | None => 0
  | Some pf => u64 (f_size pf)
  end.

Definition get_insn_size (format_ins_list : list ac_dec_format) (insn_fmt : Z) : Z :=
  if insn_fmt <? 0 then 0
  else match format_ins_list !! Z.to_nat insn_fmt with Some pfrm => u64 (fmt_size pfrm) | None => 0 end.

(** ** The generated field functions put and get bits

    For formats whose fields lie inside words of at most 32 bits the generator
    succeeds; the generated encoder writes exactly the bits of one field, and the
    generated reader reads them back. *)

(** The field occupies bits [shift .. shift + size - 1] of a word of [size] bits. *)
Definition valid_field (size : Z) (pf : ac_dec_field) : Prop :=
  0 < f_size pf /\ f_size pf <= f_first_bit pf + 1 /\ f_first_bit pf + 1 <= size /\ size <= 32.
Definition low_bit (size : Z) (pf : ac_dec_field) : Z := size - (f_first_bit pf + 1).
Definition in_field (size : Z) (pf : ac_dec_field) (i : Z) : bool :=
  (low_bit size pf <=? i) && (i <? low_bit size pf + f_size pf).

Definition valid_formats (fs : list ac_dec_format) : Prop :=
  Forall (fun pfrm => Forall (valid_field (fmt_size pfrm)) (fmt_fields pfrm)) fs.

Lemma in_field_range size pf i : valid_field size pf -> in_field size pf i = true ->
  low_bit size pf <= i < low_bit size pf + f_size pf /\ 0 <= low_bit size pf /\ low_bit size pf + f_size pf <= 32.
Proof.
  unfold in_field, low_bit. intros (? & ? & ? & ?) [?%Z.leb_le ?%Z.ltb_lt]%andb_prop. lia.
Qed.

Lemma encode_case_ok size pf : valid_field size pf ->
  encode_case_of size pf = Ret (MkEnc (Z.shiftl (Z.ones (f_size pf)) (low_bit size pf)) (low_bit size pf)).
Proof.
  intros (H1 & H2 & H3 & H4). unfold encode_case_of, encode_mask, low_bit.
  rewrite !swrap_small by lia. rewrite shr32_ok, shl32_ok by lia. cbn [mbind exec_bind]. do 2 f_equal.
  change MAX_UINT with (Z.ones 32). apply Z.bits_inj'. intros i Hi.
  rewrite Z.land_spec, Z.shiftr_spec, testbit_uwrap, !Z.shiftl_spec, (testbit_ones 32) by lia.
  destruct (Z.ltb_spec (i - (size - (f_first_bit pf + 1))) 0).
  - rewrite !(Z.testbit_neg_r _ (i - _)) by lia. rewrite !andb_false_r. reflexivity.
  - rewrite !testbit_ones by lia. bit_cases; lia || reflexivity.
Qed.

Lemma low_mask_ok n : forall k mask, 0 <= k -> k + Z.of_nat n <= 32 ->
  low_mask n k mask = Ret (Z.lor mask (Z.shiftl (Z.ones (Z.of_nat n)) k)).
Proof.
  induction n as [|n IH]; intros k mask Hk Hn; cbn [low_mask].
  - rewrite Z.shiftl_0_l, Z.lor_0_r. reflexivity.
  - rewrite shl32_ok by lia. cbn [mbind exec_bind]. rewrite IH by lia. f_equal.
    apply Z.bits_inj'. intros i Hi. rewrite Z.shiftl_1_l, !Z.lor_spec, testbit_uwrap, Z.pow2_bits_eqb, !Z.shiftl_spec by lia.
    rewrite <- orb_assoc. f_equal. destruct (Z.ltb_spec i k).
    + rewrite !(Z.testbit_neg_r _ (i - _)) by lia. destruct (Z.eqb_spec k i); [lia|]. rewrite andb_false_r. reflexivity.
    + destruct (Z.eqb_spec k i) as [->|Hne].
      * rewrite (Z.testbit_neg_r _ (i - (i + 1))), testbit_ones by lia. bit_cases; lia || reflexivity.
      * rewrite !testbit_ones by lia. bit_cases; lia || reflexivity.
Qed.

Lemma value_case_ok size pf : valid_field size pf ->
  value_case_of size pf = Ret (MkEnc (Z.ones (f_size pf)) (low_bit size pf)).
Proof.
  intros (H1 & H2 & H3 & H4). unfold value_case_of, low_bit. rewrite low_mask_ok by lia. cbn [mbind exec_bind].
  rewrite Z.lor_0_l, Z.shiftl_0_r, Z2Nat.id, swrap_small by lia. reflexivity.
Qed.

(** ** The tables of cases *)

Lemma exec_map_ok {A B} (f : A -> exec B) (g : A -> B) l :
  Forall (fun x => f x = Ret (g x)) l -> exec_map f l = Ret (map g l).
Proof. induction 1 as [|x l H _ IH]; cbn; [reflexivity|]. rewrite H. cbn. rewrite IH. reflexivity. Qed.

Definition enc_of (size : Z) (pf : ac_dec_field) : encode_case :=
  MkEnc (Z.shiftl (Z.ones (f_size pf)) (low_bit size pf)) (low_bit size pf).
Definition val_of (size : Z) (pf : ac_dec_field) : encode_case := MkEnc (Z.ones (f_size pf)) (low_bit size pf).

Definition table_of (g : Z -> ac_dec_field -> encode_case) (fs : list ac_dec_format) : list (list encode_case) :=
  map (fun pfrm => map (g (fmt_size pfrm)) (fmt_fields pfrm)) fs.

Lemma format_cases_ok row g fs : valid_formats fs ->
  (forall size pf, valid_field size pf -> row size pf = Ret (g size pf)) ->
  format_cases row fs = Ret (table_of g fs).
Proof.
  intros Hv Hrow. apply exec_map_ok. eapply Forall_impl; [eassumption|]. cbn. intros pfrm Hp. apply exec_map_ok.
  eapply Forall_impl; [eassumption|]. cbn. auto.
Qed.

Lemma encode_cases_ok fs : valid_formats fs -> encode_cases fs = Ret (table_of enc_of fs).
Proof. intros H. apply format_cases_ok; [assumption|]. apply encode_case_ok. Qed.

Lemma value_cases_ok fs : valid_formats fs -> value_cases fs = Ret (table_of val_of fs).
Proof. intros H. apply format_cases_ok; [assumption|]. apply value_case_ok. Qed.

(** Field number [j] of format number [t]. *)
Definition field_at (fs : list ac_dec_format) (t j : Z) (pfrm : ac_dec_format) (pf : ac_dec_field) : Prop :=
  0 <= t /\ 0 <= j /\ fs !! Z.to_nat t = Some pfrm /\ fmt_fields pfrm !! Z.to_nat j = Some pf.

Lemma select_ok {A} (g : Z -> ac_dec_field -> A) fs t j pfrm pf : field_at fs t j pfrm pf ->
  select (map (fun pfrm => map (g (fmt_size pfrm)) (fmt_fields pfrm)) fs) t j = Some (g (fmt_size pfrm) pf).
Proof.
  intros (Ht & Hj & Hp & Hf). unfold select. rewrite (proj2 (Z.ltb_ge _ _)), (proj2 (Z.ltb_ge _ _)) by lia.
  cbn [orb]. rewrite list_lookup_fmap, Hp. cbn. rewrite list_lookup_fmap, Hf. reflexivity.
Qed.

Lemma field_at_valid fs t j pfrm pf : valid_formats fs -> field_at fs t j pfrm pf -> valid_field (fmt_size pfrm) pf.
Proof.
  intros Hv (_ & _ & Hp & Hf). eapply Forall_lookup_1 in Hv; [|exact Hp]. eapply Forall_lookup_1 in Hv; [|exact Hf].
  assumption.
Qed.

(** ** Bits *)

(** Encoding writes the value's bits in the field and keeps the other bits. *)
Lemma encode_bits fs t j pfrm pf value image i :
  valid_formats fs -> field_at fs t j pfrm pf -> 0 <= image < 2 ^ 32 -> 0 <= i ->
  Z.testbit (ac_encode_insn (table_of enc_of fs) t j value image) i =
  if in_field (fmt_size pfrm) pf i then Z.testbit value (i - low_bit (fmt_size pfrm) pf) else Z.testbit image i.
Proof.
  intros Hv Hf Him Hi. pose proof (field_at_valid _ _ _ _ _ Hv Hf) as Hvf. pose proof Hvf as (H1 & H2 & H3 & H4).
  unfold ac_encode_insn, table_of. rewrite (select_ok enc_of _ _ _ _ _ Hf). cbn [enc_of enc_mask enc_shift].
  unfold in_field, not64. assert (0 <= low_bit (fmt_size pfrm) pf) as H0 by (unfold low_bit; lia).
  assert (low_bit (fmt_size pfrm) pf + f_size pf <= 32) as H5 by (unfold low_bit; lia).
  generalize dependent (low_bit (fmt_size pfrm) pf). intros lo H0 H5.
  rewrite testbit_uwrap, Z.lor_spec, !Z.land_spec, !testbit_uwrap, Z.lxor_spec, !Z.shiftl_spec by lia.
  rewrite (testbit_ones 64) by lia.
  destruct (Z.leb_spec lo i); cbn [andb].
  - rewrite testbit_ones by lia. destruct (Z.ltb_spec i (lo + f_size pf)).
    + bit_cases; try lia. cbn. rewrite andb_false_r, andb_true_r. reflexivity.
    + bit_cases; try lia; cbn; rewrite ?andb_false_r, ?andb_true_r, ?orb_false_r;
        first [reflexivity|symmetry; apply (testbit_high 32); lia].
  - rewrite (Z.testbit_neg_r (Z.ones _)), (Z.testbit_neg_r value) by lia.
    bit_cases; try lia; cbn; rewrite ?andb_false_r, ?andb_true_r, ?orb_false_r;
      first [reflexivity|symmetry; apply (testbit_high 32); lia].
Qed.

Lemma encode_range fs t j pfrm pf value image :
  valid_formats fs -> field_at fs t j pfrm pf -> 0 <= ac_encode_insn (table_of enc_of fs) t j value image < 2 ^ 32.
Proof.
  intros _ Hf. unfold ac_encode_insn, table_of. rewrite (select_ok enc_of _ _ _ _ _ Hf). apply uwrap_range. lia.
Qed.

Lemma get_bits fs t j pfrm pf value i :
  valid_formats fs -> field_at fs t j pfrm pf -> 0 <= i ->
  Z.testbit (ac_get_field_value (table_of val_of fs) t j value) i =
  (i <? f_size pf) && Z.testbit value (i + low_bit (fmt_size pfrm) pf).
Proof.
  intros Hv Hf Hi. pose proof (field_at_valid _ _ _ _ _ Hv Hf) as (H1 & H2 & H3 & H4).
  unfold ac_get_field_value, table_of. rewrite (select_ok val_of _ _ _ _ _ Hf). cbn [val_of enc_mask enc_shift].
  rewrite Z.land_spec, Z.shiftr_spec, testbit_ones by lia. rewrite andb_comm. f_equal. bit_cases; lia || reflexivity.
Qed.

Definition disjoint_fields (size : Z) (pf pg : ac_dec_field) : Prop :=
  forall i, in_field size pf i = true -> in_field size pg i = false.

(** Put and get: for formats whose fields lie in words of at most 32 bits
    the encoder and the reader are generated; after the encoder has put a value
    in a field of an image, the reader gets the value back, cut to the field's
    size, the image is still a 32-bit word, and every field without a common bit
    reads as before. *)
Theorem encode_get_roundtrip fs : valid_formats fs ->
  exists ec vc, encode_cases fs = Ret ec /\ value_cases fs = Ret vc /\
  forall t j pfrm pf value image, field_at fs t j pfrm pf -> 0 <= image < 2 ^ 32 ->
  let image' := ac_encode_insn ec t j value image in
  0 <= image' < 2 ^ 32 /\
  ac_get_field_value vc t j image' = value mod 2 ^ f_size pf /\
  (forall k pg, field_at fs t k pfrm pg -> disjoint_fields (fmt_size pfrm) pf pg ->
   ac_get_field_value vc t k image' = ac_get_field_value vc t k image).
Proof.
  intros Hv. eexists _, _. split; [apply encode_cases_ok, Hv|]. split; [apply value_cases_ok, Hv|].
  intros t j pfrm pf value image Hf Him image'. pose proof (field_at_valid _ _ _ _ _ Hv Hf) as (H1 & H2 & H3 & H4).
  split; [eapply encode_range; eassumption|].
  assert (Hlo : 0 <= low_bit (fmt_size pfrm) pf) by (unfold low_bit; lia). split.
  - apply Z.bits_inj'. intros i Hi. rewrite (get_bits _ _ _ _ _ _ _ Hv Hf Hi).
    subst image'. rewrite (encode_bits _ _ _ _ _ _ _ _ Hv Hf Him), Z.testbit_mod_pow2, Z.add_simpl_r by lia.
    unfold in_field. bit_cases; lia || reflexivity.
  - intros k pg Hg Hd. apply Z.bits_inj'. intros i Hi. rewrite !(get_bits _ _ _ _ _ _ _ Hv Hg Hi).
    pose proof (field_at_valid _ _ _ _ _ Hv Hg) as (G1 & G2 & G3 & G4).
    assert (0 <= low_bit (fmt_size pfrm) pg) by (unfold low_bit; lia).
    destruct (Z.ltb_spec i (f_size pg)) as [Hlt|Hge]; cbn [andb].
    + subst image'. rewrite (encode_bits _ _ _ _ _ _ _ _ Hv Hf Him) by lia.
      destruct (in_field (fmt_size pfrm) pf (i + low_bit (fmt_size pfrm) pg)) eqn:E; [|reflexivity].
      apply Hd in E. unfold in_field in E. apply andb_false_iff in E as [E%Z.leb_gt|E%Z.ltb_ge]; lia.
    + reflexivity.
Qed.

Definition demo_gas_format : ac_dec_format :=
  MkFormat 0 "Type_I" 32 [MkField "op" 6 5 1 0 0; MkField "rs" 5 10 2 0 0; MkField "imm" 21 31 3 0 1].

Lemma demo_valid_formats : valid_formats [demo_gas_format].
Proof. repeat constructor; cbn; lia. Qed.

Lemma encode_get_roundtrip_witness : exists ec vc,
  encode_cases [demo_gas_format] = Ret ec /\ value_cases [demo_gas_format] = Ret vc /\
  ac_encode_insn ec 0 1 0x1E7 0xFFFFFFFF = 0xFCFFFFFF /\
  ac_get_field_value vc 0 1 (ac_encode_insn ec 0 1 0x1E7 0xFFFFFFFF) = 0x1E7 mod 2 ^ 5 /\
  ac_get_field_value vc 0 2 (ac_encode_insn ec 0 1 0x1E7 0xFFFFFFFF) = ac_get_field_value vc 0 2 0xFFFFFFFF.
Proof.
  destruct (encode_get_roundtrip [demo_gas_format] demo_valid_formats) as (ec & vc & He & Hc & H).
  exists ec, vc. split; [exact He|]. split; [exact Hc|]. split; [vm_compute in He; injection He as <-; reflexivity|].
  assert (Hf : field_at [demo_gas_format] 0 1 demo_gas_format (MkField "rs" 5 10 2 0 0)) by (repeat split; lia).
  destruct (H 0 1 _ _ 0x1E7 0xFFFFFFFF Hf ltac:(lia)) as (_ & H1 & H2). split; [exact H1|].
  apply (H2 2 (MkField "imm" 21 31 3 0 1)); [repeat split; lia|].
  intros i. unfold in_field, low_bit, demo_gas_format. cbn [f_size f_first_bit fmt_size]. bit_cases; cbn; lia || congruence.
Defined.
