(* ===== verification/BinBfd.v ===== *)
(** * Relocations of the generated BFD library ([archc/src/acbinutils/bfd.c])

    Address and expression operands of native instructions get a relocation, one
    per operand type, numbered from 1; the relocation files print the reserved
    numbers first and the new ones in numerical order behind the 36 reserved. *)
From S2P Require Import Prelude CString DecTypes AsmTypes BinUtils BinOpcodes.

Record ac_relocation_type := MkReloc { r_name : string; r_id : Z; r_operand_id : Z }.

Section Relocations.
Context (instrs : list ac_dec_instr) (arch_name : string).

Definition compare_relocs (first_operand second_operand : Z) : bool := first_operand =? second_operand.

Definition find_relocation (operand_id : Z) (relocation_types_list : list ac_relocation_type)
    : option ac_relocation_type :=
  list_first (fun r => compare_relocs operand_id (r_operand_id r)) relocation_types_list.

Definition find_relocation_by_id (id : Z) (relocation_types_list : list ac_relocation_type)
    : option ac_relocation_type :=
  list_first (fun r => r_id r =? id) relocation_types_list.

(** The relocation list, newest first, and the operand table. *)
Definition reloc_state : Type := list ac_relocation_type * list oper.

Definition process_operand (s : reloc_state) (opP : ac_operand) : exec (reloc_state * ac_operand) :=
  let '(rl, ol) := s in
  match op_type opP with
  | op_addr | op_exp =>
      let operand_id := u32 (op_oper_id opP) in
      match find_relocation operand_id rl with
      | None =>
          let id := match rl with [] => 1 | r :: _ => u32 (r_id r + 1) end in
          let name := "R_" +:+ arch_name +:+ "_ID" +:+ fmt_d (s32 id) +:+ "_Opr" +:+ fmt_d operand_id in
          if (String.length name <? 128)%nat then
            ol ← update_oper_list (op_oper_id opP) id ol;
            Ret (MkReloc name id operand_id :: rl, ol, set_op_reloc_id id opP)
          else Crash
      | Some r =>
          ol ← update_oper_list (op_oper_id opP) (r_id r) ol;
          Ret (rl, ol, set_op_reloc_id (r_id r) opP)
      end
  | _ => Ret (s, opP)
  end.

Definition process_instruction_relocation (s : reloc_state) (asml : ac_asm_insn)
    : exec (reloc_state * ac_asm_insn) :=
  '(s, ops) ← thread process_operand s (asm_operands asml);
  Ret (s, set_asm_operands ops asml).

Definition relocation_insn (s : reloc_state) (asml : ac_asm_insn) : exec (reloc_state * ac_asm_insn) :=
  i ← insn_of instrs asml;
  match i with None => Ret (s, asml) | Some _ => process_instruction_relocation s asml end.

Definition create_relocation_list (s : reloc_state) (asml : list ac_asm_insn)
    : exec (reloc_state * list ac_asm_insn) := thread relocation_insn s asml.

(** ** Relocation files *)

(** The loop over [find_relocation_by_id] from [reloc_id] until a number is
    missing; every number found uses up one of the [fuel] list elements. *)
Fixpoint relocations_from (fuel : nat) (reloc_id : Z) (rl : list ac_relocation_type) : list ac_relocation_type :=
  match fuel with
  | O => []
  | S n =>
      match find_relocation_by_id reloc_id rl with
      | None => []
      | Some r => r :: relocations_from n (u32 (reloc_id + 1)) rl
      end
  end.
Definition relocations_by_id (rl : list ac_relocation_type) : list ac_relocation_type :=
  relocations_from (S (length rl)) 1 rl.

Definition reloc_number (name : string) (sep : string) (n : Z) : string :=
  IND1 +:+ "RELOC_NUMBER (" +:+ name +:+ "," +:+ sep +:+ fmt_d n +:+ ")" +:+ nl.
Definition arch_reloc (suffix : string) : string := "R_" +:+ arch_name +:+ "_" +:+ suffix.

Definition CreateRelocIds (opens : string -> bool) (relocid_filename : string) (rl : list ac_relocation_type)
    : exec (option (string * string)) :=
  with_file opens relocid_filename (Ret (
    reloc_number (arch_reloc "NONE") " " 0
    +:+ reloc_number (arch_reloc "RELATIVE") "  " 1
    +:+ reloc_number (arch_reloc "COPY") " " 2
    +:+ reloc_number (arch_reloc "JUMP_SLOT") " " 3
    +:+ reloc_number (arch_reloc "GLOB_DAT") " " 4
    +:+ reloc_number (arch_reloc "8") "  " 5
    +:+ reloc_number (arch_reloc "16") " " 6
    +:+ reloc_number (arch_reloc "32") " " 7
    +:+ reloc_number (arch_reloc "REL8") "  " 8
    +:+ reloc_number (arch_reloc "REL16") " " 9
    +:+ reloc_number (arch_reloc "REL32") " " 10
    +:+ reloc_number (arch_reloc "GOT") "  " 11
    +:+ reloc_number (arch_reloc "GOTOFF") " " 12
    +:+ reloc_number (arch_reloc "PLT") " " 13
    +:+ concat_map (fun r => reloc_number (r_name r) " " (s32 (u32 (r_id r + RELOC_BASE)))) (relocations_by_id rl))).

(** One [HOWTO] entry: name, the arguments up to the special function, the
    function, the printed name and the arguments behind it. *)
Definition howto (name args special printed rest : string) : string :=
  IND1 +:+ "HOWTO (" +:+ name +:+ ", " +:+ args +:+ ", " +:+ special +:+ ", " +:+ printed +:+ ", " +:+ rest +:+ ")," +:+ nl.
Definition howto_dont (suffix : string) : string :=
  howto (arch_reloc suffix) "0, 0, 0, FALSE, 0, complain_overflow_dont" "bfd_elf_archc_reloc"
    (quoted (arch_reloc suffix)) "FALSE, 0, 0, FALSE".
Definition howto_data (suffix blank args pad mask : string) : string :=
  IND1 +:+ "HOWTO (" +:+ arch_reloc suffix +:+ "," +:+ blank +:+ args
  +:+ ", 0, complain_overflow_bitfield, generic_data_reloc,  " +:+ quoted (arch_reloc suffix) +:+ "," +:+ pad
  +:+ "FALSE, 0, " +:+ mask +:+ ", TRUE)," +:+ nl.

Definition CreateRelocHowto (opens : string -> bool) (reloc_howto_filename : string) (rl : list ac_relocation_type)
    : exec (option (string * string)) :=
  with_file opens reloc_howto_filename (Ret (
    howto_dont "NONE" +:+ howto_dont "RELATIVE" +:+ howto_dont "COPY" +:+ howto_dont "JUMP_SLOT"
    +:+ howto_dont "GLOB_DAT"
    +:+ howto_data "8" "  " "0, 0,  8, FALSE" "    " "0x000000ff"
    +:+ howto_data "16" " " "0, 1, 16, FALSE" "   " "0x0000ffff"
    +:+ howto_data "32" " " "0, 2, 32, FALSE" "   " "0xffffffff"
    +:+ howto_data "REL8" "  " "0, 0,  8, TRUE" "    " "0x000000ff"
    +:+ howto_data "REL16" " " "0, 1, 16, TRUE" "   " "0x0000ffff"
    +:+ howto_data "REL32" " " "0, 2, 32, TRUE" "   " "0xffffffff"
    +:+ howto_data "GOT" " " "0, 2, 32, TRUE" "   " "0xffffffff"
    +:+ howto_data "GOTOFF" " " "0, 2, 32, TRUE" "   " "0xffffffff"
    +:+ howto_data "PLT" " " "0, 2, 32, TRUE" "   " "0xffffffff"
    +:+ concat_map (fun r => howto (r_name r)
          (fmt_d (s32 (r_operand_id r)) +:+ ", 0, 0, FALSE, 0, complain_overflow_dont") "bfd_elf_archc_reloc"
          (quoted (r_name r)) "TRUE, 0x0, 0x0, TRUE") (relocations_by_id rl))).

Definition reloc_pair (n suffix : string) : string :=
  IND1 +:+ "{ " +:+ n +:+ ", " +:+ "R_" +:+ arch_name +:+ "_" +:+ suffix +:+ "}," +:+ nl.

(** The loop looks up the next relocation before it prints the current one. *)
Definition CreateRelocMap (opens : string -> bool) (relocmap_filename : string) (rl : list ac_relocation_type)
    : exec (option (string * string)) :=
  with_file opens relocmap_filename (Ret (
    reloc_pair "BFD_RELOC_NONE" "NONE "
    +:+ reloc_pair "1" "RELATIVE  " +:+ reloc_pair "2" "COPY  " +:+ reloc_pair "3" "JUMP_SLOT  "
    +:+ reloc_pair "4" "GLOB_DAT  " +:+ reloc_pair "5" "8  " +:+ reloc_pair "6" "16 " +:+ reloc_pair "7" "32 "
    +:+ reloc_pair "8" "REL8  " +:+ reloc_pair "9" "REL16 " +:+ reloc_pair "10" "REL32 "
    +:+ reloc_pair "11" "GOT  " +:+ reloc_pair "12" "GOTOFF " +:+ reloc_pair "13" "PLT  "
    +:+ concat_map (fun r => IND1 +:+ "{ " +:+ fmt_d (s32 (u32 (r_id r + RELOC_BASE))) +:+ ", " +:+ r_name r +:+ " }," +:+ nl)
          (relocations_by_id rl))).
End Relocations.

(** ** The relocation table is correct

    Relocations are numbered from 1 in order of creation, one per operand type;
    the printing loop visits each once; operands and operand table point to them. *)
From S2P Require Import Prelude CString DecTypes AsmTypes BinUtils BinOpcodes BinOpcodesOk.

Section RelocationTable.
Context (instrs : list ac_dec_instr) (arch : string) (ol0 : list oper).
Context (Hol0 : NoDup (map o_id ol0)).

Notation relocs_ok rl := (table_ok (fun r => r_id r - 1) r_operand_id (reverse rl)).

(** The entry of the operand table with the number of its relocation. *)
Definition with_reloc (rl : list ac_relocation_type) (o : oper) : oper :=
  match find_relocation (o_id o) rl with Some r => set_o_reloc_id (r_id r) o | None => o end.

Definition state_ok (s : reloc_state) : Prop :=
  Z.of_nat (length s.1) < 2 ^ 31 -> relocs_ok s.1 /\ s.2 = map (with_reloc s.1) ol0.

Definition state_grown (s s' : reloc_state) : Prop :=
  reverse s.1 `prefix_of` reverse s'.1 /\ (state_ok s -> state_ok s').

#[export] Instance state_grown_preorder : PreOrder state_grown.
Proof.
  split; [split; [reflexivity|tauto]|]. intros a b c [H1 H2] [H3 H4]. split; [etransitivity; eassumption|tauto].
Qed.

(** The operand points to the relocation of its operand type. *)
Definition relocated (rl : list ac_relocation_type) (x y : ac_operand) : Prop :=
  match op_type x with
  | op_addr | op_exp => exists r, r ∈ rl /\ r_operand_id r = u32 (op_oper_id x) /\ y = set_op_reloc_id (r_id r) x
  | _ => y = x
  end.

Lemma update_oper_list_ok id rid g ol' : (forall o, o_id (g o) = o_id o) ->
  update_oper_list id rid (map g ol0) = Ret ol' ->
  ol' = map (fun o => if o_id o =? u32 id then set_o_reloc_id rid (g o) else g o) ol0.
Proof.
  intros Hg. revert ol'. induction ol0 as [|o ol IH]; intros ol'; cbn [map update_oper_list]; [discriminate|].
  apply NoDup_cons in Hol0 as [Hn Hd]. rewrite Hg. destruct (Z.eqb_spec (o_id o) (u32 id)) as [E|E].
  - intros [= <-]. f_equal. apply map_ext_in. intros p Hp. destruct (Z.eqb_spec (o_id p) (u32 id)); [|reflexivity].
    destruct Hn. rewrite E. apply list_elem_of_fmap. exists p. split; [congruence|]. apply list_elem_of_In. assumption.
  - intros H. exec_inv H. injection H as <-. f_equal. apply IH; assumption.
Qed.

Lemma find_relocation_spec id rl r : find_relocation id rl = Some r -> r ∈ rl /\ r_operand_id r = id.
Proof. intros [H1 H2]%list_first_Some. unfold compare_relocs in H2. split; [assumption|lia]. Qed.

Lemma with_reloc_id rl o : o_id (with_reloc rl o) = o_id o.
Proof. unfold with_reloc. destruct (find_relocation (o_id o) rl); reflexivity. Qed.

(** Entering a relocation or reusing one. *)
Lemma update_known rl id r ol' : find_relocation (u32 id) rl = Some r ->
  update_oper_list id (r_id r) (map (with_reloc rl) ol0) = Ret ol' -> ol' = map (with_reloc rl) ol0.
Proof.
  intros Hr H. apply update_oper_list_ok in H as ->; [|apply with_reloc_id].
  apply map_ext. intros o. destruct (Z.eqb_spec (o_id o) (u32 id)) as [E|]; [|reflexivity].
  unfold with_reloc. rewrite E, Hr. reflexivity.
Qed.

Lemma update_new rl id name rid ol' : find_relocation (u32 id) rl = None ->
  update_oper_list id rid (map (with_reloc rl) ol0) = Ret ol' ->
  ol' = map (with_reloc (MkReloc name rid (u32 id) :: rl)) ol0.
Proof.
  intros Hr H. apply update_oper_list_ok in H as ->; [|apply with_reloc_id].
  apply map_ext. intros o. unfold with_reloc, find_relocation, compare_relocs. cbn [list_first r_operand_id].
  destruct (Z.eqb_spec (o_id o) (u32 id)) as [E|]; [|reflexivity]. rewrite E. fold (compare_relocs (u32 id)).
  change (list_first _ rl) with (find_relocation (u32 id) rl). rewrite Hr. reflexivity.
Qed.

Lemma process_operand_ok s x s' y : process_operand arch s x = Ret (s', y) ->
  state_grown s s' /\ relocated s'.1 x y.
Proof.
  destruct s as [rl ol]. unfold process_operand, relocated.
  assert (Haddr : (match find_relocation (u32 (op_oper_id x)) rl with
      | None =>
          let id := match rl with [] => 1 | r :: _ => u32 (r_id r + 1) end in
          let name := "R_" +:+ arch +:+ "_ID" +:+ fmt_d (s32 id) +:+ "_Opr" +:+ fmt_d (u32 (op_oper_id x)) in
          if (String.length name <? 128)%nat then
            ol ← update_oper_list (op_oper_id x) id ol;
            Ret (MkReloc name id (u32 (op_oper_id x)) :: rl, ol, set_op_reloc_id id x)
          else Crash
      | Some r => ol ← update_oper_list (op_oper_id x) (r_id r) ol; Ret (rl, ol, set_op_reloc_id (r_id r) x)
      end = Ret (s', y)) ->
    state_grown (rl, ol) s' /\
    exists r, r ∈ s'.1 /\ r_operand_id r = u32 (op_oper_id x) /\ y = set_op_reloc_id (r_id r) x).
  2:{ destruct (op_type x); try exact Haddr; intros [= <- <-]; (split; [reflexivity|reflexivity]). }
  destruct (find_relocation (u32 (op_oper_id x)) rl) as [r|] eqn:Er.
  - intros H. exec_inv H. injection H as <- <-. cbn [fst]. split.
    + split; [reflexivity|]. intros Hok Hl. destruct (Hok Hl) as [H1 H2]. cbn [fst snd] in *. split; [assumption|]. subst ol.
      eapply update_known; eassumption.
    + apply find_relocation_spec in Er as [H1 H2]. exists r. auto.
  - cbv zeta. destruct (_ <? 128)%nat; [|discriminate]. intros H. exec_inv H. injection H as <- <-. cbn [fst]. split.
    + split; cbn [fst]; [rewrite reverse_cons; apply prefix_app_r; reflexivity|].
      intros Hok Hl. cbn [fst snd length] in *. destruct (Hok ltac:(cbn [fst]; lia)) as [H1 H2]. cbn [fst snd] in *. split.
      * rewrite reverse_cons. apply table_ok_snoc; [assumption| |].
        -- cbn. rewrite length_reverse. destruct rl as [|r0 rl]; [reflexivity|].
           destruct H1 as [Hn _]. specialize (Hn (length rl) r0). rewrite reverse_cons in Hn.
           specialize (Hn ltac:(apply list_lookup_middle; rewrite length_reverse; reflexivity)).
           cbn [length] in *. rewrite uwrap_small by lia. lia.
        -- intros r Hr. cbn. rewrite elem_of_reverse in Hr. unfold find_relocation in Er.
           rewrite list_first_None in Er. specialize (Er r Hr). unfold compare_relocs in Er. lia.
      * subst ol. eapply update_new; eassumption.
    + eexists. split; [left|]. split; reflexivity.
Qed.
Lemma relocated_mono rl rl' x y : reverse rl `prefix_of` reverse rl' -> relocated rl x y -> relocated rl' x y.
Proof.
  intros [m Hm]. unfold relocated.
  assert (forall r, r ∈ rl -> r ∈ rl').
  { intros r Hr. apply elem_of_reverse. rewrite Hm. apply elem_of_app. left. apply elem_of_reverse. assumption. }
  destruct (op_type x); [tauto| |tauto|]; intros (r & Hr & H1 & H2); exists r; auto.
Qed.

Definition insn_relocated (rl : list ac_relocation_type) (a a' : ac_asm_insn) : Prop :=
  exists i, insn_of instrs a = Ret i /\
  match i with
  | None => a' = a
  | Some _ => exists ops, a' = set_asm_operands ops a /\ Forall2 (relocated rl) (asm_operands a) ops
  end.

Lemma relocation_insn_ok s x s' y : relocation_insn instrs arch s x = Ret (s', y) ->
  state_grown s s' /\ insn_relocated s'.1 x y.
Proof.
  unfold relocation_insn. intros H. exec_inv H. destruct a as [i|].
  2:{ injection H as <- <-. split; [reflexivity|]. exists None. auto. }
  unfold process_instruction_relocation in H. exec_inv H. destruct a as [s1 ops]. injection H as <- <-.
  apply (thread_inv (process_operand arch) state_grown (fun s x y => relocated s.1 x y)) in E0 as [H1 H2];
    [|exact _|intros a b u v [Hp _]; apply relocated_mono, Hp|exact process_operand_ok].
  split; [assumption|]. exists (Some i). split; [assumption|]. exists ops. auto.
Qed.

Lemma relocations_from_ok rl n : relocs_ok rl -> Z.of_nat (length rl) < 2 ^ 31 -> forall k, (k <= length rl)%nat ->
  (length rl - k < n)%nat -> relocations_from n (Z.of_nat k + 1) rl = drop k (reverse rl).
Proof.
  intros [Hn Hd] Hl. induction n as [|n IH]; intros k Hk Hkn; [lia|]. cbn [relocations_from].
  destruct (find_relocation_by_id (Z.of_nat k + 1) rl) as [r|] eqn:E; unfold find_relocation_by_id in E.
  - apply list_first_Some in E as [Hr Hid]. rewrite <- elem_of_reverse in Hr.
    apply list_elem_of_lookup in Hr as [j Hj]. pose proof (Hn _ _ Hj) as Hj'. cbn in Hj'.
    assert (j = k) as -> by lia. pose proof (lookup_lt_Some _ _ _ Hj) as Hlt. rewrite length_reverse in Hlt.
    rewrite (drop_S _ r) by assumption. f_equal. rewrite uwrap_small by lia.
    rewrite <- (IH (S k)) by lia. f_equal. lia.
  - rewrite list_first_None in E. destruct (decide (k = length rl)) as [->|Hne].
    + rewrite drop_ge; [reflexivity|]. rewrite length_reverse. lia.
    + destruct (lookup_lt_is_Some_2 (reverse rl) k) as [r Hr]; [rewrite length_reverse; lia|].
      pose proof (Hn _ _ Hr) as Hid. cbn in Hid. apply list_elem_of_lookup_2, elem_of_reverse, E in Hr. lia.
Qed.

(** Relocations: with an operand table of distinct numbers, when
    [create_relocation_list] succeeds the relocations are numbered 1, 2, ... in
    order of creation, no two are for the same operand type, the printing loop
    visits them all in that order, every address or expression operand of a
    native instruction carries the number of the relocation of its operand type,
    and the operand table carries the same numbers and is otherwise unchanged. *)
Theorem relocation_table_exact asml rl ol asml' :
  create_relocation_list instrs arch ([], ol0) asml = Ret ((rl, ol), asml') -> Z.of_nat (length rl) < 2 ^ 31 ->
  (forall k r, reverse rl !! k = Some r -> r_id r = Z.of_nat k + 1) /\
  NoDup (map r_operand_id (reverse rl)) /\
  relocations_by_id rl = reverse rl /\
  Forall2 (insn_relocated rl) asml asml' /\
  ol = map (with_reloc rl) ol0.
Proof.
  unfold create_relocation_list. intros H Hl.
  apply (thread_inv (relocation_insn instrs arch) state_grown (fun s x y => insn_relocated s.1 x y)) in H as [[_ H1] H2];
    [|exact _| |exact relocation_insn_ok].
  2:{ intros a b u v [Hp _] (i & Hi & Ha). exists i. split; [assumption|]. destruct i; [|assumption].
      destruct Ha as (ops & Hu & Hr). exists ops. split; [assumption|]. eapply Forall2_impl; [eassumption|].
      intros. eapply relocated_mono; eassumption. }
  destruct H1 as [Hok Hm]; [|exact Hl|].
  { intros _. cbn [fst snd]. split; [split; [intros k r Hk; discriminate|constructor]|].
    symmetry. apply list_fmap_id. }
  cbn [fst snd] in *. split; [|split; [exact (proj2 Hok)|split]]; [| |auto].
  - intros k r Hk. pose proof (proj1 Hok _ _ Hk). cbn in *. lia.
  - unfold relocations_by_id. exact (relocations_from_ok rl (S (length rl)) Hok Hl 0 ltac:(lia) ltac:(lia)).
Qed.
End RelocationTable.

(** Two instructions with the same address operand. *)
Definition demo_jump : ac_dec_instr := MkInstr "j" 4 None None "Type_J" 1 1 1 1 [] None.
Definition demo_jump_insn (m : string) : ac_asm_insn :=
  MkAsm m " %" " %addr" [MkOperand "addr" op_addr (MkModifier None 0 0) [] false 0 0] (Some 0%nat) [] [] 0.
Definition demo_opers : list oper := [MkOper 0 "addr" op_addr 0 0 false 2 0 0 0].

Lemma relocation_table_exact_witness : exists rl ol asml',
  create_relocation_list [demo_jump] "arm" ([], demo_opers) [demo_jump_insn "j"; demo_jump_insn "jal"]
    = Ret ((rl, ol), asml') /\ relocations_by_id rl = reverse rl /\ map o_reloc_id ol = [1].
Proof.
  destruct (create_relocation_list [demo_jump] "arm" ([], demo_opers) [demo_jump_insn "j"; demo_jump_insn "jal"])
    as [[[rl ol] asml']| |] eqn:E; [|vm_compute in E; discriminate E..].
  exists rl, ol, asml'. split; [reflexivity|].
  assert (Hl : length rl = 1%nat) by (vm_compute in E; injection E as <- <- <-; reflexivity).
  split; [|vm_compute in E; injection E as <- <- <-; reflexivity].
  eapply (relocation_table_exact [demo_jump] "arm" demo_opers (NoDup_singleton _) _ _ _ _ E). rewrite Hl. reflexivity.
Defined.
