(* ===== verification/BinShare.v ===== *)
(** * Functions shared by the generated modules ([binutils/bfd/share-xxxxx.c])

    Reading and writing bit strings in memory, the numbers of the fields of an
    operand, the encoding of an operand's value in an instruction image, and the
    result lists of modifiers.  The modifiers come with the architecture
    description and are parameters, as are the generated tables. *)
From S2P Require Import Prelude CString DecTypes AsmTypes BinUtils BinOpcodes BinGas.

(** ** Bit strings in memory *)

(** The low [n] bits: [mask = (mask << 1) | 1], [n] times, at width [w]. *)
Definition shift_mask (wrap : Z -> Z) (n : Z) : Z :=
  Nat.iter (Z.to_nat n) (fun mask => Z.lor (wrap (Z.shiftl mask 1)) 1) 0.

(** The loop of [getbits]: [n] bytes from [index] in steps of [inc]. *)
Fixpoint read_bytes (n : nat) (location : list Z) (index inc data : Z) : exec Z :=
  match n with
  | O => Ret data
  | S n =>
      if index <? 0 then Crash
      else match location !! Z.to_nat index with
           | None => Crash
           | Some b => read_bytes n location (index + inc) inc (Z.lor (s64 (Z.shiftl data 8)) b)
           end
  end.

Definition byte_count (bitsize : Z) : Z := bitsize / 8 + (if bitsize mod 8 =? 0 then 0 else 1).

Definition getbits (bitsize : Z) (location : list Z) (endian : Z) : exec Z :=
  let bits_remain := bitsize mod 8 in
  let number_bytes := byte_count bitsize in
  data ← (if endian =? 1 then read_bytes (Z.to_nat number_bytes) location 0 1 0
          else read_bytes (Z.to_nat number_bytes) location (number_bytes - 1) (-1) 0);
  let mask := shift_mask s64 bitsize in
  let data :=
    if negb (bits_remain =? 0) && (endian =? 1) then
      let high := s64 (Z.shiftl mask bits_remain) in
      Z.lor (Z.land (Z.shiftr data (8 - bits_remain)) high) (Z.land data (Z.lnot high))
    else data in
  Ret (Z.land data mask).

Section Putbits.
(** [0xFF << n] in an [int]: undefined from [n = 32] on, whatever the machine
    gives there. *)
Context (wild : Z -> Z).

Definition ff_shift (n : Z) : Z := if n <? 32 then s32 (Z.shiftl 255 n) else wild n.

Definition value_byte (value : Z) (i : nat) : Z :=
  u8 (Z.shiftr (Z.land value (ff_shift (8 * Z.of_nat i))) (8 * Z.of_nat i)).
Definition value_bytes (value : Z) : list Z := map (value_byte value) (seq 0 8).

(** [location[i] = v]. *)
Definition store (location : list Z) (i : Z) (v : Z) : exec (list Z) :=
  if (0 <=? i) && (i <? Z.of_nat (length location)) then Ret (<[Z.to_nat i := u8 v]> location) else Crash.
Definition load (bytes : list Z) (i : Z) : exec Z :=
  if i <? 0 then Crash else of_option (bytes !! Z.to_nat i).

Fixpoint put_little (n : nat) (index : Z) (bytes location : list Z) : exec (list Z) :=
  match n with
  | O => Ret location
  | S n => b ← load bytes index; location ← store location index b; put_little n (index + 1) bytes location
  end.

(** [index] goes down to 0, [i] up from 0. *)
Fixpoint put_big (n : nat) (i index bits_remain mask : Z) (bytes location : list Z) : exec (list Z) :=
  match n with
  | O => Ret location
  | S n =>
      lo ← load bytes index;
      v ← (if bits_remain =? 0 then Ret lo
           else hi ← load bytes (index + 1);
                Ret (Z.lor (Z.shiftl (Z.land hi mask) (8 - bits_remain)) (Z.shiftr lo bits_remain)));
      location ← store location i v;
      put_big n (i + 1) (index - 1) bits_remain mask bytes location
  end.

(** The last, partial byte keeps its other bits. *)
Definition put_rest (number_bytes mask b : Z) (location : list Z) : exec (list Z) :=
  old ← load location number_bytes;
  store location number_bytes (Z.lor (Z.land old (Z.lnot mask)) (Z.land b mask)).

Definition putbits (bitsize : Z) (location : list Z) (value endian : Z) : exec (list Z) :=
  let number_bytes := bitsize / 8 in
  let bits_remain := bitsize mod 8 in
  let bytes := value_bytes value in
  let mask := shift_mask u8 bits_remain in
  if endian =? 0 then
    location ← put_little (Z.to_nat number_bytes) 0 bytes location;
    if bits_remain =? 0 then Ret location
    else b ← load bytes number_bytes; put_rest number_bytes mask b location
  else
    location ← put_big (Z.to_nat number_bytes) 0 (number_bytes - 1) bits_remain mask bytes location;
    if bits_remain =? 0 then Ret location
    else b ← load bytes 0; put_rest number_bytes mask b location.
End Putbits.

(** ** Fields of an operand *)

(** The loops [for (; shift; shift <<= 1)] visit the 32 bits from the lowest. *)
Fixpoint count_fields (n : nat) (encoded_field bit numf : Z) : Z :=
  match n with
  | O => numf
  | S n => count_fields n encoded_field (bit + 1) (if Z.testbit encoded_field bit then numf + 1 else numf)
  end.
Definition get_num_fields (encoded_field : Z) : Z := count_fields 32 encoded_field 0 0.

Fixpoint field_id_from (n : nat) (encoded_field pos counter : Z) : Z :=
  match n with
  | O => 999
  | S n =>
      if Z.testbit encoded_field counter then
        if pos =? 0 then counter else field_id_from n encoded_field (pos - 1) (counter + 1)
      else field_id_from n encoded_field pos (counter + 1)
  end.
Definition get_field_id (encoded_field pos : Z) : Z := field_id_from 32 encoded_field pos 0.

(** ** Modifier parameters and result lists *)

(** One node: result and separator. *)
Definition list_op_results : Type := list (Z * Z).

Definition list_results_has_data (lr : list_op_results) : Z := match lr with [] => 0 | _ => 1 end.
Definition list_results_get_separator (lr : list_op_results) : exec Z :=
  match lr with [] => Crash | (_, separator) :: _ => Ret separator end.
Definition list_results_next (lr : list_op_results) : exec (Z * list_op_results) :=
  match lr with [] => Crash | (result, _) :: lr => Ret (result, lr) end.
Definition list_results_store (lr : list_op_results) (result : Z) : list_op_results := lr ++ [(result, 0)].
Definition free_list_results (lr : list_op_results) : list_op_results := [].

Record mod_parms := MkParms {
  mp_addend : Z;
  mp_list_results : list_op_results;
  mp_input : Z;
  mp_address : Z;
  mp_output : Z;
  mp_error : Z;
  mp_field : list Z
}.

Definition set_input (v : Z) (mp : mod_parms) : mod_parms :=
  MkParms (mp_addend mp) (mp_list_results mp) v (mp_address mp) (mp_output mp) (mp_error mp) (mp_field mp).
Definition set_output (v : Z) (mp : mod_parms) : mod_parms :=
  MkParms (mp_addend mp) (mp_list_results mp) (mp_input mp) (mp_address mp) v (mp_error mp) (mp_field mp).
Definition set_fields (l : list Z) (mp : mod_parms) : mod_parms :=
  MkParms (mp_addend mp) (mp_list_results mp) (mp_input mp) (mp_address mp) (mp_output mp) (mp_error mp) l.
Definition set_addend_error (addend err : Z) (mp : mod_parms) : mod_parms :=
  MkParms addend (mp_list_results mp) (mp_input mp) (mp_address mp) (mp_output mp) err (mp_field mp).

(** [mp->field[fid] = v]; the array has [___max_fields___] elements. *)
Definition set_field (fid v : Z) (mp : mod_parms) : exec mod_parms :=
  if (0 <=? fid) && (fid <? Z.of_nat (length (mp_field mp)))
  then Ret (set_fields (<[Z.to_nat fid := u32 v]> (mp_field mp)) mp) else Crash.
Definition get_field (fid : Z) (mp : mod_parms) : exec Z :=
  if fid <? 0 then Crash else of_option (mp_field mp !! Z.to_nat fid).

(** ** Encoding an operand *)

Section EncodeField.
Context (formats : list ac_dec_format) (encoder : list (list encode_case)).
Context (operands : list oper) (modfn : list (mod_parms -> exec mod_parms)).

Definition operand_at (oper_id : Z) : exec oper :=
  if oper_id <? 0 then Crash else of_option (operands !! Z.to_nat oper_id).

(** From the last field to the first, the low bits of the input first. *)
Fixpoint spread (n : nat) (o : oper) (mp : mod_parms) : exec mod_parms :=
  match n with
  | O => Ret mp
  | S i =>
      let fid := get_field_id (o_fields o) (Z.of_nat i) in
      mp ← set_field fid (mp_input mp) mp;
      input ← shr32 (mp_input mp) (get_field_size formats (o_format_id o) fid);
      spread i o (set_input input mp)
  end.

(** [for (lt = 0; lt < nf; lt++)]. *)
Fixpoint encode_all (n : nat) (lt : Z) (o : oper) (mp : mod_parms) (image : Z) : exec Z :=
  match n with
  | O => Ret image
  | S n =>
      let fid := get_field_id (o_fields o) lt in
      v ← get_field fid mp;
      encode_all n (lt + 1) o mp (ac_encode_insn encoder (o_format_id o) fid v image)
  end.

Definition encode_cons_field (image : Z) (mp : mod_parms) (oper_id : Z) : exec (Z * mod_parms) :=
  o ← operand_at oper_id;
  let nf := get_num_fields (o_fields o) in
  if o_mod_type o >? Z.of_nat (length modfn) then Exit "Assertion failed"
  else
    let mp := set_addend_error (o_mod_addend o) 0 mp in
    mp ← (if o_mod_type o =? 0 then spread (Z.to_nat nf) o mp
          else
            let mp := set_output 0 (set_fields (map (fun _ => 0) (mp_field mp)) mp) in
            f ← (if o_mod_type o <? 0 then Crash else of_option (modfn !! Z.to_nat (o_mod_type o)));
            mp ← f mp;
            if mp_output mp =? 0 then Ret mp
            else set_field (get_field_id (o_fields o) 0) (mp_output mp) mp);
    image ← encode_all (Z.to_nat nf) 0 o mp image;
    Ret (image, mp).

(** [print_operand_info], a debugging aid. *)
Definition type_word (t : operand_type) : string :=
  match t with op_exp => "exp, " | op_imm => "imm, " | op_addr => "addr, " | op_userdef => "userdef, " end.
Definition print_operand_info (indent opid : Z) : exec string :=
  o ← operand_at opid;
  let numf := get_num_fields (o_fields o) in
  Ret (String.concat "" (repeat " " (Z.to_nat indent)) +:+ "<" +:+ quoted (o_name o) +:+ ", "
       +:+ type_word (o_type o) +:+ "mod_type = " +:+ fmt_d (o_mod_type o) +:+ " "
       +:+ "0x" +:+ zero_pad 8 (fmt_x true (o_fields o)) +:+ ":" +:+ fmt_d numf +:+ ":[ "
       +:+ concat_map (fun count => fmt_d (get_field_id (o_fields o) (Z.of_nat count)) +:+ " ") (seq 0 (Z.to_nat numf))
       +:+ "], " +:+ fmt_d (o_reloc_id o + RELOC_BASE) +:+ ">" +:+ nl).
End EncodeField.
