(* ===== verification/BinShareOk.v ===== *)
(** * Bit strings in memory are read as they were written

    [putbits] then [getbits] at the same place, of at most 32 bits, in either
    byte order, whole bytes or not. *)
From S2P Require Import Prelude CString DecTypes AsmTypes BinUtils BinOpcodes BinGas BinShare.

(** ** Masks *)

Lemma shift_mask_ones wrap n : 0 <= n -> (forall m, 0 <= m < n -> wrap (Z.shiftl (Z.ones m) 1) = Z.shiftl (Z.ones m) 1) ->
  shift_mask wrap n = Z.ones n.
Proof.
  intros Hn Hw. unfold shift_mask. rewrite <- (Z2Nat.id n) at 2 by lia.
  assert (forall m, 0 <= m < Z.of_nat (Z.to_nat n) -> wrap (Z.shiftl (Z.ones m) 1) = Z.shiftl (Z.ones m) 1) as H
    by (intros; apply Hw; lia).
  clear Hn Hw. induction (Z.to_nat n) as [|k IH]; [reflexivity|]. unfold Nat.iter in *. cbn [nat_rect].
  rewrite IH by (intros; apply H; lia). rewrite H by lia.
  apply Z.bits_inj'. intros i Hi. rewrite Z.lor_spec, Z.shiftl_spec by lia. change 1 with (Z.ones 1) at 2.
  rewrite !(testbit_ones (Z.of_nat _)), testbit_ones by lia. bit_cases; lia || reflexivity.
Qed.

Lemma mask8 n : 0 <= n <= 8 -> shift_mask u8 n = Z.ones n.
Proof.
  intros Hn. apply shift_mask_ones; [lia|]. intros m Hm. apply uwrap_small.
  rewrite Z.shiftl_mul_pow2, Z.ones_equiv by lia. assert (0 < 2 ^ m) by (apply Z.pow_pos_nonneg; lia).
  assert (2 ^ m <= 2 ^ 7) by (apply Z.pow_le_mono_r; lia). lia.
Qed.

Lemma mask64 n : 0 <= n <= 62 -> shift_mask s64 n = Z.ones n.
Proof.
  intros Hn. apply shift_mask_ones; [lia|]. intros m Hm. apply swrap_small; [lia|].
  rewrite Z.shiftl_mul_pow2, Z.ones_equiv by lia. assert (0 < 2 ^ m) by (apply Z.pow_pos_nonneg; lia).
  assert (2 ^ m <= 2 ^ 61) by (apply Z.pow_le_mono_r; lia). lia.
Qed.

(** ** Reading *)

(** The bits of [n] bytes [b 0], [b 1], ... read with the first one highest. *)
Lemma read_bytes_bits inc n : forall location index data b k,
  (forall m, (m < n)%nat -> 0 <= index + Z.of_nat m * inc /\
     location !! Z.to_nat (index + Z.of_nat m * inc) = Some (b m) /\ 0 <= b m < 256) ->
  0 <= data < 2 ^ (8 * Z.of_nat k) -> (k + n <= 7)%nat ->
  exists r, read_bytes n location index inc data = Ret r /\ 0 <= r < 2 ^ 56 /\
    forall j, 0 <= j -> Z.testbit r j =
      if j <? 8 * Z.of_nat n then Z.testbit (b (n - 1 - Z.to_nat (j / 8))%nat) (j mod 8)
      else Z.testbit data (j - 8 * Z.of_nat n).
Proof.
  induction n as [|n IH]; intros location index data b k Hb Hd Hk.
  { exists data. split; [reflexivity|]. split.
    - assert (2 ^ (8 * Z.of_nat k) <= 2 ^ 56) by (apply Z.pow_le_mono_r; lia). lia.
    - intros j Hj. rewrite (proj2 (Z.ltb_ge _ _)) by lia. f_equal. lia. }
  destruct (Hb 0%nat ltac:(lia)) as (H1 & H2 & H3). rewrite Z.mul_0_l, Z.add_0_r in H1, H2.
  cbn [read_bytes]. rewrite (proj2 (Z.ltb_ge index 0)), H2 by lia.
  assert (Hk2 : 2 ^ (8 * Z.of_nat (S k)) = 256 * 2 ^ (8 * Z.of_nat k))
    by (change 256 with (2 ^ 8); rewrite <- Z.pow_add_r by lia; f_equal; lia).
  assert (Hk3 : 2 ^ (8 * Z.of_nat (S k)) <= 2 ^ 56) by (apply Z.pow_le_mono_r; lia).
  rewrite swrap_small by (rewrite ?Z.shiftl_mul_pow2 by lia; lia).
  assert (Hlor : 0 <= Z.lor (Z.shiftl data 8) (b 0%nat) < 2 ^ (8 * Z.of_nat (S k))).
  { assert (0 <= Z.lor (Z.shiftl data 8) (b 0%nat)) by (apply Z.lor_nonneg; rewrite Z.shiftl_nonneg; lia).
    split; [assumption|]. apply bits_range; [lia|assumption|]. intros i Hi. rewrite Z.lor_spec, Z.shiftl_spec by lia.
    rewrite (testbit_high (8 * Z.of_nat k) data), (testbit_high 8 (b 0%nat)) by lia. reflexivity. }
  destruct (IH location (index + inc) (Z.lor (Z.shiftl data 8) (b 0%nat)) (fun m => b (S m)) (S k)) as (r & Hr & Hrange & Hbits).
  - intros m Hm. replace (index + inc + Z.of_nat m * inc) with (index + Z.of_nat (S m) * inc) by lia. apply Hb. lia.
  - exact Hlor.
  - lia.
  - exists r. split; [exact Hr|]. split; [assumption|]. intros j Hj. rewrite Hbits by assumption.
    destruct (Z.ltb_spec j (8 * Z.of_nat n)) as [Hl|Hl].
    + rewrite (proj2 (Z.ltb_lt j _)) by lia. do 2 f_equal.
      assert (j / 8 < Z.of_nat n) by (apply Z.div_lt_upper_bound; lia). lia.
    + rewrite Z.lor_spec, Z.shiftl_spec by lia. destruct (Z.ltb_spec j (8 * Z.of_nat (S n))) as [Hs|Hs].
      * assert (j / 8 = Z.of_nat n) as Hq by (symmetry; apply (Z.div_unique_pos _ _ _ (j - 8 * Z.of_nat n)); lia).
        assert (j mod 8 = j - 8 * Z.of_nat n) as Hm by (symmetry; apply (Z.mod_unique_pos _ _ (Z.of_nat n)); lia).
        rewrite Hq, Hm, (Z.testbit_neg_r data) by lia. cbn [orb]. do 2 f_equal. lia.
      * rewrite (testbit_high 8 (b 0%nat)) by lia. rewrite orb_false_r. f_equal. lia.
Qed.

(** ** Writing *)

Section Putbits.
Context (wild : Z -> Z) (value : Z).
Notation bytes := (value_bytes wild value).

(** The lower four bytes do not depend on the undefined shifts. *)
Lemma value_byte_bits k j : (k < 4)%nat -> 0 <= j < 8 ->
  Z.testbit (value_byte wild value k) j = Z.testbit value (8 * Z.of_nat k + j).
Proof.
  intros Hk Hj. unfold value_byte. rewrite testbit_uwrap, (proj2 (Z.ltb_lt j 8)), Z.shiftr_spec, Z.land_spec by lia.
  cbn [andb]. replace (j + 8 * Z.of_nat k) with (8 * Z.of_nat k + j) by lia.
  assert (Hff : Z.testbit (ff_shift wild (8 * Z.of_nat k)) (8 * Z.of_nat k + j) = true).
  { unfold ff_shift. rewrite (proj2 (Z.ltb_lt _ 32)) by lia.
    assert (j = 0 \/ j = 1 \/ j = 2 \/ j = 3 \/ j = 4 \/ j = 5 \/ j = 6 \/ j = 7) as Hcase by lia.
    destruct k as [|[|[|[|k]]]]; [..|lia]; repeat destruct Hcase as [->|Hcase]; try subst j; reflexivity. }
  rewrite Hff. apply andb_true_r.
Qed.

Lemma value_byte_range k : 0 <= value_byte wild value k < 256.
Proof. apply (uwrap_range 8). lia. Qed.

Lemma load_byte k : (k < 8)%nat -> load bytes (Z.of_nat k) = Ret (value_byte wild value k).
Proof.
  intros Hk. unfold load, value_bytes. rewrite (proj2 (Z.ltb_ge _ 0)), Nat2Z.id by lia.
  rewrite list_lookup_fmap, lookup_seq_lt by assumption. reflexivity.
Qed.

Lemma store_ok location i v : (i < length location)%nat -> store location (Z.of_nat i) v = Ret (<[i := u8 v]> location).
Proof.
  intros Hi. unfold store. rewrite (proj2 (Z.leb_le 0 _)), (proj2 (Z.ltb_lt _ _)), Nat2Z.id by lia. reflexivity.
Qed.

Lemma put_little_ok n : forall (i : nat) location, (i + n <= 8)%nat -> (i + n <= length location)%nat ->
  exists location', put_little n (Z.of_nat i) bytes location = Ret location' /\ length location' = length location /\
    (forall k, (i <= k < i + n)%nat -> location' !! k = Some (value_byte wild value k)) /\
    (forall k, ~ (i <= k < i + n)%nat -> location' !! k = location !! k).
Proof.
  induction n as [|n IH]; intros i location H8 Hlen; cbn [put_little].
  { exists location. split; [reflexivity|]. split; [reflexivity|]. split; [intros k Hk; lia|reflexivity]. }
  rewrite load_byte by lia. cbn [mbind exec_bind]. rewrite store_ok by lia. cbn [mbind exec_bind].
  replace (Z.of_nat i + 1) with (Z.of_nat (S i)) by lia.
  destruct (IH (S i) (<[i := u8 (value_byte wild value i)]> location)) as (l' & Hl & Hlen' & Hin & Hout);
    [lia|rewrite length_insert; lia|].
  exists l'. rewrite length_insert in Hlen'. split; [exact Hl|]. split; [assumption|]. split.
  - intros k Hk. destruct (Nat.eq_dec k i) as [->|Hne]; [|apply Hin; lia].
    rewrite Hout, list_lookup_insert_eq by lia. rewrite (uwrap_small 8) by apply value_byte_range. reflexivity.
  - intros k Hk. rewrite Hout by lia. apply list_lookup_insert_ne. lia.
Qed.

(** A byte written by the big-endian loop holds eight successive bits. *)
Definition big_byte (br : Z) (index : nat) : Z :=
  if br =? 0 then value_byte wild value index
  else u8 (Z.lor (Z.shiftl (Z.land (value_byte wild value (S index)) (Z.ones br)) (8 - br))
                 (Z.shiftr (value_byte wild value index) br)).

Lemma big_byte_bits br index j : 0 <= br < 8 -> (index < 4)%nat -> (br <> 0 -> (index < 3)%nat) -> 0 <= j < 8 ->
  Z.testbit (big_byte br index) j = Z.testbit value (8 * Z.of_nat index + br + j).
Proof.
  intros Hbr Hi Hi3 Hj. unfold big_byte. destruct (Z.eqb_spec br 0) as [->|Hne].
  { rewrite value_byte_bits by lia. f_equal. lia. }
  rewrite testbit_uwrap, (proj2 (Z.ltb_lt j 8)), Z.lor_spec, Z.shiftl_spec, Z.shiftr_spec by lia. cbn [andb].
  destruct (Z.ltb_spec j (8 - br)).
  - rewrite (Z.testbit_neg_r _ (j - _)), value_byte_bits by lia. cbn [orb]. f_equal. lia.
  - rewrite Z.land_spec, testbit_ones, value_byte_bits by lia.
    rewrite (testbit_high 8 (value_byte wild value index)) by (lia || apply value_byte_range).
    bit_cases; try lia. rewrite orb_false_r, andb_true_r. f_equal. lia.
Qed.

Lemma big_byte_range br index : 0 <= big_byte br index < 256.
Proof. unfold big_byte. destruct (br =? 0); [apply value_byte_range|apply (uwrap_range 8); lia]. Qed.

Lemma put_big_ok br n : 0 <= br < 8 -> forall (i : nat) location, (n <= 4)%nat -> (i + n <= length location)%nat ->
  exists location', put_big n (Z.of_nat i) (Z.of_nat n - 1) br (Z.ones br) bytes location = Ret location' /\
    length location' = length location /\
    (forall k, (i <= k < i + n)%nat -> location' !! k = Some (big_byte br (i + n - 1 - k))) /\
    (forall k, ~ (i <= k < i + n)%nat -> location' !! k = location !! k).
Proof.
  intros Hbr. induction n as [|n IH]; intros i location H4 Hlen; cbn [put_big].
  { exists location. split; [reflexivity|]. split; [reflexivity|]. split; [intros k Hk; lia|reflexivity]. }
  replace (Z.of_nat (S n) - 1) with (Z.of_nat n) by lia. rewrite load_byte by lia. cbn [mbind exec_bind].
  replace (Z.of_nat n + 1) with (Z.of_nat (S n)) by lia. rewrite load_byte by lia. cbn [mbind exec_bind].
  assert (Hv : (if br =? 0 then Ret (value_byte wild value n)
                else Ret (Z.lor (Z.shiftl (Z.land (value_byte wild value (S n)) (Z.ones br)) (8 - br))
                        (Z.shiftr (value_byte wild value n) br)))
               = Ret (if br =? 0 then value_byte wild value n
                else (Z.lor (Z.shiftl (Z.land (value_byte wild value (S n)) (Z.ones br)) (8 - br))
                        (Z.shiftr (value_byte wild value n) br)))) by (destruct (br =? 0); reflexivity).
  rewrite Hv. cbn [mbind exec_bind]. clear Hv. rewrite store_ok by lia. cbn [mbind exec_bind].
  replace (Z.of_nat i + 1) with (Z.of_nat (S i)) by lia.
  match goal with |- context [<[i := ?w]> location] => assert (Hw : w = big_byte br n) end.
  { unfold big_byte. destruct (br =? 0); [|reflexivity]. apply uwrap_small, value_byte_range. }
  rewrite Hw. destruct (IH (S i) (<[i := big_byte br n]> location)) as (l' & Hl & Hlen' & Hin & Hout);
    [lia|rewrite length_insert; lia|].
  exists l'. rewrite length_insert in Hlen'. split; [exact Hl|]. split; [assumption|]. split.
  - intros k Hk. destruct (Nat.eq_dec k i) as [->|Hne].
    + rewrite Hout, list_lookup_insert_eq by lia. do 2 f_equal. lia.
    + rewrite Hin by lia. do 2 f_equal. lia.
  - intros k Hk. rewrite Hout by lia. apply list_lookup_insert_ne. lia.
Qed.
End Putbits.

(** ** Put and get *)

Definition is_byte (b : Z) : Prop := 0 <= b < 256.

(** The number of the lowest bit in byte [k] of the string. *)
Definition byte_pos (bitsize endian : Z) (k : nat) : Z :=
  if endian =? 0 then 8 * Z.of_nat k else 8 * (bitsize / 8 - 1 - Z.of_nat k) + bitsize mod 8.

(** [location'] holds the bit string [value]; the rest is [location]'s. *)
Record holds_bits (bitsize endian value : Z) (location location' : list Z) : Prop := {
  hb_length : length location' = length location;
  hb_whole : forall k, Z.of_nat k < bitsize / 8 -> exists b, location' !! k = Some b /\ is_byte b /\
    forall j, 0 <= j < 8 -> Z.testbit b j = Z.testbit value (byte_pos bitsize endian k + j);
  hb_part : bitsize mod 8 <> 0 -> exists old b, location !! Z.to_nat (bitsize / 8) = Some old /\
    location' !! Z.to_nat (bitsize / 8) = Some b /\ is_byte b /\
    forall j, 0 <= j < 8 -> Z.testbit b j =
      if j <? bitsize mod 8 then Z.testbit value ((if endian =? 0 then bitsize - bitsize mod 8 else 0) + j)
      else Z.testbit old j;
  hb_rest : forall k, byte_count bitsize <= Z.of_nat k -> location' !! k = location !! k
}.

Lemma put_rest_ok (nb : nat) br b old location : location !! nb = Some old -> 0 <= br < 8 -> is_byte old ->
  exists w, put_rest (Z.of_nat nb) (Z.ones br) b location = Ret (<[nb := w]> location) /\ is_byte w /\
    forall j, 0 <= j < 8 -> Z.testbit w j = if j <? br then Z.testbit b j else Z.testbit old j.
Proof.
  intros Hold Hbr Hb. pose proof (lookup_lt_Some _ _ _ Hold). unfold put_rest, load.
  rewrite (proj2 (Z.ltb_ge _ 0)), Nat2Z.id, Hold by lia. cbn [of_option mbind exec_bind].
  rewrite store_ok by assumption. eexists. split; [reflexivity|]. split; [apply (uwrap_range 8); lia|].
  intros j Hj. rewrite testbit_uwrap, (proj2 (Z.ltb_lt j 8)), Z.lor_spec, !Z.land_spec, Z.lnot_spec, testbit_ones by lia.
  cbn [andb]. bit_cases; try lia; cbn; rewrite ?andb_false_r, ?andb_true_r, ?orb_false_r; reflexivity.
Qed.

Lemma putbits_holds wild bitsize location value endian :
  0 < bitsize <= 32 -> endian = 0 \/ endian = 1 -> byte_count bitsize <= Z.of_nat (length location) ->
  Forall is_byte location ->
  exists location', putbits wild bitsize location value endian = Ret location' /\
    holds_bits bitsize endian value location location'.
Proof.
  intros Hsz Hend Hlen Hbytes. pose proof (Z.mod_pos_bound bitsize 8 ltac:(lia)) as Hbr.
  pose proof (Z.div_mod bitsize 8 ltac:(lia)) as Hdm. unfold byte_count in *.
  assert (Hnb : 0 <= bitsize / 8 <= 4) by lia.
  unfold putbits. rewrite mask8 by lia. remember (bitsize mod 8) as br eqn:Ebr. remember (Z.to_nat (bitsize / 8)) as nb eqn:Enb.
  assert (Hz : bitsize / 8 = Z.of_nat nb) by lia. rewrite Hz in *.
  (* after the loop over the whole bytes *)
  assert (Hloop : exists l1, (if endian =? 0 then put_little nb 0 (value_bytes wild value) location
            else put_big nb 0 (Z.of_nat nb - 1) br (Z.ones br) (value_bytes wild value) location) = Ret l1 /\
          length l1 = length location /\ (forall k, (nb <= k)%nat -> l1 !! k = location !! k) /\
          forall k, (k < nb)%nat -> exists b, l1 !! k = Some b /\ is_byte b /\
            forall j, 0 <= j < 8 -> Z.testbit b j = Z.testbit value
              ((if endian =? 0 then 8 * Z.of_nat k else 8 * (Z.of_nat nb - 1 - Z.of_nat k) + br) + j)).
  { assert (Z.of_nat nb <= Z.of_nat (length location)) by (destruct (br =? 0); lia).
    destruct (Z.eqb_spec endian 0) as [He|He].
    - destruct (put_little_ok wild value nb 0 location) as (l1 & H1 & H2 & H3 & H4); [lia|lia|].
      exists l1. split; [exact H1|]. split; [assumption|]. split; [intros k Hk; apply H4; lia|].
      intros k Hk. exists (value_byte wild value k). split; [apply H3; lia|]. split; [apply value_byte_range|].
      intros j Hj. apply value_byte_bits; lia.
    - destruct (put_big_ok wild value br nb ltac:(lia) 0 location) as (l1 & H1 & H2 & H3 & H4); [lia|lia|].
      exists l1. split; [exact H1|]. split; [assumption|]. split; [intros k Hk; apply H4; lia|].
      intros k Hk. exists (big_byte wild value br (0 + nb - 1 - k)). split; [apply H3; lia|]. split; [apply big_byte_range|].
      intros j Hj. rewrite big_byte_bits by lia. f_equal. lia. }
  destruct Hloop as (l1 & Hl1 & Hlen1 & Hrest1 & Hwhole).
  assert (Hdone : exists l2, (if br =? 0 then Ret l1 else b ← load (value_bytes wild value)
              (if endian =? 0 then Z.of_nat nb else 0); put_rest (Z.of_nat nb) (Z.ones br) b l1) = Ret l2 /\
          holds_bits bitsize endian value location l2).
  { destruct (Z.eqb_spec br 0) as [H0|H0].
    - exists l1. split; [reflexivity|]. constructor; unfold byte_pos, byte_count; rewrite ?Hz, <- ?Ebr; try assumption.
      + intros k Hk. apply Hwhole. lia.
      + intros Hne. lia.
      + rewrite H0. cbn [Z.eqb]. intros k Hk. apply Hrest1. lia.
    - destruct (lookup_lt_is_Some_2 location nb ltac:(lia)) as [old Hold].
      assert (is_byte old) as Hob by (eapply Forall_lookup_1; eassumption).
      destruct (put_rest_ok nb br (value_byte wild value (if endian =? 0 then nb else 0%nat)) old l1) as (w & Hw & Hwb & Hwbits);
        [rewrite Hrest1 by lia; assumption|lia|assumption|].
      exists (<[nb := w]> l1). split.
      + replace (if endian =? 0 then Z.of_nat nb else 0) with (Z.of_nat (if endian =? 0 then nb else 0%nat)) by (destruct (endian =? 0); reflexivity).
        rewrite load_byte by (destruct (endian =? 0); lia). exact Hw.
      + constructor; unfold byte_pos, byte_count; rewrite ?Hz, <- ?Ebr, ?Nat2Z.id.
        * rewrite length_insert. assumption.
        * intros k Hk. rewrite list_lookup_insert_ne by lia. apply Hwhole. lia.
        * intros _. exists old, w. split; [assumption|]. split; [apply list_lookup_insert_eq; lia|]. split; [assumption|].
          intros j Hj. rewrite Hwbits by assumption. destruct (Z.ltb_spec j br); [|reflexivity].
          destruct (Z.eqb_spec endian 0); rewrite value_byte_bits by lia; f_equal; lia.
        * rewrite (proj2 (Z.eqb_neq _ _) H0). intros k Hk. rewrite list_lookup_insert_ne by lia. apply Hrest1. lia. }
  destruct Hdone as (l2 & Hl2 & Hh). exists l2. split; [|exact Hh].
  destruct (endian =? 0); rewrite Hl1; cbn [mbind exec_bind]; exact Hl2.
Qed.

(** The reader's bytes, by significance from the highest. *)
Definition read_pos (n : nat) (endian : Z) (m : nat) : nat := if endian =? 1 then m else (n - 1 - m)%nat.

Lemma getbits_read bitsize location endian n : byte_count bitsize = Z.of_nat n -> (n <= 7)%nat ->
  endian = 0 \/ endian = 1 ->
  (forall k, (k < n)%nat -> exists b, location !! k = Some b /\ is_byte b) ->
  exists data, (if endian =? 1 then read_bytes n location 0 1 0 else read_bytes n location (Z.of_nat n - 1) (-1) 0) = Ret data /\
    forall j b, 0 <= j < 8 * Z.of_nat n -> location !! read_pos n endian (n - 1 - Z.to_nat (j / 8))%nat = Some b ->
      Z.testbit data j = Z.testbit b (j mod 8).
Proof.
  intros Hn H7 Hend Hbytes.
  pose (f := fun m => match location !! read_pos n endian m with Some b => b | None => 0 end).
  assert (Hf : forall m, (m < n)%nat -> location !! read_pos n endian m = Some (f m) /\ is_byte (f m)).
  { intros m Hm. destruct (Hbytes (read_pos n endian m)) as (b & Hb & Hr).
    - unfold read_pos. destruct (endian =? 1); lia.
    - unfold f. rewrite Hb. auto. }
  assert (Hgo : forall inc start, (forall m, (m < n)%nat -> Z.to_nat (start + Z.of_nat m * inc) = read_pos n endian m /\
                   0 <= start + Z.of_nat m * inc) ->
            exists data, read_bytes n location start inc 0 = Ret data /\
              forall j b, 0 <= j < 8 * Z.of_nat n -> location !! read_pos n endian (n - 1 - Z.to_nat (j / 8))%nat = Some b ->
                Z.testbit data j = Z.testbit b (j mod 8)).
  { intros inc start Hpos. destruct (read_bytes_bits inc n location start 0 f 0) as (r & Hr & _ & Hbits); [|lia|lia|].
    - intros m Hm. destruct (Hpos m Hm) as [E ?]. rewrite E. destruct (Hf m Hm). auto.
    - exists r. split; [exact Hr|]. intros j b Hj Hb. rewrite Hbits by lia. rewrite (proj2 (Z.ltb_lt _ _)) by lia.
      assert (j / 8 < Z.of_nat n) by (apply Z.div_lt_upper_bound; lia). assert (0 <= j / 8) by (apply Z.div_pos; lia).
      destruct (Hf (n - 1 - Z.to_nat (j / 8))%nat ltac:(lia)) as [E _]. congruence. }
  destruct Hend as [->| ->]; cbn [Z.eqb]; apply Hgo; intros m Hm; unfold read_pos; cbn [Z.eqb Pos.eqb]; lia.
Qed.

(** A whole or partial byte of the string gives the value's bit. *)
Lemma holds_bit bitsize endian value location location' : holds_bits bitsize endian value location location' ->
  0 < bitsize -> forall k, Z.of_nat k < byte_count bitsize -> exists b, location' !! k = Some b /\ is_byte b /\
    (forall j, 0 <= j < 8 -> (Z.of_nat k < bitsize / 8 \/ j < bitsize mod 8) -> Z.testbit b j = Z.testbit value
      ((if Z.of_nat k <? bitsize / 8 then byte_pos bitsize endian k
        else if endian =? 0 then bitsize - bitsize mod 8 else 0) + j)).
Proof.
  intros [_ Hw Hp _] Hpos k Hk. unfold byte_count in Hk. destruct (Z.ltb_spec (Z.of_nat k) (bitsize / 8)) as [Hlt|Hge].
  - destruct (Hw k Hlt) as (b & H1 & H2 & H3). exists b. auto.
  - destruct (Z.eqb_spec (bitsize mod 8) 0) as [E|E]; [lia|].
    destruct (Hp E) as (old & b & _ & H1 & H2 & H3). replace (Z.to_nat (bitsize / 8)) with k in H1 by lia.
    exists b. split; [assumption|]. split; [assumption|]. intros j Hj Hor. rewrite H3 by assumption.
    rewrite (proj2 (Z.ltb_lt _ _)) by lia. reflexivity.
Qed.

Lemma getbits_holds bitsize endian value location location' :
  holds_bits bitsize endian value location location' -> 0 < bitsize <= 32 -> endian = 0 \/ endian = 1 ->
  getbits bitsize location' endian = Ret (value mod 2 ^ bitsize).
Proof.
  intros Hh Hsz Hend. pose proof (Z.mod_pos_bound bitsize 8 ltac:(lia)) as Hbr.
  pose proof (Z.div_mod bitsize 8 ltac:(lia)) as Hdm. pose proof (holds_bit _ _ _ _ _ Hh ltac:(lia)) as Hb.
  assert (Hbc : 0 <= byte_count bitsize <= 5) by (unfold byte_count; destruct (bitsize mod 8 =? 0); lia).
  destruct (getbits_read bitsize location' endian (Z.to_nat (byte_count bitsize))) as (data & Hdata & Hbits);
    [lia|lia|assumption|intros k Hk; destruct (Hb k ltac:(lia)) as (b & H1 & H2 & _); eauto|].
  rewrite Z2Nat.id in Hdata, Hbits by lia.
  (* bit [j] of [data] is that of the byte it comes from *)
  assert (Hbit : forall j (k : nat), 0 <= j < 8 * byte_count bitsize ->
            Z.of_nat k = (if endian =? 1 then byte_count bitsize - 1 - j / 8 else j / 8) ->
            (Z.of_nat k < bitsize / 8 \/ j mod 8 < bitsize mod 8) -> Z.testbit data j = Z.testbit value
             ((if Z.of_nat k <? bitsize / 8 then byte_pos bitsize endian k
               else if endian =? 0 then bitsize - bitsize mod 8 else 0) + j mod 8)).
  { intros j k Hj Hk Hor. assert (0 <= j / 8 < byte_count bitsize) by (split; [apply Z.div_pos; lia|apply Z.div_lt_upper_bound; lia]).
    destruct (Hb k ltac:(destruct (endian =? 1); lia)) as (b & H1 & _ & H3).
    rewrite <- H3 by (assumption || apply Z.mod_pos_bound; lia). apply Hbits; [assumption|]. rewrite <- H1. f_equal.
    unfold read_pos. destruct (endian =? 1); lia. }
  clear Hb Hbits Hh. unfold getbits.
  replace (if endian =? 1 then read_bytes (Z.to_nat (byte_count bitsize)) location' 0 1 0
           else read_bytes (Z.to_nat (byte_count bitsize)) location' (byte_count bitsize - 1) (-1) 0)
    with (Ret data) by (symmetry; exact Hdata). cbn [mbind exec_bind]. rewrite mask64 by lia. f_equal.
  apply Z.bits_inj'. intros i Hi. rewrite Z.land_spec, testbit_ones, Z.testbit_mod_pow2, andb_comm by lia.
  rewrite (proj2 (Z.leb_le 0 i)) by lia. cbn [andb]. destruct (Z.ltb_spec i bitsize) as [Hlt|]; [|reflexivity].
  unfold byte_count in *. unfold byte_pos in Hbit. destruct Hend as [->| ->]; cbn [Z.eqb Pos.eqb andb] in *.
  - rewrite andb_false_r. pose proof (Z.div_mod i 8 ltac:(lia)). pose proof (Z.mod_pos_bound i 8 ltac:(lia)).
    assert (0 <= i / 8) by (apply Z.div_pos; lia).
    rewrite (Hbit i (Z.to_nat (i / 8))); [|destruct (Z.eqb_spec (bitsize mod 8) 0); lia|lia|lia].
    rewrite Z2Nat.id by lia. destruct (Z.ltb_spec (i / 8) (bitsize / 8)); f_equal; lia.
  - rewrite andb_true_r. destruct (Z.eqb_spec (bitsize mod 8) 0) as [E0|E0]; cbn [negb].
    + pose proof (Z.div_mod i 8 ltac:(lia)). pose proof (Z.mod_pos_bound i 8 ltac:(lia)). assert (0 <= i / 8) by (apply Z.div_pos; lia).
      rewrite (Hbit i (Z.to_nat (bitsize / 8 - 1 - i / 8))) by lia. rewrite Z2Nat.id by lia.
      rewrite (proj2 (Z.ltb_lt _ _)) by lia. f_equal. lia.
    + assert (Hhigh : s64 (Z.shiftl (Z.ones bitsize) (bitsize mod 8)) = Z.shiftl (Z.ones bitsize) (bitsize mod 8)).
      { apply swrap_small; [lia|]. rewrite Z.shiftl_mul_pow2, Z.ones_equiv by lia.
        assert (0 < 2 ^ bitsize <= 2 ^ 32) by (split; [apply Z.pow_pos_nonneg; lia|apply Z.pow_le_mono_r; lia]).
        assert (0 < 2 ^ (bitsize mod 8) <= 2 ^ 7) by (split; [apply Z.pow_pos_nonneg; lia|apply Z.pow_le_mono_r; lia]). nia. }
      rewrite Hhigh, Z.lor_spec, !Z.land_spec, Z.lnot_spec, Z.shiftl_spec, Z.shiftr_spec by lia.
      destruct (Z.ltb_spec i (bitsize mod 8)) as [Hlow|Hhi].
      * rewrite (Z.testbit_neg_r (Z.ones bitsize)) by lia. cbn [negb]. rewrite andb_false_r, andb_true_r. cbn [orb].
        assert (i / 8 = 0 /\ i mod 8 = i) as [Hq Hm] by (rewrite Z.div_small, Z.mod_small by lia; auto).
        rewrite (Hbit i (Z.to_nat (bitsize / 8))) by lia. rewrite Z2Nat.id, Z.ltb_irrefl, Hm by lia. f_equal.
      * rewrite testbit_ones by lia. rewrite (proj2 (Z.leb_le 0 _)), (proj2 (Z.ltb_lt _ bitsize)) by lia. cbn [andb negb].
        rewrite andb_true_r, andb_false_r, orb_false_r. set (p := i + (8 - bitsize mod 8)).
        assert (Hp8 : 8 <= p) by (unfold p; lia).
        pose proof (Z.div_mod p 8 ltac:(lia)). pose proof (Z.mod_pos_bound p 8 ltac:(lia)).
        assert (1 <= p / 8) by (apply Z.div_le_lower_bound; lia).
        rewrite (Hbit p (Z.to_nat (bitsize / 8 - p / 8))); [|unfold p in *; lia|unfold p in *; lia|unfold p in *; lia].
        rewrite Z2Nat.id by (unfold p in *; lia). rewrite (proj2 (Z.ltb_lt _ _)) by lia. f_equal. unfold p in *. lia.
Qed.

(** Bit strings in memory: for sizes of 1 to 32 bits and both byte orders,
    [getbits] reads back what [putbits] wrote, cut to the size, whatever the
    undefined shifts of the upper bytes give; [putbits] writes the bytes of the
    string only and in the last, partial byte only the string's bits. *)
Theorem putbits_getbits wild bitsize location value endian :
  0 < bitsize <= 32 -> endian = 0 \/ endian = 1 -> byte_count bitsize <= Z.of_nat (length location) ->
  Forall is_byte location ->
  exists location', putbits wild bitsize location value endian = Ret location' /\
    getbits bitsize location' endian = Ret (value mod 2 ^ bitsize) /\
    length location' = length location /\
    (forall k, byte_count bitsize <= Z.of_nat k -> location' !! k = location !! k) /\
    (bitsize mod 8 <> 0 -> exists old b, location !! Z.to_nat (bitsize / 8) = Some old /\
       location' !! Z.to_nat (bitsize / 8) = Some b /\
       forall j, bitsize mod 8 <= j < 8 -> Z.testbit b j = Z.testbit old j).
Proof.
  intros Hsz Hend Hlen Hbytes. destruct (putbits_holds wild bitsize location value endian Hsz Hend Hlen Hbytes) as (l & Hl & Hh).
  exists l. split; [exact Hl|]. split; [eapply getbits_holds; eassumption|]. destruct Hh as [H1 _ H3 H4].
  split; [assumption|]. split; [assumption|]. intros E. destruct (H3 E) as (old & b & Ho & Hb & _ & Hj).
  exists old, b. split; [assumption|]. split; [assumption|]. intros j Hr. rewrite Hj by (pose proof (Z.mod_pos_bound bitsize 8); lia).
  rewrite (proj2 (Z.ltb_ge _ _)) by lia. reflexivity.
Qed.

Lemma putbits_getbits_witness : exists location',
  putbits (fun _ => 0) 21 [17; 34; 255; 68; 85] 0x123456 1 = Ret location' /\
  location' = [0x91; 0xA2; 0xF6; 68; 85] /\ getbits 21 location' 1 = Ret (0x123456 mod 2 ^ 21).
Proof.
  destruct (putbits_getbits (fun _ => 0) 21 [17; 34; 255; 68; 85] 0x123456 1) as (l & Hl & Hg & _).
  - lia.
  - right. reflexivity.
  - vm_compute. discriminate.
  - repeat constructor; unfold is_byte; lia.
  - exists l. split; [exact Hl|]. split; [vm_compute in Hl; injection Hl as <-; reflexivity|exact Hg].
Defined.
