(* ===== verification/BinDis.v ===== *)
(** * The generated disassembler ([binutils/opcodes/xxxxx-dis.c])

    Extraction of an operand's value from its bit positions, parsing of the
    argument string of an opcode into a template with type names, replacement of
    the type names by values, the search in the opcode table and the fetch loop.
    Fixed-size character buffers are memories of that size; a write outside or
    an index out of a table is a crash.  The memory of the target, the modifiers
    and the contents of uninitialised variables are parameters. *)
From S2P Require Import Prelude CString DecTypes AsmTypes BinUtils BinOpcodes BinGas BinShare.

(** ** Character buffers *)

Definition NUL : ascii := ascii_of_nat 0.
Definition mem : Type := list ascii.

Definition mem_set (m : mem) (i : nat) (c : ascii) : exec mem :=
  if (i <? length m)%nat then Ret (<[i := c]> m) else Crash.

(** The string that starts at [i]; running out of the buffer is a crash. *)
Fixpoint cstr_list (m : list ascii) : exec string :=
  match m with
  | [] => Crash
  | c :: m => if is_char NUL c then Ret "" else s ← cstr_list m; Ret (String c s)
  end.
Definition cstr (m : mem) (i : nat) : exec string := cstr_list (drop i m).

(** [strcpy(m + i, s)], also what [sprintf] does. *)
Fixpoint write_str (m : mem) (i : nat) (s : string) : exec mem :=
  match s with
  | EmptyString => mem_set m i NUL
  | String c s => m ← mem_set m i c; write_str m (S i) s
  end.

Definition mem_strcat (m : mem) (i : nat) (s : string) : exec mem :=
  old ← cstr m i; write_str m (i + String.length old) s.

(** ** Values of operands *)

(** [get_bit_pos]: the shift by 32 is undefined. *)
Fixpoint bit_pos_from (n : nat) (bitvector pos curr_bit : Z) : exec Z :=
  match n with
  | O => Crash
  | S n =>
      if Z.testbit bitvector curr_bit then
        if pos - 1 =? 0 then Ret curr_bit else bit_pos_from n bitvector (pos - 1) (curr_bit + 1)
      else bit_pos_from n bitvector pos (curr_bit + 1)
  end.
Definition get_bit_pos (bitvector pos : Z) : exec Z := bit_pos_from 32 bitvector (pos + 1) 0.

(** The mask of the bits from [field_start + j] on. *)
Fixpoint range_mask (n : nat) (field_start j mask : Z) : exec Z :=
  match n with
  | O => Ret mask
  | S n => b ← shl32 1 (field_start + j); range_mask n field_start (j + 1) (Z.lor mask b)
  end.

(** The loop over the fields, with [size] and [final_value]. *)
Fixpoint value_from (n : nat) (i positions insn size final_value : Z) : exec (Z * Z) :=
  match n with
  | O => Ret (final_value, size)
  | S n =>
      field_start ← get_bit_pos positions (i * 2);
      field_end ← get_bit_pos positions (i * 2 + 1);
      let field_size := u32 (field_end - field_start + 1) in
      mask ← range_mask (Z.to_nat field_size) field_start 0 0;
      let value := u32 (Z.shiftr (Z.land insn mask) field_start) in
      v ← shl32 value size;
      value_from n (i + 1) positions insn (u32 (size + field_size)) (Z.lor final_value v)
  end.

(** The value and [*bit_size]. *)
Definition get_value_from_fields (o : oper) (insn : Z) : exec (Z * Z) :=
  value_from (Z.to_nat (get_num_fields (o_fields o))) 0 (o_fields_positions o) insn 0 0.

(** The shifts of [1ULL] are undefined from 64 on. *)
Definition sign_extend_to_long (v bit_size : Z) : exec Z :=
  if (1 <=? bit_size) && (bit_size <? 64) then
    let mask := s64 (2 ^ (bit_size - 1)) in
    let v := Z.land v (2 ^ bit_size - 1) in
    Ret (s64 (Z.lxor v mask - mask))
  else Crash.

(** ** The template of an instruction *)

Record ac_symbol := MkAcSymbol { acs_type : string; acs_is_list : bool; acs_oper_id : Z }.

(** Everything up to [':'] or ['+'], and the rest; a missing mark is a crash. *)
Fixpoint to_mark (s : string) : exec (string * string) :=
  match s with
  | EmptyString => Crash
  | String c t =>
      if is_char ":" c || is_char "+" c then Ret ("", s)
      else '(a, b) ← to_mark t; Ret (String c a, b)
  end.

Definition is_letter_code (c : ascii) : bool :=
  ((64 <? cc c) && (cc c <? 91)) || ((96 <? cc c) && (cc c <? 123)).

Section Disassembler.
Context (formats : list ac_dec_format) (operands : list oper).

(** State of [parse]: buffer, write position, whether the first blank is still
    to come, symbols found. *)
Record parse_state := MkParse { ps_buf : mem; ps_ptr : nat; ps_suffix : bool; ps_syms : list ac_symbol }.

Definition emit_char (c : ascii) (suffix : bool) (p : parse_state) : exec parse_state :=
  m ← mem_set (ps_buf p) (ps_ptr p) c;
  Ret (MkParse m (S (ps_ptr p)) suffix (ps_syms p)).

(** A tag behind ['%']: the number is collected in 50 characters, the name of
    the operand type is appended to the template. *)
Definition parse_tag (p : parse_state) (args : string) : exec (parse_state * string) :=
  '(id, rest) ← to_mark args;
  if (50 <=? String.length id)%nat then Crash
  else
    m ← (match id with EmptyString => Ret (ps_buf p) | _ => mem_set (ps_buf p) (ps_ptr p) NUL end);
    let rest := match rest with String _ t => t | EmptyString => rest end in
    let operand_id := u32 (atoi id) in
    o ← operand_at operands operand_id;
    m ← mem_strcat m (ps_ptr p) (o_name o);
    let ptr := (ps_ptr p + String.length (o_name o))%nat in
    let syms := ps_syms p ++ [MkAcSymbol (o_name o) (o_is_list o) operand_id] in
    if head_is (is_char "+") rest then
      m ← mem_strcat m ptr "+";
      Ret (MkParse m (S ptr) (ps_suffix p) syms, match rest with String _ t => t | EmptyString => rest end)
    else Ret (MkParse m ptr (ps_suffix p) syms, rest).

(** Every turn of the loop consumes a character. *)
Fixpoint parse_loop (fuel : nat) (p : parse_state) (args : string) : exec parse_state :=
  match fuel with
  | O => Crash
  | S fuel =>
      match args with
      | EmptyString => Ret p
      | String c args =>
          if is_char "%" c then '(p, args) ← parse_tag p args; parse_loop fuel p args
          else if is_char "\" c then
            match args with
            | EmptyString => Crash
            | String _ args => parse_loop fuel p (snd (span is_letter_code args))
            end
          else if is_char " " c && ps_suffix p then
            p ← emit_char (ascii_of_nat 9) false p; parse_loop fuel p args
          else p ← emit_char c (ps_suffix p) p; parse_loop fuel p args
      end
  end.

(** The template is left in [bufInitial]. *)
Definition parse (bufInitial : mem) (args : string) : exec (mem * list ac_symbol) :=
  p ← parse_loop (S (String.length args)) (MkParse bufInitial 0 true []) args;
  m ← mem_set (ps_buf p) (ps_ptr p) NUL;
  Ret (m, ps_syms p).

(** The first occurrence of [old] in [str] becomes [new]. *)
Fixpoint replace_first (str old new : string) : string :=
  if String.prefix old str then new +:+ String.substring (String.length old) (String.length str - String.length old) str
  else match str with EmptyString => "" | String c str => String c (replace_first str old new) end.

(** The copy [a] has 50 characters, the buffer behind [ptr_ret] 100.  The inner
    loop that skips [old] compares on behind the two terminating NULs when the
    match is at the end of the text; what it reads there has no effect. *)
Definition replace (ptr_ret old new : string) : exec string :=
  if (50 <=? String.length ptr_ret)%nat then Crash
  else
    let r := match ptr_ret with EmptyString => "" | _ => replace_first ptr_ret old new end in
    if (100 <=? String.length r)%nat then Crash else Ret r.

Context (modfndec : list (mod_parms -> exec mod_parms)).

Definition decode_modifier (mp : mod_parms) (oper_id : Z) : exec mod_parms :=
  let mp := set_output 0 mp in
  o ← operand_at operands oper_id;
  if o_mod_type o =? 0 then Ret mp
  else if o_mod_type o <? 0 then Crash
  else f ← of_option (modfndec !! Z.to_nat (o_mod_type o)); f mp.

(** ** Printing an operand *)

Context (udsymbols : list ac_asm_symbol).

(** What the printing functions of binutils are given. *)
Inductive out_event := Text (s : string) | Address (a : Z).

Definition same_symbol (type : string) (value : Z) (s : ac_asm_symbol) : bool :=
  streq type (sym_map s) && (value =? u64 (sym_value s)).

(** The loop over the results of a list operand, with [symbolaux] and [leng]:
    the first symbol of a value is appended, an unknown value overwrites all. *)
Fixpoint list_symbols (results : list_op_results) (type : string) (symbolaux : mem) (leng : nat) : exec mem :=
  match results with
  | [] => Ret symbolaux
  | (result, _) :: rest =>
      match list_first (same_symbol type result) udsymbols with
      | Some s =>
          m ← write_str symbolaux leng (sym_symbol s);
          let leng := (leng + String.length (sym_symbol s))%nat in
          match rest with
          | [] => Ret m
          | _ => m ← write_str m leng ","; list_symbols rest type m (S leng)
          end
      | None =>
          m ← write_str symbolaux 0 ("0x" +:+ fmt_x false result);
          list_symbols rest type m leng
      end
  end.

(** The last symbol of a value, since the loop runs on. *)
Definition scalar_symbol (type : string) (value : Z) : string :=
  match list_first (same_symbol type value) (reverse udsymbols) with
  | Some s => sym_symbol s
  | None => "0x" +:+ fmt_x false value
  end.

Record print_state := MkPrint { pr_final : string; pr_addr : Z; pr_imm : Z }.

(** [stack]: the uninitialised members of [mod_parms]; [symbolaux]: its initial
    contents. *)
Context (stack : mod_parms) (symbolaux : mem).

Definition start_parms (value memaddr addend : Z) : mod_parms :=
  MkParms (s32 addend) [] (u32 value) (u32 memaddr) (mp_output stack) (mp_error stack) (mp_field stack).

Definition is_builtin (type : string) : bool := streq type "exp" || streq type "imm" || streq type "addr".

Definition print_operand (memaddr insn : Z) (st : print_state) (acs : ac_symbol) : exec print_state :=
  o ← operand_at operands (acs_oper_id acs);
  '(value, bit_size) ← get_value_from_fields o insn;
  if acs_is_list acs then
    mp ← decode_modifier (start_parms value memaddr (o_mod_addend o)) (acs_oper_id acs);
    text ← (match mp_list_results mp with
            | [] => Ret ("0x" +:+ fmt_x false value)
            | rs => m ← list_symbols rs (acs_type acs) symbolaux 0; cstr m 0
            end);
    final ← replace (pr_final st) (acs_type acs) text;
    Ret (MkPrint final (pr_addr st) (pr_imm st))
  else if negb (is_builtin (acs_type acs)) then
    final ← replace (pr_final st) (acs_type acs) (scalar_symbol (acs_type acs) value);
    Ret (MkPrint final (pr_addr st) (pr_imm st))
  else
    let addend := if o_mod_addend o =? 0 then insn else o_mod_addend o in
    mp ← decode_modifier (start_parms value memaddr addend) (acs_oper_id acs);
    let value := if mp_output mp =? 0 then value else mp_output mp in
    final ← replace (pr_final st) (acs_type acs) ("0x" +:+ fmt_x false value);
    imm ← (if streq (acs_type acs) "imm" then sign_extend_to_long value bit_size else Ret (pr_imm st));
    let addr := if streq (acs_type acs) "exp" || streq (acs_type acs) "addr" then u32 value else pr_addr st in
    Ret (MkPrint final addr imm).

Fixpoint print_operands (memaddr insn : Z) (st : print_state) (l : list ac_symbol) : exec print_state :=
  match l with
  | [] => Ret st
  | acs :: l => st ← print_operand memaddr insn st acs; print_operands memaddr insn st l
  end.

(** ** Search *)

Context (opcodes : list opcode_row).

(** Native rows of the right size whose image the masked word equals. *)
Definition matches (insn insn_size : Z) (op : opcode_row) : bool :=
  (Z.land insn (row_dmask op) =? row_image op) && (row_pseudo_idx op =? 0)
  && (insn_size =? get_insn_size formats (row_format_id op)).

(** The printed events and the number of octets consumed; [bufInitial] is kept
    between calls.  [strcpy] to [args] needs fewer than 50 characters. *)
Definition disassemble (bufInitial : mem) (bufFinal : string) (memaddr insn insn_size : Z)
    : exec (mem * string * list out_event * Z) :=
  '(bufInitial, st, events, FORMAT_SIZE) ←
    match list_first (matches insn (u32 insn_size)) opcodes with
    | None => Ret (bufInitial, MkPrint bufFinal 0 0, [], 0)
    | Some op =>
        if (50 <=? String.length (row_args op))%nat then Crash
        else
          '(bufInitial, acs) ← parse bufInitial (row_args op);
          final ← cstr bufInitial 0;
          st ← print_operands memaddr insn (MkPrint final 0 0) acs;
          Ret (bufInitial, st, [Text (row_mnemonic op)], u32 (get_insn_size formats (row_format_id op)))
    end;
  let '(final, size) := if FORMAT_SIZE =? 0 then ("0x" +:+ fmt_x false insn, u32 insn_size)
                        else (pr_final st, FORMAT_SIZE) in
  let comment :=
    if negb (pr_addr st =? 0) then [Text (tab +:+ "; "); Address (pr_addr st)]
    else if negb (pr_imm st =? 0) then [Text (tab +:+ "; " +:+ fmt_d (pr_imm st))]
    else [] in
  Ret (bufInitial, final, events ++ Text final :: comment, size / 8).

(** ** Fetching *)

Context (MAX_FORMAT_SIZE VARIABLE_FORMAT_SIZE endian_val : Z).
(** Status and bytes of a read of the target's memory. *)
Context (read_memory : Z -> Z -> Z * list Z).

Fixpoint copy_bytes (buffer : list Z) (i : nat) (bytes : list Z) : exec (list Z) :=
  match bytes with
  | [] => Ret buffer
  | b :: bytes => if (i <? length buffer)%nat then copy_bytes (<[i := b]> buffer) (S i) bytes else Crash
  end.

(** Buffer and number of bytes fetched; [None]: the error exit. *)
Definition fetch_data (insn_start : Z) (buffer : list Z) (fetched want : Z) : exec (option (list Z * Z)) :=
  if want <=? fetched then Ret (Some (buffer, fetched))
  else
    let '(status, bytes) := read_memory (insn_start + fetched) (want - fetched) in
    buffer ← copy_bytes buffer (Z.to_nat fetched) bytes;
    if negb (status =? 0) && negb (status =? 5) then Ret None else Ret (Some (buffer, want)).

(** [for (i = 3; i >= n; i--) buffer[i] = 0]. *)
Fixpoint clear_from (n : nat) (i : nat) (buffer : list Z) : exec (list Z) :=
  match i with
  | O => Ret buffer
  | S j =>
      if (j <? n)%nat then Ret buffer
      else if (j <? length buffer)%nat then clear_from n j (<[j := 0]> buffer) else Crash
  end.

(** The scan stops at the first row without a mask. *)
Fixpoint scan (insn localsize : Z) (l : list opcode_row) : bool :=
  match l with
  | [] => false
  | op :: l =>
      if row_dmask op =? 0 then false
      else if matches insn localsize op then true else scan insn localsize l
  end.

(** 8, 16, ... bits: the last size with a matching row. *)
Fixpoint fetch_variable (fuel : nat) (memaddr localsize : Z) (buffer : list Z) (fetched : Z) (found : option (Z * Z))
    : exec (option (option (Z * Z))) :=
  match fuel with
  | O => Ret (Some found)
  | S fuel =>
      if localsize <=? MAX_FORMAT_SIZE then
        r ← fetch_data memaddr buffer fetched (localsize / 8);
        match r with
        | None => Ret None
        | Some (buffer, fetched) =>
            buffer ← clear_from (Z.to_nat (localsize / 8)) 4 buffer;
            insn ← getbits localsize buffer endian_val;
            let insn := u64 insn in
            let found := if scan insn localsize opcodes then Some (insn, localsize) else found in
            fetch_variable fuel memaddr (localsize + 8) buffer fetched found
        end
      else Ret (Some found)
  end.

(** [-1] after a memory error; without a matching row the variable-size branch
    reads uninitialised variables. *)
Definition print_insn (bufInitial : mem) (bufFinal : string) (buffer : list Z) (memaddr : Z)
    : exec (mem * string * list out_event * Z) :=
  r ← (if VARIABLE_FORMAT_SIZE =? 0 then
         r ← fetch_data memaddr buffer 0 (MAX_FORMAT_SIZE / 8);
         match r with
         | None => Ret None
         | Some (buffer, _) =>
             insn ← getbits MAX_FORMAT_SIZE buffer endian_val;
             Ret (Some (Some (u64 insn, MAX_FORMAT_SIZE)))
         end
       else fetch_variable (Z.to_nat (MAX_FORMAT_SIZE / 8)) memaddr 8 buffer 0 None);
  match r with
  | None => Ret (bufInitial, bufFinal, [], -1)
  | Some None => Crash
  | Some (Some (insnfound, sizeinsn)) => disassemble bufInitial bufFinal memaddr insnfound sizeinsn
  end.
End Disassembler.
