(* ===== verification/BinDisOk.v ===== *)
(** * Operands survive assembly and disassembly

    The value the generated assembler spreads over the fields of an operand is
    the value the generated disassembler gathers from the field positions. *)
From S2P Require Import Prelude CString DecTypes AsmTypes BinUtils BinOpcodes BinOpcodesOk BinGas BinShare BinDis.

(** ** The set bits of a word, from the lowest *)

Fixpoint set_bits (n : nat) (b z : Z) : list Z :=
  match n with
  | O => []
  | S n => if Z.testbit z b then b :: set_bits n (b + 1) z else set_bits n (b + 1) z
  end.
Definition bits_of (z : Z) : list Z := set_bits 32 0 z.

Lemma set_bits_in n : forall b z x, x ∈ set_bits n b z <-> b <= x < b + Z.of_nat n /\ Z.testbit z x = true.
Proof.
  induction n as [|n IH]; intros b z x; cbn [set_bits].
  - split; [inversion 1|lia].
  - destruct (Z.testbit z b) eqn:E.
    + rewrite elem_of_cons, IH. split.
      * intros [->|[H1 H2]]; (split; [lia|assumption]).
      * intros [H1 H2]. destruct (Z.eq_dec x b); [left; assumption|right; split; [lia|assumption]].
    + rewrite IH. split; intros [H1 H2]; (split; [|assumption]); [lia|].
      destruct (Z.eq_dec x b) as [->|]; [congruence|lia].
Qed.

Lemma set_bits_sorted n : forall b z, StronglySorted Z.lt (set_bits n b z).
Proof.
  induction n as [|n IH]; intros b z; cbn [set_bits]; [constructor|].
  destruct (Z.testbit z b); [|apply IH]. constructor; [apply IH|].
  apply Forall_forall. intros x [Hx _]%set_bits_in. lia.
Qed.

Lemma count_fields_bits n : forall z b k, count_fields n z b k = k + Z.of_nat (length (set_bits n b z)).
Proof.
  induction n as [|n IH]; intros z b k; cbn [count_fields set_bits]; [cbn; lia|]. rewrite IH.
  destruct (Z.testbit z b); cbn [length]; lia.
Qed.

Lemma field_id_from_bits n : forall z (pos : nat) b,
  field_id_from n z (Z.of_nat pos) b = default 999 (set_bits n b z !! pos).
Proof.
  induction n as [|n IH]; intros z pos b; cbn [field_id_from set_bits]; [rewrite lookup_nil; reflexivity|].
  destruct (Z.testbit z b); [|apply IH]. destruct pos as [|pos]; [reflexivity|].
  rewrite (proj2 (Z.eqb_neq _ _)) by lia. cbn. rewrite <- IH. f_equal. lia.
Qed.

Lemma bit_pos_from_bits n : forall z (pos : nat) b,
  bit_pos_from n z (Z.of_nat pos + 1) b = of_option (set_bits n b z !! pos).
Proof.
  induction n as [|n IH]; intros z pos b; cbn [bit_pos_from set_bits]; [rewrite lookup_nil; reflexivity|].
  rewrite Z.add_simpl_r. destruct (Z.testbit z b); [|apply IH]. destruct pos as [|pos]; [reflexivity|].
  rewrite (proj2 (Z.eqb_neq _ _)) by lia. cbn [lookup list_lookup]. rewrite <- IH. f_equal. lia.
Qed.

(** The 2^32 cases of [bits_of] must not be unfolded. *)
Opaque set_bits.

Lemma get_num_fields_bits z : get_num_fields z = Z.of_nat (length (bits_of z)).
Proof. unfold get_num_fields. rewrite count_fields_bits, Z.add_0_l. unfold bits_of. reflexivity. Qed.

Lemma get_field_id_bits z (k : nat) fid : bits_of z !! k = Some fid -> get_field_id z (Z.of_nat k) = fid.
Proof. intros H. unfold get_field_id, bits_of in *. rewrite field_id_from_bits, H. reflexivity. Qed.

(** [get_bit_pos] is the set bit at a position; without one it runs into the
    undefined shift. *)
Lemma get_bit_pos_bits z (k : nat) : get_bit_pos z (Z.of_nat k) = of_option (bits_of z !! k).
Proof. unfold get_bit_pos, bits_of. apply bit_pos_from_bits. Qed.

Lemma sorted_nodup l : StronglySorted Z.lt l -> NoDup l.
Proof.
  induction 1 as [|x k Hk IH Hx]; constructor; [|assumption]. rewrite Forall_forall in Hx. intros Hin.
  apply Hx in Hin. lia.
Qed.

Lemma bits_of_unique z l : StronglySorted Z.lt l ->
  (forall x, x ∈ l <-> 0 <= x < 32 /\ Z.testbit z x = true) -> bits_of z = l.
Proof.
  intros Hs Hl. pose proof (set_bits_sorted 32 0 z) as Hb.
  assert (Hle : forall l, StronglySorted Z.lt l -> StronglySorted Z.le l).
  { induction 1 as [|x k Hk IH Hx]; constructor; [assumption|]. eapply Forall_impl; [eassumption|]. cbn. intros. lia. }
  apply (StronglySorted_unique Z.le); [apply Hle, Hb|apply Hle, Hs|].
  apply NoDup_Permutation; [apply sorted_nodup, Hb|apply sorted_nodup, Hs|]. intros x. rewrite Hl. unfold bits_of. rewrite set_bits_in.
  change (0 + Z.of_nat 32) with 32. reflexivity.
Qed.

(** ** Gathering *)

(** Fields as low bit and size, from the lowest up, without overlap. *)
Fixpoint stacked (from : Z) (l : list (Z * Z)) : Prop :=
  match l with
  | [] => from <= 32
  | (lo, sz) :: l => from <= lo /\ 2 <= sz /\ stacked (lo + sz) l
  end.
Definition total (l : list (Z * Z)) : Z := foldr (fun f n => f.2 + n) 0 l.
Definition ends (l : list (Z * Z)) : list Z := concat (map (fun f => [f.1; f.1 + f.2 - 1]) l).

Lemma stacked_total l : forall from, 0 <= from -> stacked from l -> 0 <= total l /\ from + total l <= 32.
Proof.
  induction l as [|[lo sz] l IH]; intros from Hf; cbn [stacked total foldr snd]; [lia|].
  intros (H1 & H2 & H3). apply IH in H3; [|lia]. unfold total in H3. lia.
Qed.

Lemma ends_sorted l : forall from, stacked from l -> StronglySorted Z.lt (ends l) /\ Forall (fun x => from <= x < 32) (ends l).
Proof.
  induction l as [|[lo sz] l IH]; intros from; cbn [stacked]; [split; constructor|].
  intros (H1 & H2 & H3). destruct (IH _ H3) as [Hs Hf]. change (ends ((lo, sz) :: l)) with (lo :: (lo + sz - 1) :: ends l).
  assert (lo + sz <= 32).
  { clear -H3 H2. revert lo sz H2 H3. induction l as [|[lo' sz'] l IH]; intros lo sz H2; cbn [stacked]; [lia|].
    intros (H4 & H5 & H6). apply IH in H6; lia. }
  split.
  - repeat constructor; [assumption|..].
    + eapply Forall_impl; [eassumption|]. cbn. lia.
    + lia.
    + eapply Forall_impl; [eassumption|]. cbn. lia.
  - repeat constructor; try lia. eapply Forall_impl; [eassumption|]. cbn. lia.
Qed.

(** The bits of the operand value [input] from [off] on, in the fields. *)
Fixpoint carries (image input off : Z) (l : list (Z * Z)) : Prop :=
  match l with
  | [] => True
  | (lo, sz) :: l =>
      (forall i, 0 <= i < sz -> Z.testbit image (lo + i) = Z.testbit input (off + i)) /\ carries image input (off + sz) l
  end.

Lemma range_mask_ok n : forall lo j mask, 0 <= lo -> 0 <= j -> lo + j + Z.of_nat n <= 32 ->
  range_mask n lo j mask = Ret (Z.lor mask (Z.shiftl (Z.ones (Z.of_nat n)) (lo + j))).
Proof.
  intros lo j mask Hlo. revert j mask. induction n as [|n IH]; intros j mask Hj Hn; cbn [range_mask].
  - rewrite Z.shiftl_0_l, Z.lor_0_r. reflexivity.
  - rewrite shl32_ok by lia. cbn [mbind exec_bind]. rewrite IH by lia. rewrite <- Z.lor_assoc. do 2 f_equal.
    pose proof (low_mask_ok 1 (lo + j) 0 ltac:(lia) ltac:(lia)) as E1. cbn [low_mask] in E1.
    pose proof (low_mask_ok (S n) (lo + j) 0 ltac:(lia) ltac:(lia)) as E2. cbn [low_mask] in E2.
    rewrite shl32_ok in E2 by lia. cbn [mbind exec_bind] in E2. rewrite low_mask_ok in E2 by lia.
    rewrite Z.add_assoc. rewrite !Z.lor_0_l in E2. injection E2 as E2. exact E2.
Qed.

Lemma value_from_ok positions image input l : forall pre size acc,
  bits_of positions = ends (pre ++ l) -> 0 <= size -> stacked 0 (pre ++ l) -> size + total l <= 32 ->
  0 <= image < 2 ^ 32 ->
  carries image input size l -> acc = input mod 2 ^ size ->
  value_from (length l) (Z.of_nat (length pre)) positions image size acc
  = Ret (input mod 2 ^ (size + total l), size + total l).
Proof.
  induction l as [|[lo sz] l IH]; intros pre size acc Hp Hs Hst Ht Him Hc Hacc.
  - cbn. rewrite Z.add_0_r, Hacc. reflexivity.
  - cbn [length value_from]. change (total ((lo, sz) :: l)) with (sz + total l) in *.
    assert (Hends : forall a b, ends (a ++ b) = ends a ++ ends b) by (intros a b; unfold ends; rewrite map_app, concat_app; reflexivity).
    assert (Hlen : length (ends pre) = (2 * length pre)%nat).
    { clear. induction pre as [|x pre IH]; [reflexivity|]. unfold ends in *. cbn [map concat length app]. rewrite IH. lia. }
    assert (Hsuf : forall from, stacked from (pre ++ (lo, sz) :: l) -> exists f, from <= f /\ f <= lo /\ 2 <= sz /\ stacked (lo + sz) l).
    { clear. induction pre as [|[a b] pre IH]; intros from; cbn [app stacked]; [intros (? & ? & ?); exists from; auto using Z.le_refl|].
      intros (H1 & H2 & H3). apply IH in H3 as (f & Hf & H4). exists f. split; [lia|assumption]. }
    destruct (Hsuf 0 Hst) as (f & Hf0 & Hlo & Hsz & Hl). pose proof (stacked_total l (lo + sz) ltac:(lia) Hl) as Htl.
    replace (Z.of_nat (length pre) * 2) with (Z.of_nat (2 * length pre)) by lia.
    replace (Z.of_nat (2 * length pre) + 1) with (Z.of_nat (S (2 * length pre))) by lia.
    rewrite !get_bit_pos_bits, Hp, Hends. rewrite !lookup_app_r by lia. rewrite Hlen.
    replace (2 * length pre - 2 * length pre)%nat with 0%nat by lia.
    replace (S (2 * length pre) - 2 * length pre)%nat with 1%nat by lia.
    change (ends ((lo, sz) :: l)) with (lo :: (lo + sz - 1) :: ends l). cbn [lookup list_lookup of_option mbind exec_bind].
    replace (lo + sz - 1 - lo + 1) with sz by lia. rewrite (uwrap_small 32 sz) by lia.
    rewrite range_mask_ok by lia. cbn [mbind exec_bind]. rewrite Z.lor_0_l, Z.add_0_r, Z2Nat.id by lia.
    rewrite shl32_ok by lia. cbn [mbind exec_bind]. rewrite (uwrap_small 32 (size + sz)) by lia.
    replace (Z.of_nat (length pre) + 1) with (Z.of_nat (length (pre ++ [(lo, sz)]))) by (rewrite length_app; cbn; lia).
    rewrite (IH (pre ++ [(lo, sz)])).
    + f_equal. f_equal; [do 2 f_equal; lia|lia].
    + rewrite <- app_assoc. exact Hp.
    + lia.
    + rewrite <- app_assoc. exact Hst.
    + lia.
    + assumption.
    + apply Hc.
    + destruct Hc as [Hc _]. subst acc. apply Z.bits_inj'. intros i Hi.
      rewrite Z.lor_spec, testbit_uwrap, Z.shiftl_spec, testbit_uwrap, !Z.testbit_mod_pow2 by lia.
      destruct (Z.ltb_spec i size).
      * rewrite (Z.testbit_neg_r _ (i - size)) by lia. bit_cases; try lia; cbn; rewrite ?andb_false_r, ?orb_false_r; reflexivity.
      * rewrite Z.shiftr_spec, Z.land_spec, Z.shiftl_spec, testbit_ones by lia.
        specialize (Hc (i - size)). replace (size + (i - size)) with i in Hc by lia.
        replace (i - size + lo) with (lo + (i - size)) by lia. destruct (Z.ltb_spec i (size + sz)).
        -- rewrite Hc by lia. bit_cases; try lia. cbn. rewrite andb_true_r. reflexivity.
        -- bit_cases; try lia; cbn; rewrite ?andb_false_r; reflexivity.
Qed.

Lemma value_from_all positions image input l n : n = length l ->
  bits_of positions = ends l -> stacked 0 l -> 0 <= image < 2 ^ 32 -> carries image input 0 l ->
  value_from n 0 positions image 0 0 = Ret (input mod 2 ^ total l, total l).
Proof.
  intros -> Hp Hst Him Hc. pose proof (stacked_total _ _ (Z.le_refl 0) Hst) as Htot.
  apply (value_from_ok positions image input l [] 0 0); try assumption; try lia. rewrite Z.mod_1_r. reflexivity.
Qed.

Lemma elem_of_drop {A} (l : list A) n x : x ∈ drop n l -> exists i, l !! i = Some x /\ (n <= i)%nat.
Proof. intros [i Hi]%list_elem_of_lookup. rewrite lookup_drop in Hi. exists (n + i)%nat. split; [assumption|lia]. Qed.

(** ** Spreading *)

Section Roundtrip.
Context (fs : list ac_dec_format) (pfrm : ac_dec_format) (o : oper).
Context (Hvalid : valid_formats fs).
Context (Ht : 0 <= o_format_id o) (Hfmt : fs !! Z.to_nat (o_format_id o) = Some pfrm).

Notation ids := (bits_of (o_fields o)).
Notation lo pf := (low_bit (fmt_size pfrm) pf).

(** The fields of the format that an operand may use: not a single bit, since
    both ends of a field are marked, and fewer than 32 bits, since the input is
    shifted by the size. *)
Definition usable (fid : Z) (pf : ac_dec_field) : Prop :=
  fmt_fields pfrm !! Z.to_nat fid = Some pf /\ 2 <= f_size pf < 32.
Context (Hids : forall fid, fid ∈ ids -> exists pf, usable fid pf).

(** Fields in the order of their numbers from the highest bit down. *)
Definition msb_first : Prop := forall j k pf pg,
  fmt_fields pfrm !! j = Some pf -> fmt_fields pfrm !! k = Some pg -> (j < k)%nat -> lo pg + f_size pg <= lo pf.
Context (Hmsb : msb_first).

Definition span_of (fid : Z) : Z * Z :=
  match fmt_fields pfrm !! Z.to_nat fid with Some pf => (lo pf, f_size pf) | None => (0, 0) end.

Lemma ids_range fid : fid ∈ ids -> 0 <= fid < 32.
Proof. intros [H _]%set_bits_in. lia. Qed.

Lemma ids_nodup : NoDup ids.
Proof. apply sorted_nodup, set_bits_sorted. Qed.

Lemma at_field fid pf : fid ∈ ids -> usable fid pf -> field_at fs (o_format_id o) fid pfrm pf.
Proof. intros Hin [Hf _]. apply ids_range in Hin. repeat split; assumption || lia. Qed.

Lemma usable_valid fid pf : fid ∈ ids -> usable fid pf -> valid_field (fmt_size pfrm) pf.
Proof. intros Hin Hu. eapply field_at_valid; [exact Hvalid|]. apply at_field; eassumption. Qed.

Lemma field_size fid pf : fid ∈ ids -> usable fid pf -> get_field_size fs (o_format_id o) fid = f_size pf.
Proof.
  intros Hin Hu. pose proof (at_field _ _ Hin Hu) as (H1 & H2 & H3 & H4). destruct Hu as [_ Hs].
  unfold get_field_size, select. rewrite (proj2 (Z.ltb_ge _ _)), (proj2 (Z.ltb_ge _ _)) by lia. cbn [orb].
  rewrite list_lookup_fmap, H3. cbn. rewrite H4. apply uwrap_small. lia.
Qed.

(** The members of [mp->field] an input was spread to, from the lowest field. *)
Fixpoint placed (field : list Z) (input : Z) (l : list Z) : Prop :=
  match l with
  | [] => True
  | fid :: l => field !! Z.to_nat fid = Some input /\ placed field (Z.shiftr input (span_of fid).2) l
  end.

Lemma placed_ext field field' l : (forall fid, fid ∈ l -> field' !! Z.to_nat fid = field !! Z.to_nat fid) ->
  forall input, placed field input l -> placed field' input l.
Proof.
  induction l as [|fid l IH]; intros H input; cbn [placed]; [tauto|]. intros [H1 H2]. split.
  - rewrite H by left. assumption.
  - apply IH; [|assumption]. intros; apply H; right; assumption.
Qed.

Lemma spread_ok n : forall mp, (n <= length ids)%nat -> 0 <= mp_input mp < 2 ^ 32 ->
  (forall fid, fid ∈ ids -> fid < Z.of_nat (length (mp_field mp))) ->
  exists mp', spread fs n o mp = Ret mp' /\ placed (mp_field mp') (mp_input mp) (reverse (take n ids)) /\
    forall k, (forall fid, fid ∈ take n ids -> k <> Z.to_nat fid) -> mp_field mp' !! k = mp_field mp !! k.
Proof.
  induction n as [|n IH]; intros mp Hn Hin Hlen; cbn [spread].
  { exists mp. split; [reflexivity|]. split; [exact I|]. auto. }
  destruct (lookup_lt_is_Some_2 ids n ltac:(lia)) as [fid Hfid]. rewrite (get_field_id_bits _ _ _ Hfid).
  pose proof (list_elem_of_lookup_2 _ _ _ Hfid) as Hmem. destruct (Hids fid Hmem) as [pf Hpf].
  pose proof (ids_range _ Hmem) as Hr. pose proof (Hlen _ Hmem) as Hl.
  unfold set_field. rewrite (proj2 (Z.leb_le 0 fid)), (proj2 (Z.ltb_lt fid _)) by lia. cbn [andb mbind exec_bind].
  rewrite (field_size _ _ Hmem Hpf). pose proof Hpf as [Hlk Hsz]. cbn [mp_input set_fields].
  rewrite shr32_ok, (uwrap_small 32 (mp_input mp)) by lia. cbn [mbind exec_bind].
  destruct (IH (set_input (Z.shiftr (mp_input mp) (f_size pf)) (set_fields (<[Z.to_nat fid:=mp_input mp]> (mp_field mp)) mp)))
    as (mp' & Hs & Hp & Ho).
  - lia.
  - cbn. rewrite Z.shiftr_div_pow2 by lia. assert (0 < 2 ^ f_size pf) by (apply Z.pow_pos_nonneg; lia).
    split; [apply Z.div_pos; lia|]. apply Z.div_lt_upper_bound; nia.
  - cbn. intros g Hg. rewrite length_insert. auto.
  - exists mp'. split; [exact Hs|]. rewrite (take_S_r _ _ _ Hfid), reverse_snoc. cbn [placed].
    assert (Hnew : forall g, g ∈ take n ids -> Z.to_nat fid <> Z.to_nat g).
    { intros g Hg E. pose proof (ids_range g ltac:(eapply elem_of_take in Hg as (j & Hj & _); eapply list_elem_of_lookup_2; eassumption)).
      assert (g = fid) as -> by lia. apply elem_of_take in Hg as (j & Hj & Hjn).
      pose proof (NoDup_lookup _ _ _ _ ids_nodup Hj Hfid). lia. }
    split; [split|].
    + rewrite Ho by assumption. cbn. apply list_lookup_insert_eq. lia.
    + unfold span_of. rewrite Hlk. exact Hp.
    + intros k Hk. rewrite Ho.
      * cbn. apply list_lookup_insert_ne. intros <-. apply (Hk fid); [|reflexivity]. apply elem_of_app. right. left.
      * intros g Hg. apply Hk. apply elem_of_app. left. assumption.
Qed.

Lemma usable_disjoint fid g pf pg b : fid ∈ ids -> g ∈ ids -> usable fid pf -> usable g pg -> fid <> g ->
  in_field (fmt_size pfrm) pf b = true -> in_field (fmt_size pfrm) pg b = false.
Proof.
  intros Hf Hg [Hlf _] [Hlg _] Hne [H1%Z.leb_le H2%Z.ltb_lt]%andb_prop.
  pose proof (ids_range _ Hf). pose proof (ids_range _ Hg). unfold in_field. apply andb_false_iff.
  destruct (Z.lt_total fid g) as [Hlt|[->|Hlt]]; [|congruence|].
  - right. apply Z.ltb_ge. pose proof (Hmsb _ _ _ _ Hlf Hlg ltac:(lia)). lia.
  - left. apply Z.leb_gt. pose proof (Hmsb _ _ _ _ Hlg Hlf ltac:(lia)). lia.
Qed.

Lemma encode_all_ok mp n : forall (lt : nat) image, (n + lt = length ids)%nat -> 0 <= image < 2 ^ 32 ->
  (forall fid, fid ∈ ids -> is_Some (mp_field mp !! Z.to_nat fid)) ->
  exists image', encode_all (table_of enc_of fs) n (Z.of_nat lt) o mp image = Ret image' /\ 0 <= image' < 2 ^ 32 /\
    (forall fid pf v i, fid ∈ drop lt ids -> usable fid pf -> mp_field mp !! Z.to_nat fid = Some v ->
       0 <= i < f_size pf -> Z.testbit image' (lo pf + i) = Z.testbit v i) /\
    (forall b, 0 <= b -> (forall fid pf, fid ∈ drop lt ids -> usable fid pf -> in_field (fmt_size pfrm) pf b = false) ->
       Z.testbit image' b = Z.testbit image b).
Proof.
  induction n as [|n IH]; intros lt image Hn Him Hfield; cbn [encode_all].
  { exists image. rewrite drop_ge by lia. split; [reflexivity|]. split; [assumption|]. split; [intros ???? Hf; inversion Hf|auto]. }
  destruct (lookup_lt_is_Some_2 ids lt ltac:(lia)) as [fid Hfid]. rewrite (get_field_id_bits _ _ _ Hfid).
  pose proof (list_elem_of_lookup_2 _ _ _ Hfid) as Hmem. destruct (Hids fid Hmem) as [pf Hpf].
  pose proof (ids_range _ Hmem) as Hr. destruct (Hfield fid Hmem) as [v Hv].
  unfold get_field. rewrite (proj2 (Z.ltb_ge fid 0)), Hv by lia. cbn [of_option mbind exec_bind].
  replace (Z.of_nat lt + 1) with (Z.of_nat (S lt)) by lia.
  pose proof (at_field _ _ Hmem Hpf) as Hat. pose proof (usable_valid _ _ Hmem Hpf) as (V1 & V2 & V3 & V4).
  destruct (IH (S lt) (ac_encode_insn (table_of enc_of fs) (o_format_id o) fid v image)) as (image' & He & Hr' & Hin & Hout);
    [lia|eapply encode_range; [exact Hvalid|exact Hat]|assumption|].
  exists image'. split; [exact He|]. split; [assumption|]. rewrite (drop_S _ _ _ Hfid).
  assert (Hsub : forall g, g ∈ drop (S lt) ids -> g ∈ ids /\ fid <> g).
  { intros g Hg. split; [eapply elem_of_drop in Hg as (j & Hj & _); eapply list_elem_of_lookup_2; eassumption|].
    intros ->. apply elem_of_drop in Hg as (j & Hj & Hge). pose proof (NoDup_lookup _ _ _ _ ids_nodup Hj Hfid). lia. }
  split.
  - intros g pg w i Hg Hpg Hw Hi. apply elem_of_cons in Hg as [->|Hg]; [|eapply Hin; eassumption].
    assert (pg = pf) as -> by (destruct Hpg, Hpf; congruence). assert (w = v) as -> by congruence.
    assert (Hb : in_field (fmt_size pfrm) pf (lo pf + i) = true)
      by (unfold in_field; apply andb_true_iff; split; [apply Z.leb_le|apply Z.ltb_lt]; lia).
    assert (0 <= lo pf) by (unfold low_bit; lia).
    rewrite Hout; [|lia|].
    + rewrite (encode_bits _ _ _ _ _ _ _ _ Hvalid Hat Him) by lia. rewrite Hb. f_equal. lia.
    + intros h ph Hh Hph. apply Hsub in Hh as [Hh Hne]. exact (usable_disjoint _ _ _ _ _ Hmem Hh Hpf Hph Hne Hb).
  - intros b Hb0 Hb. rewrite Hout; [|assumption|intros; eapply Hb; [right; eassumption|assumption]].
    rewrite (encode_bits _ _ _ _ _ _ _ _ Hvalid Hat Him) by lia. rewrite (Hb fid pf); [reflexivity|left|assumption].
Qed.

(** ** The positions *)

Definition spans : list (Z * Z) := map span_of (reverse ids).
Strategy expand [spans].

Lemma length_spans : length spans = length ids.
Proof. unfold spans. rewrite length_map, length_reverse. reflexivity. Qed.

Lemma span_usable fid pf : usable fid pf -> span_of fid = (lo pf, f_size pf).
Proof. intros [H _]. unfold span_of. rewrite H. reflexivity. Qed.

Lemma spans_stacked : stacked 0 spans.
Proof.
  unfold spans. assert (Hsub : forall fid, fid ∈ reverse ids -> fid ∈ ids) by (intros; apply elem_of_reverse; assumption).
  assert (Hs : StronglySorted Z.gt (reverse ids)).
  { assert (H : StronglySorted Z.lt ids) by apply set_bits_sorted. clear -H. induction ids as [|x l IH]; [constructor|].
    inversion H as [|? ? Hl Hx]; subst. rewrite reverse_cons. apply StronglySorted_app. split; [|split].
    - intros a b Ha Hb%list_elem_of_singleton. subst b. rewrite Forall_forall in Hx. rewrite elem_of_reverse in Ha.
      apply Hx in Ha. lia.
    - apply IH. assumption.
    - repeat constructor. }
  assert (Hgen : forall l from, StronglySorted Z.gt l -> (forall fid, fid ∈ l -> fid ∈ ids) ->
            (forall fid pf, fid ∈ l -> usable fid pf -> from <= lo pf) -> from <= 32 -> stacked from (map span_of l)).
  { induction l as [|fid l IH]; intros from Hl Hin Hlow Hfrom; cbn [map stacked]; [assumption|].
    destruct (Hids fid (Hin _ ltac:(left))) as [pf Hpf]. rewrite (span_usable _ _ Hpf).
    pose proof (usable_valid _ _ (Hin _ ltac:(left)) Hpf) as (V1 & V2 & V3 & V4). destruct Hpf as [Hlf Hsz].
    inversion Hl as [|? ? Hl' Hx]; subst. split; [apply (Hlow fid); [left|split; assumption]|]. split; [lia|].
    apply IH; [assumption|intros; apply Hin; right; assumption| |unfold low_bit; lia].
    intros g pg Hg [Hlg _]. rewrite Forall_forall in Hx. pose proof (Hx g Hg).
    pose proof (ids_range g ltac:(apply Hin; right; assumption)).
    exact (Hmsb _ _ _ _ Hlg Hlf ltac:(lia)). }
  apply Hgen; [assumption|assumption| |lia]. intros fid pf Hf Hu. apply Hsub in Hf.
  pose proof (usable_valid _ _ Hf Hu) as (V1 & V2 & V3 & V4). unfold low_bit. lia.
Qed.
End Roundtrip.

(** An entry [o] of the operand table made from the chain of fields of an
    operand, for a format of the description. *)
Record laid_out (fs : list ac_dec_format) (pfrm : ac_dec_format) (chain : list ac_asm_insn_field) (o : oper) : Prop := {
  lo_valid : valid_formats fs;
  lo_number : 0 <= o_format_id o;
  lo_format : fs !! Z.to_nat (o_format_id o) = Some pfrm;
  lo_order : msb_first pfrm;
  lo_chain : Forall (fun c => exists pf, usable pfrm (af_id c) pf /\ 0 <= af_id c /\
               af_size c = f_size pf /\ af_first_bit c = f_first_bit pf) chain;
  lo_fields : encode_fields chain = Ret (o_fields o);
  lo_positions : encode_fields_positions chain (u32 (fmt_size pfrm)) = Ret (o_fields_positions o)
}.

Section LaidOut.
Context (fs : list ac_dec_format) (pfrm : ac_dec_format) (chain : list ac_asm_insn_field) (o : oper).
Context (H : laid_out fs pfrm chain o).

Lemma chain_ids fid : fid ∈ bits_of (o_fields o) <-> exists c, c ∈ chain /\ af_id c = fid.
Proof.
  assert (Hlt : forall cs e r, encode_fields_from e cs = Ret r -> forall c, c ∈ cs -> 0 <= af_id c < 32).
  { induction cs as [|c cs IH]; intros e r He d Hd; [inversion Hd|]. cbn [encode_fields_from] in He. exec_inv He.
    apply elem_of_cons in Hd as [->|Hd]; [|eapply IH; eassumption]. unfold shl32 in E.
    destruct (Z.leb_spec 0 (af_id c)), (Z.ltb_spec (af_id c) 32); cbn in E; try discriminate E. lia. }
  pose proof (lo_fields _ _ _ _ H) as He. unfold bits_of. rewrite set_bits_in. change (0 + Z.of_nat 32) with 32. split.
  - intros [Hr Hb]. rewrite (encode_fields_from_bits _ _ _ _ Hr He), Z.bits_0 in Hb. cbn [orb] in Hb.
    apply existsb_exists in Hb as (c & Hc & E%Z.eqb_eq). exists c. split; [apply list_elem_of_In, Hc|assumption].
  - intros (c & Hc & <-). pose proof (Hlt _ _ _ He c Hc) as Hr. split; [assumption|].
    rewrite (encode_fields_from_bits _ _ _ _ Hr He), Z.bits_0. apply existsb_exists. exists c.
    split; [apply list_elem_of_In, Hc|apply Z.eqb_refl].
Qed.

Lemma chain_usable fid : fid ∈ bits_of (o_fields o) -> exists pf, usable pfrm fid pf.
Proof.
  intros (c & Hc & <-)%chain_ids. pose proof (lo_chain _ _ _ _ H) as Hf. rewrite Forall_forall in Hf.
  destruct (Hf c Hc) as (pf & Hu & _). exists pf. assumption.
Qed.

Lemma positions_from_bits cs : forall e size r i, 0 <= i < 32 ->
  encode_positions_from e size cs = Ret r ->
  Z.testbit r i = Z.testbit e i || existsb (fun c =>
    let startbit := u32 (size - af_first_bit c - 1) in (startbit =? i) || (u32 (startbit + af_size c - 1) =? i)) cs.
Proof.
  induction cs as [|c cs IH]; cbn [encode_positions_from existsb]; intros e size r i Hi He.
  - injection He as <-. rewrite orb_false_r. reflexivity.
  - exec_inv He. exec_inv He. unfold shl32 in E, E0.
    destruct (Z.leb_spec 0 (u32 (size - af_first_bit c - 1))), (Z.ltb_spec (u32 (size - af_first_bit c - 1)) 32);
      cbn [andb] in E; try discriminate E.
    destruct (Z.leb_spec 0 (u32 (u32 (size - af_first_bit c - 1) + af_size c - 1))),
      (Z.ltb_spec (u32 (u32 (size - af_first_bit c - 1) + af_size c - 1)) 32); cbn [andb] in E0; try discriminate E0.
    injection E as <-. injection E0 as <-. rewrite (IH _ _ _ i Hi He), !Z.lor_spec, !testbit_uwrap, !Z.shiftl_1_l by lia.
    rewrite !Z.pow2_bits_eqb, (proj2 (Z.ltb_lt i 32)) by lia.
    cbn [andb]. rewrite !orb_assoc. reflexivity.
Qed.

Lemma positions_bits : bits_of (o_fields_positions o) = ends (spans pfrm o).
Proof.
  pose proof (lo_valid _ _ _ _ H) as Hv. pose proof (lo_number _ _ _ _ H) as Hn. pose proof (lo_format _ _ _ _ H) as Hfm.
  pose proof (spans_stacked fs pfrm o Hv Hn Hfm chain_usable (lo_order _ _ _ _ H)) as Hst.
  destruct (ends_sorted _ _ Hst) as [Hs Hr]. apply bits_of_unique; [assumption|]. intros x.
  assert (Hx : x ∈ ends (spans pfrm o) <-> exists c pf, c ∈ chain /\ usable pfrm (af_id c) pf /\
            (low_bit (fmt_size pfrm) pf = x \/ low_bit (fmt_size pfrm) pf + f_size pf - 1 = x)).
  { unfold ends, spans. rewrite list_elem_of_In, in_concat. split.
    - intros (l & Hl & Hin). apply in_map_iff in Hl as (sp & <- & Hsp). apply in_map_iff in Hsp as (fid & <- & Hfid).
      rewrite <- list_elem_of_In, elem_of_reverse in Hfid. pose proof Hfid as Hfid'. apply chain_ids in Hfid' as (c & Hc & <-).
      destruct (chain_usable _ Hfid) as [pf Hpf]. exists c, pf. rewrite (span_usable _ _ _ Hpf) in Hin. cbn in Hin. tauto.
    - intros (c & pf & Hc & Hpf & Hor). exists [low_bit (fmt_size pfrm) pf; low_bit (fmt_size pfrm) pf + f_size pf - 1].
      split; [|cbn; tauto]. apply in_map_iff. exists (span_of pfrm (af_id c)). rewrite (span_usable _ _ _ Hpf).
      split; [reflexivity|]. apply in_map_iff. exists (af_id c). split; [apply span_usable; assumption|].
      rewrite <- list_elem_of_In, elem_of_reverse. apply chain_ids. eauto. }
  assert (Hpos : forall c pf, c ∈ chain -> usable pfrm (af_id c) pf ->
            u32 (u32 (fmt_size pfrm) - af_first_bit c - 1) = low_bit (fmt_size pfrm) pf /\
            u32 (low_bit (fmt_size pfrm) pf + af_size c - 1) = low_bit (fmt_size pfrm) pf + f_size pf - 1 /\
            0 <= low_bit (fmt_size pfrm) pf /\ 2 <= f_size pf /\ low_bit (fmt_size pfrm) pf + f_size pf <= 32).
  { intros c pf Hc Hpf. pose proof (lo_chain _ _ _ _ H) as Hf. rewrite Forall_forall in Hf.
    destruct (Hf c Hc) as (pf' & Hpf' & _ & Hsz & Hfb). assert (pf' = pf) as -> by (destruct Hpf, Hpf'; congruence).
    assert (Hin : af_id c ∈ bits_of (o_fields o)) by (apply chain_ids; eauto).
    pose proof (usable_valid fs pfrm o Hv Hn Hfm _ _ Hin Hpf) as (V1 & V2 & V3 & V4). destruct Hpf as [_ Hz].
    rewrite Hsz, Hfb. unfold low_bit. rewrite (uwrap_small 32 (fmt_size pfrm)) by lia. rewrite !uwrap_small by lia. lia. }
  rewrite Hx. split.
  - intros (c & pf & Hc & Hpf & Hor). destruct (Hpos c pf Hc Hpf) as (H1 & H2 & H3 & H4 & H5).
    assert (Hr32 : 0 <= x < 32) by lia. split; [assumption|].
    rewrite (positions_from_bits _ _ _ _ _ Hr32 (lo_positions _ _ _ _ H)), Z.bits_0. apply existsb_exists. exists c.
    split; [apply list_elem_of_In, Hc|]. cbn zeta. rewrite H1, H2. apply orb_true_iff. destruct Hor; [left|right]; lia.
  - intros [Hr32 Hb]. rewrite (positions_from_bits _ _ _ _ _ Hr32 (lo_positions _ _ _ _ H)), Z.bits_0 in Hb.
    apply existsb_exists in Hb as (c & Hc & Hor). rewrite <- list_elem_of_In in Hc.
    destruct (chain_usable (af_id c) ltac:(apply chain_ids; eauto)) as [pf Hpf].
    destruct (Hpos c pf Hc Hpf) as (H1 & H2 & H3 & H4 & H5). exists c, pf. split; [assumption|]. split; [assumption|].
    cbn zeta in Hor. rewrite H1, H2 in Hor. apply orb_true_iff in Hor as [E|E]; lia.
Qed.

Lemma placed_carries field input image' l : forall off,
  placed pfrm field (Z.shiftr input off) l -> 0 <= off ->
  (forall fid, fid ∈ l -> exists pf, usable pfrm fid pf /\
     forall v i, field !! Z.to_nat fid = Some v -> 0 <= i < f_size pf ->
       Z.testbit image' (low_bit (fmt_size pfrm) pf + i) = Z.testbit v i) ->
  carries image' input off (map (span_of pfrm) l).
Proof.
  induction l as [|fid l IH]; intros off; cbn [placed map carries]; [auto|]. intros [H1 H2] Hoff Hl.
  destruct (Hl fid ltac:(left)) as (pf & Hpf & Hb). pose proof (span_usable _ _ _ Hpf) as Hsp. rewrite Hsp in *.
  cbn [snd] in H2. split.
  - intros i Hi. rewrite (Hb _ _ H1 Hi), Z.shiftr_spec by lia. f_equal. lia.
  - destruct Hpf as [_ Hz]. rewrite Z.shiftr_shiftr in H2 by lia. apply IH; [assumption|lia|].
    intros g Hg. apply Hl. right. assumption.
Qed.

Lemma operand_spread mp image :
  (length (fmt_fields pfrm) <= length (mp_field mp))%nat -> 0 <= mp_input mp < 2 ^ 32 -> 0 <= image < 2 ^ 32 ->
  exists mp' image', spread fs (length (bits_of (o_fields o))) o mp = Ret mp' /\
    encode_all (table_of enc_of fs) (length (bits_of (o_fields o))) 0 o mp' image = Ret image' /\
    0 <= image' < 2 ^ 32 /\ carries image' (mp_input mp) 0 (spans pfrm o) /\
    (forall b, 0 <= b -> (forall fid pf, fid ∈ bits_of (o_fields o) -> usable pfrm fid pf ->
       in_field (fmt_size pfrm) pf b = false) -> Z.testbit image' b = Z.testbit image b).
Proof.
  intros Hlen Hin Him. pose proof (lo_valid _ _ _ _ H) as Hv. pose proof (lo_number _ _ _ _ H) as Hn.
  pose proof (lo_format _ _ _ _ H) as Hfm. pose proof (lo_order _ _ _ _ H) as Hmsb.
  assert (Hfl : forall fid, fid ∈ bits_of (o_fields o) -> (Z.to_nat fid < length (mp_field mp))%nat /\ 0 <= fid).
  { intros fid Hf. destruct (chain_usable _ Hf) as [pf [Hl _]]. apply lookup_lt_Some in Hl.
    pose proof (ids_range o _ Hf). lia. }
  destruct (spread_ok fs pfrm o Hn Hfm chain_usable (length (bits_of (o_fields o))) mp) as (mp' & Hs & Hp & Ho);
    [lia|assumption|intros fid Hf; destruct (Hfl fid Hf); lia|].
  rewrite firstn_all in Hp.
  assert (Hsome : forall l input fid, placed pfrm (mp_field mp') input l -> fid ∈ l -> is_Some (mp_field mp' !! Z.to_nat fid)).
  { induction l as [|g l IH]; intros input fid Hpl Hf; [inversion Hf|]. destruct Hpl as [H1 H2].
    apply elem_of_cons in Hf as [->|Hf]; [eauto|eapply IH; eassumption]. }
  destruct (encode_all_ok fs pfrm o Hv Hn Hfm chain_usable Hmsb mp' (length (bits_of (o_fields o))) 0 image)
    as (image' & He & Hr & Hbits & Hout); [lia|assumption| |].
  { intros fid Hf. eapply Hsome; [exact Hp|]. apply elem_of_reverse. assumption. }
  exists mp', image'. split; [exact Hs|]. split; [exact He|]. split; [assumption|]. split; [|exact Hout].
  unfold spans. apply (placed_carries (mp_field mp')); [rewrite Z.shiftr_0_r; exact Hp|lia|].
  intros fid Hf. rewrite elem_of_reverse in Hf. destruct (chain_usable _ Hf) as [pf Hpf]. exists pf. split; [assumption|].
  intros v i Hv' Hi. eapply Hbits; eassumption.
Qed.

Lemma operand_gather n image' input : get_num_fields (o_fields o) = Z.of_nat n -> n = length (spans pfrm o) ->
  0 <= image' < 2 ^ 32 -> carries image' input 0 (spans pfrm o) ->
  get_value_from_fields o image' = Ret (input mod 2 ^ total (spans pfrm o), total (spans pfrm o)).
Proof.
  intros Hnf En Hr Hc. unfold get_value_from_fields. rewrite Hnf, Nat2Z.id.
  apply value_from_all; [exact En|exact positions_bits| |exact Hr|exact Hc].
  exact (spans_stacked fs pfrm o (lo_valid _ _ _ _ H) (lo_number _ _ _ _ H) (lo_format _ _ _ _ H)
           chain_usable (lo_order _ _ _ _ H)).
Qed.
End LaidOut.

Lemma encode_default fs ec operands modfn (k n : nat) o mp mp' image image' :
  operands !! k = Some o -> o_mod_type o = 0 -> get_num_fields (o_fields o) = Z.of_nat n ->
  spread fs n o (set_addend_error (o_mod_addend o) 0 mp) = Ret mp' -> encode_all ec n 0 o mp' image = Ret image' ->
  encode_cons_field fs ec operands modfn image mp (Z.of_nat k) = Ret (image', mp').
Proof.
  intros Ho Hmod Hnf Hs He. unfold encode_cons_field, operand_at.
  rewrite (proj2 (Z.ltb_ge (Z.of_nat k) 0)), Nat2Z.id, Ho by lia. cbn [of_option mbind exec_bind].
  rewrite Hmod, Hnf, Nat2Z.id, Z.gtb_ltb, (proj2 (Z.ltb_ge (Z.of_nat (length modfn)) 0)), Z.eqb_refl by lia.
  rewrite Hs. cbn [mbind exec_bind]. rewrite He. reflexivity.
Qed.

(** C9. Assembly and disassembly of an operand without a modifier, under
    [laid_out]: its entry of the operand table is the one the generator writes
    for its fields, the fields of the description lie inside words of at most 32
    bits, those of its format run from the highest bit down, and its own have 2
    to 31 bits each (reading a one-bit field runs past the word).  Encoding an
    input value in an image and gathering the fields of the new image gives the
    input back, cut to the total size of the fields, with that size, whatever
    their number and the order in which the operand lists them; the bits outside
    the fields are unchanged. *)
Theorem operand_roundtrip fs pfrm chain o operands modfn (k : nat) mp image :
  laid_out fs pfrm chain o -> operands !! k = Some o -> o_mod_type o = 0 ->
  (length (fmt_fields pfrm) <= length (mp_field mp))%nat -> 0 <= mp_input mp < 2 ^ 32 -> 0 <= image < 2 ^ 32 ->
  exists ec image' mp', encode_cases fs = Ret ec /\
    encode_cons_field fs ec operands modfn image mp (Z.of_nat k) = Ret (image', mp') /\
    get_value_from_fields o image' = Ret (mp_input mp mod 2 ^ total (spans pfrm o), total (spans pfrm o)) /\
    (forall b, 0 <= b -> (forall fid pf, fid ∈ bits_of (o_fields o) -> usable pfrm fid pf ->
       in_field (fmt_size pfrm) pf b = false) -> Z.testbit image' b = Z.testbit image b).
Proof.
  intros H Ho Hmod Hlen Hin Him. pose proof (lo_valid _ _ _ _ H) as Hv.
  destruct (operand_spread fs pfrm chain o H (set_addend_error (o_mod_addend o) 0 mp) image Hlen Hin Him)
    as (mp' & image' & Hs & He & Hr & Hc & Hout).
  pose proof (get_num_fields_bits (o_fields o)) as Hnf. pose proof (length_spans pfrm o) as En.
  exists (table_of enc_of fs), image', mp'. split; [apply encode_cases_ok, Hv|]. split; [|split; [|exact Hout]].
  - exact (encode_default _ _ _ _ _ _ _ _ _ _ _ Ho Hmod Hnf Hs He).
  - exact (operand_gather fs pfrm chain o H _ _ _ Hnf (eq_sym En) Hr Hc).
Qed.

(** An operand in two fields of a format [op:6 hi:10 mid:8 lo:8]. *)
Definition demo_split_format : ac_dec_format :=
  MkFormat 0 "Type_S" 32 [MkField "op" 6 5 1 0 0; MkField "hi" 10 15 2 0 0; MkField "mid" 8 23 3 0 0; MkField "lo" 8 31 4 0 0].
Definition demo_chain : list ac_asm_insn_field := [MkAField (Some "hi") 10 15 1; MkAField (Some "lo") 8 31 3].
Definition demo_split_oper : oper := MkOper 0 "imm" op_imm 0 0 false 10 0 0 0x2010081.
Definition demo_parms (input : Z) : mod_parms := MkParms 0 [] input 0 0 0 [0; 0; 0; 0].

Lemma demo_laid_out : laid_out [demo_split_format] demo_split_format demo_chain demo_split_oper.
Proof.
  constructor; try reflexivity.
  - repeat constructor; cbn; lia.
  - intros j k pf pg Hj Hk Hjk. unfold low_bit, demo_split_format in *. cbn [fmt_size fmt_fields] in *.
    do 4 (destruct j as [|j]; [do 4 (destruct k as [|k]; [try lia; injection Hj as <-; injection Hk as <-; cbn; lia|]); discriminate|]).
    discriminate.
  - repeat constructor; cbn; eexists; repeat split; cbn; lia.
Qed.

Lemma operand_roundtrip_witness : exists ec image' mp',
  encode_cases [demo_split_format] = Ret ec /\
  encode_cons_field [demo_split_format] ec [demo_split_oper] [] 0xFC00FF00 (demo_parms 0x2A5C3) 0 = Ret (image', mp') /\
  get_value_from_fields demo_split_oper image' = Ret (0x2A5C3, 18) /\ image' = 0xFEA5FFC3.
Proof.
  destruct (operand_roundtrip [demo_split_format] demo_split_format demo_chain demo_split_oper [demo_split_oper] []
    0 (demo_parms 0x2A5C3) 0xFC00FF00 demo_laid_out eq_refl eq_refl) as (ec & image' & mp' & He & H & Hval & _);
    [cbn; lia|cbn; lia|lia|].
  exists ec, image', mp'. split; [exact He|]. split; [exact H|]. split; [rewrite Hval; vm_compute; reflexivity|].
  vm_compute in He. injection He as <-. vm_compute in H. injection H as <- _. reflexivity.
Defined.
