(* ===== verification/BinArgsOk.v ===== *)
(** * Argument strings: from the syntax of an instruction to the disassembler

    The literal that the parser formats becomes the argument string of the
    opcode table; the disassembler reads it back as a template with the type
    names of the operands, and as the list of the operands' numbers. *)
From S2P Require Import Prelude CString DecTypes AsmTypes AsmMap AsmInsn AsmInsnOk BinUtils BinOpcodes BinGas BinShare BinDis.

(** ** Characters *)

Fixpoint all_chars (P : ascii -> bool) (s : string) : bool :=
  match s with EmptyString => true | String c s => P c && all_chars P s end.

Lemma all_chars_app P s t : all_chars P (s +:+ t) = all_chars P s && all_chars P t.
Proof. induction s as [|c s IH]; [reflexivity|]. rewrite str_app_cons. cbn [all_chars]. rewrite IH. apply andb_assoc. Qed.

Lemma pretty_char_digit d : (d < 10)%N -> isdigit (pretty_N_char d) = true.
Proof.
  intros H. assert (d = 0 \/ d = 1 \/ d = 2 \/ d = 3 \/ d = 4 \/ d = 5 \/ d = 6 \/ d = 7 \/ d = 8 \/ d = 9)%N as Hd by lia.
  repeat destruct Hd as [->|Hd]; try subst d; reflexivity.
Qed.

Lemma pretty_go_digits x s : all_chars isdigit s = true -> all_chars isdigit (pretty_N_go x s) = true.
Proof.
  revert s. induction (N.lt_wf_0 x) as [x _ IH]; intros s Hs.
  assert (x = 0 \/ 0 < x)%N as [->|Hx] by lia; [rewrite pretty_N_go_0; assumption|].
  rewrite pretty_N_go_step by assumption. apply IH; [apply N.div_lt; lia|].
  cbn [all_chars]. rewrite pretty_char_digit, Hs by (apply N.mod_lt; lia). reflexivity.
Qed.

(** A number of the operand table is printed with digits only. *)
Lemma fmt_d_digits z : 0 <= z -> all_chars isdigit (fmt_d z) = true /\ fmt_d z <> "".
Proof.
  intros Hz. split.
  - destruct z as [|n|n]; [reflexivity| |lia]. exact (pretty_go_digits (Npos n) "" eq_refl).
  - destruct (pretty_Z_head z) as (c & t & E & _). unfold fmt_d. rewrite E. discriminate.
Qed.

Lemma span_all P s t : all_chars P s = true -> head_is P t = false -> span P (s +:+ t) = (s, t).
Proof.
  intros Hs Ht. induction s as [|c s IH].
  - change ("" +:+ t) with t. destruct t as [|d t]; [reflexivity|]. cbn [head_is span] in *. rewrite Ht. reflexivity.
  - cbn [all_chars] in Hs. apply andb_prop in Hs as [Hc Hs]. rewrite str_app_cons. cbn [span]. rewrite Hc, IH by assumption.
    reflexivity.
Qed.

Lemma isdigit_plain c : isdigit c = true -> is_char ":" c = false /\ is_char "+" c = false.
Proof. intros H. unfold is_char. split; apply Ascii.eqb_neq; intros <-; discriminate H. Qed.

Lemma to_mark_digits s c t : all_chars isdigit s = true -> is_char ":" c || is_char "+" c = true ->
  to_mark (s +:+ String c t) = Ret (s, String c t).
Proof.
  intros Hs Hc. induction s as [|d s IH].
  - change ("" +:+ String c t) with (String c t). cbn [to_mark]. rewrite Hc. reflexivity.
  - cbn [all_chars] in Hs. apply andb_prop in Hs as [Hd Hs]. rewrite str_app_cons. cbn [to_mark].
    destruct (isdigit_plain d Hd) as [-> ->]. cbn [orb]. rewrite IH by assumption. reflexivity.
Qed.

(** ** The parts of a formatted literal *)

Inductive token := TMark | TEsc | TChar (c : ascii).

Definition plain (t : token) : bool :=
  match t with TChar c => negb (is_char "%" c) && negb (is_char "\" c) && negb (is_char NUL c) | _ => true end.

Definition token_text (t : token) : string :=
  match t with TMark => "%" | TEsc => "\\%" | TChar c => String c "" end.
Fixpoint render (l : list token) : string :=
  match l with [] => "" | t :: l => token_text t +:+ render l end.

Fixpoint marks (l : list token) : nat :=
  match l with [] => 0 | TMark :: l => S (marks l) | _ :: l => marks l end.

Lemma render_app a b : render (a ++ b) = render a +:+ render b.
Proof. induction a as [|t a IH]; [reflexivity|]. cbn [render app]. rewrite IH, str_app_assoc. reflexivity. Qed.

Lemma marks_app a b : marks (a ++ b) = (marks a + marks b)%nat.
Proof. induction a as [|[| |c] a IH]; cbn [marks app]; rewrite ?IH; reflexivity. Qed.

(** A literal without NUL characters that the parser formatted. *)
Lemma formatted_tokens s n : formatted s n -> all_chars (fun c => negb (is_char NUL c)) s = true ->
  exists l, s = render l /\ marks l = n /\ forallb plain l = true.
Proof.
  induction 1 as [|s n H IH|s n H IH|s n c H IH H1 H2]; intros Hn; [exists []; auto|..];
    rewrite all_chars_app in Hn; apply andb_prop in Hn as [Hn Hc]; destruct (IH Hn) as (l & -> & <- & Hl).
  - exists (l ++ [TMark]). rewrite render_app, marks_app, forallb_app, Hl. cbn. split; [reflexivity|]. split; [lia|reflexivity].
  - exists (l ++ [TEsc]). rewrite render_app, marks_app, forallb_app, Hl. cbn. split; [reflexivity|]. split; [lia|reflexivity].
  - exists (l ++ [TChar c]). rewrite render_app, marks_app, forallb_app, Hl. cbn [all_chars] in Hc. cbn [forallb plain].
    rewrite H1, H2. cbn. rewrite andb_true_r in Hc. rewrite Hc. split; [reflexivity|]. split; [lia|reflexivity].
Qed.

(** ** The argument string *)

(** What the table's row holds; [esc] is how an escape is written: with two
    backslashes in the source text, with one in the compiled string. *)
Fixpoint args_text (esc : string) (l : list token) (ids : list Z) : string :=
  match l with
  | [] => ""
  | TMark :: l =>
      match ids with
      | id :: ids => "%" +:+ fmt_d id +:+ ":" +:+ args_text esc l ids
      | [] => ""
      end
  | TEsc :: l => esc +:+ args_text esc l ids
  | TChar c :: l => String c (args_text esc l ids)
  end.

(** The C compiler reads two backslashes in a string as one. *)
Fixpoint c_unescape (s : string) : string :=
  match s with
  | EmptyString => ""
  | String c t =>
      if is_char "\" c then
        match t with
        | String d t' => if is_char "\" d then String c (c_unescape t') else String c (c_unescape t)
        | EmptyString => s
        end
      else String c (c_unescape t)
  end.

Lemma put_arg_ok out t : (String.length out + String.length t <= ARGS_SIZE)%nat -> put_arg out t = Ret (out +:+ t).
Proof. intros H. unfold put_arg. rewrite (proj2 (Nat.leb_le _ _)) by assumption. reflexivity. Qed.

Lemma put_oper_id_ok out id : 0 <= id ->
  (String.length out + String.length (fmt_d id) + 1 <= ARGS_SIZE)%nat -> put_oper_id out id = Ret (out +:+ fmt_d id +:+ ":").
Proof.
  intros Hid Hlen. destruct (fmt_d_digits id Hid) as [Hd _]. unfold put_oper_id, put_nul.
  rewrite (proj2 (Nat.leb_le _ _)) by assumption. cbn [mbind exec_bind].
  pose proof (span_all isdigit (fmt_d id) "" Hd eq_refl) as Hs. rewrite str_app_nil in Hs. rewrite Hs. cbn [fst].
  rewrite put_arg_ok by (rewrite str_app_length; cbn; lia). rewrite str_app_assoc. reflexivity.
Qed.

Lemma operand_string_ok ol l : forall ops out,
  forallb plain l = true -> marks l = length ops -> Forall (fun o => 0 <= op_oper_id o) ops ->
  (String.length out + String.length (args_text "\\%" l (map op_oper_id ops)) + 1 <= ARGS_SIZE)%nat ->
  operand_string ol out (render l) ops = Ret (out +:+ args_text "\\%" l (map op_oper_id ops), ops).
Proof.
  induction l as [|t l IH]; intros ops out Hp Hm Hids Hlen.
  { destruct ops; [|discriminate]. cbn in *. unfold put_nul. cbn [String.length] in *.
    rewrite (proj2 (Nat.leb_le _ _)) by lia. cbn. rewrite str_app_nil. reflexivity. }
  cbn [forallb] in Hp. apply andb_prop in Hp as [Ht Hp]. destruct t as [| |c].
  - destruct ops as [|o ops]; [discriminate|]. cbn [marks length] in Hm. inversion Hids; subst.
    cbn [map args_text] in Hlen |- *. change (render (TMark :: l)) with (String "%" (render l)). cbn [operand_string].
    change (is_char "%" "%") with true. cbv iota. rewrite !str_app_length in Hlen. cbn [String.length] in Hlen.
    rewrite put_arg_ok by (cbn; lia). cbn [mbind exec_bind].
    assert (Hr : resolve_operand ol o = o) by (unfold resolve_operand; rewrite (proj2 (Z.eqb_neq _ _)) by lia; reflexivity).
    rewrite Hr, put_oper_id_ok by (assumption || (rewrite str_app_length; cbn; lia)). cbn [mbind exec_bind].
    rewrite IH; [|assumption|lia|assumption|rewrite !str_app_length; cbn; lia]. cbn [mbind exec_bind].
    rewrite !str_app_assoc. reflexivity.
  - cbn [marks] in Hm. cbn [args_text] in Hlen |- *. change (render (TEsc :: l)) with (String "\" (String "\" (String "%" (render l)))).
    cbn [operand_string]. change (is_char "%" "\") with false. change (is_char "\" "\") with true. change (is_char "%" "%") with true.
    cbv iota. rewrite str_app_length in Hlen. cbn [String.length] in Hlen.
    rewrite !put_arg_ok by (cbn; lia). cbn [mbind exec_bind]. rewrite !put_arg_ok by (rewrite ?str_app_length; cbn; lia).
    cbn [mbind exec_bind]. rewrite !put_arg_ok by (rewrite ?str_app_length; cbn; lia). cbn [mbind exec_bind].
    rewrite IH; [|assumption|assumption|assumption|rewrite !str_app_length; cbn; lia]. rewrite !str_app_assoc. reflexivity.
  - cbn [marks] in Hm. cbn [args_text String.length] in Hlen |- *. cbn [plain] in Ht.
    apply andb_prop in Ht as [Ht _]. apply andb_prop in Ht as [H1%negb_true_iff H2%negb_true_iff].
    change (render (TChar c :: l)) with (String c (render l)). cbn [operand_string]. rewrite H1, H2.
    rewrite put_arg_ok by (cbn; lia). cbn [mbind exec_bind].
    rewrite IH; [|assumption|assumption|assumption|rewrite str_app_length; cbn; lia]. rewrite str_app_assoc. reflexivity.
Qed.

Lemma c_unescape_plain s t : all_chars (fun c => negb (is_char "\" c)) s = true -> c_unescape (s +:+ t) = s +:+ c_unescape t.
Proof.
  intros Hs. induction s as [|c s IH]; [reflexivity|]. cbn [all_chars] in Hs. apply andb_prop in Hs as [Hc%negb_true_iff Hs].
  rewrite !str_app_cons. cbn [c_unescape]. rewrite Hc, IH by assumption. reflexivity.
Qed.

Lemma all_chars_impl (P Q : ascii -> bool) s : (forall c, P c = true -> Q c = true) -> all_chars P s = true -> all_chars Q s = true.
Proof.
  intros H. induction s as [|c s IH]; cbn [all_chars]; [reflexivity|]. intros [Hc Hs]%andb_prop.
  rewrite (H c Hc). apply IH, Hs.
Qed.

(** Compiling the printed argument string. *)
Lemma args_compiled l : forall ids, forallb plain l = true -> Forall (fun id => 0 <= id) ids ->
  c_unescape (args_text "\\%" l ids) = args_text "\%" l ids.
Proof.
  induction l as [|t l IH]; intros ids Hp Hids; [reflexivity|]. cbn [forallb] in Hp. apply andb_prop in Hp as [Ht Hp].
  destruct t as [| |c]; cbn [args_text].
  - destruct ids as [|id ids]; [reflexivity|]. inversion Hids; subst.
    destruct (fmt_d_digits id ltac:(assumption)) as [Hd _].
    change (c_unescape ("%" +:+ (fmt_d id +:+ ":" +:+ args_text "\\%" l ids)) = "%" +:+ (fmt_d id +:+ ":" +:+ args_text "\%" l ids)).
    rewrite (c_unescape_plain "%"), (c_unescape_plain (fmt_d id)), (c_unescape_plain ":"), IH; try reflexivity; try assumption.
    eapply all_chars_impl; [|exact Hd]. intros c Hc. unfold is_char. apply negb_true_iff, Ascii.eqb_neq. intros <-. discriminate Hc.
  - rewrite <- (IH ids Hp Hids). reflexivity.
  - cbn [plain] in Ht. apply andb_prop in Ht as [Ht _]. apply andb_prop in Ht as [_ H2%negb_true_iff].
    cbn [c_unescape]. rewrite H2, IH by assumption. reflexivity.
Qed.

(** ** The disassembler's template *)

(** What the buffer shows: names for markers, no modifier names, a tab for the
    first blank. *)
Fixpoint template (l : list token) (names : list string) (skip suffix : bool) : string :=
  match l with
  | [] => ""
  | TMark :: l =>
      match names with
      | name :: names => name +:+ template l names false suffix
      | [] => ""
      end
  | TEsc :: l => template l names true suffix
  | TChar c :: l =>
      if skip && is_letter_code c then template l names true suffix
      else if is_char " " c && suffix then String (ascii_of_nat 9) (template l names false false)
      else String c (template l names false suffix)
  end.

(** The buffer starts with the text [out]. *)
Definition begins (m : mem) (out : string) : Prop := exists rest, m = String.list_ascii_of_string out ++ rest.

Lemma list_ascii_app s t : String.list_ascii_of_string (s +:+ t) = String.list_ascii_of_string s ++ String.list_ascii_of_string t.
Proof. induction s as [|c s IH]; [reflexivity|]. rewrite str_app_cons. cbn. rewrite IH. reflexivity. Qed.

Lemma list_ascii_length s : length (String.list_ascii_of_string s) = String.length s.
Proof. induction s as [|c s IH]; cbn; [reflexivity|]. rewrite IH. reflexivity. Qed.

Lemma mem_set_ok m out c : begins m out -> (String.length out < length m)%nat ->
  exists rest, mem_set m (String.length out) c = Ret (String.list_ascii_of_string out ++ c :: rest) /\
    length (String.list_ascii_of_string out ++ c :: rest) = length m.
Proof.
  intros [rest ->] Hlen. rewrite length_app, list_ascii_length in *. destruct rest as [|r rest]; [cbn in Hlen; lia|].
  exists rest. unfold mem_set. rewrite length_app, list_ascii_length. cbn [length].
  rewrite (proj2 (Nat.ltb_lt _ _)) by lia. split; [|rewrite length_app, list_ascii_length; reflexivity].
  f_equal. etransitivity; [apply insert_app_r_alt; rewrite list_ascii_length; lia|].
  rewrite list_ascii_length, Nat.sub_diag. reflexivity.
Qed.

Lemma begins_snoc out c rest : begins (String.list_ascii_of_string out ++ c :: rest) (out +:+ String c "").
Proof. exists rest. rewrite list_ascii_app. cbn. rewrite <- app_assoc. reflexivity. Qed.

Lemma write_str_ok s : forall m out, begins m out -> (String.length out + String.length s < length m)%nat ->
  exists rest, write_str m (String.length out) s = Ret (String.list_ascii_of_string (out +:+ s) ++ NUL :: rest) /\
    length (String.list_ascii_of_string (out +:+ s) ++ NUL :: rest) = length m.
Proof.
  induction s as [|c s IH]; intros m out Hm Hlen; cbn [write_str].
  - rewrite str_app_nil. apply mem_set_ok; [assumption|cbn in Hlen; lia].
  - cbn [String.length] in Hlen. destruct (mem_set_ok m out c Hm ltac:(lia)) as (rest & -> & Hl). cbn [mbind exec_bind].
    destruct (IH (String.list_ascii_of_string out ++ c :: rest) (out +:+ String c "")) as (rest' & Hw & Hl').
    + apply begins_snoc.
    + rewrite Hl, str_app_length. cbn. lia.
    + rewrite str_app_length in Hw. cbn [String.length] in Hw. rewrite Nat.add_1_r in Hw.
      rewrite str_app_assoc in Hw, Hl'. exists rest'. split; [exact Hw|]. rewrite <- Hl. exact Hl'.
Qed.

Lemma cstr_at out rest : cstr (String.list_ascii_of_string out ++ NUL :: rest) (String.length out) = Ret "".
Proof. unfold cstr. rewrite drop_app_length' by (rewrite list_ascii_length; reflexivity). reflexivity. Qed.

Lemma strcat_ok out rest s : (String.length out + String.length s < length (String.list_ascii_of_string out ++ NUL :: rest))%nat ->
  exists rest', mem_strcat (String.list_ascii_of_string out ++ NUL :: rest) (String.length out) s
    = Ret (String.list_ascii_of_string (out +:+ s) ++ NUL :: rest') /\
    length (String.list_ascii_of_string (out +:+ s) ++ NUL :: rest') = length (String.list_ascii_of_string out ++ NUL :: rest).
Proof.
  intros Hlen. unfold mem_strcat. rewrite cstr_at. cbn [mbind exec_bind String.length]. rewrite Nat.add_0_r.
  apply write_str_ok; [exists (NUL :: rest); reflexivity|assumption].
Qed.

Lemma cstr_whole s rest : all_chars (fun c => negb (is_char NUL c)) s = true ->
  cstr_list (String.list_ascii_of_string s ++ NUL :: rest) = Ret s.
Proof.
  induction s as [|c s IH]; cbn [all_chars]; intros H; [reflexivity|]. apply andb_prop in H as [Hc%negb_true_iff Hs].
  cbn [String.list_ascii_of_string app cstr_list]. rewrite Hc, IH by assumption. reflexivity.
Qed.

Section Template.
Context (operands : list oper).

(** The operands with the numbers [ids]. *)
Definition numbered_opers (ids : list Z) (os : list oper) : Prop :=
  Forall2 (fun id o => 0 <= id < 2 ^ 31 /\ operands !! Z.to_nat id = Some o) ids os.
Definition symbols_of (ids : list Z) (os : list oper) : list ac_symbol :=
  zip_with (fun id o => MkAcSymbol (o_name o) (o_is_list o) id) ids os.

(** The state after the text [out] has been written. *)
Record parsed (p : parse_state) (size : nat) (out : string) (suffix : bool) (syms : list ac_symbol) : Prop := {
  pd_begins : begins (ps_buf p) out;
  pd_size : length (ps_buf p) = size;
  pd_ptr : ps_ptr p = String.length out;
  pd_suffix : ps_suffix p = suffix;
  pd_syms : ps_syms p = syms
}.

Lemma emit_char_ok p size out suffix syms c suffix' : parsed p size out suffix syms -> (String.length out < size)%nat ->
  exists p', emit_char c suffix' p = Ret p' /\ parsed p' size (out +:+ String c "") suffix' syms.
Proof.
  intros [Hb Hs Hp Hf Hy] Hlen. unfold emit_char. rewrite Hp.
  destruct (mem_set_ok (ps_buf p) out c Hb ltac:(lia)) as (rest & -> & Hl). cbn [mbind exec_bind].
  eexists. split; [reflexivity|]. constructor; cbn; try assumption; try reflexivity.
  - apply begins_snoc.
  - lia.
  - rewrite str_app_length. cbn. lia.
Qed.

Lemma parse_tag_ok p size out suffix syms id o rest :
  parsed p size out suffix syms -> 0 <= id < 2 ^ 31 -> operands !! Z.to_nat id = Some o ->
  (String.length (fmt_d id) < 50)%nat ->
  (String.length out + String.length (o_name o) + (if head_is (is_char "+") rest then 1 else 0) < size)%nat ->
  exists p', parse_tag operands p (fmt_d id +:+ String ":" rest)
      = Ret (p', if head_is (is_char "+") rest then match rest with String _ t => t | EmptyString => rest end else rest) /\
    parsed p' size (out +:+ o_name o +:+ (if head_is (is_char "+") rest then "+" else "")) suffix
      (syms ++ [MkAcSymbol (o_name o) (o_is_list o) id]).
Proof.
  intros [Hb Hs Hp Hf Hy] Hid Ho H50 Hlen. destruct (fmt_d_digits id ltac:(lia)) as [Hd Hne].
  unfold parse_tag. rewrite to_mark_digits by (assumption || reflexivity). cbn [mbind exec_bind].
  rewrite (proj2 (Nat.leb_gt _ _)) by assumption. rewrite Hp.
  destruct (mem_set_ok (ps_buf p) out NUL Hb) as (r1 & Hm & Hl1); [lia|].
  destruct (fmt_d id) as [|c0 t0] eqn:Ed; [congruence|]. rewrite Hm. cbn [mbind exec_bind]. rewrite <- Ed in *. clear Ed.
  cbv zeta. unfold fmt_d. rewrite atoi_pretty, (uwrap_small 32) by lia.
  unfold operand_at. rewrite (proj2 (Z.ltb_ge id 0)), Ho by lia. cbn [of_option mbind exec_bind].
  destruct (strcat_ok out r1 (o_name o)) as (r2 & Hm2 & Hl2); [rewrite Hl1, Hs; lia|]. rewrite Hm2. cbn [mbind exec_bind].
  rewrite <- str_app_length. destruct (head_is (is_char "+") rest) eqn:Eh.
  - destruct (strcat_ok (out +:+ o_name o) r2 "+") as (r3 & Hm3 & Hl3).
    { rewrite Hl2, Hl1, Hs, str_app_length. cbn [String.length]. lia. }
    rewrite Hm3. cbn [mbind exec_bind]. eexists. split; [reflexivity|]. constructor; cbn [ps_buf ps_ptr ps_suffix ps_syms].
    + rewrite <- str_app_assoc. eexists. reflexivity.
    + rewrite Hl3, Hl2, Hl1. assumption.
    + rewrite !str_app_length. cbn. lia.
    + assumption.
    + congruence.
  - eexists. split; [reflexivity|]. rewrite str_app_nil. constructor; cbn [ps_buf ps_ptr ps_suffix ps_syms].
    + eexists. reflexivity.
    + rewrite Hl2, Hl1. assumption.
    + reflexivity.
    + assumption.
    + congruence.
Qed.

(** Letters behind an escape are skipped. *)
Definition skipped (skip : bool) (s : string) : string := if skip then snd (span is_letter_code s) else s.

Lemma skipped_stop skip c s : is_letter_code c = false -> skipped skip (String c s) = String c s.
Proof. intros H. destruct skip; [|reflexivity]. cbn [skipped span]. rewrite H. reflexivity. Qed.

Lemma skipped_length skip s : (String.length (skipped skip s) <= String.length s)%nat.
Proof. destruct skip; [apply span_length|cbn; lia]. Qed.

Lemma parse_loop_ok n : forall l ids os p size out suffix syms skip fuel,
  (length l <= n)%nat -> forallb plain l = true -> marks l = length ids -> numbered_opers ids os ->
  Forall (fun id => (String.length (fmt_d id) < 50)%nat) ids ->
  parsed p size out suffix syms ->
  (String.length (skipped skip (args_text "\%" l ids)) < fuel)%nat ->
  (String.length out + String.length (template l (map o_name os) skip suffix) < size)%nat ->
  exists p' suffix', parse_loop operands fuel p (skipped skip (args_text "\%" l ids)) = Ret p' /\
    parsed p' size (out +:+ template l (map o_name os) skip suffix) suffix' (syms ++ symbols_of ids os).
Proof.
  induction n as [|n IH]; intros l ids os p size out suffix syms skip fuel Hn Hpl Hm Hnum H50 Hp Hfuel Hsize.
  { destruct l; [|cbn in Hn; lia]. destruct ids; [|discriminate]. inversion Hnum; subst.
    assert (Hs : skipped skip (args_text "\%" [] []) = "") by (destruct skip; reflexivity). rewrite Hs in *.
    destruct fuel; [cbn in Hfuel; lia|]. exists p, suffix. split; [reflexivity|]. cbn. rewrite str_app_nil, app_nil_r. assumption. }
  destruct l as [|t l].
  { eapply (IH []); try eassumption. cbn. lia. }
  cbn [forallb] in Hpl. apply andb_prop in Hpl as [Ht Hpl]. cbn [length] in Hn. destruct t as [| |c].
  - destruct ids as [|id ids]; [discriminate|]. inversion Hnum as [|? o ? os' [Hid Ho] Hnum']; subst. inversion H50; subst.
    cbn [marks length] in Hm. cbn [args_text] in Hfuel |- *. cbn [map template] in Hsize |- *.
    change ("%" +:+ fmt_d id +:+ ":" +:+ args_text "\%" l ids) with (String "%" (fmt_d id +:+ String ":" (args_text "\%" l ids))) in *.
    rewrite skipped_stop in * by reflexivity. destruct fuel as [|fuel]; [lia|]. cbn [parse_loop].
    change (is_char "%" "%") with true. cbv iota. rewrite str_app_length in Hsize.
    cbn [String.length] in Hfuel. rewrite str_app_length in Hfuel. cbn [String.length] in Hfuel.
    destruct (head_is (is_char "+") (args_text "\%" l ids)) eqn:Eh.
    + (* the mark behind the tag is a plain character *)
      destruct l as [|[| |c] l]; [discriminate|destruct ids; discriminate|discriminate|].
      cbn [args_text head_is] in Eh. unfold is_char in Eh. apply Ascii.eqb_eq in Eh. subst c.
      cbn [template] in Hsize |- *. change (is_char " " "+") with false in *. change (is_letter_code "+") with false in *.
      cbn [andb String.length] in Hsize |- *.
      destruct (parse_tag_ok p size out suffix syms id o (args_text "\%" (TChar "+" :: l) ids) Hp Hid Ho ltac:(assumption)) as (p1 & Hrun & Hp1).
      { cbn [args_text head_is]. change (is_char "+" "+") with true. cbv iota. lia. }
      cbn [args_text head_is] in Hrun, Hp1. change (is_char "+" "+") with true in *. cbv iota in Hrun, Hp1.
      cbn [args_text]. rewrite Hrun. cbn [mbind exec_bind].
      cbn [forallb] in Hpl. apply andb_prop in Hpl as [_ Hpl]. cbn [length args_text String.length marks] in *.
      destruct (IH l ids os' p1 size _ suffix _ false fuel ltac:(lia) Hpl ltac:(lia) Hnum' ltac:(assumption) Hp1)
        as (p' & suffix' & Hr & Hp'); [cbn [skipped]; lia| |].
      { rewrite !str_app_length. cbn [String.length]. lia. }
      exists p', suffix'. split; [exact Hr|]. rewrite !str_app_assoc, <- app_assoc in Hp'. exact Hp'.
    + destruct (parse_tag_ok p size out suffix syms id o (args_text "\%" l ids) Hp Hid Ho ltac:(assumption)) as (p1 & Hrun & Hp1).
      { rewrite Eh. lia. }
      rewrite Eh in Hrun, Hp1. rewrite Hrun. cbn [mbind exec_bind]. rewrite str_app_nil in Hp1.
      destruct (IH l ids os' p1 size _ suffix _ false fuel ltac:(lia) Hpl ltac:(lia) Hnum' ltac:(assumption) Hp1)
        as (p' & suffix' & Hr & Hp'); [cbn [skipped]; lia|rewrite str_app_length; lia|].
      exists p', suffix'. split; [exact Hr|]. rewrite str_app_assoc, <- app_assoc in Hp'. exact Hp'.
  - cbn [args_text template marks] in *. change ("\%" +:+ args_text "\%" l ids) with (String "\" (String "%" (args_text "\%" l ids))) in *.
    rewrite skipped_stop in * by reflexivity. destruct fuel as [|fuel]; [lia|]. cbn [parse_loop].
    change (is_char "%" "\") with false. change (is_char "\" "\") with true. cbv iota. cbn [String.length] in Hfuel.
    apply (IH l ids os p size out suffix syms true fuel); try assumption; try lia.
    pose proof (skipped_length true (args_text "\%" l ids)). lia.
  - cbn [args_text template marks plain] in *. apply andb_prop in Ht as [Ht _]. apply andb_prop in Ht as [Hc1%negb_true_iff Hc2%negb_true_iff].
    destruct (skip && is_letter_code c) eqn:Esk.
    + apply andb_prop in Esk as [-> Ec]. cbn [skipped span] in Hfuel |- *. rewrite Ec in *.
      destruct (span is_letter_code (args_text "\%" l ids)) as [a b] eqn:Es. cbn [snd] in *.
      specialize (IH l ids os p size out suffix syms true fuel ltac:(lia) Hpl Hm Hnum H50 Hp).
      cbn [skipped] in IH. rewrite Es in IH. apply IH; assumption.
    + assert (Hsk : forall s, skipped skip (String c s) = String c s).
      { intros s. destruct skip; [|reflexivity]. apply (skipped_stop true). exact Esk. }
      rewrite Hsk in *. destruct fuel as [|fuel]; [lia|]. cbn [parse_loop]. rewrite Hc1, Hc2, (pd_suffix _ _ _ _ _ Hp).
      cbn [String.length] in Hfuel. destruct (is_char " " c && suffix) eqn:Eb; cbn [String.length] in Hsize.
      * destruct (emit_char_ok p size out suffix syms (ascii_of_nat 9) false Hp ltac:(lia)) as (p1 & -> & Hp1). cbn [mbind exec_bind].
        destruct (IH l ids os p1 size _ false _ false fuel ltac:(lia) Hpl Hm Hnum H50 Hp1) as (p' & suffix' & Hr & Hp');
          [cbn [skipped]; lia|rewrite str_app_length; cbn [String.length]; lia|].
        exists p', suffix'. split; [exact Hr|]. rewrite str_app_assoc in Hp'. exact Hp'.
      * destruct (emit_char_ok p size out suffix syms c suffix Hp ltac:(lia)) as (p1 & -> & Hp1). cbn [mbind exec_bind].
        destruct (IH l ids os p1 size _ suffix _ false fuel ltac:(lia) Hpl Hm Hnum H50 Hp1) as (p' & suffix' & Hr & Hp');
          [cbn [skipped]; lia|rewrite str_app_length; cbn [String.length]; lia|].
        exists p', suffix'. split; [exact Hr|]. rewrite str_app_assoc in Hp'. exact Hp'.
Qed.
End Template.

(** ** Lengths *)

Lemma pretty_go_length k : forall x s, (x < 10 ^ N.of_nat k)%N ->
  (String.length (pretty_N_go x s) <= k + String.length s)%nat.
Proof.
  induction k as [|k IH]; intros x s Hx.
  - change (10 ^ N.of_nat 0)%N with 1%N in Hx. replace x with 0%N by lia. rewrite pretty_N_go_0. lia.
  - assert (x = 0 \/ 0 < x)%N as [->|Hpos] by lia; [rewrite pretty_N_go_0; lia|].
    rewrite pretty_N_go_step by assumption.
    assert (x / 10 < 10 ^ N.of_nat k)%N as Hq.
    { apply N.div_lt_upper_bound; [lia|]. rewrite Nat2N.inj_succ, N.pow_succ_r' in Hx. assumption. }
    specialize (IH _ (String (pretty_N_char (x `mod` 10)) s) Hq). cbn [String.length] in IH. lia.
Qed.

Lemma fmt_d_length z : 0 <= z < 2 ^ 31 -> (String.length (fmt_d z) <= 10)%nat.
Proof.
  intros Hz. destruct z as [|n|n]; [cbn; lia| |lia]. pose proof (pretty_go_length 10 (Npos n) "") as H.
  cbn [String.length] in H. rewrite Nat.add_0_r in H. apply H. change (10 ^ N.of_nat 10)%N with 10000000000%N. lia.
Qed.

Lemma args_text_length l : forall ids, Forall (fun id => 0 <= id < 2 ^ 31) ids -> marks l = length ids ->
  (String.length (args_text "\\%" l ids) <= String.length (render l) + 11 * length ids)%nat.
Proof.
  induction l as [|[| |c] l IH]; intros ids Hids Hm; cbn [args_text render token_text marks] in *; [cbn; lia|..].
  - destruct ids as [|id ids]; [discriminate|]. inversion Hids; subst. cbn [length] in *.
    rewrite !str_app_length. cbn [String.length]. pose proof (fmt_d_length id ltac:(assumption)).
    specialize (IH ids ltac:(assumption) ltac:(lia)). lia.
  - rewrite !str_app_length. specialize (IH ids Hids Hm). lia.
  - rewrite !str_app_length. cbn [String.length]. specialize (IH ids Hids Hm). lia.
Qed.

Definition names_length (names : list string) : nat := foldr (fun n k => (String.length n + k)%nat) 0%nat names.

Lemma template_length l : forall names skip suffix, marks l = length names ->
  (String.length (template l names skip suffix) <= String.length (render l) + names_length names)%nat.
Proof.
  induction l as [|[| |c] l IH]; intros names skip suffix Hm; cbn [template render token_text marks] in *; [cbn; lia|..].
  - destruct names as [|name names]; [discriminate|]. cbn [length] in Hm. unfold names_length in *. cbn [foldr].
    rewrite !str_app_length. specialize (IH names false suffix ltac:(lia)). lia.
  - rewrite str_app_length. specialize (IH names true suffix Hm). lia.
  - rewrite str_app_length. cbn [String.length]. destruct (skip && is_letter_code c); [specialize (IH names true suffix Hm); lia|].
    destruct (is_char " " c && suffix); cbn [String.length].
    + specialize (IH names false false Hm). lia.
    + specialize (IH names false suffix Hm). lia.
Qed.

Notation no_nul := (all_chars (fun c => negb (is_char NUL c))).

Lemma template_no_nul l : forall names skip suffix, forallb plain l = true -> Forall (fun n => no_nul n = true) names ->
  no_nul (template l names skip suffix) = true.
Proof.
  induction l as [|[| |c] l IH]; intros names skip suffix Hp Hn; cbn [template forallb plain] in *; try (exact (eq_refl true)).
  - destruct names as [|name names]; [reflexivity|]. inversion Hn; subst. rewrite all_chars_app.
    rewrite IH by assumption. rewrite andb_true_r. assumption.
  - apply IH; assumption.
  - apply andb_prop in Hp as [Hc Hp]. apply andb_prop in Hc as [_ Hc]. destruct (skip && is_letter_code c); [apply IH; assumption|].
    destruct (is_char " " c && suffix); cbn [all_chars]; [|rewrite Hc]; rewrite IH by assumption; reflexivity.
Qed.

(** From syntax string to template: when the parser has accepted the syntax
    string of an instruction and its operands carry the numbers of operand types
    [os], the argument string is built without overflow and, compiled and parsed
    by the disassembler, gives these types in order and the template in which
    each marker of the literal became the type's name, the first blank a tab and
    escaped modifier names nothing; the sizes of the literal and of the names
    must fit the buffers of 100 characters. *)
Theorem args_template maps s str s' text ol insn os buf :
  let ids := map op_oper_id (asm_operands insn) in
  acpp_asm_parse_asm_string maps s str false = Ret (s', inr text) ->
  asm_op_literal insn = text -> length (asm_operands insn) = length (cur_operands (current_insn s')) ->
  numbered_opers ol ids os -> no_nul text = true -> Forall (fun o => no_nul (o_name o) = true) os ->
  (String.length text + 11 * length ids < ARGS_SIZE)%nat ->
  (String.length text + names_length (map o_name os) < length buf)%nat ->
  exists l args buf', text = render l /\ forallb plain l = true /\ marks l = length ids /\
    create_operand_string ol insn = Ret (args, insn) /\
    parse ol buf (c_unescape args) = Ret (buf', symbols_of ids os) /\
    cstr buf' 0 = Ret (template l (map o_name os) false true).
Proof.
  intros ids Hstr Hlit Hops Hnum Hnul Hnames Hlen Hbuf.
  destruct (parse_asm_string_formatted _ _ _ _ _ Hstr) as (_ & _ & Hf). rewrite <- Hops in Hf.
  destruct (formatted_tokens _ _ Hf Hnul) as (l & Hl & Hm & Hp). rewrite Hl in *.
  assert (Hids : Forall (fun id => 0 <= id < 2 ^ 31) ids).
  { apply Forall_forall. intros id Hid. apply list_elem_of_lookup in Hid as [k Hk].
    destruct (Forall2_lookup_l _ _ _ _ _ Hnum Hk) as (o & _ & H & _). exact H. }
  assert (Hmi : marks l = length ids) by (unfold ids; rewrite length_map; assumption).
  assert (Hmo : marks l = length (map o_name os)) by (rewrite length_map, <- (Forall2_length _ _ _ Hnum); assumption).
  pose proof (args_text_length l ids Hids Hmi) as Ha. pose proof (template_length l (map o_name os) false true Hmo) as Ht.
  exists l, (args_text "\\%" l ids). assert (Hpos : Forall (fun id => 0 <= id) ids) by (eapply Forall_impl; [exact Hids|cbn; lia]).
  destruct (parse_loop_ok ol (length l) l ids os (MkParse buf 0 true []) (length buf) "" true [] false
    (S (String.length (args_text "\%" l ids)))) as (p & suffix & Hloop & Hpd); try assumption; try lia.
  - eapply Forall_impl; [exact Hids|]. cbn. intros id Hid. pose proof (fmt_d_length id Hid). lia.
  - constructor; try reflexivity. exists buf. reflexivity.
  - cbn [skipped]. lia.
  - cbn [String.length]. lia.
  - destruct Hpd as [Hb Hs Hptr _ Hsyms]. change ("" +:+ ?t) with t in *.
    destruct (mem_set_ok (ps_buf p) (template l (map o_name os) false true) NUL Hb ltac:(lia)) as (rest & Hset & _).
    eexists. split; [reflexivity|]. split; [assumption|]. split; [assumption|]. split; [|split].
    + unfold create_operand_string. rewrite Hlit, (operand_string_ok ol l (asm_operands insn) "" Hp Hm).
      * cbn [mbind exec_bind]. destruct insn. reflexivity.
      * apply Forall_forall. intros o Ho. rewrite Forall_forall in Hpos. apply Hpos.
        apply list_elem_of_fmap. exists o. auto.
      * cbn [String.length]. fold ids. lia.
    + rewrite args_compiled by assumption. unfold parse. cbn [skipped] in Hloop. rewrite Hloop. cbn [mbind exec_bind].
      rewrite Hptr. change ("" +:+ template l (map o_name os) false true) with (template l (map o_name os) false true).
      rewrite Hset. cbn [mbind exec_bind]. rewrite Hsyms. reflexivity.
    + unfold cstr. cbn [drop]. apply cstr_whole. apply template_no_nul; [assumption|].
      apply Forall_fmap. exact Hnames.
Qed.

(** [" add %reg, \%hi(%imm)"] with two operand types. *)
Definition demo_args_opers : list oper :=
  [MkOper 0 "reg" op_userdef 0 0 false 2 0 0 0; MkOper 1 "imm" op_imm 1 0 false 4 0 0 0].
Definition demo_args_insn (text : string) : ac_asm_insn :=
  MkAsm "add" text text
    [MkOperand "reg" op_userdef (MkModifier None 0 0) [] false 0 0;
     MkOperand "imm" op_imm (MkModifier (Some "lo") 0 0) [] false 1 0] (Some 0%nat) [] [] 0.

Lemma args_template_witness : exists s' text l args buf',
  acpp_asm_parse_asm_string reg_maps zero_asm " add  %reg , \%hi %imm(lo, 4)" false = Ret (s', inr text) /\
  create_operand_string demo_args_opers (demo_args_insn text) = Ret (args, demo_args_insn text) /\
  parse demo_args_opers (repeat NUL 100) (c_unescape args) = Ret (buf', symbols_of [0; 1] demo_args_opers) /\
  cstr buf' 0 = Ret (template l ["reg"; "imm"] false true).
Proof.
  destruct (acpp_asm_parse_asm_string reg_maps zero_asm " add  %reg , \%hi %imm(lo, 4)" false)
    as [[s' [msg|text]]| |] eqn:E; [vm_compute in E; discriminate E| |vm_compute in E; discriminate E..].
  assert (Ht : text = " %,\\%hi%") by (vm_compute in E; congruence).
  destruct (args_template _ _ _ _ _ demo_args_opers (demo_args_insn text) demo_args_opers (repeat NUL 100) E eq_refl)
    as (l & args & buf' & _ & _ & _ & Ha & Hp & Hc).
  - vm_compute in E. injection E as <- <-. reflexivity.
  - unfold numbered_opers, demo_args_opers. constructor; [cbn; split; [lia|reflexivity]|]. constructor; [cbn; split; [lia|reflexivity]|]. constructor.
  - rewrite Ht. reflexivity.
  - repeat constructor.
  - rewrite Ht. cbn. unfold ARGS_SIZE. lia.
  - rewrite Ht. cbn. lia.
  - exists s', text, l, args, buf'. split; [reflexivity|]. split; [exact Ha|]. split; [exact Hp|exact Hc].
Defined.
