(* ===== verification/BinSearchOk.v ===== *)
(** * The opcode table and its readers agree

    Pseudo indices point to the members in the pseudo table; the disassembler's
    search finds the first instruction whose fields hold in the word; values are
    sign-extended; and two situations in which the disassembler goes wrong. *)
From S2P Require Import Prelude CString DecTypes AsmTypes BinUtils BinOpcodes BinOpcodesOk BinGas BinShare BinDis BinDisOk.

(** ** Rows *)

Section Rows.
Context (fs : list ac_dec_format) (instrs : list ac_dec_instr) (ol : list oper).

(** Entries of the pseudo table of one instruction. *)
Definition entries_of (a : ac_asm_insn) : list (option string) :=
  match asm_pseudolist a with [] => [] | pl => map Some pl ++ [None] end.

(** The parser counts the members of a pseudo instruction. *)
Definition counted (a : ac_asm_insn) : Prop := asm_num_pseudo a = Z.of_nat (length (asm_pseudolist a)).

(** What a row says about its instruction, [idx] entries into the pseudo table. *)
Definition row_for (idx : Z) (a : ac_asm_insn) (r : opcode_row) : Prop :=
  row_mnemonic r = asm_mnemonic a /\
  row_pseudo_idx r = (match asm_pseudolist a with [] => 0 | _ => idx end) /\
  exists i, insn_of instrs a = Ret i /\
  match i with
  | None => row_image r = 0 /\ row_dmask r = 0 /\ row_format_id r = PSEUDO_FORMAT
  | Some i => exists pfrm, find_format_named fs (i_format i) = Some pfrm /\
      insn_image pfrm i a = Ret (row_image r, row_dmask r) /\ row_format_id r = get_format_id fs (i_format i)
  end.

Lemma length_entries a : counted a ->
  Z.of_nat (length (entries_of a)) = match asm_pseudolist a with [] => 0 | _ => asm_num_pseudo a + 1 end.
Proof.
  unfold counted, entries_of. intros ->. destruct (asm_pseudolist a) as [|p pl]; [reflexivity|].
  rewrite length_app, length_map. cbn [length]. lia.
Qed.

Lemma opcode_row_ok idx a r idx' a' : opcode_row_of fs instrs ol idx a = Ret (r, idx', a') ->
  counted a -> 0 <= idx -> idx + Z.of_nat (length (entries_of a)) < 2 ^ 63 ->
  row_for idx a r /\ idx' = idx + Z.of_nat (length (entries_of a)).
Proof.
  unfold opcode_row_of. intros H Hc H0 Hb. rewrite length_entries in * by assumption. exec_inv H. destruct a0 as [args a1].
  unfold create_operand_string in E. exec_inv E. destruct a0 as [text ops]. injection E as <- <-.
  exec_inv H. rename a0 into i. exec_inv H. destruct a0 as [[fid image] dmask].
  change (insn_of instrs a = Ret i) in E. change (asm_pseudolist (set_asm_operands ops a)) with (asm_pseudolist a) in H.
  change (asm_num_pseudo (set_asm_operands ops a)) with (asm_num_pseudo a) in H.
  assert (Hrow : exists i, insn_of instrs a = Ret i /\
    match i with
    | None => image = 0 /\ dmask = 0 /\ fid = PSEUDO_FORMAT
    | Some i => exists pfrm, find_format_named fs (i_format i) = Some pfrm /\
        insn_image pfrm i a = Ret (image, dmask) /\ fid = get_format_id fs (i_format i)
    end).
  { exists i. split; [exact E|]. destruct i as [i|]; [|injection E1 as <- <- <-; auto].
    destruct (find_format_named fs (i_format i)) as [pfrm|]; [|discriminate]. exec_inv E1. destruct a0 as [im dm].
    injection E1 as <- <- <-. exists pfrm. auto. }
  unfold row_for, counted in *. destruct (asm_pseudolist a) as [|p pl].
  - injection H as <- <- <-. cbn. split; [auto|lia].
  - cbn [length] in Hc. injection H as <- <- <-. cbn [row_mnemonic row_pseudo_idx row_image row_dmask row_format_id].
    split; [auto|]. apply swrap_small; lia.
Qed.

Lemma opcode_rows_ok asml : forall idx rows asml', opcode_rows fs instrs ol idx asml = Ret (rows, asml') ->
  Forall counted asml -> 0 <= idx -> idx + Z.of_nat (length (concat (map entries_of asml))) < 2 ^ 63 ->
  length rows = length asml /\
  forall k a r, asml !! k = Some a -> rows !! k = Some r ->
    row_for (idx + Z.of_nat (length (concat (map entries_of (take k asml))))) a r.
Proof.
  induction asml as [|a asml IH]; intros idx rows asml' H Hc H0 Hb; cbn [opcode_rows] in H.
  { injection H as <- <-. split; [reflexivity|]. intros k b r Hk. discriminate. }
  exec_inv H. destruct a0 as [[r idx1] a1]. exec_inv H. destruct a0 as [rows1 l1]. injection H as <- <-.
  inversion Hc as [|? ? Ha Hcs]; subst. cbn [map concat] in Hb. rewrite length_app in Hb.
  destruct (opcode_row_ok _ _ _ _ _ E Ha H0 ltac:(lia)) as [Hr ->].
  destruct (IH _ _ _ E0 Hcs ltac:(lia) ltac:(lia)) as [Hl Hrows]. split; [cbn; lia|].
  intros [|k] b s Hk Hs; cbn [lookup list_lookup] in Hk, Hs.
  - injection Hk as <-. injection Hs as <-. cbn. rewrite Z.add_0_r. assumption.
  - cbn [take map concat]. rewrite length_app, Nat2Z.inj_add, Z.add_assoc. apply Hrows; assumption.
Qed.

(** Pseudo indices: when the opcode table is made from instructions whose
    member counts are right, the row of a pseudo instruction has the index in the
    pseudo table at which its members start, one after the other and closed by a
    NULL; rows without members have index 0, where the table holds NULL. *)
Theorem pseudo_index_points_to_members asml rows asml' k a r :
  opcode_rows fs instrs ol 1 asml = Ret (rows, asml') ->
  Forall counted asml -> Z.of_nat (length (pseudo_entries asml)) < 2 ^ 63 ->
  asml !! k = Some a -> rows !! k = Some r ->
  match asm_pseudolist a with
  | [] => row_pseudo_idx r = 0 /\ pseudo_entries asml !! 0%nat = Some None
  | pl => row_pseudo_idx r <> 0 /\
      take (S (length pl)) (drop (Z.to_nat (row_pseudo_idx r)) (pseudo_entries asml)) = map Some pl ++ [None]
  end.
Proof.
  intros H Hc Hb Hk Hr. change (pseudo_entries asml) with (None :: concat (map entries_of asml)) in *. cbn [length] in Hb.
  destruct (opcode_rows_ok _ _ _ _ H Hc ltac:(lia) ltac:(lia)) as [_ Hrows]. destruct (Hrows _ _ _ Hk Hr) as (_ & Hidx & _).
  destruct (asm_pseudolist a) as [|p pl] eqn:Ep; [split; [exact Hidx|reflexivity]|]. rewrite Hidx. split; [lia|].
  rewrite Z2Nat.inj_add, Nat2Z.id by lia. change (Z.to_nat 1 + ?n)%nat with (S n). cbn [drop].
  rewrite <- (take_drop_middle _ _ _ Hk) at 2. rewrite map_app, concat_app, drop_app_length. cbn [map concat].
  unfold entries_of at 1. rewrite Ep. rewrite take_app_length'; [reflexivity|]. rewrite length_app, length_map. cbn. lia.
Qed.
End Rows.

(** ** The search *)

Section Search.
Context (fs : list ac_dec_format) (instrs : list ac_dec_instr) (ol : list oper).

#[export] Instance holds_dec size w f : Decision (holds size w f).
Proof. unfold holds. apply _. Defined.

(** The decode and constant fields of a native instruction, and its size. *)
Definition native_fields (a : ac_asm_insn) : option (list bit_field * Z) :=
  match insn_of instrs a with
  | Ret (Some i) =>
      pfrm ← find_format_named fs (i_format i);
      dec ← mapM (dec_bits pfrm) (i_dec_list i);
      Some (dec ++ map const_bits (asm_const_fields a), u32 (fmt_size pfrm))
  | _ => None
  end.

(** The word [w] of [size] bits is this instruction. *)
Definition selected (w size : Z) (a : ac_asm_insn) : bool :=
  match native_fields a with
  | Some (fields, sz) => bool_decide (Forall (holds sz w) fields) && (size =? sz)
  | None => false
  end.

(** A native instruction has a format of the description in which its fields
    fit and can hold together; a pseudo instruction has members. *)
Definition describable (a : ac_asm_insn) : Prop :=
  counted a /\
  match insn_of instrs a with
  | Ret (Some i) => asm_pseudolist a = [] /\ exists fields sz w0, native_fields a = Some (fields, sz) /\
      0 <= sz /\ Forall (fits sz) fields /\ Forall (holds sz w0) fields
  | Ret None => asm_pseudolist a <> []
  | _ => True
  end.

Lemma format_position_first fname l : forall n pfrm, 0 <= n -> n + Z.of_nat (length l) < 2 ^ 31 ->
  find_format_named l fname = Some pfrm ->
  exists k, format_position fname n l = n + Z.of_nat k /\ l !! k = Some pfrm.
Proof.
  unfold find_format_named. induction l as [|f l IH]; intros n pfrm Hn Hl; cbn [list_first format_position]; [discriminate|].
  cbn [length] in Hl. destruct (streq fname (fmt_name f)).
  - intros [= ->]. exists 0%nat. rewrite swrap_small by lia. split; [lia|reflexivity].
  - intros Hf. rewrite uwrap_small by lia. destruct (IH (n + 1) pfrm ltac:(lia) ltac:(lia) Hf) as (k & Hk & Hlk).
    exists (S k). split; [lia|exact Hlk].
Qed.

Lemma row_matches w size idx a r : Z.of_nat (length fs) < 2 ^ 31 ->
  Forall (fun pfrm => 0 <= fmt_size pfrm < 2 ^ 32) fs ->
  row_for fs instrs idx a r -> idx <> 0 -> describable a -> matches fs w size r = selected w size a.
Proof.
  intros Hlen Hsizes (_ & Hidx & i & Hi & Hrow) Hne (_ & Hd). unfold matches, selected, native_fields in *. rewrite Hi in *.
  destruct i as [i|].
  - destruct Hd as (Hp & fields & sz & w0 & Hf & Hsz & Hfit & H0). rewrite Hp in Hidx. rewrite Hidx.
    destruct Hrow as (pfrm & Hpf & Himage & Hfid). rewrite Hpf in *. cbn [mbind option_bind] in *.
    destruct (mapM (dec_bits pfrm) (i_dec_list i)) as [dec|] eqn:Edec; [|discriminate]. cbn [mbind option_bind] in *.
    injection Hf as <- <-. destruct (image_selects pfrm i a dec w0 Edec Hfit H0) as (im & dm & Him & Hw).
    assert (im = row_image r /\ dm = row_dmask r) as [-> ->] by (rewrite Himage in Him; injection Him; auto).
    destruct (format_position_first (i_format i) fs 0 pfrm ltac:(lia) ltac:(lia) Hpf) as (k & Hk & Hlk).
    assert (Hsize : BinGas.get_insn_size fs (row_format_id r) = u32 (fmt_size pfrm)).
    { rewrite Hfid. unfold get_format_id, BinGas.get_insn_size. rewrite Hk, (proj2 (Z.ltb_ge _ 0)) by lia.
      rewrite Z.add_0_l, Nat2Z.id, Hlk. rewrite Forall_forall in Hsizes.
      pose proof (Hsizes pfrm (list_elem_of_lookup_2 _ _ _ Hlk)). rewrite !uwrap_small by lia. reflexivity. }
    rewrite Hsize. cbn [Z.eqb]. rewrite andb_true_r. f_equal. apply eq_true_iff_eq.
    rewrite Z.eqb_eq, bool_decide_eq_true. apply Hw.
  - rewrite (proj2 (Z.eqb_neq (row_pseudo_idx r) 0)); [rewrite andb_false_r; reflexivity|].
    rewrite Hidx. destruct (asm_pseudolist a); [congruence|assumption].
Qed.

(** C10. The search: over a table made from describable instructions the
    disassembler finds a row for a word exactly when the word is one of them, in
    every decode and constant field and in its size, and then it is the row of
    the first such instruction. *)
Theorem disassembler_selects asml rows asml' w size :
  opcode_rows fs instrs ol 1 asml = Ret (rows, asml') ->
  Z.of_nat (length fs) < 2 ^ 31 -> Forall (fun pfrm => 0 <= fmt_size pfrm < 2 ^ 32) fs ->
  Forall describable asml -> Z.of_nat (length (pseudo_entries asml)) < 2 ^ 63 ->
  match list_first (selected w size) asml, list_first (matches fs w size) rows with
  | Some a, Some r => row_mnemonic r = asm_mnemonic a /\ selected w size a = true
  | None, None => True
  | _, _ => False
  end.
Proof.
  intros H Hlen Hsizes Hd Hb. change (pseudo_entries asml) with (None :: concat (map entries_of asml)) in Hb. cbn [length] in Hb.
  assert (Hc : Forall counted asml) by (eapply Forall_impl; [exact Hd|]; unfold describable; tauto).
  destruct (opcode_rows_ok fs instrs ol _ _ _ _ H Hc ltac:(lia) ltac:(lia)) as [Hl Hrows].
  assert (HF : Forall2 (fun a r => row_mnemonic r = asm_mnemonic a /\ matches fs w size r = selected w size a) asml rows).
  { apply Forall2_same_length_lookup. split; [symmetry; exact Hl|]. intros k a r Ha Hr. pose proof (Hrows k a r Ha Hr) as Hrow.
    split; [apply Hrow|]. rewrite Forall_forall in Hd. eapply row_matches; [assumption|assumption|exact Hrow|lia|].
    apply Hd. eapply list_elem_of_lookup_2. exact Ha. }
  pose proof (list_first_Forall2 _ (selected w size) (matches fs w size) _ _ HF) as Hfirst.
  destruct (list_first (selected w size) asml) as [a|] eqn:Ea, (list_first (matches fs w size) rows) as [r|];
    try exact (Hfirst ltac:(intros x y [_ E]; symmetry; exact E)).
  split; [apply (Hfirst ltac:(intros x y [_ E]; symmetry; exact E))|]. apply list_first_Some in Ea. tauto.
Qed.
End Search.

(** A table with a pseudo instruction between two native ones. *)
Definition demo_ori : ac_dec_instr := MkInstr "ori" 4 None None "Type_I" 2 1 1 1 [MkDec "op" 1 13] None.
Definition demo_table : list ac_asm_insn :=
  [MkAsm "addi" " %" " %" [MkOperand "imm" op_imm (MkModifier None (-1) 0) [MkAField (Some "imm") 21 31 2] false 0 0]
     (Some 0%nat) [MkConst 7 (MkAField (Some "rs") 5 10 0)] [] 0;
   MkAsm "nop" "" "" [] None [] ["addi 0"; "ori 0"] 2;
   MkAsm "ori" " %" " %" [MkOperand "imm" op_imm (MkModifier None (-1) 0) [MkAField (Some "imm") 21 31 2] false 0 0]
     (Some 1%nat) [] [] 0].
Definition demo_instrs : list ac_dec_instr := [demo_bin_instr; demo_ori].

(** Checks that given fields fit and hold in a given word. *)
Ltac check_fields :=
  repeat (apply Forall_cons_2; [first [vm_compute; reflexivity | vm_compute; repeat split; congruence]|]);
  apply Forall_nil_2.

Lemma demo_describable : Forall (describable [demo_bin_format] demo_instrs) demo_table.
Proof.
  apply Forall_cons_2; [|apply Forall_cons_2; [|apply Forall_cons_2; [|apply Forall_nil_2]]].
  - split; [reflexivity|]. split; [reflexivity|]. exists [(35, 5, 6); (7, 10, 5)], 32, 0x8CE00000.
    split; [vm_compute; reflexivity|]. split; [lia|]. split; check_fields.
  - split; [reflexivity|]. cbn. discriminate.
  - split; [reflexivity|]. split; [reflexivity|]. exists [(13, 5, 6)], 32, 0x34000000.
    split; [vm_compute; reflexivity|]. split; [lia|]. split; check_fields.
Qed.

Lemma disassembler_selects_witness : exists rows asml',
  opcode_rows [demo_bin_format] demo_instrs [] 1 demo_table = Ret (rows, asml') /\
  match list_first (selected [demo_bin_format] demo_instrs 0x34ABCDEF 32) demo_table,
        list_first (matches [demo_bin_format] 0x34ABCDEF 32) rows with
  | Some a, Some r => row_mnemonic r = asm_mnemonic a /\ asm_mnemonic a = "ori"
  | _, _ => False
  end.
Proof.
  destruct (opcode_rows [demo_bin_format] demo_instrs [] 1 demo_table) as [[rows asml']| |] eqn:E;
    [|vm_compute in E; discriminate E..].
  exists rows, asml'. split; [reflexivity|].
  pose proof (disassembler_selects [demo_bin_format] demo_instrs [] demo_table rows asml' 0x34ABCDEF 32 E) as H.
  assert (Hs : list_first (selected [demo_bin_format] demo_instrs 0x34ABCDEF 32) demo_table = demo_table !! 2%nat)
    by (vm_compute; reflexivity).
  rewrite Hs in *. cbn [demo_table lookup list_lookup] in *. cbn [asm_mnemonic] in *.
  destruct (list_first (matches [demo_bin_format] 0x34ABCDEF 32) rows) as [r|].
  - split; [|reflexivity]. apply H; [reflexivity|repeat constructor; cbn; lia|exact demo_describable|reflexivity].
  - apply H; [reflexivity|repeat constructor; cbn; lia|exact demo_describable|reflexivity].
Defined.

Lemma pseudo_index_points_to_members_witness : exists rows asml' r,
  opcode_rows [demo_bin_format] demo_instrs [] 1 demo_table = Ret (rows, asml') /\ rows !! 1%nat = Some r /\
  row_pseudo_idx r = 1 /\ take 3 (drop 1 (pseudo_entries demo_table)) = [Some "addi 0"; Some "ori 0"; None].
Proof.
  destruct (opcode_rows [demo_bin_format] demo_instrs [] 1 demo_table) as [[rows asml']| |] eqn:E;
    [|vm_compute in E; discriminate E..].
  destruct (rows !! 1%nat) as [r|] eqn:Er; [|vm_compute in E; injection E as <- <-; discriminate Er].
  exists rows, asml', r. split; [reflexivity|]. split; [exact Er|].
  assert (Hidx : row_pseudo_idx r = 1) by (vm_compute in E; injection E as <- <-; injection Er as <-; reflexivity).
  split; [exact Hidx|].
  destruct (pseudo_index_points_to_members [demo_bin_format] demo_instrs [] demo_table rows asml' 1
    (MkAsm "nop" "" "" [] None [] ["addi 0"; "ori 0"] 2) r E) as [_ H].
  - repeat constructor.
  - reflexivity.
  - reflexivity.
  - exact Er.
  - rewrite Hidx in H. exact H.
Defined.

(** ** Signed values *)

Lemma lxor_flip m r n : 0 <= n -> m = 2 ^ n -> 0 <= r < m -> Z.lxor r m = r + m.
Proof.
  intros Hn -> Hr. rewrite Z.add_nocarry_lxor; [reflexivity|]. apply Z.bits_inj'. intros i Hi.
  rewrite Z.land_spec, Z.bits_0, Z.pow2_bits_eqb by lia. destruct (Z.eqb_spec n i) as [->|]; [|apply andb_false_r].
  rewrite (testbit_high i r) by lia. reflexivity.
Qed.

(** The printed immediate is the two's-complement value of the low bits. *)
Theorem sign_extend_spec v bit_size : 1 <= bit_size < 64 -> sign_extend_to_long v bit_size = Ret (swrap bit_size v).
Proof.
  intros Hb. unfold sign_extend_to_long. rewrite (proj2 (Z.leb_le _ _)), (proj2 (Z.ltb_lt _ _)) by lia. cbn [andb]. f_equal.
  assert (Hp : 2 ^ bit_size = 2 * 2 ^ (bit_size - 1)) by (rewrite <- Z.pow_succ_r by lia; f_equal; lia).
  assert (Hm : 0 < 2 ^ (bit_size - 1) <= 2 ^ 62) by (split; [apply Z.pow_pos_nonneg; lia|apply Z.pow_le_mono_r; lia]).
  rewrite (swrap_small 64 (2 ^ (bit_size - 1))) by lia. change (2 ^ bit_size - 1) with (Z.pred (2 ^ bit_size)). rewrite <- Z.ones_equiv, Z.land_ones by lia.
  unfold swrap at 2. rewrite <- (Zplus_mod_idemp_l v). pose proof (Z.mod_pos_bound v (2 ^ bit_size) ltac:(lia)) as Hv.
  set (r := v mod 2 ^ bit_size) in *. set (m := 2 ^ (bit_size - 1)) in *.
  destruct (Z.ltb_spec r m).
  - rewrite (lxor_flip m r (bit_size - 1)) by (reflexivity || lia). rewrite swrap_small by lia.
    rewrite Z.mod_small by lia. lia.
  - assert (Hx : Z.lxor r m = r - m).
    { replace r with (r - m + m) at 1 by lia. rewrite <- (lxor_flip m (r - m) (bit_size - 1)) by (reflexivity || lia).
      rewrite Z.lxor_assoc, Z.lxor_nilpotent, Z.lxor_0_r. reflexivity. }
    rewrite Hx, swrap_small by lia. replace (r + m) with (r - m + 1 * 2 ^ bit_size) by lia.
    rewrite Z.mod_add, Z.mod_small by lia. lia.
Qed.

(** ** Operands in a single bit *)

(** An operand in one field of one bit sets a single position bit, so that the
    search for the field's end runs out of the word. *)
Theorem one_bit_operand_crashes c insn_size o insn :
  af_size c = 1 -> 0 <= insn_size - af_first_bit c - 1 < 32 ->
  encode_fields [c] = Ret (o_fields o) -> encode_fields_positions [c] insn_size = Ret (o_fields_positions o) ->
  get_value_from_fields o insn = Crash.
Proof.
  intros Hs Hr Hf Hp. cbn [encode_fields encode_fields_from encode_fields_positions encode_positions_from] in *.
  unfold encode_fields, encode_fields_positions in *. cbn [encode_fields_from encode_positions_from] in *.
  rewrite Hs in Hp. rewrite (uwrap_small 32 (insn_size - af_first_bit c - 1)) in Hp by lia.
  rewrite Z.add_simpl_r, uwrap_small, shl32_ok in Hp by lia. cbn [mbind exec_bind] in Hp.
  rewrite Z.lor_0_l, Z.lor_diag, Z.shiftl_1_l in Hp. injection Hp as Hp.
  assert (Hpow : 2 ^ (insn_size - af_first_bit c - 1) < 2 ^ 32) by (apply Z.pow_lt_mono_r; lia).
  rewrite uwrap_small in Hp by (pose proof (Z.pow_pos_nonneg 2 (insn_size - af_first_bit c - 1)); lia).
  exec_inv Hf. injection Hf as Hf. unfold shl32 in E.
  destruct ((0 <=? af_id c) && (af_id c <? 32)) eqn:Eid; [|discriminate]. apply andb_prop in Eid as [I1%Z.leb_le I2%Z.ltb_lt].
  injection E as <-. rewrite Z.lor_0_l, Z.shiftl_1_l in Hf.
  assert (Hpow2 : 2 ^ af_id c < 2 ^ 32) by (apply Z.pow_lt_mono_r; lia).
  rewrite uwrap_small in Hf by (pose proof (Z.pow_pos_nonneg 2 (af_id c)); lia).
  assert (Hone : forall n, 0 <= n < 32 -> bits_of (2 ^ n) = [n]).
  { intros n Hn. apply bits_of_unique; [repeat constructor|]. intros x. rewrite list_elem_of_singleton, Z.pow2_bits_eqb by lia.
    rewrite Z.eqb_eq. split; [intros ->; split; [lia|reflexivity]|intros [_ E]; congruence]. }
  unfold get_value_from_fields. rewrite get_num_fields_bits, <- Hf, Hone, <- Hp by lia. cbn [length value_from].
  change (Z.to_nat (Z.of_nat 1)) with 1%nat. cbn [value_from].
  change (0 * 2) with (Z.of_nat 0). change (Z.of_nat 0 + 1) with (Z.of_nat 1).
  rewrite !get_bit_pos_bits, Hone by lia. reflexivity.
Qed.

Lemma one_bit_operand_crashes_witness :
  get_value_from_fields (MkOper 0 "flag" op_imm 0 0 false 4 0 0 (2 ^ 20)) 0xFFFFFFFF = Crash.
Proof. apply (one_bit_operand_crashes (MkAField (Some "s") 1 11 2) 32); [reflexivity|cbn; lia|reflexivity|reflexivity]. Defined.
