(* ===== verification/BinMain.v ===== *)
(** * The driver of the binary-utilities generator ([archc/src/acbinutils/main.c])

    After the two descriptions have been parsed, [main] collects operands and
    relocations and writes one file after the other; the first file that cannot
    be opened ends the run with a message and status 1, the files before it stay.
    The command line is left out. *)
From S2P Require Import Prelude CString DecTypes AsmTypes AsmInsn BinUtils BinOpcodes BinGas BinBfd.

(** What the parser leaves behind. *)
Record model := MkModel {
  md_formats : list ac_dec_format;
  md_instrs : list ac_dec_instr;
  md_asm : list ac_asm_insn;
  md_symbols : list ac_asm_symbol;
  md_comments : comment_state;
  md_wordsize : Z;
  md_endian : Z;
  md_arch_name : string
}.

Definition file : Type := string * string.

Definition GEN_DIR : string := "acbingenbuilddir/".

Definition m4_define (name value : string) : string :=
  "m4_define(`" +:+ name +:+ "', `" +:+ value +:+ "')m4_dnl" +:+ nl.
Definition m4_include (name file : string) : string := m4_define name ("m4_include(" +:+ file +:+ ")").

Definition Createm4File (opens : string -> bool) (m : model) : exec (option file) :=
  let name := GEN_DIR +:+ "defines.m4" in
  with_file opens name (
    variable ← get_variable_format_size (md_formats m);
    Ret ("m4_changecom()m4_dnl" +:+ nl
    +:+ m4_define "___arch_name___" (md_arch_name m)
    +:+ m4_define "___word_size___" (fmt_d (s32 (get_arch_size (md_wordsize m))))
    +:+ m4_define "___max_format_size___" (fmt_d (s32 (get_max_format_size (md_formats m))))
    +:+ m4_define "___variable_format_size___" (fmt_d variable)
    +:+ m4_define "___comment_chars___" (ac_asm_get_comment_chars (md_comments m))
    +:+ m4_define "___line_comment_chars___" (ac_asm_get_line_comment_chars (md_comments m))
    +:+ m4_define "___endian_str___" (if md_endian m =? 0 then "LITTLE" else "BIG")
    +:+ m4_define "___endian_val___" (if md_endian m =? 0 then "0" else "1")
    +:+ m4_define "___max_fields___" (fmt_d (get_max_number_fields (md_formats m)))
    +:+ m4_include "___opcode_table___" "opcode.table"
    +:+ m4_include "___symbol_table___" "symbol.table"
    +:+ m4_include "___pseudo_table___" "pseudo.table"
    +:+ m4_include "___operand_table___" "operand.table"
    +:+ m4_include "___reloc_ids___" "reloc.ids"
    +:+ m4_include "___reloc_howto___" "reloc.howto"
    +:+ m4_include "___reloc_map___" "reloc.map"
    +:+ m4_include "___fieldvalue_function___" "fieldvalue.fn"
    +:+ m4_include "___encoding_function___" "encoding.fn"
    +:+ m4_include "___fieldsize_function___" "fieldsize.fn"
    +:+ m4_include "___insnsize_function___" "insnsize.fn"
    +:+ m4_include "___modifier_enum___" "modifier.enum"
    +:+ m4_include "___modifier_prototypes___" "modifier.prot"
    +:+ m4_include "___modenc_pointers___" "modenc.ptr"
    +:+ m4_include "___moddec_pointers___" "moddec.ptr"
    +:+ m4_include "___modifiers___" "modifiers"
    +:+ m4_include "___dynamic_header___" "dynamic_info.ac"
    +:+ m4_include "___dynamic_body___" "dynamic_patch.ac"
    +:+ m4_include "___format_structures___" "format.struct"
    +:+ m4_include "___defines_gdb___" "defines_gdb")).

(** The files written and, when the run stopped, the message. *)
Definition outcome : Type := list file * option string.

(** The [if (!Create...)] statements, each with its message. *)
Fixpoint run_steps (steps : list (string * exec (option file))) (written : list file) : exec outcome :=
  match steps with
  | [] => Ret (written, None)
  | (what, create) :: steps =>
      r ← create;
      match r with
      | None => Ret (written, Some ("Error creating " +:+ what +:+ "." +:+ nl))
      | Some f => run_steps steps (written ++ [f])
      end
  end.

Definition table_steps (opens : string -> bool) (m : model) (ml : list mod_entry) (rl : list ac_relocation_type)
    (ol : list oper) (asml : list ac_asm_insn) : list (string * exec (option file)) :=
  let f name := GEN_DIR +:+ name in
  let fs := md_formats m in
  [("opcode table", '(r, _) ← CreateOpcodeTable fs (md_instrs m) opens (f "opcode.table") ol asml; Ret r);
   ("symbol table", CreateAsmSymbolTable opens (f "symbol.table") (md_symbols m));
   ("pseudo table", CreatePseudoOpsTable opens (f "pseudo.table") asml);
   ("operand table", CreateOperandTable opens (f "operand.table") ol);
   ("relocation IDs", CreateRelocIds (md_arch_name m) opens (f "reloc.ids") rl);
   ("relocation HOWTO structure", CreateRelocHowto (md_arch_name m) opens (f "reloc.howto") rl);
   ("relocation map", CreateRelocMap (md_arch_name m) opens (f "reloc.map") rl);
   ("field value function", CreateGetFieldValueFunc opens (f "fieldvalue.fn") fs);
   ("encoding function", CreateEncodingFunc opens (f "encoding.fn") fs);
   ("field size function", CreateGetFieldSizeFunc opens (f "fieldsize.fn") fs);
   ("insn size function", CreateGetInsnSizeFunc opens (f "insnsize.fn") fs);
   ("modifier enumeration", CreateModifierEnum opens (f "modifier.enum") ml);
   ("modifier prototypes declaration", CreateModifierProt opens (f "modifier.prot") ml);
   ("modifier pointers", CreateModifierPtr opens (f "modenc.ptr") 0 ml);
   ("decode modifier pointers", CreateModifierPtr opens (f "moddec.ptr") 1 ml);
   ("field definitions", CreateFormatStruct opens (f "format.struct") fs)].

(** The generation part of [main]. *)
Definition generate (opens : string -> bool) (m : model) : exec outcome :=
  r ← Createm4File opens m;
  match r with
  | None => Ret ([], Some ("Error creating m4 file." +:+ nl))
  | Some f =>
      '(ml, ol, asml) ← create_operand_list (md_formats m) (md_instrs m) [] (md_asm m);
      '((rl, ol), asml) ← create_relocation_list (md_instrs m) (md_arch_name m) ([], ol) asml;
      run_steps (table_steps opens m ml rl ol asml) [f]
  end.

(** ** The files *)

Definition file_names : list string := map (fun n => GEN_DIR +:+ n)
  ["defines.m4"; "opcode.table"; "symbol.table"; "pseudo.table"; "operand.table"; "reloc.ids"; "reloc.howto"; "reloc.map";
   "fieldvalue.fn"; "encoding.fn"; "fieldsize.fn"; "insnsize.fn"; "modifier.enum"; "modifier.prot"; "modenc.ptr";
   "moddec.ptr"; "format.struct"].

Lemma with_file_name opens name text r : with_file opens name text = Ret r ->
  match r with Some f => opens name = true /\ f.1 = name | None => opens name = false end.
Proof.
  unfold with_file. destruct (opens name); [|intros [= <-]; reflexivity]. intros H. exec_inv H. injection H as <-. auto.
Qed.

(** A step for the file [name]. *)
Definition step_for (opens : string -> bool) (name : string) (create : exec (option file)) : Prop :=
  forall r, create = Ret r -> match r with Some f => opens name = true /\ f.1 = name | None => opens name = false end.

Lemma run_steps_names opens steps names : Forall2 (fun s n => step_for opens n s.2) steps names ->
  forall written out, run_steps steps written = Ret out ->
  exists k, map fst out.1 = map fst written ++ take k names /\
    (forall n, n ∈ take k names -> opens n = true) /\
    match out.2 with
    | None => k = length names
    | Some _ => exists n, names !! k = Some n /\ opens n = false
    end.
Proof.
  induction 1 as [|[what create] n steps names Hs Hss IH]; intros written out H; cbn [run_steps] in H.
  { injection H as <-. exists 0%nat. cbn. rewrite app_nil_r. split; [reflexivity|]. split; [|reflexivity]. intros x Hx. inversion Hx. }
  exec_inv H. apply Hs in E. destruct a as [f|].
  - destruct E as [Eo Ef]. destruct (IH _ _ H) as (k & Hk & Hop & Hout). exists (S k). split; [|split].
    + rewrite Hk, map_app. cbn. rewrite Ef, <- app_assoc. reflexivity.
    + cbn [take]. intros x [->|Hx]%elem_of_cons; [assumption|]. apply Hop, Hx.
    + destruct (out.2); [exact Hout|cbn; congruence].
  - injection H as <-. exists 0%nat. cbn. rewrite app_nil_r. split; [reflexivity|]. split; [intros x Hx; inversion Hx|].
    exists n. auto.
Qed.

(** The files of a run: a run that ends writes the first files of the fixed
    list of seventeen, in order, each of which could be opened; it ends without a
    message exactly when it wrote all, and with one when the next file cannot be
    opened. *)
Theorem generate_files opens m out : generate opens m = Ret out ->
  exists k, map fst out.1 = take k file_names /\ (forall n, n ∈ take k file_names -> opens n = true) /\
    match out.2 with
    | None => k = length file_names
    | Some _ => exists n, file_names !! k = Some n /\ opens n = false
    end.
Proof.
  unfold generate. intros H. exec_inv H. apply with_file_name in E. destruct a as [f|].
  - destruct E as [Eo Ef]. exec_inv H. destruct a as [[ml ol] asml]. exec_inv H. destruct a as [[rl ol2] asml2].
    apply (run_steps_names opens _ (tail file_names)) in H.
    + destruct H as (k & Hk & Hop & Hout). exists (S k). cbn [map app] in Hk. split; [rewrite Hk, Ef; reflexivity|]. split.
      * intros n [->|Hn]%elem_of_cons; [exact Eo|]. apply Hop, Hn.
      * destruct (out.2); [exact Hout|]. rewrite Hout. reflexivity.
    + unfold table_steps, file_names. cbn [tail map].
      repeat (constructor; [cbn [snd]; intros r Hr; try (apply with_file_name in Hr; exact Hr)|]); [|constructor].
      clear H E E0. exec_inv Hr. destruct a as [r' l]. cbn in Hr. injection Hr as <-. unfold CreateOpcodeTable in E.
      destruct (opens (GEN_DIR +:+ "opcode.table")) eqn:Eop; [|injection E as <- _; reflexivity]. exec_inv E. destruct a as [rows l'].
      cbn in E. injection E as <- _. auto.
  - injection H as <-. exists 0%nat. split; [reflexivity|]. split; [intros n Hn; inversion Hn|]. eexists. split; [reflexivity|exact E].
Qed.

(** A model with one instruction; the sixth file cannot be opened. *)
Definition demo_model : model :=
  MkModel [MkFormat 0 "F" 8 [MkField "op" 8 7 1 0 0]] [MkInstr "nop" 1 None None "F" 1 1 1 1 [MkDec "op" 1 3] None]
    [MkAsm "nop" "" "" [] (Some 0%nat) [] [] 0] [] (MkComments None None) 32 1 "demo".

Lemma generate_files_witness : exists out,
  generate (fun n => negb (streq n (GEN_DIR +:+ "reloc.ids"))) demo_model = Ret out /\
  map fst out.1 = take 5 file_names /\ out.2 = Some ("Error creating relocation IDs." +:+ nl).
Proof.
  destruct (generate (fun n => negb (streq n (GEN_DIR +:+ "reloc.ids"))) demo_model) as [out| |] eqn:E;
    [|vm_compute in E; discriminate E..].
  exists out. split; [reflexivity|].
  assert (Hm : out.2 = Some ("Error creating relocation IDs." +:+ nl)) by (vm_compute in E; injection E as <-; reflexivity).
  split; [|exact Hm]. destruct (generate_files _ _ _ E) as (k & Hk & Hop & Hout). rewrite Hm in Hout.
  destruct Hout as (n & Hn & Hno). rewrite Hk. f_equal. clear Hk E Hm.
  do 17 (destruct k as [|k]; [injection Hn as <-; first [reflexivity|vm_compute in Hno; discriminate Hno]|]). discriminate Hn.
Defined.
