(* ===== verification/ArmCore.v ===== *)
(** * The state of the ARM core

    The part of [src/armv7/src/arm_isa.cpp] the instructions share: word
    operations, the processor state with its banked registers, the program
    status registers, and [service_interrupt] of [arm_interrupts.cpp].  A word
    is a [Z] in [0, 2^32); the two's-complement view of a [reg_t] is [s32].
    Signed overflow wraps and the count of a shift is taken modulo the width of
    the shifted type, as on the x86 hosts of the simulator.  The flow trace and
    the messages of the model are left out. *)
From S2P Require Import Prelude.

(** ** Words *)

Definition getBit (v p : Z) : bool := Z.testbit v p.
Definition setBit (v p : Z) : Z := Z.lor v (Z.shiftl 1 p).
Definition not32 (v : Z) : Z := u32 (Z.lnot v).
Definition clearBit (v p : Z) : Z := Z.land v (not32 (Z.shiftl 1 p)).
Definition add_w (a b : Z) : Z := u32 (a + b).
Definition sub_w (a b : Z) : Z := u32 (a - b).
Definition neg_w (a : Z) : Z := u32 (- a).
Definition lsl_w (v n : Z) : Z := u32 (Z.shiftl v (n mod 32)).
Definition lsr_w (v n : Z) : Z := Z.shiftr v (n mod 32).
Definition ArithmeticShiftRight (shiftamount reg : Z) : Z := u32 (Z.shiftr (s32 reg) (shiftamount mod 32)).
Definition RotateRight (shiftamount reg : Z) : Z := Z.lor (lsr_w reg shiftamount) (lsl_w reg (32 - shiftamount)).

Definition SignExtend (word word_length : Z) : Z :=
  let m := u32 (Z.shiftl 1 ((word_length - 1) mod 32)) in
  let x := u32 (Z.land word (Z.shiftl 1 (word_length mod 64) - 1)) in
  sub_w (Z.lxor x m) m.

Definition LSM_CountSetBits (registerList : Z) : Z :=
  fold_left (fun count i => if getBit registerList (Z.of_nat i) then count + 1 else count) (seq 0 16) 0.

(** ** Processor modes *)

Definition USER_MODE : Z := 0x10.
Definition FIQ_MODE : Z := 0x11.
Definition IRQ_MODE : Z := 0x12.
Definition SUPERVISOR_MODE : Z := 0x13.
Definition ABORT_MODE : Z := 0x17.
Definition UNDEFINED_MODE : Z := 0x1B.
Definition SYSTEM_MODE : Z := 0x1F.
Definition MODE_MASK : Z := 0x1F.

Record processor_mode := MkMode { pm_fiq : bool; pm_irq : bool; pm_thumb : bool; pm_mode : Z }.

Inductive PrivilegeLevel := PL0 | PL1.
Definition getPrivilegeLevel (pm : processor_mode) : PrivilegeLevel :=
  let m := pm_mode pm in
  if (m =? SYSTEM_MODE) || (m =? FIQ_MODE) || (m =? IRQ_MODE) || (m =? SUPERVISOR_MODE)
     || (m =? ABORT_MODE) || (m =? UNDEFINED_MODE) then PL1 else PL0.

(** The registers of [arm_arch.H] outside the register bank. *)
Inductive banked_reg :=
  | R14_irq | R14_fiq | R14_svc | R14_abt | R14_und
  | R13_irq | R13_svc | R13_abt | R13_und | R13_fiq
  | SPSR_irq | SPSR_fiq | SPSR_svc | SPSR_abt | SPSR_und
  | R12_fiq | R11_fiq | R10_fiq | R9_fiq | R8_fiq.
#[export] Instance banked_reg_eq : EqDecision banked_reg.
Proof. solve_decision. Defined.

Record flag_t := MkFlags {
  flag_N : bool; flag_Z : bool; flag_C : bool; flag_V : bool; flag_Q : bool; flag_T : bool
}.

(** The architectural state and the static variables of the model.
    [undefined]: the value of an expression C++ leaves undefined; nothing is
    assumed about it. *)
Record core := MkCore {
  RB : list Z;
  banked : banked_reg -> Z;
  ac_pc : Z;
  arm_proc_mode : processor_mode;
  flags : flag_t;
  execute : bool;
  dpi_shiftop : Z;
  dpi_shiftopcarry : bool;
  ls_address : Z;
  lsm_startaddress : Z;
  lsm_endaddress : Z;
  OP1 : Z;
  OP2 : Z;
  undefined : Z
}.

Definition set_RB x c := MkCore x (banked c) (ac_pc c) (arm_proc_mode c) (flags c) (execute c) (dpi_shiftop c)
  (dpi_shiftopcarry c) (ls_address c) (lsm_startaddress c) (lsm_endaddress c) (OP1 c) (OP2 c) (undefined c).
Definition set_banked (r : banked_reg) (v : Z) c := MkCore (RB c) (fun q => if decide (q = r) then v else banked c q)
  (ac_pc c) (arm_proc_mode c) (flags c) (execute c) (dpi_shiftop c)
  (dpi_shiftopcarry c) (ls_address c) (lsm_startaddress c) (lsm_endaddress c) (OP1 c) (OP2 c) (undefined c).
Definition set_pc x c := MkCore (RB c) (banked c) x (arm_proc_mode c) (flags c) (execute c) (dpi_shiftop c)
  (dpi_shiftopcarry c) (ls_address c) (lsm_startaddress c) (lsm_endaddress c) (OP1 c) (OP2 c) (undefined c).
Definition set_mode x c := MkCore (RB c) (banked c) (ac_pc c) x (flags c) (execute c) (dpi_shiftop c)
  (dpi_shiftopcarry c) (ls_address c) (lsm_startaddress c) (lsm_endaddress c) (OP1 c) (OP2 c) (undefined c).
Definition set_flags x c := MkCore (RB c) (banked c) (ac_pc c) (arm_proc_mode c) x (execute c) (dpi_shiftop c)
  (dpi_shiftopcarry c) (ls_address c) (lsm_startaddress c) (lsm_endaddress c) (OP1 c) (OP2 c) (undefined c).
Definition set_execute x c := MkCore (RB c) (banked c) (ac_pc c) (arm_proc_mode c) (flags c) x (dpi_shiftop c)
  (dpi_shiftopcarry c) (ls_address c) (lsm_startaddress c) (lsm_endaddress c) (OP1 c) (OP2 c) (undefined c).
Definition set_shiftop x c := MkCore (RB c) (banked c) (ac_pc c) (arm_proc_mode c) (flags c) (execute c) x
  (dpi_shiftopcarry c) (ls_address c) (lsm_startaddress c) (lsm_endaddress c) (OP1 c) (OP2 c) (undefined c).
Definition set_shiftopcarry x c := MkCore (RB c) (banked c) (ac_pc c) (arm_proc_mode c) (flags c) (execute c) (dpi_shiftop c)
  x (ls_address c) (lsm_startaddress c) (lsm_endaddress c) (OP1 c) (OP2 c) (undefined c).
Definition set_ls_address x c := MkCore (RB c) (banked c) (ac_pc c) (arm_proc_mode c) (flags c) (execute c) (dpi_shiftop c)
  (dpi_shiftopcarry c) x (lsm_startaddress c) (lsm_endaddress c) (OP1 c) (OP2 c) (undefined c).
Definition set_lsm x y c := MkCore (RB c) (banked c) (ac_pc c) (arm_proc_mode c) (flags c) (execute c) (dpi_shiftop c)
  (dpi_shiftopcarry c) (ls_address c) x y (OP1 c) (OP2 c) (undefined c).
Definition set_OP x y c := MkCore (RB c) (banked c) (ac_pc c) (arm_proc_mode c) (flags c) (execute c) (dpi_shiftop c)
  (dpi_shiftopcarry c) (ls_address c) (lsm_startaddress c) (lsm_endaddress c) x y (undefined c).

Definition mode_of (c : core) : Z := pm_mode (arm_proc_mode c).

Definition set_NZ (n z : bool) (c : core) : core :=
  set_flags (MkFlags n z (flag_C (flags c)) (flag_V (flags c)) (flag_Q (flags c)) (flag_T (flags c))) c.
Definition set_NZC (n z cy : bool) (c : core) : core :=
  set_flags (MkFlags n z cy (flag_V (flags c)) (flag_Q (flags c)) (flag_T (flags c))) c.
Definition set_NZCV (n z cy v : bool) (c : core) : core :=
  set_flags (MkFlags n z cy v (flag_Q (flags c)) (flag_T (flags c))) c.
Definition set_T (t : bool) (c : core) : core :=
  set_flags (MkFlags (flag_N (flags c)) (flag_Z (flags c)) (flag_C (flags c)) (flag_V (flags c)) (flag_Q (flags c)) t) c.

(** ** The register bank *)

(** [RB.write] and [RB.read]; register numbers are fields of four bits. *)
Definition bank_write (c : core) (address datum : Z) : core := set_RB (<[Z.to_nat address := datum]> (RB c)) c.
Definition bank_read (c : core) (address : Z) : Z := nth (Z.to_nat address) (RB c) (undefined c).

(** The register of the current mode that stands for a register number; [inl]
    is the bank itself.  [None]: not a mode, no case of the switch. *)
Definition bypass_reg (m address : Z) : option (unit + banked_reg) :=
  if (m =? USER_MODE) || (m =? SYSTEM_MODE) then Some (inl tt)
  else if m =? FIQ_MODE then
    Some (match address with
          | 14 => inr R14_fiq | 13 => inr R13_fiq | 12 => inr R12_fiq | 11 => inr R11_fiq
          | 10 => inr R10_fiq | 9 => inr R9_fiq | 8 => inr R8_fiq | _ => inl tt
          end)
  else if m =? IRQ_MODE then Some (match address with 14 => inr R14_irq | 13 => inr R13_irq | _ => inl tt end)
  else if m =? SUPERVISOR_MODE then Some (match address with 14 => inr R14_svc | 13 => inr R13_svc | _ => inl tt end)
  else if m =? ABORT_MODE then Some (match address with 14 => inr R14_abt | 13 => inr R13_abt | _ => inl tt end)
  else if m =? UNDEFINED_MODE then Some (match address with 14 => inr R14_und | 13 => inr R13_und | _ => inl tt end)
  else None.

Definition bypass_write (address datum : Z) (c : core) : core :=
  match bypass_reg (mode_of c) address with
  | Some (inl _) => bank_write c address datum
  | Some (inr r) => set_banked r datum c
  | None => c
  end.

Definition bypass_read (c : core) (address : Z) : Z :=
  match bypass_reg (mode_of c) address with
  | Some (inl _) => bank_read c address
  | Some (inr r) => banked c r
  | None => undefined c
  end.

Notation RB_write := bypass_write.
Notation RB_read := bypass_read.
Notation PC := 15.
Notation LR := 14.

(** ** Program status registers *)

Definition put_bit (v p : Z) (b : bool) : Z := if b then setBit v p else clearBit v p.
Definition or_bit (v p : Z) (b : bool) : Z := if b then setBit v p else v.

Definition CPSRBuild (c : core) : Z :=
  let pm := arm_proc_mode c in
  let f := flags c in
  let v := pm_mode pm in
  let v := or_bit v 6 (pm_fiq pm) in
  let v := or_bit v 7 (pm_irq pm) in
  let v := or_bit v 5 (pm_thumb pm) in
  let v := put_bit v 31 (flag_N f) in
  let v := put_bit v 30 (flag_Z f) in
  let v := put_bit v 29 (flag_C f) in
  let v := put_bit v 28 (flag_V f) in
  let v := put_bit v 27 (flag_Q f) in
  or_bit v 5 (flag_T f).

Definition readCPSR (c : core) : Z := CPSRBuild c.

Definition writeCPSR (value : Z) (c : core) : core :=
  set_mode (MkMode (getBit value 6) (getBit value 7) (pm_thumb (arm_proc_mode c)) (Z.land value MODE_MASK))
    (set_flags (MkFlags (getBit value 31) (getBit value 30) (getBit value 29) (getBit value 28)
                  (getBit value 27) (getBit value 5)) c).

(** The saved status register of a mode. *)
Definition spsr_reg (m : Z) : option banked_reg :=
  if m =? FIQ_MODE then Some SPSR_fiq
  else if m =? IRQ_MODE then Some SPSR_irq
  else if m =? SUPERVISOR_MODE then Some SPSR_svc
  else if m =? ABORT_MODE then Some SPSR_abt
  else if m =? UNDEFINED_MODE then Some SPSR_und
  else None.

Definition SPSRtoCPSR (c : core) : core :=
  match spsr_reg (mode_of c) with Some r => writeCPSR (banked c r) c | None => c end.

Definition writeSPSR (value : Z) (c : core) : core :=
  match spsr_reg (mode_of c) with Some r => set_banked r value c | None => c end.

Definition readSPSR (c : core) : Z :=
  match spsr_reg (mode_of c) with Some r => banked c r | None => 0 end.

(** [begin], as a [SYSTEM_MODEL]. *)
Definition behavior_begin (c : core) : core :=
  set_pc 0 (set_mode (MkMode true true false SUPERVISOR_MODE) c).

(** ** Exceptions *)

Inductive exception_type :=
  | EXCEPTION_RESET | EXCEPTION_UNDEFINED_INSTR | EXCEPTION_SWI | EXCEPTION_PREFETCH_ABORT
  | EXCEPTION_DATA_ABORT | EXCEPTION_IRQ | EXCEPTION_FIQ.

Definition RESET_ADDR : Z := 0x00.
Definition UNDEFINED_ADDR : Z := 0x04.
Definition SWI_ADDR : Z := 0x08.
Definition PREFETCH_ABORT_ADDR : Z := 0x0c.
Definition DATA_ABORT_ADDR : Z := 0x10.
Definition IRQ_ADDR : Z := 0x18.

(** [cpsr & ~MODE_MASK | mode]. *)
Definition enter_mode (cpsr m : Z) : Z := Z.lor (Z.land cpsr (not32 MODE_MASK)) m.

(** [vbar]: the register of CP15 that holds the base of the vectors. *)
Definition service_interrupt (vbar : Z) (excep_type : exception_type) (c : core) : core :=
  let cpsr := readCPSR c in
  let masked := match excep_type with
                | EXCEPTION_FIQ => getBit cpsr 6
                | EXCEPTION_IRQ => getBit cpsr 7
                | _ => false
                end in
  if masked then c else
  let base := Z.land vbar (not32 0x1f) in
  let '(c, cpsr) :=
    match excep_type with
    | EXCEPTION_RESET =>
        (set_pc (add_w base RESET_ADDR) (set_banked SPSR_svc 0 (set_banked R14_svc 0 c)),
         setBit (enter_mode cpsr SUPERVISOR_MODE) 6)
    | EXCEPTION_UNDEFINED_INSTR =>
        (set_pc (add_w base UNDEFINED_ADDR) (set_banked SPSR_und cpsr (set_banked R14_und (ac_pc c) c)),
         enter_mode cpsr UNDEFINED_MODE)
    | EXCEPTION_SWI =>
        (set_pc (add_w base SWI_ADDR) (set_banked SPSR_svc cpsr (set_banked R14_svc (ac_pc c) c)),
         enter_mode cpsr SUPERVISOR_MODE)
    | EXCEPTION_PREFETCH_ABORT =>
        (set_pc (add_w base PREFETCH_ABORT_ADDR) (set_banked SPSR_abt cpsr (set_banked R14_abt (ac_pc c) c)),
         enter_mode cpsr ABORT_MODE)
    | EXCEPTION_DATA_ABORT =>
        (set_pc (add_w base DATA_ABORT_ADDR) (set_banked SPSR_abt cpsr (set_banked R14_abt (add_w (ac_pc c) 4) c)),
         enter_mode cpsr ABORT_MODE)
    | EXCEPTION_IRQ =>
        (set_pc (add_w base IRQ_ADDR) (set_banked SPSR_irq cpsr (set_banked R14_irq (add_w (ac_pc c) 4) c)),
         enter_mode cpsr IRQ_MODE)
    | EXCEPTION_FIQ =>
        (set_pc (add_w base DATA_ABORT_ADDR) (set_banked SPSR_fiq cpsr (set_banked R14_fiq (add_w (ac_pc c) 4) c)),
         setBit (enter_mode cpsr FIQ_MODE) 6)
    end in
  writeCPSR (setBit (clearBit cpsr 5) 7) c.
