(* ===== verification/ArmCoreOk.v ===== *)
(** * The ARM core's registers and status

    Properties of [ArmCore]: which registers alias in which modes, the status
    register as a word, entry to and return from exceptions. *)
From S2P Require Import Prelude ArmCore.

(** ** Words *)

Notation word v := (0 <= v < 2 ^ 32).

Lemma u32_word v : 0 <= u32 v < 2 ^ 32.
Proof. apply uwrap_range. lia. Qed.

Lemma u32_id v : 0 <= v < 2 ^ 32 -> u32 v = v.
Proof. apply uwrap_small. Qed.

(** The fields of a core that hold words hold words. *)
Record wf_core (c : core) : Prop := {
  wf_length : length (RB c) = 31%nat;
  wf_RB : Forall (fun v => 0 <= v < 2 ^ 32) (RB c);
  wf_banked : forall r, 0 <= banked c r < 2 ^ 32;
  wf_pc : 0 <= ac_pc c < 2 ^ 32;
  wf_mode : 0 <= mode_of c < 32;
  wf_shiftop : 0 <= dpi_shiftop c < 2 ^ 32;
  wf_ls : 0 <= ls_address c < 2 ^ 32;
  wf_start : 0 <= lsm_startaddress c < 2 ^ 32;
  wf_end : 0 <= lsm_endaddress c < 2 ^ 32;
  wf_OP1 : 0 <= OP1 c < 2 ^ 32;
  wf_OP2 : 0 <= OP2 c < 2 ^ 32;
  wf_undefined : 0 <= undefined c < 2 ^ 32
}.

(** ** Banked registers *)

Definition modes : list Z :=
  [USER_MODE; FIQ_MODE; IRQ_MODE; SUPERVISOR_MODE; ABORT_MODE; UNDEFINED_MODE; SYSTEM_MODE].

Lemma modes_range m : In m modes -> 0 <= m < 32.
Proof.
  intros H. assert (Hb : forallb (fun x => (0 <=? x) && (x <? 32)) modes = true) by reflexivity.
  rewrite forallb_forall in Hb. specialize (Hb m H). lia.
Qed.

(** The core in another mode. *)
Definition in_mode (m : Z) (c : core) : core :=
  let pm := arm_proc_mode c in set_mode (MkMode (pm_fiq pm) (pm_irq pm) (pm_thumb pm) m) c.

(** The architecture: user and system mode share all registers, the fast
    interrupt mode has its own registers 8 to 14 and the other modes their own
    registers 13 and 14. *)
Definition same_bank (m m' r : Z) : bool :=
  let user x := (x =? USER_MODE) || (x =? SYSTEM_MODE) in
  if (8 <=? r) && (r <=? 12) then Bool.eqb (m =? FIQ_MODE) (m' =? FIQ_MODE)
  else if (13 <=? r) && (r <=? 14) then (m =? m') || (user m && user m')
  else true.

(** The place a register number stands for. *)
Definition slot_of (m r : Z) : option (Z + banked_reg) :=
  match bypass_reg m r with
  | Some (inl _) => Some (inl r)
  | Some (inr q) => Some (inr q)
  | None => None
  end.

Definition peek (c : core) (sl : Z + banked_reg) : Z :=
  match sl with inl r => bank_read c r | inr q => banked c q end.

Definition reg_numbers : list Z := map Z.of_nat (seq 0 16).

Definition aliasing_checked : bool :=
  forallb (fun m => forallb (fun m' => forallb (fun r => forallb (fun r' =>
    match slot_of m r, slot_of m' r' with
    | Some s, Some s' => Bool.eqb (bool_decide (s = s')) ((r =? r') && same_bank m m' r)
    | _, _ => false
    end) reg_numbers) reg_numbers) modes) modes.

Lemma aliasing_table : aliasing_checked = true.
Proof. vm_compute. reflexivity. Qed.

Lemma in_reg_numbers r : 0 <= r < 16 -> In r reg_numbers.
Proof. intros. unfold reg_numbers. apply in_map_iff. exists (Z.to_nat r). split; [lia|]. apply in_seq. lia. Qed.

Lemma aliasing m m' r r' : In m modes -> In m' modes -> 0 <= r < 16 -> 0 <= r' < 16 ->
  exists s s', slot_of m r = Some s /\ slot_of m' r' = Some s' /\ (s = s' <-> r = r' /\ same_bank m m' r = true).
Proof.
  intros Hm Hm' Hr Hr'. pose proof aliasing_table as H. unfold aliasing_checked in H.
  rewrite forallb_forall in H. specialize (H m Hm). rewrite forallb_forall in H. specialize (H m' Hm').
  rewrite forallb_forall in H. specialize (H r (in_reg_numbers r Hr)).
  rewrite forallb_forall in H. specialize (H r' (in_reg_numbers r' Hr')).
  destruct (slot_of m r) as [s|]; [|discriminate]. destruct (slot_of m' r') as [s'|]; [|discriminate].
  exists s, s'. do 2 (split; [reflexivity|]). apply Bool.eqb_prop in H.
  destruct (bool_decide_reflect (s = s')) as [E|E]; symmetry in H.
  - apply andb_prop in H as [H1 H2]. apply Z.eqb_eq in H1. tauto.
  - apply andb_false_iff in H. split; [tauto|]. intros [-> H2].
    destruct H as [H|H]; [rewrite Z.eqb_refl in H|]; congruence.
Qed.

Lemma RB_read_slot c r s : slot_of (mode_of c) r = Some s -> RB_read c r = peek c s.
Proof.
  unfold slot_of, bypass_read. destruct (bypass_reg (mode_of c) r) as [[[]|q]|]; intros [= <-]; reflexivity.
Qed.

Lemma bank_write_read c r v r' : (Z.to_nat r < length (RB c))%nat -> 0 <= r -> 0 <= r' ->
  bank_read (bank_write c r v) r' = if r =? r' then v else bank_read c r'.
Proof.
  intros. unfold bank_read, bank_write. cbn [RB set_RB undefined].
  rewrite !nth_lookup. destruct (Z.eqb_spec r r') as [->|].
  - rewrite list_lookup_insert_eq by assumption. reflexivity.
  - rewrite list_lookup_insert_ne by lia. reflexivity.
Qed.

Lemma peek_write c r v s s' : length (RB c) = 31%nat -> 0 <= r < 16 -> slot_of (mode_of c) r = Some s ->
  (forall z, s' = inl z -> 0 <= z) ->
  peek (RB_write r v c) s' = if decide (s = s') then v else peek c s'.
Proof.
  intros Hl Hr. unfold slot_of, bypass_write.
  destruct (bypass_reg (mode_of c) r) as [[[]|q]|] eqn:E; intros [= <-] Hs'.
  - destruct s' as [r'|q']; cbn [peek].
    + rewrite bank_write_read by (rewrite ?Hl; try lia; apply Hs'; reflexivity).
      destruct (Z.eqb_spec r r'), (decide (inl r = inl r')); congruence.
    + destruct (decide _); [congruence|reflexivity].
  - destruct s' as [r'|q']; cbn [peek set_banked banked].
    + destruct (decide _); [congruence|reflexivity].
    + destruct (decide (q' = q)), (decide (inr q = inr q')); congruence.
Qed.

Lemma slot_nonneg m r s : 0 <= r -> slot_of m r = Some s -> forall z, s = inl z -> 0 <= z.
Proof. unfold slot_of. destruct (bypass_reg m r) as [[|]|]; intros ? [= <-]; congruence. Qed.

Definition is_spsr (q : banked_reg) : bool :=
  match q with SPSR_irq | SPSR_fiq | SPSR_svc | SPSR_abt | SPSR_und => true | _ => false end.

(** Everything but the general registers. *)
Definition same_but_registers (c c' : core) : Prop :=
  ac_pc c' = ac_pc c /\ arm_proc_mode c' = arm_proc_mode c /\ flags c' = flags c /\ execute c' = execute c /\
  dpi_shiftop c' = dpi_shiftop c /\ dpi_shiftopcarry c' = dpi_shiftopcarry c /\ ls_address c' = ls_address c /\
  lsm_startaddress c' = lsm_startaddress c /\ lsm_endaddress c' = lsm_endaddress c /\ OP1 c' = OP1 c /\
  OP2 c' = OP2 c /\ undefined c' = undefined c /\
  (forall q, is_spsr q = true -> banked c' q = banked c q).

Lemma bypass_not_spsr m r q : bypass_reg m r = Some (inr q) -> is_spsr q = false.
Proof.
  unfold bypass_reg. intros H.
  repeat match type of H with (if ?b then _ else _) = _ => destruct b end; try discriminate H;
    (destruct r as [|p|p]; try discriminate H; do 4 (destruct p; try discriminate H)); injection H as <-; reflexivity.
Qed.

Lemma RB_write_frame r v c : same_but_registers c (RB_write r v c).
Proof.
  unfold bypass_write. destruct (bypass_reg (mode_of c) r) as [[[]|q]|] eqn:E;
    (repeat split; try reflexivity).
  cbn [set_banked banked]. intros p Hp. destruct (decide (p = q)) as [->|]; [|reflexivity].
  apply bypass_not_spsr in E. congruence.
Qed.

Lemma in_own_mode c : in_mode (mode_of c) c = c.
Proof. destruct c as [? ? ? [] ? ? ? ? ? ? ? ? ? ?]. reflexivity. Qed.

Lemma mode_in_mode m c : mode_of (in_mode m c) = m.
Proof. reflexivity. Qed.

(** A register written in one mode, read in another. *)
Lemma RB_write_seen c m m' r r' v :
  length (RB c) = 31%nat -> In m modes -> In m' modes -> 0 <= r < 16 -> 0 <= r' < 16 ->
  RB_read (in_mode m' (RB_write r v (in_mode m c))) r' =
    (if (r =? r') && same_bank m m' r then v else RB_read (in_mode m' c) r').
Proof.
  intros Hl Hm Hm' Hr Hr'. set (c' := RB_write r v (in_mode m c)).
  destruct (aliasing m m' r r' Hm Hm' Hr Hr') as (s & s' & Hs & Hs' & Hal).
  rewrite (RB_read_slot (in_mode m' c') r' s') by exact Hs'.
  rewrite (RB_read_slot (in_mode m' c) r' s') by exact Hs'.
  transitivity (peek c' s'); [destruct s'; reflexivity|].
  unfold c'. rewrite (peek_write _ _ _ s) by (assumption || exact (slot_nonneg m' r' s' ltac:(lia) Hs')).
  replace (peek (in_mode m c) s') with (peek (in_mode m' c) s') by (destruct s'; reflexivity).
  destruct (decide (s = s')) as [E|E].
  - apply Hal in E as [-> ->]. rewrite Z.eqb_refl. reflexivity.
  - destruct ((r =? r') && same_bank m m' r) eqn:Eb; [|reflexivity].
    apply andb_prop in Eb as [Er ?]. apply Z.eqb_eq in Er. tauto.
Qed.

(** C14. The banked register file: a register written in one mode is seen in
    another mode under the same number exactly when the two modes share it in
    the architecture; under every other number and mode the registers keep
    their values, and a write changes nothing else of the core. *)
Theorem banked_registers c m m' r r' v :
  length (RB c) = 31%nat -> In m modes -> In m' modes -> 0 <= r < 16 -> 0 <= r' < 16 ->
  let c' := RB_write r v (in_mode m c) in
  RB_read (in_mode m' c') r' =
    (if (r =? r') && same_bank m m' r then v else RB_read (in_mode m' c) r') /\
  same_but_registers (in_mode m c) c'.
Proof. intros Hl Hm Hm' Hr Hr' c'. split; [apply RB_write_seen; assumption|apply RB_write_frame]. Qed.

(** ** Reading words *)

Lemma bank_read_word c r : wf_core c -> word (bank_read c r).
Proof.
  intros W. unfold bank_read. destruct (nth_in_or_default (Z.to_nat r) (RB c) (undefined c)) as [H| ->].
  - exact (proj1 (List.Forall_forall _ _) (wf_RB _ W) _ H).
  - apply wf_undefined, W.
Qed.

Lemma RB_read_word c r : wf_core c -> word (RB_read c r).
Proof.
  intros W. unfold bypass_read. destruct (bypass_reg (mode_of c) r) as [[[]|q]|];
    [apply bank_read_word, W|apply wf_banked, W|apply wf_undefined, W].
Qed.

(** ** The status register as a word *)

Lemma testbit_shift1 p i : 0 <= p -> 0 <= i -> Z.testbit (Z.shiftl 1 p) i = (i =? p).
Proof.
  intros. rewrite Z.shiftl_spec by lia. destruct (Z.eqb_spec i p) as [->|].
  - rewrite Z.sub_diag. reflexivity.
  - destruct (Z.ltb_spec i p); [apply Z.testbit_neg_r; lia|].
    apply (testbit_high 1); [lia|lia].
Qed.

Lemma testbit_setBit v p i : 0 <= p -> 0 <= i -> Z.testbit (setBit v p) i = (i =? p) || Z.testbit v i.
Proof. intros. unfold setBit. rewrite Z.lor_spec, testbit_shift1 by lia. apply orb_comm. Qed.

Lemma testbit_not32 v i : 0 <= i -> Z.testbit (not32 v) i = (i <? 32) && negb (Z.testbit v i).
Proof. intros. unfold not32. rewrite testbit_uwrap, Z.lnot_spec by lia. reflexivity. Qed.

Lemma testbit_clearBit v p i : 0 <= p -> 0 <= i ->
  Z.testbit (clearBit v p) i = (i <? 32) && negb (i =? p) && Z.testbit v i.
Proof.
  intros. unfold clearBit. rewrite Z.land_spec, testbit_not32, testbit_shift1 by lia. apply andb_comm.
Qed.

Lemma testbit_put_bit v p b i : 0 <= p < 32 -> 0 <= i < 32 ->
  Z.testbit (put_bit v p b) i = if i =? p then b else Z.testbit v i.
Proof.
  intros. unfold put_bit. destruct b; rewrite ?testbit_setBit, ?testbit_clearBit by lia.
  - destruct (i =? p); reflexivity.
  - replace (i <? 32) with true by lia. destruct (i =? p); reflexivity.
Qed.

Lemma testbit_or_bit v p b i : 0 <= p -> 0 <= i -> Z.testbit (or_bit v p b) i = ((i =? p) && b) || Z.testbit v i.
Proof.
  intros. unfold or_bit. destruct b; rewrite ?testbit_setBit by lia; destruct (i =? p); reflexivity.
Qed.

Lemma word_bits v w : 0 <= v < 2 ^ 32 -> 0 <= w < 2 ^ 32 ->
  (forall i, 0 <= i < 32 -> Z.testbit v i = Z.testbit w i) -> v = w.
Proof.
  intros Hv Hw H. apply Z.bits_inj'. intros i Hi. destruct (Z.ltb_spec i 32); [apply H; lia|].
  rewrite !(testbit_high 32) by lia. reflexivity.
Qed.

Lemma land_word v w : 0 <= v < 2 ^ 32 -> 0 <= w -> 0 <= Z.land v w < 2 ^ 32.
Proof.
  intros. split; [apply Z.land_nonneg; lia|]. apply bits_range; [lia|apply Z.land_nonneg; lia|].
  intros. rewrite Z.land_spec, (testbit_high 32 v) by lia. reflexivity.
Qed.

Lemma lor_word v w : 0 <= v < 2 ^ 32 -> 0 <= w < 2 ^ 32 -> 0 <= Z.lor v w < 2 ^ 32.
Proof.
  intros. split; [apply Z.lor_nonneg; lia|]. apply bits_range; [lia|apply Z.lor_nonneg; lia|].
  intros. rewrite Z.lor_spec, !(testbit_high 32) by lia. reflexivity.
Qed.

Lemma not32_word v : 0 <= not32 v < 2 ^ 32.
Proof. apply u32_word. Qed.

Lemma setBit_word v p : 0 <= v < 2 ^ 32 -> 0 <= p < 32 -> 0 <= setBit v p < 2 ^ 32.
Proof.
  intros. apply lor_word; [assumption|]. rewrite Z.shiftl_1_l. split; [lia|apply Z.pow_lt_mono_r; lia].
Qed.

Lemma clearBit_word v p : 0 <= v < 2 ^ 32 -> 0 <= clearBit v p < 2 ^ 32.
Proof. intros. apply land_word; [assumption|apply not32_word]. Qed.

Lemma put_bit_word v p b : 0 <= v < 2 ^ 32 -> 0 <= p < 32 -> 0 <= put_bit v p b < 2 ^ 32.
Proof. intros. unfold put_bit. destruct b; [apply setBit_word|apply clearBit_word]; assumption. Qed.

Lemma or_bit_word v p b : 0 <= v < 2 ^ 32 -> 0 <= p < 32 -> 0 <= or_bit v p b < 2 ^ 32.
Proof. intros. unfold or_bit. destruct b; [apply setBit_word|]; assumption. Qed.

Lemma readCPSR_word c : 0 <= mode_of c < 32 -> 0 <= readCPSR c < 2 ^ 32.
Proof.
  intros Hm. unfold readCPSR, CPSRBuild. unfold mode_of in Hm.
  repeat (first [apply or_bit_word|apply put_bit_word]; [|lia]). lia.
Qed.

(** The bits of the status register. *)
Definition cpsr_bit (c : core) (i : Z) : bool :=
  match i with
  | 31 => flag_N (flags c)
  | 30 => flag_Z (flags c)
  | 29 => flag_C (flags c)
  | 28 => flag_V (flags c)
  | 27 => flag_Q (flags c)
  | 7 => pm_irq (arm_proc_mode c)
  | 6 => pm_fiq (arm_proc_mode c)
  | 5 => flag_T (flags c) || pm_thumb (arm_proc_mode c)
  | _ => Z.testbit (mode_of c) i
  end.

Lemma in_bits i : 0 <= i < 32 -> In i
  [0; 1; 2; 3; 4; 5; 6; 7; 8; 9; 10; 11; 12; 13; 14; 15;
   16; 17; 18; 19; 20; 21; 22; 23; 24; 25; 26; 27; 28; 29; 30; 31].
Proof. intros. cbn [In]. lia. Qed.

(** Case analysis on a bit number below 32. *)
Ltac bit_number i H :=
  apply in_bits in H; cbn [In] in H; repeat (destruct H as [<-|H]); [..|destruct H].

Lemma testbit_readCPSR c i : 0 <= mode_of c < 32 -> 0 <= i < 32 ->
  Z.testbit (readCPSR c) i = cpsr_bit c i.
Proof.
  intros Hm Hi. assert (Hh : forall j, 5 <= j -> Z.testbit (mode_of c) j = false).
  { intros j Hj. apply (testbit_high 5); [change (2 ^ 5) with 32|]; lia. }
  unfold mode_of in Hh. unfold readCPSR, CPSRBuild.
  repeat first [rewrite testbit_or_bit by lia|rewrite testbit_put_bit by lia].
  unfold cpsr_bit, mode_of. bit_number i Hi; cbn [Z.eqb Pos.eqb andb orb]; rewrite ?Hh by lia;
    rewrite ?orb_false_r; reflexivity.
Qed.

Definition CPSR_MASK : Z := 0xF80000FF.

(** Every status word a program writes is read back in its implemented bits. *)
Lemma read_write_CPSR v c : 0 <= v < 2 ^ 32 -> pm_thumb (arm_proc_mode c) = false ->
  readCPSR (writeCPSR v c) = Z.land v CPSR_MASK.
Proof.
  intros Hv Ht. assert (Hm : 0 <= mode_of (writeCPSR v c) < 32).
  { cbn. unfold MODE_MASK. change 0x1F with (Z.ones 5). rewrite Z.land_ones by lia. apply Z.mod_pos_bound. lia. }
  apply word_bits; [apply readCPSR_word; assumption|apply land_word; [assumption|unfold CPSR_MASK; lia]|].
  intros i Hi. rewrite testbit_readCPSR by assumption. rewrite Z.land_spec.
  unfold cpsr_bit, writeCPSR, mode_of, getBit. cbn [flags arm_proc_mode set_mode set_flags pm_thumb pm_irq pm_fiq pm_mode
    flag_N flag_Z flag_C flag_V flag_Q flag_T]. rewrite Ht, orb_false_r.
  bit_number i Hi; rewrite ?Z.land_spec; cbn; rewrite ?andb_true_r, ?andb_false_r; reflexivity.
Qed.

Lemma getBit_readCPSR c i : 0 <= mode_of c < 32 -> 0 <= i < 32 -> getBit (readCPSR c) i = cpsr_bit c i.
Proof. apply testbit_readCPSR. Qed.

Lemma land_mode v m : 0 <= m < 32 -> (forall i, 0 <= i < 5 -> Z.testbit v i = Z.testbit m i) -> Z.land v MODE_MASK = m.
Proof.
  intros Hm H. apply Z.bits_inj'. intros i Hi. unfold MODE_MASK. change 0x1F with (Z.ones 5).
  rewrite Z.land_spec, testbit_ones by lia. destruct (Z.ltb_spec i 5).
  - rewrite H by lia. replace (0 <=? i) with true by lia. apply andb_true_r.
  - rewrite (testbit_high 5 m) by (change (2 ^ 5) with 32; lia). rewrite andb_false_r. apply andb_false_r.
Qed.

(** Writing back the word read restores flags, masks and mode. *)
Lemma write_read_CPSR c c' : 0 <= mode_of c < 32 ->
  pm_thumb (arm_proc_mode c) = false -> pm_thumb (arm_proc_mode c') = false ->
  flags (writeCPSR (readCPSR c) c') = flags c /\ arm_proc_mode (writeCPSR (readCPSR c) c') = arm_proc_mode c.
Proof.
  intros Hm Ht Ht'. unfold writeCPSR. cbn [flags arm_proc_mode set_mode set_flags].
  rewrite !getBit_readCPSR by lia. rewrite (land_mode _ (mode_of c)); [|assumption|].
  - unfold cpsr_bit, mode_of. rewrite Ht, Ht', orb_false_r.
    destruct (flags c), (arm_proc_mode c) as [fiq irq th m]. cbn in Ht |- *. rewrite Ht. split; reflexivity.
  - intros i Hi. rewrite testbit_readCPSR by lia. assert (Hi' : 0 <= i < 32) by lia.
    bit_number i Hi'; try lia; reflexivity.
Qed.

(** ** Exceptions *)

(** The architecture's mode and vector of each exception, and how far the link
    register is behind [ac_pc], which is already past the instruction. *)
Definition handler_mode (e : exception_type) : Z :=
  match e with
  | EXCEPTION_RESET | EXCEPTION_SWI => SUPERVISOR_MODE
  | EXCEPTION_UNDEFINED_INSTR => UNDEFINED_MODE
  | EXCEPTION_PREFETCH_ABORT | EXCEPTION_DATA_ABORT => ABORT_MODE
  | EXCEPTION_IRQ => IRQ_MODE
  | EXCEPTION_FIQ => FIQ_MODE
  end.

Definition vector (e : exception_type) : Z :=
  match e with
  | EXCEPTION_RESET => 0x00
  | EXCEPTION_UNDEFINED_INSTR => 0x04
  | EXCEPTION_SWI => 0x08
  | EXCEPTION_PREFETCH_ABORT => 0x0c
  | EXCEPTION_DATA_ABORT => 0x10
  | EXCEPTION_IRQ => 0x18
  | EXCEPTION_FIQ => 0x1c
  end.

(** Where the program enters: a fast interrupt goes to the vector of a data abort. *)
Definition entered_at (e : exception_type) : Z :=
  match e with EXCEPTION_FIQ => vector EXCEPTION_DATA_ABORT | _ => vector e end.

Definition link_offset (e : exception_type) : Z :=
  match e with EXCEPTION_DATA_ABORT | EXCEPTION_IRQ | EXCEPTION_FIQ => 4 | _ => 0 end.

Definition masked (c : core) (e : exception_type) : bool :=
  match e with
  | EXCEPTION_FIQ => pm_fiq (arm_proc_mode c)
  | EXCEPTION_IRQ => pm_irq (arm_proc_mode c)
  | _ => false
  end.

Definition link_reg (e : exception_type) : banked_reg :=
  match e with
  | EXCEPTION_RESET | EXCEPTION_SWI => R14_svc
  | EXCEPTION_UNDEFINED_INSTR => R14_und
  | EXCEPTION_PREFETCH_ABORT | EXCEPTION_DATA_ABORT => R14_abt
  | EXCEPTION_IRQ => R14_irq
  | EXCEPTION_FIQ => R14_fiq
  end.

Definition saved_reg (e : exception_type) : banked_reg :=
  match e with
  | EXCEPTION_RESET | EXCEPTION_SWI => SPSR_svc
  | EXCEPTION_UNDEFINED_INSTR => SPSR_und
  | EXCEPTION_PREFETCH_ABORT | EXCEPTION_DATA_ABORT => SPSR_abt
  | EXCEPTION_IRQ => SPSR_irq
  | EXCEPTION_FIQ => SPSR_fiq
  end.

(** A reset has nothing to return to. *)
Definition link_word (e : exception_type) (c : core) : Z :=
  match e with EXCEPTION_RESET => 0 | _ => add_w (ac_pc c) (link_offset e) end.
Definition saved_word (e : exception_type) (c : core) : Z :=
  match e with EXCEPTION_RESET => 0 | _ => readCPSR c end.

Definition masks_fiq (e : exception_type) : bool :=
  match e with EXCEPTION_RESET | EXCEPTION_FIQ => true | _ => false end.

(** The status word written on entry. *)
Definition entry_word (e : exception_type) (cpsr : Z) : Z :=
  let w := enter_mode cpsr (handler_mode e) in
  let w := if masks_fiq e then setBit w 6 else w in
  setBit (clearBit w 5) 7.

Lemma service_interrupt_entry vbar e c : 0 <= mode_of c < 32 -> 0 <= ac_pc c < 2 ^ 32 ->
  masked c e = false ->
  service_interrupt vbar e c =
    writeCPSR (entry_word e (readCPSR c))
      (set_pc (add_w (Z.land vbar (not32 0x1f)) (entered_at e))
        (set_banked (saved_reg e) (saved_word e c) (set_banked (link_reg e) (link_word e c) c))).
Proof.
  intros Hm Hpc Hk. unfold service_interrupt.
  replace (match e with EXCEPTION_FIQ => getBit (readCPSR c) 6 | EXCEPTION_IRQ => getBit (readCPSR c) 7 | _ => false end)
    with (masked c e) by (destruct e; cbn [masked]; rewrite ?getBit_readCPSR by lia; reflexivity).
  rewrite Hk. assert (Hz : add_w (ac_pc c) 0 = ac_pc c) by (unfold add_w; rewrite Z.add_0_r; apply u32_id; assumption).
  unfold link_word. destruct e; cbn [link_offset]; rewrite ?Hz; reflexivity.
Qed.

Lemma testbit_mode_mask i : 0 <= i -> Z.testbit MODE_MASK i = (i <? 5).
Proof. intros. unfold MODE_MASK. change 0x1F with (Z.ones 5). rewrite testbit_ones by lia. replace (0 <=? i) with true by lia. reflexivity. Qed.

Lemma testbit_enter_mode w m i : 0 <= m < 32 -> 0 <= i < 32 ->
  Z.testbit (enter_mode w m) i = if i <? 5 then Z.testbit m i else Z.testbit w i.
Proof.
  intros Hm Hi. unfold enter_mode. rewrite Z.lor_spec, Z.land_spec, testbit_not32, testbit_mode_mask by lia.
  replace (i <? 32) with true by lia. destruct (Z.ltb_spec i 5); cbn [negb andb].
  - rewrite andb_false_r. reflexivity.
  - rewrite (testbit_high 5 m) by (change (2 ^ 5) with 32; lia). rewrite andb_true_r, orb_false_r. reflexivity.
Qed.

Lemma handler_mode_range e : 0 <= handler_mode e < 32.
Proof. destruct e; split; vm_compute; congruence. Qed.

Lemma testbit_entry_word e w i : 0 <= i < 32 ->
  Z.testbit (entry_word e w) i =
    if i =? 7 then true else if i =? 5 then false
    else if i <? 5 then Z.testbit (handler_mode e) i
    else ((i =? 6) && masks_fiq e) || Z.testbit w i.
Proof.
  intros Hi. assert (Hm := handler_mode_range e).
  unfold entry_word. rewrite testbit_setBit, testbit_clearBit by lia. replace (i <? 32) with true by lia.
  destruct (i =? 7); [reflexivity|]. destruct (i =? 5); [reflexivity|]. cbn [orb andb negb].
  destruct (masks_fiq e); rewrite ?testbit_setBit by lia; rewrite testbit_enter_mode by lia;
    rewrite ?andb_false_r, ?andb_true_r; destruct (Z.ltb_spec i 5); try reflexivity.
  replace (i =? 6) with false by lia. reflexivity.
Qed.

Lemma service_interrupt_mode vbar e c : 0 <= mode_of c < 32 -> 0 <= ac_pc c < 2 ^ 32 ->
  masked c e = false -> mode_of (service_interrupt vbar e c) = handler_mode e.
Proof.
  intros Hm Hpc Hk. rewrite service_interrupt_entry by assumption. unfold mode_of, writeCPSR.
  cbn [arm_proc_mode set_mode pm_mode]. apply land_mode; [apply handler_mode_range|].
  intros i Hi. rewrite testbit_entry_word by lia.
  replace (i =? 7) with false by lia. replace (i =? 5) with false by lia. replace (i <? 5) with true by lia. reflexivity.
Qed.

(** C11. Exceptions: in ARM state, an exception that is not masked enters the mode
    of its handler with normal interrupts disabled (a reset and a fast interrupt
    disable fast interrupts too, which the others leave as they are), in ARM
    state, at its vector, except that a fast interrupt is taken at the vector of
    a data abort; the handler's link register has the return address and its
    saved status register the old status word, both 0 after a reset; flags,
    register bank and all other banked registers are kept, and, but for a
    reset, copying the saved status back restores the flags, the interrupt masks
    and the mode. *)
Theorem exception_entry_return vbar e c :
  In (mode_of c) modes -> 0 <= ac_pc c < 2 ^ 32 -> pm_thumb (arm_proc_mode c) = false -> masked c e = false ->
  let c' := service_interrupt vbar e c in
  mode_of c' = handler_mode e /\ pm_irq (arm_proc_mode c') = true /\
  pm_fiq (arm_proc_mode c') = masks_fiq e || pm_fiq (arm_proc_mode c) /\ flag_T (flags c') = false /\
  (e <> EXCEPTION_FIQ -> ac_pc c' = u32 (Z.land vbar (not32 0x1f) + vector e)) /\
  (e = EXCEPTION_FIQ -> ac_pc c' = u32 (Z.land vbar (not32 0x1f) + 0x10)) /\
  (e <> EXCEPTION_RESET -> RB_read c' LR = u32 (ac_pc c + link_offset e) /\ readSPSR c' = readCPSR c) /\
  (e = EXCEPTION_RESET -> RB_read c' LR = 0 /\ readSPSR c' = 0) /\
  RB c' = RB c /\
  (forall q, q <> link_reg e -> q <> saved_reg e -> banked c' q = banked c q) /\
  [flag_N (flags c'); flag_Z (flags c'); flag_C (flags c'); flag_V (flags c'); flag_Q (flags c')]
    = [flag_N (flags c); flag_Z (flags c); flag_C (flags c); flag_V (flags c); flag_Q (flags c)] /\
  (e <> EXCEPTION_RESET -> flags (SPSRtoCPSR c') = flags c /\ arm_proc_mode (SPSRtoCPSR c') = arm_proc_mode c).
Proof.
  intros Hin Hpc Ht Hk c'.
  assert (Hm := modes_range _ Hin).
  assert (Hmode : mode_of c' = handler_mode e) by (apply service_interrupt_mode; assumption).
  assert (Hs : spsr_reg (mode_of c') = Some (saved_reg e)) by (rewrite Hmode; destruct e; reflexivity).
  assert (Hl : bypass_reg (mode_of c') 14 = Some (inr (link_reg e))) by (rewrite Hmode; destruct e; reflexivity).
  assert (He : c' = writeCPSR (entry_word e (readCPSR c))
      (set_pc (add_w (Z.land vbar (not32 0x1f)) (entered_at e))
        (set_banked (saved_reg e) (saved_word e c) (set_banked (link_reg e) (link_word e c) c))))
    by (apply service_interrupt_entry; assumption).
  assert (Hsaved : banked c' (saved_reg e) = saved_word e c).
  { rewrite He. cbn. rewrite decide_True by reflexivity. reflexivity. }
  assert (Hlink : banked c' (link_reg e) = link_word e c).
  { rewrite He. cbn [writeCPSR set_mode set_flags banked set_pc set_banked]. rewrite decide_False by (destruct e; discriminate).
    rewrite decide_True by reflexivity. reflexivity. }
  assert (Hth : pm_thumb (arm_proc_mode c') = false) by (rewrite He; exact Ht).
  assert (Hrest := write_read_CPSR c c' Hm Ht Hth).
  assert (HLR : RB_read c' LR = link_word e c) by (rewrite <- Hlink; unfold RB_read, bypass_read; rewrite Hl; reflexivity).
  assert (HSP : readSPSR c' = saved_word e c) by (unfold readSPSR; rewrite Hs; exact Hsaved).
  split; [exact Hmode|]. rewrite HLR, HSP. unfold SPSRtoCPSR. rewrite Hs, Hsaved.
  split; [|split; [|split; [|split; [|split; [|split; [|split; [|split; [|split; [|split]]]]]]]]].
  - rewrite He. unfold writeCPSR. cbn [arm_proc_mode set_mode set_flags pm_irq]. unfold getBit. rewrite testbit_entry_word by lia. reflexivity.
  - rewrite He. unfold writeCPSR. cbn [arm_proc_mode set_mode set_flags pm_fiq]. unfold getBit. rewrite testbit_entry_word by lia.
    cbn [Z.eqb Pos.eqb andb]. zlits. rewrite testbit_readCPSR by lia. reflexivity.
  - rewrite He. unfold writeCPSR. cbn [flags set_mode set_flags flag_T]. unfold getBit. rewrite testbit_entry_word by lia. reflexivity.
  - intros Hf. rewrite He. destruct e; try congruence; reflexivity.
  - intros ->. rewrite He. reflexivity.
  - intros Hr. destruct e; try congruence; auto.
  - intros ->. auto.
  - rewrite He. reflexivity.
  - intros q Hq1 Hq2. rewrite He. cbn [writeCPSR set_mode set_flags banked set_pc set_banked]. rewrite !decide_False by assumption. reflexivity.
  - rewrite He. unfold writeCPSR. cbn [flags set_mode set_flags flag_N flag_Z flag_C flag_V flag_Q]. unfold getBit.
    rewrite !testbit_entry_word by lia. cbn [Z.eqb Pos.eqb andb orb]. zlits.
    rewrite !testbit_readCPSR by lia. reflexivity.
  - intros Hr. replace (saved_word e c) with (readCPSR c) by (destruct e; try congruence; reflexivity). exact Hrest.
Qed.

(** A core in a given mode, for the examples. *)
Definition sample_core (m : Z) : core :=
  MkCore (map Z.of_nat (seq 100 31)) (fun _ => 7) 0x8000 (MkMode false false false m)
    (MkFlags true false true false false false) true 0 false 0 0 0 0 0 0.

Lemma sample_wf m : 0 <= m < 32 -> wf_core (sample_core m).
Proof.
  intros Hm. split; try exact Hm; try (cbn; lia).
  - apply (List.Forall_forall). intros v Hv. cbn in Hv. lia.
Qed.

Lemma sample_modes m : existsb (Z.eqb m) modes = true -> In m modes.
Proof. intros H. apply existsb_exists in H as (x & Hx & E). apply Z.eqb_eq in E as ->. exact Hx. Qed.

Lemma banked_registers_witness :
  let c := sample_core USER_MODE in
  RB_read (in_mode IRQ_MODE (RB_write 13 5 (in_mode USER_MODE c))) 13 = 7.
Proof.
  destruct (banked_registers (sample_core USER_MODE) USER_MODE IRQ_MODE 13 13 5) as [H _];
    [reflexivity|apply sample_modes; reflexivity|apply sample_modes; reflexivity|lia|lia|].
  exact H.
Defined.

Lemma exception_entry_return_witness :
  let c := service_interrupt 0x100 EXCEPTION_IRQ (sample_core USER_MODE) in
  mode_of c = IRQ_MODE /\ pm_irq (arm_proc_mode c) = true /\ ac_pc c = 0x118 /\ RB_read c LR = 0x8004.
Proof.
  destruct (exception_entry_return 0x100 EXCEPTION_IRQ (sample_core USER_MODE)) as (H1 & H2 & _ & _ & H3 & _ & H4 & _);
    [apply sample_modes; reflexivity|cbn; lia|reflexivity|reflexivity|].
  split; [exact H1|]. split; [exact H2|]. split; [apply H3; discriminate|apply H4; discriminate].
Defined.
