(* ===== verification/ArmFormats.v ===== *)
(** * Format behaviours of the ARM core

    The methods [Type_*] of [src/armv7/src/arm_isa.cpp], which run before the
    behaviour of an instruction: the condition test, the shifter operand of the
    data-processing formats and the addressing modes of loads and stores. *)
From S2P Require Import Prelude ArmCore.

(** A step gives a value, is annulled in a state ([ac_annul] jumps back to the
    fetch loop and drops the rest of the instruction) or ends the simulation
    ([exit], [abort]). *)
Inductive flow (S A : Type) := Next (a : A) | Annul (s : S) | Stop (status : Z).
Arguments Next {S A} a.
Arguments Annul {S A} s.
Arguments Stop {S A} status.

#[export] Instance flow_ret S : MRet (flow S) := fun A => Next.
#[export] Instance flow_bind S : MBind (flow S) := fun A B f m =>
  match m with Next a => f a | Annul s => Annul s | Stop st => Stop st end.

(** ** The generic behaviour *)

Definition condition (f : flag_t) (cond : Z) : bool :=
  let n := flag_N f in let z := flag_Z f in let c := flag_C f in let v := flag_V f in
  match cond with
  | 0 => z
  | 1 => negb z
  | 2 => c
  | 3 => negb c
  | 4 => n
  | 5 => negb n
  | 6 => v
  | 7 => negb v
  | 8 => c && negb z
  | 9 => negb c || z
  | 10 => Bool.eqb n v
  | 11 => negb (Bool.eqb n v)
  | 12 => negb z && Bool.eqb n v
  | 13 => z || negb (Bool.eqb n v)
  | 14 => true
  | _ => false
  end.

Definition behavior_instruction (cond : Z) (c : core) : flow core core :=
  let c := set_execute (condition (flags c) cond) c in
  let c := set_pc (add_w (ac_pc c) 4) c in
  let c := RB_write PC (ac_pc c) c in
  if execute c then Next c else Annul c.

(** ** The shifter operand *)

Definition put_shiftop (op : Z) (carry : bool) (c : core) : core :=
  set_shiftopcarry carry (set_shiftop op c).

(** Register with immediate shift; [shiftamount] is a field of five bits. *)
Definition Type_DPI1 (shiftamount shift rm : Z) (c : core) : core :=
  let RM2 := if rm =? 15 then add_w (RB_read c rm) 4 else RB_read c rm in
  match shift with
  | 0 =>
      if shiftamount =? 0 then put_shiftop RM2 (flag_C (flags c)) c
      else put_shiftop (lsl_w RM2 shiftamount) (getBit RM2 (32 - shiftamount)) c
  | 1 =>
      if shiftamount =? 0 then put_shiftop 0 (getBit RM2 31) c
      else put_shiftop (lsr_w RM2 shiftamount) (getBit RM2 (shiftamount - 1)) c
  | 2 =>
      if shiftamount =? 0 then put_shiftop (if getBit RM2 31 then 0xFFFFFFFF else 0) (getBit RM2 31) c
      else put_shiftop (ArithmeticShiftRight shiftamount RM2) (getBit RM2 (shiftamount - 1)) c
  | _ =>
      if shiftamount =? 0 then
        put_shiftop (or_bit (lsr_w RM2 1) 31 (flag_C (flags c))) (getBit RM2 0) c
      else put_shiftop (RotateRight shiftamount RM2) (getBit RM2 (shiftamount - 1)) c
  end.

(** Register shifted by a register. *)
Definition Type_DPI2 (rn rd rs shift rm : Z) (c : core) : flow core core :=
  if (rd =? 15) || (rm =? 15) || (rn =? 15) || (rs =? 15) then Annul c else
  let RM2 := RB_read c rm in
  let RS2 := RB_read c rs in
  let rs40 := Z.land RS2 0xF in
  let amount := u8 RS2 in
  Next (
  if amount =? 0 then put_shiftop RM2 (flag_C (flags c)) c else
  match shift with
  | 0 =>
      if amount <? 32 then put_shiftop (lsl_w RM2 amount) (getBit RM2 (32 - amount)) c
      else if amount =? 32 then put_shiftop 0 (getBit RM2 0) c
      else put_shiftop 0 false c
  | 1 =>
      if amount <? 32 then put_shiftop (lsr_w RM2 amount) (getBit RM2 (amount - 1)) c
      else if amount =? 32 then put_shiftop 0 (getBit RM2 31) c
      else put_shiftop 0 false c
  | 2 =>
      if amount <? 32 then put_shiftop (ArithmeticShiftRight amount RM2) (getBit RM2 (amount - 1)) c
      else put_shiftop (if getBit RM2 31 then 0xFFFFFFFF else 0) (getBit RM2 31) c
  | _ =>
      if rs40 =? 0 then put_shiftop RM2 (getBit RM2 31) c
      else put_shiftop (RotateRight rs40 RM2) (getBit RM2 (rs40 - 1)) c
  end).

(** Rotated immediate. *)
Definition Type_DPI3 (rotate imm8 : Z) (c : core) : core :=
  let op := Z.lor (lsr_w imm8 (2 * rotate)) (lsl_w imm8 (32 - 2 * rotate)) in
  put_shiftop op (if rotate =? 0 then flag_C (flags c) else getBit op 31) c.

Definition Type_DPI4 (imm4 imm12 : Z) (c : core) : core :=
  set_shiftop (Z.lor (Z.shiftl imm4 12) imm12) c.

Definition Type_DPI5 (shiftamount tb rm : Z) (c : core) : core :=
  if tb =? 1 then set_shiftop (ArithmeticShiftRight shiftamount (bank_read c rm)) c
  else set_shiftop (lsl_w (bank_read c rm) shiftamount) c.

Definition Type_PCK1 (rotate rm : Z) (c : core) : core :=
  set_shiftop (RotateRight (Z.shiftl rotate 1) (RB_read c rm)) c.

Definition Type_DSPSM (drd drn rs yy xx rm : Z) (c : core) : core :=
  let RM2 := RB_read c rm in
  let RS2 := RB_read c rs in
  if (drd =? PC) || (drn =? PC) || (rm =? PC) || (rs =? PC) then c
  else set_OP (SignExtend (if xx =? 0 then RM2 else ArithmeticShiftRight 16 RM2) 16)
              (SignExtend (if yy =? 0 then RS2 else ArithmeticShiftRight 16 RS2) 16) c.

(** ** Addresses *)

(** The offset is added or subtracted. *)
Definition offset_by (u base off : Z) : Z := if u =? 1 then add_w base off else sub_w base off.

Definition pc_bias (rn : Z) : Z := if rn =? PC then 4 else 0.

(** Load and store with immediate offset. *)
Definition Type_LSI (p u w rn rd imm12 : Z) (c : core) : flow core core :=
  let RN2 := RB_read c rn in
  let c := set_ls_address 0 c in
  if (p =? 1) && (w =? 0) then
    Next (set_ls_address (add_w (pc_bias rn) (offset_by u RN2 imm12)) c)
  else if (p =? 1) && (w =? 1) then
    if (rn =? PC) || (rn =? rd) then Annul c else
    let c := set_ls_address (offset_by u RN2 imm12) c in
    Next (RB_write rn (ls_address c) c)
  else if (p =? 0) && (w =? 0) then
    if (rn =? PC) || (rn =? rd) then Annul c else
    let c := set_ls_address RN2 c in
    Next (RB_write rn (offset_by u (ls_address c) imm12) c)
  else Next c.

(** The scaled index: the same [switch] in the three addressing modes. *)
Definition lsr_index (shiftamount shift RM2 : Z) (carry : bool) : Z :=
  match shift with
  | 0 => if shiftamount =? 0 then RM2 else lsl_w RM2 shiftamount
  | 1 => if shiftamount =? 0 then 0 else lsr_w RM2 shiftamount
  | 2 =>
      if shiftamount =? 0 then (if getBit RM2 31 then 0xFFFFFFFF else 0)
      else ArithmeticShiftRight shiftamount RM2
  | _ =>
      if shiftamount =? 0 then Z.lor (or_bit 0 31 carry) (lsr_w RM2 1)
      else RotateRight shiftamount RM2
  end.

(** Load and store with scaled register offset.  With [rm] = PC the offset mode
    returns without an annulment and leaves the address at 0 or 4. *)
Definition Type_LSR (p u w rn rd shiftamount shift rm : Z) (c : core) : flow core core :=
  let RM2 := RB_read c rm in
  let RN2 := RB_read c rn in
  let index := lsr_index shiftamount shift RM2 (flag_C (flags c)) in
  let c := set_ls_address 0 c in
  if (p =? 1) && (w =? 0) then
    let c := set_ls_address (pc_bias rn) c in
    if rm =? PC then Next c
    else Next (set_ls_address (add_w (ls_address c) (offset_by u RN2 index)) c)
  else if (p =? 1) && (w =? 1) then
    if (rn =? PC) || (rn =? rd) || (rm =? PC) || (rn =? rm) then Annul c else
    let c := set_ls_address (offset_by u RN2 index) c in
    Next (RB_write rn (ls_address c) c)
  else if (p =? 0) && (w =? 0) then
    if (rn =? PC) || (rn =? rd) || (rm =? PC) || (rn =? rm) then Annul c else
    let c := set_ls_address RN2 c in
    Next (RB_write rn (offset_by u RN2 index) c)
  else Next c.

(** Load and store of half words, signed bytes and double words. *)
Definition Type_LSE (p u i w rn rd addr1 ss hh addr2 : Z) (c : core) : flow core core :=
  if (p =? 0) && (w =? 1) then Annul c else
  if (ss =? 0) && (hh =? 0) then Annul c else
  let RN2 := RB_read c rn in
  let RM2 := RB_read c addr2 in
  let off8 := Z.lor (u32 (Z.shiftl addr1 4)) addr2 in
  let c := set_ls_address 0 c in
  if p =? 1 then
    if (i =? 1) && (w =? 0) then
      Next (set_ls_address (add_w (pc_bias rn) (offset_by u RN2 off8)) c)
    else if (i =? 0) && (w =? 0) then
      if addr2 =? PC then Annul c
      else Next (set_ls_address (add_w (pc_bias rn) (offset_by u RN2 RM2)) c)
    else if (i =? 1) && (w =? 1) then
      if (rn =? PC) || (rn =? rd) then Annul c else
      let c := set_ls_address (offset_by u RN2 off8) c in
      Next (RB_write rn (ls_address c) c)
    else
      if (rn =? PC) || (rn =? rd) || (addr2 =? PC) || (rn =? addr2) then Annul c else
      let c := set_ls_address (offset_by u RN2 RM2) c in
      Next (RB_write rn (ls_address c) c)
  else
    if (i =? 1) && (w =? 0) then
      if rn =? PC then Annul c else
      let c := set_ls_address RN2 c in
      Next (RB_write rn (offset_by u RN2 off8) c)
    else if (i =? 0) && (w =? 0) then
      if (rn =? PC) || (rn =? rd) || (addr2 =? PC) || (rn =? addr2) then Annul c else
      let c := set_ls_address RN2 c in
      Next (RB_write rn (offset_by u RN2 RM2) c)
    else Next c.

(** Load and store of several registers. *)
Definition Type_LSM (p u w rn rlist : Z) (c : core) : flow core core :=
  if rlist =? 0 then Annul c else
  let RN2 := RB_read c rn in
  let n := LSM_CountSetBits rlist * 4 in
  let '(startaddress, endaddress, base) :=
    if (p =? 0) && (u =? 1) then (RN2, sub_w (add_w RN2 n) 4, add_w RN2 n)
    else if (p =? 1) && (u =? 1) then (add_w RN2 4, add_w RN2 n, add_w RN2 n)
    else if (p =? 0) && (u =? 0) then (add_w (sub_w RN2 n) 4, RN2, sub_w RN2 n)
    else (sub_w RN2 n, sub_w RN2 4, sub_w RN2 n) in
  let c := set_lsm startaddress endaddress c in
  if (w =? 1) && getBit rlist rn then Annul c
  else Next (RB_write rn (if w =? 1 then base else RN2) c).
