(* ===== verification/ArmFormatsOk.v ===== *)
(** * The shifter operand

    The three data-processing formats and the scaled index of the load and
    store formats against the shift functions of the architecture. *)
From S2P Require Import Prelude ArmCore ArmFormats ArmCoreOk.

(** ** The architecture *)

Inductive SRType := SRType_LSL | SRType_LSR | SRType_ASR | SRType_ROR | SRType_RRX.

(** A word shifted by any amount, with the last bit shifted out. *)
Definition Shift_C (x : Z) (type : SRType) (amount : Z) (carry_in : bool) : Z * bool :=
  match type with
  | SRType_RRX => (Z.lor (Z.shiftr x 1) (if carry_in then 2 ^ 31 else 0), Z.testbit x 0)
  | _ =>
    if amount =? 0 then (x, carry_in) else
    match type with
    | SRType_LSL => (u32 (Z.shiftl x amount), Z.testbit (Z.shiftl x amount) 32)
    | SRType_LSR => (Z.shiftr x amount, Z.testbit x (amount - 1))
    | SRType_ASR => (u32 (Z.shiftr (s32 x) amount), Z.testbit (s32 x) (amount - 1))
    | _ =>
        let m := amount mod 32 in
        let r := Z.lor (Z.shiftr x m) (u32 (Z.shiftl x (32 - m))) in
        (r, Z.testbit r 31)
    end
  end.

Definition shift_type (type : Z) : SRType :=
  match type with 0 => SRType_LSL | 1 => SRType_LSR | 2 => SRType_ASR | _ => SRType_ROR end.

Definition DecodeImmShift (type imm5 : Z) : SRType * Z :=
  match type with
  | 0 => (SRType_LSL, imm5)
  | 1 => (SRType_LSR, if imm5 =? 0 then 32 else imm5)
  | 2 => (SRType_ASR, if imm5 =? 0 then 32 else imm5)
  | _ => if imm5 =? 0 then (SRType_RRX, 1) else (SRType_ROR, imm5)
  end.

Definition shift_imm (x type imm5 : Z) (carry_in : bool) : Z * bool :=
  let '(t, n) := DecodeImmShift type imm5 in Shift_C x t n carry_in.

(** The amount the register-shift format rotates by. *)
Definition amount_used (type amount : Z) : Z :=
  if (type =? 3) && negb (amount =? 0) then
    if Z.land amount 0xF =? 0 then 32 else Z.land amount 0xF
  else amount.

(** ** Shifts of words *)

Lemma s32_testbit x i : 0 <= i < 32 -> 0 <= x < 2 ^ 32 -> Z.testbit (s32 x) i = Z.testbit x i.
Proof.
  intros Hi Hx. unfold swrap. replace (32 - 1) with 31 by reflexivity.
  assert (E : (x + 2 ^ 31) mod 2 ^ 32 - 2 ^ 31 = x \/ (x + 2 ^ 31) mod 2 ^ 32 - 2 ^ 31 = x + (-1) * 2 ^ 32).
  { destruct (Z.ltb_spec x (2 ^ 31)).
    - left. rewrite Z.mod_small by lia. lia.
    - right. replace (x + 2 ^ 31) with (x - 2 ^ 31 + 1 * 2 ^ 32) by lia.
      rewrite Z.mod_add, Z.mod_small by lia. lia. }
  destruct E as [->| ->]; [reflexivity|].
  rewrite <- (Z.mod_pow2_bits_low (x + -1 * 2 ^ 32) 32 i) by lia.
  rewrite Z.mod_add by lia. rewrite Z.mod_small by lia. reflexivity.
Qed.

Lemma s32_value x : 0 <= x < 2 ^ 32 -> s32 x = if Z.testbit x 31 then x - 2 ^ 32 else x.
Proof.
  intros Hx. rewrite Z.testbit_eqb by lia. unfold swrap. replace (32 - 1) with 31 by reflexivity.
  destruct (Z.ltb_spec x (2 ^ 31)).
  - rewrite (Z.div_small x) by lia. rewrite Z.mod_small by lia. change (0 mod 2 =? 1) with false. cbn match. lia.
  - replace (x / 2 ^ 31) with 1 by (apply Z.div_unique with (x - 2 ^ 31); lia).
    replace (x + 2 ^ 31) with (x - 2 ^ 31 + 1 * 2 ^ 32) by lia.
    rewrite Z.mod_add, Z.mod_small by lia. change (1 mod 2 =? 1) with true. lia.
Qed.

Lemma asr_far x n : 0 <= x < 2 ^ 32 -> 32 <= n ->
  u32 (Z.shiftr (s32 x) n) = (if getBit x 31 then 0xFFFFFFFF else 0) /\ Z.testbit (s32 x) (n - 1) = getBit x 31.
Proof.
  intros Hx Hn. unfold getBit. rewrite s32_value by assumption.
  assert (H2 : 2 ^ 32 <= 2 ^ n) by (apply Z.pow_le_mono_r; lia).
  assert (H3 : 2 ^ 31 <= 2 ^ (n - 1)) by (apply Z.pow_le_mono_r; lia).
  rewrite Z.shiftr_div_pow2 by lia. rewrite (Z.testbit_eqb _ (n - 1)) by lia.
  assert (Hb := Z.testbit_eqb x 31 ltac:(lia)).
  destruct (Z.testbit x 31).
  - assert (2 ^ 31 <= x).
    { destruct (Z.ltb_spec x (2 ^ 31)); [|lia]. rewrite Z.div_small in Hb by lia. discriminate. }
    replace ((x - 2 ^ 32) / 2 ^ n) with (-1) by (apply Z.div_unique with (x - 2 ^ 32 + 2 ^ n); lia).
    replace ((x - 2 ^ 32) / 2 ^ (n - 1)) with (-1) by (apply Z.div_unique with (x - 2 ^ 32 + 2 ^ (n - 1)); lia).
    split; reflexivity.
  - assert (x < 2 ^ 31).
    { destruct (Z.ltb_spec x (2 ^ 31)); [lia|]. symmetry in Hb. apply Z.eqb_neq in Hb.
      replace (x / 2 ^ 31) with 1 in Hb by (apply Z.div_unique with (x - 2 ^ 31); lia). contradiction. }
    rewrite !Z.div_small by lia. split; reflexivity.
Qed.

Lemma lsl_far x n : 32 <= n -> u32 (Z.shiftl x n) = 0.
Proof.
  intros. apply Z.bits_inj'. intros i Hi. rewrite testbit_uwrap, Z.bits_0 by lia.
  destruct (Z.ltb_spec i 32); [|reflexivity]. rewrite Z.shiftl_spec_low by lia. reflexivity.
Qed.

Lemma lsr_far x n : 0 <= x < 2 ^ 32 -> 32 <= n -> Z.shiftr x n = 0.
Proof.
  intros. rewrite Z.shiftr_div_pow2 by lia. apply Z.div_small.
  assert (2 ^ 32 <= 2 ^ n) by (apply Z.pow_le_mono_r; lia). lia.
Qed.

Lemma rotate_bit x n : 0 <= x < 2 ^ 32 -> 0 < n < 32 -> getBit (RotateRight n x) 31 = getBit x (n - 1).
Proof.
  intros Hx Hn. unfold getBit, RotateRight, lsr_w, lsl_w.
  rewrite (Z.mod_small n), (Z.mod_small (32 - n)) by lia.
  rewrite Z.lor_spec, testbit_uwrap, Z.shiftr_spec, Z.shiftl_spec by lia.
  rewrite (testbit_high 32 x) by lia. cbn [orb]. change (31 <? 32) with true. cbn [andb]. f_equal. lia.
Qed.

Lemma shift_imm_code x type imm5 carry : word x -> 0 <= type < 4 -> 0 <= imm5 < 32 ->
  shift_imm x type imm5 carry =
    match type with
    | 0 => if imm5 =? 0 then (x, carry) else (lsl_w x imm5, getBit x (32 - imm5))
    | 1 => if imm5 =? 0 then (0, getBit x 31) else (lsr_w x imm5, getBit x (imm5 - 1))
    | 2 => if imm5 =? 0 then (if getBit x 31 then 0xFFFFFFFF else 0, getBit x 31)
           else (ArithmeticShiftRight imm5 x, getBit x (imm5 - 1))
    | _ => if imm5 =? 0 then (or_bit (lsr_w x 1) 31 carry, getBit x 0)
           else (RotateRight imm5 x, getBit x (imm5 - 1))
    end.
Proof.
  intros Hx Ht Hi. unfold shift_imm, DecodeImmShift, lsl_w, lsr_w, ArithmeticShiftRight, getBit.
  assert (Ht' : type = 0 \/ type = 1 \/ type = 2 \/ type = 3) by lia.
  destruct (Z.eqb_spec imm5 0) as [->|Hn].
  - destruct Ht' as [->|[->|[->| ->]]]; cbn [Shift_C Z.eqb]; try reflexivity.
    + rewrite lsr_far by lia. reflexivity.
    + destruct (asr_far x 32 Hx ltac:(lia)) as [-> ->]. reflexivity.
    + unfold or_bit. destruct carry; rewrite ?Z.lor_0_r; reflexivity.
  - assert (Hz : imm5 =? 0 = false) by lia. destruct Ht' as [->|[->|[->| ->]]];
      unfold Shift_C; rewrite Hz, ?(Z.mod_small imm5) by lia; try reflexivity.
    + rewrite Z.shiftl_spec by lia. reflexivity.
    + rewrite s32_testbit by lia. reflexivity.
    + rewrite <- rotate_bit by lia. unfold RotateRight, lsr_w, lsl_w, getBit.
      rewrite ?(Z.mod_small imm5), ?(Z.mod_small (32 - imm5)) by lia. reflexivity.
Qed.

Lemma shift_reg_code x type a carry : word x -> 0 <= type < 4 -> 0 <= a < 256 ->
  Shift_C x (shift_type type) (amount_used type a) carry =
    if a =? 0 then (x, carry) else
    match type with
    | 0 => if a <? 32 then (lsl_w x a, getBit x (32 - a)) else if a =? 32 then (0, getBit x 0) else (0, false)
    | 1 => if a <? 32 then (lsr_w x a, getBit x (a - 1)) else if a =? 32 then (0, getBit x 31) else (0, false)
    | 2 => if a <? 32 then (ArithmeticShiftRight a x, getBit x (a - 1))
           else (if getBit x 31 then 0xFFFFFFFF else 0, getBit x 31)
    | _ => if Z.land a 0xF =? 0 then (x, getBit x 31)
           else (RotateRight (Z.land a 0xF) x, getBit x (Z.land a 0xF - 1))
    end.
Proof.
  intros Hx Ht Ha. unfold amount_used, lsl_w, lsr_w, ArithmeticShiftRight, getBit.
  assert (Hr : 0 <= Z.land a 0xF < 16).
  { change 0xF with (Z.ones 4). rewrite Z.land_ones by lia. apply Z.mod_pos_bound. lia. }
  assert (Ht' : type = 0 \/ type = 1 \/ type = 2 \/ type = 3) by lia.
  destruct (Z.eqb_spec a 0) as [->|Hn].
  { rewrite andb_false_r. destruct Ht' as [->|[->|[->| ->]]]; reflexivity. }
  destruct Ht' as [->|[->|[->| ->]]]; cbn [Z.eqb Pos.eqb andb negb shift_type]; unfold Shift_C.
  4: { destruct (Z.eqb_spec (Z.land a 0xF) 0) as [_|Hq].
       - change (32 =? 0) with false. cbn iota. change (32 mod 32) with 0. rewrite Z.sub_0_r, Z.shiftr_0_r, lsl_far by lia.
         rewrite Z.lor_0_r. reflexivity.
       - replace (Z.land a 0xF =? 0) with false by lia. rewrite <- rotate_bit by lia.
         unfold RotateRight, lsr_w, lsl_w, getBit.
         rewrite ?(Z.mod_small (Z.land a 0xF)), ?(Z.mod_small (32 - Z.land a 0xF)) by lia. reflexivity. }
  all: replace (a =? 0) with false by lia; destruct (Z.ltb_spec a 32); rewrite ?(Z.mod_small a) by lia.
  - rewrite Z.shiftl_spec by lia. reflexivity.
  - rewrite lsl_far, Z.shiftl_spec by lia. destruct (Z.eqb_spec a 32) as [->|]; [reflexivity|].
    rewrite Z.testbit_neg_r by lia. reflexivity.
  - reflexivity.
  - rewrite lsr_far by lia. destruct (Z.eqb_spec a 32) as [->|]; [reflexivity|].
    rewrite (testbit_high 32 x) by lia. reflexivity.
  - rewrite s32_testbit by lia. reflexivity.
  - destruct (asr_far x a Hx ltac:(lia)) as [-> ->]. reflexivity.
Qed.

Lemma imm_rotation_code imm8 rotate carry : 0 <= imm8 < 256 -> 0 <= rotate < 16 ->
  Shift_C imm8 SRType_ROR (2 * rotate) carry =
    let op := Z.lor (lsr_w imm8 (2 * rotate)) (lsl_w imm8 (32 - 2 * rotate)) in
    (op, if rotate =? 0 then carry else getBit op 31).
Proof.
  intros Hi Hr. unfold Shift_C, lsr_w, lsl_w, getBit. destruct (Z.eqb_spec rotate 0) as [->|].
  - change (2 * 0) with 0. change ((32 - 0) mod 32) with 0. change (0 mod 32) with 0. change (0 =? 0) with true. cbn iota zeta.
    rewrite Z.shiftr_0_r, Z.shiftl_0_r, u32_id, Z.lor_diag by lia. reflexivity.
  - replace (2 * rotate =? 0) with false by lia. rewrite (Z.mod_small (2 * rotate)), (Z.mod_small (32 - 2 * rotate)) by lia.
    reflexivity.
Qed.

Lemma low_nibble v : Z.land v 0xF = Z.land (u8 v) 0xF.
Proof. change 0xF with (Z.ones 4). apply Z.bits_inj'. intros i Hi. rewrite !Z.land_spec, testbit_uwrap, !testbit_ones by lia.
  destruct (Z.ltb_spec i 4); rewrite ?andb_false_r; [|reflexivity]. replace (i <? 8) with true by lia. reflexivity.
Qed.

Lemma low_four_bits a : Z.testbit a 4 = false -> a mod 32 = Z.land a 0xF.
Proof.
  intros H. change 32 with (2 ^ 5). rewrite <- Z.land_ones by lia. change 0xF with (Z.ones 4).
  apply Z.bits_inj'. intros i Hi. rewrite !Z.land_spec, !testbit_ones by lia.
  destruct (Z.eqb_spec i 4) as [->|]; [rewrite H; reflexivity|]. f_equal. lia.
Qed.

Lemma amount_used_reference x type a carry : type <> 3 \/ Z.testbit a 4 = false ->
  Shift_C x (shift_type type) (amount_used type a) carry = Shift_C x (shift_type type) a carry.
Proof.
  intros Hc. unfold amount_used. destruct (Z.eqb_spec type 3) as [->|]; [|reflexivity].
  destruct Hc as [Hc|Hc]; [contradiction|]. destruct (Z.eqb_spec a 0) as [->|]; [reflexivity|].
  cbn [andb negb]. apply low_four_bits in Hc. unfold shift_type, Shift_C.
  destruct (Z.eqb_spec (Z.land a 0xF) 0) as [Hz|Hz].
  - replace (a =? 0) with false by lia. change (32 =? 0) with false. rewrite Hc, Hz. reflexivity.
  - replace (a =? 0) with false by lia. replace (Z.land a 0xF =? 0) with false by lia.
    rewrite <- Hc, Zmod_mod. reflexivity.
Qed.

(** The operand of the immediate-shift format, the PC being 8 ahead. *)
Definition dpi1_operand (c : core) (rm : Z) : Z := if rm =? 15 then add_w (RB_read c rm) 4 else RB_read c rm.

(** C13. The shifter operand: for every shift type and amount the three
    data-processing formats leave the operand and carry of the architecture's
    shift functions and change nothing else; the register-shift format is
    annulled when it names the PC, and rotates by the low four bits of its
    amount, which is the architecture's rotation exactly for the amounts whose
    bit 4 is clear.  The scaled index of loads and stores is the result of the
    same immediate shift. *)
Theorem shifter_operand_architecture c type imm5 rm rn rd rs rotate imm8 x :
  wf_core c -> 0 <= type < 4 -> 0 <= imm5 < 32 -> 0 <= rotate < 16 -> 0 <= imm8 < 256 -> word x ->
  let carry := flag_C (flags c) in
  let put r := put_shiftop (fst r) (snd r) c in
  let amount := u8 (RB_read c rs) in
  Type_DPI1 imm5 type rm c = put (shift_imm (dpi1_operand c rm) type imm5 carry) /\
  Type_DPI2 rn rd rs type rm c =
    (if existsb (Z.eqb 15) [rd; rm; rn; rs] then Annul c
     else Next (put (Shift_C (RB_read c rm) (shift_type type) (amount_used type amount) carry))) /\
  (type <> 3 \/ Z.testbit amount 4 = false ->
    Shift_C x (shift_type type) (amount_used type amount) carry = Shift_C x (shift_type type) amount carry) /\
  Type_DPI3 rotate imm8 c = put (Shift_C imm8 SRType_ROR (2 * rotate) carry) /\
  lsr_index imm5 type x carry = fst (shift_imm x type imm5 carry).
Proof.
  intros W Ht Hi Hr H8 Hx carry put amount.
  assert (Ha : 0 <= amount < 256) by (apply (uwrap_range 8); lia).
  assert (H1 : word (dpi1_operand c rm)).
  { unfold dpi1_operand. destruct (rm =? 15); [apply u32_word|apply RB_read_word, W]. }
  assert (H2 := RB_read_word c rm W).
  assert (Ht' : type = 0 \/ type = 1 \/ type = 2 \/ type = 3) by lia.
  repeat split.
  - rewrite shift_imm_code by assumption. unfold Type_DPI1. fold (dpi1_operand c rm).
    destruct Ht' as [->|[->|[->| ->]]]; destruct (imm5 =? 0); reflexivity.
  - rewrite shift_reg_code by assumption. unfold Type_DPI2. cbn [existsb].
    rewrite !(Z.eqb_sym 15), !orb_assoc, orb_false_r. destruct (_ || _); [reflexivity|]. f_equal.
    fold amount. destruct (_ =? 0); [reflexivity|]. unfold put. rewrite (low_nibble (RB_read c rs)). fold amount.
    destruct Ht' as [->|[->|[->| ->]]];
      repeat match goal with |- context [if ?b then _ else _] => destruct b end; reflexivity.
  - apply amount_used_reference.
  - rewrite imm_rotation_code by assumption. reflexivity.
  - rewrite shift_imm_code by assumption. unfold lsr_index.
    destruct Ht' as [->|[->|[->| ->]]]; destruct (imm5 =? 0); try reflexivity.
    cbn [fst]. unfold or_bit, setBit. destruct carry; [rewrite Z.lor_0_l; apply Z.lor_comm|apply Z.lor_0_l].
Qed.

Lemma shifter_operand_architecture_witness :
  Type_DPI1 4 0 2 (sample_core USER_MODE) = put_shiftop (102 * 16) false (sample_core USER_MODE).
Proof.
  destruct (shifter_operand_architecture (sample_core USER_MODE) 0 4 2 0 0 0 0 0 0) as [H _];
    [apply sample_wf; unfold USER_MODE; lia|lia|lia|lia|lia|lia|]. exact H.
Defined.
