(* ===== verification/ArmData.v ===== *)
(** * Data-processing, multiply and bit-field instructions of the ARM core

    The functions of [src/armv7/src/arm_isa.cpp] that work on registers and
    flags only.  A function whose body can [return] early without updating
    [ac_pc] does so here. *)
From S2P Require Import Prelude ArmCore ArmFormats.

(** [ac_pc = RB_read(PC)]. *)
Definition sync_pc (c : core) : core := set_pc (RB_read c PC) c.

Definition user_or_system (c : core) : bool := (mode_of c =? USER_MODE) || (mode_of c =? SYSTEM_MODE).

(** The end of the functions that write [rd] and can return from an exception. *)
Definition finish (rd : Z) (s : bool) (update : core -> core) (c : core) : core :=
  if s && (rd =? PC) then if user_or_system c then c else sync_pc (SPSRtoCPSR c)
  else sync_pc (if s then update c else c).

(** [RN2], with 4 more when it is the PC. *)
Definition read_rn (c : core) (rn : Z) : Z := if rn =? PC then add_w (RB_read c rn) 4 else RB_read c rn.

(** The expression the functions use for the overflow flag of a sum. *)
Definition overflow (a b r : Z) : bool :=
  (getBit a 31 && getBit b 31 && negb (getBit r 31))
  || (negb (getBit a 31) && negb (getBit b 31) && getBit r 31).

(** [soma.reg[0]] and [soma.reg[1]] of a 64-bit sum. *)
Definition lo32 (x : Z) : Z := u32 x.
Definition hi32 (x : Z) : Z := u32 (Z.shiftr x 32).

Definition sum_flags (a b soma : Z) : core -> core :=
  set_NZCV (getBit (lo32 soma) 31) (lo32 soma =? 0) (negb (hi32 soma =? 0)) (overflow a b (lo32 soma)).

(** Flags of [a - b] computed with [neg] for [- b]; the carry compares [a] and [b]. *)
Definition difference_flags (a neg b r : Z) : core -> core :=
  set_NZCV (getBit r 31) (r =? 0) (negb (a <? b)) (overflow a neg r).

Definition logic_flags (r : Z) (c : core) : core := set_NZC (getBit r 31) (r =? 0) (dpi_shiftopcarry c) c.

(** ** Sums and differences *)

Definition ADC (rd rn : Z) (s : bool) (c : core) : core :=
  let RN2 := read_rn c rn in
  let op := dpi_shiftop c in
  let soma := u64 (RN2 + op + (if flag_C (flags c) then 1 else 0)) in
  let c := RB_write rd (lo32 soma) c in
  if s && (rd =? PC) then c
  else sync_pc (if s then sum_flags RN2 op soma c else c).

Definition ADD (rd rn : Z) (s : bool) (c : core) : core :=
  let RN2 := read_rn c rn in
  let op := dpi_shiftop c in
  let soma := u64 (RN2 + op) in
  finish rd s (sum_flags RN2 op soma) (RB_write rd (lo32 soma) c).

Definition SUB (rd rn : Z) (s : bool) (c : core) : core :=
  let RN2 := read_rn c rn in
  let op := dpi_shiftop c in
  let neg_shiftop := neg_w op in
  let RD2 := lo32 (u64 (RN2 + neg_shiftop)) in
  finish rd s (difference_flags RN2 neg_shiftop op RD2) (RB_write rd RD2 c).

Definition SBC (rd rn : Z) (s : bool) (c : core) : core :=
  let RN2 := read_rn c rn in
  let op := dpi_shiftop c in
  let neg_shiftop := if flag_C (flags c) then neg_w op else sub_w (neg_w op) 1 in
  let RD2 := lo32 (u64 (RN2 + neg_shiftop)) in
  finish rd s (difference_flags RN2 neg_shiftop op RD2) (RB_write rd RD2 c).

Definition RSB (rd rn : Z) (s : bool) (c : core) : core :=
  let RN2 := read_rn c rn in
  let op := dpi_shiftop c in
  let neg_RN2 := neg_w RN2 in
  let RD2 := lo32 (u64 (op + neg_RN2)) in
  finish rd s (difference_flags op neg_RN2 RN2 RD2) (RB_write rd RD2 c).

Definition RSC (rd rn : Z) (s : bool) (c : core) : core :=
  let RN2 := read_rn c rn in
  let op := dpi_shiftop c in
  let neg_RN2 := if flag_C (flags c) then neg_w RN2 else sub_w (neg_w RN2) 1 in
  let RD2 := lo32 (u64 (op + neg_RN2)) in
  finish rd s (difference_flags op neg_RN2 RN2 RD2) (RB_write rd RD2 c).

Definition CMN (rn : Z) (c : core) : core :=
  let RN2 := RB_read c rn in
  let op := dpi_shiftop c in
  sync_pc (sum_flags RN2 op (u64 (RN2 + op)) c).

Definition CMP (rn : Z) (c : core) : core :=
  let RN2 := RB_read c rn in
  let op := dpi_shiftop c in
  let neg_shiftop := neg_w op in
  sync_pc (difference_flags RN2 neg_shiftop op (lo32 (u64 (RN2 + neg_shiftop))) c).

(** ** Logic and moves *)

Definition AND (rd rn : Z) (s : bool) (c : core) : core :=
  let RD2 := Z.land (RB_read c rn) (dpi_shiftop c) in
  finish rd s (logic_flags RD2) (RB_write rd RD2 c).

Definition EOR (rd rn : Z) (s : bool) (c : core) : core :=
  let RD2 := Z.lxor (RB_read c rn) (dpi_shiftop c) in
  finish rd s (logic_flags RD2) (RB_write rd RD2 c).

Definition ORR (rd rn : Z) (s : bool) (c : core) : core :=
  let RD2 := Z.lor (RB_read c rn) (dpi_shiftop c) in
  finish rd s (logic_flags RD2) (RB_write rd RD2 c).

Definition BIC (rd rn : Z) (s : bool) (c : core) : core :=
  let RD2 := Z.land (RB_read c rn) (not32 (dpi_shiftop c)) in
  finish rd s (logic_flags RD2) (RB_write rd RD2 c).

Definition MVN (rd : Z) (s : bool) (c : core) : core :=
  let RD2 := not32 (dpi_shiftop c) in
  finish rd s (logic_flags RD2) (RB_write rd RD2 c).

Definition TEQ (rn : Z) (c : core) : core := sync_pc (logic_flags (Z.lxor (RB_read c rn) (dpi_shiftop c)) c).
Definition TST (rn : Z) (c : core) : core := sync_pc (logic_flags (Z.land (RB_read c rn) (dpi_shiftop c)) c).

(** With [s] and the PC the flags restored from the SPSR are set again. *)
Definition MOV (rd : Z) (s : bool) (c : core) : core :=
  if s && (rd =? PC) && user_or_system c then c else
  let c := if s && (rd =? PC) then SPSRtoCPSR c else c in
  let c := if s then logic_flags (dpi_shiftop c) c else c in
  sync_pc (RB_write rd (dpi_shiftop c) c).

Definition MOVT (rd : Z) (s : bool) (c : core) : core :=
  let tmp := Z.land (RB_read c rd) 0xFFFF in
  MOV rd s (set_shiftop (Z.lor (lsl_w (dpi_shiftop c) 16) tmp) c).

(** ** Bit fields *)

(** [for (i = 0; i < width; i++) mask = (mask << 1) | 1]. *)
Definition ones_mask (width : Z) : Z := Nat.iter (Z.to_nat width) (fun m => Z.lor (lsl_w m 1) 1) 0.

Definition BFI (rd rn lsb msb : Z) (c : core) : core :=
  let dest := RB_read c rd in
  let mask := lsl_w (ones_mask (msb - lsb + 1)) lsb in
  let orig := if rn =? 0x0F then 0 else RB_read c rn in
  RB_write rd (Z.lor (Z.land dest (not32 mask)) (Z.land mask orig)) c.

(** [for (i = lsb; i <= msb; i++) setBit(mask, i)]. *)
Definition range_bits (lsb msb : Z) : Z :=
  fold_left (fun mask k => setBit mask ((lsb + Z.of_nat k) mod 32)) (seq 0 (Z.to_nat (msb - lsb + 1))) 0.

Definition UBFX (rd rn lsb width : Z) (c : core) : core :=
  let msb := u32 (lsb + width - 1) in
  let mask := range_bits lsb msb in
  RB_write rd (lsr_w (Z.land (RB_read c rn) mask) lsb) c.

Definition SBFX (rd rn lsb width : Z) (c : core) : core :=
  let msb := u32 (lsb + width - 1) in
  let mask := range_bits lsb msb in
  RB_write rd (SignExtend (lsr_w (Z.land (RB_read c rn) mask) lsb) msb) c.

Definition UXTB (rd rm : Z) (c : core) : core :=
  if (rd =? 15) || (rm =? 15) then c else RB_write rd (Z.land (dpi_shiftop c) 0xFF) c.
Definition UXTH (rd rm : Z) (c : core) : core :=
  if (rd =? 15) || (rm =? 15) then c else RB_write rd (Z.land (dpi_shiftop c) 0xFFFF) c.
Definition SXTH (rd rm : Z) (c : core) : core :=
  if (rd =? 15) || (rm =? 15) then c else RB_write rd (SignExtend (Z.land (dpi_shiftop c) 0xFFFF) 16) c.

Definition REV (rd rm : Z) (c : core) : core :=
  let rm_r := RB_read c rm in
  if (rd =? 15) || (rm =? 15) then c else
  let aux := Z.lor (Z.lor (Z.lor (lsl_w (Z.land rm_r 0xFF) 24)
                                 (lsl_w (Z.land rm_r (Z.shiftl 0xFF 8)) 8))
                          (lsr_w (Z.land rm_r (Z.shiftl 0xFF 16)) 8))
                   (lsr_w (Z.land rm_r (Z.shiftl 0xFF 24)) 24) in
  RB_write rd aux c.

(** [while ((i>=0)&&(!isBitSet(RM2.entire,i))) i--], from [i = n - 1]. *)
Fixpoint last_set_bit (n : nat) (v : Z) : Z :=
  match n with
  | O => -1
  | S n => if getBit v (Z.of_nat n) then Z.of_nat n else last_set_bit n v
  end.

Definition CLZ (rd rm : Z) (c : core) : core :=
  if ((rd =? PC) || (rm =? PC)) && user_or_system c then c else
  let c := if (rd =? PC) || (rm =? PC) then SPSRtoCPSR c else c in
  let RM2 := RB_read c rm in
  let RD2 := if RM2 =? 0 then 32 else 31 - last_set_bit 32 RM2 in
  sync_pc (RB_write rd RD2 c).

Definition PKH (rd rn rm : Z) (tb : bool) (c : core) : core :=
  if (rd =? PC) || (rn =? PC) || (rm =? PC) then c else
  let dest :=
    if tb then Z.lor (Z.land (dpi_shiftop c) 0xFFFF) (Z.land (bank_read c rn) 0xFFFF0000)
    else Z.lor (Z.land (bank_read c rn) 0xFFFF) (Z.land (dpi_shiftop c) 0xFFFF0000) in
  RB_write rd dest c.

(** ** Multiplication *)

Definition MUL (rd rm rs : Z) (s : bool) (c : core) : core :=
  let RD2 := u32 (RB_read c rm * RB_read c rs) in
  let c := if s then set_NZ (getBit RD2 31) (RD2 =? 0) c else c in
  sync_pc (RB_write rd RD2 c).

Definition MLA (rd rn rm rs : Z) (s : bool) (c : core) : core :=
  let RN2 := RB_read c rn in
  let RM2 := RB_read c rm in
  let RS2 := RB_read c rs in
  if (rd =? PC) || (rm =? PC) || (rs =? PC) || (rn =? PC) then c else
  let RD2 := u32 (RM2 * RS2 + RN2) in
  let c := if s then set_NZ (getBit RD2 31) (RD2 =? 0) c else c in
  sync_pc (RB_write rd RD2 c).

Definition MLS (rd ra rm rn : Z) (c : core) : core :=
  if (rd =? PC) || (ra =? PC) || (rm =? PC) || (rn =? PC) then c else
  RB_write rd (u32 (bank_read c ra - bank_read c rm * bank_read c rn)) c.

(** The end of the four long multiplications: both halves, then the flags. *)
Definition write_long (rdhi rdlo : Z) (s : bool) (result : Z) (c : core) : core :=
  let c := RB_write rdlo (lo32 result) (RB_write rdhi (hi32 result) c) in
  sync_pc (if s then set_NZ (getBit (hi32 result) 31) (u64 result =? 0) c else c).

Definition long_clash (rdhi rdlo rm rs : Z) : bool :=
  (rdhi =? PC) || (rdlo =? PC) || (rm =? PC) || (rs =? PC) || (rdhi =? rdlo).

(** [acc.reg[0]], [acc.reg[1]]. *)
Definition acc_of (c : core) (rdhi rdlo : Z) : Z := Z.shiftl (RB_read c rdhi) 32 + RB_read c rdlo.

Definition SMULL (rdhi rdlo rm rs : Z) (s : bool) (c : core) : core :=
  let RM2 := RB_read c rm in
  let RS2 := RB_read c rs in
  if long_clash rdhi rdlo rm rs then c
  else write_long rdhi rdlo s (u64 (s32 RM2 * s32 RS2)) c.

Definition UMULL (rdhi rdlo rm rs : Z) (s : bool) (c : core) : core :=
  let RM2 := RB_read c rm in
  let RS2 := RB_read c rs in
  if long_clash rdhi rdlo rm rs then c
  else write_long rdhi rdlo s (u64 (RM2 * RS2)) c.

Definition SMLAL (rdhi rdlo rm rs : Z) (s : bool) (c : core) : core :=
  let RM2 := RB_read c rm in
  let RS2 := RB_read c rs in
  let acc := acc_of c rdhi rdlo in
  if long_clash rdhi rdlo rm rs || (rdhi =? rm) || (rdlo =? rm) then c
  else write_long rdhi rdlo s (u64 (s32 RM2 * s32 RS2 + s64 acc)) c.

Definition UMLAL (rdhi rdlo rm rs : Z) (s : bool) (c : core) : core :=
  let RM2 := RB_read c rm in
  let RS2 := RB_read c rs in
  let acc := acc_of c rdhi rdlo in
  if long_clash rdhi rdlo rm rs || (rdhi =? rm) || (rdlo =? rm) then c
  else write_long rdhi rdlo s (u64 (RM2 * RS2 + acc)) c.

(** The 16-bit operands are those [Type_DSPSM] has left. *)
Definition DSMLA (rd rn : Z) (c : core) : core :=
  RB_write rd (u32 (s32 (OP1 c) * s32 (OP2 c) + RB_read c rn)) c.
Definition DSMUL (rd : Z) (c : core) : core := RB_write rd (u32 (s32 (OP1 c) * s32 (OP2 c))) c.

(** ** Branches *)

Definition B (h offset : Z) (c : core) : core :=
  let c := if h =? 1 then RB_write LR (RB_read c PC) c else c in
  let s_extend := SignExtend (u32 (Z.shiftl offset 2)) 26 in
  let mem_pos := add_w (add_w (RB_read c PC) 4) s_extend in
  sync_pc (RB_write PC mem_pos c).

(** The test is on the number of the register. *)
Definition BX (rm : Z) (c : core) : flow core core :=
  if getBit rm 0 then Stop 0
  else Next (set_pc (Z.land (RB_read c rm) 0xFFFFFFFE) (set_T (getBit rm 0) c)).

Definition behavior_blx2 (rm : Z) (c : core) : flow core core :=
  let dest := RB_read c rm in
  if getBit dest 0 then Stop 1
  else
    let c := RB_write LR (RB_read c PC) c in
    let c := set_T (getBit rm 0) c in
    Next (sync_pc (RB_write PC (Z.land dest 0xFFFFFFFE) c)).

(** ** Status registers *)

Definition MRS (rd : Z) (r : bool) (zero3 subop2 func2 subop1 rm field : Z) (c : core) : core :=
  if (rd =? PC)
     || (negb (zero3 =? 0) && negb (subop2 =? 0) && negb (func2 =? 0) && negb (subop1 =? 0) && negb (rm =? 0))
     || negb (field =? 15) then c
  else if r && match getPrivilegeLevel (arm_proc_mode c) with PL0 => true | PL1 => false end then c
  else sync_pc (RB_write rd (if r then readSPSR c else readCPSR c) c).

(** [res &= ~mask; res |= (in & mask)] when the bit of the field mask is set. *)
Definition msr_field (fieldmask k mask src res : Z) : Z :=
  if getBit fieldmask k then Z.lor (Z.land res (not32 mask)) (Z.land src mask) else res.

(** The common part of [msr1] and [msr2], [src] being the source operand. *)
Definition msr (r : bool) (fieldmask src : Z) (c : core) : core :=
  if r then
    let res := readSPSR c in
    let res := msr_field fieldmask 0 0xFF src res in
    let res := msr_field fieldmask 1 0xFF00 src res in
    let res := msr_field fieldmask 2 0xFF0000 src res in
    let res := msr_field fieldmask 3 0xFF000000 src res in
    writeSPSR res c
  else
    let res := readCPSR c in
    let res := match getPrivilegeLevel (arm_proc_mode c) with
               | PL1 =>
                   let res := msr_field fieldmask 0 0xFF src res in
                   let res := msr_field fieldmask 1 0xFF00 src res in
                   msr_field fieldmask 2 0xFF0000 src res
               | PL0 => res
               end in
    let res := msr_field fieldmask 3 0xFF000000 src res in
    writeCPSR res c.

Definition behavior_msr1 (r : bool) (fieldmask rm : Z) (c : core) : core := msr r fieldmask (RB_read c rm) c.
Definition behavior_msr2 (r : bool) (fieldmask rotate imm8 : Z) (c : core) : core :=
  msr r fieldmask (RotateRight (rotate * 2) imm8) c.
