(* ===== verification/ArmMem.v ===== *)
(** * Loads, stores and swaps of the ARM core

    The functions of [src/armv7/src/arm_isa.cpp] that use the memory port, as
    built with [UNALIGNED_ACCESS_SUPPORT] (defines.H).  The port is an
    interface: what the core promises is proved against [MemPort], and the MMU,
    bus and memories implement it. *)
From S2P Require Import Prelude ArmCore ArmFormats ArmData.

(** An access is given the core, to which the bus has a port of its own, and
    can end the simulation. *)
Class MemPort (mem : Type) := {
  MEM_read : Z -> core * mem -> flow (core * mem) (Z * (core * mem));
  MEM_read_byte : Z -> core * mem -> flow (core * mem) (Z * (core * mem));
  MEM_write : Z -> Z -> core * mem -> flow (core * mem) (core * mem);
  MEM_write_half : Z -> Z -> core * mem -> flow (core * mem) (core * mem);
  MEM_write_byte : Z -> Z -> core * mem -> flow (core * mem) (core * mem)
}.

Section Mem.
Context {mem : Type} `{!MemPort mem}.
Notation machine := (core * mem)%type.
Notation step := (machine -> flow machine machine).

Definition on_core (f : core -> core) (m : machine) : machine := (f m.1, m.2).

Definition reg (m : machine) (r : Z) : Z := RB_read m.1 r.
Definition addr (m : machine) : Z := ls_address m.1.
Definition done (m : machine) : flow machine machine := Next (on_core sync_pc m).

(** [ls_address.entire += 4]. *)
Definition next_word : machine -> machine := on_core (fun c => set_ls_address (add_w (ls_address c) 4) c).

(** ** Single registers *)

Definition LDR (rd : Z) : step := fun m =>
  '(value, m) ← MEM_read (addr m) m;
  if rd =? PC then
    done (on_core (fun c => set_T (getBit value 0) (RB_write PC (Z.land value 0xFFFFFFFE) c)) m)
  else done (on_core (RB_write rd value) m).

Definition LDRB (rd : Z) : step := fun m =>
  '(value, m) ← MEM_read_byte (addr m) m;
  done (on_core (RB_write rd (u8 value)) m).

Definition LDRBT (rd : Z) : step := fun m =>
  '(value, m) ← MEM_read_byte (addr m) m;
  done (on_core (RB_write rd (u8 value)) m).

Definition LDRD (rd : Z) : step := fun m =>
  '(value1, m) ← MEM_read_byte (addr m) m;
  '(value2, m) ← MEM_read_byte (add_w (addr m) 4) m;
  if getBit rd 0 then Next m
  else if (rd =? LR) || negb (Z.land (addr m) 0x7 =? 0) then Next m
  else done (on_core (fun c => RB_write (rd + 1) value2 (RB_write rd value1 c)) m).

Definition LDRH (rd : Z) : step := fun m =>
  '(value, m) ← MEM_read (addr m) m;
  done (on_core (RB_write rd (Z.land value 0xFFFF)) m).

Definition LDRSB (rd : Z) : step := fun m =>
  '(data, m) ← MEM_read_byte (addr m) m;
  done (on_core (RB_write rd (SignExtend data 8)) m).

Definition LDRSH (rd : Z) : step := fun m =>
  if getBit (addr m) 0 then Next m else
  '(data, m) ← MEM_read (addr m) m;
  done (on_core (RB_write rd (SignExtend (Z.land data 0xFFFF) 16)) m).

(** The value read is not written to the register in this configuration. *)
Definition LDRT (rd : Z) : step := fun m =>
  '(value, m) ← MEM_read (addr m) m;
  done m.

Definition STR (rd : Z) : step := fun m => m ← MEM_write (addr m) (reg m rd) m; done m.
Definition STRT (rd : Z) : step := fun m => m ← MEM_write (addr m) (reg m rd) m; done m.
Definition STRB (rd : Z) : step := fun m => m ← MEM_write_byte (addr m) (u8 (reg m rd)) m; done m.
Definition STRBT (rd : Z) : step := fun m => m ← MEM_write_byte (addr m) (u8 (reg m rd)) m; done m.

Definition STRH (rd : Z) : step := fun m =>
  if getBit (addr m) 0 then Next m else
  m ← MEM_write_half (addr m) (Z.land (reg m rd) 0xFFFF) m; done m.

Definition STRD (rd : Z) : step := fun m =>
  if getBit rd 0 then Next m
  else if (rd =? LR) || negb (Z.land (addr m) 0x7 =? 0) then Next m
  else
    m ← MEM_write (addr m) (reg m rd) m;
    m ← MEM_write (add_w (addr m) 4) (reg m (rd + 1)) m;
    done m.

(** ** Several registers *)

(** One turn of the loop over the register list. *)
Definition load_reg (put : Z -> Z -> core -> core) (rlist : Z) (m : machine) (i : nat) : flow machine machine :=
  if getBit rlist (Z.of_nat i) then
    '(value, m) ← MEM_read (addr m) m;
    Next (next_word (on_core (put (Z.of_nat i) value) m))
  else Next m.

Definition store_reg (get : core -> Z -> Z) (rlist : Z) (m : machine) (i : nat) : flow machine machine :=
  if getBit rlist (Z.of_nat i) then
    m ← MEM_write (addr m) (get m.1 (Z.of_nat i)) m; Next (next_word m)
  else Next m.

Fixpoint for_each (f : machine -> nat -> flow machine machine) (l : list nat) (m : machine) : flow machine machine :=
  match l with [] => Next m | i :: l => m ← f m i; for_each f l m end.

Definition start_list : machine -> machine := on_core (fun c => set_ls_address (lsm_startaddress c) c).

Definition is_PL0 (c : core) : bool := match getPrivilegeLevel (arm_proc_mode c) with PL0 => true | PL1 => false end.

(** The status of [abort()]. *)
Definition SIGABRT : Z := 134.

Definition LDM (rlist : Z) (r : bool) : step := fun m =>
  if negb r then
    m ← for_each (load_reg RB_write rlist) (seq 0 15) (start_list m);
    m ← (if getBit rlist PC then
           '(value, m) ← MEM_read (addr m) m;
           Next (next_word (on_core (RB_write PC (Z.land value 0xFFFFFFFE)) m))
         else Next m);
    done m
  else if is_PL0 m.1 then Stop SIGABRT
  else
    m ← for_each (load_reg (fun i v c => bank_write c i v) rlist) (seq 0 15) (start_list m);
    m ← (if getBit rlist PC then
           '(value, m) ← MEM_read (addr m) m;
           Next (on_core SPSRtoCPSR (next_word (on_core (fun c => bank_write c PC (Z.land value 0xFFFFFFFE)) m)))
         else Next m);
    done m.

Definition STM (rlist : Z) (r : bool) : step := fun m =>
  if negb r then
    m ← for_each (store_reg RB_read rlist) (seq 0 16) (start_list m); done m
  else if is_PL0 m.1 then Stop SIGABRT
  else
    m ← for_each (store_reg bank_read rlist) (seq 0 16) (start_list m); done m.

(** ** Swaps and exclusive accesses *)

Definition swap_clash (rd rn rm : Z) : bool :=
  (rd =? PC) || (rm =? PC) || (rn =? PC) || (rm =? rn) || (rn =? rd).

Definition SWP (rd rn rm : Z) : step := fun m =>
  if swap_clash rd rn rm then Next m else
  let RN2 := reg m rn in
  let RM2 := reg m rm in
  '(word, m) ← MEM_read RN2 m;
  let tmp := match Z.land RN2 0x3 with
             | 0 => word
             | 1 => RotateRight 8 word
             | 2 => RotateRight 16 word
             | _ => RotateRight 24 word
             end in
  m ← MEM_write RN2 RM2 m;
  done (on_core (RB_write rd tmp) m).

Definition SWPB (rd rn rm : Z) : step := fun m =>
  if swap_clash rd rn rm then Next m else
  let RM2 := reg m rm in
  let RN2 := reg m rn in
  '(tmp, m) ← MEM_read_byte RN2 m;
  m ← MEM_write_byte RN2 (u8 RM2) m;
  done (on_core (RB_write rd tmp) m).

Definition behavior_ldrex (rd rn : Z) : step := fun m =>
  LDR rd (on_core (set_ls_address (reg m rn)) m).

Definition behavior_strex (rd rn rt : Z) : step := fun m =>
  m ← STR rt (on_core (set_ls_address (reg m rn)) m);
  Next (on_core (RB_write rd 0) m).
End Mem.
