(* ===== verification/ArmIsa.v ===== *)
(** * The instruction set and the fetch loop of the ARM core

    The instruction behaviours of [src/armv7/src/arm_isa.cpp] (from [and1] on)
    and the loop [arm::behavior] of [arm.cpp], which decodes a word, runs the
    generic behaviour, the behaviour of the format and that of the instruction. *)
From S2P Require Import Prelude ArmCore ArmFormats ArmData ArmMem.

(** The sixteen data-processing operations, each in three formats, and the
    eight word and byte transfers, each in two. *)
Inductive dpi_op :=
  | op_and | op_eor | op_sub | op_rsb | op_add | op_adc | op_sbc | op_rsc
  | op_tst | op_teq | op_cmp | op_cmn | op_orr | op_mov | op_bic | op_mvn.
Inductive ls_op := op_ldrt | op_ldrbt | op_ldr | op_ldrb | op_strt | op_strbt | op_str | op_strb.

Inductive instr :=
  | dpi1 (o : dpi_op) | dpi2 (o : dpi_op) | dpi3 (o : dpi_op)
  | mov4 | movt | nop | pkh | bfi | ubfx | sbfx | uxtb | uxth | sxth | rev
  | blx1 | b | bx | blx2
  | swp | swpb | mla | mul | mls | smlal | smull | umlal | umull
  | ls1 (o : ls_op) | ls2 (o : ls_op)
  | ldrh | ldrsb | ldrsh | strh | ldrd | strd | ldm | stm | strex | ldrex
  | cdp | mcr | mrc | ldc | stc | bkpt | swi | clz | mrs | msr1 | msr2 | smc
  | dsmla | dsmlal | dsmul | dsmlaw | dsmulw.

Definition dpi_ops : list dpi_op :=
  [op_and; op_eor; op_sub; op_rsb; op_add; op_adc; op_sbc; op_rsc;
   op_tst; op_teq; op_cmp; op_cmn; op_orr; op_mov; op_bic; op_mvn].

(** The instructions by number, from 1; number 0 is no instruction. *)
Definition instr_table : list instr :=
  map dpi1 dpi_ops ++ map dpi2 dpi_ops ++ map dpi3 dpi_ops
  ++ [mov4; movt; nop; pkh; bfi; ubfx; sbfx; uxtb; uxth; sxth; rev; blx1; b; bx; blx2;
      swp; swpb; mla; mul; mls; smlal; smull; umlal; umull]
  ++ map ls1 [op_ldrt; op_ldrbt; op_ldr; op_ldrb; op_strt; op_strbt; op_str; op_strb]
  ++ map ls2 [op_ldrt; op_ldrbt; op_ldr; op_ldrb; op_strt; op_strbt; op_str; op_strb]
  ++ [ldrh; ldrsb; ldrsh; strh; ldrd; strd; ldm; stm; strex; ldrex;
      cdp; mcr; mrc; ldc; stc; bkpt; swi; clz; mrs; msr1; msr2; smc;
      dsmla; dsmlal; dsmul; dsmlaw; dsmulw].

Definition instr_of_id (ins_id : Z) : option instr :=
  if ins_id <=? 0 then None else instr_table !! Z.to_nat (ins_id - 1).

(** Coprocessor instructions and the vector base.  [CP_present] is
    [CP[n] != NULL]. *)
Class CoprocPort (mem : Type) := {
  vector_base : mem -> Z;
  CP_present : Z -> bool;
  CP_MCR : Z -> PrivilegeLevel -> Z -> Z -> Z -> Z -> Z -> mem -> mem;
  CP_MRC : Z -> PrivilegeLevel -> Z -> Z -> Z -> Z -> mem -> Z * mem
}.

(** ** Instruction behaviours *)

Definition dpi_behavior (o : dpi_op) (rd rn : Z) (s : bool) : core -> core :=
  match o with
  | op_and => AND rd rn s
  | op_eor => EOR rd rn s
  | op_sub => SUB rd rn s
  | op_rsb => RSB rd rn s
  | op_add => ADD rd rn s
  | op_adc => ADC rd rn s
  | op_sbc => SBC rd rn s
  | op_rsc => RSC rd rn s
  | op_tst => TST rn
  | op_teq => TEQ rn
  | op_cmp => CMP rn
  | op_cmn => CMN rn
  | op_orr => ORR rd rn s
  | op_mov => MOV rd s
  | op_bic => BIC rd rn s
  | op_mvn => MVN rd s
  end.

Section Isa.
Context {mem : Type} `{!MemPort mem} `{!CoprocPort mem}.
Notation machine := (core * mem)%type.
Notation step := (machine -> flow machine machine).

Definition ls_behavior (o : ls_op) (rd : Z) : step :=
  match o with
  | op_ldrt => LDRT rd
  | op_ldrbt => LDRBT rd
  | op_ldr => LDR rd
  | op_ldrb => LDRB rd
  | op_strt => STRT rd
  | op_strbt => STRBT rd
  | op_str => STR rd
  | op_strb => STRB rd
  end.

Definition interrupt (e : exception_type) (m : machine) : machine :=
  on_core (service_interrupt (vector_base m.2) e) m.

Definition MCR (cp_num funcc2 funcc3 crn crm rd : Z) : step := fun m =>
  if rd =? PC then Next m
  else if negb (CP_present cp_num) then Next (interrupt EXCEPTION_UNDEFINED_INSTR m)
  else
    let rd_val := reg m rd in
    Next (m.1, CP_MCR cp_num (getPrivilegeLevel (arm_proc_mode m.1)) funcc2 funcc3 crn crm rd_val m.2).

Definition MRC (cp_num funcc2 funcc3 crn crm rd : Z) : step := fun m =>
  if negb (CP_present cp_num) then Next (interrupt EXCEPTION_UNDEFINED_INSTR m)
  else
    let '(cp_val, mm) := CP_MRC cp_num (getPrivilegeLevel (arm_proc_mode m.1)) funcc2 funcc3 crn crm m.2 in
    let m := (m.1, mm) in
    if negb (rd =? PC) then Next (on_core (RB_write rd cp_val) m)
    else Next (on_core (set_NZCV (getBit cp_val 31) (getBit cp_val 30) (getBit cp_val 29) (getBit cp_val 28)) m).

(** A step of the core alone. *)
Definition pure (f : core -> core) : step := fun m => Next (on_core f m).
Definition core_step (f : core -> flow core core) : step := fun m =>
  match f m.1 with Next c => Next (c, m.2) | Annul c => Annul (c, m.2) | Stop st => Stop st end.
Definition then_ (f g : step) : step := fun m => m ← f m; g m.
Notation "f >> g" := (then_ f g) (at level 55, right associativity).

(** The instructions with several operations on one format.  [F] gives the
    fields of the decoded word by name. *)
Definition run_dpi1 (F : string -> Z) (o : dpi_op) : step :=
  pure (Type_DPI1 (F "shiftamount") (F "shift") (F "rm")) >> pure (dpi_behavior o (F "rd") (F "rn") (F "s" =? 1)).

Definition run_dpi2 (F : string -> Z) (o : dpi_op) : step :=
  core_step (Type_DPI2 (F "rn") (F "rd") (F "rs") (F "shift") (F "rm"))
  >> pure (dpi_behavior o (F "rd") (F "rn") (F "s" =? 1)).

Definition run_dpi3 (F : string -> Z) (o : dpi_op) : step :=
  pure (Type_DPI3 (F "rotate") (F "imm8")) >> pure (dpi_behavior o (F "rd") (F "rn") (F "s" =? 1)).

Definition run_ls1 (F : string -> Z) (o : ls_op) : step :=
  core_step (Type_LSI (F "p") (F "u") (F "w") (F "rn") (F "rd") (F "imm12")) >> ls_behavior o (F "rd").

Definition run_ls2 (F : string -> Z) (o : ls_op) : step :=
  core_step (Type_LSR (F "p") (F "u") (F "w") (F "rn") (F "rd") (F "shiftamount") (F "shift") (F "rm"))
  >> ls_behavior o (F "rd").

Definition run_lse (F : string -> Z) (transfer : Z -> step) : step :=
  core_step (Type_LSE (F "p") (F "u") (F "i") (F "w") (F "rn") (F "rd") (F "addr1") (F "ss") (F "hh") (F "addr2"))
  >> transfer (F "rd").

Definition run_lsm (F : string -> Z) (transfer : Z -> bool -> step) : step :=
  core_step (Type_LSM (F "p") (F "u") (F "w") (F "rn") (F "rlist")) >> transfer (F "rlist") (F "r" =? 1).

(** The behaviour of the format, then that of the instruction. *)
Definition behavior (F : string -> Z) (i : instr) : step :=
  let s := F "s" =? 1 in
  let rd := F "rd" in let rn := F "rn" in let rm := F "rm" in let rs := F "rs" in
  let DPI4 := pure (Type_DPI4 (F "imm4") (F "imm12")) in
  let PCK1 := pure (Type_PCK1 (F "rotate") rm) in
  let DSPSM := pure (Type_DSPSM (F "drd") (F "drn") rs (F "yy") (F "xx") rm) in
  match i with
  | dpi1 o => run_dpi1 F o
  | dpi2 o => run_dpi2 F o
  | dpi3 o => run_dpi3 F o
  | mov4 => DPI4 >> pure (MOV rd s)
  | movt => DPI4 >> pure (MOVT rd s)
  | nop => DPI4
  | pkh => pure (Type_DPI5 (F "shiftamount") (F "tb") rm) >> pure (PKH rd rn rm (negb (F "tb" =? 0)))
  | bfi => pure (BFI rd rn (F "lsb") (F "msb"))
  | ubfx => pure (UBFX rd rn (F "lsb") (F "widthm1" + 1))
  | sbfx => pure (SBFX rd rn (F "lsb") (F "widthm1" + 1))
  | uxtb => PCK1 >> pure (UXTB rd rm)
  | uxth => PCK1 >> pure (UXTH rd rm)
  | sxth => PCK1 >> pure (SXTH rd rm)
  | rev => PCK1 >> pure (REV rd rm)
  | b => pure (B (F "h") (F "offset"))
  | bx => core_step (BX rm)
  | blx2 => core_step (behavior_blx2 rm)
  | swp => SWP rd rn rm
  | swpb => SWPB rd rn rm
  | mla => pure (MLA rn rd rm rs s)
  | mul => pure (MUL rn rm rs s)
  | mls => pure (MLS rn rd rs rm)
  | smlal => pure (SMLAL (F "rdhi") (F "rdlo") rm rs s)
  | smull => pure (SMULL (F "rdhi") (F "rdlo") rm rs s)
  | umlal => pure (UMLAL (F "rdhi") (F "rdlo") rm rs s)
  | umull => pure (UMULL (F "rdhi") (F "rdlo") rm rs s)
  | ls1 o => run_ls1 F o
  | ls2 o => run_ls2 F o
  | ldrh => run_lse F LDRH
  | ldrsb => run_lse F LDRSB
  | ldrsh => run_lse F LDRSH
  | strh => run_lse F STRH
  | ldrd => run_lse F LDRD
  | strd => run_lse F STRD
  | ldm => run_lsm F LDM
  | stm => run_lsm F STM
  | strex => behavior_strex rd rn (F "rt")
  | ldrex => behavior_ldrex rd rn
  | mcr => MCR (F "cp_num") (F "funcc2") (F "funcc3") (F "crn") (F "crm") rd
  | mrc => MRC (F "cp_num") (F "funcc2") (F "funcc3") (F "crn") (F "crm") rd
  | swi => fun m => Next (interrupt EXCEPTION_SWI m)
  | clz => pure (CLZ rd rm)
  | mrs => pure (MRS rd (F "r" =? 1) (F "zero3") (F "subop2") (F "func2") (F "subop1") rm (F "fieldmask"))
  | msr1 => pure (behavior_msr1 (negb (F "r" =? 0)) (F "fieldmask") rm)
  | msr2 => pure (behavior_msr2 (negb (F "r" =? 0)) (F "fieldmask") (F "rotate") (F "imm8"))
  | dsmla => DSPSM >> pure (DSMLA (F "drd") (F "drn"))
  | dsmul => DSPSM >> pure (DSMUL (F "drd"))
  | dsmlal | dsmlaw | dsmulw => DSPSM
  | blx1 | cdp | ldc | stc | bkpt | smc => Next
  end.

(** ** The loop *)

(** [decode]: the decode unit, which fetches the word at an address; it gives
    the number of the instruction and its fields. *)
Context (decode : Z -> machine -> flow machine (Z * (string -> Z) * machine)).

(** The status of [stop()]. *)
Definition STOPPED : Z := 0.

(** One turn of the loop; an annulled instruction goes back to its head. *)
Definition loop_body : step := fun m =>
  let decode_pc := ac_pc m.1 in
  '(ins_id, F, m) ← decode decode_pc m;
  match instr_of_id ins_id with
  | None => Stop STOPPED
  | Some i =>
      let m := on_core (set_pc decode_pc) m in
      m ← core_step (behavior_instruction (F "cond")) m;
      behavior F i m
  end.

(** The state after a turn, [None] when the simulation has ended. *)
Definition next_state (m : machine) : option machine :=
  match loop_body m with Next m => Some m | Annul m => Some m | Stop _ => None end.

Fixpoint run (n : nat) (m : machine) : option machine :=
  match n with O => Some m | S n => m ← next_state m; run n m end.
End Isa.
