(* ===== verification/ArmDataOk.v ===== *)
(** * Data processing against the architecture

    The sixteen data-processing operations against the operation table and the
    function [AddWithCarry] of the architecture, and the comparison of two words
    followed by a conditional instruction. *)
From S2P Require Import Prelude ArmCore ArmFormats ArmData ArmIsa ArmCoreOk ArmFormatsOk.

(** ** The architecture *)

(** Result, carry and overflow of a sum of words. *)
Definition AddWithCarry (x y : Z) (carry_in : bool) : Z * bool * bool :=
  let unsigned_sum := x + y + Z.b2z carry_in in
  let signed_sum := s32 x + s32 y + Z.b2z carry_in in
  let result := u32 unsigned_sum in
  (result, negb (result =? unsigned_sum), negb (s32 result =? signed_sum)).

(** Result, carry and overflow of an operation on [a] and the shifter operand
    [b] with its carry [sc], in a state with the flags [cin] and [v]. *)
Definition architecture (o : dpi_op) (a b : Z) (cin sc v : bool) : Z * bool * bool :=
  match o with
  | op_and | op_tst => (Z.land a b, sc, v)
  | op_eor | op_teq => (Z.lxor a b, sc, v)
  | op_orr => (Z.lor a b, sc, v)
  | op_bic => (Z.land a (not32 b), sc, v)
  | op_mov => (b, sc, v)
  | op_mvn => (not32 b, sc, v)
  | op_add | op_cmn => AddWithCarry a b false
  | op_adc => AddWithCarry a b cin
  | op_sub | op_cmp => AddWithCarry a (not32 b) true
  | op_sbc => AddWithCarry a (not32 b) cin
  | op_rsb => AddWithCarry (not32 a) b true
  | op_rsc => AddWithCarry (not32 a) b cin
  end.

Definition writes (o : dpi_op) : bool :=
  match o with op_tst | op_teq | op_cmp | op_cmn => false | _ => true end.

(** Carry and overflow as the code computes them. *)
Definition code_flags (o : dpi_op) (a b : Z) (cin sc v : bool) : bool * bool :=
  match o with
  | op_add | op_cmn => (negb (hi32 (a + b) =? 0), overflow a b (u32 (a + b)))
  | op_adc => (negb (hi32 (a + b + Z.b2z cin) =? 0), overflow a b (u32 (a + b + Z.b2z cin)))
  | op_sub | op_cmp => (negb (a <? b), overflow a (neg_w b) (u32 (a - b)))
  | op_sbc => (negb (a <? b), overflow a (if cin then neg_w b else sub_w (neg_w b) 1) (u32 (a - b - Z.b2z (negb cin))))
  | op_rsb => (negb (b <? a), overflow b (neg_w a) (u32 (b - a)))
  | op_rsc => (negb (b <? a), overflow b (if cin then neg_w a else sub_w (neg_w a) 1) (u32 (b - a - Z.b2z (negb cin))))
  | _ => (sc, v)
  end.

(** Where the code and the architecture agree on carry and overflow: a
    subtraction without borrow must not subtract the least signed word, and one
    with borrow must not be of equal words. *)
Definition minimum : Z := 2 ^ 31.
Definition flags_exact (o : dpi_op) (a b : Z) (cin : bool) : bool :=
  match o with
  | op_sub | op_cmp => negb (b =? minimum)
  | op_rsb => negb (a =? minimum)
  | op_sbc => if cin then negb (b =? minimum) else negb (a =? b)
  | op_rsc => if cin then negb (a =? minimum) else negb (a =? b)
  | _ => true
  end.

(** ** Arithmetic of words *)

Lemma getBit31 x : word x -> getBit x 31 = (2 ^ 31 <=? x).
Proof.
  intros Hx. unfold getBit. rewrite Z.testbit_eqb by lia.
  destruct (Z.leb_spec (2 ^ 31) x).
  - replace (x / 2 ^ 31) with 1 by (apply Z.div_unique with (x - 2 ^ 31); lia). reflexivity.
  - rewrite Z.div_small by lia. reflexivity.
Qed.

Lemma s32_cases x : word x -> s32 x = if 2 ^ 31 <=? x then x - 2 ^ 32 else x.
Proof. intros Hx. rewrite s32_value by assumption. fold (getBit x 31). rewrite getBit31 by assumption. reflexivity. Qed.

Lemma u32_cases x : - 2 ^ 32 <= x < 2 * 2 ^ 32 ->
  u32 x = if x <? 0 then x + 2 ^ 32 else if x <? 2 ^ 32 then x else x - 2 ^ 32.
Proof.
  intros Hx. unfold uwrap. destruct (Z.ltb_spec x 0); [|destruct (Z.ltb_spec x (2 ^ 32))].
  - symmetry. apply Z.mod_unique with (-1); lia.
  - apply Z.mod_small. lia.
  - symmetry. apply Z.mod_unique with 1; lia.
Qed.

Lemma not32_value x : word x -> not32 x = 2 ^ 32 - 1 - x.
Proof. intros. unfold not32. rewrite (u32_cases (Z.lnot x)) by (unfold Z.lnot; lia). unfold Z.lnot. destruct (Z.ltb_spec (Z.pred (- x)) 0); lia. Qed.

Lemma hi32_carry x : 0 <= x < 2 * 2 ^ 32 -> negb (hi32 x =? 0) = (2 ^ 32 <=? x).
Proof.
  intros Hx. unfold hi32. rewrite Z.shiftr_div_pow2 by lia. destruct (Z.leb_spec (2 ^ 32) x).
  - replace (x / 2 ^ 32) with 1 by (apply Z.div_unique with (x - 2 ^ 32); lia). reflexivity.
  - rewrite Z.div_small by lia. reflexivity.
Qed.

(** Decides a statement about the bits 31 and signed values of words by the
    ranges they are in. *)
Ltac word_cases :=
  repeat match goal with
  | |- context [getBit ?x 31] => rewrite (getBit31 x) by (assumption || apply u32_word || lia)
  | |- context [s32 ?x] => rewrite (s32_cases x) by (assumption || apply u32_word || lia)
  end;
  repeat match goal with
  | |- context [u32 ?x] => rewrite (u32_cases x) by lia
  end;
  repeat match goal with
  | |- context [if ?a <=? ?b then _ else _] => destruct (Z.leb_spec a b); try lia
  end;
  repeat match goal with
  | |- context [?a <? ?b] => destruct (Z.ltb_spec a b); try lia
  | |- context [?a <=? ?b] => destruct (Z.leb_spec a b); try lia
  | |- context [?a =? ?b] => destruct (Z.eqb_spec a b); try lia
  end; try reflexivity; try lia.

Lemma add_overflow x y cin : word x -> word y ->
  overflow x y (u32 (x + y + Z.b2z cin)) = snd (AddWithCarry x y cin).
Proof. intros Hx Hy. unfold overflow, AddWithCarry. cbn [snd]. assert (0 <= Z.b2z cin <= 1) by (destruct cin; cbn; lia). word_cases. Qed.

Lemma add_carry x y cin : word x -> word y ->
  negb (hi32 (x + y + Z.b2z cin) =? 0) = snd (fst (AddWithCarry x y cin)).
Proof.
  intros Hx Hy. unfold AddWithCarry. cbn [fst snd]. assert (0 <= Z.b2z cin <= 1) by (destruct cin; cbn; lia).
  rewrite hi32_carry by lia. word_cases.
Qed.

(** [a - b] without borrow, the negation being computed first. *)
Lemma sub_result a b : word a -> word b -> fst (fst (AddWithCarry a (not32 b) true)) = u32 (a - b).
Proof. intros. unfold AddWithCarry. cbn [fst Z.b2z]. rewrite not32_value by assumption. word_cases. Qed.

Lemma sub_carry a b : word a -> word b -> snd (fst (AddWithCarry a (not32 b) true)) = negb (a <? b).
Proof. intros. unfold AddWithCarry. cbn [fst snd Z.b2z]. rewrite not32_value by assumption. word_cases. Qed.

Lemma neg_w_value b : word b -> neg_w b = if b =? 0 then 0 else 2 ^ 32 - b.
Proof. intros. unfold neg_w. word_cases. Qed.

Lemma sub_overflow a b : word a -> word b ->
  (overflow a (neg_w b) (u32 (a - b)) = snd (AddWithCarry a (not32 b) true) <-> b <> minimum).
Proof.
  intros. unfold AddWithCarry, overflow, minimum. cbn [snd Z.b2z].
  rewrite (neg_w_value b), (not32_value b) by assumption.
  destruct (Z.eqb_spec b 0) as [->|]; [word_cases; cbn; intuition (congruence || lia)|].
  word_cases; cbn; intuition (congruence || lia).
Qed.

Lemma sbc_flags a b : word a -> word b ->
  u32 (a - b - 1) = fst (fst (AddWithCarry a (not32 b) false)) /\
  (negb (a <? b) = snd (fst (AddWithCarry a (not32 b) false)) <-> a <> b) /\
  overflow a (sub_w (neg_w b) 1) (u32 (a - b - 1)) = snd (AddWithCarry a (not32 b) false).
Proof.
  intros. replace (sub_w (neg_w b) 1) with (not32 b)
    by (rewrite (not32_value b) by assumption; unfold sub_w; rewrite neg_w_value by assumption;
        destruct (Z.eqb_spec b 0) as [->|]; word_cases).
  assert (Hn := not32_word b). replace (u32 (a - b - 1)) with (u32 (a + not32 b + Z.b2z false))
    by (rewrite (not32_value b) by assumption; cbn [Z.b2z]; word_cases).
  split; [reflexivity|]. split; [|apply add_overflow; assumption].
  unfold AddWithCarry. cbn [snd fst Z.b2z]. rewrite (not32_value b) by assumption.
  word_cases; cbn; intuition (congruence || lia).
Qed.

Lemma awc_comm x y cin : AddWithCarry x y cin = AddWithCarry y x cin.
Proof. unfold AddWithCarry. rewrite !(Z.add_comm x y), !(Z.add_comm (s32 x)). reflexivity. Qed.

Lemma pair_iff {A B} (p : A * B) (a : A) (b : B) (P : Prop) :
  (fst p = a /\ snd p = b <-> P) -> (p = (a, b) <-> P).
Proof. intros <-. destruct p. cbn. split; [intros [= -> ->]; split; reflexivity|intros [-> ->]; reflexivity]. Qed.

Lemma negb_eqb_iff a b : negb (a =? b) = true <-> a <> b.
Proof. rewrite negb_true_iff. apply Z.eqb_neq. Qed.

Lemma add_flags a b ci : word a -> word b ->
  (negb (hi32 (a + b + Z.b2z ci) =? 0) = snd (fst (AddWithCarry a b ci)) /\
   overflow a b (u32 (a + b + Z.b2z ci)) = snd (AddWithCarry a b ci) <-> true = true).
Proof. intros. rewrite add_carry, add_overflow by assumption. tauto. Qed.

Lemma sub_flags a b cin : word a -> word b ->
  (negb (a <? b) = snd (fst (AddWithCarry a (not32 b) cin)) /\
   overflow a (if cin then neg_w b else sub_w (neg_w b) 1) (u32 (a - b - Z.b2z (negb cin)))
     = snd (AddWithCarry a (not32 b) cin)
   <-> (if cin then negb (b =? minimum) else negb (a =? b)) = true).
Proof.
  intros Ha Hb. destruct cin; rewrite negb_eqb_iff; cbn [negb Z.b2z].
  - rewrite Z.sub_0_r, sub_carry, <- (sub_overflow a b) by assumption. tauto.
  - destruct (sbc_flags a b Ha Hb) as (_ & <- & Hv). rewrite Hv. tauto.
Qed.

Lemma code_flags_exact o a b cin sc v : word a -> word b ->
  (code_flags o a b cin sc v = (snd (fst (architecture o a b cin sc v)), snd (architecture o a b cin sc v))
   <-> flags_exact o a b cin = true).
Proof.
  intros Ha Hb. apply (pair_iff (code_flags o a b cin sc v)).
  assert (Ht := add_flags a b false Ha Hb). cbn [Z.b2z] in Ht. rewrite Z.add_0_r in Ht.
  assert (Hs := sub_flags a b true Ha Hb). assert (Hr := sub_flags b a true Hb Ha).
  cbn [negb Z.b2z] in Hs, Hr. rewrite Z.sub_0_r in Hs, Hr.
  destruct o; cbn [code_flags architecture flags_exact snd fst]; rewrite ?(awc_comm (not32 a)); try tauto.
  - apply add_flags; assumption.
  - apply sub_flags; assumption.
  - rewrite (Z.eqb_sym a b). apply sub_flags; assumption.
Qed.

(** ** Registers after a write *)

Lemma RB_read_write c rd v q : length (RB c) = 31%nat -> In (mode_of c) modes -> 0 <= rd < 16 -> 0 <= q < 16 ->
  RB_read (RB_write rd v c) q = if q =? rd then v else RB_read c q.
Proof.
  intros Hl Hm Hr Hq. destruct (aliasing _ _ rd q Hm Hm Hr Hq) as (s & s' & Hs & Hs' & Hal).
  assert (Hmode : mode_of (RB_write rd v c) = mode_of c).
  { unfold mode_of. destruct (RB_write_frame rd v c) as (_ & -> & _). reflexivity. }
  rewrite (RB_read_slot (RB_write rd v c) q s') by (rewrite Hmode; exact Hs').
  rewrite (RB_read_slot c q s' Hs'), (peek_write _ _ _ s)
    by (assumption || exact (slot_nonneg (mode_of c) q s' ltac:(lia) Hs')).
  destruct (decide (s = s')) as [E|E].
  - apply Hal in E as [-> _]. rewrite Z.eqb_refl. reflexivity.
  - destruct (Z.eqb_spec q rd) as [->|]; [|reflexivity].
    destruct E. apply Hal. split; [reflexivity|]. unfold same_bank.
    rewrite Z.eqb_refl, eqb_reflx. repeat case_match; reflexivity.
Qed.

Lemma RB_write_set_flags r v f c : RB_write r v (set_flags f c) = set_flags f (RB_write r v c).
Proof. unfold bypass_write. cbn [mode_of arm_proc_mode set_flags]. change (mode_of (set_flags f c)) with (mode_of c). destruct (bypass_reg (mode_of c) r) as [[[]|q]|]; reflexivity. Qed.

Lemma RB_write_flags r v c : flags (RB_write r v c) = flags c.
Proof. apply RB_write_frame. Qed.

Lemma RB_write_shiftopcarry r v c : dpi_shiftopcarry (RB_write r v c) = dpi_shiftopcarry c.
Proof. apply RB_write_frame. Qed.

(** ** The form of the sixteen operations *)

Definition sets_flags (o : dpi_op) (s : bool) : bool := s || negb (writes o).

Definition operation (o : dpi_op) (rd rn : Z) (s : bool) (c : core) : core :=
  let a := RB_read c rn in
  let b := dpi_shiftop c in
  let cin := flag_C (flags c) in
  let r := fst (fst (architecture o a b cin (dpi_shiftopcarry c) (flag_V (flags c)))) in
  let '(cy, v) := code_flags o a b cin (dpi_shiftopcarry c) (flag_V (flags c)) in
  let c := if writes o then RB_write rd r c else c in
  sync_pc (if sets_flags o s then set_NZCV (getBit r 31) (r =? 0) cy v c else c).

Lemma lo32_u64 x : lo32 (u64 x) = u32 x.
Proof. unfold lo32, uwrap. symmetry. apply Znumtheory.Zmod_div_mod; [lia|lia|]. exists (2 ^ 32). reflexivity. Qed.

Lemma u64_sum x : 0 <= x < 2 * 2 ^ 32 -> u64 x = x.
Proof. intros. apply uwrap_small. lia. Qed.

(** Results of the sums as the code computes them. *)
Lemma difference_result a b : word a -> word b -> lo32 (u64 (a + neg_w b)) = u32 (a - b).
Proof. intros. rewrite lo32_u64. unfold neg_w. rewrite uwrap_add_r. reflexivity. Qed.

Lemma borrow_result a b (cin : bool) : word a -> word b ->
  lo32 (u64 (a + (if cin then neg_w b else sub_w (neg_w b) 1))) = u32 (a - b - Z.b2z (negb cin)).
Proof.
  intros. rewrite lo32_u64. destruct cin; cbn [negb Z.b2z]; unfold neg_w, sub_w; rewrite ?uwrap_sub_l, uwrap_add_r; f_equal; lia.
Qed.

Lemma awc_result a b cin : word a -> word b ->
  fst (fst (AddWithCarry a (not32 b) cin)) = u32 (a - b - Z.b2z (negb cin)).
Proof.
  intros Ha Hb. destruct cin; cbn [negb Z.b2z].
  - rewrite Z.sub_0_r. apply sub_result; assumption.
  - symmetry. apply sbc_flags; assumption.
Qed.

Lemma finish_not_pc rd s upd c : rd <> 15 -> finish rd s upd c = sync_pc (if s then upd c else c).
Proof. intros. unfold finish. replace (rd =? 15) with false by lia. rewrite andb_false_r. reflexivity. Qed.

Lemma read_rn_not_pc c rn : rn <> 15 -> read_rn c rn = RB_read c rn.
Proof. intros. unfold read_rn. replace (rn =? 15) with false by lia. reflexivity. Qed.

Lemma logic_flags_write r rd v c : logic_flags r (RB_write rd v c) =
  set_NZCV (getBit r 31) (r =? 0) (dpi_shiftopcarry c) (flag_V (flags c)) (RB_write rd v c).
Proof. unfold logic_flags, set_NZC, set_NZCV. rewrite RB_write_flags, RB_write_shiftopcarry. reflexivity. Qed.

Lemma set_NZCV_write n z cy v rd x c : RB_write rd x (set_NZCV n z cy v c) = set_NZCV n z cy v (RB_write rd x c).
Proof. unfold set_NZCV. rewrite RB_write_set_flags, RB_write_flags. reflexivity. Qed.

Lemma operation_form o rd rn s c : wf_core c -> rd <> 15 -> rn <> 15 ->
  dpi_behavior o rd rn s c = operation o rd rn s c.
Proof.
  intros W Hrd Hrn. assert (Ha := RB_read_word c rn W). assert (Hb := wf_shiftop _ W).
  assert (Hc : 0 <= Z.b2z (flag_C (flags c)) <= 1) by (destruct (flag_C (flags c)); cbn; lia).
  assert (Hpc : rd =? 15 = false) by lia.
  unfold operation, sets_flags.
  destruct o; cbn [dpi_behavior writes architecture code_flags fst snd negb];
    rewrite ?orb_false_r, ?orb_true_r, ?(awc_comm (not32 (RB_read c rn)));
    unfold AND, EOR, SUB, RSB, ADD, ADC, SBC, RSC, TST, TEQ, CMP, CMN, ORR, BIC, MVN, MOV;
    rewrite ?Hpc, ?andb_false_r, ?finish_not_pc, ?read_rn_not_pc by assumption;
    cbn [andb]; rewrite ?logic_flags_write; try reflexivity.
  - rewrite difference_result, sub_result by assumption. reflexivity.
  - rewrite difference_result, sub_result by assumption. reflexivity.
  - unfold sum_flags. rewrite lo32_u64, u64_sum by lia. unfold AddWithCarry. cbn [fst Z.b2z]. rewrite Z.add_0_r. reflexivity.
  - unfold sum_flags. change (if flag_C (flags c) then 1 else 0) with (Z.b2z (flag_C (flags c))).
    rewrite lo32_u64, u64_sum by lia. reflexivity.
  - rewrite borrow_result, awc_result by assumption. reflexivity.
  - rewrite borrow_result, awc_result by assumption. reflexivity.
  - rewrite difference_result, sub_result by assumption. reflexivity.
  - unfold sum_flags. rewrite lo32_u64, u64_sum by lia. unfold AddWithCarry. cbn [fst Z.b2z]. rewrite Z.add_0_r. reflexivity.
  - destruct s; [|reflexivity]. unfold logic_flags, set_NZC. rewrite RB_write_set_flags. unfold set_NZCV. rewrite RB_write_flags. reflexivity.
Qed.

Lemma operation_parts o rd rn s c q : wf_core c -> In (mode_of c) modes -> 0 <= rd < 15 -> 0 <= rn < 15 -> 0 <= q < 16 ->
  let a := RB_read c rn in
  let p := architecture o a (dpi_shiftop c) (flag_C (flags c)) (dpi_shiftopcarry c) (flag_V (flags c)) in
  let k := code_flags o a (dpi_shiftop c) (flag_C (flags c)) (dpi_shiftopcarry c) (flag_V (flags c)) in
  let c' := dpi_behavior o rd rn s c in
  RB_read c' q = (if writes o && (q =? rd) then fst (fst p) else RB_read c q) /\
  ac_pc c' = RB_read c PC /\
  flags c' = (if sets_flags o s then
                MkFlags (getBit (fst (fst p)) 31) (fst (fst p) =? 0) (fst k) (snd k) (flag_Q (flags c)) (flag_T (flags c))
              else flags c) /\
  arm_proc_mode c' = arm_proc_mode c.
Proof.
  intros W Hm Hrd Hrn Hq a p k c'. assert (Hl := wf_length _ W).
  assert (Hw : forall i x, 0 <= i < 16 ->
    RB_read (if writes o then RB_write rd x c else c) i = if writes o && (i =? rd) then x else RB_read c i).
  { intros i x Hi. destruct (writes o); [|reflexivity]. cbn [andb]. apply RB_read_write; try assumption; lia. }
  unfold c'. rewrite operation_form by (assumption || lia). unfold operation. fold a. fold p. fold k.
  destruct k as [cy v]. cbn [fst snd].
  assert (Hpc : RB_read (if writes o then RB_write rd (fst (fst p)) c else c) PC = RB_read c PC).
  { rewrite Hw by lia. replace (15 =? rd) with false by lia. rewrite andb_false_r. reflexivity. }
  repeat split.
  - rewrite <- Hw by assumption. destruct (sets_flags o s); reflexivity.
  - rewrite <- Hpc. destruct (sets_flags o s); reflexivity.
  - assert (Hf : flags (if writes o then RB_write rd (fst (fst p)) c else c) = flags c)
      by (destruct (writes o); [apply RB_write_flags|reflexivity]).
    destruct (sets_flags o s); cbn [sync_pc set_pc flags set_NZCV set_flags]; rewrite Hf; reflexivity.
  - assert (Hf : arm_proc_mode (if writes o then RB_write rd (fst (fst p)) c else c) = arm_proc_mode c)
      by (destruct (writes o); [apply RB_write_frame|reflexivity]).
    destruct (sets_flags o s); exact Hf.
Qed.

(** What an operation leaves as it is: all but the flags, [ac_pc] and the
    registers; and the registers under every number and in every mode but the
    destination in the modes that share it. *)
Lemma operation_keeps o rd rn s c : wf_core c -> In (mode_of c) modes -> 0 <= rd < 15 -> 0 <= rn < 15 ->
  let r := fst (fst (architecture o (RB_read c rn) (dpi_shiftop c) (flag_C (flags c)) (dpi_shiftopcarry c) (flag_V (flags c)))) in
  let c' := dpi_behavior o rd rn s c in
  same_but_registers (set_flags (flags c') (set_pc (ac_pc c') c)) c' /\
  (forall m q, In m modes -> 0 <= q < 16 ->
     RB_read (in_mode m c') q = if writes o && (q =? rd) && same_bank (mode_of c) m rd then r else RB_read (in_mode m c) q).
Proof.
  intros W Hm Hrd Hrn r c'. set (w := if writes o then RB_write rd r c else c).
  assert (Hf : same_but_registers c w) by (unfold w; destruct (writes o); [apply RB_write_frame|repeat split]).
  assert (Hc : exists n z cy v, c' = sync_pc (if sets_flags o s then set_NZCV n z cy v w else w)).
  { unfold c'. rewrite operation_form by (assumption || lia). unfold operation. destruct (code_flags _ _ _ _ _ _) as [cy v].
    do 4 eexists. reflexivity. }
  destruct Hc as (n & z & cy & v & Hc). split.
  - rewrite Hc. destruct Hf as (H1 & H2 & H3 & H4). destruct (sets_flags o s); (split; [reflexivity|]); (split; [exact H2|]);
      (split; [reflexivity|]); exact H4.
  - intros m q Hi Hq. transitivity (RB_read (in_mode m w) q); [rewrite Hc; destruct (sets_flags o s); reflexivity|].
    unfold w. destruct (writes o); [|reflexivity]. rewrite <- (in_own_mode c) at 1.
    rewrite RB_write_seen by (apply wf_length, W || assumption || lia). rewrite (Z.eqb_sym rd q). reflexivity.
Qed.

(** C12. The data-processing instructions: with the PC neither as destination nor as
    first operand, each of the sixteen operations writes exactly the result of
    the architecture to its destination (seen in the modes that share that
    register), leaves every other register in every mode, the mode, the saved
    status words and the rest of the core, and sets the flags only when asked to;
    negative and zero are always those of the architecture, and carry and
    overflow are the architecture's exactly when a subtraction without borrow
    does not subtract the least signed word and one with borrow is not of equal
    words. *)
Theorem data_processing_architecture o rd rn s c :
  wf_core c -> In (mode_of c) modes -> 0 <= rd < 15 -> 0 <= rn < 15 ->
  let a := RB_read c rn in
  let b := dpi_shiftop c in
  let '(r, carry, v) := architecture o a b (flag_C (flags c)) (dpi_shiftopcarry c) (flag_V (flags c)) in
  let c' := dpi_behavior o rd rn s c in
  (forall q, 0 <= q < 16 -> RB_read c' q = if writes o && (q =? rd) then r else RB_read c q) /\
  ac_pc c' = RB_read c PC /\ arm_proc_mode c' = arm_proc_mode c /\
  same_but_registers (set_flags (flags c') (set_pc (RB_read c PC) c)) c' /\
  (forall m q, In m modes -> 0 <= q < 16 ->
     RB_read (in_mode m c') q = if writes o && (q =? rd) && same_bank (mode_of c) m rd then r else RB_read (in_mode m c) q) /\
  (sets_flags o s = false -> flags c' = flags c) /\
  (sets_flags o s = true ->
    flag_N (flags c') = getBit r 31 /\ flag_Z (flags c') = (r =? 0) /\
    flag_Q (flags c') = flag_Q (flags c) /\ flag_T (flags c') = flag_T (flags c) /\
    ((flag_C (flags c'), flag_V (flags c')) = (carry, v) <-> flags_exact o a b (flag_C (flags c)) = true)).
Proof.
  intros W Hm Hrd Hrn a b.
  assert (Hp := fun q => operation_parts o rd rn s c q W Hm Hrd Hrn). cbv zeta in Hp. fold a b in Hp.
  assert (Hk := operation_keeps o rd rn s c W Hm Hrd Hrn). cbv zeta in Hk. fold a b in Hk.
  assert (Hx := code_flags_exact o a b (flag_C (flags c)) (dpi_shiftopcarry c) (flag_V (flags c))
    (RB_read_word c rn W) (wf_shiftop _ W)).
  destruct (architecture o a b _ _ _) as [[r carry] v]. cbn [fst snd] in Hp, Hx, Hk. cbv zeta.
  destruct (Hp 0 ltac:(lia)) as (_ & Hpc & Hf & Hmode).
  split; [intros q Hq; apply Hp, Hq|]. split; [exact Hpc|]. split; [exact Hmode|].
  rewrite <- Hpc. split; [apply Hk|]. split; [apply Hk|]. rewrite Hf.
  split; intros ->; [reflexivity|]. cbn [flag_N flag_Z flag_C flag_V flag_Q flag_T].
  rewrite <- surjective_pairing. repeat (split; [reflexivity|]). exact Hx.
Qed.

Lemma data_processing_architecture_witness :
  RB_read (dpi_behavior op_sub 0 1 true (set_shiftop 1 (sample_core USER_MODE))) 0 = 100.
Proof.
  destruct (data_processing_architecture op_sub 0 1 true (set_shiftop 1 (sample_core USER_MODE))) as [H _];
    [|apply sample_modes; reflexivity|lia|lia|exact (H 0 ltac:(lia))].
  destruct (sample_wf USER_MODE ltac:(unfold USER_MODE; lia)). split; try assumption.
Defined.

(** ** Comparisons *)

(** The instruction that follows is executed. *)
Definition executed {S A} (x : flow S A) : bool := match x with Next _ => true | _ => false end.

(** The relation a condition code tests after a comparison. *)
Definition relation (k a b : Z) : bool :=
  match k with
  | 0 => a =? b
  | 1 => negb (a =? b)
  | 2 => b <=? a
  | 3 => a <? b
  | 4 => 2 ^ 31 <=? u32 (a - b)
  | 5 => u32 (a - b) <? 2 ^ 31
  | 6 => negb ((- 2 ^ 31 <=? s32 a - s32 b) && (s32 a - s32 b <? 2 ^ 31))
  | 7 => (- 2 ^ 31 <=? s32 a - s32 b) && (s32 a - s32 b <? 2 ^ 31)
  | 8 => b <? a
  | 9 => a <=? b
  | 10 => s32 b <=? s32 a
  | 11 => s32 a <? s32 b
  | 12 => s32 b <? s32 a
  | 13 => s32 a <=? s32 b
  | 14 => true
  | _ => false
  end.

(** The condition codes that look at the overflow flag. *)
Definition uses_overflow (k : Z) : bool := (k =? 6) || (k =? 7) || ((10 <=? k) && (k <=? 13)).

Lemma executed_condition k c : executed (behavior_instruction k c) = condition (flags c) k.
Proof.
  unfold behavior_instruction. set (x := condition (flags c) k).
  assert (H : execute (RB_write PC (add_w (ac_pc c) 4) (set_pc (add_w (ac_pc c) 4) (set_execute x c))) = x) by apply RB_write_frame.
  cbn [ac_pc set_pc set_execute] in *. rewrite H. destruct x; reflexivity.
Qed.

Lemma CMP_flags rn c : wf_core c ->
  let a := RB_read c rn in let b := dpi_shiftop c in
  let f := flags (CMP rn c) in
  flag_N f = getBit (u32 (a - b)) 31 /\ flag_Z f = (u32 (a - b) =? 0) /\ flag_C f = negb (a <? b) /\
  flag_V f = overflow a (neg_w b) (u32 (a - b)).
Proof.
  intros W a b f. assert (Ha := RB_read_word c rn W). assert (Hb := wf_shiftop _ W).
  unfold f, CMP. rewrite difference_result by assumption. repeat split.
Qed.

Lemma signed_condition a b : word a -> word b -> b <> minimum ->
  Bool.eqb (getBit (u32 (a - b)) 31) (overflow a (neg_w b) (u32 (a - b))) = (s32 b <=? s32 a) /\
  overflow a (neg_w b) (u32 (a - b)) = negb ((- 2 ^ 31 <=? s32 a - s32 b) && (s32 a - s32 b <? 2 ^ 31)).
Proof.
  intros Ha Hb Hm. unfold overflow, minimum in *. rewrite neg_w_value by assumption.
  destruct (Z.eqb_spec b 0) as [->|]; split; word_cases.
Qed.

(** Comparisons: an instruction that follows a compare instruction is
    executed exactly when the two words stand in the relation its condition
    names, unsigned, signed or equal, when the second word is not the least
    signed word or the condition does not look at the overflow flag. *)
Theorem compare_then_condition k rn c : wf_core c -> 0 <= k ->
  dpi_shiftop c <> minimum \/ uses_overflow k = false ->
  executed (behavior_instruction k (CMP rn c)) = relation k (RB_read c rn) (dpi_shiftop c).
Proof.
  intros W Hk Hm. destruct (CMP_flags rn c W) as (Hn & Hz & Hc & Hv). rewrite executed_condition.
  assert (Ha := RB_read_word c rn W). assert (Hb := wf_shiftop _ W).
  assert (Hsg := fun H => signed_condition (RB_read c rn) (dpi_shiftop c) Ha Hb H).
  destruct (uses_overflow k) eqn:Eu.
  - destruct Hm as [Hm|]; [|discriminate]. specialize (Hsg Hm). destruct Hsg as (Hge & Hvs).
    unfold uses_overflow in Eu.
    assert (Hk' : k = 6 \/ k = 7 \/ k = 10 \/ k = 11 \/ k = 12 \/ k = 13) by lia.
    destruct Hk' as [->|[->|[->|[->|[->| ->]]]]]; unfold condition, relation; rewrite ?Hn, ?Hz, ?Hv, ?Hge, ?Hvs;
      [reflexivity|apply negb_involutive|..]; word_cases.
  - clear Hsg Hm. destruct k as [|p|p]; [| |lia].
    + unfold condition, relation. rewrite Hz. word_cases.
    + unfold uses_overflow in Eu. do 4 (try destruct p as [p|p|]); try reflexivity; try discriminate Eu;
        unfold condition, relation; rewrite ?Hn, ?Hz, ?Hc; word_cases.
Qed.

(** A comparison with the least signed word sets the overflow flag wrongly
    for every first operand: every word is greater or equal, but the condition
    never holds, and the opposite one always does. *)
Theorem compare_with_minimum rn c : wf_core c -> dpi_shiftop c = minimum ->
  relation 10 (RB_read c rn) minimum = true /\
  executed (behavior_instruction 10 (CMP rn c)) = false /\
  executed (behavior_instruction 11 (CMP rn c)) = true.
Proof.
  intros W Hb. destruct (CMP_flags rn c W) as (Hn & _ & _ & Hv). rewrite !executed_condition.
  assert (Ha := RB_read_word c rn W). rewrite Hb in Hn, Hv. unfold condition. rewrite Hn, Hv.
  unfold relation, overflow, neg_w, minimum. rewrite (s32_cases (2 ^ 31)) by lia.
  repeat split; word_cases.
Qed.

Lemma compare_then_condition_witness :
  executed (behavior_instruction 10 (CMP 1 (set_shiftop 0xFFFFFFFF (sample_core USER_MODE)))) = true.
Proof.
  rewrite (compare_then_condition 10 1); [reflexivity| |lia|left; discriminate].
  destruct (sample_wf USER_MODE ltac:(unfold USER_MODE; lia)). split; try assumption; cbn; lia.
Defined.

Lemma compare_with_minimum_witness :
  executed (behavior_instruction 10 (CMP 1 (set_shiftop minimum (sample_core USER_MODE)))) = false.
Proof.
  refine (proj1 (proj2 (compare_with_minimum 1 (set_shiftop minimum (sample_core USER_MODE)) _ eq_refl))).
  destruct (sample_wf USER_MODE ltac:(unfold USER_MODE; lia)). split; try assumption; cbn; unfold minimum; lia.
Defined.
