(* ===== verification/ArmStepOk.v ===== *)
(** * Invariants of the instructions

    A property of the core that the primitive updates keep is kept by every
    instruction and by every turn of the fetch loop.  Two instances: the fields
    of the core stay words, and a program in user mode stays in user mode. *)
From S2P Require Import Prelude ArmCore ArmFormats ArmData ArmMem ArmIsa ArmCoreOk ArmFormatsOk.

(** ** Words *)

Lemma add_w_word a b : word (add_w a b).
Proof. apply u32_word. Qed.
Lemma sub_w_word a b : word (sub_w a b).
Proof. apply u32_word. Qed.
Lemma neg_w_word a : word (neg_w a).
Proof. apply u32_word. Qed.
Lemma lsl_w_word v n : word (lsl_w v n).
Proof. apply u32_word. Qed.
Lemma lo32_word v : word (lo32 v).
Proof. apply u32_word. Qed.
Lemma hi32_word v : word (hi32 v).
Proof. apply u32_word. Qed.
Lemma asr_word n v : word (ArithmeticShiftRight n v).
Proof. apply u32_word. Qed.
Lemma SignExtend_word v n : word (SignExtend v n).
Proof. apply u32_word. Qed.

Lemma lsr_w_word v n : word v -> word (lsr_w v n).
Proof.
  intros Hv. unfold lsr_w. assert (Hn := Z.mod_pos_bound n 32 ltac:(lia)).
  rewrite Z.shiftr_div_pow2 by lia. assert (0 < 2 ^ (n mod 32)) by (apply Z.pow_pos_nonneg; lia).
  split; [apply Z.div_pos; lia|]. apply Z.le_lt_trans with v; [|lia].
  apply Z.div_le_upper_bound; [lia|]. nia.
Qed.

Lemma rotate_word n v : word v -> word (RotateRight n v).
Proof. intros. apply lor_word; [apply lsr_w_word; assumption|apply lsl_w_word]. Qed.

Lemma lxor_word v w : word v -> word w -> word (Z.lxor v w).
Proof.
  intros. assert (0 <= Z.lxor v w) by (apply Z.lxor_nonneg; lia). split; [assumption|].
  apply bits_range; [lia|assumption|]. intros. rewrite Z.lxor_spec, !(testbit_high 32) by lia. reflexivity.
Qed.

Lemma uwrap_word w v : 0 <= w <= 32 -> word (uwrap w v).
Proof.
  intros. assert (Hr := uwrap_range w v ltac:(lia)). assert (2 ^ w <= 2 ^ 32) by (apply Z.pow_le_mono_r; lia). lia.
Qed.

Lemma land_words v w : word v -> word w -> word (Z.land v w).
Proof. intros. apply land_word; lia. Qed.

Lemma range_bits_word lsb msb : word (range_bits lsb msb).
Proof.
  unfold range_bits. assert (G : forall l v, word v ->
    word (fold_left (fun mask k => setBit mask ((lsb + Z.of_nat k) mod 32)) l v)).
  { induction l as [|k l IH]; intros v Hv; cbn [fold_left]; [exact Hv|].
    apply IH, setBit_word; [exact Hv|]. apply Z.mod_pos_bound. lia. }
  apply G. lia.
Qed.

Create HintDb wf.
#[export] Hint Resolve u32_word range_bits_word add_w_word sub_w_word neg_w_word lsl_w_word lo32_word hi32_word asr_word
  SignExtend_word lsr_w_word rotate_word land_words or_bit_word lor_word lxor_word not32_word setBit_word clearBit_word
  RB_read_word bank_read_word : wf.
#[export] Hint Extern 2 (0 <= _ < _) => lia : wf.

(** ** Properties closed under the primitive updates *)

Record closed (P : core -> Prop) : Prop := {
  cl_wf : forall c, P c -> wf_core c;
  cl_pc : forall v c, word v -> P c -> P (set_pc v c);
  cl_write : forall r v c, word v -> P c -> P (RB_write r v c);
  cl_bank : forall r v c, word v -> P c -> P (bank_write c r v);
  cl_flags : forall f c, P c -> P (set_flags f c);
  cl_execute : forall x c, P c -> P (set_execute x c);
  cl_shiftop : forall v c, word v -> P c -> P (set_shiftop v c);
  cl_shiftopcarry : forall x c, P c -> P (set_shiftopcarry x c);
  cl_ls : forall v c, word v -> P c -> P (set_ls_address v c);
  cl_lsm : forall v w c, word v -> word w -> P c -> P (set_lsm v w c);
  cl_OP : forall v w c, word v -> word w -> P c -> P (set_OP v w c);
  cl_restore : forall c, P c -> P (SPSRtoCPSR c);
  cl_msr : forall r fieldmask src c, word src -> P c -> P (msr r fieldmask src c)
}.

(** What a step leaves when it has an invariant [P]. *)
Definition keeps {S} (P : S -> Prop) (x : flow S S) : Prop :=
  match x with Next m | Annul m => P m | Stop _ => True end.

(** The same of a step that gives a value. *)
Definition gives {S A} (Q : A -> Prop) (P : S -> Prop) (x : flow S (A * S)) : Prop :=
  match x with Next (a, m) => Q a /\ P m | Annul m => P m | Stop _ => True end.

Section Closed.
Context (P : core -> Prop) (K : closed P).

Lemma k_sync c : P c -> P (sync_pc c).
Proof. intros H. apply (cl_pc _ K); [apply RB_read_word, (cl_wf _ K), H|exact H]. Qed.
Lemma k_NZCV n z cy v c : P c -> P (set_NZCV n z cy v c).
Proof. apply (cl_flags _ K). Qed.
Lemma k_NZC n z cy c : P c -> P (set_NZC n z cy c).
Proof. apply (cl_flags _ K). Qed.
Lemma k_NZ n z c : P c -> P (set_NZ n z c).
Proof. apply (cl_flags _ K). Qed.
Lemma k_T t c : P c -> P (set_T t c).
Proof. apply (cl_flags _ K). Qed.
Lemma k_read c r : P c -> word (RB_read c r).
Proof. intros H. apply RB_read_word, (cl_wf _ K), H. Qed.
Lemma k_bank_read c r : P c -> word (bank_read c r).
Proof. intros H. apply bank_read_word, (cl_wf _ K), H. Qed.
Lemma k_shiftop c : P c -> word (dpi_shiftop c).
Proof. intros H. apply (wf_shiftop _ (cl_wf _ K c H)). Qed.
Lemma k_ls c : P c -> word (ls_address c).
Proof. intros H. apply (wf_ls _ (cl_wf _ K c H)). Qed.
Lemma k_pc_word c : P c -> word (ac_pc c).
Proof. intros H. apply (wf_pc _ (cl_wf _ K c H)). Qed.
Lemma k_start c : P c -> word (lsm_startaddress c).
Proof. intros H. apply (wf_start _ (cl_wf _ K c H)). Qed.
Lemma k_CPSR c : P c -> word (readCPSR c).
Proof. intros H. apply readCPSR_word, (wf_mode _ (cl_wf _ K c H)). Qed.
Lemma k_SPSR c : P c -> word (readSPSR c).
Proof. intros H. unfold readSPSR. destruct (spsr_reg _); [apply (wf_banked _ (cl_wf _ K c H))|lia]. Qed.
Lemma k_read_rn c r : P c -> word (read_rn c r).
Proof. intros H. unfold read_rn. destruct (r =? 15); [apply add_w_word|apply k_read, H]. Qed.
Lemma k_put_shiftop v x c : word v -> P c -> P (put_shiftop v x c).
Proof. intros. apply (cl_shiftopcarry _ K), (cl_shiftop _ K); assumption. Qed.
Lemma k_sum_flags a b s c : P c -> P (sum_flags a b s c).
Proof. apply k_NZCV. Qed.
Lemma k_difference_flags a n b r c : P c -> P (difference_flags a n b r c).
Proof. apply k_NZCV. Qed.
Lemma k_logic_flags r c : P c -> P (logic_flags r c).
Proof. apply k_NZC. Qed.

#[local] Hint Resolve k_read k_bank_read k_shiftop k_ls k_pc_word k_start k_CPSR k_SPSR k_read_rn : wf.

(** Splits a word expression into its parts. *)
Ltac words := repeat match goal with
  | |- context [if ?b then _ else _] => destruct b
  end; eauto 9 with wf;
  try (first [apply k_read|apply k_bank_read|apply k_shiftop|apply k_ls|apply k_pc_word|apply k_CPSR|apply k_SPSR]; keep)
(** Follows the updates of a state. *)
with keep := cbv zeta; repeat match goal with
  | H : P ?c |- P ?c => exact H
  | |- P (match ?b with _ => _ end) => destruct b
  | |- P (sync_pc _) => apply k_sync
  | |- P (set_pc _ _) => apply (cl_pc _ K); [words|]
  | |- P (RB_write _ _ _) => apply (cl_write _ K); [words|]
  | |- P (bank_write _ _ _) => apply (cl_bank _ K); [words|]
  | |- P (set_flags _ _) => apply (cl_flags _ K)
  | |- P (set_execute _ _) => apply (cl_execute _ K)
  | |- P (set_shiftop _ _) => apply (cl_shiftop _ K); [words|]
  | |- P (put_shiftop _ _ _) => apply k_put_shiftop; [words|]
  | |- P (set_ls_address _ _) => apply (cl_ls _ K); [words|]
  | |- P (set_lsm _ _ _) => apply (cl_lsm _ K); [words|words|]
  | |- P (set_OP _ _ _) => apply (cl_OP _ K); [words|words|]
  | |- P (SPSRtoCPSR _) => apply (cl_restore _ K)
  | |- P (msr _ _ _ _) => apply (cl_msr _ K); [words|]
  | |- P (set_NZCV _ _ _ _ _) => apply k_NZCV
  | |- P (set_NZC _ _ _ _) => apply k_NZC
  | |- P (set_NZ _ _ _) => apply k_NZ
  | |- P (set_T _ _) => apply k_T
  | |- P (sum_flags _ _ _ _) => apply k_sum_flags
  | |- P (difference_flags _ _ _ _ _) => apply k_difference_flags
  | |- P (logic_flags _ _) => apply k_logic_flags
  end.

Lemma k_finish rd s upd c : (forall c, P c -> P (upd c)) -> P c -> P (finish rd s upd c).
Proof. intros Hu H. unfold finish. keep. apply Hu, H. Qed.

Lemma k_dpi o rd rn s c : P c -> P (dpi_behavior o rd rn s c).
Proof.
  intros H. destruct o; cbn [dpi_behavior];
    unfold AND, EOR, SUB, RSB, ADD, ADC, SBC, RSC, TST, TEQ, CMP, CMN, ORR, MOV, BIC, MVN;
    cbv zeta; try (apply k_finish; [intros; keep|]); keep; assumption.
Qed.

Lemma k_instruction cond c : P c -> keeps P (behavior_instruction cond c).
Proof. intros H. unfold behavior_instruction. cbv zeta. match goal with |- context [if ?b then _ else _] => destruct b end; cbn [keeps]; keep. Qed.

Lemma k_DPI1 n t rm c : P c -> P (Type_DPI1 n t rm c).
Proof. intros H. unfold Type_DPI1. keep. Qed.

Lemma k_DPI2 rn rd rs t rm c : P c -> keeps P (Type_DPI2 rn rd rs t rm c).
Proof.
  intros H. unfold Type_DPI2. destruct (_ || _); cbn [keeps]; [exact H|]. keep.
Qed.

Lemma k_DPI3 rotate imm8 c : 0 <= imm8 < 2 ^ 8 -> P c -> P (Type_DPI3 rotate imm8 c).
Proof. intros Hi H. unfold Type_DPI3. keep. Qed.

Lemma k_DPI4 imm4 imm12 c : 0 <= imm4 < 16 -> 0 <= imm12 < 2 ^ 12 -> P c -> P (Type_DPI4 imm4 imm12 c).
Proof.
  intros H4 H12 H. unfold Type_DPI4. apply (cl_shiftop _ K); [|exact H].
  apply lor_word; [|lia]. rewrite Z.shiftl_mul_pow2 by lia. lia.
Qed.

Lemma k_DPI5 n tb rm c : P c -> P (Type_DPI5 n tb rm c).
Proof. intros H. unfold Type_DPI5. keep. Qed.

Lemma k_PCK1 rotate rm c : P c -> P (Type_PCK1 rotate rm c).
Proof. intros H. unfold Type_PCK1. keep. Qed.

Lemma k_DSPSM drd drn rs yy xx rm c : P c -> P (Type_DSPSM drd drn rs yy xx rm c).
Proof. intros H. unfold Type_DSPSM. keep. Qed.

Lemma offset_by_word u a b : word (offset_by u a b).
Proof. unfold offset_by. destruct (u =? 1); auto with wf. Qed.

Lemma lsr_index_word n t v x : word v -> word (lsr_index n t v x).
Proof. intros. unfold lsr_index, or_bit. repeat case_match; auto 6 with wf. Qed.
#[local] Hint Resolve offset_by_word lsr_index_word : wf.

(** Follows a format behaviour that can annul. *)
Ltac keep_flow := cbv zeta; repeat match goal with
  | |- keeps P (if ?b then _ else _) => destruct b
  end; cbn [keeps]; keep.

Lemma k_LSI p u w rn rd imm12 c : P c -> keeps P (Type_LSI p u w rn rd imm12 c).
Proof. intros H. unfold Type_LSI. keep_flow. Qed.

Lemma k_LSR p u w rn rd n t rm c : P c -> keeps P (Type_LSR p u w rn rd n t rm c).
Proof. intros H. unfold Type_LSR, pc_bias. keep_flow. Qed.

Lemma k_LSE p u i w rn rd a1 ss hh a2 c : P c -> keeps P (Type_LSE p u i w rn rd a1 ss hh a2 c).
Proof. intros H. unfold Type_LSE, pc_bias. keep_flow. Qed.

Lemma k_LSM p u w rn rlist c : P c -> keeps P (Type_LSM p u w rn rlist c).
Proof.
  intros H. unfold Type_LSM. destruct (rlist =? 0); [exact H|].
  repeat match goal with |- context [if ?b then _ else _] => destruct b end; cbn [keeps]; keep.
Qed.

Lemma k_MOV rd s c : P c -> P (MOV rd s c).
Proof. apply (k_dpi op_mov rd 0). Qed.
Lemma k_MOVT rd s c : P c -> P (MOVT rd s c).
Proof. intros H. apply k_MOV. keep. Qed.
Lemma k_BFI rd rn lsb msb c : P c -> P (BFI rd rn lsb msb c).
Proof. intros H. unfold BFI. keep. Qed.
Lemma k_UBFX rd rn lsb w c : P c -> P (UBFX rd rn lsb w c).
Proof. intros H. unfold UBFX. keep. Qed.
Lemma k_SBFX rd rn lsb w c : P c -> P (SBFX rd rn lsb w c).
Proof. intros H. unfold SBFX. keep. Qed.
Lemma k_UXTB rd rm c : P c -> P (UXTB rd rm c).
Proof. intros H. unfold UXTB. keep. Qed.
Lemma k_UXTH rd rm c : P c -> P (UXTH rd rm c).
Proof. intros H. unfold UXTH. keep. Qed.
Lemma k_SXTH rd rm c : P c -> P (SXTH rd rm c).
Proof. intros H. unfold SXTH. keep. Qed.
Lemma k_PKH rd rn rm tb c : P c -> P (PKH rd rn rm tb c).
Proof. intros H. unfold PKH. keep. Qed.
Lemma k_B h o c : P c -> P (B h o c).
Proof. intros H. unfold B. keep. Qed.
Lemma k_REV rd rm c : P c -> P (REV rd rm c).
Proof.
  intros H. unfold REV. keep.
  repeat apply lor_word; repeat first [apply lsl_w_word|apply lsr_w_word|apply land_words];
    solve [apply k_read, H|split; vm_compute; easy].
Qed.

Lemma last_set_bit_range n v : - 1 <= last_set_bit n v < Z.of_nat n.
Proof. induction n as [|n IH]; cbn [last_set_bit]; [lia|]. destruct (getBit _ _); lia. Qed.

Lemma k_CLZ rd rm c : P c -> P (CLZ rd rm c).
Proof.
  intros H. unfold CLZ. assert (Hl := fun v => last_set_bit_range 32 v).
  keep; match goal with |- context [last_set_bit 32 ?v] => specialize (Hl v) end; lia.
Qed.

Lemma k_write_long hi lo s r c : P c -> P (write_long hi lo s r c).
Proof. intros H. unfold write_long. keep. Qed.

Lemma k_MUL rd rm rs s c : P c -> P (MUL rd rm rs s c).
Proof. intros H. unfold MUL. keep. Qed.
Lemma k_MLA rd rn rm rs s c : P c -> P (MLA rd rn rm rs s c).
Proof. intros H. unfold MLA. keep. Qed.
Lemma k_MLS rd ra rm rn c : P c -> P (MLS rd ra rm rn c).
Proof. intros H. unfold MLS. keep. Qed.
Lemma k_DSMLA rd rn c : P c -> P (DSMLA rd rn c).
Proof. intros H. unfold DSMLA. keep. Qed.
Lemma k_DSMUL rd c : P c -> P (DSMUL rd c).
Proof. intros H. unfold DSMUL. keep. Qed.
Lemma k_SMULL hi lo rm rs s c : P c -> P (SMULL hi lo rm rs s c).
Proof. intros H. unfold SMULL. keep. apply k_write_long, H. Qed.
Lemma k_UMULL hi lo rm rs s c : P c -> P (UMULL hi lo rm rs s c).
Proof. intros H. unfold UMULL. keep. apply k_write_long, H. Qed.
Lemma k_SMLAL hi lo rm rs s c : P c -> P (SMLAL hi lo rm rs s c).
Proof. intros H. unfold SMLAL. keep. apply k_write_long, H. Qed.
Lemma k_UMLAL hi lo rm rs s c : P c -> P (UMLAL hi lo rm rs s c).
Proof. intros H. unfold UMLAL. keep. apply k_write_long, H. Qed.

Lemma k_BX rm c : P c -> keeps P (BX rm c).
Proof. intros H. unfold BX. destruct (getBit rm 0); cbn [keeps]; [exact I|]. keep. Qed.
Lemma k_behavior_blx2 rm c : P c -> keeps P (behavior_blx2 rm c).
Proof. intros H. unfold behavior_blx2. cbv zeta. destruct (getBit _ 0); cbn [keeps]; [exact I|]. keep. Qed.
Lemma k_MRS rd r z s2 f2 s1 rm f c : P c -> P (MRS rd r z s2 f2 s1 rm f c).
Proof. intros H. unfold MRS. keep. Qed.

Lemma k_behavior_msr1 r f rm c : P c -> P (behavior_msr1 r f rm c).
Proof. intros H. unfold behavior_msr1. keep. Qed.
Lemma k_behavior_msr2 r f rotate imm8 c : 0 <= imm8 < 2 ^ 8 -> P c -> P (behavior_msr2 r f rotate imm8 c).
Proof. intros Hi H. unfold behavior_msr2. keep. Qed.

(** ** Loads, stores and the instructions *)

Section Machine.
Context {mem : Type} `{!MemPort mem} `{!CoprocPort mem} (M : mem -> Prop).
Notation machine := (core * mem)%type.

Definition inv (m : machine) : Prop := P m.1 /\ M m.2.

(** The ports keep the invariant and give words. *)
Record ports_keep : Prop := {
  pk_read : forall a m, word a -> inv m -> gives (fun v => word v) inv (MEM_read a m);
  pk_read_byte : forall a m, word a -> inv m -> gives (fun v => word v) inv (MEM_read_byte a m);
  pk_write : forall a v m, word a -> word v -> inv m -> keeps inv (MEM_write a v m);
  pk_write_half : forall a v m, word a -> word v -> inv m -> keeps inv (MEM_write_half a v m);
  pk_write_byte : forall a v m, word a -> word v -> inv m -> keeps inv (MEM_write_byte a v m);
  pk_MCR : forall cp pl f2 f3 n k v mm, word v -> M mm -> M (CP_MCR cp pl f2 f3 n k v mm);
  pk_MRC : forall cp pl f2 f3 n k mm, M mm ->
    word (fst (CP_MRC cp pl f2 f3 n k mm)) /\ M (snd (CP_MRC cp pl f2 f3 n k mm))
}.
Context (L : ports_keep).

Lemma inv_core f m : (P m.1 -> P (f m.1)) -> inv m -> inv (on_core f m).
Proof. intros Hf [H1 H2]. split; [apply Hf, H1|exact H2]. Qed.

Lemma keeps_bind {A} (Q : A -> Prop) (x : flow machine (A * machine)) f :
  gives Q inv x -> (forall a m, Q a -> inv m -> keeps inv (f (a, m))) -> keeps inv (x ≫= f).
Proof. destruct x as [[a m]|m|st]; cbn; intros H Hf; [apply Hf; tauto|exact H|exact I]. Qed.

Lemma keeps_then (x : flow machine machine) f :
  keeps inv x -> (forall m, inv m -> keeps inv (f m)) -> keeps inv (x ≫= f).
Proof. destruct x; cbn; intros H Hf; [apply Hf, H|exact H|exact I]. Qed.

Lemma k_done m : inv m -> keeps inv (done m).
Proof. apply inv_core. apply k_sync. Qed.

Lemma addr_word m : inv m -> word (addr m).
Proof. intros [H _]. apply k_ls, H. Qed.
Lemma reg_word m r : inv m -> word (reg m r).
Proof. intros [H _]. apply k_read, H. Qed.
#[local] Hint Resolve addr_word reg_word : wf.

(** Follows a transfer. *)
Ltac transfer := repeat match goal with
  | H : inv ?m |- inv ?m => exact H
  | |- keeps inv (MEM_read _ _ ≫= _) => eapply keeps_bind; [apply (pk_read L); [eauto 6 with wf|]|intros ? ? ? ?; cbv beta iota]
  | |- keeps inv (MEM_read_byte _ _ ≫= _) => eapply keeps_bind; [apply (pk_read_byte L); [eauto 6 with wf|]|intros ? ? ? ?; cbv beta iota]
  | |- keeps inv (MEM_write _ _ _ ≫= _) => apply keeps_then; [apply (pk_write L); [eauto 6 with wf|eauto 6 with wf|]|intros ? ?]
  | |- keeps inv (MEM_write_half _ _ _ ≫= _) => apply keeps_then; [apply (pk_write_half L); [eauto 6 with wf|eauto 6 with wf|]|intros ? ?]
  | |- keeps inv (MEM_write_byte _ _ _ ≫= _) => apply keeps_then; [apply (pk_write_byte L); [eauto 6 with wf|eauto using uwrap_word with wf|]|intros ? ?]
  | |- keeps inv (if ?b then _ else _) => destruct b
  | |- keeps inv (Next _) => cbn [keeps]
  | |- keeps inv (Stop _) => exact I
  | |- keeps inv (done _) => apply k_done
  | |- inv (on_core _ _) => apply inv_core; [intros; cbv beta; keep|]
  | |- inv (next_word _) => apply inv_core; [intros; cbv beta; keep|]
  end.

Lemma u8_word v : word (u8 v).
Proof. apply uwrap_word. lia. Qed.
#[local] Hint Resolve u8_word : wf.

Lemma k_ls_behavior o rd m : inv m -> keeps inv (ls_behavior o rd m).
Proof.
  intros H. destruct o; cbn [ls_behavior]; unfold LDRT, LDRBT, LDR, LDRB, STRT, STRBT, STR, STRB; transfer.
Qed.

Lemma k_LDRD rd m : inv m -> keeps inv (LDRD rd m).
Proof. intros H. unfold LDRD. transfer. Qed.
Lemma k_LDRH rd m : inv m -> keeps inv (LDRH rd m).
Proof. intros H. unfold LDRH. transfer. Qed.
Lemma k_LDRSB rd m : inv m -> keeps inv (LDRSB rd m).
Proof. intros H. unfold LDRSB. transfer. Qed.
Lemma k_LDRSH rd m : inv m -> keeps inv (LDRSH rd m).
Proof. intros H. unfold LDRSH. transfer. Qed.
Lemma k_STRH rd m : inv m -> keeps inv (STRH rd m).
Proof. intros H. unfold STRH. transfer. Qed.
Lemma k_STRD rd m : inv m -> keeps inv (STRD rd m).
Proof. intros H. unfold STRD. transfer. Qed.

Lemma k_for_each f l m : (forall m i, inv m -> keeps inv (f m i)) -> inv m -> keeps inv (for_each f l m).
Proof.
  intros Hf. revert m. induction l as [|i l IH]; intros m H; cbn [for_each]; [exact H|].
  apply keeps_then; [apply Hf, H|]. exact IH.
Qed.

Lemma k_load_reg put rlist m i : (forall r v c, word v -> P c -> P (put r v c)) -> inv m ->
  keeps inv (load_reg put rlist m i).
Proof.
  intros Hp H. unfold load_reg. transfer. apply Hp; assumption.
Qed.

Lemma k_store_reg get rlist m i : (forall c r, P c -> word (get c r)) -> inv m ->
  keeps inv (store_reg get rlist m i).
Proof. intros Hg H. unfold store_reg. transfer. apply Hg, H. Qed.

Lemma k_start_list m : inv m -> inv (start_list m).
Proof. apply inv_core. intros H. keep. Qed.

Lemma k_LDM rlist r m : inv m -> keeps inv (LDM rlist r m).
Proof.
  intros H. unfold LDM. destruct (negb r); [|destruct (is_PL0 m.1); [exact I|]];
    (apply keeps_then; [apply k_for_each; [intros; apply k_load_reg; [intros; keep|assumption]|apply k_start_list, H]|]);
    intros m' H'; (apply keeps_then; [|intros; apply k_done; assumption]); transfer.
Qed.

Lemma k_STM rlist r m : inv m -> keeps inv (STM rlist r m).
Proof.
  intros H. unfold STM. destruct (negb r); [|destruct (is_PL0 m.1); [exact I|]];
    (apply keeps_then; [apply k_for_each; [intros; apply k_store_reg; [intros; auto with wf|assumption]|apply k_start_list, H]|]);
    intros; apply k_done; assumption.
Qed.

Lemma k_SWP rd rn rm m : inv m -> keeps inv (SWP rd rn rm m).
Proof. intros H. unfold SWP. cbv zeta. transfer. repeat case_match; auto with wf. Qed.
Lemma k_SWPB rd rn rm m : inv m -> keeps inv (SWPB rd rn rm m).
Proof. intros H. unfold SWPB. cbv zeta. transfer. Qed.

Lemma k_ldrex rd rn m : inv m -> keeps inv (behavior_ldrex rd rn m).
Proof. intros H. apply (k_ls_behavior op_ldr). transfer. Qed.
Lemma k_strex rd rn rt m : inv m -> keeps inv (behavior_strex rd rn rt m).
Proof. intros H. apply keeps_then; [apply (k_ls_behavior op_str); transfer|]. intros. transfer. Qed.

(** The instructions that service an exception. *)
Definition takes_exception (F : string -> Z) (i : instr) : bool :=
  match i with swi => true | mcr | mrc => negb (CP_present (F "cp_num")) | _ => false end.

Definition exceptions_keep : Prop := forall e m, inv m -> inv (interrupt e m).

Lemma k_MCR cp f2 f3 n k rd m : (CP_present cp = false -> exceptions_keep) -> inv m -> keeps inv (MCR cp f2 f3 n k rd m).
Proof.
  intros He H. unfold MCR. destruct (rd =? PC); [exact H|]. destruct (CP_present cp); cbn [negb keeps].
  - split; [apply H|]. apply (pk_MCR L); [auto with wf|apply H].
  - apply He; [reflexivity|exact H].
Qed.

Lemma k_MRC cp f2 f3 n k rd m : (CP_present cp = false -> exceptions_keep) -> inv m -> keeps inv (MRC cp f2 f3 n k rd m).
Proof.
  intros He H. unfold MRC. destruct (CP_present cp); cbn [negb keeps]; [|apply He; [reflexivity|exact H]].
  destruct (pk_MRC L cp (getPrivilegeLevel (arm_proc_mode m.1)) f2 f3 n k m.2 ltac:(apply H)) as [Hv HM].
  destruct (CP_MRC _ _ _ _ _ _ _) as [v mm]. cbn [fst snd] in Hv, HM.
  assert (H' : inv (m.1, mm)) by (split; [apply H|exact HM]). cbv zeta. transfer.
Qed.

(** The fields of a decoded word that hold parts of an operand. *)
Definition fields_ok (F : string -> Z) : Prop :=
  0 <= F "imm4" < 16 /\ 0 <= F "imm12" < 2 ^ 12 /\ 0 <= F "imm8" < 2 ^ 8.

Lemma k_pure f m : (P m.1 -> P (f m.1)) -> inv m -> keeps inv (pure f m).
Proof. apply inv_core. Qed.

Lemma k_core_step f m : (P m.1 -> keeps P (f m.1)) -> inv m -> keeps inv (core_step f m).
Proof.
  intros Hf [H1 H2]. unfold core_step. specialize (Hf H1). destruct (f m.1); cbn [keeps] in *; try split; assumption.
Qed.

Lemma k_then f g m : keeps inv (f m) -> (forall m, inv m -> keeps inv (g m)) -> keeps inv (then_ f g m).
Proof. apply keeps_then. Qed.

Create HintDb step discriminated.
#[local] Hint Constants Opaque : step.
#[local] Hint Resolve k_dpi k_DPI1 k_DPI2 k_DPI3 k_DPI4 k_DPI5 k_PCK1 k_DSPSM k_LSI k_LSR k_LSE k_LSM
  k_MOV k_MOVT k_BFI k_UBFX k_SBFX k_UXTB k_UXTH k_SXTH k_REV k_PKH k_B k_BX k_behavior_blx2 k_CLZ k_MRS
  k_behavior_msr1 k_behavior_msr2 k_MUL k_MLA k_MLS k_SMULL k_UMULL k_SMLAL k_UMLAL k_DSMLA k_DSMUL
  k_ls_behavior k_LDRD k_LDRH k_LDRSB k_LDRSH k_STRH k_STRD k_LDM k_STM k_SWP k_SWPB k_ldrex k_strex k_MCR k_MRC : step.

(** Follows the sequence of steps of a behaviour. *)
Ltac steps := repeat match goal with
  | |- keeps inv (then_ _ _ _) => apply k_then; [|intros ? ?]
  | |- keeps inv (pure _ _) => apply k_pure; [intros ?|assumption]
  | |- keeps inv (core_step _ _) => apply k_core_step; [intros ?|assumption]
  | |- keeps inv (Next _) => cbn [keeps]
  end.

Lemma behavior_keeps F i m : fields_ok F -> (takes_exception F i = true -> exceptions_keep) ->
  inv m -> keeps inv (behavior F i m).
Proof.
  intros (H4 & H12 & H8) He H.
  destruct i; cbn [behavior takes_exception] in *;
    unfold run_dpi1, run_dpi2, run_dpi3, run_ls1, run_ls2, run_lse, run_lsm; steps; auto with step.
  - apply k_MCR; [|exact H]. intros Hp. apply He. rewrite Hp. reflexivity.
  - apply k_MRC; [|exact H]. intros Hp. apply He. rewrite Hp. reflexivity.
  - apply (He eq_refl EXCEPTION_SWI m H).
Qed.

Context (decode : Z -> machine -> flow machine (Z * (string -> Z) * machine)).

(** The decode unit keeps the invariant and gives fields of their widths. *)
Definition decode_keeps : Prop := forall a m, word a -> inv m -> gives (fun r => fields_ok r.2) inv (decode a m).

Lemma loop_body_keeps m : decode_keeps -> exceptions_keep -> inv m -> keeps inv (loop_body decode m).
Proof.
  intros Hd He H. unfold loop_body. assert (Hpc := k_pc_word m.1 (proj1 H)). specialize (Hd (ac_pc m.1) m Hpc H).
  destruct (decode (ac_pc m.1) m) as [[[id F] m']|m'|st]; cbn in Hd |- *; [|exact Hd|exact I].
  destruct Hd as [HF H']. destruct (instr_of_id id) as [i|]; [|exact I].
  apply keeps_then.
  - apply k_core_step; [intros; apply k_instruction; assumption|]. apply inv_core; [intros; keep|exact H'].
  - intros m'' H''. apply behavior_keeps; [exact HF|intros _; exact He|exact H''].
Qed.

Lemma run_keeps n m m' : decode_keeps -> exceptions_keep -> inv m -> run decode n m = Some m' -> inv m'.
Proof.
  intros Hd He. revert m. induction n as [|n IH]; cbn [run]; intros m H Hr.
  - injection Hr as <-. exact H.
  - unfold next_state in Hr. assert (Hk := loop_body_keeps m Hd He H).
    destruct (loop_body decode m) as [m1|m1|st]; cbn in Hr, Hk; [exact (IH m1 Hk Hr)|exact (IH m1 Hk Hr)|discriminate].
Qed.

End Machine.
End Closed.

(** ** The state stays well formed *)

Definition well_formed (c : core) : Prop := wf_core c /\ pm_thumb (arm_proc_mode c) = false.

Lemma wf_set_banked q v c : word v -> wf_core c -> wf_core (set_banked q v c).
Proof.
  intros Hv W. assert (Hb := wf_banked _ W). destruct W. split; try assumption.
  intros p. cbn [set_banked banked]. destruct (decide (p = q)); [exact Hv|apply Hb].
Qed.

Lemma wf_RB_write r v c : word v -> wf_core c -> wf_core (RB_write r v c).
Proof.
  intros Hv W. unfold bypass_write. destruct (bypass_reg (mode_of c) r) as [[[]|q]|]; [|apply wf_set_banked; assumption|exact W].
  destruct W. split; try assumption; cbn [bank_write set_RB RB]; [rewrite length_insert; assumption|].
  apply Forall_insert; assumption.
Qed.

Lemma wf_writeCPSR v c : wf_core c -> wf_core (writeCPSR v c).
Proof.
  intros []. split; try assumption. unfold mode_of, writeCPSR. cbn [arm_proc_mode set_mode pm_mode].
  unfold MODE_MASK. change 0x1F with (Z.ones 5). rewrite Z.land_ones by lia. apply Z.mod_pos_bound. lia.
Qed.

Lemma msr_field_word f k mask src res : word mask -> word src -> word res -> word (msr_field f k mask src res).
Proof. intros. unfold msr_field. destruct (getBit f k); auto with wf. Qed.

Lemma wf_bank_write r v c : word v -> wf_core c -> wf_core (bank_write c r v).
Proof.
  intros Hv []. split; try assumption; cbn [bank_write set_RB RB]; [rewrite length_insert; assumption|].
  apply Forall_insert; assumption.
Qed.

Lemma readSPSR_word c : wf_core c -> word (readSPSR c).
Proof. intros W. unfold readSPSR. destruct (spsr_reg _); [apply (wf_banked _ W)|lia]. Qed.

Lemma wf_msr r f src c : word src -> wf_core c -> wf_core (msr r f src c).
Proof.
  intros Hs W. unfold msr. destruct r; [|apply wf_writeCPSR, W].
  unfold writeSPSR. destruct (spsr_reg _); [|exact W]. apply wf_set_banked; [|exact W].
  repeat (apply msr_field_word; [lia|exact Hs|]). apply readSPSR_word, W.
Qed.

Lemma msr_thumb r f src c : pm_thumb (arm_proc_mode (msr r f src c)) = pm_thumb (arm_proc_mode c).
Proof. unfold msr, writeSPSR. destruct r; [destruct (spsr_reg _)|]; reflexivity. Qed.

Lemma restore_thumb c : pm_thumb (arm_proc_mode (SPSRtoCPSR c)) = pm_thumb (arm_proc_mode c).
Proof. unfold SPSRtoCPSR. destruct (spsr_reg _); reflexivity. Qed.

Lemma RB_write_mode r v c : arm_proc_mode (RB_write r v c) = arm_proc_mode c.
Proof. apply RB_write_frame. Qed.

Lemma wf_restore c : wf_core c -> wf_core (SPSRtoCPSR c).
Proof. intros W. unfold SPSRtoCPSR. destruct (spsr_reg _); [apply wf_writeCPSR, W|exact W]. Qed.

Lemma wf_set_pc v c : word v -> wf_core c -> wf_core (set_pc v c).
Proof. intros Hv []. split; assumption. Qed.

Lemma wf_service_interrupt vbar e c : wf_core c -> wf_core (service_interrupt vbar e c).
Proof.
  intros W. assert (Hc := readCPSR_word c (wf_mode _ W)). assert (Hp := wf_pc _ W). unfold service_interrupt.
  destruct e; repeat case_match; try exact W; simplify_eq; apply wf_writeCPSR, wf_set_pc; auto with wf;
    repeat apply wf_set_banked; auto with wf; lia.
Qed.

Lemma service_interrupt_thumb vbar e c :
  pm_thumb (arm_proc_mode (service_interrupt vbar e c)) = pm_thumb (arm_proc_mode c).
Proof. unfold service_interrupt. destruct e; repeat case_match; simplify_eq; reflexivity. Qed.

Lemma well_formed_closed : closed well_formed.
Proof.
  split; try (intros; apply H); try (intros; match goal with H : well_formed _ |- _ => destruct H as [[] Ht] end; split; [split; assumption|exact Ht]).
  - intros r v c Hv [W Ht]. split; [apply wf_RB_write; assumption|rewrite RB_write_mode; exact Ht].
  - intros r v c Hv [W Ht]. split; [apply wf_bank_write; assumption|exact Ht].
  - intros c [W Ht]. split; [apply wf_restore, W|rewrite restore_thumb; exact Ht].
  - intros r f src c Hs [W Ht]. split; [apply wf_msr; assumption|rewrite msr_thumb; exact Ht].
Qed.

(** Every reachable state is well formed: when the memory, coprocessor and
    decode ports keep a property of the memory, give words and fields of their
    widths, then from a well-formed core every run of the fetch loop, whatever
    instructions and exceptions it meets, ends in a core whose registers, saved
    status words, addresses and operands are 32-bit words, whose register bank
    has its 31 entries, whose mode has five bits and whose Thumb mark is clear. *)
Theorem run_well_formed {mem} `{!MemPort mem} `{!CoprocPort mem} (M : mem -> Prop)
    (decode : Z -> core * mem -> flow (core * mem) (Z * (string -> Z) * (core * mem))) n m m' :
  ports_keep well_formed M -> decode_keeps well_formed M decode ->
  well_formed m.1 -> M m.2 -> run decode n m = Some m' -> well_formed m'.1 /\ M m'.2.
Proof.
  intros L Hd Hw HM. apply (run_keeps well_formed well_formed_closed M L decode n m m' Hd).
  - intros e m1 [[W Ht] HM1]. split; [|exact HM1]. split; [apply wf_service_interrupt, W|].
    unfold interrupt. cbn [on_core fst]. rewrite service_interrupt_thumb. exact Ht.
  - split; assumption.
Qed.

(** ** User mode *)

(** The core is in user mode with the masks and private registers of [c0]. *)
Definition confined (c0 c : core) : Prop :=
  well_formed c /\ mode_of c = USER_MODE /\ arm_proc_mode c = arm_proc_mode c0 /\ (forall q, banked c q = banked c0 q).

Lemma user_write r v c : mode_of c = USER_MODE -> RB_write r v c = bank_write c r v.
Proof. intros H. unfold bypass_write. rewrite H. reflexivity. Qed.

Lemma msr_field_high f src res i : word src -> word res -> 0 <= i < 24 ->
  Z.testbit (msr_field f 3 0xFF000000 src res) i = Z.testbit res i.
Proof.
  intros Hs Hr Hi. unfold msr_field. destruct (getBit f 3); [|reflexivity].
  assert (Hm : Z.testbit 0xFF000000 i = false).
  { change 0xFF000000 with (Z.shiftl 0xFF 24). apply Z.shiftl_spec_low. lia. }
  rewrite Z.lor_spec, !Z.land_spec, testbit_not32, Hm by lia. replace (i <? 32) with true by lia.
  rewrite andb_false_r, orb_false_r. apply andb_true_r.
Qed.

Lemma msr_user r f src c : word src -> well_formed c -> mode_of c = USER_MODE ->
  arm_proc_mode (msr r f src c) = arm_proc_mode c /\ banked (msr r f src c) = banked c.
Proof.
  intros Hs [W Ht] Hu. assert (Hm := wf_mode _ W). assert (Hc := readCPSR_word c Hm). unfold msr.
  assert (Hp : getPrivilegeLevel (arm_proc_mode c) = PL0)
    by (unfold getPrivilegeLevel; fold (mode_of c); rewrite Hu; reflexivity).
  destruct r; [unfold writeSPSR; rewrite Hu; split; reflexivity|]. rewrite Hp. split; [|reflexivity].
  unfold writeCPSR. cbn [arm_proc_mode set_mode set_flags]. unfold getBit.
  rewrite !msr_field_high, (land_mode _ (mode_of c)) by (try assumption; try lia;
    intros i Hi; rewrite msr_field_high, testbit_readCPSR by (assumption || lia);
    assert (Hi' : 0 <= i < 32) by lia; bit_number i Hi'; try lia; reflexivity).
  rewrite !testbit_readCPSR by lia. unfold cpsr_bit, mode_of. destruct (arm_proc_mode c); reflexivity.
Qed.

Lemma confined_closed c0 : closed (confined c0).
Proof.
  assert (C := well_formed_closed).
  split; unfold confined; intros;
    match goal with H : well_formed ?c /\ _ |- _ => destruct H as (Hw & Hu & Hp & Hb) end;
    try (split; [apply C; assumption|]); try assumption; try (split; [assumption|split; assumption]).
  - apply Hw.
  - rewrite user_write by assumption. split; [assumption|split; assumption].
  - unfold SPSRtoCPSR. rewrite Hu. split; [assumption|split; assumption].
  - destruct (msr_user r fieldmask src c H Hw Hu) as [E1 E2]. unfold mode_of. rewrite E1, E2.
    split; [assumption|split; assumption].
Qed.

(** Ports that, with a property of the memory they keep, leave the core alone. *)
Record quiet {mem} `{!MemPort mem} `{!CoprocPort mem} (M : mem -> Prop) : Prop := {
  q_read : forall a (m : core * mem), word a -> M m.2 -> word (undefined m.1) ->
    gives (fun v => word v) (fun m' => m'.1 = m.1 /\ M m'.2) (MEM_read a m);
  q_read_byte : forall a (m : core * mem), word a -> M m.2 -> word (undefined m.1) ->
    gives (fun v => word v) (fun m' => m'.1 = m.1 /\ M m'.2) (MEM_read_byte a m);
  q_write : forall a v (m : core * mem), word a -> M m.2 -> word (undefined m.1) -> word v -> keeps (fun m' => m'.1 = m.1 /\ M m'.2) (MEM_write a v m);
  q_write_half : forall a v (m : core * mem), word a -> M m.2 -> word (undefined m.1) -> word v -> keeps (fun m' => m'.1 = m.1 /\ M m'.2) (MEM_write_half a v m);
  q_write_byte : forall a v (m : core * mem), word a -> M m.2 -> word (undefined m.1) -> word v -> keeps (fun m' => m'.1 = m.1 /\ M m'.2) (MEM_write_byte a v m);
  q_MCR : forall cp pl f2 f3 n k v mm, word v -> M mm -> M (CP_MCR cp pl f2 f3 n k v mm);
  q_MRC : forall cp pl f2 f3 n k mm, M mm ->
    word (fst (CP_MRC cp pl f2 f3 n k mm)) /\ M (snd (CP_MRC cp pl f2 f3 n k mm))
}.
Arguments quiet mem {_ _} M.

Lemma quiet_gives {mem A} (P : core -> Prop) (M : mem -> Prop) (Q : A -> Prop) (m : core * mem) x :
  gives Q (fun m' => m'.1 = m.1 /\ M m'.2) x -> P m.1 -> gives Q (inv P M) x.
Proof.
  intros H HP. destruct x as [[a m']|m'|st]; cbn in *; [destruct H as (HQ & E & HM)|destruct H as (E & HM)|];
    unfold inv; rewrite ?E; tauto.
Qed.

Lemma quiet_keeps {mem} (P : core -> Prop) (M : mem -> Prop) (m : core * mem) x :
  keeps (fun m' => m'.1 = m.1 /\ M m'.2) x -> P m.1 -> keeps (inv P M) x.
Proof.
  intros H HP. destruct x as [m'|m'|st]; cbn in *; [destruct H as (E & HM)|destruct H as (E & HM)|];
    unfold inv; rewrite ?E; tauto.
Qed.

Lemma quiet_keep {mem} `{!MemPort mem} `{!CoprocPort mem} P (M : mem -> Prop) :
  closed P -> quiet mem M -> ports_keep P M.
Proof.
  intros K Q. assert (Hu : forall c, P c -> word (undefined c)) by (intros c H; apply (wf_undefined _ (cl_wf _ K c H))).
  split.
  - intros a m Ha [HP HM]. exact (quiet_gives P M _ m _ (q_read _ Q a m Ha HM (Hu _ HP)) HP).
  - intros a m Ha [HP HM]. exact (quiet_gives P M _ m _ (q_read_byte _ Q a m Ha HM (Hu _ HP)) HP).
  - intros a v m Ha Hv [HP HM]. exact (quiet_keeps P M m _ (q_write _ Q a v m Ha HM (Hu _ HP) Hv) HP).
  - intros a v m Ha Hv [HP HM]. exact (quiet_keeps P M m _ (q_write_half _ Q a v m Ha HM (Hu _ HP) Hv) HP).
  - intros a v m Ha Hv [HP HM]. exact (quiet_keeps P M m _ (q_write_byte _ Q a v m Ha HM (Hu _ HP) Hv) HP).
  - apply (q_MCR _ Q).
  - apply (q_MRC _ Q).
Qed.

(** C17. User mode: while no exception is taken a program in user mode stays
    confined; every instruction other than a software interrupt or an access to
    an absent coprocessor, with memory ports that raise no abort, leaves the
    mode, the interrupt masks and all registers of the other modes, the saved
    status words included, as they were. *)
Theorem user_mode_confined {mem} `{!MemPort mem} `{!CoprocPort mem} (M : mem -> Prop) F i (m m' : core * mem) :
  quiet mem M -> M m.2 -> fields_ok F -> takes_exception F i = false -> well_formed m.1 -> mode_of m.1 = USER_MODE ->
  behavior F i m = Next m' \/ behavior F i m = Annul m' ->
  mode_of m'.1 = USER_MODE /\ arm_proc_mode m'.1 = arm_proc_mode m.1 /\ forall q, banked m'.1 q = banked m.1 q.
Proof.
  intros Q HM HF Ht Hw Hu Hb.
  assert (Hk : keeps (inv (confined m.1) M) (behavior F i m)).
  { apply behavior_keeps; [apply confined_closed|apply quiet_keep; [apply confined_closed|exact Q]|exact HF|congruence|].
    split; [|exact HM]. split; [exact Hw|split; [exact Hu|split; reflexivity]]. }
  destruct Hb as [Hb|Hb]; rewrite Hb in Hk; destruct Hk as [(_ & H1 & H2 & H3) _];
    (split; [exact H1|split; assumption]).
Qed.
