(* ===== verification/ArmMmu.v ===== *)
(** * The memory system of the ARM platform

    Coprocessor 15 ([cp15.cpp]), the memory management unit ([mmu.cpp], built
    without its TLB), the bus ([bus.cpp]), the memories ([ram.h], [ram.cpp],
    [rom.h], [rom.cpp]) and the memory port of the core ([ac_tlm_port.cpp] and
    [ac_memport.H] of the library).  Together they implement the interfaces
    [MemPort] and [CoprocPort] of the core.  Host and target are little endian. *)
From S2P Require Import Prelude ArmCore ArmFormats ArmData ArmMem ArmIsa.

(** ** Coprocessor 15 *)

(** The registers by their hash.  No callback is ever installed. *)
Definition cp15 : Type := Z -> Z.

Definition CONTROL : Z := 0x1000.
Definition TRANSLATION_TABLE_BASE_0 : Z := 0x2000.
Definition TRANSLATION_TABLE_BASE_1 : Z := 0x2001.
Definition TRANSLATION_TABLE_BASE_CONTROL : Z := 0x2002.
Definition SECURE_OR_NONSECURE_VECTOR_BASE_ADDRESS : Z := 0xc000.

(** The registers [reset] gives a value other than 0. *)
Definition reset_values : list (Z * Z) :=
  [(0x0000, 0x412fc080); (0x0001, 0x80048004); (0x0003, 0x00202001);
   (0x0010, 0x00001031); (0x0011, 0x00000011); (0x0012, 0x00000400);
   (0x0014, 0x31100003); (0x0015, 0x20000000); (0x0016, 0x01202000); (0x0017, 0x00000011);
   (0x0020, 0x00101111); (0x0021, 0x12112111); (0x0022, 0x21232031); (0x0023, 0x11112131); (0x0024, 0x00011142);
   (0x0101, 0x0a000023); (CONTROL, 0x00c50078); (0x1001, 0x00000002);
   (0x90c0, 0x41002000); (0x9102, 0x00000042); (0xa020, 0x00098aa4); (0xa021, 0x44304830)].

Definition reset : cp15 := fun h =>
  match find (fun p => fst p =? h) reset_values with Some p => snd p | None => 0 end.

Definition getRegister (opc1 opc2 crn crm : Z) : Z :=
  Z.lor (Z.lor (Z.lor (Z.shiftl (Z.land crn 0xf) 12) (Z.shiftl (Z.land opc1 0xf) 8))
               (Z.shiftl (Z.land crm 0xf) 4)) (Z.land opc2 0xf).

Definition getRegisterValue (h : Z) (r : cp15) : Z := r h.

Definition cp15_MCR (opc1 opc2 crn crm rt_value : Z) (r : cp15) : cp15 :=
  let reg := getRegister opc1 opc2 crn crm in fun h => if h =? reg then rt_value else r h.

Definition cp15_MRC (opc1 opc2 crn crm : Z) (r : cp15) : Z := r (getRegister opc1 opc2 crn crm).

(** ** Devices *)

(** The interface [peripheral]; a read can change the device. *)
Class Peripheral (D : Type) := {
  read_signal : Z -> Z -> D -> Z * D;
  write_signal : Z -> Z -> Z -> D -> D
}.

(** The bytes of a memory.  [fast_read] and [fast_write] do not check their
    address: bytes past the end stand for what follows on the host. *)
Definition bytes : Type := Z -> Z.

Definition fast_read (address : Z) (memory : bytes) : Z :=
  memory address + 2 ^ 8 * memory (address + 1) + 2 ^ 16 * memory (address + 2) + 2 ^ 24 * memory (address + 3).

Definition fast_write (address datum : Z) (memory : bytes) : bytes := fun a =>
  if (address <=? a) && (a <? address + 4) then u8 (Z.shiftr datum (8 * (a - address))) else memory a.

Record ram_module := MkRam { ram_memory : bytes; blockNumber : Z }.
Record rom_module := MkRom { rom_data : bytes }.

#[export] Instance ram_peripheral : Peripheral ram_module := {|
  read_signal address _ r := (fast_read address (ram_memory r), r);
  write_signal address datum _ r := MkRam (fast_write address datum (ram_memory r)) (blockNumber r)
|}.

#[export] Instance rom_peripheral : Peripheral rom_module := {|
  read_signal address _ r := (fast_read address (rom_data r), r);
  write_signal _ _ _ r := r
|}.

(** ** Requests *)

Inductive ac_tlm_req_type := READ | WRITE.
Record ac_tlm_req := MkReq { req_type : ac_tlm_req_type; req_addr : Z; req_data : Z }.

(** [SUCCESS] or [ERROR]; the data of an error or of a write is undefined. *)
Record ac_tlm_rsp := MkRsp { success : bool; rsp_data : Z }.

(** ** The bus *)

Record mapped_device (D : Type) := MkMapped { device : D; start_address : Z; end_address : Z }.
Arguments MkMapped {D}.
Arguments device {D}.
Arguments start_address {D}.
Arguments end_address {D}.

Definition selects {D} (addr : Z) (d : mapped_device D) : bool := (start_address d <=? addr) && (addr <=? end_address d).

Record system (D : Type) := MkSystem { sys_cp15 : cp15; devices : list (mapped_device D) }.
Arguments MkSystem {D}.
Arguments sys_cp15 {D}.
Arguments devices {D}.

Section System.
Context {D : Type} `{!Peripheral D}.
Notation machine := (core * system D)%type.

Definition connect_device (d : D) (start_ end_ : Z) (l : list (mapped_device D)) : list (mapped_device D) :=
  l ++ [MkMapped d start_ end_].

(** The loop over the devices: the first one mapped at the address answers. *)
Fixpoint route (req : ac_tlm_req) (offset : Z) (l : list (mapped_device D)) : option (option Z * list (mapped_device D)) :=
  match l with
  | [] => None
  | cur :: l =>
      if selects (req_addr req) cur then
        let a := req_addr req - start_address cur in
        match req_type req with
        | READ =>
            let '(v, d) := read_signal a offset (device cur) in
            Some (Some v, MkMapped d (start_address cur) (end_address cur) :: l)
        | WRITE =>
            Some (None, MkMapped (write_signal a (req_data req) offset (device cur))
                          (start_address cur) (end_address cur) :: l)
        end
      else match route req offset l with Some (v, l) => Some (v, cur :: l) | None => None end
  end.

Definition vbar (s : system D) : Z := getRegisterValue SECURE_OR_NONSECURE_VECTOR_BASE_ADDRESS (sys_cp15 s).

(** [ac_tlm_intr_port::transport], the interrupt port of the core: only a write
    reaches the handler. *)
Definition intr_transport (vbar : Z) (type : ac_tlm_req_type) (value : exception_type) (c : core) : bool * core :=
  match type with WRITE => (true, service_interrupt vbar value c) | READ => (false, c) end.

(** [imx53_bus::transport]: without a device the bus sends the core a data
    abort, as a read request. *)
Definition bus_transport (req : ac_tlm_req) (m : machine) : ac_tlm_rsp * machine :=
  let '(c, s) := m in
  let offset := (req_addr req mod 4) * 8 in
  match route req offset (devices s) with
  | Some (v, l) => (MkRsp true (default (undefined c) v), (c, MkSystem (sys_cp15 s) l))
  | None =>
      let '(_, c) := intr_transport (vbar s) READ EXCEPTION_DATA_ABORT c in
      (MkRsp false (undefined c), (c, s))
  end.

(** ** The memory management unit *)

Definition translation_active (r : cp15) : bool := Z.testbit (r CONTROL) 0.

(** [for (i = hi; i >= lo; i--) setBit(mask, i)]. *)
Fixpoint set_down (n : nat) (lo mask : Z) : Z :=
  match n with O => mask | S n => set_down n lo (setBit mask (lo + Z.of_nat n)) end.
Definition bits_mask (hi lo : Z) : Z := set_down (Z.to_nat (hi - lo + 1)) lo 0.

(** [for (i = 31; i >= lo; i--) if (isBitSet(va, i))]. *)
Fixpoint any_set (n : nat) (lo va : Z) : bool :=
  match n with O => false | S n => getBit va (lo + Z.of_nat n) || any_set n lo va end.

Definition TTBCR_N (r : cp15) : Z := Z.land (r TRANSLATION_TABLE_BASE_CONTROL) 0x7.

(** The table base and whether it is the second one. *)
Definition ttb_address (va : Z) (r : cp15) : Z * bool :=
  let ttbcr_n := TTBCR_N r in
  let used := if ttbcr_n =? 0 then false else any_set (Z.to_nat ttbcr_n) (32 - ttbcr_n) va in
  let ttb := if used then r TRANSLATION_TABLE_BASE_1 else r TRANSLATION_TABLE_BASE_0 in
  (Z.land ttb (bits_mask 31 (14 - ttbcr_n)), used).

(** A read of a table entry: the data of the answer, whatever its status. *)
Definition table_walk (address : Z) (m : machine) : Z * machine :=
  let '(rsp, m) := bus_transport (MkReq READ address 0) m in (rsp_data rsp, m).

Inductive L1_entry := L1_FAULT | L1_PAGE (base_address : Z) | L1_SECTION (base_address : Z) | L1_SUPERSECTION.

Definition L1_table_walk (fla : Z) (m : machine) : L1_entry * machine :=
  let '(data, m) := table_walk fla m in
  (match Z.land data 0x3 with
   | 0 => L1_FAULT
   | 1 => L1_PAGE (Z.shiftr (Z.land data 0xFFFFFC00) 10)
   | _ => if getBit data 18 then L1_SUPERSECTION else L1_SECTION (Z.shiftr (Z.land data 0xFFF00000) 20)
   end, m).

Inductive L2_entry := L2_FAULT | L2_LARGE (base_address : Z) | L2_SMALL (base_address : Z).

Definition L2_table_walk (SLA : Z) (m : machine) : L2_entry * machine :=
  let '(data, m) := table_walk SLA m in
  (match Z.land data 0x3 with
   | 0 => L2_FAULT
   | 1 => L2_LARGE (Z.shiftr (Z.land data 0xFFFF0000) 16)
   | _ => L2_SMALL (Z.shiftr (Z.land data 0xFFFFF000) 12)
   end, m).

Definition L2_translate (base_address va : Z) (m : machine) : flow machine (Z * machine) :=
  let table_index := Z.shiftr (Z.land va 0xFF000) 12 in
  let page_entry_address := u32 (Z.shiftl (Z.lor (u32 (Z.shiftl base_address 8)) table_index) 2) in
  let '(page_entry, m) := L2_table_walk page_entry_address m in
  match page_entry with
  | L2_SMALL base => Next (Z.lor (u32 (Z.shiftl base 12)) (Z.land va 0xFFF), m)
  | L2_LARGE base => Next (Z.lor (u32 (Z.shiftl base 16)) (Z.land va 0xFFFF), m)
  | L2_FAULT => Stop 0
  end.

(** A first-level fault is only reported: the physical address stays 0. *)
Definition L1_translate (va : Z) (m : machine) : flow machine (Z * machine) :=
  let r := sys_cp15 m.2 in
  let '(ttb, used) := ttb_address va r in
  let ttbcr_n := if used then 0 else TTBCR_N r in
  let table_entry_index := Z.shiftr (Z.land va (bits_mask (31 - ttbcr_n) 20)) 20 in
  let first_level_entry_address := Z.lor ttb (u32 (Z.shiftl table_entry_index 2)) in
  let '(first_level_entry, m) := L1_table_walk first_level_entry_address m in
  match first_level_entry with
  | L1_PAGE base => L2_translate base va m
  | L1_SECTION base => Next (Z.lor (u32 (Z.shiftl base 20)) (Z.land va 0xFFFFF), m)
  | L1_SUPERSECTION => Stop 0
  | L1_FAULT => Next (0, m)
  end.

Definition MMU_transport (req : ac_tlm_req) (m : machine) : flow machine (ac_tlm_rsp * machine) :=
  if negb (translation_active (sys_cp15 m.2)) then Next (bus_transport req m)
  else
    '(phy_address, m) ← L1_translate (req_addr req) m;
    Next (bus_transport (MkReq (req_type req) phy_address (req_data req)) m).

(** ** The memory port *)

(** A word or its low byte; after an error the variable keeps what it held. *)
Definition port_read (low : Z -> Z) (address : Z) (m : machine) : flow machine (Z * machine) :=
  '(rsp, m) ← MMU_transport (MkReq READ address 0) m;
  Next (low (if success rsp then rsp_data rsp else undefined m.1), m).

Definition port_write (address datum : Z) (m : machine) : flow machine machine :=
  '(_, m) ← MMU_transport (MkReq WRITE address datum) m; Next m.

(** The low [w] bits of the word at the address are replaced. *)
Definition port_write_part (w : Z) (address datum : Z) (m : machine) : flow machine machine :=
  '(rsp, m) ← MMU_transport (MkReq READ address 0) m;
  let data := Z.lor (Z.shiftl (Z.shiftr (rsp_data rsp) w) w) (uwrap w datum) in
  '(_, m) ← MMU_transport (MkReq WRITE address data) m; Next m.

#[export] Instance system_mem : MemPort (system D) := {|
  MEM_read := port_read (fun v => v);
  MEM_read_byte := port_read u8;
  MEM_write := port_write;
  MEM_write_half := port_write_part 16;
  MEM_write_byte := port_write_part 8
|}.

#[export] Instance system_coproc : CoprocPort (system D) := {|
  vector_base := vbar;
  CP_present n := n =? 15;
  CP_MCR _ _ opc1 opc2 crn crm v s := MkSystem (cp15_MCR opc1 opc2 crn crm v (sys_cp15 s)) (devices s);
  CP_MRC _ _ opc1 opc2 crn crm s := (cp15_MRC opc1 opc2 crn crm (sys_cp15 s), s)
|}.
End System.
