(* ===== verification/ArmMemOk.v ===== *)
(** * Loads and stores of several registers

    The interface the transfers need of the memory, and what a store of several
    registers followed by the matching load restores. *)
From S2P Require Import Prelude ArmCore ArmFormats ArmData ArmMem ArmIsa ArmMmu ArmCoreOk ArmFormatsOk ArmDataOk ArmStepOk.

(** A memory port that behaves, in its [ready] states, as an array of bytes at
    the addresses it has words at. *)
Class Memory (mem : Type) `{!MemPort mem} := {
  ready : mem -> Prop;
  view : mem -> bytes;
  has : mem -> Z -> Prop;
  law_read : forall a c s, ready s -> has s a -> MEM_read a (c, s) = Next (fast_read a (view s), (c, s));
  law_read_byte : forall a c s, ready s -> has s a -> MEM_read_byte a (c, s) = Next (view s a, (c, s));
  law_write : forall a v c s, ready s -> has s a -> exists s',
    MEM_write a v (c, s) = Next (c, s') /\ ready s' /\
    (forall q, view s' q = fast_write a v (view s) q) /\ (forall q, has s q -> has s' q);
  law_write_half : forall a v c s, ready s -> has s a -> exists s',
    MEM_write_half a v (c, s) = Next (c, s') /\ ready s' /\
    (forall q, view s' q = if q =? a then u8 v else if q =? a + 1 then u8 (Z.shiftr v 8) else view s q) /\
    (forall q, has s q -> has s' q);
  law_write_byte : forall a v c s, ready s -> has s a -> exists s',
    MEM_write_byte a v (c, s) = Next (c, s') /\ ready s' /\
    (forall q, view s' q = if q =? a then u8 v else view s q) /\ (forall q, has s q -> has s' q)
}.

(** ** Words in an array of bytes *)

Lemma fast_read_ext f g a : (forall q, a <= q < a + 4 -> f q = g q) -> fast_read a f = fast_read a g.
Proof. intros H. unfold fast_read. rewrite !H by lia. reflexivity. Qed.

Lemma fast_read_write a v f : word v -> fast_read a (fast_write a v f) = v.
Proof.
  intros Hv. unfold fast_read, fast_write.
  assert (E : forall k, 0 <= k < 4 -> (a <=? a + k) && (a + k <? a + 4) = true) by (intros; lia).
  assert (E0 := E 0 ltac:(lia)). rewrite Z.add_0_r in E0. rewrite E0, !E by lia.
  rewrite !Z.add_simpl_l, Z.sub_diag. zlits. rewrite Z.shiftr_0_r.
  rewrite !Z.shiftr_div_pow2 by lia. unfold uwrap.
  change (2 ^ 8) with 256. change (2 ^ 16) with 65536. change (2 ^ 24) with 16777216.
  change (2 ^ 32) with 4294967296 in Hv. clear E E0. Z.div_mod_to_equations. lia.
Qed.

Lemma fast_read_other a v f q : q + 4 <= a \/ a + 4 <= q -> fast_read q (fast_write a v f) = fast_read q f.
Proof.
  intros H. apply fast_read_ext. intros x Hx. unfold fast_write.
  replace ((a <=? x) && (x <? a + 4)) with false by lia. reflexivity.
Qed.

Lemma next_bind {S A B} (a : A) (f : A -> flow S B) : (Next a ≫= f) = f a.
Proof. reflexivity. Qed.

Section Block.
Context {mem : Type} `{!MemPort mem} `{!CoprocPort mem} `{!Memory mem}.
Notation machine := (core * mem)%type.

(** ** The loops over a register list *)

Definition listed (rlist : Z) (l : list nat) : list nat := List.filter (fun i => getBit rlist (Z.of_nat i)) l.

Definition load_one (put : Z -> Z -> core -> core) (m : machine) (i : nat) : flow machine machine :=
  '(value, m) ← MEM_read (addr m) m; Next (next_word (on_core (put (Z.of_nat i) value) m)).
Definition store_one (get : core -> Z -> Z) (m : machine) (i : nat) : flow machine machine :=
  m ← MEM_write (addr m) (get m.1 (Z.of_nat i)) m; Next (next_word m).

Lemma for_each_listed one rlist (step_of : machine -> nat -> flow machine machine) l m :
  (forall m i, step_of m i = if getBit rlist (Z.of_nat i) then one m i else Next m) ->
  for_each step_of l m = for_each one (listed rlist l) m.
Proof.
  intros H. revert m. induction l as [|i l IH]; intros m; [reflexivity|].
  unfold listed. cbn [for_each List.filter]. rewrite H. destruct (getBit rlist (Z.of_nat i)); [|apply IH].
  cbn [for_each]. destruct (one m i); [apply IH|reflexivity|reflexivity].
Qed.

Lemma for_each_load put rlist l m : for_each (load_reg put rlist) l m = for_each (load_one put) (listed rlist l) m.
Proof. apply for_each_listed. reflexivity. Qed.

Lemma for_each_store get rlist l m : for_each (store_reg get rlist) l m = for_each (store_one get) (listed rlist l) m.
Proof. apply for_each_listed. reflexivity. Qed.

(** The words a list of registers takes from an address on. *)
Definition room (s : mem) (a : Z) (n : nat) : Prop := forall k, (k < n)%nat -> has s (a + 4 * Z.of_nat k).

Lemma store_words l a c s : ready s -> ls_address c = a -> word a -> a + 4 * Z.of_nat (length l) <= 2 ^ 32 ->
  (forall i, In i l -> word (RB_read c (Z.of_nat i))) -> room s a (length l) -> exists s',
  for_each (store_one RB_read) l (c, s) = Next (set_ls_address (u32 (a + 4 * Z.of_nat (length l))) c, s') /\
  ready s' /\ (forall q, has s q -> has s' q) /\
  (forall k i, l !! k = Some i -> fast_read (a + 4 * Z.of_nat k) (view s') = RB_read c (Z.of_nat i)) /\
  (forall q, q + 4 <= a -> fast_read q (view s') = fast_read q (view s)).
Proof.
  revert a c s. induction l as [|i l IH]; intros a c s Hr Ha Ha0 Hb Hw Hroom; cbn [for_each length].
  - exists s. rewrite Z.add_0_r, u32_id by (cbn in Hb; lia). repeat split; auto.
    + rewrite <- Ha. destruct c. reflexivity.
    + intros k j Hk. rewrite lookup_nil in Hk. discriminate.
  - cbn [length] in Hb. assert (Hh : has s a) by (rewrite <- (Z.add_0_r a); apply (Hroom 0%nat); cbn; lia).
    destruct (law_write a (RB_read c (Z.of_nat i)) c s Hr Hh) as (s1 & Hs1 & Hr1 & Hv1 & Hh1).
    set (c1 := set_ls_address (add_w (ls_address c) 4) c).
    assert (E : store_one RB_read (c, s) i = Next (c1, s1)).
    { rewrite <- Ha in Hs1. unfold store_one, addr. cbn [fst]. rewrite Hs1. reflexivity. }
    rewrite E, next_bind. clear E Hs1.
    assert (Hread : forall q, RB_read c1 q = RB_read c q) by reflexivity.
    destruct (Z.ltb_spec (a + 4) (2 ^ 32)) as [Hlt|Hge].
    + assert (E1 : ls_address c1 = a + 4) by (cbn; rewrite Ha; unfold add_w; apply u32_id; lia).
      destruct (IH (a + 4) c1 s1 Hr1 E1) as (s2 & -> & Hr2 & Hh2 & Hl2 & Ho2); [lia|lia|..].
      { intros j Hj. rewrite Hread. apply Hw. right. exact Hj. }
      { intros k Hk. apply Hh1. replace (a + 4 + 4 * Z.of_nat k) with (a + 4 * Z.of_nat (S k)) by lia. apply Hroom. cbn. lia. }
      exists s2. split; [replace (a + 4 * Z.of_nat (S (length l))) with (a + 4 + 4 * Z.of_nat (length l)) by lia; reflexivity|].
      split; [exact Hr2|]. split; [auto|]. split.
      * intros [|k] j Hk.
        -- injection Hk as ->. rewrite Z.mul_0_r, Z.add_0_r, Ho2 by lia.
           rewrite (fast_read_ext _ _ a (fun q _ => Hv1 q)). apply fast_read_write. apply Hw. left. reflexivity.
        -- replace (a + 4 * Z.of_nat (S k)) with (a + 4 + 4 * Z.of_nat k) by lia. rewrite <- Hread. apply Hl2. exact Hk.
      * intros q Hq. rewrite Ho2 by lia. rewrite (fast_read_ext _ _ q (fun x _ => Hv1 x)). apply fast_read_other. lia.
    + assert (Hl : l = []) by (destruct l; [reflexivity|cbn in Hb; lia]). subst l. cbn [for_each length].
      exists s1. split; [do 2 f_equal; unfold c1, add_w; rewrite Ha; reflexivity|]. split; [exact Hr1|]. split; [exact Hh1|]. split.
      * intros [|k] j Hk; [|rewrite lookup_nil in Hk || discriminate; discriminate]. injection Hk as ->.
        rewrite Z.mul_0_r, Z.add_0_r. rewrite (fast_read_ext _ _ a (fun q _ => Hv1 q)). apply fast_read_write. apply Hw. left. reflexivity.
      * intros q Hq. rewrite (fast_read_ext _ _ q (fun x _ => Hv1 x)). apply fast_read_other. lia.
Qed.
Lemma RB_write_length r v c : length (RB (RB_write r v c)) = length (RB c).
Proof.
  unfold bypass_write. destruct (bypass_reg (mode_of c) r) as [[[]|q]|]; try reflexivity.
  cbn [bank_write set_RB RB]. apply length_insert.
Qed.

Lemma mode_of_write r v c : mode_of (RB_write r v c) = mode_of c.
Proof. unfold mode_of. rewrite RB_write_mode. reflexivity. Qed.

Lemma load_words l a c s : ready s -> ls_address c = a -> word a -> a + 4 * Z.of_nat (length l) <= 2 ^ 32 ->
  length (RB c) = 31%nat -> In (mode_of c) modes -> (forall i, In i l -> (i < 16)%nat) -> List.NoDup l ->
  room s a (length l) -> exists c',
  for_each (load_one RB_write) l (c, s) = Next (c', s) /\
  length (RB c') = 31%nat /\ mode_of c' = mode_of c /\
  (forall k i, l !! k = Some i -> RB_read c' (Z.of_nat i) = fast_read (a + 4 * Z.of_nat k) (view s)) /\
  (forall q, 0 <= q < 16 -> ~ In (Z.to_nat q) l -> RB_read c' q = RB_read c q).
Proof.
  revert a c. induction l as [|i l IH]; intros a c Hr Ha Ha0 Hb Hl Hm Hi Hn Hroom; cbn [for_each length].
  - exists c. repeat split; auto. intros k j Hk. rewrite lookup_nil in Hk. discriminate.
  - cbn [length] in Hb. assert (Hh : has s a) by (rewrite <- (Z.add_0_r a); apply (Hroom 0%nat); cbn; lia).
    apply List.NoDup_cons_iff in Hn as [Hni Hn]. assert (Hi16 := Hi i (or_introl eq_refl)).
    set (v := fast_read a (view s)).
    set (c1 := set_ls_address (add_w (ls_address (RB_write (Z.of_nat i) v c)) 4) (RB_write (Z.of_nat i) v c)).
    assert (E : load_one RB_write (c, s) i = Next (c1, s)).
    { unfold load_one, addr. cbn [fst]. rewrite Ha, law_read by assumption. reflexivity. }
    rewrite E, next_bind. clear E.
    assert (Hls : ls_address (RB_write (Z.of_nat i) v c) = a).
    { destruct (RB_write_frame (Z.of_nat i) v c) as (_ & _ & _ & _ & _ & _ & -> & _). exact Ha. }
    assert (Hread : forall q, 0 <= q < 16 -> RB_read c1 q = if q =? Z.of_nat i then v else RB_read c q).
    { intros q Hq. rewrite <- RB_read_write by (assumption || lia). reflexivity. }
    assert (Hl1 : length (RB c1) = 31%nat) by (rewrite <- Hl; apply (RB_write_length (Z.of_nat i) v c)).
    assert (Hm1 : mode_of c1 = mode_of c) by apply (mode_of_write (Z.of_nat i) v c).
    destruct (Z.ltb_spec (a + 4) (2 ^ 32)) as [Hlt|Hge].
    + destruct (IH (a + 4) c1) as (c2 & -> & Hl2 & Hm2 & Hin & Hout); try assumption; try lia.
      { cbn. rewrite Hls. unfold add_w. apply u32_id. lia. }
      { rewrite Hm1. exact Hm. }
      { intros j Hj. apply Hi. right. exact Hj. }
      { intros k Hk. replace (a + 4 + 4 * Z.of_nat k) with (a + 4 * Z.of_nat (S k)) by lia. apply Hroom. cbn. lia. }
      exists c2. split; [reflexivity|]. split; [exact Hl2|]. split; [congruence|]. split.
      * intros [|k] j Hk.
        -- injection Hk as ->. rewrite Hout by (try lia; rewrite Nat2Z.id; exact Hni).
           rewrite Hread, Z.eqb_refl, Z.mul_0_r, Z.add_0_r by lia. reflexivity.
        -- replace (a + 4 * Z.of_nat (S k)) with (a + 4 + 4 * Z.of_nat k) by lia. apply Hin. exact Hk.
      * intros q Hq Hnq. rewrite Hout by (try lia; intros Hx; apply Hnq; right; exact Hx). rewrite Hread by lia.
        destruct (Z.eqb_spec q (Z.of_nat i)) as [->|]; [|reflexivity]. destruct Hnq. left. rewrite Nat2Z.id. reflexivity.
    + assert (El : l = []) by (destruct l; [reflexivity|cbn in Hb; lia]). subst l. cbn [for_each length].
      exists c1. split; [reflexivity|]. split; [exact Hl1|]. split; [exact Hm1|]. split.
      * intros [|k] j Hk; [|cbn in Hk; discriminate]. injection Hk as ->.
        rewrite Hread, Z.eqb_refl, Z.mul_0_r, Z.add_0_r by lia. reflexivity.
      * intros q Hq Hnq. rewrite Hread by lia. destruct (Z.eqb_spec q (Z.of_nat i)) as [->|]; [|reflexivity].
        destruct Hnq. left. rewrite Nat2Z.id. reflexivity.
Qed.

(** ** Store and load of several registers *)

Lemma count_listed rlist : LSM_CountSetBits rlist = Z.of_nat (length (listed rlist (seq 0 16))).
Proof.
  unfold LSM_CountSetBits. assert (G : forall l k,
    fold_left (fun count i => if getBit rlist (Z.of_nat i) then count + 1 else count) l k
    = k + Z.of_nat (length (listed rlist l))).
  { induction l as [|i l IH]; intros k; unfold listed; cbn [fold_left List.filter length]; [lia|].
    rewrite IH. unfold listed. destruct (getBit rlist (Z.of_nat i)); cbn [length]; lia. }
  apply G.
Qed.

Lemma listed_no_pc rlist : getBit rlist 15 = false -> listed rlist (seq 0 16) = listed rlist (seq 0 15).
Proof.
  intros H. unfold listed. change (seq 0 16) with (seq 0 15 ++ [15%nat]). rewrite List.filter_app. cbn [List.filter].
  change (Z.of_nat 15) with 15. rewrite H. apply app_nil_r.
Qed.

Lemma in_listed rlist l i : In i (listed rlist l) <-> In i l /\ getBit rlist (Z.of_nat i) = true.
Proof. unfold listed. apply List.filter_In. Qed.

Lemma listed_NoDup rlist l : List.NoDup l -> List.NoDup (listed rlist l).
Proof. apply List.NoDup_filter. Qed.

(** The lowest address of the block and the base written back. *)
Definition block_start (p u base n : Z) : Z :=
  if (p =? 0) && (u =? 1) then base
  else if (p =? 1) && (u =? 1) then add_w base 4
  else if (p =? 0) && (u =? 0) then add_w (sub_w base n) 4
  else sub_w base n.
Definition block_base (u base n : Z) : Z := if u =? 1 then add_w base n else sub_w base n.

Lemma block_mirror p u base n : word base -> 0 <= p <= 1 -> 0 <= u <= 1 ->
  block_start (1 - p) (1 - u) (block_base u base n) n = block_start p u base n /\
  block_base (1 - u) (block_base u base n) n = base.
Proof.
  intros Hb Hp Hu. assert (Hp' : p = 0 \/ p = 1) by lia. assert (Hu' : u = 0 \/ u = 1) by lia.
  unfold block_start, block_base, add_w, sub_w.
  destruct Hp' as [->| ->], Hu' as [->| ->]; change (1 - 0) with 1; change (1 - 1) with 0;
    cbn [Z.eqb Pos.eqb andb]; autorewrite with wrap; rewrite ?Z.add_simpl_r, ?Z.sub_add, ?(u32_id base Hb); split; reflexivity.
Qed.

Lemma Type_LSM_writeback p u rn rlist c : 0 <= p <= 1 -> 0 <= u <= 1 -> rlist <> 0 -> getBit rlist rn = false ->
  let n := 4 * LSM_CountSetBits rlist in let base := RB_read c rn in
  exists e, Type_LSM p u 1 rn rlist c = Next (RB_write rn (block_base u base n) (set_lsm (block_start p u base n) e c)).
Proof.
  intros Hp Hu Hr Hn n base. unfold Type_LSM. replace (rlist =? 0) with false by lia. cbv zeta.
  rewrite (Z.mul_comm (LSM_CountSetBits rlist)). fold n. fold base. unfold block_start, block_base.
  assert (Hp' : p = 0 \/ p = 1) by lia. assert (Hu' : u = 0 \/ u = 1) by lia.
  destruct Hp' as [->| ->], Hu' as [->| ->]; cbn [Z.eqb Pos.eqb andb]; rewrite Hn; eexists; reflexivity.
Qed.

(** The fields of a word-wide transfer of several registers with writeback. *)
Definition lsm_fields (F : string -> Z) (p u rn rlist : Z) : Prop :=
  F "p" = p /\ F "u" = u /\ F "w" = 1 /\ F "r" = 0 /\ F "rn" = rn /\ F "rlist" = rlist.

Lemma run_lsm_form F p u rn rlist transfer (m : machine) : lsm_fields F p u rn rlist ->
  run_lsm F transfer m = (m ← core_step (Type_LSM p u 1 rn rlist) m; transfer rlist false m).
Proof. intros (<- & <- & Hw & Hr & <- & <-). unfold run_lsm, then_. rewrite Hw, Hr. reflexivity. Qed.

Lemma writeback_reads rn v a e c q : wf_core c -> In (mode_of c) modes -> 0 <= rn < 15 -> 0 <= q < 16 ->
  RB_read (RB_write rn v (set_lsm a e c)) q = if q =? rn then v else RB_read c q.
Proof. intros W Hm Hrn Hq. rewrite RB_read_write by (try apply W; try exact Hm; lia). reflexivity. Qed.

Lemma writeback_start rn v a e c : lsm_startaddress (RB_write rn v (set_lsm a e c)) = a.
Proof. destruct (RB_write_frame rn v (set_lsm a e c)) as (_ & _ & _ & _ & _ & _ & _ & H & _). exact H. Qed.

Lemma block_start_word p u base n : word base -> word (block_start p u base n).
Proof. intros Hb. unfold block_start. repeat case_match; auto with wf. Qed.

Lemma store_multiple F p u rn rlist c s : lsm_fields F p u rn rlist -> 0 <= p <= 1 -> 0 <= u <= 1 ->
  0 <= rn < 15 -> rlist <> 0 -> getBit rlist rn = false -> getBit rlist 15 = false ->
  wf_core c -> In (mode_of c) modes -> ready s ->
  let regs := listed rlist (seq 0 15) in
  let n := 4 * Z.of_nat (length regs) in
  let a := block_start p u (RB_read c rn) n in
  a + n <= 2 ^ 32 -> room s a (length regs) -> exists c1 s1,
  run_lsm F STM (c, s) = Next (c1, s1) /\ ready s1 /\ (forall q, has s q -> has s1 q) /\
  mode_of c1 = mode_of c /\ RB_read c1 rn = block_base u (RB_read c rn) n /\
  (forall k i, regs !! k = Some i -> fast_read (a + 4 * Z.of_nat k) (view s1) = RB_read c (Z.of_nat i)).
Proof.
  intros HF Hp Hu Hrn Hr0 Hn H15 W Hm Hr regs n a Ha Hroom.
  rewrite (run_lsm_form _ _ _ _ _ _ _ HF). unfold core_step. cbn [fst snd].
  destruct (Type_LSM_writeback p u rn rlist c Hp Hu Hr0 Hn) as [e ->]. rewrite count_listed, listed_no_pc by exact H15.
  fold regs. fold n. fold a. rewrite next_bind. unfold STM. cbn [negb].
  set (c0 := RB_write rn (block_base u (RB_read c rn) n) (set_lsm a e c)).
  assert (Haw : word a) by apply block_start_word, RB_read_word, W.
  assert (Hls : lsm_startaddress c0 = a) by apply writeback_start.
  assert (Hread := fun q => writeback_reads rn (block_base u (RB_read c rn) n) a e c q W Hm Hrn). fold c0 in Hread.
  assert (Hreg : forall i, In i regs -> RB_read c0 (Z.of_nat i) = RB_read c (Z.of_nat i)).
  { intros i Hi. apply in_listed in Hi as [Hi Hb]. apply in_seq in Hi. rewrite Hread by lia.
    destruct (Z.eqb_spec (Z.of_nat i) rn); [congruence|reflexivity]. }
  rewrite for_each_store, listed_no_pc by exact H15. fold regs. unfold start_list, on_core. cbn [fst snd]. rewrite Hls.
  destruct (store_words regs a (set_ls_address a c0) s Hr eq_refl Haw Ha) as (s1 & -> & Hr1 & Hh1 & Hv & _).
  { intros i Hi. change (RB_read (set_ls_address a c0) (Z.of_nat i)) with (RB_read c0 (Z.of_nat i)).
    rewrite Hreg by exact Hi. apply RB_read_word, W. }
  { exact Hroom. }
  rewrite next_bind. unfold done, on_core. cbn [fst snd]. do 2 eexists. split; [reflexivity|].
  split; [exact Hr1|]. split; [exact Hh1|]. split; [exact (mode_of_write rn (block_base u (RB_read c rn) n) (set_lsm a e c))|]. split.
  - assert (Hx := Hread rn ltac:(lia)). rewrite Z.eqb_refl in Hx. exact Hx.
  - intros k i Hk. rewrite (Hv k i Hk).
    change (RB_read (set_ls_address a c0) (Z.of_nat i)) with (RB_read c0 (Z.of_nat i)). apply Hreg.
    apply list_elem_of_In, list_elem_of_lookup. eauto.
Qed.

Lemma load_multiple F p u rn rlist c s : lsm_fields F p u rn rlist -> 0 <= p <= 1 -> 0 <= u <= 1 ->
  0 <= rn < 15 -> rlist <> 0 -> getBit rlist rn = false -> getBit rlist 15 = false ->
  wf_core c -> In (mode_of c) modes -> ready s ->
  let regs := listed rlist (seq 0 15) in
  let n := 4 * Z.of_nat (length regs) in
  let a := block_start p u (RB_read c rn) n in
  a + n <= 2 ^ 32 -> room s a (length regs) -> exists c1,
  run_lsm F LDM (c, s) = Next (c1, s) /\ mode_of c1 = mode_of c /\
  RB_read c1 rn = block_base u (RB_read c rn) n /\
  (forall k i, regs !! k = Some i -> RB_read c1 (Z.of_nat i) = fast_read (a + 4 * Z.of_nat k) (view s)) /\
  (forall q, 0 <= q < 15 -> q <> rn -> getBit rlist q = false -> RB_read c1 q = RB_read c q).
Proof.
  intros HF Hp Hu Hrn Hr0 Hn H15 W Hm Hr regs n a Ha Hroom.
  rewrite (run_lsm_form _ _ _ _ _ _ _ HF). unfold core_step. cbn [fst snd].
  destruct (Type_LSM_writeback p u rn rlist c Hp Hu Hr0 Hn) as [e ->]. rewrite count_listed, listed_no_pc by exact H15.
  fold regs. fold n. fold a. rewrite next_bind. unfold LDM. cbn [negb]. rewrite H15.
  set (c0 := RB_write rn (block_base u (RB_read c rn) n) (set_lsm a e c)).
  assert (Haw : word a) by apply block_start_word, RB_read_word, W.
  assert (Hls : lsm_startaddress c0 = a) by apply writeback_start.
  assert (Hmode : mode_of c0 = mode_of c)
    by exact (mode_of_write rn (block_base u (RB_read c rn) n) (set_lsm a e c)).
  assert (Hread := fun q => writeback_reads rn (block_base u (RB_read c rn) n) a e c q W Hm Hrn). fold c0 in Hread.
  rewrite for_each_load. fold regs. unfold start_list, on_core. cbn [fst snd]. rewrite Hls.
  destruct (load_words regs a (set_ls_address a c0) s Hr eq_refl Haw Ha) as (c1 & -> & Hl1 & Hm1 & Hin & Hout).
  { cbn. unfold c0. rewrite RB_write_length. apply W. }
  { change (mode_of (set_ls_address a c0)) with (mode_of c0). rewrite Hmode. exact Hm. }
  { intros i Hi. apply in_listed in Hi as [Hi _]. apply in_seq in Hi. lia. }
  { apply listed_NoDup, seq_NoDup. }
  { exact Hroom. }
  rewrite !next_bind. unfold done, on_core. cbn [fst snd]. eexists. split; [reflexivity|].
  assert (Ho : forall q, 0 <= q < 15 -> getBit rlist q = false -> RB_read c1 q = RB_read c0 q).
  { intros q Hq Hb. apply (Hout q); [lia|]. intros Hi. apply in_listed in Hi as [_ Hi]. rewrite Z2Nat.id in Hi by lia. congruence. }
  split; [exact (eq_trans Hm1 Hmode)|]. split; [|split; [exact Hin|]].
  - etransitivity; [exact (Ho rn Hrn Hn)|]. rewrite Hread, Z.eqb_refl by lia. reflexivity.
  - intros q Hq Hne Hb. etransitivity; [exact (Ho q Hq Hb)|]. rewrite Hread by lia. replace (q =? rn) with false by lia. reflexivity.
Qed.

(** C18. Store and load of several registers: a store with writeback in any of
    the four modes followed by the load of the mirrored mode, after whatever
    other instructions that keep the base register, the mode and the memory,
    restores every listed register and the base and leaves the others alone. *)
Theorem block_transfer_roundtrip F F' p u rn rlist c s :
  lsm_fields F p u rn rlist -> lsm_fields F' (1 - p) (1 - u) rn rlist -> 0 <= p <= 1 -> 0 <= u <= 1 ->
  0 <= rn < 15 -> rlist <> 0 -> getBit rlist rn = false -> getBit rlist 15 = false ->
  wf_core c -> In (mode_of c) modes -> ready s ->
  let regs := listed rlist (seq 0 15) in
  let n := 4 * Z.of_nat (length regs) in
  let a := block_start p u (RB_read c rn) n in
  a + n <= 2 ^ 32 -> room s a (length regs) -> exists c1 s1,
  run_lsm F STM (c, s) = Next (c1, s1) /\
  forall c2, wf_core c2 -> mode_of c2 = mode_of c1 -> RB_read c2 rn = RB_read c1 rn -> exists c3,
    run_lsm F' LDM (c2, s1) = Next (c3, s1) /\
    forall q, 0 <= q < 15 -> RB_read c3 q = if getBit rlist q || (q =? rn) then RB_read c q else RB_read c2 q.
Proof.
  intros HF HF' Hp Hu Hrn Hr0 Hn H15 W Hm Hr regs n a Ha Hroom.
  destruct (store_multiple F p u rn rlist c s HF Hp Hu Hrn Hr0 Hn H15 W Hm Hr Ha Hroom)
    as (c1 & s1 & E1 & Hr1 & Hh1 & Hm1 & Hb1 & Hv1).
  exists c1, s1. split; [exact E1|]. intros c2 W2 Hm2 Hb2.
  destruct (block_mirror p u (RB_read c rn) n (RB_read_word c rn W) Hp Hu) as [M1 M2].
  fold regs in Hb1, Hv1. fold n in Hb1, Hv1. fold a in Hv1.
  assert (Es : block_start (1 - p) (1 - u) (RB_read c2 rn) n = a) by (rewrite Hb2, Hb1; exact M1).
  destruct (load_multiple F' (1 - p) (1 - u) rn rlist c2 s1 HF') as (c3 & E3 & _ & Hb3 & Hin & Hout);
    try assumption; try lia.
  { rewrite Hm2, Hm1. exact Hm. }
  { fold regs. fold n. rewrite Es. exact Ha. }
  { fold regs. fold n. rewrite Es. intros k Hk. apply Hh1, Hroom, Hk. }
  exists c3. split; [exact E3|]. intros q Hq. fold regs in Hin, Hb3. fold n in Hin, Hb3. rewrite Es in Hin.
  destruct (Z.eqb_spec q rn) as [->|Hne].
  - rewrite orb_true_r, Hb3, Hb2, Hb1. exact M2.
  - rewrite orb_false_r. destruct (getBit rlist q) eqn:Eq; [|apply Hout; assumption].
    assert (Hi : In (Z.to_nat q) regs).
    { apply in_listed. rewrite Z2Nat.id by lia. split; [apply in_seq; lia|exact Eq]. }
    apply list_elem_of_In, list_elem_of_lookup in Hi as [k Hk].
    rewrite <- (Z2Nat.id q) by lia. rewrite (Hin k _ Hk). apply Hv1, Hk.
Qed.

End Block.
