(* ===== verification/ArmMmuOk.v ===== *)
(** * The memory system against its specification

    Address translation against the table format of the architecture, and the
    memory port on random-access memory: with the translation off the port is an
    array of bytes. *)
From S2P Require Import Prelude ArmCore ArmFormats ArmData ArmMem ArmIsa ArmMmu ArmCoreOk ArmFormatsOk ArmDataOk ArmStepOk ArmMemOk.

(** ** Bit fields as arithmetic *)

Lemma lor_add k a x : 0 <= k -> 0 <= x < 2 ^ k -> a mod 2 ^ k = 0 -> Z.lor a x = a + x.
Proof.
  intros Hk Hx Ha. assert (Hl : Z.land a x = 0).
  { apply Z.bits_inj'. intros i Hi. rewrite Z.land_spec, Z.bits_0. destruct (Z.ltb_spec i k).
    - replace (Z.testbit a i) with false; [reflexivity|].
      rewrite <- (Z.mod_pow2_bits_low a k i) by lia. rewrite Ha, Z.bits_0. reflexivity.
    - rewrite (testbit_high k x) by lia. apply andb_false_r. }
  rewrite <- Z.lxor_lor by exact Hl. symmetry. apply Z.add_nocarry_lxor, Hl.
Qed.

(** A mask of the bits from [k] up to 31. *)
Lemma land_high k v m : 0 <= k <= 32 -> word v -> m = 2 ^ 32 - 2 ^ k -> Z.land v m = v / 2 ^ k * 2 ^ k.
Proof.
  intros Hk Hv ->. rewrite <- Z.shiftl_mul_pow2, <- Z.shiftr_div_pow2 by lia.
  apply Z.bits_inj'. intros i Hi. rewrite Z.land_spec, Z.shiftl_spec by lia.
  replace (2 ^ 32 - 2 ^ k) with (Z.shiftl (Z.ones (32 - k)) k)
    by (rewrite Z.shiftl_mul_pow2, Z.ones_equiv by lia;
        replace (2 ^ 32) with (2 ^ (32 - k) * 2 ^ k) by (rewrite <- Z.pow_add_r by lia; f_equal; lia); lia).
  rewrite Z.shiftl_spec, testbit_ones by lia. destruct (Z.ltb_spec i k).
  - rewrite (Z.testbit_neg_r _ (i - k)) by lia. replace (0 <=? i - k) with false by lia. apply andb_false_r.
  - rewrite Z.shiftr_spec by lia. replace (i - k + k) with i by lia. replace (0 <=? i - k) with true by lia.
    destruct (Z.ltb_spec (i - k) (32 - k)); [apply andb_true_r|]. rewrite (testbit_high 32 v) by lia. reflexivity.
Qed.

Lemma field_high k v m : 0 <= k <= 32 -> word v -> m = 2 ^ 32 - 2 ^ k -> Z.shiftr (Z.land v m) k = v / 2 ^ k.
Proof.
  intros Hk Hv Hm. rewrite (land_high k) by assumption. rewrite Z.shiftr_div_pow2 by lia.
  apply Z.div_mul. apply Z.pow_nonzero; lia.
Qed.

Lemma div_mul_mod k x : 0 <= k -> (x * 2 ^ k) mod 2 ^ k = 0.
Proof. intros. apply Z.mod_mul. apply Z.pow_nonzero; lia. Qed.

(** Joining a page number and an offset. *)
Lemma join_page k v va m : 0 <= k <= 32 -> word v -> m = Z.ones k ->
  Z.lor (u32 (Z.shiftl (v / 2 ^ k) k)) (Z.land va m) = v / 2 ^ k * 2 ^ k + va mod 2 ^ k.
Proof.
  intros Hk Hv ->. assert (0 < 2 ^ k) by (apply Z.pow_pos_nonneg; lia).
  assert (Hq : v / 2 ^ k * 2 ^ k <= v) by (rewrite Z.mul_comm; apply Z.mul_div_le; lia).
  assert (0 <= v / 2 ^ k) by (apply Z.div_pos; lia).
  rewrite Z.shiftl_mul_pow2, u32_id, Z.land_ones by nia.
  apply (lor_add k); [lia|apply Z.mod_pos_bound; lia|apply div_mul_mod; lia].
Qed.

Lemma land3 v : Z.land v 0x3 = v mod 4.
Proof. change 0x3 with (Z.ones 2). apply Z.land_ones. lia. Qed.

(** ** The tables of the architecture *)

Section Reference.
Context (word_at : Z -> Z) (N ttbr0 ttbr1 : Z).

Inductive outcome := Mapped (pa : Z) | Fault1 | Fault2 | Unsupported.

(** The base of the table for an address and the number of address bits the
    table does not cover. *)
Definition table_of (va : Z) : Z * Z :=
  if (N =? 0) || (va / 2 ^ (32 - N) =? 0) then (ttbr0 / 2 ^ (14 - N) * 2 ^ (14 - N), N)
  else (ttbr1 / 2 ^ 14 * 2 ^ 14, 0).

Definition first_level (va : Z) : Z :=
  let '(base, n) := table_of va in base + 4 * (va mod 2 ^ (32 - n) / 2 ^ 20).

Definition second_level (d va : Z) : Z := d / 2 ^ 10 * 2 ^ 10 + 4 * (va / 2 ^ 12 mod 2 ^ 8).

Definition page_of (d va : Z) : outcome :=
  match d mod 4 with
  | 0 => Fault2
  | 1 => Mapped (d / 2 ^ 16 * 2 ^ 16 + va mod 2 ^ 16)
  | _ => Mapped (d / 2 ^ 12 * 2 ^ 12 + va mod 2 ^ 12)
  end.

Definition translation (va : Z) : outcome :=
  let d := word_at (first_level va) in
  match d mod 4 with
  | 0 => Fault1
  | 1 => page_of (word_at (second_level d va)) va
  | _ => if Z.testbit d 18 then Unsupported else Mapped (d / 2 ^ 20 * 2 ^ 20 + va mod 2 ^ 20)
  end.
End Reference.

Section Walk.
Context {D : Type} `{!Peripheral D}.
Notation machine := (core * system D)%type.

Lemma second_level_address d va : word d -> word va ->
  u32 (Z.shiftl (Z.lor (u32 (Z.shiftl (Z.shiftr (Z.land d 0xFFFFFC00) 10) 8)) (Z.shiftr (Z.land va 0xFF000) 12)) 2)
  = second_level d va.
Proof.
  intros Hd Hv. rewrite (field_high 10) by (assumption || lia || reflexivity).
  assert (Hi : Z.shiftr (Z.land va 0xFF000) 12 = va / 2 ^ 12 mod 2 ^ 8).
  { rewrite Z.shiftr_land. change (Z.shiftr 0xFF000 12) with (Z.ones 8).
    rewrite Z.land_ones, Z.shiftr_div_pow2 by lia. reflexivity. }
  rewrite Hi. unfold second_level. assert (Hr := Z.mod_pos_bound (va / 2 ^ 12) (2 ^ 8) ltac:(lia)).
  assert (Hq : d / 2 ^ 10 * 2 ^ 10 <= d) by (rewrite Z.mul_comm; apply Z.mul_div_le; lia).
  assert (Hb : d / 2 ^ 10 < 2 ^ 22) by (apply Z.div_lt_upper_bound; lia).
  assert (0 <= d / 2 ^ 10) by (apply Z.div_pos; lia).
  rewrite (Z.shiftl_mul_pow2 _ 8), (u32_id (d / 2 ^ 10 * 2 ^ 8)) by lia.
  rewrite (lor_add 8) by (try lia; apply div_mul_mod; lia).
  rewrite Z.shiftl_mul_pow2, u32_id by lia. lia.
Qed.

Lemma L2_translate_spec d w va (m m' : machine) : word d -> word va -> word w ->
  table_walk (second_level d va) m = (w, m') ->
  L2_translate (Z.shiftr (Z.land d 0xFFFFFC00) 10) va m =
    match page_of w va with Mapped pa => Next (pa, m') | _ => Stop 0 end.
Proof.
  intros Hd Hv Hw Ht. unfold L2_translate, L2_table_walk. rewrite second_level_address, Ht, land3 by assumption.
  unfold page_of. destruct (w mod 4) as [|[]|] eqn:E; cbn iota beta;
    rewrite ?(field_high 12), ?(field_high 16) by (assumption || lia || reflexivity);
    rewrite ?(join_page 12), ?(join_page 16) by (assumption || lia || reflexivity); reflexivity.
Qed.

Lemma any_set_spec n va : word va -> Z.of_nat n <= 32 ->
  any_set n (32 - Z.of_nat n) va = negb (va / 2 ^ (32 - Z.of_nat n) =? 0).
Proof.
  intros Hv Hn. assert (G : forall k lo, 0 <= lo -> lo + Z.of_nat k <= 32 ->
    any_set k lo va = true <-> exists i, lo <= i < lo + Z.of_nat k /\ Z.testbit va i = true).
  { induction k as [|k IH]; intros lo Hlo Hk; cbn [any_set].
    - split; [discriminate|]. intros (i & Hi & _). lia.
    - rewrite orb_true_iff, IH by lia. unfold getBit. split.
      + intros [H|(i & Hi & H)]; [exists (lo + Z.of_nat k); split; [lia|exact H]|exists i; split; [lia|exact H]].
      + intros (i & Hi & H). destruct (Z.eq_dec i (lo + Z.of_nat k)) as [->|]; [left; exact H|right].
        exists i. split; [lia|exact H]. }
  apply eq_true_iff_eq. rewrite G, negb_true_iff, Z.eqb_neq by lia.
  set (q := 32 - Z.of_nat n). assert (0 <= q) by lia. rewrite <- Z.shiftr_div_pow2 by lia. split.
  - intros (i & Hi & H0) Hz. assert (E : Z.testbit (Z.shiftr va q) (i - q) = true).
    { rewrite Z.shiftr_spec by lia. replace (i - q + q) with i by lia. exact H0. }
    rewrite Hz, Z.bits_0 in E. discriminate.
  - intros Hz. assert (Hp : 0 < Z.shiftr va q).
    { assert (0 <= Z.shiftr va q) by (apply Z.shiftr_nonneg; lia). lia. }
    exists (q + Z.log2 (Z.shiftr va q)). assert (Hl := Z.bit_log2 _ Hp).
    rewrite Z.shiftr_spec in Hl by apply Z.log2_nonneg. rewrite Z.add_comm. split; [|exact Hl].
    assert (Hg := Z.log2_nonneg (Z.shiftr va q)). split; [lia|].
    destruct (Z.ltb_spec (Z.log2 (Z.shiftr va q) + q) 32); [lia|]. rewrite (testbit_high 32 va) in Hl by lia. discriminate.
Qed.

Lemma bits_mask_spec hi lo : 0 <= lo -> lo <= hi + 1 -> bits_mask hi lo = 2 ^ (hi + 1) - 2 ^ lo.
Proof.
  intros Hlo Hh. unfold bits_mask.
  assert (G : forall n mask, (forall i, lo <= i < lo + Z.of_nat n -> Z.testbit mask i = false) -> 
    set_down n lo mask = mask + (2 ^ (lo + Z.of_nat n) - 2 ^ lo)).
  { induction n as [|n IH]; intros mask Hm; cbn [set_down].
    - rewrite Z.add_0_r. lia.
    - unfold setBit. assert (Hb : Z.land mask (Z.shiftl 1 (lo + Z.of_nat n)) = 0).
      { apply Z.bits_inj'. intros i Hi. rewrite Z.land_spec, testbit_shift1, Z.bits_0 by lia.
        destruct (Z.eqb_spec i (lo + Z.of_nat n)) as [->|]; [rewrite Hm by lia; reflexivity|apply andb_false_r]. }
      assert (Hs : Z.lor mask (Z.shiftl 1 (lo + Z.of_nat n)) = mask + 2 ^ (lo + Z.of_nat n)).
      { rewrite <- Z.lxor_lor, <- Z.add_nocarry_lxor by exact Hb. rewrite Z.shiftl_1_l. reflexivity. }
      rewrite IH.
      + rewrite Hs. replace (lo + Z.of_nat (S n)) with (lo + Z.of_nat n + 1) by lia.
        rewrite (Z.pow_add_r 2 (lo + Z.of_nat n) 1), (Z.pow_1_r 2) by lia. lia.
      + intros i Hi. rewrite Z.lor_spec, testbit_shift1, Hm by lia. cbn [orb]. lia. }
  rewrite G by (intros; apply Z.bits_0). replace (lo + Z.of_nat (Z.to_nat (hi - lo + 1))) with (hi + 1) by lia. lia.
Qed.

Lemma index_spec n va : 0 <= n <= 7 -> word va ->
  Z.shiftr (Z.land va (bits_mask (31 - n) 20)) 20 = va mod 2 ^ (32 - n) / 2 ^ 20.
Proof.
  intros Hn Hv. rewrite bits_mask_spec by lia. replace (31 - n + 1) with (32 - n) by lia.
  rewrite Z.shiftr_land. replace (Z.shiftr (2 ^ (32 - n) - 2 ^ 20) 20) with (Z.ones (12 - n)).
  2: { replace (2 ^ (32 - n)) with (2 ^ (12 - n) * 2 ^ 20) by (rewrite <- Z.pow_add_r by lia; f_equal; lia).
       rewrite Z.shiftr_div_pow2, Z.ones_equiv by lia.
       replace (2 ^ (12 - n) * 2 ^ 20 - 2 ^ 20) with ((2 ^ (12 - n) - 1) * 2 ^ 20) by lia.
       rewrite Z.div_mul by lia. lia. }
  rewrite Z.land_ones, Z.shiftr_div_pow2 by lia.
  replace (2 ^ (32 - n)) with (2 ^ 20 * 2 ^ (12 - n)) by (rewrite <- Z.pow_add_r by lia; f_equal; lia).
  assert (0 < 2 ^ (12 - n)) by (apply Z.pow_pos_nonneg; lia).
  rewrite Z.rem_mul_r by lia.
  rewrite (Z.mul_comm (2 ^ 20) ((va / 2 ^ 20) mod 2 ^ (12 - n))), Z.div_add by lia.
  rewrite (Z.div_small (va mod 2 ^ 20)) by (apply Z.mod_pos_bound; lia). reflexivity.
Qed.

(** The base register the architecture leaves in the bits it does not use. *)
Definition ttbr1_aligned (r : cp15) : Prop :=
  let t := r TRANSLATION_TABLE_BASE_1 in t / 2 ^ (14 - TTBCR_N r) * 2 ^ (14 - TTBCR_N r) = t / 2 ^ 14 * 2 ^ 14.

Lemma TTBCR_N_range r : 0 <= TTBCR_N r <= 7.
Proof.
  unfold TTBCR_N. assert (E := Z.land_ones (r TRANSLATION_TABLE_BASE_CONTROL) 3 ltac:(lia)).
  change (Z.ones 3) with 7 in E. rewrite E.
  assert (H := Z.mod_pos_bound (r TRANSLATION_TABLE_BASE_CONTROL) (2 ^ 3) ltac:(lia)). lia.
Qed.

Lemma ttb_address_spec r va : word va -> word (r TRANSLATION_TABLE_BASE_0) -> word (r TRANSLATION_TABLE_BASE_1) ->
  ttbr1_aligned r ->
  let t := table_of (TTBCR_N r) (r TRANSLATION_TABLE_BASE_0) (r TRANSLATION_TABLE_BASE_1) va in
  fst (ttb_address va r) = fst t /\ (if snd (ttb_address va r) then 0 else TTBCR_N r) = snd t.
Proof.
  intros Hv H0 H1 Hal. assert (Hn := TTBCR_N_range r). unfold ttb_address, table_of, ttbr1_aligned in *.
  set (N := TTBCR_N r) in *.
  assert (Hm : forall t, word t -> Z.land t (bits_mask 31 (14 - N)) = t / 2 ^ (14 - N) * 2 ^ (14 - N)).
  { intros t Ht. rewrite bits_mask_spec by lia. apply land_high; [lia|exact Ht|reflexivity]. }
  destruct (Z.eqb_spec N 0) as [E|E]; cbn [orb fst snd].
  - rewrite E. split; [rewrite <- E; apply Hm, H0|reflexivity].
  - assert (Ha := any_set_spec (Z.to_nat N) va Hv ltac:(lia)). replace (Z.of_nat (Z.to_nat N)) with N in Ha by lia.
    rewrite Ha. destruct (va / 2 ^ (32 - N) =? 0); cbn [negb fst snd].
    + split; [apply Hm, H0|reflexivity].
    + split; [rewrite Hm by exact H1; exact Hal|reflexivity].
Qed.

Lemma table_of_aligned N t0 t1 va : 0 <= N <= 7 ->
  let t := table_of N t0 t1 va in fst t mod 2 ^ (14 - snd t) = 0 /\ 0 <= snd t <= 7.
Proof.
  intros HN. unfold table_of. destruct (_ || _); cbn [fst snd].
  - split; [apply div_mul_mod; lia|lia].
  - split; [apply div_mul_mod; lia|lia].
Qed.

Lemma first_level_address r va : word va -> word (r TRANSLATION_TABLE_BASE_0) -> word (r TRANSLATION_TABLE_BASE_1) ->
  ttbr1_aligned r ->
  let '(ttb, used) := ttb_address va r in
  let n := if used then 0 else TTBCR_N r in
  Z.lor ttb (u32 (Z.shiftl (Z.shiftr (Z.land va (bits_mask (31 - n) 20)) 20) 2))
  = first_level (TTBCR_N r) (r TRANSLATION_TABLE_BASE_0) (r TRANSLATION_TABLE_BASE_1) va.
Proof.
  intros Hv H0 H1 Hal. destruct (ttb_address_spec r va Hv H0 H1 Hal) as [E1 E2].
  unfold first_level. destruct (ttb_address va r) as [ttb used]. cbn [fst snd] in E1, E2. cbv zeta.
  destruct (table_of_aligned _ (r TRANSLATION_TABLE_BASE_0) (r TRANSLATION_TABLE_BASE_1) va (TTBCR_N_range r)) as [A1 A2].
  destruct (table_of _ _ _ va) as [base n]. cbn [fst snd] in *. rewrite E2, E1, index_spec by (assumption || lia).
  assert (0 < 2 ^ (32 - n)) by (apply Z.pow_pos_nonneg; lia).
  assert (Hr := Z.mod_pos_bound va (2 ^ (32 - n)) ltac:(lia)).
  assert (Hi : va mod 2 ^ (32 - n) / 2 ^ 20 < 2 ^ (12 - n)).
  { apply Z.div_lt_upper_bound; [lia|]. rewrite <- Z.pow_add_r by lia. replace (20 + (12 - n)) with (32 - n) by lia. lia. }
  assert (0 <= va mod 2 ^ (32 - n) / 2 ^ 20) by (apply Z.div_pos; lia).
  assert (2 ^ (12 - n) <= 2 ^ 12) by (apply Z.pow_le_mono_r; lia).
  assert (Hp : 2 ^ (14 - n) = 4 * 2 ^ (12 - n)) by (rewrite <- (Z.pow_add_r 2 2) by lia; f_equal; lia).
  rewrite Z.shiftl_mul_pow2, u32_id by lia. rewrite (lor_add (14 - n)) by (assumption || lia). lia.
Qed.

Lemma L1_translate_spec d w va (m m1 m2 : machine) :
  let r := sys_cp15 m.2 in
  let N := TTBCR_N r in let t0 := r TRANSLATION_TABLE_BASE_0 in let t1 := r TRANSLATION_TABLE_BASE_1 in
  word va -> word t0 -> word t1 -> ttbr1_aligned r -> word d -> word w ->
  table_walk (first_level N t0 t1 va) m = (d, m1) ->
  (d mod 4 = 1 -> table_walk (second_level d va) m1 = (w, m2)) ->
  L1_translate va m =
    match d mod 4 with
    | 0 => Next (0, m1)
    | 1 => match page_of w va with Mapped pa => Next (pa, m2) | _ => Stop 0 end
    | _ => if Z.testbit d 18 then Stop 0 else Next (d / 2 ^ 20 * 2 ^ 20 + va mod 2 ^ 20, m1)
    end.
Proof.
  intros r N t0 t1 Hv H0 H1 Hal Hd Hw W1 W2. unfold L1_translate.
  assert (E := first_level_address r va Hv H0 H1 Hal). fold r. destruct (ttb_address va r) as [ttb used]. cbv zeta in E.
  rewrite E. unfold L1_table_walk. fold N t0 t1. rewrite W1, land3. clear E W1. unfold getBit.
  destruct (d mod 4) as [|p|p] eqn:Em; [reflexivity| |].
  - assert (Hp := Z.mod_pos_bound d 4 ltac:(lia)).
    destruct p as [p|p|]; [| |rewrite (L2_translate_spec d w va m1 m2) by (auto; apply W2; reflexivity); reflexivity];
      cbn iota beta; destruct (Z.testbit d 18); try reflexivity;
      rewrite (field_high 20), (join_page 20) by (assumption || lia || reflexivity); reflexivity.
  - assert (Hp := Z.mod_pos_bound d 4 ltac:(lia)). lia.
Qed.
End Walk.

(** ** Random-access memory on the bus *)

(** The devices that hold bytes and can be written.  The bytes of an access
    are those of the array, and a write stores the bytes of a word. *)
Class RamDevice (D : Type) `{!Peripheral D} := {
  ram_of : D -> option bytes;
  ram_reads : forall d f a o, ram_of d = Some f -> read_signal a o d = (fast_read a f, d);
  ram_writes : forall d f a v o, ram_of d = Some f -> ram_of (write_signal a v o d) = Some (fast_write a v f)
}.

#[export] Instance ram_is_ram : RamDevice ram_module.
Proof.
  refine {| ram_of r := Some (ram_memory r) |}; [intros d f a o [= <-]; reflexivity|intros d f a v o [= <-]; reflexivity].
Defined.

Section Ram.
Context {D : Type} `{!Peripheral D} `{!RamDevice D}.
Notation machine := (core * system D)%type.

(** The byte at a physical address; 0 where there is no memory. *)
Fixpoint byte_in (l : list (mapped_device D)) (a : Z) : Z :=
  match l with
  | [] => 0
  | d :: l => if selects a d then match ram_of (device d) with Some f => f (a - start_address d) | None => 0 end
              else byte_in l a
  end.

(** The four bytes of a word are in one memory. *)
Fixpoint word_in (l : list (mapped_device D)) (a : Z) : Prop :=
  match l with
  | [] => False
  | d :: l =>
      if selects a d then is_Some (ram_of (device d)) /\ a + 3 <= end_address d
      else (a + 3 < start_address d \/ end_address d < a) /\ word_in l a
  end.

Definition physical (s : system D) : bytes := byte_in (devices s).
Definition has_word (s : system D) (a : Z) : Prop := word_in (devices s) a.

Lemma selects_spec (d : mapped_device D) a : selects a d = true <-> start_address d <= a <= end_address d.
Proof. unfold selects. rewrite andb_true_iff, !Z.leb_le. tauto. Qed.


Lemma selects_remap (x : D) (d : mapped_device D) a : selects a (MkMapped x (start_address d) (end_address d)) = selects a d.
Proof. reflexivity. Qed.

Lemma route_read l a o : word_in l a -> route (MkReq READ a 0) o l = Some (Some (fast_read a (byte_in l)), l).
Proof.
  induction l as [|d l IH]; cbn [word_in]; [tauto|]. cbn [route req_addr req_type].
  destruct (selects a d) eqn:E.
  - intros [[f Hf] He]. rewrite (ram_reads _ f) by exact Hf. apply selects_spec in E.
    assert (Hb : forall k, 0 <= k <= 3 -> byte_in (d :: l) (a + k) = f (a - start_address d + k)).
    { intros k Hk. cbn [byte_in]. replace (selects (a + k) d) with true by (symmetry; apply selects_spec; lia).
      rewrite Hf. f_equal. lia. }
    assert (H0 := Hb 0 ltac:(lia)). rewrite !Z.add_0_r in H0.
    unfold fast_read at 2. rewrite H0, !Hb by lia. destruct d; reflexivity.
  - intros [Hd Hw]. rewrite (IH Hw). do 3 f_equal.
    assert (Hb : forall k, 0 <= k <= 3 -> byte_in (d :: l) (a + k) = byte_in l (a + k)).
    { intros k Hk. cbn [byte_in]. destruct (selects (a + k) d) eqn:E'; [|reflexivity].
      apply selects_spec in E'. assert (~ start_address d <= a <= end_address d) by (rewrite <- selects_spec, E; discriminate). lia. }
    assert (H0 := Hb 0 ltac:(lia)). rewrite !Z.add_0_r in H0.
    unfold fast_read. rewrite H0, !Hb by lia. reflexivity.
Qed.

Lemma route_write l a v o : word_in l a -> exists l',
  route (MkReq WRITE a v) o l = Some (None, l') /\
  (forall b, byte_in l' b = fast_write a v (byte_in l) b) /\ (forall b, word_in l b -> word_in l' b).
Proof.
  induction l as [|d l IH]; cbn [word_in]; [tauto|]. cbn [route req_addr req_type req_data].
  destruct (selects a d) eqn:E.
  - intros [[f Hf] He]. apply selects_spec in E. eexists. split; [reflexivity|]. split; intros b'.
    + unfold fast_write. cbn [byte_in start_address end_address device]. rewrite selects_remap.
      rewrite (ram_writes _ f) by exact Hf. destruct (selects b' d) eqn:Eb.
      * rewrite Hf. unfold fast_write. replace (a - start_address d <=? b' - start_address d) with (a <=? b') by lia.
        replace (b' - start_address d <? a - start_address d + 4) with (b' <? a + 4) by lia.
        destruct (_ && _); [|reflexivity]. do 3 f_equal. lia.
      * assert (Hn : ~ start_address d <= b' <= end_address d) by (rewrite <- selects_spec, Eb; discriminate).
        replace ((a <=? b') && (b' <? a + 4)) with false by lia. reflexivity.
    + cbn [word_in start_address end_address device]. rewrite selects_remap.
      destruct (selects b' d); [|tauto]. intros [_ H]. split; [|exact H]. rewrite (ram_writes _ f) by exact Hf. eexists. reflexivity.
  - intros [Hd Hw]. destruct (IH Hw) as (l' & -> & Hb & Hk). eexists. split; [reflexivity|]. split; intros b'.
    + cbn [byte_in]. unfold fast_write. cbn [byte_in]. destruct (selects b' d) eqn:Eb.
      * apply selects_spec in Eb.
        assert (~ start_address d <= a <= end_address d) by (rewrite <- selects_spec, E; discriminate).
        replace ((a <=? b') && (b' <? a + 4)) with false by lia. reflexivity.
      * rewrite Hb. reflexivity.
    + cbn [word_in]. destruct (selects b' d); [tauto|]. intros [H1 H2]. split; [exact H1|apply Hk, H2].
Qed.

Lemma bus_read a c (s : system D) : has_word s a ->
  bus_transport (MkReq READ a 0) (c, s) = (MkRsp true (fast_read a (physical s)), (c, s)).
Proof.
  intros H. unfold bus_transport. cbn [req_addr]. rewrite route_read by exact H. destruct s; reflexivity.
Qed.

Lemma bus_write a v c (s : system D) : has_word s a -> exists s',
  bus_transport (MkReq WRITE a v) (c, s) = (MkRsp true (undefined c), (c, s')) /\
  sys_cp15 s' = sys_cp15 s /\ (forall b, physical s' b = fast_write a v (physical s) b) /\
  (forall b, has_word s b -> has_word s' b).
Proof.
  intros H. unfold bus_transport. cbn [req_addr].
  destruct (route_write (devices s) a v (a mod 4 * 8) H) as (l' & -> & Hb & Hk).
  exists (MkSystem (sys_cp15 s) l'). split; [reflexivity|]. split; [reflexivity|]. split; assumption.
Qed.

Lemma walk_memory a c (s : system D) : has_word s a -> table_walk a (c, s) = (fast_read a (physical s), (c, s)).
Proof. intros H. unfold table_walk. rewrite bus_read by exact H. reflexivity. Qed.

Definition byte_memory (f : bytes) : Prop := forall a, 0 <= f a < 256.

Lemma fast_read_word a f : byte_memory f -> word (fast_read a f).
Proof.
  intros H. unfold fast_read. assert (H0 := H a). assert (H1 := H (a + 1)). assert (H2 := H (a + 2)). assert (H3 := H (a + 3)). lia.
Qed.
End Ram.

(** ** The port with the translation off *)

Section Port.
Context {D : Type} `{!Peripheral D} `{!RamDevice D}.
Notation machine := (core * system D)%type.

Definition untranslated (s : system D) : Prop := translation_active (sys_cp15 s) = false /\ byte_memory (physical s).

Lemma fast_write_bytes a v f : byte_memory f -> byte_memory (fast_write a v f).
Proof. intros H q. unfold fast_write. destruct (_ && _); [apply (uwrap_range 8); lia|apply H]. Qed.

Lemma low_byte f a : byte_memory f -> u8 (fast_read a f) = f a.
Proof.
  intros H. unfold uwrap, fast_read. assert (H0 := H a).
  change (2 ^ 8) with 256. change (2 ^ 16) with 65536. change (2 ^ 24) with 16777216. Z.div_mod_to_equations. lia.
Qed.

Lemma untranslated_write a v c s : untranslated s -> has_word s a -> exists s',
  port_write a v (c, s) = Next (c, s') /\ untranslated s' /\
  (forall q, physical s' q = fast_write a v (physical s) q) /\ (forall q, has_word s q -> has_word s' q).
Proof.
  intros [Ht Hb] Ha. destruct (bus_write a v c s Ha) as (s' & E & Er & Ep & Eh). exists s'.
  split; [|split; [split; [rewrite Er; exact Ht|intros q; rewrite Ep; apply fast_write_bytes, Hb]|split; assumption]].
  unfold port_write, MMU_transport. cbn [fst snd]. rewrite Ht, E. reflexivity.
Qed.

(** The bytes of a word whose low bits are replaced. *)
Lemma replaced_low w v x k : 0 <= w <= 32 -> word x -> 0 <= k ->
  Z.testbit (Z.lor (Z.shiftl (Z.shiftr x w) w) (uwrap w v)) k = if k <? w then Z.testbit v k else Z.testbit x k.
Proof.
  intros Hw Hx Hk. rewrite Z.lor_spec, Z.shiftl_spec, testbit_uwrap by lia. destruct (Z.ltb_spec k w).
  - rewrite Z.testbit_neg_r by lia. reflexivity.
  - rewrite Z.shiftr_spec by lia. cbn [andb]. rewrite orb_false_r. f_equal. lia.
Qed.

Lemma byte_of_word f a k : byte_memory f -> 0 <= k < 4 -> u8 (Z.shiftr (fast_read a f) (8 * k)) = f (a + k).
Proof.
  intros H Hk. unfold uwrap. rewrite Z.shiftr_div_pow2 by lia. unfold fast_read.
  assert (H0 := H a). assert (H1 := H (a + 1)). assert (H2 := H (a + 2)). assert (H3 := H (a + 3)).
  assert (Hk' : k = 0 \/ k = 1 \/ k = 2 \/ k = 3) by lia.
  destruct Hk' as [->|[->|[->| ->]]]; rewrite ?Z.add_0_r;
    change (2 ^ 8) with 256; change (2 ^ 16) with 65536; change (2 ^ 24) with 16777216; zlits;
    change (2 ^ 0) with 1; try change (2 ^ 8) with 256; try change (2 ^ 16) with 65536; try change (2 ^ 24) with 16777216;
    Z.div_mod_to_equations; lia.
Qed.

Lemma fast_write_low w v f a q : byte_memory f -> w = 8 \/ w = 16 ->
  fast_write a (Z.lor (Z.shiftl (Z.shiftr (fast_read a f) w) w) (uwrap w v)) f q =
    if (a <=? q) && (q <? a + w / 8) then u8 (Z.shiftr v (8 * (q - a))) else f q.
Proof.
  intros H Hw. unfold fast_write. assert (Hx := fast_read_word a f H).
  assert (Hd : w = 8 /\ w / 8 = 1 \/ w = 16 /\ w / 8 = 2) by (destruct Hw as [->| ->]; [left|right]; split; reflexivity).
  destruct ((a <=? q) && (q <? a + 4)) eqn:E.
  - assert (Hb : forall x, u8 (Z.shiftr (Z.lor (Z.shiftl (Z.shiftr (fast_read a f) w) w) (uwrap w v)) (8 * (q - a))) = u8 (Z.shiftr x (8 * (q - a)))
      <-> forall i, 0 <= i < 8 -> (if 8 * (q - a) + i <? w then Z.testbit v (8 * (q - a) + i) else Z.testbit (fast_read a f) (8 * (q - a) + i))
                     = Z.testbit x (8 * (q - a) + i)).
    { intros x. split.
      - intros Hu i Hi. rewrite <- replaced_low by lia. assert (Ht := f_equal (fun z => Z.testbit z i) Hu). cbn beta in Ht.
        rewrite !testbit_uwrap, !Z.shiftr_spec in Ht by lia. replace (i <? 8) with true in Ht by lia.
        rewrite !andb_true_l, !(Z.add_comm i) in Ht. exact Ht.
      - intros Hu. apply Z.bits_inj'. intros i Hi. rewrite !testbit_uwrap, !Z.shiftr_spec by lia.
        destruct (Z.ltb_spec i 8); [|reflexivity]. rewrite !andb_true_l, !(Z.add_comm i), replaced_low by lia. apply Hu. lia. }
    destruct ((a <=? q) && (q <? a + w / 8)) eqn:E2.
    + apply Hb. intros i Hi. replace (8 * (q - a) + i <? w) with true by lia. reflexivity.
    + replace (f q) with (f (a + (q - a))) by (f_equal; lia). rewrite <- (byte_of_word f) by (assumption || lia).
      apply Hb. intros i Hi. replace (8 * (q - a) + i <? w) with false by lia. reflexivity.
  - replace ((a <=? q) && (q <? a + w / 8)) with false by lia. reflexivity.
Qed.

Lemma untranslated_write_part w a v c s : w = 8 \/ w = 16 -> untranslated s -> has_word s a -> exists s',
  port_write_part w a v (c, s) = Next (c, s') /\ untranslated s' /\
  (forall q, physical s' q = if (a <=? q) && (q <? a + w / 8) then u8 (Z.shiftr v (8 * (q - a))) else physical s q) /\
  (forall q, has_word s q -> has_word s' q).
Proof.
  intros Hw [Ht Hb] Ha. unfold port_write_part, MMU_transport. cbn [fst snd]. rewrite Ht. cbn [negb].
  rewrite next_bind, bus_read by exact Ha. cbn [rsp_data fst snd]. rewrite Ht. cbn [negb].
  set (x := Z.lor _ _). destruct (bus_write a x c s Ha) as (s' & E & Er & Ep & Eh). exists s'.
  rewrite next_bind, E. split; [reflexivity|]. split; [|split; [|exact Eh]].
  - split; [rewrite Er; exact Ht|]. intros q. rewrite Ep. apply fast_write_bytes, Hb.
  - intros q. rewrite Ep. apply fast_write_low; assumption.
Qed.

(** With the translation off the bus with its memories is an array of bytes. *)
#[export] Instance system_memory : Memory (system D).
Proof.
  refine {| ready := untranslated; view := physical; has := has_word |}.
  - intros a c s [Ht Hb] Ha. cbn. unfold port_read, MMU_transport. cbn [fst snd]. rewrite Ht. cbn [negb].
    rewrite next_bind, bus_read by exact Ha. reflexivity.
  - intros a c s [Ht Hb] Ha. cbn. unfold port_read, MMU_transport. cbn [fst snd]. rewrite Ht. cbn [negb].
    rewrite next_bind, bus_read by exact Ha. cbn. rewrite low_byte by exact Hb. reflexivity.
  - intros a v c s. apply untranslated_write.
  - intros a v c s Hs Ha. destruct (untranslated_write_part 16 a v c s) as (s' & E & Hs' & Hv & Hh); auto.
    exists s'. split; [exact E|]. split; [exact Hs'|]. split; [|exact Hh]. intros q. rewrite Hv. change (16 / 8) with 2.
    destruct (Z.eqb_spec q a) as [->|]; [|destruct (Z.eqb_spec q (a + 1)) as [->|]].
    + replace ((a <=? a) && (a <? a + 2)) with true by lia. rewrite Z.sub_diag. reflexivity.
    + replace ((a <=? a + 1) && (a + 1 <? a + 2)) with true by lia. rewrite Z.add_simpl_l. reflexivity.
    + replace ((a <=? q) && (q <? a + 2)) with false by lia. reflexivity.
  - intros a v c s Hs Ha. destruct (untranslated_write_part 8 a v c s) as (s' & E & Hs' & Hv & Hh); auto.
    exists s'. split; [exact E|]. split; [exact Hs'|]. split; [|exact Hh]. intros q. rewrite Hv. change (8 / 8) with 1.
    destruct (Z.eqb_spec q a) as [->|].
    + replace ((a <=? a) && (a <? a + 1)) with true by lia. rewrite Z.sub_diag. reflexivity.
    + replace ((a <=? q) && (q <? a + 1)) with false by lia. reflexivity.
Defined.
End Port.

(** ** The memory system keeps the state well formed *)

(** Devices with an invariant, which answer with words. *)
Class SoundDevice (D : Type) `{!Peripheral D} := {
  sound : D -> Prop;
  sound_read : forall d a o, sound d -> word (fst (read_signal a o d)) /\ sound (snd (read_signal a o d));
  sound_write : forall d a v o, sound d -> word v -> sound (write_signal a v o d)
}.

#[export] Instance ram_sound : SoundDevice ram_module.
Proof.
  refine {| sound r := byte_memory (ram_memory r) |}.
  - intros d a o H. split; [apply fast_read_word, H|exact H].
  - intros d a v o H _. apply fast_write_bytes, H.
Defined.

#[export] Instance rom_sound : SoundDevice rom_module.
Proof.
  refine {| sound r := byte_memory (rom_data r) |}; [|auto].
  intros d a o H. split; [apply fast_read_word, H|exact H].
Defined.

Section Sound.
Context {D : Type} `{!Peripheral D} `{!SoundDevice D}.
Notation machine := (core * system D)%type.

Definition sound_devices (l : list (mapped_device D)) : Prop := Forall (fun d => sound (device d)) l.

(** The ranges the devices are mapped at. *)
Definition ranges (l : list (mapped_device D)) : list (Z * Z) := map (fun d => (start_address d, end_address d)) l.

Definition sound_system (s : system D) : Prop := (forall h, word (sys_cp15 s h)) /\ sound_devices (devices s).

Lemma route_sound req o l : sound_devices l -> word (req_data req) ->
  match route req o l with
  | Some (v, l') => (forall x, v = Some x -> word x) /\ sound_devices l' /\ ranges l' = ranges l
  | None => forall r, In r (ranges l) -> ~ fst r <= req_addr req <= snd r
  end.
Proof.
  intros Hs Hw. induction l as [|d l IH]; cbn [route]; [intros r []|].
  inversion_clear Hs as [|? ? Hd Hl]. destruct (selects (req_addr req) d) eqn:E.
  - destruct (req_type req).
    + destruct (sound_read (device d) (req_addr req - start_address d) o Hd) as [H1 H2].
      destruct (read_signal _ _ _) as [x d']. cbn [fst snd] in *. split; [intros y [= <-]; exact H1|].
      split; [constructor; assumption|reflexivity].
    + split; [discriminate|]. split; [constructor; [apply sound_write; assumption|assumption]|reflexivity].
  - specialize (IH Hl). destruct (route req o l) as [[v l']|].
    + destruct IH as (H1 & H2 & H3). split; [exact H1|]. split; [constructor; assumption|].
      unfold ranges in *. cbn [map]. rewrite H3. reflexivity.
    + intros r [<-|Hr]; [|apply IH, Hr]. cbn [fst snd]. rewrite <- selects_spec, E. discriminate.
Qed.

Section Keep.
Context (P : core -> Prop) (M : system D -> Prop).
Context (undefined_word : forall c, P c -> word (undefined c)).
Context (cp15_kept : forall s r, M s -> (forall h, word (r h)) -> M (MkSystem r (devices s))).
Context (cp15_words : forall s, M s -> forall h, word (sys_cp15 s h)).
Context (bus_kept : forall req m, inv P M m -> word (req_data req) -> word (req_addr req) ->
  word (rsp_data (fst (bus_transport req m))) /\ inv P M (snd (bus_transport req m))).

Lemma walk_kept a m : word a -> inv P M m -> word (fst (table_walk a m)) /\ inv P M (snd (table_walk a m)).
Proof.
  intros Ha H. unfold table_walk. assert (Hb := bus_kept (MkReq READ a 0) m H ltac:(cbn; lia) Ha).
  destruct (bus_transport _ m). exact Hb.
Qed.

Lemma join_word x va k m : word va -> word m -> word (Z.lor (u32 (Z.shiftl x k)) (Z.land va m)).
Proof. intros. apply lor_word; [apply u32_word|apply land_words; assumption]. Qed.

Lemma translate_kept va m : word va -> inv P M m -> gives (fun pa => word pa) (inv P M) (L1_translate va m).
Proof.
  intros Hva H. unfold L1_translate. assert (Ht : word (fst (ttb_address va (sys_cp15 m.2)))).
  { unfold ttb_address. cbn [fst]. apply land_word; [destruct (if _ =? 0 then _ else _); apply cp15_words, H|].
    assert (Hn := TTBCR_N_range (sys_cp15 m.2)). rewrite bits_mask_spec by lia.
    assert (2 ^ (14 - TTBCR_N (sys_cp15 m.2)) <= 2 ^ 14) by (apply Z.pow_le_mono_r; lia). lia. }
  destruct (ttb_address va _) as [ttb used]. cbn [fst] in Ht. unfold L1_table_walk.
  match goal with |- context [table_walk ?a m] =>
    destruct (walk_kept a m ltac:(apply lor_word; [exact Ht|apply u32_word]) H) as [_ H1];
    destruct (table_walk a m) as [d m1] end.
  cbn [snd] in H1. destruct (match Z.land d 0x3 with 0 => _ | _ => _ end) as [|base|base|]; cbn [gives]; auto.
  - split; [lia|exact H1].
  - unfold L2_translate, L2_table_walk.
    match goal with |- context [table_walk ?a m1] =>
      destruct (walk_kept a m1 ltac:(apply u32_word) H1) as [_ H2]; destruct (table_walk a m1) as [d2 m2] end.
    cbn [snd] in H2. destruct (match Z.land d2 0x3 with 0 => _ | _ => _ end); cbn [gives]; auto;
      (split; [apply join_word; [exact Hva|lia]|exact H2]).
  - split; [apply join_word; [exact Hva|lia]|exact H1].
Qed.

Lemma transport_kept req m : inv P M m -> word (req_data req) -> word (req_addr req) ->
  gives (fun rsp => word (rsp_data rsp)) (inv P M) (MMU_transport req m).
Proof.
  intros H Hw Ha. unfold MMU_transport. destruct (negb _).
  - cbn [gives]. assert (Hb := bus_kept req m H Hw Ha). destruct (bus_transport req m). exact Hb.
  - assert (Ht := translate_kept (req_addr req) m Ha H). destruct (L1_translate _ m) as [[pa m1]|m1|st]; cbn in *; auto.
    destruct Ht as [Hpa H1]. assert (Hb := bus_kept (MkReq (req_type req) pa (req_data req)) m1 H1 Hw Hpa).
    destruct (bus_transport _ m1). exact Hb.
Qed.

Lemma port_read_kept low a m : word a -> (forall v, word v -> word (low v)) -> inv P M m ->
  gives (fun v => word v) (inv P M) (port_read low a m).
Proof.
  intros Ha Hlow H. unfold port_read. assert (Ht := transport_kept (MkReq READ a 0) m H ltac:(cbn; lia) Ha).
  destruct (MMU_transport _ m) as [[rsp m1]|m1|st]; cbn in *; auto. destruct Ht as [Hr H1]. split; [|exact H1].
  apply Hlow. destruct (success rsp); [exact Hr|apply undefined_word, H1].
Qed.

Lemma port_write_kept a v m : word a -> word v -> inv P M m -> keeps (inv P M) (port_write a v m).
Proof.
  intros Ha Hv H. unfold port_write. assert (Ht := transport_kept (MkReq WRITE a v) m H Hv Ha).
  destruct (MMU_transport _ m) as [[rsp m1]|m1|st]; cbn in *; tauto.
Qed.

Lemma port_write_part_kept w a v m : word a -> 0 <= w <= 32 -> inv P M m -> keeps (inv P M) (port_write_part w a v m).
Proof.
  intros Ha Hw H. unfold port_write_part. assert (Ht := transport_kept (MkReq READ a 0) m H ltac:(cbn; lia) Ha).
  destruct (MMU_transport _ m) as [[rsp m1]|m1|st]; cbn in Ht |- *; auto. destruct Ht as [Hr H1].
  assert (Hx : word (Z.lor (Z.shiftl (Z.shiftr (rsp_data rsp) w) w) (uwrap w v))).
  { apply lor_word; [|apply uwrap_word; lia]. rewrite <- Z.ldiff_ones_r by lia.
    assert (0 <= Z.ldiff (rsp_data rsp) (Z.ones w)) by (apply Z.ldiff_nonneg; left; lia).
    split; [assumption|]. apply bits_range; [lia|assumption|]. intros i Hi. rewrite Z.ldiff_spec, (testbit_high 32) by lia. reflexivity. }
  assert (Ht2 := transport_kept (MkReq WRITE a _) m1 H1 Hx Ha).
  destruct (MMU_transport _ m1) as [[rsp2 m2]|m2|st]; cbn in *; tauto.
Qed.

Lemma MCR_kept opc1 opc2 n k v r : word v -> (forall h, word (r h)) -> forall h, word (cp15_MCR opc1 opc2 n k v r h).
Proof. intros Hv Hr h. unfold cp15_MCR. destruct (h =? _); auto. Qed.

Lemma system_keeps : ports_keep P M.
Proof.
  split.
  - intros a m Ha H. apply port_read_kept; auto.
  - intros a m Ha H. apply port_read_kept; [exact Ha|intros; apply uwrap_word; lia|exact H].
  - intros a v m Ha Hv H. apply port_write_kept; assumption.
  - intros a v m Ha _ H. apply port_write_part_kept; [exact Ha|lia|exact H].
  - intros a v m Ha _ H. apply port_write_part_kept; [exact Ha|lia|exact H].
  - intros cp pl f2 f3 n k v s Hv H. apply cp15_kept; [exact H|]. apply MCR_kept; [exact Hv|apply cp15_words, H].
  - intros cp pl f2 f3 n k s H. split; [apply cp15_words, H|exact H].
Qed.
End Keep.

Lemma bus_sound req (m : machine) : inv well_formed sound_system m -> word (req_data req) ->
  word (rsp_data (fst (bus_transport req m))) /\ inv well_formed sound_system (snd (bus_transport req m)).
Proof.
  destruct m as [c s]. intros [[W Ht] [Hc Hd]] Hw. unfold bus_transport. cbn [fst snd] in *.
  assert (Hr := route_sound req (req_addr req mod 4 * 8) (devices s) Hd Hw).
  destruct (route _ _ _) as [[v l]|]; cbn [fst snd rsp_data].
  - destruct Hr as (Hv & Hl & _). split; [destruct v; [apply Hv; reflexivity|apply (wf_undefined _ W)]|].
    exact (conj (conj W Ht) (conj Hc Hl)).
  - split; [apply (wf_undefined _ W)|]. exact (conj (conj W Ht) (conj Hc Hd)).
Qed.

(** The memory system keeps the invariants of the core. *)
Lemma system_ports_keep : ports_keep well_formed sound_system.
Proof.
  apply system_keeps.
  - intros c [W _]. apply (wf_undefined _ W).
  - intros s r [_ H2] Hr. split; [exact Hr|exact H2].
  - intros s H. apply H.
  - intros req m H Hw _. apply bus_sound; assumption.
Qed.

Lemma bus_quiet c0 req (m : machine) : word (undefined c0) -> inv (fun c => c = c0) sound_system m -> word (req_data req) -> word (req_addr req) ->
  word (rsp_data (fst (bus_transport req m))) /\ inv (fun c => c = c0) sound_system (snd (bus_transport req m)).
Proof.
  destruct m as [c s]. intros Hu [E [Hc Hd]] Hw Ha. cbn in E. subst c0. unfold bus_transport. cbn [fst snd] in *.
  assert (Hr := route_sound req (req_addr req mod 4 * 8) (devices s) Hd Hw).
  destruct (route _ _ _) as [[v l]|]; cbn [fst snd rsp_data].
  - destruct Hr as (Hv & Hl & El). split; [destruct v; [apply Hv; reflexivity|exact Hu]|].
    exact (conj eq_refl (conj Hc Hl)).
  - split; [exact Hu|]. exact (conj eq_refl (conj Hc Hd)).
Qed.

(** No access of the memory system changes the core: a data abort does not reach
    it. *)
Lemma system_quiet : quiet (system D) sound_system.
Proof.
  assert (G : forall c0, word (undefined c0) -> ports_keep (fun c => c = c0) sound_system).
  { intros c0 Hu. apply system_keeps.
    - intros c ->. exact Hu.
    - intros s r [_ H2] Hr. exact (conj Hr H2).
    - intros s H. apply H.
    - intros req m H Hw Ha. apply bus_quiet; assumption. }
  split.
  - intros a m Ha HM Hu. exact (pk_read _ _ (G m.1 Hu) a m Ha (conj eq_refl HM)).
  - intros a m Ha HM Hu. exact (pk_read_byte _ _ (G m.1 Hu) a m Ha (conj eq_refl HM)).
  - intros a v m Ha HM Hu Hv. exact (pk_write _ _ (G m.1 Hu) a v m Ha Hv (conj eq_refl HM)).
  - intros a v m Ha HM Hu Hv. exact (pk_write_half _ _ (G m.1 Hu) a v m Ha Hv (conj eq_refl HM)).
  - intros a v m Ha HM Hu Hv. exact (pk_write_byte _ _ (G m.1 Hu) a v m Ha Hv (conj eq_refl HM)).
  - intros cp pl f2 f3 n k v s Hv [H1 H2]. split; [|exact H2]. apply MCR_kept; assumption.
  - intros cp pl f2 f3 n k s H. split; [apply H|exact H].
Qed.
End Sound.
