(* ===== verification/ArmSystemOk.v ===== *)
(** * The platform as a whole

    The memory port refines an array of bytes, address translation follows the
    tables of the architecture, and what a load from an unmapped address does.
    The examples run the instructions on a bus with one memory. *)
From S2P Require Import Prelude ArmCore ArmFormats ArmData ArmMem ArmIsa ArmMmu ArmCoreOk ArmFormatsOk ArmDataOk ArmStepOk ArmMemOk ArmMmuOk.

(** ** Accesses *)

Inductive access := Read (a : Z) | ReadByte (a : Z) | Write (a v : Z) | WriteHalf (a v : Z) | WriteByte (a v : Z).

Definition address_of (x : access) : Z :=
  match x with Read a | ReadByte a | Write a _ | WriteHalf a _ | WriteByte a _ => a end.

(** What an array of bytes gives and becomes. *)
Definition array (x : access) (f : bytes) : Z * bytes :=
  match x with
  | Read a => (f a + 2 ^ 8 * f (a + 1) + 2 ^ 16 * f (a + 2) + 2 ^ 24 * f (a + 3), f)
  | ReadByte a => (f a, f)
  | Write a v => (0, fun q => if (a <=? q) && (q <? a + 4) then v / 2 ^ (8 * (q - a)) mod 2 ^ 8 else f q)
  | WriteHalf a v => (0, fun q => if (a <=? q) && (q <? a + 2) then v / 2 ^ (8 * (q - a)) mod 2 ^ 8 else f q)
  | WriteByte a v => (0, fun q => if q =? a then v mod 2 ^ 8 else f q)
  end.

Fixpoint array_all (l : list access) (f : bytes) : list Z * bytes :=
  match l with
  | [] => ([], f)
  | x :: l => let '(v, f) := array x f in let '(vs, f) := array_all l f in (v :: vs, f)
  end.

Section Accesses.
Context {mem : Type} `{!MemPort mem}.
Notation machine := (core * mem)%type.

(** What the port of the core does. *)
Definition perform (x : access) (m : machine) : flow machine (Z * machine) :=
  match x with
  | Read a => MEM_read a m
  | ReadByte a => MEM_read_byte a m
  | Write a v => m ← MEM_write a v m; Next (0, m)
  | WriteHalf a v => m ← MEM_write_half a v m; Next (0, m)
  | WriteByte a v => m ← MEM_write_byte a v m; Next (0, m)
  end.

Fixpoint perform_all (l : list access) (m : machine) : flow machine (list Z * machine) :=
  match l with
  | [] => Next ([], m)
  | x :: l => '(v, m) ← perform x m; '(vs, m) ← perform_all l m; Next (v :: vs, m)
  end.

Context `{!Memory mem}.

Lemma perform_array x c s : ready s -> has s (address_of x) -> exists s',
  perform x (c, s) = Next (fst (array x (view s)), (c, s')) /\ ready s' /\
  (forall q, view s' q = snd (array x (view s)) q) /\ (forall q, has s q -> has s' q).
Proof.
  intros Hr Hh. destruct x as [a|a|a v|a v|a v]; cbn [address_of] in Hh; cbn [perform array fst snd].
  - exists s. rewrite law_read by assumption. auto.
  - exists s. rewrite law_read_byte by assumption. auto.
  - destruct (law_write a v c s Hr Hh) as (s' & -> & H1 & H2 & H3). exists s'. split; [reflexivity|]. split; [exact H1|].
    split; [|exact H3]. intros q. rewrite H2. unfold fast_write. destruct ((a <=? q) && (q <? a + 4)) eqn:E; [|reflexivity].
    unfold uwrap. rewrite Z.shiftr_div_pow2 by lia. reflexivity.
  - destruct (law_write_half a v c s Hr Hh) as (s' & -> & H1 & H2 & H3). exists s'. split; [reflexivity|]. split; [exact H1|].
    split; [|exact H3]. intros q. rewrite H2. destruct (Z.eqb_spec q a) as [->|]; [|destruct (Z.eqb_spec q (a + 1)) as [->|]].
    + replace ((a <=? a) && (a <? a + 2)) with true by lia. rewrite Z.sub_diag. unfold uwrap. zlits. rewrite Z.div_1_r. reflexivity.
    + replace ((a <=? a + 1) && (a + 1 <? a + 2)) with true by lia. rewrite Z.add_simpl_l. unfold uwrap.
      rewrite Z.shiftr_div_pow2 by lia. reflexivity.
    + replace ((a <=? q) && (q <? a + 2)) with false by lia. reflexivity.
  - destruct (law_write_byte a v c s Hr Hh) as (s' & -> & H1 & H2 & H3). exists s'. auto.
Qed.

Lemma array_ext x f g : (forall q, f q = g q) ->
  fst (array x f) = fst (array x g) /\ forall q, snd (array x f) q = snd (array x g) q.
Proof. intros H. destruct x; cbn; rewrite ?H; split; try reflexivity; intros q; rewrite ?H; reflexivity || apply H. Qed.

Lemma array_all_ext l : forall f g, (forall q, f q = g q) ->
  fst (array_all l f) = fst (array_all l g) /\ forall q, snd (array_all l f) q = snd (array_all l g) q.
Proof.
  induction l as [|x l IH]; intros f g H; cbn [array_all]; [split; [reflexivity|exact H]|].
  destruct (array_ext x f g H) as [E1 E2]. destruct (array x f) as [v f'], (array x g) as [w g']. cbn [fst snd] in *.
  destruct (IH f' g' E2) as [E3 E4]. destruct (array_all l f') as [vs f2], (array_all l g') as [ws g2]. cbn [fst snd] in *.
  split; [congruence|exact E4].
Qed.

Lemma perform_all_array l : forall c s, ready s -> Forall (fun x => has s (address_of x)) l -> exists s',
  perform_all l (c, s) = Next (fst (array_all l (view s)), (c, s')) /\ ready s' /\
  (forall q, view s' q = snd (array_all l (view s)) q).
Proof.
  induction l as [|x l IH]; intros c s Hr Hh; cbn [perform_all array_all].
  - exists s. auto.
  - inversion_clear Hh as [|? ? Hx Hl]. destruct (perform_array x c s Hr Hx) as (s1 & E1 & Hr1 & Hv1 & Hh1).
    rewrite E1, next_bind. destruct (IH c s1 Hr1) as (s2 & E2 & Hr2 & Hv2).
    { eapply Forall_impl; [exact Hl|]. intros y. apply Hh1. }
    destruct (array x (view s)) as [v f]. cbn [fst snd] in *. rewrite E2, next_bind.
    destruct (array_all_ext l (view s1) f Hv1) as [E3 E4].
    destruct (array_all l (view s1)) as [vs f2], (array_all l f) as [ws g2]. cbn [fst snd] in *. subst vs.
    exists s2. split; [reflexivity|]. split; [exact Hr2|]. intros q. rewrite Hv2. apply E4.
Qed.
End Accesses.

Section Platform.
Context {D : Type} `{!Peripheral D} `{!RamDevice D}.
Notation machine := (core * system D)%type.

(** C16. The memory port, with the translation off, refines an array of bytes:
    every sequence of word and byte reads and of word, half-word and byte writes
    at addresses whose words are in a memory on the bus gives what the array
    gives, leaves the core alone and leaves the memories with the bytes of the
    array. *)
Theorem memory_port_refines_array l c (s : system D) :
  untranslated s -> Forall (fun x => has_word s (address_of x)) l -> exists s',
  perform_all l (c, s) = Next (fst (array_all l (physical s)), (c, s')) /\ untranslated s' /\
  (forall q, physical s' q = snd (array_all l (physical s)) q).
Proof. exact (perform_all_array (mem := system D) l c s). Qed.

(** ** Translation *)

(** The words of the tables that a translation of [va] reads are in memory. *)
Definition tables_in_memory (s : system D) (va : Z) : Prop :=
  let r := sys_cp15 s in
  let first := first_level (TTBCR_N r) (r TRANSLATION_TABLE_BASE_0) (r TRANSLATION_TABLE_BASE_1) va in
  let d := fast_read first (physical s) in
  has_word s first /\ (d mod 4 = 1 -> has_word s (second_level d va)).

Definition translate (s : system D) (va : Z) : outcome :=
  let r := sys_cp15 s in
  translation (fun a => fast_read a (physical s)) (TTBCR_N r) (r TRANSLATION_TABLE_BASE_0)
    (r TRANSLATION_TABLE_BASE_1) va.

Lemma L1_translate_memory va c (s : system D) : word va -> (forall h, word (sys_cp15 s h)) -> ttbr1_aligned (sys_cp15 s) ->
  byte_memory (physical s) -> tables_in_memory s va ->
  L1_translate va (c, s) = match translate s va with
                           | Mapped pa => Next (pa, (c, s)) | Fault1 => Next (0, (c, s)) | Fault2 | Unsupported => Stop 0
                           end.
Proof.
  intros Hv Hr Hal Hb [T1 T2]. unfold translate, translation.
  set (first := first_level _ _ _ _) in *. set (d := fast_read first (physical s)) in *.
  rewrite (L1_translate_spec d (fast_read (second_level d va) (physical s)) va (c, s) (c, s) (c, s)); cbn [fst snd]; auto.
  - destruct (d mod 4) as [|[p|p|]|p]; try reflexivity; try (destruct (Z.testbit d 18); reflexivity).
    unfold page_of. destruct (_ mod 4) as [|[]|]; reflexivity.
  - apply fast_read_word, Hb.
  - apply fast_read_word, Hb.
  - apply (walk_memory first c s T1).
  - intros H1. apply walk_memory, T2, H1.
Qed.


(** ** Unmapped addresses *)

Lemma unmapped_route req o (l : list (mapped_device D)) :
  Forall (fun d => selects (req_addr req) d = false) l -> route req o l = None.
Proof. induction 1 as [|d l Hd _ IH]; cbn [route]; [reflexivity|]. rewrite Hd, IH. reflexivity. Qed.

(** A load from an address no device is mapped at: the bus sends the core a data
    abort, but as a read request, which the interrupt port refuses; the
    destination gets an undefined value and the program goes on in its mode. *)
Theorem data_abort_never_serviced rd c (s : system D) :
  wf_core c -> In (mode_of c) modes -> 0 <= rd < 15 -> translation_active (sys_cp15 s) = false ->
  Forall (fun d => selects (ls_address c) d = false) (devices s) ->
  exists c', LDR rd (c, s) = Next (c', s) /\ mode_of c' = mode_of c /\ RB_read c' rd = undefined c /\
    forall q, 0 <= q < 16 -> q <> rd -> RB_read c' q = RB_read c q.
Proof.
  intros W Hm Hrd Hoff Hun.
  assert (E : LDR rd (c, s) = Next (sync_pc (RB_write rd (undefined c) c), s)).
  { unfold LDR, addr. cbn [fst MEM_read system_mem]. unfold port_read, MMU_transport. cbn [fst snd]. rewrite Hoff.
    unfold bus_transport. rewrite unmapped_route by exact Hun. cbn. replace (rd =? 15) with false by lia. reflexivity. }
  assert (Hr := fun q Hq => RB_read_write c rd (undefined c) q (wf_length _ W) Hm ltac:(lia) Hq).
  eexists. split; [exact E|]. split; [apply (mode_of_write rd)|].
  split; [etransitivity; [apply Hr; lia|rewrite Z.eqb_refl; reflexivity]|].
  intros q Hq Hn. etransitivity; [apply Hr; lia|]. rewrite (proj2 (Z.eqb_neq q rd) Hn). reflexivity.
Qed.
End Platform.

(** ** Examples *)

(** A bus with one memory over all addresses, and a first-level table at 0x4000
    whose entry 1 is a section. *)
Definition sample_bytes : bytes := fun a =>
  if a =? 0x4004 then 0x02 else if a =? 0x4006 then 0xC0 else if a =? 0x4007 then 0xAB else 0.

Definition sample_cp15 (on : Z) : cp15 := fun h =>
  if h =? CONTROL then on else if h =? TRANSLATION_TABLE_BASE_0 then 0x4000 else 0.

Definition sample_system (on : Z) : system ram_module :=
  MkSystem (sample_cp15 on) (connect_device (MkRam sample_bytes (2 ^ 32)) 0 (2 ^ 32 - 1) []).

Lemma sample_byte_memory : byte_memory sample_bytes.
Proof. intros a. unfold sample_bytes. repeat case_match; lia. Qed.

Lemma sample_physical on : byte_memory (physical (sample_system on)).
Proof.
  intros a. unfold physical. cbn [byte_in sample_system devices connect_device app ram_of ram_is_ram device ram_memory start_address].
  destruct (selects _ _); [apply sample_byte_memory|lia].
Qed.

Lemma sample_has on a : 0 <= a < 2 ^ 32 - 3 -> has_word (sample_system on) a.
Proof.
  intros Ha. cbn [has_word sample_system devices connect_device app word_in device start_address end_address].
  unfold has_word. cbn [sample_system devices connect_device app word_in device start_address end_address].
  unfold selects. cbn [start_address end_address]. replace ((0 <=? a) && (a <=? 2 ^ 32 - 1)) with true by lia.
  split; [eexists; reflexivity|lia].
Qed.

Lemma sample_cp15_word on h : word on -> word (sample_cp15 on h).
Proof. intros. unfold sample_cp15. repeat case_match; lia. Qed.

Lemma sample_sound on : word on -> sound_system (sample_system on).
Proof.
  intros Ho. split.
  - intros h. apply sample_cp15_word, Ho.
  - constructor; [exact sample_byte_memory|constructor].
Qed.

Lemma memory_port_refines_array_witness : exists s',
  perform_all [WriteHalf 0x101 0xBEEF; Read 0x100] (sample_core USER_MODE, sample_system 0)
    = Next ([0; 0xBEEF00], (sample_core USER_MODE, s')).
Proof.
  destruct (memory_port_refines_array [WriteHalf 0x101 0xBEEF; Read 0x100] (sample_core USER_MODE) (sample_system 0))
    as (s' & H & _).
  - split; [reflexivity|apply sample_physical].
  - constructor; [apply sample_has; cbn; lia|]. constructor; [apply sample_has; cbn; lia|constructor].
  - exists s'. exact H.
Defined.


Definition empty_bus : system ram_module := MkSystem (sample_cp15 0) [].

Lemma data_abort_never_serviced_witness : exists c',
  LDR 14 (sample_core USER_MODE, empty_bus) = Next (c', empty_bus) /\ mode_of c' = USER_MODE.
Proof.
  destruct (data_abort_never_serviced 14 (sample_core USER_MODE) empty_bus) as (c' & H & Hm & _).
  - apply sample_wf. unfold USER_MODE. lia.
  - apply sample_modes. reflexivity.
  - lia.
  - reflexivity.
  - constructor.
  - exists c'. split; [exact H|]. rewrite Hm. reflexivity.
Defined.

(** A decode unit that fetches the word and takes every word for an addition
    under the equal condition. *)
Definition sample_decode (a : Z) (m : core * system ram_module) :
    flow (core * system ram_module) (Z * (string -> Z) * (core * system ram_module)) :=
  '(w, m) ← MEM_read a m; Next (5, fun _ => 0, m).

Lemma run_well_formed_witness :
  match run sample_decode 3 (sample_core USER_MODE, sample_system 1) with
  | Some m' => well_formed m'.1 /\ sound_system m'.2
  | None => False
  end.
Proof.
  destruct (run sample_decode 3 (sample_core USER_MODE, sample_system 1)) as [m'|] eqn:E;
    [|vm_compute in E; discriminate].
  apply (run_well_formed sound_system sample_decode 3 (sample_core USER_MODE, sample_system 1) m'); [..|exact E].
  - exact system_ports_keep.
  - intros a m Ha H. unfold sample_decode. assert (Hr := pk_read _ _ system_ports_keep a m Ha H).
    destruct (MEM_read a m) as [[w m1]|m1|st]; cbn in *; [|exact Hr|exact I].
    split; [split; [lia|split; lia]|apply Hr].
  - split; [apply sample_wf; unfold USER_MODE; lia|reflexivity].
  - apply (sample_sound 1). lia.
Defined.

Lemma user_mode_confined_witness :
  match behavior (fun _ => 0) (ls1 op_str) (sample_core USER_MODE, sample_system 0) with
  | Next m' | Annul m' => mode_of m'.1 = USER_MODE /\ banked m'.1 SPSR_irq = 7
  | Stop _ => False
  end.
Proof.
  destruct (behavior (fun _ => 0) (ls1 op_str) (sample_core USER_MODE, sample_system 0)) as [m'|m'|st] eqn:E;
    [| |vm_compute in E; discriminate];
    (destruct (user_mode_confined sound_system (fun _ => 0) (ls1 op_str) (sample_core USER_MODE, sample_system 0) m')
      as (H1 & _ & H2);
      [exact system_quiet|apply (sample_sound 0); lia|split; [lia|split; lia]|reflexivity
      |split; [apply sample_wf; unfold USER_MODE; lia|reflexivity]|reflexivity|auto|];
     split; [exact H1|rewrite H2; reflexivity]).
Defined.

(** A push and a pop of registers 1 and 2 through register 13. *)
Definition push_fields (x : string) : Z :=
  if String.eqb x "p" then 1 else if String.eqb x "w" then 1 else if String.eqb x "rn" then 13
  else if String.eqb x "rlist" then 0x6 else 0.
Definition pop_fields (x : string) : Z :=
  if String.eqb x "u" then 1 else if String.eqb x "w" then 1 else if String.eqb x "rn" then 13
  else if String.eqb x "rlist" then 0x6 else 0.

(** The core after the push has been followed by code that clears the two
    registers. *)
Definition cleared_core : core := RB_write 1 0 (RB_write 2 0 (RB_write 13 105 (sample_core USER_MODE))).

Lemma block_transfer_roundtrip_witness : exists c1 s1,
  run_lsm push_fields STM (sample_core USER_MODE, sample_system 0) = Next (c1, s1) /\ exists c3,
  run_lsm pop_fields LDM (cleared_core, s1) = Next (c3, s1) /\ RB_read c3 1 = 101 /\ RB_read c3 13 = 113.
Proof.
  assert (W : wf_core (sample_core USER_MODE)) by (apply sample_wf; unfold USER_MODE; lia).
  destruct (block_transfer_roundtrip push_fields pop_fields 1 0 13 0x6 (sample_core USER_MODE) (sample_system 0))
    as (c1 & s1 & E1 & H);
    [repeat split|repeat split|lia|lia|lia|lia|reflexivity|reflexivity|exact W|apply sample_modes; reflexivity
    |split; [reflexivity|apply sample_physical]|vm_compute; congruence| |].
  - intros k Hk. assert (Hk' : (k < 2)%nat) by exact Hk.
    replace (block_start _ _ _ _) with 105 by (vm_compute; reflexivity). apply sample_has. lia.
  - exists c1, s1. split; [exact E1|].
    assert (Hv : match run_lsm push_fields STM (sample_core USER_MODE, sample_system 0) with
                 | Next m => mode_of m.1 = USER_MODE /\ RB_read m.1 13 = 105 | _ => True end)
      by (vm_compute; split; reflexivity).
    rewrite E1 in Hv. cbn [fst] in Hv. destruct Hv as [Hm Hb].
    destruct (H cleared_core) as (c3 & E3 & H3).
    + unfold cleared_core. repeat apply wf_RB_write; try lia. exact W.
    + rewrite Hm. reflexivity.
    + rewrite Hb. reflexivity.
    + exists c3. split; [exact E3|]. split; [exact (H3 1 ltac:(lia))|exact (H3 13 ltac:(lia))].
Defined.
