(* ===== verification/Tzic.v ===== *)
(** * The interrupt controller of the ARM platform

    [src/armv7/src/tzic.cpp] and [tzic.h].  A turn of the thread [prc_tzic] is
    the function [tzic_cycle]; it gives the new state and whether the request
    for [EXCEPTION_IRQ] is sent to the core.  An access outside the registers
    or the inputs is a [Crash]. *)
From S2P Require Import Prelude ArmCore.

Definition TZIC_INTCTRL : Z := 0x0.
Definition TZIC_INTTYPE : Z := 0x4.
Definition TZIC_PRIOMASK : Z := 0xC.
Definition TZIC_DSMINT : Z := 0x14.
Definition TZIC_ENSET0 : Z := 0x100.
Definition TZIC_ENCLEAR0 : Z := 0x180.
Definition TZIC_SRCSET0 : Z := 0x200.
Definition TZIC_SRCCLEAR0 : Z := 0x280.
Definition TZIC_PRIORITY0 : Z := 0x400.
Definition TZIC_PND0 : Z := 0xD00.
Definition TZIC_HIPND0 : Z := 0xD80.
Definition TZIC_WAKEUP0 : Z := 0xE00.
Definition TZIC_SWINT : Z := 0xF00.
Definition TZIC_LASTADDR : Z := 0xF04.

(** [regs] by word index. *)
Record tzic_module := MkTzic {
  regs : Z -> Z;
  enabled : bool;
  changed : bool;
  int_in : Z -> Z;
  wakeup_signal : bool
}.

Definition tzic_reset (wakeup : bool) : tzic_module :=
  MkTzic (fun i => if i =? TZIC_INTTYPE / 4 then 0x403 else 0) false true (fun _ => 0) wakeup.

Definition set_reg (i v : Z) (t : tzic_module) : tzic_module :=
  MkTzic (fun j => if j =? i then v else regs t j) (enabled t) (changed t) (int_in t) (wakeup_signal t).
Definition set_enabled (x : bool) (t : tzic_module) : tzic_module :=
  MkTzic (regs t) x (changed t) (int_in t) (wakeup_signal t).
Definition set_changed (x : bool) (t : tzic_module) : tzic_module :=
  MkTzic (regs t) (enabled t) x (int_in t) (wakeup_signal t).
Definition set_int_in (i v : Z) (t : tzic_module) : tzic_module :=
  MkTzic (regs t) (enabled t) (changed t) (fun j => if j =? i then v else int_in t j) (wakeup_signal t).
Definition set_wakeup (x : bool) (t : tzic_module) : tzic_module :=
  MkTzic (regs t) (enabled t) (changed t) (int_in t) x.

(** Bit [i % 32] of word [i / 32] of a bank of registers. *)
Definition put_reg_bit (bank i : Z) (b : bool) (t : tzic_module) : tzic_module :=
  let k := bank / 4 + i / 32 in
  set_reg k (put_bit (regs t k) (i mod 32) b) t.

(** ** The thread *)

Definition candidate (t : tzic_module) (k : Z) : Z :=
  Z.land (regs t (TZIC_ENSET0 / 4 + k)) (Z.lor (regs t (TZIC_SRCSET0 / 4 + k)) (int_in t k)).

(** [(candidate[i / 32] >> (i % 32)) ? true : false]. *)
Definition cur (candidate : Z -> Z) (i : Z) : bool := negb (Z.shiftr (candidate (i / 32)) (i mod 32) =? 0).

Definition priority (t : tzic_module) (i : Z) : Z :=
  let pri := regs t (TZIC_PRIORITY0 / 4 + i / 4) in
  match i mod 4 with
  | 0 => Z.land pri 0xFF
  | 1 => Z.shiftr (Z.land pri 0xFF00) 8
  | 2 => Z.shiftr (Z.land pri 0xFF0000) 16
  | _ => Z.shiftr (Z.land pri 0xFF000000) 24
  end.

(** A turn of the first loop, on the controller, [has_int] and [highest_pri]. *)
Definition update_pending (cand : Z -> Z) (st : tzic_module * bool * Z) (i : Z) : tzic_module * bool * Z :=
  let '(t, has_int, highest_pri) := st in
  if negb (cur cand i) then (put_reg_bit TZIC_PND0 i false t, has_int, highest_pri)
  else
    let pri := priority t i in
    if regs t (TZIC_PRIOMASK / 4) <? pri then
      let t := put_reg_bit TZIC_PND0 i true t in
      let highest_pri := if highest_pri <? pri then pri else highest_pri in
      let t := if getBit (regs t (TZIC_WAKEUP0 / 4 + i / 32)) (i mod 32)
               then set_changed true (set_wakeup true (set_reg (TZIC_DSMINT / 4) 0 t))
               else t in
      (t, true, highest_pri)
    else (t, has_int, highest_pri).

(** A turn of the second loop. *)
Definition update_hipending (cand : Z -> Z) (highest_pri : Z) (t : tzic_module) (i : Z) : tzic_module :=
  if negb (cur cand i) then put_reg_bit TZIC_HIPND0 i false t
  else put_reg_bit TZIC_HIPND0 i (priority t i =? highest_pri) t.

Definition interrupts : list Z := seqZ 0 128.

Definition tzic_cycle (t : tzic_module) : tzic_module * bool :=
  if negb (changed t) then (t, false)
  else
    let t := set_wakeup false (set_changed false t) in
    let cand := candidate t in
    let '(t, has_int, highest_pri) := fold_left (update_pending cand) interrupts (t, false, 0) in
    let t := fold_left (update_hipending cand highest_pri) interrupts t in
    (t, has_int && enabled t).

(** ** The interrupt inputs *)

Definition interrupt (intnumber : Z) (deassert : bool) (t : tzic_module) : exec tzic_module :=
  if getBit (regs t (TZIC_DSMINT / 4)) 0 then Ret t
  else if (0 <=? intnumber) && (intnumber <? 128) then
    let k := intnumber / 32 in
    let v := int_in t k in
    Ret (set_changed true (set_int_in k (put_bit v (intnumber mod 32) (negb deassert)) t))
  else Crash.

(** ** The registers *)

(** The four registers of a bank. *)
Definition in_bank (bank address : Z) : bool := existsb (Z.eqb address) [bank; bank + 4; bank + 8; bank + 12].

Definition reg_at (address : Z) (t : tzic_module) : exec Z :=
  if (0 <=? address) && (address / 4 <? TZIC_LASTADDR / 4) then Ret (regs t (address / 4)) else Crash.

Definition write_reg (address datum : Z) (t : tzic_module) : exec tzic_module :=
  if (0 <=? address) && (address / 4 <? TZIC_LASTADDR / 4) then Ret (set_reg (address / 4) datum t) else Crash.

Definition fast_read (address : Z) (t : tzic_module) : exec Z :=
  if address =? TZIC_INTCTRL then Ret (if enabled t then 1 else 0)
  else if in_bank TZIC_ENCLEAR0 address then reg_at (address - (TZIC_ENCLEAR0 - TZIC_ENSET0)) t
  else if in_bank TZIC_SRCCLEAR0 address || in_bank TZIC_SRCSET0 address then
    let address := if in_bank TZIC_SRCCLEAR0 address then address - (TZIC_SRCCLEAR0 - TZIC_SRCSET0) else address in
    v ← reg_at address t; Ret (Z.lor v (int_in t ((address - TZIC_SRCSET0) / 4)))
  else reg_at address t.

(** Whether an interrupt is asserted by hardware or software. *)
Definition occurring (t : tzic_module) : bool :=
  negb (fold_left Z.lor [int_in t 1; int_in t 2; int_in t 3; regs t (TZIC_SRCSET0 / 4); regs t (TZIC_SRCSET0 / 4 + 1);
                         regs t (TZIC_SRCSET0 / 4 + 2); regs t (TZIC_SRCSET0 / 4 + 3)] (int_in t 0) =? 0).

Definition fast_write (address datum : Z) (t : tzic_module) : exec tzic_module :=
  let t := set_changed true t in
  if address =? TZIC_INTCTRL then Ret (set_enabled (getBit datum 0) t)
  else if address =? TZIC_INTTYPE then Ret t
  else if address =? TZIC_DSMINT then
    if occurring t then Ret t else Ret (set_reg (address / 4) (Z.land datum 0x1) t)
  else if in_bank TZIC_PND0 address || in_bank TZIC_HIPND0 address then Ret t
  else if in_bank TZIC_ENCLEAR0 address then
    let k := (address - (TZIC_ENCLEAR0 - TZIC_ENSET0)) / 4 in
    Ret (set_reg k (Z.lor (regs t k) (not32 datum)) t)
  else if in_bank TZIC_ENSET0 address then
    Ret (set_reg (address / 4) (Z.lor (regs t (address / 4)) datum) t)
  else if in_bank TZIC_SRCCLEAR0 address then
    let k := (address - (TZIC_SRCCLEAR0 - TZIC_SRCSET0)) / 4 in
    Ret (set_reg k (Z.lor (regs t k) (not32 datum)) t)
  else if in_bank TZIC_SRCSET0 address then
    Ret (set_reg (address / 4) (Z.lor (regs t (address / 4)) datum) t)
  else if address =? TZIC_SWINT then
    let intnum := Z.land datum 0x3FF in
    Ret (put_reg_bit TZIC_SRCSET0 intnum (negb (getBit datum 31)) t)
  else write_reg address datum t.

(** ** The core *)

(** A request to the port [inta], which calls the handler of the interrupt. *)
Definition inta (vbar : Z) (sent : bool) (c : core) : core :=
  if sent then service_interrupt vbar EXCEPTION_IRQ c else c.

(** A turn of the controller with the core at rest. *)
Definition tzic_core (vbar : Z) (m : tzic_module * core) : tzic_module * core :=
  let '(t, sent) := tzic_cycle m.1 in (t, inta vbar sent m.2).

Fixpoint tzic_core_turns (n : nat) (vbar : Z) (m : tzic_module * core) : tzic_module * core :=
  match n with O => m | S n => tzic_core_turns n vbar (tzic_core vbar m) end.
