(* ===== verification/TzicOk.v ===== *)
(** * The interrupt controller: what a cycle does

    The pending registers and the request to the core after a turn of the
    thread, the candidate test of the code in terms of the bits of the inputs,
    and the loss of a request that meets a core with interrupts masked. *)
From S2P Require Import Prelude ArmCore ArmCoreOk Tzic.

(** Interrupt [i] in a bank of four registers. *)
Definition bank_bit (t : tzic_module) (bank i : Z) : bool := Z.testbit (regs t (bank / 4 + i / 32)) (i mod 32).

(** Enabled and asserted by hardware or software. *)
Definition asserted (t : tzic_module) (i : Z) : bool :=
  bank_bit t TZIC_ENSET0 i && (bank_bit t TZIC_SRCSET0 i || Z.testbit (int_in t (i / 32)) (i mod 32)).

(** What the test of the code finds, which shifts the word of the interrupt and
    does not mask: the interrupt or one above it in its word is asserted, so it
    may be one that is not even enabled. *)
Definition raised (t : tzic_module) (i : Z) : Prop :=
  exists j, i <= j /\ j / 32 = i / 32 /\ asserted t j = true.

Definition wins (t : tzic_module) (i : Z) : Prop :=
  raised t i /\ regs t (TZIC_PRIOMASK / 4) < priority t i.

(** The registers and the inputs hold words. *)
Definition tzic_words (t : tzic_module) : Prop :=
  (forall k, 0 <= regs t k < 2 ^ 32) /\ (forall k, 0 <= int_in t k < 2 ^ 32).

(** ** Bits of a bank *)

Lemma bank_bit_put bank i b t j : 0 <= i -> 0 <= j ->
  bank_bit (put_reg_bit bank i b t) bank j = if j =? i then b else bank_bit t bank j.
Proof.
  intros. unfold bank_bit, put_reg_bit. cbn [regs set_reg].
  pose proof (Z.mod_pos_bound i 32). pose proof (Z.mod_pos_bound j 32).
  destruct (Z.eqb_spec (bank / 4 + j / 32) (bank / 4 + i / 32)) as [E|E].
  - rewrite E, testbit_put_bit by lia.
    destruct (Z.eqb_spec (j mod 32) (i mod 32)), (Z.eqb_spec j i); try reflexivity;
      Z.div_mod_to_equations; lia.
  - destruct (Z.eqb_spec j i) as [->|]; [lia|reflexivity].
Qed.

Lemma regs_put bank i b t k : 0 <= i < 128 -> ~ (bank / 4 <= k < bank / 4 + 4) ->
  regs (put_reg_bit bank i b t) k = regs t k.
Proof.
  intros Hi Hk. unfold put_reg_bit. cbn [regs set_reg].
  destruct (Z.eqb_spec k (bank / 4 + i / 32)); [|reflexivity].
  assert (0 <= i / 32 < 4) by (Z.div_mod_to_equations; lia). lia.
Qed.

Lemma bank_bit_set_reg bank k v t j : bank / 4 + j / 32 <> k -> bank_bit (set_reg k v t) bank j = bank_bit t bank j.
Proof. intros H. unfold bank_bit. cbn [regs set_reg]. destruct (Z.eqb_spec (bank / 4 + j / 32) k); [contradiction|reflexivity]. Qed.

Lemma fold_interrupts {A} (f : A -> Z -> A) (P : Z -> A -> Prop) a :
  P 0 a -> (forall i x, 0 <= i < 128 -> P i x -> P (i + 1) (f x i)) -> P 128 (fold_left f interrupts a).
Proof.
  intros H0 Hs. unfold interrupts, seqZ. change (Z.to_nat 128) with 128%nat.
  assert (forall n, (n <= 128)%nat -> P (Z.of_nat n) (fold_left f ((fun i => Z.of_nat i + 0) <$> seq 0 n) a)) as H.
  { induction n as [|n IH]; intros Hn; [exact H0|].
    rewrite seq_S, fmap_app, fold_left_app. cbn [fold_left fmap list_fmap].
    replace (Z.of_nat (S n)) with (Z.of_nat n + 1) by lia.
    replace (Z.of_nat (0 + n) + 0) with (Z.of_nat n) by lia. apply Hs; [lia|]. apply IH. lia. }
  exact (H 128%nat (Nat.le_refl _)).
Qed.

(** ** The candidate test *)

Lemma candidate_word t k : tzic_words t -> 0 <= candidate t k < 2 ^ 32.
Proof. intros [Hr Hi]. apply land_word; [apply Hr|]. apply (lor_word _ _ (Hr _) (Hi _)). Qed.

Lemma asserted_bit t i : asserted t i = Z.testbit (candidate t (i / 32)) (i mod 32).
Proof. unfold asserted, candidate, bank_bit. rewrite Z.land_spec, Z.lor_spec. reflexivity. Qed.

(** The priorities are bytes, four to a register, the first one lowest. *)
Lemma priority_byte t i : tzic_words t -> priority t i = u8 (Z.shiftr (regs t (0x400 / 4 + i / 4)) (8 * (i mod 4))).
Proof.
  intros [W _]. unfold priority. change (TZIC_PRIORITY0 / 4) with (0x400 / 4). set (w := regs t (0x400 / 4 + i / 4)).
  assert (Hm := Z.mod_pos_bound i 4 ltac:(lia)). unfold uwrap. rewrite <- Z.land_ones by lia. apply Z.bits_inj'. intros n Hn.
  assert (Hi : i mod 4 = 0 \/ i mod 4 = 1 \/ i mod 4 = 2 \/ i mod 4 = 3) by lia.
  destruct Hi as [-> |[-> |[-> | ->]]];
    rewrite ?Z.shiftr_spec, !Z.land_spec, ?Z.shiftr_spec, ?Z.add_0_r by lia; f_equal; try reflexivity.
  - change 0xFF00 with (Z.shiftl (Z.ones 8) 8). rewrite Z.shiftl_spec by lia. f_equal. lia.
  - change 0xFF0000 with (Z.shiftl (Z.ones 8) 16). rewrite Z.shiftl_spec by lia. f_equal. lia.
  - change 0xFF000000 with (Z.shiftl (Z.ones 8) 24). rewrite Z.shiftl_spec by lia. f_equal. lia.
Qed.

Lemma cur_raised t i : tzic_words t -> 0 <= i -> cur (candidate t) i = true <-> raised t i.
Proof.
  intros W Hi. unfold cur. rewrite negb_true_iff, Z.eqb_neq.
  pose proof (Z.mod_pos_bound i 32 ltac:(lia)) as Hm. pose proof (candidate_word t (i / 32) W) as Hw. split.
  - intros H. set (v := Z.shiftr (candidate t (i / 32)) (i mod 32)) in *.
    assert (0 < v) by (pose proof (proj2 (Z.shiftr_nonneg (candidate t (i / 32)) (i mod 32)) (proj1 Hw)); fold v in H0; lia).
    pose proof (Z.bit_log2 v ltac:(assumption)) as Hb. pose proof (Z.log2_nonneg v).
    unfold v in Hb at 1. rewrite Z.shiftr_spec in Hb by lia.
    assert (Z.log2 v + i mod 32 < 32).
    { destruct (Z.ltb_spec (Z.log2 v + i mod 32) 32); [assumption|].
      rewrite (testbit_high 32) in Hb by lia. discriminate. }
    assert (E : (i + Z.log2 v) / 32 = i / 32) by (Z.div_mod_to_equations; lia).
    exists (i + Z.log2 v). split; [lia|]. split; [exact E|]. rewrite asserted_bit, E.
    replace ((i + Z.log2 v) mod 32) with (Z.log2 v + i mod 32) by (Z.div_mod_to_equations; lia). exact Hb.
  - intros (j & Hj & E & Ha) H. rewrite asserted_bit, E in Ha.
    assert (Hb : Z.testbit (Z.shiftr (candidate t (i / 32)) (i mod 32)) (j - i) = true).
    { rewrite Z.shiftr_spec by lia. replace (j - i + i mod 32) with (j mod 32) by (Z.div_mod_to_equations; lia). exact Ha. }
    rewrite H, Z.bits_0 in Hb. discriminate.
Qed.

Lemma asserted_raised t i : asserted t i = true -> raised t i.
Proof. intros H. exists i. split; [lia|]. split; [reflexivity|exact H]. Qed.

(** ** The loops *)

Definition dsmint_reg : Z := TZIC_DSMINT / 4.
Definition pending_range (k : Z) : bool := (TZIC_PND0 / 4 <=? k) && (k <? TZIC_PND0 / 4 + 4).
Definition hipending_range (k : Z) : bool := (TZIC_HIPND0 / 4 <=? k) && (k <? TZIC_HIPND0 / 4 + 4).

(** The winning interrupt is configured to wake the system up. *)
Definition wakes (t : tzic_module) (i : Z) : Prop := wins t i /\ bank_bit t TZIC_WAKEUP0 i = true.

Lemma priority_ext t t' i : regs t' (TZIC_PRIORITY0 / 4 + i / 4) = regs t (TZIC_PRIORITY0 / 4 + i / 4) ->
  priority t' i = priority t i.
Proof. intros H. unfold priority. rewrite H. reflexivity. Qed.

(** The first loop before its turn [i], from the state [t0]. *)
Record pending_inv (t0 : tzic_module) (i : Z) (st : tzic_module * bool * Z) : Prop := {
  pi_regs : forall k, pending_range k = false -> k <> dsmint_reg -> regs st.1.1 k = regs t0 k;
  pi_int : int_in st.1.1 = int_in t0;
  pi_enabled : enabled st.1.1 = enabled t0;
  pi_pending : forall j, 0 <= j < 128 ->
    bank_bit st.1.1 TZIC_PND0 j = true <->
    if j <? i then wins t0 j \/ raised t0 j /\ bank_bit t0 TZIC_PND0 j = true else bank_bit t0 TZIC_PND0 j = true;
  pi_has : st.1.2 = true <-> exists j, 0 <= j < i /\ wins t0 j;
  pi_above : forall j, 0 <= j < i -> wins t0 j -> priority t0 j <= st.2;
  pi_highest : st.2 = 0 \/ exists j, 0 <= j < i /\ wins t0 j /\ priority t0 j = st.2;
  pi_wakes : changed st.1.1 = true <-> exists j, 0 <= j < i /\ wakes t0 j;
  pi_dsmint : regs st.1.1 dsmint_reg = if changed st.1.1 then 0 else regs t0 dsmint_reg
}.

(** One more turn of an existential over the interrupts done. *)
Lemma exists_next (P : Z -> Prop) i : 0 <= i -> (exists j, 0 <= j < i + 1 /\ P j) <-> (exists j, 0 <= j < i /\ P j) \/ P i.
Proof.
  intros Hi. split.
  - intros (j & Hj & H). destruct (Z.eq_dec j i) as [->|]; [right; exact H|left; exists j; split; [lia|exact H]].
  - intros [(j & Hj & H)|H]; [exists j; split; [lia|exact H]|exists i; split; [lia|exact H]].
Qed.

Lemma pending_start t0 : changed t0 = false -> pending_inv t0 0 (t0, false, 0).
Proof.
  intros Hc. split; cbn [fst snd]; try reflexivity; try lia; try tauto.
  - intros j Hj. destruct (Z.ltb_spec j 0); [lia|reflexivity].
  - split; [discriminate|intros (j & ? & _); lia].
  - rewrite Hc. split; [discriminate|intros (j & ? & _); lia].
  - rewrite Hc. reflexivity.
Qed.

Lemma out_of_pending k : pending_range k = false -> ~ (TZIC_PND0 / 4 <= k < TZIC_PND0 / 4 + 4).
Proof. unfold pending_range. lia. Qed.

(** The pending bits when the turn [i] settles its own bit and keeps the others. *)
Lemma pending_bits t0 t t1 i : 0 <= i < 128 ->
  (forall j, 0 <= j < 128 -> bank_bit t TZIC_PND0 j = true <->
    if j <? i then wins t0 j \/ raised t0 j /\ bank_bit t0 TZIC_PND0 j = true else bank_bit t0 TZIC_PND0 j = true) ->
  (forall j, 0 <= j < 128 -> j <> i -> bank_bit t1 TZIC_PND0 j = bank_bit t TZIC_PND0 j) ->
  (bank_bit t1 TZIC_PND0 i = true <-> wins t0 i \/ raised t0 i /\ bank_bit t0 TZIC_PND0 i = true) ->
  forall j, 0 <= j < 128 -> bank_bit t1 TZIC_PND0 j = true <->
    if j <? i + 1 then wins t0 j \/ raised t0 j /\ bank_bit t0 TZIC_PND0 j = true else bank_bit t0 TZIC_PND0 j = true.
Proof.
  intros Hi Hp Hk Hb j Hj. destruct (Z.eq_dec j i) as [->|Hn].
  - rewrite Hb. destruct (Z.ltb_spec i (i + 1)); [reflexivity|lia].
  - rewrite (Hk j Hj Hn), (Hp j Hj). destruct (Z.ltb_spec j i), (Z.ltb_spec j (i + 1)); try reflexivity; lia.
Qed.

Lemma pending_lost t0 i t t1 h g : 0 <= i < 128 -> pending_inv t0 i (t, h, g) -> ~ wins t0 i ->
  (forall k, pending_range k = false -> regs t1 k = regs t k) ->
  int_in t1 = int_in t -> enabled t1 = enabled t -> changed t1 = changed t ->
  (forall j, 0 <= j < 128 -> j <> i -> bank_bit t1 TZIC_PND0 j = bank_bit t TZIC_PND0 j) ->
  (bank_bit t1 TZIC_PND0 i = true <-> raised t0 i /\ bank_bit t0 TZIC_PND0 i = true) ->
  pending_inv t0 (i + 1) (t1, h, g).
Proof.
  intros Hi [Hr Hn He Hp Hh Ha Hg Hw Hd] Hl Er En Ee Ec Ek Eb. cbn [fst snd] in *.
  pose proof (exists_next (wins t0) i (proj1 Hi)) as Ew. pose proof (exists_next (wakes t0) i (proj1 Hi)) as Ewk.
  assert (~ wakes t0 i) by (unfold wakes; tauto).
  split; cbn [fst snd]; [..|intros j Hj Hwj| | |].
  - intros k Hk Hd'. rewrite Er; auto.
  - congruence.
  - congruence.
  - apply (pending_bits t0 t t1 i Hi Hp Ek). rewrite Eb. tauto.
  - rewrite Hh, Ew. tauto.
  - destruct (Z.eq_dec j i) as [->|]; [contradiction|]. apply Ha; [lia|assumption].
  - destruct Hg as [|(j & Hj & ?)]; [left; assumption|right; exists j; split; [lia|assumption]].
  - rewrite Ec, Hw, Ewk. tauto.
  - rewrite Ec, Er by reflexivity. exact Hd.
Qed.

Lemma pending_won t0 i t t1 h g : 0 <= i < 128 -> pending_inv t0 i (t, h, g) -> wins t0 i ->
  let woken := bank_bit t0 TZIC_WAKEUP0 i in
  (forall k, pending_range k = false -> regs t1 k = if woken && (k =? dsmint_reg) then 0 else regs t k) ->
  int_in t1 = int_in t -> enabled t1 = enabled t -> changed t1 = woken || changed t ->
  (forall j, 0 <= j < 128 -> bank_bit t1 TZIC_PND0 j = if j =? i then true else bank_bit t TZIC_PND0 j) ->
  pending_inv t0 (i + 1) (t1, true, Z.max g (priority t0 i)).
Proof.
  intros Hi [Hr Hn He Hp Hh Ha Hg Hw Hd] Hl woken Er En Ee Ec Ek. cbn [fst snd] in *.
  pose proof (exists_next (wins t0) i (proj1 Hi)) as Ew. pose proof (exists_next (wakes t0) i (proj1 Hi)) as Ewk.
  assert (Hwk : wakes t0 i <-> woken = true) by (unfold wakes, woken; tauto).
  split; cbn [fst snd]; [..|intros j Hj Hwj| | |].
  - intros k Hk Hd'. rewrite Er by exact Hk. destruct (Z.eqb_spec k dsmint_reg); [contradiction|].
    rewrite andb_false_r. auto.
  - congruence.
  - congruence.
  - apply (pending_bits t0 t t1 i Hi Hp).
    + intros j Hj Hn'. rewrite Ek by exact Hj. destruct (Z.eqb_spec j i); [contradiction|reflexivity].
    + rewrite Ek, Z.eqb_refl by exact Hi. tauto.
  - rewrite Ew. tauto.
  - destruct (Z.eq_dec j i) as [->|]; [lia|]. assert (priority t0 j <= g) by (apply Ha; [lia|assumption]). lia.
  - destruct (Z.max_spec g (priority t0 i)) as [[? ->]|[? ->]].
    + right. exists i. split; [lia|]. split; [exact Hl|reflexivity].
    + destruct Hg as [|(j & Hj & ?)]; [left; assumption|right; exists j; split; [lia|assumption]].
  - rewrite Ec, Ewk, Hwk, <- Hw. destruct woken, (changed t); cbn [orb]; tauto.
  - rewrite Ec, Er, Z.eqb_refl, andb_true_r by reflexivity. destruct woken; [reflexivity|exact Hd].
Qed.

Lemma pending_step t0 i st : tzic_words t0 -> 0 <= i < 128 ->
  pending_inv t0 i st -> pending_inv t0 (i + 1) (update_pending (candidate t0) st i).
Proof.
  intros W Hi I. destruct st as [[t h] g]. pose proof (pi_regs _ _ _ I) as Hr. cbn [fst snd] in Hr.
  assert (Hput : forall b k, pending_range k = false -> regs (put_reg_bit TZIC_PND0 i b t) k = regs t k).
  { intros b k Hk. apply regs_put; [lia|]. apply out_of_pending, Hk. }
  assert (Hold : bank_bit t TZIC_PND0 i = true <-> bank_bit t0 TZIC_PND0 i = true).
  { rewrite (pi_pending _ _ _ I i Hi). destruct (Z.ltb_spec i i); [lia|reflexivity]. }
  unfold update_pending. pose proof (cur_raised t0 i W (proj1 Hi)) as Hcur.
  destruct (cur (candidate t0) i); cbn [negb].
  - rewrite (Hr (TZIC_PRIOMASK / 4)) by (discriminate || reflexivity).
    rewrite (priority_ext t0 t i) by (apply Hr; unfold pending_range, dsmint_reg, TZIC_PRIORITY0, TZIC_PND0, TZIC_DSMINT; Z.div_mod_to_equations; lia).
    destruct (Z.ltb_spec (regs t0 (TZIC_PRIOMASK / 4)) (priority t0 i)) as [Hlt|Hle].
    + assert (Hwin : wins t0 i) by (split; [apply Hcur; reflexivity|exact Hlt]).
      replace (regs (put_reg_bit TZIC_PND0 i true t) (TZIC_WAKEUP0 / 4 + i / 32)) with (regs t0 (TZIC_WAKEUP0 / 4 + i / 32)).
      2:{ rewrite Hput, Hr; [reflexivity|..]; unfold pending_range, dsmint_reg, TZIC_WAKEUP0, TZIC_PND0, TZIC_DSMINT; Z.div_mod_to_equations; lia. }
      replace (if g <? priority t0 i then priority t0 i else g) with (Z.max g (priority t0 i)) by (destruct (Z.ltb_spec g (priority t0 i)); lia).
      pose proof (fun t1 => pending_won t0 i t t1 h g Hi I Hwin) as Hw. cbv zeta in Hw.
      change (getBit (regs t0 (TZIC_WAKEUP0 / 4 + i / 32)) (i mod 32)) with (bank_bit t0 TZIC_WAKEUP0 i).
      destruct (bank_bit t0 TZIC_WAKEUP0 i); apply Hw; try reflexivity; intros.
      * cbn [regs set_changed set_wakeup set_reg]. unfold dsmint_reg. rewrite Hput by assumption. reflexivity.
      * rewrite <- bank_bit_put by lia. apply bank_bit_set_reg. unfold TZIC_PND0, TZIC_DSMINT. Z.div_mod_to_equations; lia.
      * apply Hput. assumption.
      * apply bank_bit_put; lia.
    + apply (pending_lost t0 i t); try reflexivity; try assumption; [unfold wins; lia|].
      rewrite Hold. pose proof (proj1 Hcur eq_refl). tauto.
  - assert (~ raised t0 i) by (rewrite <- Hcur; discriminate).
    apply (pending_lost t0 i t); try reflexivity; try assumption; [unfold wins; tauto|apply Hput|..].
    + intros j Hj Hn. rewrite bank_bit_put by lia. destruct (Z.eqb_spec j i); [contradiction|reflexivity].
    + rewrite bank_bit_put, Z.eqb_refl by lia. split; [discriminate|tauto].
Qed.

(** The first loop as a whole. *)
Lemma pending_loop t0 : tzic_words t0 -> changed t0 = false ->
  pending_inv t0 128 (fold_left (update_pending (candidate t0)) interrupts (t0, false, 0)).
Proof.
  intros W Hc. apply fold_interrupts; [apply pending_start, Hc|]. intros. apply pending_step; assumption.
Qed.

(** The second loop, from the state [t1] the first one leaves. *)
Lemma hipending_loop t0 t1 highest_pri :
  let t := fold_left (update_hipending (candidate t0) highest_pri) interrupts t1 in
  (forall k, hipending_range k = false -> regs t k = regs t1 k) /\
  int_in t = int_in t1 /\ enabled t = enabled t1 /\ changed t = changed t1 /\
  forall j, 0 <= j < 128 -> bank_bit t TZIC_HIPND0 j = cur (candidate t0) j && (priority t1 j =? highest_pri).
Proof.
  cbv zeta. pose proof (fold_interrupts (update_hipending (candidate t0) highest_pri) (fun i t =>
    (forall k, hipending_range k = false -> regs t k = regs t1 k) /\
    int_in t = int_in t1 /\ enabled t = enabled t1 /\ changed t = changed t1 /\
    forall j, 0 <= j < 128 -> bank_bit t TZIC_HIPND0 j =
      if j <? i then cur (candidate t0) j && (priority t1 j =? highest_pri) else bank_bit t1 TZIC_HIPND0 j) t1) as H.
  destruct H as (Hr & Hn & He & Hc & Hb).
  - repeat split; try reflexivity. intros j Hj. destruct (Z.ltb_spec j 0); [lia|reflexivity].
  - intros i t Hi (Hr & Hn & He & Hc & Hb).
    assert (E : update_hipending (candidate t0) highest_pri t i =
      put_reg_bit TZIC_HIPND0 i (cur (candidate t0) i && (priority t1 i =? highest_pri)) t).
    { unfold update_hipending. rewrite <- (priority_ext t1 t i) by (apply Hr; unfold hipending_range, TZIC_PRIORITY0, TZIC_HIPND0; Z.div_mod_to_equations; lia).
      destruct (cur (candidate t0) i); reflexivity. }
    rewrite E. split; [|repeat split; try assumption].
    + intros k Hk. rewrite <- Hr by exact Hk. apply regs_put; [lia|]. unfold hipending_range in Hk. lia.
    + intros j Hj. rewrite bank_bit_put, Hb by lia.
      destruct (Z.eqb_spec j i), (Z.ltb_spec j i), (Z.ltb_spec j (i + 1)); subst; try reflexivity; lia.
  - repeat split; try assumption. intros j Hj. rewrite Hb by exact Hj. destruct (Z.ltb_spec j 128); [reflexivity|lia].
Qed.

(** ** A cycle *)

Definition cycle_start (t : tzic_module) : tzic_module := set_wakeup false (set_changed false t).

(** The two loops of a cycle, with what the first one leaves. *)
Lemma cycle_loops t t' sent : tzic_words t -> changed t = true -> tzic_cycle t = (t', sent) ->
  exists t1 h g, pending_inv (cycle_start t) 128 (t1, h, g) /\ sent = h && enabled t /\
    (forall k, hipending_range k = false -> regs t' k = regs t1 k) /\
    int_in t' = int_in t /\ enabled t' = enabled t /\ changed t' = changed t1 /\
    forall j, 0 <= j < 128 -> bank_bit t' TZIC_HIPND0 j = cur (candidate t) j && (priority t j =? g).
Proof.
  intros W Hc. unfold tzic_cycle. rewrite Hc. cbn [negb]. fold (cycle_start t).
  pose proof (pending_loop (cycle_start t) W eq_refl) as I.
  destruct (fold_left (update_pending (candidate (cycle_start t))) interrupts (cycle_start t, false, 0)) as [[t1 h] g].
  destruct (hipending_loop (cycle_start t) t1 g) as (Hr & Hn & He & Hw & Hb).
  set (t2 := fold_left (update_hipending (candidate (cycle_start t)) g) interrupts t1) in *.
  intros H. apply pair_equal_spec in H as [<- <-]. exists t1, h, g. split; [exact I|]. destruct I as [Ir In Ie _ _ _ _ _ _]. cbn [fst snd] in *.
  assert (E : enabled t2 = enabled t) by (rewrite He; exact Ie).
  split; [rewrite E; reflexivity|]. split; [exact Hr|]. split; [rewrite Hn; exact In|]. split; [exact E|]. split; [exact Hw|].
  intros j Hj. rewrite (Hb j Hj). f_equal. f_equal. apply priority_ext, Ir;
    unfold pending_range, dsmint_reg, TZIC_PRIORITY0, TZIC_PND0, TZIC_DSMINT; Z.div_mod_to_equations; lia.
Qed.

Lemma bank_bit_other t t' bank i : 0 <= i < 128 ->
  (forall k, bank / 4 <= k < bank / 4 + 4 -> regs t' k = regs t k) -> bank_bit t' bank i = bank_bit t bank i.
Proof. intros Hi H. unfold bank_bit. rewrite H; [reflexivity|]. Z.div_mod_to_equations; lia. Qed.

(** Which requests are sent and what the cycle keeps. *)
Lemma cycle_request t t' sent : tzic_words t -> changed t = true -> tzic_cycle t = (t', sent) ->
  (sent = true <-> enabled t = true /\ exists i, 0 <= i < 128 /\ wins t i) /\
  (changed t' = true <-> exists i, 0 <= i < 128 /\ wakes t i) /\
  regs t' dsmint_reg = (if changed t' then 0 else regs t dsmint_reg) /\
  (forall k, pending_range k = false -> hipending_range k = false -> k <> dsmint_reg -> regs t' k = regs t k) /\
  int_in t' = int_in t /\ enabled t' = enabled t.
Proof.
  intros W Hc H. destruct (cycle_loops t t' sent W Hc H) as (t1 & h & g & I & Es & Hr & Hn & He & Ec & _).
  destruct I as [Ir _ _ _ Ih _ _ Iw Id]. cbn [fst snd] in *.
  split; [rewrite Es, andb_true_iff, Ih; tauto|]. split; [rewrite Ec; exact Iw|].
  split; [rewrite Ec, Hr by reflexivity; exact Id|]. split; [|tauto].
  intros k Hp Hh Hd. rewrite Hr by exact Hh. apply Ir; assumption.
Qed.

(** The wake-up signal goes with the forced next cycle. *)
Lemma cycle_wakeup t : changed t = true -> wakeup_signal (tzic_cycle t).1 = changed (tzic_cycle t).1.
Proof.
  intros Hc. unfold tzic_cycle. rewrite Hc. cbn [negb]. fold (cycle_start t).
  assert (H1 : wakeup_signal (fold_left (update_pending (candidate (cycle_start t))) interrupts (cycle_start t, false, 0)).1.1
             = changed (fold_left (update_pending (candidate (cycle_start t))) interrupts (cycle_start t, false, 0)).1.1).
  { apply (fold_interrupts _ (fun _ st => wakeup_signal st.1.1 = changed st.1.1)); [reflexivity|].
    intros i [[t1 h] g] _ E. unfold update_pending. destruct (negb _); [exact E|]. destruct (_ <? _); [|exact E].
    cbv zeta. destruct (getBit _ _); [reflexivity|exact E]. }
  destruct (fold_left (update_pending _) _ _) as [[t1 h] g]. cbn [fst] in *.
  apply (fold_interrupts _ (fun _ t => wakeup_signal t = changed t)); [exact H1|]. intros i t2 _ E.
  unfold update_hipending. destruct (negb _); exact E.
Qed.

(** C20. A turn of the interrupt controller with something changed.  An interrupt is
    raised, for the code, when it or one above it in its word of 32 is enabled
    and asserted by hardware or software (the test shifts without masking, so
    an interrupt that is not enabled may be raised, against the comment on the
    thread), and it wins when its priority, a byte of the priority registers, is
    above the mask.  The core is asked for an interrupt exactly when the
    controller is enabled and some interrupt wins; the pending bit of an interrupt
    is set when it wins, cleared when it is not raised and kept otherwise; the
    high-priority bits are those of the raised interrupts whose priority is the
    greatest of the winning ones; the wake-up signal is given, the next cycle
    forced and the hold-off cleared exactly when a winning interrupt is a wake-up
    one, and otherwise the signal is withdrawn; every other register and the
    inputs are kept. *)
Theorem tzic_cycle_exact t t' sent : tzic_words t -> changed t = true -> tzic_cycle t = (t', sent) ->
  (forall i, priority t i = u8 (Z.shiftr (regs t (0x400 / 4 + i / 4)) (8 * (i mod 4)))) /\
  (sent = true <-> enabled t = true /\ exists i, 0 <= i < 128 /\ wins t i) /\
  (forall i, 0 <= i < 128 ->
     bank_bit t' TZIC_PND0 i = true <-> wins t i \/ raised t i /\ bank_bit t TZIC_PND0 i = true) /\
  (exists highest, (forall i, 0 <= i < 128 -> wins t i -> priority t i <= highest) /\
     (highest = 0 \/ exists i, 0 <= i < 128 /\ wins t i /\ priority t i = highest) /\
     forall i, 0 <= i < 128 -> bank_bit t' TZIC_HIPND0 i = true <-> raised t i /\ priority t i = highest) /\
  (wakeup_signal t' = true <-> exists i, 0 <= i < 128 /\ wakes t i) /\ changed t' = wakeup_signal t' /\
  regs t' dsmint_reg = (if wakeup_signal t' then 0 else regs t dsmint_reg) /\
  (forall k, pending_range k = false -> hipending_range k = false -> k <> dsmint_reg -> regs t' k = regs t k) /\
  int_in t' = int_in t /\ enabled t' = enabled t.
Proof.
  intros W Hc H. destruct (cycle_request t t' sent W Hc H) as (Hs & Hf). split; [intros i; apply priority_byte, W|].
  assert (Hw : wakeup_signal t' = changed t') by (pose proof (cycle_wakeup t Hc) as E; rewrite H in E; exact E).
  destruct (cycle_loops t t' sent W Hc H) as (t1 & h & g & I & _ & Hr & _ & _ & _ & Hb).
  destruct I as [_ _ _ Ip _ Ia Ig _ _]. cbn [fst snd] in *.
  split; [exact Hs|]. rewrite Hw. split; [|split; [|split; [apply Hf|split; [reflexivity|apply Hf]]]].
  - intros i Hi. rewrite (bank_bit_other t1 t') by (try exact Hi; intros; apply Hr; unfold hipending_range, TZIC_PND0, TZIC_HIPND0 in *; Z.div_mod_to_equations; lia).
    rewrite (Ip i Hi). destruct (Z.ltb_spec i 128); [reflexivity|lia].
  - exists g. split; [exact Ia|]. split; [exact Ig|]. intros i Hi.
    rewrite (Hb i Hi), andb_true_iff, Z.eqb_eq, cur_raised by (assumption || lia). reflexivity.
Qed.

(** Words stay words. *)
Lemma words_put bank i b t : 0 <= i -> tzic_words t -> tzic_words (put_reg_bit bank i b t).
Proof.
  intros Hi [Hr Hn]. split; [|exact Hn]. intros k. unfold put_reg_bit. cbn [regs set_reg].
  destruct (k =? _); [|apply Hr]. apply put_bit_word; [apply Hr|apply Z.mod_pos_bound; lia].
Qed.

Lemma words_cycle t : tzic_words t -> tzic_words (tzic_cycle t).1.
Proof.
  intros W. unfold tzic_cycle. destruct (changed t); [|exact W]. cbn [negb]. fold (cycle_start t).
  assert (H1 : tzic_words (fold_left (update_pending (candidate (cycle_start t))) interrupts (cycle_start t, false, 0)).1.1).
  { apply (fold_interrupts _ (fun _ st => tzic_words st.1.1)); [exact W|]. intros i [[t1 h] g] Hi W1. cbn [fst snd] in *.
    assert (Wp : forall b, tzic_words (put_reg_bit TZIC_PND0 i b t1)) by (intros; apply words_put; [lia|exact W1]).
    unfold update_pending. destruct (negb _); [apply Wp|]. destruct (_ <? _); [|exact W1].
    cbv zeta. destruct (getBit _ _); [|apply Wp]. destruct (Wp true) as [Hr Hn]. split; [|exact Hn].
    intros k. cbn [fst regs set_changed set_wakeup set_reg]. destruct (k =? _); [lia|apply Hr]. }
  destruct (fold_left (update_pending _) _ _) as [[t1 h] g]. cbn [fst] in *.
  apply (fold_interrupts _ (fun _ t => tzic_words t)); [exact H1|]. intros i t2 Hi W2.
  unfold update_hipending. destruct (negb _); apply words_put; (lia || exact W2).
Qed.

(** A masked request does nothing; a taken one masks the next. *)
Lemma irq_ignored vbar c : 0 <= mode_of c < 32 -> pm_irq (arm_proc_mode c) = true -> service_interrupt vbar EXCEPTION_IRQ c = c.
Proof. intros Hm Hi. unfold service_interrupt. rewrite getBit_readCPSR by lia. cbn. rewrite Hi. reflexivity. Qed.

Lemma irq_once vbar c : 0 <= mode_of c < 32 -> 0 <= ac_pc c < 2 ^ 32 -> pm_irq (arm_proc_mode c) = false ->
  service_interrupt vbar EXCEPTION_IRQ (service_interrupt vbar EXCEPTION_IRQ c) = service_interrupt vbar EXCEPTION_IRQ c.
Proof.
  intros Hm Hpc Hi. apply irq_ignored.
  - rewrite service_interrupt_mode by (assumption || discriminate). unfold handler_mode, IRQ_MODE. lia.
  - rewrite service_interrupt_entry by (assumption || discriminate). unfold writeCPSR, entry_word, getBit.
    cbn [arm_proc_mode set_mode pm_irq]. rewrite testbit_setBit by lia. reflexivity.
Qed.

Lemma quiet_turns n vbar t c : changed t = false -> tzic_core_turns n vbar (t, c) = (t, c).
Proof.
  intros Hc. induction n as [|n IH]; [reflexivity|]. cbn [tzic_core_turns].
  unfold tzic_core, tzic_cycle. cbn [fst snd]. rewrite Hc. exact IH.
Qed.

(** An interrupt that wins while the core has its interrupts masked is
    lost: the request is sent once and ignored, and without a wake-up
    configuration no later turn of the controller sends it again, whatever the
    core does with its mask, until a register is written or an input changes. *)
Theorem masked_interrupt_lost n vbar t c i : tzic_words t -> changed t = true -> enabled t = true ->
  0 <= i < 128 -> wins t i -> (forall j, 0 <= j < 128 -> ~ wakes t j) ->
  0 <= mode_of c < 32 -> pm_irq (arm_proc_mode c) = true ->
  snd (tzic_cycle t) = true /\ snd (tzic_core vbar (t, c)) = c /\
  forall c', tzic_core_turns n vbar (fst (tzic_core vbar (t, c)), c') = (fst (tzic_core vbar (t, c)), c').
Proof.
  intros W Hc He Hi Hwin Hwk Hm Hirq. unfold tzic_core. cbn [fst snd].
  destruct (tzic_cycle t) as [t' sent] eqn:E. cbn [fst snd].
  destruct (cycle_request t t' sent W Hc E) as (Hs & Hch & _).
  assert (sent = true) as -> by (apply Hs; split; [exact He|exists i; split; assumption]).
  split; [reflexivity|]. split.
  - apply irq_ignored; assumption.
  - intros c'. apply quiet_turns. destruct (changed t'); [|reflexivity].
    destruct (proj1 Hch eq_refl) as (j & Hj & Hw). destruct (Hwk j Hj Hw).
Qed.

(** ** Examples *)

(** Interrupt 39 enabled and asserted with priority 128 over a mask of 0. *)
Definition sample_tzic : tzic_module :=
  MkTzic (fun k => if k =? 0x101 + 8 then 0x80000000 else if k =? TZIC_ENSET0 / 4 + 1 then 0x80 else 0) true true
    (fun k => if k =? 1 then 0x80 else 0) false.

Lemma sample_tzic_words : tzic_words sample_tzic.
Proof. split; intros k; cbn [regs int_in sample_tzic]; repeat (destruct (_ =? _)); lia. Qed.

Lemma sample_tzic_wins : wins sample_tzic 39.
Proof. split; [apply asserted_raised; reflexivity|reflexivity]. Qed.

Lemma sample_tzic_sleeps j : 0 <= j < 128 -> ~ wakes sample_tzic j.
Proof.
  intros Hj [_ H]. unfold bank_bit in H. cbn [regs sample_tzic] in H. unfold TZIC_WAKEUP0, TZIC_ENSET0 in H.
  destruct (Z.eqb_spec (0xE00 / 4 + j / 32) (0x101 + 8)); [Z.div_mod_to_equations; lia|].
  destruct (Z.eqb_spec (0xE00 / 4 + j / 32) (0x100 / 4 + 1)); [Z.div_mod_to_equations; lia|].
  rewrite Z.bits_0 in H. discriminate.
Qed.

Lemma tzic_cycle_exact_witness :
  (tzic_cycle sample_tzic).2 = true /\ bank_bit (tzic_cycle sample_tzic).1 TZIC_PND0 39 = true.
Proof.
  destruct (tzic_cycle_exact sample_tzic _ _ sample_tzic_words eq_refl (surjective_pairing _)) as (_ & H1 & H2 & _).
  split; [apply H1; split; [reflexivity|exists 39; split; [lia|exact sample_tzic_wins]]|].
  apply H2; [lia|left; exact sample_tzic_wins].
Defined.

Lemma masked_interrupt_lost_witness :
  let c := set_mode (MkMode false true false USER_MODE) (sample_core USER_MODE) in
  snd (tzic_cycle sample_tzic) = true /\
  tzic_core_turns 1000 0 (fst (tzic_core 0 (sample_tzic, c)), sample_core USER_MODE) =
    (fst (tzic_core 0 (sample_tzic, c)), sample_core USER_MODE).
Proof.
  intros c. destruct (masked_interrupt_lost 1000 0 sample_tzic c 39) as (H1 & _ & H2);
    [exact sample_tzic_words|reflexivity|reflexivity|lia|exact sample_tzic_wins|exact sample_tzic_sleeps|split; [discriminate|reflexivity]|reflexivity|].
  split; [exact H1|apply H2].
Defined.
