(* ===== verification/Gpt.v ===== *)
(** * The timer of the ARM platform

    [src/armv7/src/gpt.cpp] and [gpt.h].  A turn of the thread [prc_gpt] is the
    function [gpt_cycle], which drives one input of the interrupt controller.
    The modes are the numbers [static_cast] stores.  [timer_tick] is a
    nanosecond of the platform with the core at rest, in either order of the
    two threads. *)
From S2P Require Import Prelude ArmCore Tzic.

Definition GPT_CR : Z := 0x0.
Definition GPT_PR : Z := 0x4.
Definition GPT_SR : Z := 0x8.
Definition GPT_IR : Z := 0xC.
Definition GPT_OCR1 : Z := 0x10.
Definition GPT_OCR2 : Z := 0x14.
Definition GPT_OCR3 : Z := 0x18.
Definition GPT_ICR1 : Z := 0x1C.
Definition GPT_ICR2 : Z := 0x20.
Definition GPT_CNT : Z := 0x24.
Definition GPT_LASTADDR : Z := 0x28.
Definition GPT_IRQNUM : Z := 39.

(** [selected_clock_t], [oc_operation_mode_t], [input_capture_t], [counter_mode_t]. *)
Definition CLK_OFF : Z := 0.
Definition EXTERNAL_CLK : Z := 3.
Definition OC_DISCONNECTED : Z := 0.
Definition OC_TOGGLE : Z := 1.
Definition OC_CLEAR : Z := 2.
Definition OC_SET : Z := 3.
Definition OC_LOWPULSE : Z := 4.
Definition IC_DISABLED : Z := 0.
Definition IC_RISINGEDGE : Z := 1.
Definition IC_FALLINGEDGE : Z := 2.
Definition IC_BOTH : Z := 3.
Definition M_RESTART : Z := 0.

Record gpt_module := MkGpt {
  regs : Z -> Z;
  counter : Z;
  prescaler : Z;
  prescaler_counter : Z;
  clock_src : Z;
  om1 : Z; om2 : Z; om3 : Z;
  im1 : Z; im2 : Z;
  counter_mode : Z;
  stop_en : bool; wait_en : bool; dbg_en : bool; en_mode : bool; enabled : bool;
  do_cmpout1 : bool; do_cmpout2 : bool; do_cmpout3 : bool
}.

Definition set_regs x g := MkGpt x (counter g) (prescaler g) (prescaler_counter g) (clock_src g) (om1 g) (om2 g) (om3 g)
  (im1 g) (im2 g) (counter_mode g) (stop_en g) (wait_en g) (dbg_en g) (en_mode g) (enabled g)
  (do_cmpout1 g) (do_cmpout2 g) (do_cmpout3 g).
Definition set_counter x g := MkGpt (regs g) x (prescaler g) (prescaler_counter g) (clock_src g) (om1 g) (om2 g) (om3 g)
  (im1 g) (im2 g) (counter_mode g) (stop_en g) (wait_en g) (dbg_en g) (en_mode g) (enabled g)
  (do_cmpout1 g) (do_cmpout2 g) (do_cmpout3 g).
Definition set_prescaler x g := MkGpt (regs g) (counter g) x (prescaler_counter g) (clock_src g) (om1 g) (om2 g) (om3 g)
  (im1 g) (im2 g) (counter_mode g) (stop_en g) (wait_en g) (dbg_en g) (en_mode g) (enabled g)
  (do_cmpout1 g) (do_cmpout2 g) (do_cmpout3 g).
Definition set_prescaler_counter x g := MkGpt (regs g) (counter g) (prescaler g) x (clock_src g) (om1 g) (om2 g) (om3 g)
  (im1 g) (im2 g) (counter_mode g) (stop_en g) (wait_en g) (dbg_en g) (en_mode g) (enabled g)
  (do_cmpout1 g) (do_cmpout2 g) (do_cmpout3 g).
Definition set_outputs x y z g := MkGpt (regs g) (counter g) (prescaler g) (prescaler_counter g) (clock_src g) (om1 g) (om2 g) (om3 g)
  (im1 g) (im2 g) (counter_mode g) (stop_en g) (wait_en g) (dbg_en g) (en_mode g) (enabled g) x y z.

Definition set_reg (i v : Z) (g : gpt_module) : gpt_module := set_regs (fun j => if j =? i then v else regs g j) g.

(** [regs[i] |= 1 << b]. *)
Definition flag_status (b : Z) (g : gpt_module) : gpt_module := set_reg (GPT_SR / 4) (setBit (regs g (GPT_SR / 4)) b) g.

Definition reset_regs : list (Z * Z) :=
  [(GPT_CR / 4, 0); (GPT_PR / 4, 0); (GPT_SR / 4, 0); (GPT_IR / 4, 0);
   (GPT_OCR1 / 4, 0xFFFFFFFF); (GPT_OCR2 / 4, 0xFFFFFFFF); (GPT_OCR3 / 4, 0xFFFFFFFF);
   (GPT_ICR1 / 4, 0); (GPT_ICR2 / 4, 0); (GPT_CNT / 4, 0)].

(** [im1 = im1 = IC_DISABLED]: the mode of the second capture is kept. *)
Definition do_reset (hard_reset : bool) (g : gpt_module) : gpt_module :=
  let g := MkGpt (regs g) 0 0 0 CLK_OFF OC_DISCONNECTED OC_DISCONNECTED OC_DISCONNECTED IC_DISABLED (im2 g) M_RESTART
             (negb hard_reset && stop_en g) (negb hard_reset && wait_en g) (negb hard_reset && dbg_en g)
             (negb hard_reset && en_mode g) (negb hard_reset && enabled g) false false false in
  fold_left (fun g p => set_reg (fst p) (snd p) g) reset_regs g.

Definition set_output_pin (output : bool) (mode : Z) : bool :=
  if mode =? OC_TOGGLE then negb output
  else if mode =? OC_CLEAR then false
  else if mode =? OC_SET then true
  else if mode =? OC_LOWPULSE then false
  else output.

(** ** The thread *)

(** The prescaler: whether it ticks, and its counter. *)
Definition prescale (g : gpt_module) : bool * gpt_module :=
  if prescaler_counter g =? prescaler g then (true, set_prescaler_counter 0 g)
  else if 4096 <=? prescaler_counter g then (false, set_prescaler_counter 0 g)
  else (false, set_prescaler_counter (u32 (prescaler_counter g + 1)) g).

Definition compare (g : gpt_module) : gpt_module :=
  let g := if counter g =? 0xFFFFFFFF then flag_status 5 g else g in
  if counter g =? regs g (GPT_OCR1 / 4) then
    let g := flag_status 0 g in
    set_outputs (set_output_pin (do_cmpout1 g) (om1 g)) (do_cmpout2 g) (do_cmpout3 g) g
  else if counter g =? regs g (GPT_OCR2 / 4) then
    let g := flag_status 1 g in
    set_outputs (do_cmpout1 g) (set_output_pin (do_cmpout2 g) (om2 g)) (do_cmpout3 g) g
  else if counter g =? regs g (GPT_OCR3 / 4) then
    let g := flag_status 2 g in
    set_outputs (do_cmpout1 g) (do_cmpout2 g) (set_output_pin (do_cmpout3 g) (om3 g)) g
  else g.

Definition count (g : gpt_module) : gpt_module :=
  if (counter_mode g =? M_RESTART) && (counter g =? regs g (GPT_OCR1 / 4)) then set_counter 0 g
  else if counter g =? 0xFFFFFFFF then set_counter 0 g
  else set_counter (u32 (counter g + 1)) g.

Definition gen_interrupt (g : gpt_module) : bool := negb (Z.land (regs g (GPT_IR / 4)) (regs g (GPT_SR / 4)) =? 0).

Definition running (g : gpt_module) : bool :=
  enabled g && negb ((clock_src g =? CLK_OFF) || (clock_src g =? EXTERNAL_CLK)).

Definition gpt_cycle (m : gpt_module * tzic_module) : exec (gpt_module * tzic_module) :=
  let '(g, t) := m in
  if negb (running g) then Ret (g, t)
  else
    let '(prescaler_tick, g) := prescale g in
    if negb prescaler_tick then Ret (g, t)
    else
      let g := count (compare g) in
      t ← interrupt GPT_IRQNUM (negb (gen_interrupt g)) t;
      Ret (g, t).

(** ** The registers *)

Definition valid (address : Z) : bool := (0 <=? address) && (address / 4 <? GPT_LASTADDR / 4).

Definition fast_read (address : Z) (g : gpt_module) : exec Z :=
  if address =? GPT_CNT then Ret (counter g)
  else if valid address then Ret (regs g (address / 4)) else Crash.

Definition write_reg (address datum : Z) (g : gpt_module) : exec gpt_module :=
  if valid address then Ret (set_reg (address / 4) datum g) else Crash.

(** [(datum & mask) >> lo]. *)
Definition field (datum mask lo : Z) : Z := Z.shiftr (Z.land datum mask) lo.

Definition write_control (datum : Z) (g : gpt_module) : gpt_module :=
  let o3 := if getBit datum 31 then set_output_pin (do_cmpout3 g) (om3 g) else do_cmpout3 g in
  let o2 := if getBit datum 30 then set_output_pin (do_cmpout2 g) (om2 g) else do_cmpout2 g in
  let o1 := if getBit datum 29 then set_output_pin (do_cmpout1 g) (om1 g) else do_cmpout1 g in
  let en_mode := negb (field datum 0x00000002 1 =? 0) in
  let restarted := negb (enabled g) && getBit datum 0 && en_mode in
  let g := MkGpt (regs g)
    (if restarted then 0 else counter g) (prescaler g) (if restarted then 0 else prescaler_counter g)
    (field datum 0x000001C0 6)
    (field datum 0x00700000 20) (field datum 0x03800000 23) (field datum 0x1C000000 26)
    (field datum 0x00030000 16) (field datum 0x000C0000 18)
    (field datum 0x00000200 9)
    (negb (field datum 0x00000020 5 =? 0)) (negb (field datum 0x00000008 3 =? 0)) (negb (field datum 0x00000004 2 =? 0))
    en_mode (getBit datum 0) o1 o2 o3 in
  let g := set_reg (GPT_CR / 4) (Z.land datum (not32 0xE0008000)) g in
  if getBit datum 15 then do_reset false g else g.

Definition fast_write (address datum : Z) (g : gpt_module) : exec gpt_module :=
  if address =? GPT_CR then Ret (write_control datum g)
  else if address =? GPT_SR then
    Ret (set_reg (GPT_SR / 4) (Z.land (regs g (GPT_SR / 4)) (not32 datum)) g)
  else if (address =? GPT_ICR1) || (address =? GPT_ICR2) || (address =? GPT_CNT) then Ret g
  else if address =? GPT_OCR1 then
    write_reg address datum (if counter_mode g =? M_RESTART then set_counter 0 g else g)
  else if address =? GPT_PR then
    write_reg address datum (set_prescaler_counter 0 (set_prescaler datum g))
  else write_reg address datum g.

(** ** The capture inputs *)

Definition captures (im : Z) (deassert : bool) : bool :=
  (((im =? IC_RISINGEDGE) || (im =? IC_BOTH)) && negb deassert)
  || (((im =? IC_FALLINGEDGE) || (im =? IC_BOTH)) && deassert).

Definition ind_capin1 (deassert : bool) (g : gpt_module) : gpt_module :=
  if captures (im1 g) deassert then flag_status 3 (set_reg (GPT_ICR1 / 4) (counter g) g) else g.

Definition ind_capin2 (deassert : bool) (g : gpt_module) : gpt_module :=
  if captures (im2 g) deassert then flag_status 4 (set_reg (GPT_ICR2 / 4) (counter g) g) else g.

(** ** A nanosecond of the platform *)

(** The threads run in the order the kernel chooses. *)
Definition timer_tick (gpt_first : bool) (m : gpt_module * tzic_module) : exec (gpt_module * tzic_module * bool) :=
  if gpt_first then
    '(g, t) ← gpt_cycle m;
    let '(t, sent) := tzic_cycle t in Ret (g, t, sent)
  else
    let '(t, sent) := tzic_cycle m.2 in
    m ← gpt_cycle (m.1, t); Ret (m, sent).

(** A run with the requests to the core, the last one first. *)
Fixpoint timer_run (orders : list bool) (m : gpt_module * tzic_module) : exec (gpt_module * tzic_module * list bool) :=
  match orders with
  | [] => Ret (m, [])
  | o :: orders =>
      '(m, sents) ← timer_run orders m;
      '(m, sent) ← timer_tick o m; Ret (m, sent :: sents)
  end.

(** The core after the requests of a run, at rest between them. *)
Definition deliver (vbar : Z) (sents : list bool) (c : core) : core := fold_right (inta vbar) c sents.
