(* ===== verification/GptOk.v ===== *)
(** * The timer: bounds, counting and the interrupt it leads to

    What every sequence of register writes, captures and cycles keeps, the
    value of the counter after any number of nanoseconds, and the way of a
    compare event to the core through the interrupt controller. *)
From S2P Require Import Prelude ArmCore ArmCoreOk Tzic TzicOk Gpt.

(** ** One cycle *)

(** The timer after a turn of its thread, and whether the prescaler ticked. *)
Definition ticks (g : gpt_module) : bool := running g && (prescale g).1.
Definition gpt_step (g : gpt_module) : gpt_module :=
  if negb (running g) then g else if (prescale g).1 then count (compare (prescale g).2) else (prescale g).2.

(** The input of the controller after [interrupt]. *)
Definition drive (deassert : bool) (t : tzic_module) : tzic_module :=
  if getBit (Tzic.regs t (TZIC_DSMINT / 4)) 0 then t
  else set_changed true (set_int_in 1 (put_bit (int_in t 1) 7 (negb deassert)) t).

Lemma interrupt_drive deassert t : interrupt GPT_IRQNUM deassert t = Ret (drive deassert t).
Proof. unfold interrupt, drive. destruct (getBit _ 0); reflexivity. Qed.

Lemma gpt_cycle_step g t :
  gpt_cycle (g, t) = Ret (gpt_step g, if ticks g then drive (negb (gen_interrupt (gpt_step g))) t else t).
Proof.
  unfold gpt_cycle, gpt_step, ticks. destruct (running g); [|reflexivity]. cbn [negb andb].
  destruct (prescale g) as [[|] g1]; cbn [fst snd negb]; [|reflexivity].
  rewrite interrupt_drive. reflexivity.
Qed.

Lemma timer_tick_total o m : exists m' sent, timer_tick o m = Ret (m', sent) /\ m'.1 = gpt_step m.1.
Proof.
  destruct m as [g t]. unfold timer_tick. destruct o; cbn [fst snd].
  - rewrite gpt_cycle_step. cbn [mbind exec_bind]. destruct (tzic_cycle _) as [t' s]. eauto.
  - destruct (tzic_cycle t) as [t' s]. rewrite gpt_cycle_step. eauto.
Qed.

(** ** Counting *)

(** The configuration the count depends on. *)
Record counting (p n : Z) (restart : bool) (g : gpt_module) : Prop := {
  ct_running : running g = true;
  ct_prescaler : prescaler g = p;
  ct_mode : (counter_mode g =? M_RESTART) = restart;
  ct_compare : regs g (GPT_OCR1 / 4) = n
}.

Definition modulus (n : Z) (restart : bool) : Z := if restart then n + 1 else 2 ^ 32.

(** What [compare] keeps. *)
Definition config (g : gpt_module) : Z * Z * Z * Z * Z * bool :=
  (counter g, prescaler g, prescaler_counter g, clock_src g, counter_mode g, enabled g).

Lemma compare_config g : config (compare g) = config g.
Proof.
  unfold compare. destruct (counter g =? 0xFFFFFFFF); cbv zeta;
    (destruct (_ =? _); [reflexivity|]; destruct (_ =? _); [reflexivity|]; destruct (_ =? _); reflexivity).
Qed.

Lemma flag_status_other b g k : k <> GPT_SR / 4 -> regs (flag_status b g) k = regs g k.
Proof. intros Hk. unfold flag_status, set_reg. cbn [regs set_regs]. destruct (Z.eqb_spec k (GPT_SR / 4)); [contradiction|reflexivity]. Qed.

Lemma flag_status_bit b g i : 0 <= b -> 0 <= i ->
  Z.testbit (regs (flag_status b g) (GPT_SR / 4)) i = (i =? b) || Z.testbit (regs g (GPT_SR / 4)) i.
Proof. intros. unfold flag_status, set_reg. cbn [regs set_regs]. rewrite Z.eqb_refl. apply testbit_setBit; assumption. Qed.

(** The status after a comparison: bit 0 tells the first compare event. *)
Lemma compare_regs g k : k <> GPT_SR / 4 -> regs (compare g) k = regs g k.
Proof.
  intros Hk. unfold compare. destruct (counter g =? 0xFFFFFFFF); cbv zeta;
    (destruct (_ =? _); [|destruct (_ =? _); [|destruct (_ =? _)]]); cbn [regs set_outputs];
    rewrite ?flag_status_other by exact Hk; reflexivity.
Qed.

Lemma compare_status g :
  Z.testbit (regs (compare g) (GPT_SR / 4)) 0 =
  (counter g =? regs g (GPT_OCR1 / 4)) || Z.testbit (regs g (GPT_SR / 4)) 0.
Proof.
  unfold compare. rewrite <- (flag_status_other 5 g (GPT_OCR1 / 4)) by discriminate.
  destruct (counter g =? 0xFFFFFFFF); cbv zeta; rewrite ?flag_status_other by discriminate; cbn [counter flag_status set_reg set_regs];
    (destruct (_ =? _); [|destruct (_ =? _); [|destruct (_ =? _)]]); cbn [regs set_outputs];
    rewrite ?flag_status_bit by lia; reflexivity.
Qed.

Lemma count_regs g k : regs (count g) k = regs g k.
Proof. unfold count. destruct (_ && _); [reflexivity|]. destruct (_ =? _); reflexivity. Qed.

(** The timer after [k] cycles from a state with both counters at 0. *)
Record counted (p n : Z) (restart : bool) (g0 : gpt_module) (k : Z) (g : gpt_module) : Prop := {
  cd_counting : counting p n restart g;
  cd_prescaler : prescaler_counter g = k mod (p + 1);
  cd_counter : counter g = (k / (p + 1)) mod modulus n restart;
  cd_status : Z.testbit (regs g (GPT_SR / 4)) 0 = (n <? k / (p + 1)) || Z.testbit (regs g0 (GPT_SR / 4)) 0;
  cd_regs : forall r, r <> GPT_SR / 4 -> regs g r = regs g0 r
}.

Lemma count_counter p n restart g : 0 <= n < 2 ^ 32 -> counting p n restart g -> 0 <= counter g < modulus n restart ->
  counter (count g) = (counter g + 1) mod modulus n restart.
Proof.
  intros Hn [_ _ Hm Hc] Hb. unfold count. rewrite Hm, Hc. unfold modulus in *. destruct restart; cbn [andb].
  - destruct (Z.eqb_spec (counter g) n) as [->|]; [cbn [counter set_counter]; rewrite Z.mod_same; lia|].
    destruct (Z.eqb_spec (counter g) 0xFFFFFFFF); [lia|]. cbn [counter set_counter].
    rewrite u32_id, Z.mod_small by lia. reflexivity.
  - destruct (Z.eqb_spec (counter g) 0xFFFFFFFF) as [->|]; [reflexivity|]. cbn [counter set_counter]. reflexivity.
Qed.

Lemma div_mod_next k d : 0 <= k -> 0 < d ->
  if k mod d =? d - 1 then (k + 1) mod d = 0 /\ (k + 1) / d = k / d + 1
  else (k + 1) mod d = k mod d + 1 /\ (k + 1) / d = k / d.
Proof.
  intros Hk Hd. pose proof (Z.div_mod k d ltac:(lia)) as E. pose proof (Z.mod_pos_bound k d Hd).
  destruct (Z.eqb_spec (k mod d) (d - 1)) as [Em|].
  - split; symmetry; [apply (Z.mod_unique_pos (k + 1) d (k / d + 1))|apply (Z.div_unique_pos (k + 1) d (k / d + 1) 0)]; lia.
  - split; symmetry; [apply (Z.mod_unique_pos (k + 1) d (k / d))|apply (Z.div_unique_pos (k + 1) d (k / d) (k mod d + 1))]; lia.
Qed.

Lemma prescale_step p k g : 0 <= p <= 4096 -> 0 <= k -> prescaler g = p -> prescaler_counter g = k mod (p + 1) ->
  prescale g = (k mod (p + 1) =? p, set_prescaler_counter ((k + 1) mod (p + 1)) g).
Proof.
  intros Hp Hk Ep Ec. pose proof (div_mod_next k (p + 1) Hk ltac:(lia)) as H. pose proof (Z.mod_pos_bound k (p + 1) ltac:(lia)).
  unfold prescale. rewrite Ep, Ec. replace (p + 1 - 1) with p in H by lia.
  destruct (Z.eqb_spec (k mod (p + 1)) p); destruct H as [-> _]; [reflexivity|].
  destruct (Z.leb_spec 4096 (k mod (p + 1))); [lia|]. rewrite u32_id by lia. reflexivity.
Qed.

(** A tick of the prescaler, on the state [prescale] leaves. *)
Lemma compared_config g : config (count (compare g)) = (counter (count (compare g)), prescaler g, prescaler_counter g, clock_src g, counter_mode g, enabled g).
Proof.
  pose proof (compare_config g) as H. unfold config in H. injection H as _ E1 E2 E3 E4 E5.
  unfold count. destruct (_ && _); [|destruct (_ =? _)]; unfold config;
    cbn [counter prescaler prescaler_counter clock_src counter_mode enabled set_counter]; congruence.
Qed.

Lemma counting_tick p n restart v g : counting p n restart g -> counting p n restart (count (compare (set_prescaler_counter v g))).
Proof.
  intros [Hr Hp Hm Hc]. pose proof (compared_config (set_prescaler_counter v g)) as H.
  unfold config in H. injection H as E1 E2 E3 E4 E5. split.
  - unfold running in *. rewrite E3, E5. exact Hr.
  - rewrite E1. exact Hp.
  - rewrite E4. exact Hm.
  - rewrite count_regs, compare_regs by discriminate. exact Hc.
Qed.

Lemma compare_counter g : counter (compare g) = counter g.
Proof. pose proof (compare_config g) as H. unfold config in H. congruence. Qed.

Lemma counting_compare p n restart g : counting p n restart g -> counting p n restart (compare g).
Proof.
  intros [Hr Hp Hm Hc]. pose proof (compare_config g) as H. unfold config in H. injection H as E1 E2 E3 E4 E5 E6. split.
  - unfold running in *. rewrite E4, E6. exact Hr.
  - congruence.
  - congruence.
  - rewrite compare_regs by discriminate. exact Hc.
Qed.

Lemma status_next n restart q b : 0 <= n < 2 ^ 32 -> 0 <= q ->
  (q mod modulus n restart =? n) || ((n <? q) || b) = (n <? q + 1) || b.
Proof.
  intros Hn Hq. rewrite orb_assoc. f_equal. destruct (Z.ltb_spec n q), (Z.ltb_spec n (q + 1)); try lia.
  - replace q with n by lia. rewrite Z.mod_small, Z.eqb_refl by (unfold modulus; destruct restart; lia). reflexivity.
  - rewrite Z.mod_small by (unfold modulus; destruct restart; lia). rewrite orb_false_r. apply Z.eqb_neq. lia.
Qed.

Lemma counted_step p n restart g0 k g : 0 <= p <= 4096 -> 0 <= n < 2 ^ 32 -> 0 <= k ->
  counted p n restart g0 k g -> counted p n restart g0 (k + 1) (gpt_step g).
Proof.
  intros Hp Hn Hk [Hc Epc Ec Es Er]. unfold gpt_step. rewrite (ct_running _ _ _ _ Hc). cbn [negb].
  rewrite (prescale_step p k g Hp Hk (ct_prescaler _ _ _ _ Hc) Epc). cbn [fst snd].
  pose proof (div_mod_next k (p + 1) Hk ltac:(lia)) as Hd. replace (p + 1 - 1) with p in Hd by lia.
  set (g1 := set_prescaler_counter ((k + 1) mod (p + 1)) g).
  assert (Hc1 : counting p n restart g1) by (destruct Hc; split; assumption).
  assert (HM : 0 < modulus n restart) by (unfold modulus; destruct restart; lia).
  destruct (Z.eqb_spec (k mod (p + 1)) p) as [Em|Em]; destruct Hd as [Hmod Hdiv].
  - split.
    + apply counting_tick, Hc.
    + pose proof (compared_config g1) as H. unfold config in H. injection H as _ E2 _ _ _. exact E2.
    + rewrite (count_counter p n restart) by (try exact Hn; try apply counting_compare, Hc1; rewrite compare_counter; change (counter g1) with (counter g); rewrite Ec; apply Z.mod_pos_bound; exact HM).
      rewrite compare_counter. change (counter g1) with (counter g). rewrite Ec, Hdiv, Zplus_mod_idemp_l. reflexivity.
    + rewrite count_regs, compare_status. change (counter g1) with (counter g). rewrite (ct_compare _ _ _ _ Hc1), Ec.
      change (regs g1) with (regs g). rewrite Es, Hdiv.
      rewrite (status_next n restart) by (try exact Hn; apply Z.div_pos; lia). reflexivity.
    + intros r Hr. rewrite count_regs, compare_regs by exact Hr. apply Er, Hr.
  - rewrite <- Hdiv in Ec, Es. split; assumption || reflexivity.
Qed.

(** A run neither crashes nor depends on the controller, as far as the timer goes. *)
Lemma timer_run_counted p n restart g0 t0 orders : 0 <= p <= 4096 -> 0 <= n < 2 ^ 32 ->
  counting p n restart g0 -> counter g0 = 0 -> prescaler_counter g0 = 0 ->
  exists g t sents, timer_run orders (g0, t0) = Ret (g, t, sents) /\ length sents = length orders /\
    counted p n restart g0 (Z.of_nat (length orders)) g.
Proof.
  intros Hp Hn Hc H0 Hp0. induction orders as [|o orders (g & t & sents & Hrun & Hl & Hcd)].
  - exists g0, t0, []. split; [reflexivity|]. split; [reflexivity|]. change (Z.of_nat (length [])) with 0. split; try assumption.
    + rewrite Z.div_0_l by lia. destruct (Z.ltb_spec n 0); [lia|reflexivity].
    + reflexivity.
  - cbn [timer_run]. rewrite Hrun. cbn [mbind exec_bind].
    destruct (timer_tick_total o (g, t)) as ([g' t'] & sent & Ht & Hg). rewrite Ht. cbn [fst] in Hg. subst g'.
    exists (gpt_step g), t', (sent :: sents). split; [reflexivity|]. cbn [length]. split; [congruence|].
    rewrite Nat2Z.inj_succ, <- Z.add_1_r. apply counted_step; (assumption || lia).
Qed.

(** The timer counts: when it runs from 0 with a prescaler of at most 4096,
    after [k] nanoseconds, whatever the order of the threads in each of them,
    its prescaler stands at [k] modulo [p + 1], its counter has been advanced
    [k / (p + 1)] times and wraps after the compare value in restart mode and
    after 2^32 in free-running mode, and the status tells the first compare
    event exactly from the tick after the counter reached the compare value. *)
Theorem timer_counts p n restart g0 t0 orders : 0 <= p <= 4096 -> 0 <= n < 2 ^ 32 ->
  counting p n restart g0 -> counter g0 = 0 -> prescaler_counter g0 = 0 ->
  let k := Z.of_nat (length orders) in
  exists g t sents, timer_run orders (g0, t0) = Ret (g, t, sents) /\
    prescaler_counter g = k mod (p + 1) /\
    counter g = (k / (p + 1)) mod (if restart then n + 1 else 2 ^ 32) /\
    getBit (regs g (GPT_SR / 4)) 0 = (n <? k / (p + 1)) || getBit (regs g0 (GPT_SR / 4)) 0 /\
    forall r, r <> GPT_SR / 4 -> regs g r = regs g0 r.
Proof.
  intros Hp Hn Hc H0 Hp0 k. destruct (timer_run_counted p n restart g0 t0 orders Hp Hn Hc H0 Hp0) as (g & t & sents & Hrun & _ & [_ E1 E2 E3 E4]).
  exists g, t, sents. repeat (split; [assumption|]). exact E4.
Qed.

(** ** The way to the core *)

(** The controller lets the timer's interrupt through. *)
Record armed (t : tzic_module) : Prop := {
  ar_words : tzic_words t;
  ar_enabled : Tzic.enabled t = true;
  ar_holdoff : getBit (Tzic.regs t dsmint_reg) 0 = false;
  ar_enset : getBit (Tzic.regs t (TZIC_ENSET0 / 4 + 1)) 7 = true;
  ar_priority : Tzic.regs t (TZIC_PRIOMASK / 4) < priority t GPT_IRQNUM
}.

(** The line of the timer is asserted and the controller has not looked at it. *)
Definition due (t : tzic_module) : Prop := changed t = true /\ getBit (int_in t 1) 7 = true.

Lemma armed_drive b t : armed t -> armed (drive b t).
Proof.
  intros A. unfold drive. destruct (getBit _ 0); [exact A|]. destruct A as [[Wr Wi] He Hh Hs Hp].
  split; try assumption. split; [exact Wr|]. intros k. cbn [int_in set_changed set_int_in].
  destruct (k =? 1); [|apply Wi]. apply put_bit_word; [apply Wi|lia].
Qed.

Lemma due_drive t : armed t -> due (drive false t).
Proof.
  intros A. unfold drive. pose proof (ar_holdoff _ A) as H. unfold dsmint_reg in H. rewrite H. split; [reflexivity|].
  cbn [int_in set_changed set_int_in]. unfold getBit. change (1 =? 1) with true. cbv iota.
  rewrite testbit_put_bit by lia. reflexivity.
Qed.

Lemma timer_wins t : armed t -> due t -> wins t GPT_IRQNUM.
Proof.
  intros A [_ Hd]. split; [|apply (ar_priority _ A)]. apply asserted_raised. rewrite asserted_bit. unfold candidate.
  change (GPT_IRQNUM / 32) with 1. change (GPT_IRQNUM mod 32) with 7.
  pose proof (ar_enset _ A) as He. unfold getBit in *. rewrite Z.land_spec, Z.lor_spec, He, Hd.
  rewrite orb_true_r. reflexivity.
Qed.

Lemma armed_cycle t : armed t -> armed (tzic_cycle t).1 /\ (due t -> (tzic_cycle t).2 = true).
Proof.
  intros A. destruct (changed t) eqn:Ec.
  2:{ unfold tzic_cycle. rewrite Ec. cbn [negb fst snd]. split; [exact A|]. intros [Hd _]. congruence. }
  pose proof (words_cycle t (ar_words _ A)) as W. destruct (tzic_cycle t) as [t' s] eqn:E. cbn [fst snd] in *.
  destruct (cycle_request t t' s (ar_words _ A) Ec E) as (Hs & _ & Hd & Hr & Hn & He).
  split.
  - split; [exact W|rewrite He; apply (ar_enabled _ A)|..].
    + rewrite Hd. destruct (changed t'); [reflexivity|apply (ar_holdoff _ A)].
    + rewrite Hr by (reflexivity || discriminate). apply (ar_enset _ A).
    + rewrite Hr by (reflexivity || discriminate). rewrite (priority_ext t t') by (apply Hr; reflexivity || discriminate).
      apply (ar_priority _ A).
  - intros D. apply Hs. split; [apply (ar_enabled _ A)|]. exists GPT_IRQNUM. split; [unfold GPT_IRQNUM; lia|].
    apply timer_wins; assumption.
Qed.

Lemma timer_tick_form o g t : armed t ->
  let driven t := if ticks g then drive (negb (gen_interrupt (gpt_step g))) t else t in
  exists t' sent, timer_tick o (g, t) = Ret (gpt_step g, t', sent) /\ armed t' /\
    if o then (due (driven t) -> sent = true)
    else t' = driven (tzic_cycle t).1 /\ (due t -> sent = true).
Proof.
  intros A driven. unfold timer_tick. destruct o; cbn [fst snd].
  - rewrite gpt_cycle_step. fold driven. cbn [mbind exec_bind].
    assert (Ad : armed (driven t)) by (unfold driven; destruct (ticks g); [apply armed_drive|]; exact A).
    destruct (armed_cycle (driven t) Ad) as [A' Hs]. destruct (tzic_cycle _) as [t' s]. exists t', s.
    split; [reflexivity|]. split; assumption.
  - destruct (armed_cycle t A) as [A' Hs]. destruct (tzic_cycle t) as [t' s]. cbn [fst snd] in *.
    rewrite gpt_cycle_step. exists (driven t'), s. split; [reflexivity|].
    split; [unfold driven; destruct (ticks g); [apply armed_drive|]; exact A'|]. split; [reflexivity|exact Hs].
Qed.

Lemma timer_run_armed orders g0 t0 g t sents : armed t0 -> timer_run orders (g0, t0) = Ret (g, t, sents) -> armed t.
Proof.
  intros A. revert g t sents. induction orders as [|o orders IH]; intros g t sents H.
  - injection H as _ <- _. exact A.
  - cbn [timer_run] in H. destruct (timer_run orders (g0, t0)) as [[[g1 t1] s1]| |] eqn:E; try discriminate H.
    cbn [mbind exec_bind] in H. destruct (timer_tick_form o g1 t1 (IH _ _ _ eq_refl)) as (t' & s & Ht & A' & _).
    rewrite Ht in H. injection H as _ <- _. exact A'.
Qed.

Lemma gen_interrupt_true g : getBit (regs g (GPT_IR / 4)) 0 = true -> Z.testbit (regs g (GPT_SR / 4)) 0 = true -> gen_interrupt g = true.
Proof.
  intros Hi Hs. unfold gen_interrupt. apply negb_true_iff, Z.eqb_neq. intros H.
  assert (Hb : Z.testbit (Z.land (regs g (GPT_IR / 4)) (regs g (GPT_SR / 4))) 0 = true) by (rewrite Z.land_spec; apply andb_true_iff; split; assumption).
  rewrite H, Z.bits_0 in Hb. discriminate.
Qed.

(** Once the status tells a compare event with its interrupt enabled, a tick of
    the prescaler leaves the line due, and later ones do not withdraw it. *)
Lemma due_driven g t : armed t -> gen_interrupt (gpt_step g) = true -> ticks g = true \/ due t ->
  due (if ticks g then drive (negb (gen_interrupt (gpt_step g))) t else t).
Proof.
  intros A Hg [Ht|Hd]; [rewrite Ht, Hg; apply due_drive, A|]. destruct (ticks g); [rewrite Hg; apply due_drive, A|exact Hd].
Qed.

Lemma compare_tick p n : 0 <= p -> 0 <= n ->
  let q := (p + 1) * (n + 1) - 1 in 0 <= q /\ q mod (p + 1) = p /\ q / (p + 1) = n /\ (q + 1) / (p + 1) = n + 1.
Proof.
  intros Hp Hn q. assert (Hq : q = (p + 1) * n + p) by (unfold q; lia). split; [nia|].
  split; [symmetry; apply (Z.mod_unique_pos q (p + 1) n); lia|].
  split; [symmetry; apply (Z.div_unique_pos q (p + 1) n p); lia|].
  symmetry. apply (Z.div_unique_pos (q + 1) (p + 1) (n + 1) 0); lia.
Qed.

Lemma counted_requests p n restart g0 k g : 0 <= p -> 0 <= n -> n < k / (p + 1) ->
  getBit (regs g0 (GPT_IR / 4)) 0 = true -> counted p n restart g0 k g -> gen_interrupt g = true.
Proof.
  intros Hp Hn Hk Hi [_ _ _ Hs Hr]. apply gen_interrupt_true; [rewrite Hr by discriminate; exact Hi|].
  rewrite Hs. destruct (Z.ltb_spec n (k / (p + 1))); [reflexivity|lia].
Qed.

Lemma deliver_irq vbar sents c : 0 <= mode_of c < 32 -> 0 <= ac_pc c < 2 ^ 32 -> pm_irq (arm_proc_mode c) = false ->
  deliver vbar sents c = (if existsb id sents then service_interrupt vbar EXCEPTION_IRQ c else c).
Proof.
  intros Hm Hpc Hi. induction sents as [|s sents IH]; [reflexivity|]. cbn [deliver fold_right existsb].
  fold (deliver vbar sents c). rewrite IH. destruct s; cbn [id inta]; [|reflexivity].
  cbn [orb]. destruct (existsb id sents); [|reflexivity].
  apply irq_once; assumption.
Qed.

(** C19. A timer interrupt reaches the core: with the timer running from 0, its
    first compare interrupt enabled, and the controller enabled with the
    interrupt enabled above the mask and not held off, [(p + 1) * (n + 1) + 1]
    nanoseconds later, in whatever order the threads ran in each of them, the
    compare event has been flagged, the request for it has been sent in one of
    the last two, and a core at rest with interrupts enabled is in the
    interrupt handler. *)
Theorem timer_interrupt_arrives p n restart g0 t0 orders vbar c : 0 <= p <= 4096 -> 0 <= n < 2 ^ 32 ->
  counting p n restart g0 -> counter g0 = 0 -> prescaler_counter g0 = 0 ->
  getBit (regs g0 (GPT_IR / 4)) 0 = true -> armed t0 -> Z.of_nat (length orders) = (p + 1) * (n + 1) + 1 ->
  0 <= mode_of c < 32 -> 0 <= ac_pc c < 2 ^ 32 -> pm_irq (arm_proc_mode c) = false ->
  exists g t s2 s1 sents, timer_run orders (g0, t0) = Ret (g, t, s2 :: s1 :: sents) /\
    getBit (regs g (GPT_SR / 4)) 0 = true /\ s1 || s2 = true /\
    deliver vbar (s2 :: s1 :: sents) c = service_interrupt vbar EXCEPTION_IRQ c.
Proof.
  intros Hp Hn Hc H0 Hp0 Hi A Hlen Hm Hpc Hirq. destruct (compare_tick p n) as (Hq & Hmod & Hdiv & Hnext); [lia..|].
  set (q := (p + 1) * (n + 1) - 1) in *.
  destruct orders as [|o2 [|o1 rest]]; [cbn in Hlen; lia|cbn in Hlen; lia|].
  assert (Hr : Z.of_nat (length rest) = q) by (cbn [length] in Hlen; lia).
  destruct (timer_run_counted p n restart g0 t0 rest Hp Hn Hc H0 Hp0) as (g & t & sents & Hrun & _ & Hcd). rewrite Hr in Hcd.
  pose proof (timer_run_armed _ _ _ _ _ _ A Hrun) as A'.
  assert (Ht : ticks g = true).
  { unfold ticks. rewrite (ct_running _ _ _ _ (cd_counting _ _ _ _ _ _ Hcd)).
    rewrite (prescale_step p q g Hp Hq (ct_prescaler _ _ _ _ (cd_counting _ _ _ _ _ _ Hcd)) (cd_prescaler _ _ _ _ _ _ Hcd)).
    cbn [fst andb]. rewrite Hmod. apply Z.eqb_refl. }
  pose proof (counted_step p n restart g0 q g Hp Hn Hq Hcd) as Hcd1.
  pose proof (counted_step p n restart g0 (q + 1) (gpt_step g) Hp Hn ltac:(lia) Hcd1) as Hcd2.
  assert (Hlate : n < (q + 1 + 1) / (p + 1)) by (apply Z.lt_le_trans with ((q + 1) / (p + 1)); [lia|apply Z.div_le_mono; lia]).
  pose proof (counted_requests p n restart g0 (q + 1) _ ltac:(lia) ltac:(lia) ltac:(lia) Hi Hcd1) as Hg1.
  pose proof (counted_requests p n restart g0 (q + 1 + 1) _ ltac:(lia) ltac:(lia) Hlate Hi Hcd2) as Hg2.
  destruct (timer_tick_form o1 g t A') as (t1 & s1 & E1 & A1 & F1).
  destruct (timer_tick_form o2 (gpt_step g) t1 A1) as (t2 & s2 & E2 & _ & F2).
  exists (gpt_step (gpt_step g)), t2, s2, s1, sents. cbn [timer_run]. rewrite Hrun. cbn [mbind exec_bind]. rewrite E1. cbn [mbind exec_bind]. rewrite E2.
  assert (Hs : s1 || s2 = true).
  { destruct o1; [rewrite F1 by (apply due_driven; tauto); reflexivity|]. destruct F1 as [F1 _].
    assert (D : due t1) by (rewrite F1; apply due_driven; [apply armed_cycle, A'|exact Hg1|left; exact Ht]).
    rewrite orb_comm. destruct o2; [rewrite F2 by (apply due_driven; tauto)|rewrite (proj2 F2) by exact D]; reflexivity. }
  split; [reflexivity|]. split; [|split; [exact Hs|]].
  - unfold getBit. rewrite (cd_status _ _ _ _ _ _ Hcd2). destruct (Z.ltb_spec n ((q + 1 + 1) / (p + 1))); [reflexivity|lia].
  - rewrite deliver_irq by assumption. cbn [existsb id]. rewrite orb_assoc, (orb_comm s2), Hs. reflexivity.
Qed.

(** ** Bounds *)

(** What can happen to the timer: a cycle, a register write, a capture edge. *)
Inductive timer_event : gpt_module -> gpt_module -> Prop :=
  | ev_cycle g t g' t' : gpt_cycle (g, t) = Ret (g', t') -> timer_event g g'
  | ev_write address datum g g' : 0 <= datum < 2 ^ 32 -> fast_write address datum g = Ret g' -> timer_event g g'
  | ev_capin1 deassert g : timer_event g (ind_capin1 deassert g)
  | ev_capin2 deassert g : timer_event g (ind_capin2 deassert g).

(** The states of a timer from its constructor, whatever its memory held. *)
Inductive timer_reachable : gpt_module -> Prop :=
  | tr_reset g : timer_reachable (do_reset true g)
  | tr_event g g' : timer_reachable g -> timer_event g g' -> timer_reachable g'.

Record timer_bounded (g : gpt_module) : Prop := {
  tb_counter : 0 <= counter g < 2 ^ 32;
  tb_prescaler : 0 <= prescaler g < 2 ^ 32;
  tb_prescaler_counter : 0 <= prescaler_counter g <= 4096;
  tb_regs : forall k, 0 <= k < 10 -> 0 <= regs g k < 2 ^ 32
}.

Lemma bounded_set_reg k v g : 0 <= v < 2 ^ 32 -> timer_bounded g -> timer_bounded (set_reg k v g).
Proof.
  intros Hv [Hc Hp Hpc Hr]. split; try assumption. intros j Hj. unfold set_reg. cbn [regs set_regs].
  destruct (j =? k); [exact Hv|apply Hr, Hj].
Qed.

Lemma bounded_flag b g : 0 <= b < 32 -> timer_bounded g -> timer_bounded (flag_status b g).
Proof.
  intros Hb B. apply bounded_set_reg; [|exact B]. apply setBit_word; [|exact Hb].
  apply (tb_regs _ B). unfold GPT_SR. change (8 / 4) with 2. lia.
Qed.

Lemma bounded_reset hard g : timer_bounded (do_reset hard g).
Proof.
  split; try (cbn; lia). intros k Hk.
  assert (k = 0 \/ k = 1 \/ k = 2 \/ k = 3 \/ k = 4 \/ k = 5 \/ k = 6 \/ k = 7 \/ k = 8 \/ k = 9) as Hcases by lia.
  repeat (destruct Hcases as [->|Hcases]; [vm_compute; split; [discriminate|reflexivity]|]).
  subst k. vm_compute. split; [discriminate|reflexivity].
Qed.

Lemma bounded_step g : timer_bounded g -> timer_bounded (gpt_step g).
Proof.
  intros B. assert (Bp : timer_bounded (prescale g).2).
  { destruct B as [Hc Hp Hpc Hr]. unfold prescale. destruct (_ =? _); [split; (assumption || (cbn; lia))|].
    destruct (Z.leb_spec 4096 (prescaler_counter g)); split; try assumption; cbn [snd prescaler_counter set_prescaler_counter]; [lia|].
    rewrite u32_id by lia. lia. }
  unfold gpt_step. destruct (running g); cbn [negb]; [|exact B]. destruct (prescale g).1; [|exact Bp].
  assert (Bc : timer_bounded (compare (prescale g).2)).
  { set (g1 := (prescale g).2) in *.
    assert (B1 : timer_bounded (if counter g1 =? 0xFFFFFFFF then flag_status 5 g1 else g1)) by (destruct (_ =? _); [apply bounded_flag; [lia|]|]; exact Bp).
    unfold compare. set (g2 := if counter g1 =? 0xFFFFFFFF then flag_status 5 g1 else g1) in *. clearbody g2. cbv zeta.
    assert (Bo : forall b x y z, 0 <= b < 32 -> timer_bounded (set_outputs x y z (flag_status b g2))).
    { intros b x y z Hb. destruct (bounded_flag b g2 Hb B1). split; assumption. }
    destruct (_ =? _); [apply Bo; lia|]. destruct (_ =? _); [apply Bo; lia|]. destruct (_ =? _); [apply Bo; lia|exact B1]. }
  destruct Bc as [Hc Hp Hpc Hr]. unfold count. destruct (_ && _); [|destruct (_ =? _)]; split; try assumption; cbn [counter set_counter]; try lia.
  apply u32_word.
Qed.

Lemma bounded_capture b k g : 0 <= b < 32 -> timer_bounded g -> timer_bounded (flag_status b (set_reg k (counter g) g)).
Proof. intros Hb B. apply bounded_flag; [exact Hb|]. apply bounded_set_reg; [apply (tb_counter _ B)|exact B]. Qed.

Lemma bounded_write address datum g g' : 0 <= datum < 2 ^ 32 -> timer_bounded g ->
  fast_write address datum g = Ret g' -> timer_bounded g'.
Proof.
  intros Hd B. assert (W : forall g1, timer_bounded g1 -> write_reg address datum g1 = Ret g' -> timer_bounded g').
  { intros g1 B1. unfold write_reg. destruct (valid address); [|discriminate]. intros [= <-]. apply bounded_set_reg; assumption. }
  assert (Bz : timer_bounded (set_counter 0 g)) by (destruct B; split; (assumption || (cbn; lia))).
  unfold fast_write. destruct (address =? GPT_CR).
  { intros [= <-]. unfold write_control. cbv zeta. destruct (getBit datum 15); [apply bounded_reset|].
    apply bounded_set_reg; [apply land_word; [exact Hd|apply not32_word]|].
    destruct B. split; cbn [counter prescaler prescaler_counter regs]; try assumption; destruct (_ && _); (assumption || lia). }
  destruct (address =? GPT_SR).
  { intros [= <-]. apply bounded_set_reg; [|exact B]. apply land_word; [apply (tb_regs _ B); unfold GPT_SR; change (8 / 4) with 2; lia|apply not32_word]. }
  destruct (_ || _); [intros [= <-]; exact B|]. destruct (address =? GPT_OCR1).
  { apply W. destruct (_ =? _); assumption. }
  destruct (address =? GPT_PR); [|apply W, B].
  apply W. destruct B. split; (assumption || (cbn; lia)).
Qed.

(** The counters stay in their ranges: in every state the timer reaches by
    cycles, writes of words and capture edges from its constructor the counter,
    the prescaler and the ten registers are 32-bit words and the counter of the
    prescaler is at most 4096; the increments of the code never wrap past them. *)
Theorem timer_counters_bounded g : timer_reachable g -> timer_bounded g.
Proof.
  induction 1 as [g|g g' _ B Hev]; [apply bounded_reset|]. revert B.
  destruct Hev as [g1 t g2 t' E|a d g1 g2 Hd E|b g1|b g1]; intros B.
  - rewrite gpt_cycle_step in E. injection E as <- _. apply bounded_step, B.
  - exact (bounded_write a d g1 g2 Hd B E).
  - unfold ind_capin1. destruct (captures _ _); [apply bounded_capture; [lia|]|]; exact B.
  - unfold ind_capin2. destruct (captures _ _); [apply bounded_capture; [lia|]|]; exact B.
Qed.

(** A prescaler above 4096, which a write stores as it is, stops the counter. *)
Lemma large_prescaler_stops g t g' t' : 4096 < prescaler g -> 0 <= prescaler_counter g <= 4096 ->
  gpt_cycle (g, t) = Ret (g', t') -> counter g' = counter g /\ prescaler g' = prescaler g /\ 0 <= prescaler_counter g' <= 4096.
Proof.
  intros Hp Hc E. rewrite gpt_cycle_step in E. injection E as <- _. unfold gpt_step.
  destruct (running g); cbn [negb]; [|tauto]. unfold prescale. destruct (Z.eqb_spec (prescaler_counter g) (prescaler g)); [lia|].
  destruct (Z.leb_spec 4096 (prescaler_counter g)); cbn [fst snd counter prescaler prescaler_counter set_prescaler_counter]; [lia|].
  rewrite u32_id by lia. lia.
Qed.

(** ** Examples *)

(** A timer in restart mode with prescaler 2 and compare value 3, its first
    compare interrupt enabled. *)
Definition sample_timer : gpt_module :=
  MkGpt (fun k => if k =? GPT_OCR1 / 4 then 3 else if k =? GPT_IR / 4 then 1 else 0) 0 2 0 1 0 0 0 0 0 M_RESTART
    false false false false true false false false.

Definition sample_armed : tzic_module :=
  MkTzic (Tzic.regs sample_tzic) true true (fun _ => 0) false.

Lemma sample_counting : counting 2 3 true sample_timer.
Proof. split; reflexivity. Qed.

Lemma sample_is_armed : armed sample_armed.
Proof.
  split; try reflexivity. split; [apply sample_tzic_words|]. intros k. cbn [int_in sample_armed]. lia.
Qed.

Lemma timer_counts_witness :
  exists g t sents, timer_run (repeat true 17) (sample_timer, sample_armed) = Ret (g, t, sents) /\
    prescaler_counter g = 2 /\ counter g = 1 /\ getBit (regs g (GPT_SR / 4)) 0 = true.
Proof.
  destruct (timer_counts 2 3 true sample_timer sample_armed (repeat true 17)) as (g & t & sents & H & H1 & H2 & H3 & _);
    [lia|lia|exact sample_counting|reflexivity|reflexivity|].
  exists g, t, sents. split; [exact H|]. split; [exact H1|]. split; [exact H2|exact H3].
Defined.

Lemma timer_interrupt_arrives_witness :
  exists g t s2 s1 sents,
    timer_run [true; false; true; true; false; false; true; false; true; false; true; true; false] (sample_timer, sample_armed) =
      Ret (g, t, s2 :: s1 :: sents) /\
    s1 || s2 = true /\ mode_of (deliver 0x100 (s2 :: s1 :: sents) (sample_core USER_MODE)) = IRQ_MODE.
Proof.
  destruct (timer_interrupt_arrives 2 3 true sample_timer sample_armed
    [true; false; true; true; false; false; true; false; true; false; true; true; false] 0x100 (sample_core USER_MODE))
    as (g & t & s2 & s1 & sents & H & _ & Hs & Hd);
    [lia|lia|exact sample_counting|reflexivity|reflexivity|reflexivity|exact sample_is_armed|reflexivity
    |split; [discriminate|reflexivity]|cbn; lia|reflexivity|].
  exists g, t, s2, s1, sents. split; [exact H|]. split; [exact Hs|]. rewrite Hd. vm_compute. reflexivity.
Defined.

Lemma timer_counters_bounded_witness :
  timer_bounded (ind_capin1 true (do_reset true sample_timer)).
Proof. apply timer_counters_bounded. eapply tr_event; [apply tr_reset|apply ev_capin1]. Defined.
