(* ===== verification/AcDecoderRt.v ===== *)
(** * The run-time decoder of the simulators

    [archc/src/aclib/ac_decoder/ac_decoder_rt.cpp], [ac_decoder_rt.H] and the
    extraction of fields of [ac_core/ac_arch_dec_if.H].  The C++ code follows
    [ac_decoder.c] except in [AddToDecoder], which accepts every instruction:
    the other functions are those of [AcDecoder].  On descriptions the C code
    accepts the two build the same decoder. *)
From S2P Require Import Prelude DecTypes AcDecoder.

(** ** Building the tree *)

Section Insert.
Context (k : nat) (chain : ac_decoder).

(** The [while (l)] walk, with the node of the instruction set at its end. *)
Fixpoint rt_add_walk (l : list ac_dec_list) : ac_decoder -> ac_decoder :=
  match l with
  | [] => fun d => d
  | c :: l' =>
      fix walk (d : ac_decoder) : ac_decoder :=
        match d with
        | DNull =>
            match l' with
            | [] => DNode c (Some k) chain DNull
            | _ => DNode c None (rt_add_walk l' DNull) DNull
            end
        | DNode check found sub next =>
            if same_check check c then
              match l' with
              | [] => DNode check (Some k) chain next
              | _ => DNode check found (rt_add_walk l' sub) next
              end
            else DNode check found sub (walk next)
        end
  end.
End Insert.

Definition rt_AddToDecoder (decoder : ac_decoder) (k : nat) (instruction : ac_dec_instr) (fmt : ac_dec_format)
    : exec (ac_decoder * ac_dec_instr) :=
  match i_dec_list instruction with
  | [] => Exit ("Error: Instruction " +:+ i_name instruction +:+ " doesn't have a decode list." +:+ nl)
  | l =>
      let l := assign_id fmt <$> l in
      Ret (rt_add_walk k (operand_chain l (fmt_fields fmt)) l decoder, set_i_dec_list l instruction)
  end.

Fixpoint rt_add_instructions (formats : list ac_dec_format) (k : nat) (dec : ac_decoder) (instrs : list ac_dec_instr)
    : exec (ac_decoder * list ac_dec_instr) :=
  match instrs with
  | [] => Ret (dec, [])
  | instr :: instrs =>
      fmt ← FindFormat formats (i_format instr);
      '(dec, instr) ← rt_AddToDecoder dec k instr fmt;
      '(dec, instrs) ← rt_add_instructions formats (S k) dec instrs;
      Ret (dec, set_i_size (Z.quot (fmt_size fmt) 8) instr :: instrs)
  end.

Definition rt_CreateDecoder (formats : list ac_dec_format) (instructions : list ac_dec_instr) : exec ac_decoder_full :=
  let nFields := Z.of_nat (count_fields formats) + 1 in
  let '(allFields, formats) := PutIDs (number_formats 0 formats) in
  '(dec, instructions) ← rt_add_instructions formats 0 DNull instructions;
  Ret (MkFull dec formats allFields instructions nFields).

(** The search and the extraction of the operands are those of the C code. *)
Definition rt_Decode : (Z -> Z -> Z -> Z) -> ac_decoder_full -> list Z -> exec (option (list Z)) := Decode.

(** ** Extraction of a field *)

(** [GetBits] on a buffer of one little-endian word of 32 bits that holds all
    fields: word 0 is shifted to the field's first bit and masked; a shift
    count of an [unsigned] is taken modulo 32. *)
Definition GetBits (buffer last quantity sign : Z) : Z :=
  let first := last - (quantity - 1) in
  let value := Z.shiftr buffer (first mod 32) in
  let value := Z.land value (Z.shiftr 0xFFFFFFFF ((64 - quantity) mod 32)) in
  if negb (sign =? 0) && (u32 (Z.shiftl 1 ((quantity - 1) mod 32)) <=? value)
  then Z.lor value (u64 (Z.shiftl (-1) quantity)) else value.

(** ** Agreement with the generator's decoder *)

Lemma rt_walk_agrees name_of k chain l d d' : l <> [] ->
  add_walk name_of k chain l d = Ret d' -> rt_add_walk k chain l d = d'.
Proof.
  revert d d'. induction l as [|c l IH]; [congruence|]. intros d d' _.
  assert (Hsub : forall s s', l <> [] -> add_walk name_of k chain l s = Ret s' -> rt_add_walk k chain l s = s')
    by (intros s s' Hl; apply IH, Hl).
  clear IH. revert d'. induction d as [|check found sub _ next IH]; intros d' H; cbn [add_walk rt_add_walk] in *.
  - destruct l as [|c2 l2]; [injection H as <-; reflexivity|].
    apply exec_bind_ret in H as (s & Hs & H). injection H as <-.
    rewrite (Hsub DNull s) by (discriminate || exact Hs). reflexivity.
  - destruct (same_check check c).
    + destruct found; [discriminate|]. destruct l as [|c2 l2]; [injection H as <-; reflexivity|].
      apply exec_bind_ret in H as (s & Hs & H). injection H as <-.
      rewrite (Hsub sub s) by (discriminate || exact Hs). reflexivity.
    + apply exec_bind_ret in H as (s & Hs & H). injection H as <-. rewrite (IH s Hs). reflexivity.
Qed.

Lemma rt_add_agrees name_of formats k dec instrs r :
  add_instructions name_of formats k dec instrs = Ret r -> rt_add_instructions formats k dec instrs = Ret r.
Proof.
  revert k dec r. induction instrs as [|i instrs IH]; intros k dec r H; [exact H|]. cbn [add_instructions rt_add_instructions] in *.
  apply exec_bind_ret in H as (fmt & Hf & H). apply exec_bind_ret in H as ([d1 i1] & Ha & H).
  apply exec_bind_ret in H as ([d2 l2] & Hr & H). rewrite Hf. cbn [mbind exec_bind].
  unfold AddToDecoder in Ha. unfold rt_AddToDecoder. destruct (i_dec_list i) as [|c l] eqn:El; [discriminate|].
  apply exec_bind_ret in Ha as (d & Hw & Ha). injection Ha as -> <-.
  rewrite fmap_cons in *. rewrite (rt_walk_agrees _ _ _ (assign_id fmt c :: (assign_id fmt <$> l)) _ _ ltac:(discriminate) Hw). cbn [mbind exec_bind].
  rewrite (IH _ _ _ Hr). exact H.
Qed.

Lemma rt_add_created formats instrs full :
  CreateDecoder formats instrs = Ret full -> rt_CreateDecoder formats instrs = Ret full.
Proof.
  unfold CreateDecoder, rt_CreateDecoder. destruct (PutIDs (number_formats 0 formats)) as [fs fmts]. intros H.
  apply exec_bind_ret in H as ([d l] & Ha & H). rewrite (rt_add_agrees _ _ _ _ _ _ Ha). exact H.
Qed.

(** The run-time decoder is the one the generator checked: when the
    generator's [CreateDecoder] accepts a description, the C++ [CreateDecoder]
    of the simulators builds the same fields, formats, instructions and tree
    from it. *)
Theorem rt_decoder_agrees formats instrs full :
  CreateDecoder formats instrs = Ret full -> rt_CreateDecoder formats instrs = Ret full.
Proof. apply rt_add_created. Qed.

(** Where the generator reports a conflict the run-time code goes on: here the
    second instruction is entered below the first and can never be found. *)
Lemma rt_accepts_conflicts :
  let x2 := demo_instr "x2" "R" 2 [("op", 1)] in
  let x1 := demo_instr "x1" "R" 1 [("op", 1); ("fn", 2)] in
  CreateDecoder demo_formats [x2; x1] =
    Exit ("ERROR building instruction decoder: decoding conflict between x2 and x1." +:+ nl) /\
  (full ← rt_CreateDecoder demo_formats [x2; x1]; rt_Decode (demo_GetBits 0x1200) full (replicate 8 0))
  = Ret (Some [2; 1; 2; 0; 0; 0; 0; 0]).
Proof. split; vm_compute; reflexivity. Qed.

Lemma rt_decoder_agrees_witness :
  exists full, CreateDecoder demo_formats demo_instrs = Ret full /\ rt_CreateDecoder demo_formats demo_instrs = Ret full.
Proof. eexists. split; [reflexivity|]. apply rt_decoder_agrees. reflexivity. Defined.
