(* ===== verification/ArmDecode.v ===== *)
(** * The decode unit of the ARM model

    The tables of [src/armv7/src/arm_isa_init.cpp], which the generator wrote
    from the architecture description, and the decode unit
    ([arm_decode_unit.cpp], [arm_decode_unit.H]) with its cache of decoded
    instructions ([ac_decoded_cache.H]).  An instruction word is fetched through
    the memory port.  The members of a format are a list of values in the order
    of their assignments. *)
From S2P Require Import Prelude DecTypes AcDecoder AcDecoderRt ArmCore ArmFormats ArmData ArmMem ArmIsa.

(** ** Tables *)

Definition fd (name : string) (size first_bit id : Z) : ac_dec_field := MkField name size first_bit id 0 0.
Definition dl (name : string) (id value : Z) : ac_dec_list := MkDec name id value.

(** The fields of the formats 0 to 13: name, size, first bit, id. *)
Definition fields_1 : list (list ac_dec_field) :=
  [
   [fd "cond" 4 31 1; fd "op" 3 27 2; fd "func1" 4 24 3; fd "s" 1 20 4; fd "rn" 4 19 5; fd "rd" 4 15 6;
    fd "shiftamount" 5 11 7; fd "shift" 2 6 8; fd "subop1" 1 4 9; fd "rm" 4 3 10];
   [fd "cond" 4 31 1; fd "op" 3 27 2; fd "func1" 4 24 3; fd "s" 1 20 4; fd "rn" 4 19 5; fd "rd" 4 15 6;
    fd "rs" 4 11 11; fd "subop2" 1 7 12; fd "shift" 2 6 8; fd "subop1" 1 4 9; fd "rm" 4 3 10];
   [fd "cond" 4 31 1; fd "op" 3 27 2; fd "func1" 4 24 3; fd "s" 1 20 4; fd "rn" 4 19 5; fd "rd" 4 15 6;
    fd "rotate" 4 11 11; fd "imm8" 8 7 13];
   [fd "cond" 4 31 1; fd "op" 3 27 2; fd "func1" 4 24 3; fd "s" 1 20 4; fd "imm4" 4 19 5; fd "rd" 4 15 6;
    fd "imm12" 12 11 14];
   [fd "cond" 4 31 1; fd "op" 3 27 2; fd "func1" 4 24 3; fd "s" 1 20 4; fd "rn" 4 19 5; fd "rd" 4 15 6;
    fd "shiftamount" 5 11 7; fd "tb" 1 6 15; fd "subop1" 2 5 16; fd "rm" 4 3 10];
   [fd "cond" 4 31 1; fd "op" 7 27 17; fd "msb" 5 20 18; fd "rd" 4 15 6; fd "lsb" 5 11 7; fd "func1" 3 6 19;
    fd "rn" 4 3 10];
   [fd "cond" 4 31 1; fd "op1" 4 27 20; fd "func1" 4 23 21; fd "rn" 4 19 5; fd "rd" 4 15 6; fd "rotate" 4 11 11;
    fd "func2" 4 7 22; fd "rm" 4 3 10];
   [fd "cond" 4 31 1; fd "op" 3 27 2; fd "op1" 4 24 3; fd "widthm1" 5 20 18; fd "rd" 4 15 6; fd "lsb" 5 11 7;
    fd "op2" 3 6 19; fd "rn" 4 3 10];
   [fd "cond" 4 31 1; fd "op" 3 27 2; fd "h" 1 24 23; fd "offset" 24 23 24];
   [fd "cond" 4 31 1; fd "op" 3 27 2; fd "h" 1 24 23; fd "offset" 24 23 24];
   [fd "cond" 4 31 1; fd "op" 3 27 2; fd "func1" 4 24 3; fd "s" 1 20 4; fd "one1" 4 19 5; fd "one2" 4 15 6;
    fd "one3" 4 11 11; fd "subop2" 1 7 12; fd "func2" 2 6 8; fd "subop1" 1 4 9; fd "rm" 4 3 10];
   [fd "cond" 4 31 1; fd "op" 3 27 2; fd "func1" 4 24 3; fd "s" 1 20 4; fd "rn" 4 19 5; fd "rd" 4 15 6;
    fd "rs" 4 11 11; fd "subop2" 1 7 12; fd "func2" 2 6 8; fd "subop1" 1 4 9; fd "rm" 4 3 10];
   [fd "cond" 4 31 1; fd "op" 3 27 2; fd "func1" 4 24 3; fd "s" 1 20 4; fd "rdhi" 4 19 5; fd "rdlo" 4 15 6;
    fd "rs" 4 11 11; fd "subop2" 1 7 12; fd "func2" 2 6 8; fd "subop1" 1 4 9; fd "rm" 4 3 10];
   [fd "cond" 4 31 1; fd "op" 3 27 2; fd "p" 1 24 23; fd "u" 1 23 25; fd "b" 1 22 26; fd "w" 1 21 27; fd "l" 1 20 4;
    fd "rn" 4 19 5; fd "rd" 4 15 6; fd "imm12" 12 11 14]].

(** The fields of the formats 14 to 27. *)
Definition fields_2 : list (list ac_dec_field) :=
  [
   [fd "cond" 4 31 1; fd "op" 3 27 2; fd "p" 1 24 23; fd "u" 1 23 25; fd "b" 1 22 26; fd "w" 1 21 27; fd "l" 1 20 4;
    fd "rn" 4 19 5; fd "rd" 4 15 6; fd "shiftamount" 5 11 7; fd "shift" 2 6 8; fd "subop1" 1 4 9; fd "rm" 4 3 10];
   [fd "cond" 4 31 1; fd "op" 3 27 2; fd "p" 1 24 23; fd "u" 1 23 25; fd "i" 1 22 26; fd "w" 1 21 27; fd "l" 1 20 4;
    fd "rn" 4 19 5; fd "rd" 4 15 6; fd "addr1" 4 11 11; fd "subop2" 1 7 12; fd "ss" 1 6 15; fd "hh" 1 5 28;
    fd "subop1" 1 4 9; fd "addr2" 4 3 10];
   [fd "cond" 4 31 1; fd "op" 3 27 2; fd "p" 1 24 23; fd "u" 1 23 25; fd "r" 1 22 26; fd "w" 1 21 27; fd "l" 1 20 4;
    fd "rn" 4 19 5; fd "rlist" 16 15 29];
   [fd "cond" 4 31 1; fd "op" 7 27 17; fd "s" 1 20 4; fd "rn" 4 19 5; fd "rd" 4 15 6; fd "subop1" 4 11 11;
    fd "func1" 4 7 22; fd "rt" 4 3 10];
   [fd "cond" 4 31 1; fd "op" 3 27 2; fd "subop3" 1 24 23; fd "funcc1" 4 23 21; fd "crn" 4 19 5; fd "crd" 4 15 6;
    fd "cp_num" 4 11 11; fd "funcc3" 3 7 30; fd "subop1" 1 4 9; fd "crm" 4 3 10];
   [fd "cond" 4 31 1; fd "op" 3 27 2; fd "subop3" 1 24 23; fd "funcc2" 3 23 31; fd "l" 1 20 4; fd "crn" 4 19 5;
    fd "rd" 4 15 6; fd "cp_num" 4 11 11; fd "funcc3" 3 7 30; fd "subop1" 1 4 9; fd "crm" 4 3 10];
   [fd "cond" 4 31 1; fd "op" 3 27 2; fd "p" 1 24 23; fd "u" 1 23 25; fd "n" 1 22 26; fd "w" 1 21 27; fd "l" 1 20 4;
    fd "rn" 4 19 5; fd "crd" 4 15 6; fd "cp_num" 4 11 11; fd "imm8" 8 7 13];
   [fd "cond" 4 31 1; fd "op" 3 27 2; fd "func1" 4 24 3; fd "s" 1 20 4; fd "immediate" 12 19 32; fd "subop2" 1 7 12;
    fd "func2" 2 6 8; fd "subop1" 1 4 9; fd "rm" 4 3 10];
   [fd "cond" 4 31 1; fd "op" 3 27 2; fd "subop3" 1 24 23; fd "swinumber" 24 23 24];
   [fd "cond" 4 31 1; fd "op" 7 27 17; fd "subop1" 1 20 4; fd "func1" 12 19 32; fd "func2" 4 7 22; fd "imm4" 4 3 10];
   [fd "cond" 4 31 1; fd "op" 3 27 2; fd "func1" 4 24 3; fd "s" 1 20 4; fd "one1" 4 19 5; fd "rd" 4 15 6;
    fd "one3" 4 11 11; fd "subop2" 1 7 12; fd "func2" 2 6 8; fd "subop1" 1 4 9; fd "rm" 4 3 10];
   [fd "cond" 4 31 1; fd "op" 3 27 2; fd "func11" 2 24 33; fd "r" 1 22 26; fd "func12" 2 21 34;
    fd "fieldmask" 4 19 5; fd "rd" 4 15 6; fd "zero3" 4 11 11; fd "subop2" 1 7 12; fd "func2" 2 6 8;
    fd "subop1" 1 4 9; fd "rm" 4 3 10];
   [fd "cond" 4 31 1; fd "op" 3 27 2; fd "func11" 2 24 33; fd "r" 1 22 26; fd "func12" 2 21 34;
    fd "fieldmask" 4 19 5; fd "one2" 4 15 6; fd "rotate" 4 11 11; fd "imm8" 8 7 13];
   [fd "cond" 4 31 1; fd "sm" 8 27 35; fd "drd" 4 19 5; fd "drn" 4 15 6; fd "rs" 4 11 11; fd "subop2" 1 7 12;
    fd "yy" 1 6 15; fd "xx" 1 5 28; fd "subop1" 1 4 9; fd "rm" 4 3 10]].

Definition fields : list (list ac_dec_field) := fields_1 ++ fields_2.

Definition format_names : list string :=
  [
   "Type_DPI1"; "Type_DPI2"; "Type_DPI3"; "Type_DPI4"; "Type_DPI5"; "Type_BTM1"; "Type_PCK1"; "Type_MED1";
   "Type_BBL"; "Type_BBLT"; "Type_MBXBLX"; "Type_MULT1"; "Type_MULT2"; "Type_LSI"; "Type_LSR"; "Type_LSE";
   "Type_LSM"; "Type_MEMEX"; "Type_CDP"; "Type_CRT"; "Type_CLS"; "Type_MBKPT"; "Type_MSWI"; "Type_MSMC"; "Type_MCLZ";
   "Type_MMSR1"; "Type_MMSR2"; "Type_DSPSM"].

Definition formats : list ac_dec_format :=
  imap (fun i (p : string * list ac_dec_field) => MkFormat (Z.of_nat i) (fst p) 32 (snd p)) (zip format_names fields).

(** The decode lists of the instructions 1 to 45: name, field id, value. *)
Definition dec_list_1 : list (list ac_dec_list) :=
  [
   [dl "op" 2 0; dl "subop1" 9 0; dl "func1" 3 0]; [dl "op" 2 0; dl "subop1" 9 0; dl "func1" 3 1];
   [dl "op" 2 0; dl "subop1" 9 0; dl "func1" 3 2]; [dl "op" 2 0; dl "subop1" 9 0; dl "func1" 3 3];
   [dl "op" 2 0; dl "subop1" 9 0; dl "func1" 3 4]; [dl "op" 2 0; dl "subop1" 9 0; dl "func1" 3 5];
   [dl "op" 2 0; dl "subop1" 9 0; dl "func1" 3 6]; [dl "op" 2 0; dl "subop1" 9 0; dl "func1" 3 7];
   [dl "op" 2 0; dl "subop1" 9 0; dl "func1" 3 8; dl "s" 4 1];
   [dl "op" 2 0; dl "subop1" 9 0; dl "func1" 3 9; dl "s" 4 1];
   [dl "op" 2 0; dl "subop1" 9 0; dl "func1" 3 10; dl "s" 4 1];
   [dl "op" 2 0; dl "subop1" 9 0; dl "func1" 3 11; dl "s" 4 1]; [dl "op" 2 0; dl "subop1" 9 0; dl "func1" 3 12];
   [dl "op" 2 0; dl "subop1" 9 0; dl "func1" 3 13]; [dl "op" 2 0; dl "subop1" 9 0; dl "func1" 3 14];
   [dl "op" 2 0; dl "subop1" 9 0; dl "func1" 3 15]; [dl "op" 2 0; dl "subop1" 9 1; dl "subop2" 12 0; dl "func1" 3 0];
   [dl "op" 2 0; dl "subop1" 9 1; dl "subop2" 12 0; dl "func1" 3 1];
   [dl "op" 2 0; dl "subop1" 9 1; dl "subop2" 12 0; dl "func1" 3 2];
   [dl "op" 2 0; dl "subop1" 9 1; dl "subop2" 12 0; dl "func1" 3 3];
   [dl "op" 2 0; dl "subop1" 9 1; dl "subop2" 12 0; dl "func1" 3 4];
   [dl "op" 2 0; dl "subop1" 9 1; dl "subop2" 12 0; dl "func1" 3 5];
   [dl "op" 2 0; dl "subop1" 9 1; dl "subop2" 12 0; dl "func1" 3 6];
   [dl "op" 2 0; dl "subop1" 9 1; dl "subop2" 12 0; dl "func1" 3 7];
   [dl "op" 2 0; dl "subop1" 9 1; dl "subop2" 12 0; dl "func1" 3 8; dl "s" 4 1];
   [dl "op" 2 0; dl "subop1" 9 1; dl "subop2" 12 0; dl "func1" 3 9; dl "s" 4 1];
   [dl "op" 2 0; dl "subop1" 9 1; dl "subop2" 12 0; dl "func1" 3 10; dl "s" 4 1];
   [dl "op" 2 0; dl "subop1" 9 1; dl "subop2" 12 0; dl "func1" 3 11; dl "s" 4 1];
   [dl "op" 2 0; dl "subop1" 9 1; dl "subop2" 12 0; dl "func1" 3 12];
   [dl "op" 2 0; dl "subop1" 9 1; dl "subop2" 12 0; dl "func1" 3 13];
   [dl "op" 2 0; dl "subop1" 9 1; dl "subop2" 12 0; dl "func1" 3 14];
   [dl "op" 2 0; dl "subop1" 9 1; dl "subop2" 12 0; dl "func1" 3 15]; [dl "op" 2 1; dl "func1" 3 0];
   [dl "op" 2 1; dl "func1" 3 1]; [dl "op" 2 1; dl "func1" 3 2]; [dl "op" 2 1; dl "func1" 3 3];
   [dl "op" 2 1; dl "func1" 3 4]; [dl "op" 2 1; dl "func1" 3 5]; [dl "op" 2 1; dl "func1" 3 6];
   [dl "op" 2 1; dl "func1" 3 7]; [dl "op" 2 1; dl "func1" 3 8; dl "s" 4 1];
   [dl "op" 2 1; dl "func1" 3 9; dl "s" 4 1]; [dl "op" 2 1; dl "func1" 3 10; dl "s" 4 1];
   [dl "op" 2 1; dl "func1" 3 11; dl "s" 4 1]; [dl "op" 2 1; dl "func1" 3 12]].

(** The decode lists of the instructions 46 to 81: name, field id, value. *)
Definition dec_list_2 : list (list ac_dec_list) :=
  [
   [dl "op" 2 1; dl "func1" 3 13]; [dl "op" 2 1; dl "func1" 3 14]; [dl "op" 2 1; dl "func1" 3 15];
   [dl "op" 2 1; dl "func1" 3 8; dl "s" 4 0]; [dl "op" 2 1; dl "func1" 3 10; dl "s" 4 0];
   [dl "op" 2 1; dl "func1" 3 9; dl "s" 4 0; dl "imm4" 5 0; dl "rd" 6 15; dl "imm12" 14 0];
   [dl "op" 2 3; dl "func1" 3 4; dl "s" 4 0; dl "subop1" 16 1]; [dl "op" 17 62; dl "func1" 19 1];
   [dl "op" 2 3; dl "op1" 3 15; dl "op2" 19 5]; [dl "op" 2 3; dl "op1" 3 13; dl "op2" 19 5];
   [dl "op1" 20 6; dl "func1" 21 14; dl "rn" 5 15; dl "func2" 22 7];
   [dl "op1" 20 6; dl "func1" 21 15; dl "rn" 5 15; dl "func2" 22 7];
   [dl "op1" 20 6; dl "func1" 21 11; dl "rn" 5 15; dl "func2" 22 7];
   [dl "op1" 20 6; dl "func1" 21 11; dl "rn" 5 15; dl "rotate" 11 15; dl "func2" 22 3];
   [dl "op" 2 5; dl "cond" 1 15]; [dl "op" 2 5];
   [dl "op" 2 0; dl "subop1" 9 1; dl "subop2" 12 0; dl "func1" 3 9; dl "s" 4 0; dl "func2" 8 0];
   [dl "op" 2 0; dl "subop1" 9 1; dl "subop2" 12 0; dl "func1" 3 9; dl "s" 4 0; dl "func2" 8 1];
   [dl "op" 2 0; dl "subop1" 9 1; dl "subop2" 12 1; dl "func1" 3 8; dl "func2" 8 0; dl "s" 4 0];
   [dl "op" 2 0; dl "subop1" 9 1; dl "subop2" 12 1; dl "func1" 3 10; dl "func2" 8 0; dl "s" 4 0];
   [dl "op" 2 0; dl "subop1" 9 1; dl "subop2" 12 1; dl "func1" 3 1; dl "func2" 8 0];
   [dl "op" 2 0; dl "subop1" 9 1; dl "subop2" 12 1; dl "func1" 3 0; dl "func2" 8 0];
   [dl "op" 2 0; dl "func1" 3 3; dl "s" 4 0; dl "subop2" 12 1; dl "func2" 8 0; dl "subop1" 9 1];
   [dl "op" 2 0; dl "subop1" 9 1; dl "subop2" 12 1; dl "func1" 3 7; dl "func2" 8 0];
   [dl "op" 2 0; dl "subop1" 9 1; dl "subop2" 12 1; dl "func1" 3 6; dl "func2" 8 0];
   [dl "op" 2 0; dl "subop1" 9 1; dl "subop2" 12 1; dl "func1" 3 5; dl "func2" 8 0];
   [dl "op" 2 0; dl "subop1" 9 1; dl "subop2" 12 1; dl "func1" 3 4; dl "func2" 8 0];
   [dl "op" 2 2; dl "p" 23 0; dl "b" 26 0; dl "w" 27 1; dl "l" 4 1];
   [dl "op" 2 2; dl "p" 23 0; dl "b" 26 1; dl "w" 27 1; dl "l" 4 1]; [dl "op" 2 2; dl "b" 26 0; dl "l" 4 1];
   [dl "op" 2 2; dl "b" 26 1; dl "l" 4 1]; [dl "op" 2 2; dl "p" 23 0; dl "b" 26 0; dl "w" 27 1; dl "l" 4 0];
   [dl "op" 2 2; dl "p" 23 0; dl "b" 26 1; dl "w" 27 1; dl "l" 4 0]; [dl "op" 2 2; dl "b" 26 0; dl "l" 4 0];
   [dl "op" 2 2; dl "b" 26 1; dl "l" 4 0];
   [dl "op" 2 3; dl "subop1" 9 0; dl "p" 23 0; dl "b" 26 0; dl "w" 27 1; dl "l" 4 1]].

(** The decode lists of the instructions 82 to 114: name, field id, value. *)
Definition dec_list_3 : list (list ac_dec_list) :=
  [
   [dl "op" 2 3; dl "subop1" 9 0; dl "p" 23 0; dl "b" 26 1; dl "w" 27 1; dl "l" 4 1];
   [dl "op" 2 3; dl "subop1" 9 0; dl "b" 26 0; dl "l" 4 1]; [dl "op" 2 3; dl "subop1" 9 0; dl "b" 26 1; dl "l" 4 1];
   [dl "op" 2 3; dl "subop1" 9 0; dl "p" 23 0; dl "b" 26 0; dl "w" 27 1; dl "l" 4 0];
   [dl "op" 2 3; dl "subop1" 9 0; dl "p" 23 0; dl "b" 26 1; dl "w" 27 1; dl "l" 4 0];
   [dl "op" 2 3; dl "subop1" 9 0; dl "b" 26 0; dl "l" 4 0]; [dl "op" 2 3; dl "subop1" 9 0; dl "b" 26 1; dl "l" 4 0];
   [dl "op" 2 0; dl "subop1" 9 1; dl "subop2" 12 1; dl "ss" 15 0; dl "hh" 28 1; dl "l" 4 1];
   [dl "op" 2 0; dl "subop1" 9 1; dl "subop2" 12 1; dl "ss" 15 1; dl "hh" 28 0; dl "l" 4 1];
   [dl "op" 2 0; dl "subop1" 9 1; dl "subop2" 12 1; dl "ss" 15 1; dl "hh" 28 1; dl "l" 4 1];
   [dl "op" 2 0; dl "subop1" 9 1; dl "subop2" 12 1; dl "ss" 15 0; dl "hh" 28 1; dl "l" 4 0];
   [dl "op" 2 0; dl "subop1" 9 1; dl "subop2" 12 1; dl "ss" 15 1; dl "hh" 28 0; dl "l" 4 0];
   [dl "op" 2 0; dl "subop1" 9 1; dl "subop2" 12 1; dl "ss" 15 1; dl "hh" 28 1; dl "l" 4 0];
   [dl "op" 2 4; dl "l" 4 1]; [dl "op" 2 4; dl "l" 4 0];
   [dl "op" 17 12; dl "s" 4 0; dl "subop1" 11 15; dl "func1" 22 9];
   [dl "op" 17 12; dl "s" 4 1; dl "subop1" 11 15; dl "func1" 22 9; dl "rt" 10 15];
   [dl "op" 2 7; dl "subop1" 9 0; dl "subop3" 23 0]; [dl "op" 2 7; dl "subop1" 9 1; dl "subop3" 23 0; dl "l" 4 0];
   [dl "op" 2 7; dl "subop1" 9 1; dl "subop3" 23 0; dl "l" 4 1]; [dl "op" 2 6; dl "l" 4 1];
   [dl "op" 2 6; dl "l" 4 0];
   [dl "op" 2 0; dl "subop1" 9 1; dl "subop2" 12 0; dl "func1" 3 9; dl "func2" 8 3; dl "s" 4 0; dl "cond" 1 14];
   [dl "op" 2 7; dl "subop3" 23 1];
   [dl "op" 2 0; dl "subop1" 9 1; dl "subop2" 12 0; dl "func1" 3 11; dl "func2" 8 0; dl "s" 4 0];
   [dl "op" 2 0; dl "subop1" 9 0; dl "subop2" 12 0; dl "func11" 33 2; dl "func12" 34 0; dl "rm" 10 0;
    dl "fieldmask" 5 15];
   [dl "op" 2 0; dl "subop1" 9 0; dl "subop2" 12 0; dl "func11" 33 2; dl "func12" 34 2; dl "zero3" 11 0;
    dl "func2" 8 0];
   [dl "op" 2 1; dl "func11" 33 2; dl "func12" 34 2; dl "one2" 6 15];
   [dl "op" 17 11; dl "subop1" 4 0; dl "func1" 32 0; dl "func2" 22 7];
   [dl "sm" 35 16; dl "subop2" 12 1; dl "subop1" 9 0]; [dl "sm" 35 20; dl "subop2" 12 1; dl "subop1" 9 0];
   [dl "sm" 35 22; dl "subop2" 12 1; dl "subop1" 9 0];
   [dl "sm" 35 18; dl "subop2" 12 1; dl "xx" 28 0; dl "subop1" 9 0]].

(** The decode lists of the instructions 115 to 115: name, field id, value. *)
Definition dec_list_4 : list (list ac_dec_list) :=
  [
   [dl "sm" 35 18; dl "subop2" 12 1; dl "xx" 28 1; dl "subop1" 9 0]].

Definition dec_list : list (list ac_dec_list) := dec_list_1 ++ dec_list_2 ++ dec_list_3 ++ dec_list_4.

(** The instructions from number 1: name, mnemonic, assembly text and format. *)
Definition instruction_rows : list (string * string * string * string) :=
  [
   ("and1", "and%[cond]%sf", "and%[cond]%sf %reg, %reg, %reg", "Type_DPI1");
   ("eor1", "eor%[cond]%sf", "eor%[cond]%sf %reg, %reg, %reg", "Type_DPI1");
   ("sub1", "sub%[cond]%sf", "sub%[cond]%sf %reg, %reg, %reg", "Type_DPI1");
   ("rsb1", "rsb%[cond]%sf", "rsb%[cond]%sf %reg, %reg, %reg", "Type_DPI1");
   ("add1", "add%[cond]%sf", "add%[cond]%sf %reg, %reg, %reg", "Type_DPI1");
   ("adc1", "adc%[cond]%sf", "adc%[cond]%sf %reg, %reg, %reg", "Type_DPI1");
   ("sbc1", "sbc%[cond]%sf", "sbc%[cond]%sf %reg, %reg, %reg", "Type_DPI1");
   ("rsc1", "rsc%[cond]%sf", "rsc%[cond]%sf %reg, %reg, %reg", "Type_DPI1");
   ("tst1", "tst%[cond]", "tst%[cond] %reg, %reg", "Type_DPI1");
   ("teq1", "teq%[cond]", "teq%[cond] %reg, %reg", "Type_DPI1");
   ("cmp1", "cmp%[cond]", "cmp%[cond] %reg, %reg", "Type_DPI1");
   ("cmn1", "cmn%[cond]", "cmn%[cond] %reg, %reg", "Type_DPI1");
   ("orr1", "orr%[cond]%sf", "orr%[cond]%sf %reg, %reg, %reg", "Type_DPI1");
   ("mov1", "mov%[cond]%sf", "mov%[cond]%sf %reg, %reg", "Type_DPI1");
   ("bic1", "bic%[cond]%sf", "bic%[cond]%sf %reg, %reg, %reg", "Type_DPI1");
   ("mvn1", "mvn%[cond]%sf", "mvn%[cond]%sf %reg, %reg", "Type_DPI1");
   ("and2", "and%[cond]%sf", "and%[cond]%sf %reg, %reg, %reg, %shift %reg", "Type_DPI2");
   ("eor2", "eor%[cond]%sf", "eor%[cond]%sf %reg, %reg, %reg, %shift %reg", "Type_DPI2");
   ("sub2", "sub%[cond]%sf", "sub%[cond]%sf %reg, %reg, %reg, %shift %reg", "Type_DPI2");
   ("rsb2", "rsb%[cond]%sf", "rsb%[cond]%sf %reg, %reg, %reg, %shift %reg", "Type_DPI2");
   ("add2", "add%[cond]%sf", "add%[cond]%sf %reg, %reg, %reg, %shift %reg", "Type_DPI2");
   ("adc2", "adc%[cond]%sf", "adc%[cond]%sf %reg, %reg, %reg, %shift %reg", "Type_DPI2");
   ("sbc2", "sbc%[cond]%sf", "sbc%[cond]%sf %reg, %reg, %reg, %shift %reg", "Type_DPI2");
   ("rsc2", "rsc%[cond]%sf", "rsc%[cond]%sf %reg, %reg, %reg, %shift %reg", "Type_DPI2");
   ("tst2", "tst%[cond]", "tst%[cond] %reg, %reg, %shift %reg", "Type_DPI2");
   ("teq2", "teq%[cond]", "teq%[cond] %reg, %reg, %shift %reg", "Type_DPI2");
   ("cmp2", "cmp%[cond]", "cmp%[cond] %reg, %reg, %shift %reg", "Type_DPI2");
   ("cmn2", "cmn%[cond]", "cmn%[cond] %reg, %reg, %shift %reg", "Type_DPI2");
   ("orr2", "orr%[cond]%sf", "orr%[cond]%sf %reg, %reg, %reg, %shift %reg", "Type_DPI2");
   ("mov2", "mov%[cond]%sf", "mov%[cond]%sf %reg, %reg, %shift %reg", "Type_DPI2");
   ("bic2", "bic%[cond]%sf", "bic%[cond]%sf %reg, %reg, %reg, %shift %reg", "Type_DPI2");
   ("mvn2", "mvn%[cond]%sf", "mvn%[cond]%sf %reg, %reg, %shift %reg", "Type_DPI2");
   ("and3", "and%[cond]%sf", "and%[cond]%sf %reg, %reg, #%imm(aimm)", "Type_DPI3");
   ("eor3", "eor%[cond]%sf", "eor%[cond]%sf %reg, %reg, #%imm(aimm)", "Type_DPI3");
   ("sub3", "sub%[cond]%sf", "sub%[cond]%sf %reg, %reg, #%imm(aimm)", "Type_DPI3");
   ("rsb3", "rsb%[cond]%sf", "rsb%[cond]%sf %reg, %reg, #%imm(aimm)", "Type_DPI3");
   ("add3", "add%[cond]%sf", "add%[cond]%sf %reg, %reg, #%imm(aimm)", "Type_DPI3");
   ("adc3", "adc%[cond]%sf", "adc%[cond]%sf %reg, %reg, #%imm(aimm)", "Type_DPI3");
   ("sbc3", "sbc%[cond]%sf", "sbc%[cond]%sf %reg, %reg, #%imm(aimm)", "Type_DPI3");
   ("rsc3", "rsc%[cond]%sf", "rsc%[cond]%sf %reg, %reg, #%imm(aimm)", "Type_DPI3");
   ("tst3", "tst%[cond]", "tst%[cond] %reg, #%imm(aimm)", "Type_DPI3");
   ("teq3", "teq%[cond]", "teq%[cond] %reg, #%imm(aimm)", "Type_DPI3");
   ("cmp3", "cmp%[cond]", "cmp%[cond] %reg, #%imm(aimm)", "Type_DPI3");
   ("cmn3", "cmn%[cond]", "cmn%[cond] %reg, #%imm(aimm)", "Type_DPI3");
   ("orr3", "orr%[cond]%sf", "orr%[cond]%sf %reg, %reg, #%imm(aimm)", "Type_DPI3");
   ("mov3", "mov%[cond]%sf", "mov%[cond]%sf %reg, #%imm(aimm)", "Type_DPI3");
   ("bic3", "bic%[cond]%sf", "bic%[cond]%sf %reg, %reg, #%imm(aimm)", "Type_DPI3");
   ("mvn3", "mvn%[cond]%sf", "mvn%[cond]%sf %reg, #%imm(aimm)", "Type_DPI3");
   ("mov4", "movw%[cond]", "movw%[cond] %reg, #%imm", "Type_DPI4");
   ("movt", "movt%[cond]", "movt%[cond] %reg, #%imm", "Type_DPI4");
   ("nop", "nop%[cond]", "nop%[cond]", "Type_DPI4");
   ("pkh", "pkhbt%[cond]", "pkhbt%[cond] %reg, %reg, %reg, LSL #%imm", "Type_DPI5");
   ("bfi", "bfi%[cond],", "bfi%[cond], %reg, %reg, #%imm, #%imm(bdist)", "Type_BTM1");
   ("ubfx", "ubfx%[cond]", "ubfx%[cond] %reg, %reg, #%imm, #%imm(subimm)", "Type_MED1");
   ("sbfx", "(null)", "(null)", "Type_MED1");
   ("uxtb", "(null)", "(null)", "Type_PCK1");
   ("uxth", "(null)", "(null)", "Type_PCK1");
   ("sxth", "(null)", "(null)", "Type_PCK1");
   ("rev", "(null)", "(null)", "Type_PCK1");
   ("blx1", "blx", "blx %exp(bximm)", "Type_BBLT");
   ("b", "b%[cond]", "b%[cond] %exp(bimm)", "Type_BBL");
   ("bx", "bx%[cond]", "bx%[cond] %reg", "Type_MBXBLX");
   ("blx2", "blx%[cond]", "blx%[cond] %reg", "Type_MBXBLX");
   ("swp", "swp%[cond]", "swp%[cond] %reg, %reg, [%reg]", "Type_MULT1");
   ("swpb", "swp%[cond]b", "swp%[cond]b %reg, %reg, [%reg]", "Type_MULT1");
   ("mla", "mla%[cond]%sf", "mla%[cond]%sf %reg, %reg, %reg, %reg", "Type_MULT1");
   ("mul", "mul%[cond]%sf", "mul%[cond]%sf %reg, %reg, %reg", "Type_MULT1");
   ("mls", "mls%[cond]", "mls%[cond] %reg, %reg, %reg, %reg", "Type_MULT1");
   ("smlal", "smlal%[cond]%sf", "smlal%[cond]%sf %reg, %reg, %reg, %reg", "Type_MULT2");
   ("smull", "smull%[cond]%sf", "smull%[cond]%sf %reg, %reg, %reg, %reg", "Type_MULT2");
   ("umlal", "umlal%[cond]%sf", "umlal%[cond]%sf %reg, %reg, %reg, %reg", "Type_MULT2");
   ("umull", "umull%[cond]%sf", "umull%[cond]%sf %reg, %reg, %reg, %reg", "Type_MULT2");
   ("ldrt1", "ldr%[cond]t", "ldr%[cond]t %reg, [%reg]", "Type_LSI");
   ("ldrbt1", "ldr%[cond]bt", "ldr%[cond]bt %reg, [%reg]", "Type_LSI");
   ("ldr1", "ldr%[cond]", "ldr%[cond] %reg, [%reg]", "Type_LSI");
   ("ldrb1", "ldr%[cond]b", "ldr%[cond]b %reg, [%reg]", "Type_LSI");
   ("strt1", "str%[cond]t", "str%[cond]t %reg, [%reg]", "Type_LSI");
   ("strbt1", "str%[cond]bt", "str%[cond]bt %reg, [%reg]", "Type_LSI");
   ("str1", "str%[cond]", "str%[cond] %reg, [%reg]", "Type_LSI");
   ("strb1", "str%[cond]b", "str%[cond]b %reg, [%reg]", "Type_LSI");
   ("ldrt2", "ldr%[cond]t", "ldr%[cond]t %reg, [%reg], +%reg", "Type_LSR");
   ("ldrbt2", "ldr%[cond]bt", "ldr%[cond]bt %reg, [%reg], +%reg", "Type_LSR");
   ("ldr2", "ldr%[cond]", "ldr%[cond] %reg, [%reg, +%reg]", "Type_LSR");
   ("ldrb2", "ldr%[cond]b", "ldr%[cond]b %reg, [%reg, +%reg]", "Type_LSR");
   ("strt2", "str%[cond]t", "str%[cond]t %reg, [%reg], +%reg", "Type_LSR");
   ("strbt2", "str%[cond]bt", "str%[cond]bt %reg, [%reg], +%reg", "Type_LSR");
   ("str2", "str%[cond]", "str%[cond] %reg, [%reg, +%reg]", "Type_LSR");
   ("strb2", "str%[cond]b", "str%[cond]b %reg, [%reg, +%reg]", "Type_LSR");
   ("ldrh", "ldr%[cond]h", "ldr%[cond]h %reg, [%reg]", "Type_LSE");
   ("ldrsb", "ldr%[cond]sb", "ldr%[cond]sb %reg, [%reg]", "Type_LSE");
   ("ldrsh", "ldr%[cond]sh", "ldr%[cond]sh %reg, [%reg]", "Type_LSE");
   ("strh", "str%[cond]h", "str%[cond]h %reg, [%reg]", "Type_LSE");
   ("ldrd", "(null)", "(null)", "Type_LSE");
   ("strd", "(null)", "(null)", "Type_LSE");
   ("ldm", "ldm%cond%lstype", "ldm%cond%lstype %reg, {%reg...(dorlist)}", "Type_LSM");
   ("stm", "stm%cond%sstype", "stm%cond%sstype %reg, {%reg...(dorlist)}", "Type_LSM");
   ("strex", "(null)", "(null)", "Type_MEMEX");
   ("ldrex", "(null)", "(null)", "Type_MEMEX");
   ("cdp", "(null)", "(null)", "Type_CDP");
   ("mcr", "mcr%[cond]", "mcr%[cond] %coproc, #%imm, %reg, %coreg, %coreg", "Type_CRT");
   ("mrc", "mrc%[cond]", "mrc%[cond] %coproc, #%imm, %reg, %coreg, %coreg", "Type_CRT");
   ("ldc", "(null)", "(null)", "Type_CLS");
   ("stc", "(null)", "(null)", "Type_CLS");
   ("bkpt", "bkpt", "bkpt %imm", "Type_MBKPT");
   ("swi", "swi%[cond]", "swi%[cond] %imm", "Type_MSWI");
   ("clz", "clz%[cond]", "clz%[cond] %reg, %reg", "Type_MCLZ");
   ("mrs", "mrs%[cond]", "mrs%[cond] %reg, %psr", "Type_MMSR1");
   ("msr1", "(null)", "(null)", "Type_MMSR1");
   ("msr2", "(null)", "(null)", "Type_MMSR2");
   ("smc", "smc%[cond]", "smc%[cond] #%imm", "Type_MSMC");
   ("dsmla", "(null)", "(null)", "Type_DSPSM");
   ("dsmlal", "(null)", "(null)", "Type_DSPSM");
   ("dsmul", "(null)", "(null)", "Type_DSPSM");
   ("dsmlaw", "(null)", "(null)", "Type_DSPSM");
   ("dsmulw", "(null)", "(null)", "Type_DSPSM")].

Definition instructions : list ac_dec_instr :=
  imap (fun i (p : string * string * string * string * list ac_dec_list) =>
          let '(name, mnemonic, asm, format, l) := p in
          MkInstr name 4 (Some mnemonic) (Some asm) format (Z.of_nat i + 1) 1 1 1 l None)
    (zip instruction_rows dec_list).

(** [instr_format_table]: the format of an instruction by its number. *)
Definition instr_format_table : list Z :=
  [
   0; 0; 0; 0; 0; 0; 0; 0; 0; 0; 0; 0; 0; 0; 0; 0; 0; 1; 1; 1; 1; 1; 1; 1; 1; 1; 1; 1; 1; 1; 1; 1; 1; 2; 2; 2; 2; 2;
   2; 2; 2; 2; 2; 2; 2; 2; 2; 2; 2; 3; 3; 3; 4; 5; 7; 7; 6; 6; 6; 6; 9; 8; 10; 10; 11; 11; 11; 11; 11; 12; 12; 12;
   12; 13; 13; 13; 13; 13; 13; 13; 13; 14; 14; 14; 14; 14; 14; 14; 14; 15; 15; 15; 15; 15; 15; 16; 16; 17; 17; 18;
   19; 19; 20; 20; 21; 22; 24; 25; 25; 26; 23; 27; 27; 27; 27; 27].

(** The members of the formats 0 to 9 in the order of their assignments: name, width and entry of [ins_cache]. *)
Definition members_1 : list (list (string * Z * Z)) :=
  [
   [("cond", 4, 1); ("op", 3, 2); ("func1", 4, 3); ("s", 1, 4); ("rn", 4, 5); ("rd", 4, 6); ("shiftamount", 5, 7);
    ("shift", 2, 8); ("subop1", 1, 9); ("rm", 4, 10)];
   [("cond", 4, 1); ("op", 3, 2); ("func1", 4, 3); ("s", 1, 4); ("rn", 4, 5); ("rd", 4, 6); ("rs", 4, 11);
    ("subop2", 1, 12); ("shift", 2, 8); ("subop1", 1, 9); ("rm", 4, 10)];
   [("cond", 4, 1); ("op", 3, 2); ("func1", 4, 3); ("s", 1, 4); ("rn", 4, 5); ("rd", 4, 6); ("rotate", 4, 11);
    ("imm8", 8, 13)];
   [("cond", 4, 1); ("op", 3, 2); ("func1", 4, 3); ("s", 1, 4); ("imm4", 4, 5); ("rd", 4, 6); ("imm12", 12, 14)];
   [("cond", 4, 1); ("op", 3, 2); ("func1", 4, 3); ("s", 1, 4); ("rn", 4, 5); ("rd", 4, 6); ("shiftamount", 5, 7);
    ("tb", 1, 15); ("subop1", 2, 16); ("rm", 4, 10)];
   [("cond", 4, 1); ("op", 7, 17); ("msb", 5, 18); ("rd", 4, 6); ("lsb", 5, 7); ("func1", 3, 19); ("rn", 4, 10)];
   [("cond", 4, 1); ("op1", 4, 20); ("func1", 4, 21); ("rn", 4, 5); ("rd", 4, 6); ("rotate", 4, 11);
    ("func2", 4, 22); ("rm", 4, 10)];
   [("cond", 4, 1); ("op", 3, 2); ("op1", 4, 3); ("widthm1", 5, 18); ("rd", 4, 6); ("lsb", 5, 7); ("op2", 3, 19);
    ("rn", 4, 10)];
   [("cond", 4, 1); ("op", 3, 2); ("h", 1, 23); ("offset", 24, 24)];
   [("cond", 4, 1); ("op", 3, 2); ("h", 1, 23); ("offset", 24, 24)]].

(** The members of the formats 10 to 17 in the order of their assignments: name, width and entry of [ins_cache]. *)
Definition members_2 : list (list (string * Z * Z)) :=
  [
   [("cond", 4, 1); ("op", 3, 2); ("func1", 4, 3); ("s", 1, 4); ("one1", 4, 5); ("one2", 4, 6); ("one3", 4, 11);
    ("subop2", 1, 12); ("func2", 2, 8); ("subop1", 1, 9); ("rm", 4, 10)];
   [("cond", 4, 1); ("op", 3, 2); ("func1", 4, 3); ("s", 1, 4); ("rn", 4, 5); ("rd", 4, 6); ("rs", 4, 11);
    ("subop2", 1, 12); ("func2", 2, 8); ("subop1", 1, 9); ("rm", 4, 10)];
   [("cond", 4, 1); ("op", 3, 2); ("func1", 4, 3); ("s", 1, 4); ("rdhi", 4, 5); ("rdlo", 4, 6); ("rs", 4, 11);
    ("subop2", 1, 12); ("func2", 2, 8); ("subop1", 1, 9); ("rm", 4, 10)];
   [("cond", 4, 1); ("op", 3, 2); ("p", 1, 23); ("u", 1, 25); ("b", 1, 26); ("w", 1, 27); ("l", 1, 4); ("rn", 4, 5);
    ("rd", 4, 6); ("imm12", 12, 14)];
   [("cond", 4, 1); ("op", 3, 2); ("p", 1, 23); ("u", 1, 25); ("b", 1, 26); ("w", 1, 27); ("l", 1, 4); ("rn", 4, 5);
    ("rd", 4, 6); ("shiftamount", 5, 7); ("shift", 2, 8); ("subop1", 1, 9); ("rm", 4, 10)];
   [("cond", 4, 1); ("op", 3, 2); ("p", 1, 23); ("u", 1, 25); ("i", 1, 26); ("w", 1, 27); ("l", 1, 4); ("rn", 4, 5);
    ("rd", 4, 6); ("addr1", 4, 11); ("subop2", 1, 12); ("ss", 1, 15); ("hh", 1, 28); ("subop1", 1, 9);
    ("addr2", 4, 10)];
   [("cond", 4, 1); ("op", 3, 2); ("p", 1, 23); ("u", 1, 25); ("r", 1, 26); ("w", 1, 27); ("l", 1, 4); ("rn", 4, 5);
    ("rlist", 16, 29)];
   [("cond", 4, 1); ("op", 7, 17); ("s", 1, 4); ("rn", 4, 5); ("rd", 4, 6); ("subop1", 4, 11); ("func1", 4, 22);
    ("rt", 4, 10)]].

(** The members of the formats 18 to 27 in the order of their assignments: name, width and entry of [ins_cache]. *)
Definition members_3 : list (list (string * Z * Z)) :=
  [
   [("cond", 4, 1); ("op", 3, 2); ("subop3", 1, 23); ("funcc1", 4, 21); ("crn", 4, 5); ("crd", 4, 6);
    ("cp_num", 4, 11); ("funcc3", 3, 30); ("subop1", 1, 9); ("crm", 4, 10)];
   [("cond", 4, 1); ("op", 3, 2); ("subop3", 1, 23); ("funcc2", 3, 31); ("l", 1, 4); ("crn", 4, 5); ("rd", 4, 6);
    ("cp_num", 4, 11); ("funcc3", 3, 30); ("subop1", 1, 9); ("crm", 4, 10)];
   [("cond", 4, 1); ("op", 3, 2); ("p", 1, 23); ("u", 1, 25); ("n", 1, 26); ("w", 1, 27); ("l", 1, 4); ("rn", 4, 5);
    ("crd", 4, 6); ("cp_num", 4, 11); ("imm8", 8, 13)];
   [("cond", 4, 1); ("op", 3, 2); ("func1", 4, 3); ("s", 1, 4); ("immediate", 12, 32); ("subop2", 1, 12);
    ("func2", 2, 8); ("subop1", 1, 9); ("rm", 4, 10)];
   [("cond", 4, 1); ("op", 3, 2); ("subop3", 1, 23); ("swinumber", 24, 24)];
   [("cond", 4, 1); ("op", 7, 17); ("subop1", 1, 4); ("func1", 12, 32); ("func2", 4, 22); ("imm4", 4, 10)];
   [("cond", 4, 1); ("op", 3, 2); ("func1", 4, 3); ("s", 1, 4); ("one1", 4, 5); ("rd", 4, 6); ("one3", 4, 11);
    ("subop2", 1, 12); ("func2", 2, 8); ("subop1", 1, 9); ("rm", 4, 10)];
   [("cond", 4, 1); ("op", 3, 2); ("func11", 2, 33); ("r", 1, 26); ("func12", 2, 34); ("fieldmask", 4, 5);
    ("rd", 4, 6); ("zero3", 4, 11); ("subop2", 1, 12); ("func2", 2, 8); ("subop1", 1, 9); ("rm", 4, 10)];
   [("cond", 4, 1); ("op", 3, 2); ("func11", 2, 33); ("r", 1, 26); ("func12", 2, 34); ("fieldmask", 4, 5);
    ("one2", 4, 6); ("rotate", 4, 11); ("imm8", 8, 13)];
   [("cond", 4, 1); ("sm", 8, 35); ("drd", 4, 5); ("drn", 4, 6); ("rs", 4, 11); ("subop2", 1, 12); ("yy", 1, 15);
    ("xx", 1, 28); ("subop1", 1, 9); ("rm", 4, 10)]].

Definition members : list (list (string * Z * Z)) := members_1 ++ members_2 ++ members_3.

(** ** The cache of decoded instructions *)

(** [instr_dec]: the number of the instruction and the members of its format. *)
Definition instr_dec : Type := Z * list Z.

Record cache_item := MkItem { valid : bool; instr_p : instr_dec; instr_bits : Z }.

Definition DEC_CACHE_MAGNITUDE : Z := 21.
Definition hash (address : Z) : Z := Z.land (Z.shiftr address 2) (Z.shiftl 1 DEC_CACHE_MAGNITUDE - 1).

(** [vector] by its index. *)
Definition ac_decoded_cache : Type := Z -> cache_item.

Definition fetch_item (address bits : Z) (vector : ac_decoded_cache) : option instr_dec :=
  let cell := vector (hash address) in
  if negb (valid cell) then None else if negb (instr_bits cell =? bits) then None else Some (instr_p cell).

(** [insert_item] and the assignments through the pointer it returns. *)
Definition insert_item (address bits : Z) (d : instr_dec) (vector : ac_decoded_cache) : ac_decoded_cache := fun h =>
  if h =? hash address then MkItem true d bits else vector h.

Definition flush_item (address : Z) (vector : ac_decoded_cache) : bool * ac_decoded_cache :=
  let h := hash address in
  let cell := vector h in
  if negb (valid cell) then (false, vector)
  else (true, fun k => if k =? h then MkItem false (instr_p cell) (instr_bits cell) else vector k).

(** ** The unit *)

(** [ins_cache]: the static vector [Decode] returns, as the last call left it. *)
Record decode_unit := MkUnit { decoder : ac_decoder_full; ins_cache : list Z; dec_cache : ac_decoded_cache }.

(** The constructor; the cells of the cache and the vector are not initialised. *)
Definition arm_decode_unit (garbage : list Z) (vector : ac_decoded_cache) : exec decode_unit :=
  full ← rt_CreateDecoder formats instructions; Ret (MkUnit full garbage vector).

(** The switch over the formats.  [None]: an index outside a table. *)
Definition assign_members (ins_cache : list Z) : option instr_dec :=
  id ← ins_cache !! 0%nat;
  fmt ← instr_format_table !! Z.to_nat id;
  match members !! Z.to_nat fmt with
  | Some ms =>
      vals ← mapM (fun m : string * Z * Z => let '(_, width, i) := m in uwrap width <$> ins_cache !! Z.to_nat i) ms;
      Some (id, vals)
  | None => Some (0, [])
  end.

(** A member of a decoded instruction by its name; only members of the format
    of the instruction are read. *)
Fixpoint member_of (ms : list (string * Z * Z)) (vals : list Z) (name : string) : Z :=
  match ms, vals with
  | (n, _, _) :: ms, v :: vals => if streq n name then v else member_of ms vals name
  | _, _ => 0
  end.

Definition member (d : instr_dec) (name : string) : Z :=
  match instr_format_table !! Z.to_nat (fst d) with
  | Some fmt => member_of (default [] (members !! Z.to_nat fmt)) (snd d) name
  | None => 0
  end.

(** The status of a process that dereferences NULL, which is what [decode] does
    with a word no instruction matches. *)
Definition CRASHED : Z := 139.

Section Unit.
Context {mem : Type} `{!MemPort mem}.
Notation machine := (core * mem)%type.

(** A word that is not in the cache. *)
Definition decode_miss (decode_pc bits : Z) (m : machine) (u : decode_unit) : flow machine (instr_dec * machine * decode_unit) :=
  match rt_Decode (GetBits bits) (decoder u) (ins_cache u) with
  | Ret (Some out) =>
      match assign_members out with
      | Some d => Next (d, m, MkUnit (decoder u) out (insert_item decode_pc bits d (dec_cache u)))
      | None => Stop CRASHED
      end
  | _ => Stop CRASHED
  end.

Definition decode (decode_pc : Z) (m : machine) (u : decode_unit) : flow machine (instr_dec * machine * decode_unit) :=
  '(bits, m) ← MEM_read decode_pc m;
  match fetch_item decode_pc bits (dec_cache u) with
  | Some d => Next (d, m, u)
  | None => decode_miss decode_pc bits m u
  end.
End Unit.

(** ** Decoding without a cache *)

Definition arm_decoder : ac_decoder_full :=
  match rt_CreateDecoder formats instructions with Ret full => full | _ => MkFull DNull [] [] [] 0 end.

Definition decoded (bits : Z) : option instr_dec :=
  match rt_Decode (GetBits bits) arm_decoder (replicate (Z.to_nat (full_nFields arm_decoder)) 0) with
  | Ret (Some out) => assign_members out
  | _ => None
  end.

(** The decode unit the loop of the core is given. *)
Definition plain_decode {mem : Type} `{!MemPort mem} (decode_pc : Z) (m : core * mem)
    : flow (core * mem) (Z * (string -> Z) * (core * mem)) :=
  '(bits, m) ← MEM_read decode_pc m;
  match decoded bits with
  | Some d => Next (fst d, member d, m)
  | None => Stop CRASHED
  end.

(** [add] of an immediate, [ldr] with writeback, a branch, and a word of the
    undefined space. *)
Example decode_examples :
  map (fun w => option_map fst (decoded w)) [0xe2810004; 0xe5b12008; 0x1afffffc; 0xe7f000f0] =
    [Some 37; Some 75; Some 61; None] /\
  option_map (fun d => map (member d) ["cond"; "s"; "rn"; "rd"; "rotate"; "imm8"]) (decoded 0xe2810004) =
    Some [14; 0; 1; 0; 0; 4].
Proof. split; vm_compute; reflexivity. Qed.
