(* ===== verification/ArmDecodeOk.v ===== *)
(** * The decode unit of the ARM model: what a word decodes to

    The cacheless decoder gives the instruction whose decode list the bits of
    the word satisfy, with the bits of each field of its format; the unit with
    its cache gives the same for every word, whatever the cache holds of other
    words; and the tables are ambiguous for ten known pairs only. *)
From S2P Require Import Prelude DecTypes AcDecoder AcDecoderOk AcDecoderRt ArmCore ArmCoreOk ArmFormats ArmData ArmMem ArmIsa ArmDecode.

(** ** The operand vector *)

(** Two runs that started with vectors of the same length. *)
Definition same_search (r1 r2 : exec search_result) : Prop :=
  match r1, r2 with
  | Ret (Found k1 c1 o1), Ret (Found k2 c2 o2) => k1 = k2 /\ c1 = c2 /\ length o1 = length o2
  | Ret NotFound, Ret NotFound => True
  | Crash, Crash => True
  | _, _ => False
  end.

Lemma set_operand_length f1 f2 id v : length f1 = length f2 ->
  match set_operand f1 id v, set_operand f2 id v with
  | Ret o1, Ret o2 => length o1 = length o2
  | Crash, Crash => True
  | _, _ => False
  end.
Proof. intros H. unfold set_operand. rewrite H. destruct (_ && _); [|exact I]. rewrite !length_insert. exact H. Qed.

Lemma backtrack_no_exit d field below s : backtrack d field below <> Exit s.
Proof.
  revert d field. induction below as [|[|c f sub next] below IH]; intros d field; destruct d; cbn [backtrack]; try discriminate.
  destruct (keep_field next field) as [x|x|] eqn:E; cbn [mbind exec_bind]; try discriminate; [apply IH|].
  destruct next; cbn in E; [discriminate|]. destruct field as [[]|]; discriminate.
Qed.

Lemma search_vector G fs fuel : forall d field below f1 f2, length f1 = length f2 ->
  same_search (search G fs fuel d field below f1) (search G fs fuel d field below f2).
Proof.
  induction fuel as [|fuel IH]; intros d field below f1 f2 Hl; [exact I|]. cbn [search].
  destruct d as [|check found sub next]; [exact I|].
  destruct (match field with Some c => Ret c | None => f ← of_option (FindDecField fs (dl_id check)); Ret (f, field_bits G f) end)
    as [[f v]|s|] eqn:E; cbn [mbind exec_bind].
  2:{ destruct field; [discriminate|]. destruct (FindDecField fs (dl_id check)); discriminate. }
  2:exact I.
  destruct (v =? dl_value check).
  - pose proof (set_operand_length f1 f2 (dl_id check) v Hl) as Hs. destruct found as [k|].
    + destruct (set_operand f1 _ _), (set_operand f2 _ _); cbn [mbind exec_bind]; try exact Hs; try tauto.
      split; [reflexivity|]. split; [reflexivity|exact Hs].
    + destruct (S (length below) <? MAX_DECODER_DEPTH)%nat; [|exact I].
      destruct (set_operand f1 _ _), (set_operand f2 _ _); cbn [mbind exec_bind]; try tauto.
      destruct (backtrack sub None _) as [[[d2 c2] b2]|s|] eqn:Eb; cbn [mbind exec_bind]; [apply IH, Hs| |exact I].
      destruct (backtrack_no_exit _ _ _ _ Eb).
  - destruct (keep_field next (Some (f, v))) as [c|s|] eqn:Ek; cbn [mbind exec_bind]; [| |exact I].
    + destruct (backtrack next c below) as [[[d2 c2] b2]|s|] eqn:Eb; cbn [mbind exec_bind]; [apply IH, Hl| |exact I].
      destruct (backtrack_no_exit _ _ _ _ Eb).
    + destruct next; discriminate.
Qed.

(** The instruction found does not depend on what the vector held. *)
Lemma Decode_head G full f1 f2 o1 o2 : length f1 = length f2 ->
  rt_Decode G full f1 = Ret (Some o1) -> rt_Decode G full f2 = Ret (Some o2) -> o1 !! 0%nat = o2 !! 0%nat.
Proof.
  intros Hl. unfold rt_Decode, Decode.
  pose proof (search_vector G (full_fields full) (S (search_size (full_decoder full))) (full_decoder full) None [] f1 f2 Hl) as Hs.
  destruct (search _ _ _ _ _ _ f1) as [[k1 c1 v1|]|s|]; cbn [mbind exec_bind]; try discriminate.
  destruct (search _ _ _ _ _ _ f2) as [[k2 c2 v2|]|s|]; cbn [mbind exec_bind]; try discriminate.
  destruct Hs as (<- & <- & Hv). destruct (full_instructions full !! k1) as [i|]; [|discriminate]. cbn [of_option mbind exec_bind].
  destruct (extract_operands _ _ _ v1) as [w1|s|]; try discriminate. destruct (extract_operands _ _ _ v2) as [w2|s|]; try discriminate.
  cbn [mbind exec_bind]. unfold set_operand. cbn [Z.leb Z.compare andb].
  destruct (0 <? Z.of_nat (length w1)) eqn:E1; [|discriminate]. destruct (0 <? Z.of_nat (length w2)) eqn:E2; [|discriminate].
  cbn [mbind exec_bind]. intros [= <-] [= <-]. rewrite !list_lookup_insert_eq by lia. reflexivity.
Qed.

(** ** The tables *)

(** The bits of a field in a word. *)
Definition bits_of (w : Z) (f : ac_dec_field) : Z := (w / 2 ^ (f_first_bit f - f_size f + 1)) mod 2 ^ f_size f.

(** The word satisfies the decode list of the instruction. *)
Definition matches_word (w : Z) (i : ac_dec_instr) : Prop :=
  exists fmt, FindFormat formats (i_format i) = Ret fmt /\
    Forall (fun l => exists f, list_first (fun f => streq (f_name f) (dl_name l)) (fmt_fields fmt) = Some f /\
                               bits_of w f = dl_value l) (i_dec_list i).

Definition field_in_word (f : ac_dec_field) : bool :=
  (1 <=? f_size f) && (f_size f <=? 24) && (f_size f <=? f_first_bit f + 1) && (f_first_bit f <=? 31) && (f_sign f =? 0).

Definition row_of (f : ac_dec_field) : string * Z * Z := (f_name f, f_size f, f_id f).

(** What the instruction needs of the tables. *)
Definition instr_checked (i : ac_dec_instr) : bool :=
  (length (i_dec_list i) <=? MAX_DECODER_DEPTH)%nat && (0 <? i_id i) && (i_id i <? 116) &&
  match FindFormat formats (i_format i), instr_format_table !! Z.to_nat (i_id i) with
  | Ret fmt, Some k =>
      bool_decide (members !! Z.to_nat k = Some (row_of <$> fmt_fields fmt)) &&
      forallb (fun l => match list_first (fun f => streq (f_name f) (dl_name l)) (fmt_fields fmt) with
                        | Some f => true | None => false end) (i_dec_list i)
  | _, _ => false
  end.

Lemma tables_checked :
  CreateDecoder formats instructions = Ret arm_decoder /\ full_formats arm_decoder = formats /\
  full_nFields arm_decoder = 259 /\ i_id <$> instructions = seqZ 1 115 /\
  forallb instr_checked instructions = true /\ forallb (fun f => forallb field_in_word (fmt_fields f)) formats = true.
Proof. vm_compute. repeat split. Qed.

Lemma instr_in_table i : i ∈ instructions ->
  0 < i_id i < 116 /\ exists fmt k, FindFormat formats (i_format i) = Ret fmt /\
    instr_format_table !! Z.to_nat (i_id i) = Some k /\ members !! Z.to_nat k = Some (row_of <$> fmt_fields fmt) /\
    decodable formats i.
Proof.
  intros Hi. destruct tables_checked as (_ & _ & _ & _ & Hc & _). rewrite forallb_forall in Hc.
  specialize (Hc i (proj1 (list_elem_of_In _ _) Hi)). unfold instr_checked in Hc.
  apply andb_true_iff in Hc as [Hc Hm]. apply andb_true_iff in Hc as [Hc H2]. apply andb_true_iff in Hc as [Hl H1].
  split; [lia|]. destruct (FindFormat formats (i_format i)) as [fmt|s|] eqn:Ef; try discriminate.
  destruct (instr_format_table !! _) as [k|]; [|discriminate]. apply andb_true_iff in Hm as [Hr Hd].
  exists fmt, k. split; [reflexivity|]. split; [reflexivity|]. split; [exact (bool_decide_eq_true_1 _ Hr)|].
  split; [apply Nat.leb_le, Hl|]. intros fmt' Ef'. assert (fmt' = fmt) as -> by congruence.
  apply Forall_forall. intros l Hin. rewrite forallb_forall in Hd. specialize (Hd l (proj1 (list_elem_of_In _ _) Hin)).
  destruct (list_first _ _) as [f|]; [exists f; reflexivity|discriminate].
Qed.

Lemma field_checked name fmt f : FindFormat formats name = Ret fmt -> f ∈ fmt_fields fmt -> field_in_word f = true.
Proof.
  intros Hf Hin. destruct tables_checked as (_ & _ & _ & _ & _ & Hc). rewrite forallb_forall in Hc.
  destruct (FindFormat_in _ _ _ Hf) as [Hfmt _]. specialize (Hc fmt (proj1 (list_elem_of_In _ _) Hfmt)).
  rewrite forallb_forall in Hc. apply Hc, list_elem_of_In, Hin.
Qed.

(** ** Fields as bits *)

Lemma GetBits_bits w f : 0 <= w < 2 ^ 32 -> field_in_word f = true ->
  GetBits w (f_first_bit f) (f_size f) (f_sign f) = bits_of w f /\ 0 <= bits_of w f < 2 ^ 24.
Proof.
  intros Hw Hf. unfold field_in_word in Hf. repeat (apply andb_true_iff in Hf as [Hf ?]).
  assert (Hs : 1 <= f_size f <= 24) by lia. assert (Hb : 0 <= f_first_bit f - f_size f + 1 <= 31) by lia.
  unfold GetBits, bits_of. replace (f_sign f =? 0) with true by lia. cbn [negb andb].
  replace (f_first_bit f - (f_size f - 1)) with (f_first_bit f - f_size f + 1) by lia.
  rewrite (Z.mod_small (f_first_bit f - f_size f + 1)) by lia.
  replace ((64 - f_size f) mod 32) with (32 - f_size f) by (Z.div_mod_to_equations; lia).
  rewrite Z.shiftr_div_pow2 by lia.
  replace (Z.shiftr 0xFFFFFFFF (32 - f_size f)) with (Z.ones (f_size f)).
  2:{ change 0xFFFFFFFF with (Z.ones 32). rewrite Z.shiftr_div_pow2, !Z.ones_equiv by lia.
      apply Z.div_unique_pos with (2 ^ (32 - f_size f) - 1); [pose proof (Z.pow_pos_nonneg 2 (32 - f_size f)); lia|].
      replace 32 with ((32 - f_size f) + f_size f) at 1 by lia. rewrite Z.pow_add_r by lia. lia. }
  rewrite Z.land_ones by lia. split; [reflexivity|].
  pose proof (Z.mod_pos_bound (w / 2 ^ (f_first_bit f - f_size f + 1)) (2 ^ f_size f) ltac:(apply Z.pow_pos_nonneg; lia)).
  assert (2 ^ f_size f <= 2 ^ 24) by (apply Z.pow_le_mono_r; lia). lia.
Qed.

Lemma field_bits_word w f : 0 <= w < 2 ^ 32 -> field_in_word f = true -> field_bits (GetBits w) f = bits_of w f.
Proof.
  intros Hw Hf. destruct (GetBits_bits w f Hw Hf) as [E H]. unfold field_bits. rewrite E. apply swrap_small; [lia|].
  change (2 ^ (64 - 1)) with 0x8000000000000000. change (2 ^ 24) with 0x1000000 in H. lia.
Qed.

Lemma matches_word_iff w i : 0 <= w < 2 ^ 32 -> instr_matches (GetBits w) formats i <-> matches_word w i.
Proof.
  intros Hw.
  assert (E : forall fmt l f, FindFormat formats (i_format i) = Ret fmt ->
    list_first (fun f => streq (f_name f) (dl_name l)) (fmt_fields fmt) = Some f -> field_bits (GetBits w) f = bits_of w f).
  { intros fmt l f Hf Hl. apply list_first_Some in Hl as [Hin _]. apply field_bits_word; [exact Hw|]. apply (field_checked _ _ _ Hf Hin). }
  split; intros (fmt & Hf & Hall); exists fmt; (split; [exact Hf|]);
    (eapply Forall_impl; [exact Hall|]); intros l (f & Hl & Hv); exists f; (split; [exact Hl|]).
  - rewrite <- (E fmt l f Hf Hl). exact Hv.
  - rewrite (E fmt l f Hf Hl). exact Hv.
Qed.

(** ** Decoding *)

Lemma mapM_members w (out : list Z) (fs : list ac_dec_field) :
  (forall f, f ∈ fs -> 0 < f_size f /\ out !! Z.to_nat (f_id f) = Some (bits_of w f)) ->
  mapM (fun m : string * Z * Z => let '(_, width, i) := m in uwrap width <$> out !! Z.to_nat i) (row_of <$> fs) =
    Some (bits_of w <$> fs).
Proof.
  induction fs as [|f fs IH]; intros H; [reflexivity|]. destruct (H f ltac:(left)) as [Hs E].
  cbn [fmap list_fmap mapM row_of]. rewrite E. cbn [fmap option_fmap option_map mbind option_bind].
  rewrite IH by (intros g Hg; apply H; right; exact Hg). cbn [mbind option_bind]. do 2 f_equal.
  unfold bits_of. apply Z.mod_mod. apply Z.pow_nonzero; lia.
Qed.

(** The members of the instruction whose operand vector [Decode] returned. *)
Lemma assigned w i out : 0 <= w < 2 ^ 32 -> i ∈ instructions -> decoded_as (GetBits w) formats i out ->
  exists fmt, FindFormat formats (i_format i) = Ret fmt /\ assign_members out = Some (i_id i, bits_of w <$> fmt_fields fmt).
Proof.
  intros Hw Hi [H0 (fmt & Hf & Hfs)]. destruct (instr_in_table i Hi) as (Hid & fmt' & k & Hf' & Hk & Hm & _).
  assert (fmt' = fmt) as -> by congruence. exists fmt. split; [exact Hf|].
  unfold assign_members. rewrite H0. cbn [mbind option_bind]. rewrite u32_id by lia. rewrite Hk. cbn [mbind option_bind]. rewrite Hm.
  rewrite (mapM_members w); [reflexivity|]. intros f Hin. destruct (Hfs f Hin) as [_ E].
  pose proof (field_checked _ _ _ Hf Hin) as Hc. destruct (GetBits_bits w f Hw Hc) as [_ Hr].
  rewrite field_bits_word in E by assumption. rewrite u32_id in E by (change (2 ^ 24) with 0x1000000 in Hr; lia).
  split; [unfold field_in_word in Hc; lia|exact E].
Qed.

(** What [Decode] returns with the tables, whatever its vector held. *)
Lemma arm_Decode w out : 0 <= w < 2 ^ 32 -> length out = 259%nat ->
  (exists out' i, rt_Decode (GetBits w) arm_decoder out = Ret (Some out') /\ length out' = 259%nat /\
     i ∈ instructions /\ matches_word w i /\ out' !! 0%nat = Some (i_id i) /\
     exists fmt, FindFormat formats (i_format i) = Ret fmt /\ assign_members out' = Some (i_id i, bits_of w <$> fmt_fields fmt)) \/
  (rt_Decode (GetBits w) arm_decoder out = Ret None /\ forall i, i ∈ instructions -> ~ matches_word w i).
Proof.
  intros Hw Hl. destruct tables_checked as (Hc & Hfm & Hn & _).
  assert (Hd : Forall (decodable formats) instructions).
  { apply Forall_forall. intros i Hi. destruct (instr_in_table i Hi) as (_ & ? & ? & _ & _ & _ & H). exact H. }
  destruct (CreateDecoder_built _ _ _ Hd Hc) as (fs & fmts & dec & built & E & Hids & Hs & Ht & Hp).
  rewrite E in Hfm, Hn |- *. cbn [full_formats full_nFields] in Hfm, Hn. subst fmts.
  assert (Hnf : S (count_fields formats) = 259%nat) by lia.
  rewrite <- Hnf in Hl |- *. unfold rt_Decode.
  destruct (Decode_built (GetBits w) formats instructions fs formats dec built Hids Hd Hs Ht Hp out Hl)
    as [(out' & i & Hr & Hlen & Hi & Hmt & Hda)|[Hr Hno]]; [left|right].
  - exists out', i. split; [exact Hr|]. split; [exact Hlen|]. split; [exact Hi|]. split; [apply matches_word_iff; assumption|].
    destruct (instr_in_table i Hi) as (Hid & _). split; [destruct Hda as [-> _]; rewrite u32_id by lia; reflexivity|].
    apply assigned; assumption.
  - split; [exact Hr|]. intros i Hi Hm. apply (Hno i Hi). apply matches_word_iff; assumption.
Qed.

(** ** Ambiguity *)

(** The pairs of instructions that a word can match both. *)
Definition overlapping : list (string * string) :=
  [("nop", "msr2"); ("blx1", "b"); ("ldrt1", "ldr1"); ("ldrbt1", "ldrb1"); ("strt1", "str1"); ("strbt1", "strb1");
   ("ldrt2", "ldr2"); ("ldrbt2", "ldrb2"); ("strt2", "str2"); ("strbt2", "strb2")].

(** The fields an instruction fixes, with their values. *)
Definition fixed (i : ac_dec_instr) : list (ac_dec_field * Z) :=
  match FindFormat formats (i_format i) with
  | Ret fmt => omap (fun l => (fun f => (f, dl_value l)) <$> list_first (fun f => streq (f_name f) (dl_name l)) (fmt_fields fmt)) (i_dec_list i)
  | _ => []
  end.

(** The bits of the word they make 1 ([b] true) or 0. *)
Definition fixed_bits (b : bool) (i : ac_dec_instr) : Z :=
  foldr (fun c m => Z.lor m (Z.shiftl (Z.land (if b then c.2 else Z.lnot c.2) (Z.ones (f_size c.1))) (f_first_bit c.1 - f_size c.1 + 1)))
    0 (fixed i).

(** An instruction with both. *)
Definition patterns : list (ac_dec_instr * (Z * Z)) := map (fun i => (i, (fixed_bits true i, fixed_bits false i))) instructions.

Definition overlap (n m : string) : bool :=
  existsb (fun p => streq (fst p) n && streq (snd p) m || streq (fst p) m && streq (snd p) n) overlapping.

(** Some bit is fixed to 1 by one and to 0 by the other, or the pair is listed. *)
Definition pair_checked (x y : ac_dec_instr * (Z * Z)) : bool :=
  if i_id x.1 =? i_id y.1 then true
  else if Z.lor (Z.land x.2.1 y.2.2) (Z.land x.2.2 y.2.1) =? 0 then overlap (i_name x.1) (i_name y.1) else true.

Lemma pairs_checked : forallb (fun x => forallb (pair_checked x) patterns) patterns = true.
Proof. vm_compute. reflexivity. Qed.

Lemma fixed_bit w i b p : matches_word w i -> 0 <= p -> Z.testbit (fixed_bits b i) p = true -> Z.testbit w p = b.
Proof.
  intros (fmt & Hf & Hall) Hp. unfold fixed_bits, fixed. rewrite Hf.
  induction (i_dec_list i) as [|l ls IH]; cbn [omap list_omap foldr]; [rewrite Z.bits_0; discriminate|].
  inversion Hall as [|? ? (f & Hl & Hv) Hrest]; subst. rewrite Hl. cbn [fmap option_fmap option_map foldr fst snd].
  rewrite Z.lor_spec. intros [H|H]%orb_true_iff; [exact (IH Hrest H)|].
  apply list_first_Some in Hl as [Hin _]. pose proof (field_checked _ _ _ Hf Hin) as Hc. unfold field_in_word in Hc.
  set (lo := f_first_bit f - f_size f + 1) in *. assert (Hlo : 0 <= lo) by lia.
  rewrite Z.shiftl_spec, Z.land_spec, testbit_ones in H by lia.
  apply andb_true_iff in H as [H Hr]. apply andb_true_iff in Hr as [Hr1 Hr2].
  assert (E : Z.testbit (dl_value l) (p - lo) = Z.testbit w p).
  { rewrite <- Hv. unfold bits_of. fold lo. rewrite Z.mod_pow2_bits_low, Z.div_pow2_bits by lia. f_equal. lia. }
  rewrite <- E. destruct b; [exact H|]. rewrite Z.lnot_spec in H by lia. apply negb_true_iff, H.
Qed.

Lemma same_id i j : i ∈ instructions -> j ∈ instructions -> i_id i = i_id j -> i = j.
Proof.
  intros Hi Hj E. destruct tables_checked as (_ & _ & _ & Hids & _).
  apply list_elem_of_lookup in Hi as [a Ha], Hj as [b Hb].
  assert (Hk : forall k x, instructions !! k = Some x -> i_id x = Z.of_nat k + 1).
  { intros k x Hx. assert (Hl : (i_id <$> instructions) !! k = Some (i_id x)) by (rewrite list_lookup_fmap, Hx; reflexivity).
    rewrite Hids in Hl. apply lookup_seqZ in Hl as [-> _]. lia. }
  rewrite (Hk a i Ha), (Hk b j Hb) in E. assert (a = b) as -> by lia. congruence.
Qed.

Lemma both_match w i j : i ∈ instructions -> j ∈ instructions -> matches_word w i -> matches_word w j ->
  j = i \/ overlap (i_name i) (i_name j) = true.
Proof.
  intros Hi Hj Mi Mj. pose proof pairs_checked as H. rewrite forallb_forall in H.
  set (pat := fun i : ac_dec_instr => (i, (fixed_bits true i, fixed_bits false i))).
  assert (Hpat : forall i, i ∈ instructions -> In (pat i) patterns) by (intros; apply in_map, list_elem_of_In; assumption).
  specialize (H (pat i) (Hpat i Hi)). rewrite forallb_forall in H. specialize (H (pat j) (Hpat j Hj)).
  unfold pair_checked, pat in H. cbn [fst snd] in H.
  destruct (Z.eqb_spec (i_id i) (i_id j)) as [E|_]; [left; symmetry; apply same_id; assumption|].
  destruct (Z.eqb_spec (Z.lor (Z.land (fixed_bits true i) (fixed_bits false j)) (Z.land (fixed_bits false i) (fixed_bits true j))) 0) as [_|Hn];
    [right; exact H|]. exfalso. apply Hn. apply Z.bits_inj'. intros p Hp.
  rewrite Z.bits_0, Z.lor_spec, !Z.land_spec.
  pose proof (fun b => fixed_bit w i b p Mi Hp) as Bi. pose proof (fun b => fixed_bit w j b p Mj Hp) as Bj.
  destruct (Z.testbit (fixed_bits true i) p) eqn:E1, (Z.testbit (fixed_bits false j) p) eqn:E2,
    (Z.testbit (fixed_bits false i) p) eqn:E3, (Z.testbit (fixed_bits true j) p) eqn:E4; try reflexivity; exfalso;
    pose proof (Bi true); pose proof (Bi false); pose proof (Bj true); pose proof (Bj false); intuition congruence.
Qed.

(** C21. What a word decodes to: for every word the decode unit without its
    cache either gives an instruction whose decode list the word satisfies,
    with the bits of each field of its format in order, and every other
    instruction the word satisfies is one of ten known overlaps with it; or no
    instruction matches and nothing is given. *)
Theorem arm_decode_exact w : 0 <= w < 2 ^ 32 ->
  (exists i fmt, i ∈ instructions /\ FindFormat formats (i_format i) = Ret fmt /\ matches_word w i /\
     decoded w = Some (i_id i, bits_of w <$> fmt_fields fmt) /\
     forall j, j ∈ instructions -> matches_word w j -> j = i \/ overlap (i_name i) (i_name j) = true) \/
  (decoded w = None /\ forall i, i ∈ instructions -> ~ matches_word w i).
Proof.
  intros Hw. assert (Hl : length (replicate (Z.to_nat (full_nFields arm_decoder)) 0) = 259%nat).
  { rewrite length_replicate. destruct tables_checked as (_ & _ & -> & _). reflexivity. }
  unfold decoded. destruct (arm_Decode w _ Hw Hl) as [(out & i & -> & _ & Hi & Hm & _ & fmt & Hf & Ha)|[-> Hno]]; [left|right].
  - exists i, fmt. split; [exact Hi|]. split; [exact Hf|]. split; [exact Hm|]. split; [exact Ha|].
    intros j Hj Mj. apply (both_match w); assumption.
  - split; [reflexivity|exact Hno].
Qed.

(** ** The cache *)

(** The unit between two calls: the vector has its length, and a valid cell
    holds what its own bits decode to. *)
Record unit_ok (u : decode_unit) : Prop := {
  uo_decoder : decoder u = arm_decoder;
  uo_vector : length (ins_cache u) = 259%nat;
  uo_cells : forall h, valid (dec_cache u h) = true -> 0 <= instr_bits (dec_cache u h) < 2 ^ 32 ->
    decoded (instr_bits (dec_cache u h)) = Some (instr_p (dec_cache u h))
}.

(** The instruction does not depend on what the static vector held. *)
Lemma decoded_any w out : 0 <= w < 2 ^ 32 -> length out = 259%nat ->
  match decoded w with
  | Some d => exists out', rt_Decode (GetBits w) arm_decoder out = Ret (Some out') /\ length out' = 259%nat /\ assign_members out' = Some d
  | None => rt_Decode (GetBits w) arm_decoder out = Ret None
  end.
Proof.
  intros Hw Hl. set (zeros := replicate (Z.to_nat (full_nFields arm_decoder)) 0).
  assert (Hz : length zeros = 259%nat).
  { unfold zeros. rewrite length_replicate. destruct tables_checked as (_ & _ & -> & _). reflexivity. }
  unfold decoded. fold zeros.
  destruct (arm_Decode w zeros Hw Hz) as [(o1 & i & E1 & _ & Hi & Mi & H1 & f1 & Hf1 & A1)|[E1 N1]], (arm_Decode w out Hw Hl) as [(o2 & j & E2 & L2 & Hj & Mj & H2 & f2 & Hf2 & A2)|[E2 N2]]; rewrite E1, E2.
  - assert (Hh : o1 !! 0%nat = o2 !! 0%nat) by (apply (Decode_head (GetBits w) arm_decoder zeros out); [congruence|exact E1|exact E2]).
    rewrite H1, H2 in Hh. assert (i = j) as <- by (apply same_id; congruence). assert (f1 = f2) as <- by congruence.
    rewrite A1. exists o2. split; [reflexivity|]. split; [exact L2|exact A2].
  - destruct (N2 i Hi Mi).
  - destruct (N1 j Hj Mj).
  - reflexivity.
Qed.

Lemma miss_ok {mem} `{!MemPort mem} decode_pc bits (m : core * mem) u : unit_ok u -> 0 <= bits < 2 ^ 32 ->
  match decoded bits with
  | Some d => exists u', decode_miss decode_pc bits m u = Next (d, m, u') /\ unit_ok u'
  | None => decode_miss decode_pc bits m u = Stop CRASHED
  end.
Proof.
  intros [Ud Uv Uc] Hw. unfold decode_miss. pose proof (decoded_any bits (ins_cache u) Hw Uv) as H. rewrite Ud.
  destruct (decoded bits) as [d|] eqn:Ed; [destruct H as (out & -> & Hl & ->)|rewrite H; reflexivity].
  eexists. split; [reflexivity|]. split; [reflexivity|exact Hl|]. intros k. cbn [dec_cache]. unfold insert_item.
  destruct (k =? hash decode_pc); [intros _ _; exact Ed|apply Uc].
Qed.

(** C22. The cache of decoded instructions is transparent: from a unit whose
    valid cells hold what their own bits decode to, decoding at any address
    gives what the decoder without a cache gives for the word fetched, the same
    instruction with the same members or the same crash, and leaves such a
    unit, so collisions of the hash and words changed since they were cached
    are harmless. *)
Theorem decode_cache_transparent {mem} `{!MemPort mem} decode_pc (m m1 : core * mem) u bits :
  unit_ok u -> MEM_read decode_pc m = Next (bits, m1) -> 0 <= bits < 2 ^ 32 ->
  match plain_decode decode_pc m with
  | Next (id, F, m2) => exists d u', decode decode_pc m u = Next (d, m2, u') /\ fst d = id /\ member d = F /\ unit_ok u'
  | Annul m2 => decode decode_pc m u = Annul m2
  | Stop n => decode decode_pc m u = Stop n
  end.
Proof.
  intros U Hread Hw. unfold plain_decode, decode. rewrite Hread. cbn [mbind flow_bind].
  pose proof (miss_ok decode_pc bits m1 u U Hw) as Hmiss. unfold fetch_item.
  destruct (valid (dec_cache u (hash decode_pc))) eqn:Ev; cbn [negb];
    [destruct (Z.eqb_spec (instr_bits (dec_cache u (hash decode_pc))) bits) as [Eb|_]; cbn [negb]|].
  - pose proof (uo_cells _ U _ Ev) as H. rewrite Eb in H. rewrite (H Hw). exists (instr_p (dec_cache u (hash decode_pc))), u.
    split; [reflexivity|]. split; [reflexivity|]. split; [reflexivity|exact U].
  - destruct (decoded bits) as [d|]; [destruct Hmiss as (u' & E & U'); exists d, u'; auto|exact Hmiss].
  - destruct (decoded bits) as [d|]; [destruct Hmiss as (u' & E & U'); exists d, u'; auto|exact Hmiss].
Qed.

Lemma unit_constructed garbage vector : length garbage = 259%nat -> (forall h, valid (vector h) = false) ->
  exists u, arm_decode_unit garbage vector = Ret u /\ unit_ok u.
Proof.
  intros Hl Hv. destruct tables_checked as (Hc & _). apply rt_add_created in Hc. unfold arm_decode_unit. rewrite Hc.
  eexists. split; [reflexivity|]. split; [reflexivity|exact Hl|]. intros h. cbn [dec_cache]. rewrite Hv. discriminate.
Qed.
