(* ===== verification/ArmRun.v ===== *)
(** * Programs on the platform

    The fetch loop with the decode unit, the memory system and a memory that
    holds a program: examples that run from the words of the program, and the
    witnesses of the decode unit's theorems. *)
From S2P Require Import Prelude DecTypes AcDecoder AcDecoderRt ArmCore ArmFormats ArmData ArmMem ArmIsa ArmMmu ArmDecode ArmCoreOk ArmStepOk ArmMmuOk ArmSystemOk ArmDecodeOk.

(** ** A program in memory *)

(** Words from an address on; zero elsewhere. *)
Definition program_bytes (start : Z) (program : list Z) : bytes := fun a =>
  match program !! Z.to_nat ((a - start) / 4) with
  | Some w => if start <=? a then u8 (Z.shiftr w (8 * (a mod 4))) else 0
  | None => 0
  end.

Definition program_system (start : Z) (program : list Z) : system ram_module :=
  MkSystem (sample_cp15 0) (connect_device (MkRam (program_bytes start program) (2 ^ 32)) 0 (2 ^ 32 - 1) []).

Definition start_core (pc : Z) : core := set_pc pc (sample_core USER_MODE).

(** [mov r0, #3; mov r1, #0; loop: add r1, r1, r0; subs r0, r0, #1; bne loop;
    str r1, \[r2\]; ldrh r3, \[r2\]] with [r2] at 0x200. *)
Definition sum_program : list Z :=
  [0xe3a00003; 0xe3a01000; 0xe0811000; 0xe2500001; 0x1afffffc; 0xe5821000; 0xe1d230b0].

(** The loop runs three times, leaves the sum in [r1], in memory and in [r3]. *)
Example sum_program_runs :
  match run plain_decode 13 (RB_write 2 0x200 (start_core 0x100), program_system 0x100 sum_program) with
  | Some m => map (RB_read m.1) [0; 1; 2; 3] = [0; 6; 0x200; 6] /\ ac_pc m.1 = 0x11c
  | None => False
  end.
Proof. vm_compute. split; reflexivity. Qed.

(** ** Witnesses *)

(** A unit as its constructor leaves it, with an empty cache. *)
Definition fresh_unit : decode_unit := MkUnit arm_decoder (replicate 259 0) (fun _ => MkItem false (0, []) 0).

Lemma fresh_unit_ok : unit_ok fresh_unit.
Proof. split; [reflexivity|reflexivity|]. intros h H. discriminate H. Qed.

Lemma arm_decode_exact_witness :
  exists i fmt, matches_word 0xe2500001 i /\ decoded 0xe2500001 = Some (i_id i, bits_of 0xe2500001 <$> fmt_fields fmt).
Proof.
  destruct (arm_decode_exact 0xe2500001) as [(i & fmt & _ & _ & Hm & Hd & _)|[H _]]; [lia| |].
  - exists i, fmt. split; [exact Hm|exact Hd].
  - exfalso. vm_compute in H. discriminate H.
Defined.

Lemma decode_cache_transparent_witness :
  let m := (start_core 0x100, program_system 0x100 sum_program) in
  exists d u', decode 0x10c m fresh_unit = Next (d, m, u') /\ fst d = 35 /\ unit_ok u'.
Proof.
  intros m.
  pose proof (decode_cache_transparent 0x10c m m fresh_unit 0xe2500001 fresh_unit_ok eq_refl ltac:(lia)) as H.
  assert (E : match plain_decode 0x10c m with Next (id, _, m2) => id = 35 /\ m2 = m | _ => False end)
    by (vm_compute; split; reflexivity).
  destruct (plain_decode 0x10c m) as [[[id F] m2]|m2|n]; [|destruct E|destruct E]. destruct E as [-> ->].
  destruct H as (d & u' & H1 & H2 & _ & H3). exists d, u'. split; [exact H1|]. split; [exact H2|exact H3].
Defined.
