(* ===== verification/Uart.v ===== *)
(** * The serial port of the ARM platform

    [src/armv7/src/uart.cpp] and [uart.h].  The queues are arrays of 32 bytes
    with a count, and a write past an array is a [Crash].  Of the parameters
    the control registers set, those the module uses are kept; the flags of a
    status register are the bits of the word it reads as.  The standard input
    is the list of the bytes that are ready, without its end: at the end of the
    input the receiver would loop for ever. *)
From S2P Require Import Prelude ArmCore Tzic.

Definition UART_URXD : Z := 0x0.
Definition UART_UTXD : Z := 0x40.
Definition UART_UCR1 : Z := 0x80.
Definition UART_UCR2 : Z := 0x84.
Definition UART_UCR3 : Z := 0x88.
Definition UART_UCR4 : Z := 0x8C.
Definition UART_UFCR : Z := 0x90.
Definition UART_USR1 : Z := 0x94.
Definition UART_USR2 : Z := 0x98.
Definition UART_UBRC : Z := 0xAC.
Definition UART_UTS : Z := 0xB4.
Definition UART_LASTADDR : Z := 0xB8.
Definition UART_IRQNUM : Z := 31.

Record uart_module := MkUart {
  regs : Z -> Z;
  rxd_fifo : Z -> Z;
  txd_fifo : Z -> Z;
  rxd_pointer : Z;
  txd_pointer : Z;
  uart_enabled : bool; rxd_enabled : bool; txd_enabled : bool;
  trdyen : bool; rrdyen : bool; txmptyen : bool;     (* UCR1 *)
  ws : bool;                                         (* UCR2; true: 8 bits *)
  tcen : bool; dren : bool;                          (* UCR4 *)
  txtl : Z; rxtl : Z;                                (* UFCR *)
  usr1 : Z; usr2 : Z
}.

Definition set_regs x u := MkUart x (rxd_fifo u) (txd_fifo u) (rxd_pointer u) (txd_pointer u) (uart_enabled u) (rxd_enabled u)
  (txd_enabled u) (trdyen u) (rrdyen u) (txmptyen u) (ws u) (tcen u) (dren u) (txtl u) (rxtl u) (usr1 u) (usr2 u).
Definition set_rxd f n u := MkUart (regs u) f (txd_fifo u) n (txd_pointer u) (uart_enabled u) (rxd_enabled u)
  (txd_enabled u) (trdyen u) (rrdyen u) (txmptyen u) (ws u) (tcen u) (dren u) (txtl u) (rxtl u) (usr1 u) (usr2 u).
Definition set_txd f n u := MkUart (regs u) (rxd_fifo u) f (rxd_pointer u) n (uart_enabled u) (rxd_enabled u)
  (txd_enabled u) (trdyen u) (rrdyen u) (txmptyen u) (ws u) (tcen u) (dren u) (txtl u) (rxtl u) (usr1 u) (usr2 u).
Definition set_enabled x r t u := MkUart (regs u) (rxd_fifo u) (txd_fifo u) (rxd_pointer u) (txd_pointer u) x r
  t (trdyen u) (rrdyen u) (txmptyen u) (ws u) (tcen u) (dren u) (txtl u) (rxtl u) (usr1 u) (usr2 u).
Definition set_ucr1 x y z u := MkUart (regs u) (rxd_fifo u) (txd_fifo u) (rxd_pointer u) (txd_pointer u) (uart_enabled u) (rxd_enabled u)
  (txd_enabled u) x y z (ws u) (tcen u) (dren u) (txtl u) (rxtl u) (usr1 u) (usr2 u).
Definition set_ws x u := MkUart (regs u) (rxd_fifo u) (txd_fifo u) (rxd_pointer u) (txd_pointer u) (uart_enabled u) (rxd_enabled u)
  (txd_enabled u) (trdyen u) (rrdyen u) (txmptyen u) x (tcen u) (dren u) (txtl u) (rxtl u) (usr1 u) (usr2 u).
Definition set_ucr4 x y u := MkUart (regs u) (rxd_fifo u) (txd_fifo u) (rxd_pointer u) (txd_pointer u) (uart_enabled u) (rxd_enabled u)
  (txd_enabled u) (trdyen u) (rrdyen u) (txmptyen u) (ws u) x y (txtl u) (rxtl u) (usr1 u) (usr2 u).
Definition set_ufcr x y u := MkUart (regs u) (rxd_fifo u) (txd_fifo u) (rxd_pointer u) (txd_pointer u) (uart_enabled u) (rxd_enabled u)
  (txd_enabled u) (trdyen u) (rrdyen u) (txmptyen u) (ws u) (tcen u) (dren u) x y (usr1 u) (usr2 u).
Definition set_usr x y u := MkUart (regs u) (rxd_fifo u) (txd_fifo u) (rxd_pointer u) (txd_pointer u) (uart_enabled u) (rxd_enabled u)
  (txd_enabled u) (trdyen u) (rrdyen u) (txmptyen u) (ws u) (tcen u) (dren u) (txtl u) (rxtl u) x y.

Definition set_reg (i v : Z) (u : uart_module) : uart_module := set_regs (fun j => if j =? i then v else regs u j) u.

(** The status bits of [update_flags]. *)
Definition TRDY : Z := 13.
Definition RRDY : Z := 9.
Definition TXFE : Z := 14.
Definition TXDC : Z := 3.
Definition RDR : Z := 0.

Definition reset_regs : list (Z * Z) :=
  [(UART_URXD, 0); (UART_UTXD, 0); (UART_UCR1, 0); (UART_UCR2, 0x1); (UART_UCR3, 0x700); (UART_UCR4, 0x8000);
   (UART_UFCR, 0x801); (UART_USR1, 0x2040); (UART_USR2, 0x4028); (0x9C, 0x2B); (0xA0, 0); (0xA4, 0); (0xA8, 0);
   (UART_UBRC, 0x4); (0xB0, 0); (UART_UTS, 0x60)].

(** [trdy] and [rxds] of the first status word are set, and [txfe], [dcdin]
    and [txdc] of the second. *)
Definition do_reset (hard_reset : bool) (u : uart_module) : uart_module :=
  let u := MkUart (regs u) (rxd_fifo u) (txd_fifo u) 0 0 (negb hard_reset && uart_enabled u) (negb hard_reset && rxd_enabled u)
             (negb hard_reset && txd_enabled u) false false false false false false 2 1 0x2040 0x4028 in
  fold_left (fun u p => set_reg (fst p / 4) (snd p) u) reset_regs u.

Definition update_flags (u : uart_module) : uart_module :=
  let received := 0 <? rxd_pointer u in
  let empty := txd_pointer u =? 0 in
  let u := set_reg (UART_UTS / 4) (put_bit (regs u (UART_UTS / 4)) 5 (negb received)) u in
  set_usr (put_bit (put_bit (usr1 u) RRDY (rxtl u <? rxd_pointer u)) TRDY (txd_pointer u <? txtl u))
          (put_bit (put_bit (put_bit (usr2 u) RDR received) TXFE empty) TXDC empty) u.

(** ** The queues *)

(** [for (i = 1; i < n; ++i) fifo[i - 1] = fifo[i]]. *)
Definition shift_fifo (n : Z) (fifo : Z -> Z) : Z -> Z := fun i => if (0 <=? i) && (i <? n - 1) then fifo (i + 1) else fifo i.

(** [fifo[n] = c] on an array of 32 bytes. *)
Definition put_fifo (n c : Z) (fifo : Z -> Z) : exec (Z -> Z) :=
  if (0 <=? n) && (n <? 32) then Ret (fun i => if i =? n then c else fifo i) else Crash.

Definition word_of (ws : bool) (c : Z) : Z := if ws then c else Z.land c 0x7F.

(** The receiver loop: the bytes left on the standard input. *)
Fixpoint receive (input : list Z) (u : uart_module) : exec (list Z * uart_module) :=
  match input with
  | [] => Ret ([], u)
  | c :: input' =>
      if rxd_pointer u <? 32 then
        fifo ← put_fifo (rxd_pointer u) (word_of (ws u) c) (rxd_fifo u);
        receive input' (set_rxd fifo (rxd_pointer u + 1) u)
      else Ret (input, u)
  end.

(** The transmitter loop, [n] turns: the bytes put on the standard output. *)
Fixpoint transmit (n : nat) (u : uart_module) : list Z * uart_module :=
  match n with
  | O => ([], u)
  | S n =>
      let c := txd_fifo u 0 in
      let '(out, u') := transmit n (set_txd (shift_fifo (txd_pointer u) (txd_fifo u)) (txd_pointer u - 1) u) in
      (word_of (ws u) c :: out, u')
  end.

(** ** The thread *)

Definition raises (u : uart_module) : bool :=
  (rrdyen u && getBit (usr1 u) RRDY) || (txmptyen u && getBit (usr2 u) TXFE) || (trdyen u && getBit (usr1 u) TRDY)
  || (tcen u && getBit (usr2 u) TXDC) || (dren u && getBit (usr2 u) RDR).

(** A turn of [prc_uart]: what is left of the input, and the output. *)
Definition uart_cycle (input : list Z) (m : uart_module * tzic_module) : exec (list Z * list Z * (uart_module * tzic_module)) :=
  let '(u, t) := m in
  if negb (uart_enabled u) then Ret (input, [], (u, t))
  else
    '(input, u) ← (if rxd_enabled u then receive input u else Ret (input, u));
    let '(output, u) := if txd_enabled u then transmit (Z.to_nat (txd_pointer u)) u else ([], u) in
    let u := update_flags u in
    t ← interrupt UART_IRQNUM (negb (raises u)) t;
    Ret (input, output, (u, t)).

(** ** The registers *)

Definition valid (address : Z) : bool := (0 <=? address) && (address / 4 <? UART_LASTADDR / 4).

(** The word read and the module after the read.  The overrun bit would need 32
    characters left in the queue after one has been taken. *)
Definition fast_read (address : Z) (u : uart_module) : exec (Z * uart_module) :=
  if address =? UART_URXD then
    if negb (uart_enabled u) || negb (rxd_enabled u) then Ret (0, u)
    else if rxd_pointer u =? 0 then Ret (0, u)
    else
      let data := rxd_fifo u 0 in
      let u := set_rxd (shift_fifo (rxd_pointer u) (rxd_fifo u)) (rxd_pointer u - 1) u in
      let ovrrun := rxd_pointer u =? 32 in
      let u := update_flags u in
      Ret (Z.lor (Z.lor (Z.land data 0xFF) (Z.shiftl 1 15)) (if ovrrun then Z.shiftl 1 13 else 0), u)
  else if address =? UART_USR1 then Ret (usr1 u, u)
  else if address =? UART_USR2 then Ret (usr2 u, u)
  else if valid address then Ret (regs u (address / 4), u) else Crash.

(** [f &= ~bit] for the flags of the first status word, [f &= bit] for those of
    the second. *)
Definition USR1_FLAGS : Z := 0x9DB0.
Definition USR2_FLAGS : Z := 0xBDD6.

Definition fast_write (address datum : Z) (u : uart_module) : exec uart_module :=
  if address =? UART_UTXD then
    if negb (uart_enabled u) || negb (txd_enabled u) then Ret u
    else if txd_pointer u =? 33 then Ret u
    else
      fifo ← put_fifo (txd_pointer u) (Z.land datum (if ws u then 0xFF else 0x7F)) (txd_fifo u);
      Ret (update_flags (set_txd fifo (txd_pointer u + 1) u))
  else if address =? UART_UCR1 then
    let u := set_ucr1 (getBit datum 13) (getBit datum 9) (getBit datum 6) u in
    Ret (set_reg (address / 4) (Z.land datum 0xFFEF) (set_enabled (getBit datum 0) (rxd_enabled u) (txd_enabled u) u))
  else if address =? UART_UCR2 then
    let u := if getBit datum 0 then do_reset false u else u in
    let u := set_enabled (uart_enabled u) (getBit datum 1) (getBit datum 2) (set_ws (getBit datum 5) u) in
    Ret (set_reg (address / 4) (Z.lor (Z.land datum 0xFFFE) 0x1) u)
  else if address =? UART_UCR3 then Ret (set_reg (address / 4) (Z.land datum 0xFFFF) u)
  else if address =? UART_UCR4 then
    Ret (set_reg (address / 4) (Z.land datum 0xFFFF) (set_ucr4 (getBit datum 3) (getBit datum 0) u))
  else if address =? UART_UFCR then
    Ret (set_reg (address / 4) (Z.land datum 0xFFFF) (set_ufcr (Z.land (Z.shiftr datum 10) 0x1F) (Z.land datum 0x1F) u))
  else if address =? UART_USR1 then
    Ret (set_usr (Z.land (usr1 u) (not32 (Z.land datum USR1_FLAGS))) (usr2 u) u)
  else if address =? UART_USR2 then
    Ret (set_usr (usr1 u) (Z.land (usr2 u) (Z.lor datum (not32 USR2_FLAGS))) u)
  else if address =? UART_UBRC then Ret u
  else if valid address then Ret (set_reg (address / 4) datum u) else Crash.
