(* ===== verification/UartOk.v ===== *)
(** * The serial port: what goes in comes out

    For every sequence of turns of the thread, reads of the receiver register
    and writes of the transmitter register, while the port stays enabled: no
    character is lost, repeated or moved, and the sequences the module survives
    are those with at most 32 characters written between two turns. *)
From S2P Require Import Prelude ArmCore ArmCoreOk Tzic Uart.

(** The characters in an array with its count. *)
Definition queue (fifo : Z -> Z) (n : Z) : list Z := fifo <$> seqZ 0 n.
Definition rx_queue (u : uart_module) : list Z := queue (rxd_fifo u) (rxd_pointer u).
Definition tx_queue (u : uart_module) : list Z := queue (txd_fifo u) (txd_pointer u).

Record uart_bounds (u : uart_module) : Prop := {
  ub_rx : 0 <= rxd_pointer u <= 32;
  ub_tx : 0 <= txd_pointer u <= 32
}.

(** ** The queues *)

Lemma queue_put fifo n c : 0 <= n -> queue (fun i => if i =? n then c else fifo i) (n + 1) = queue fifo n ++ [c].
Proof.
  intros Hn. unfold queue. rewrite (seqZ_app 0 n 1) by lia. rewrite fmap_app. f_equal.
  - apply list_fmap_ext. intros i x H. apply list_elem_of_lookup_2, elem_of_seqZ in H.
    destruct (Z.eqb_spec x n); [lia|reflexivity].
  - change (seqZ (0 + n) 1) with [0 + 0 + (0 + n)]. cbn. f_equal.
    destruct (Z.eqb_spec (0 + 0 + (0 + n)) n) as [|E]; [reflexivity|lia].
Qed.

Lemma queue_shift fifo n : 0 < n -> queue fifo n = fifo 0 :: queue (shift_fifo n fifo) (n - 1).
Proof.
  intros Hn. unfold queue. rewrite seqZ_cons by lia. rewrite fmap_cons. f_equal.
  change (Z.succ 0) with (1 + 0). rewrite <- (fmap_add_seqZ 1 0 (Z.pred n)), <- list_fmap_compose. unfold queue.
  change (n - 1) with (Z.pred n).
  apply list_fmap_ext. intros i x H. apply list_elem_of_lookup_2, elem_of_seqZ in H.
  unfold shift_fifo, compose. destruct (Z.leb_spec 0 x), (Z.ltb_spec x (n - 1)); try lia.
  cbn [andb]. f_equal. lia.
Qed.

Lemma queue_empty fifo : queue fifo 0 = [].
Proof. reflexivity. Qed.

Lemma queue_length fifo n : 0 <= n -> Z.of_nat (length (queue fifo n)) = n.
Proof. intros. unfold queue. rewrite length_fmap, length_seqZ. lia. Qed.

(** What [update_flags] and the loops keep. *)
Definition setup (u : uart_module) : bool * bool * bool * bool :=
  (uart_enabled u, rxd_enabled u, txd_enabled u, ws u).

Lemma word_of_idem w c : word_of w (word_of w c) = word_of w c.
Proof. destruct w; [reflexivity|]. unfold word_of. rewrite <- Z.land_assoc. reflexivity. Qed.

(** ** The loops of the thread *)

Lemma receive_spec input : forall u, uart_bounds u ->
  exists rest u', receive input u = Ret (rest, u') /\ uart_bounds u' /\ setup u' = setup u /\
    txd_fifo u' = txd_fifo u /\ txd_pointer u' = txd_pointer u /\
    rx_queue u' ++ map (word_of (ws u)) rest = rx_queue u ++ map (word_of (ws u)) input /\
    (rest = [] \/ rxd_pointer u' = 32).
Proof.
  induction input as [|c input IH]; intros u [Hr Ht]; cbn [receive].
  - exists [], u. do 2 (split; [first [reflexivity|split; assumption]|]). repeat (split; [reflexivity|]). left. reflexivity.
  - destruct (Z.ltb_spec (rxd_pointer u) 32).
    + unfold put_fifo. destruct (Z.leb_spec 0 (rxd_pointer u)), (Z.ltb_spec (rxd_pointer u) 32); try lia.
      cbn [andb mbind exec_bind].
      set (u1 := set_rxd _ _ u).
      destruct (IH u1) as (rest & u' & -> & Hb & Hs & Hf & Hp & Hq & Hl); [split; cbn; lia|].
      exists rest, u'. do 5 (split; [assumption || reflexivity|]). split; [|exact Hl].
      transitivity (rx_queue u1 ++ map (word_of (ws u)) input); [exact Hq|].
      unfold rx_queue at 1. cbn [u1 set_rxd rxd_fifo rxd_pointer]. rewrite queue_put by lia.
      rewrite <- app_assoc. reflexivity.
    + exists (c :: input), u. split; [reflexivity|]. split; [split; assumption|]. repeat (split; [reflexivity|]). right. lia.
Qed.

Lemma receive_rest (P : Z -> Prop) input : forall u rest u', receive input u = Ret (rest, u') -> Forall P input -> Forall P rest.
Proof.
  induction input as [|c input IH]; intros u rest u' H HP; cbn [receive] in H; [injection H as <- <-; constructor|].
  destruct (_ <? 32); [|injection H as <- <-; assumption].
  exec_inv H. eapply IH; [exact H|]. inversion HP. assumption.
Qed.

Lemma transmit_spec n : forall u, Z.of_nat n = txd_pointer u ->
  exists u', transmit n u = (map (word_of (ws u)) (tx_queue u), u') /\ txd_pointer u' = 0 /\ setup u' = setup u /\
    rxd_fifo u' = rxd_fifo u /\ rxd_pointer u' = rxd_pointer u.
Proof.
  induction n as [|n IH]; intros u Hn; cbn [transmit].
  - exists u. unfold tx_queue. rewrite <- Hn. repeat split; reflexivity.
  - set (u1 := set_txd _ _ u).
    destruct (IH u1) as (u' & E & H0 & Hs & Hf & Hp); [cbn; lia|]. rewrite E.
    exists u'. split; [|repeat split; assumption]. f_equal.
    unfold tx_queue. rewrite (queue_shift _ (txd_pointer u)) by lia. reflexivity.
Qed.

Lemma interrupt_total deassert t : exists t', interrupt UART_IRQNUM deassert t = Ret t'.
Proof. unfold interrupt. destruct (getBit _ 0); eauto. Qed.

(** ** A line: the port, and what has gone through it *)

Inductive action :=
  | Cycle (arrived : list Z)     (* a turn of [prc_uart] after these characters were typed *)
  | Load                         (* a read of URXD *)
  | Store (datum : Z).           (* a write of UTXD *)

Record line := MkLine {
  port : uart_module;
  controller : tzic_module;
  waiting : list Z;              (* on the standard input *)
  loaded : list Z;               (* taken by reads that had [charrdy] set *)
  printed : list Z               (* on the standard output *)
}.

Definition act (a : action) (l : line) : exec line :=
  match a with
  | Cycle arrived =>
      '(rest, out, (u, t)) ← uart_cycle (waiting l ++ arrived) (port l, controller l);
      Ret (MkLine u t rest (loaded l) (printed l ++ out))
  | Load =>
      '(v, u) ← fast_read UART_URXD (port l);
      Ret (MkLine u (controller l) (waiting l) (if getBit v 15 then loaded l ++ [Z.land v 0xFF] else loaded l) (printed l))
  | Store datum =>
      u ← fast_write UART_UTXD datum (port l);
      Ret (MkLine u (controller l) (waiting l) (loaded l) (printed l))
  end.

Fixpoint acts (actions : list action) (l : line) : exec line :=
  match actions with [] => Ret l | a :: actions => l ← act a l; acts actions l end.

Definition typed (a : action) : list Z := match a with Cycle arrived => arrived | _ => [] end.
Definition stored (w : bool) (a : action) : list Z :=
  match a with Store datum => [word_of w (Z.land datum 0xFF)] | _ => [] end.

(** Both directions work, and the queues hold bytes. *)
Record line_ok (w : bool) (l : line) : Prop := {
  lo_bounds : uart_bounds (port l);
  lo_setup : setup (port l) = (true, true, true, w);
  lo_rx : Forall (fun c => 0 <= c < 256) (rx_queue (port l));
  lo_tx : Forall (fun c => word_of w c = c) (tx_queue (port l));
  lo_waiting : Forall (fun c => 0 <= c < 256) (waiting l)
}.

(** The characters to be loaded, and those to be printed. *)
Definition incoming (w : bool) (l : line) : list Z := loaded l ++ rx_queue (port l) ++ map (word_of w) (waiting l).
Definition outgoing (l : line) : list Z := printed l ++ tx_queue (port l).

(** ** One action *)

Lemma stored_word (w : bool) datum : Z.land datum (if w then 0xFF else 0x7F) = word_of w (Z.land datum 0xFF).
Proof. destruct w; [reflexivity|]. unfold word_of. rewrite <- Z.land_assoc. reflexivity. Qed.

Lemma word_of_byte w c : 0 <= c < 256 -> 0 <= word_of w c < 256.
Proof.
  intros H. destruct w; [exact H|]. unfold word_of. change 0x7F with (Z.ones 7). rewrite Z.land_ones by lia.
  pose proof (Z.mod_pos_bound c (2 ^ 7)). lia.
Qed.

Lemma Forall_word_of w l : Forall (fun c => 0 <= c < 256) l -> Forall (fun c => 0 <= c < 256) (map (word_of w) l).
Proof. intros H. apply Forall_fmap. eapply Forall_impl; [exact H|]. apply word_of_byte. Qed.

Lemma map_fixed {A} (f : A -> A) (l : list A) : Forall (fun x => f x = x) l -> map f l = l.
Proof. induction 1 as [|x l E _ IH]; cbn; congruence. Qed.

Lemma cycle_spec w arrived l : line_ok w l -> Forall (fun c => 0 <= c < 256) arrived ->
  exists l', act (Cycle arrived) l = Ret l' /\ line_ok w l' /\ txd_pointer (port l') = 0 /\
    incoming w l' = incoming w l ++ map (word_of w) arrived /\ outgoing l' = outgoing l.
Proof.
  intros [Hb Hs Hr Hx Hw] Ha. unfold act, uart_cycle.
  destruct (receive_spec (waiting l ++ arrived) (port l) Hb) as (rest & u1 & E1 & Hb1 & Hs1 & Hf1 & Hp1 & Hq1 & _).
  destruct (transmit_spec (Z.to_nat (txd_pointer u1)) u1) as (u2 & E2 & H2 & Hs2 & Hf2 & Hp2); [destruct Hb1; lia|].
  destruct (interrupt_total (negb (raises (update_flags u2))) (controller l)) as (t & E3).
  assert (uart_enabled (port l) = true /\ rxd_enabled (port l) = true /\ ws (port l) = w) as (-> & -> & Ew)
    by (unfold setup in Hs; injection Hs; auto).
  assert (txd_enabled u1 = true /\ ws u1 = w) as (Et & Ew1) by (rewrite Hs in Hs1; unfold setup in Hs1; injection Hs1; auto).
  cbn [negb]. rewrite E1. cbn [mbind exec_bind]. rewrite Et, E2. cbn [mbind exec_bind]. rewrite E3. cbn [mbind exec_bind].
  assert (Ht : tx_queue u1 = tx_queue (port l)) by (unfold tx_queue; congruence).
  assert (Hr2 : rx_queue u2 = rx_queue u1) by (unfold rx_queue; congruence).
  rewrite Ew in Hq1. rewrite Ew1, Ht, (map_fixed _ _ Hx).
  assert (Hrest : Forall (fun c => 0 <= c < 256) (waiting l ++ arrived)) by (apply Forall_app; split; assumption).
  eexists. split; [reflexivity|]. split; [|split; [exact H2|split]].
  - split; cbn [port waiting].
    + split; cbn; [rewrite Hp2; apply Hb1|rewrite H2; lia].
    + transitivity (setup u2); [reflexivity|]. congruence.
    + change (rx_queue (update_flags u2)) with (rx_queue u2). rewrite Hr2.
      assert (H : Forall (fun c => 0 <= c < 256) (rx_queue u1 ++ map (word_of w) rest)).
      { rewrite Hq1. apply Forall_app. split; [assumption|]. apply Forall_word_of. assumption. }
      apply Forall_app in H. apply H.
    + change (tx_queue (update_flags u2)) with (tx_queue u2). unfold tx_queue. rewrite H2. constructor.
    + apply (receive_rest _ _ _ _ _ E1). assumption.
  - unfold incoming. cbn [port waiting loaded]. change (rx_queue (update_flags u2)) with (rx_queue u2).
    rewrite Hr2, Hq1, map_app, <- !app_assoc. reflexivity.
  - unfold outgoing. cbn [port printed]. change (tx_queue (update_flags u2)) with (tx_queue u2).
    unfold tx_queue at 2. rewrite H2, queue_empty, app_nil_r. reflexivity.
Qed.

Lemma rx_queue_byte u : 0 < rxd_pointer u -> Forall (fun c => 0 <= c < 256) (rx_queue u) -> 0 <= rxd_fifo u 0 < 256.
Proof. intros Hn H. unfold rx_queue in H. rewrite queue_shift in H by exact Hn. inversion H. assumption. Qed.

(** The word a read gives holds its character and [charrdy]. *)
Lemma read_word c : 0 <= c < 256 ->
  let v := Z.lor (Z.lor (Z.land c 0xFF) (Z.shiftl 1 15)) 0 in getBit v 15 = true /\ Z.land v 0xFF = c.
Proof.
  intros Hc v. assert (E : Z.land c 0xFF = c).
  { change 0xFF with (Z.ones 8). rewrite Z.land_ones by lia. apply Z.mod_small. lia. }
  unfold v. rewrite E, Z.lor_0_r. split.
  - unfold getBit. rewrite Z.lor_spec. apply orb_true_r.
  - rewrite Z.land_lor_distr_l, E. apply Z.lor_0_r.
Qed.

Lemma load_spec w l : line_ok w l ->
  exists l', act Load l = Ret l' /\ line_ok w l' /\ txd_pointer (port l') = txd_pointer (port l) /\
    incoming w l' = incoming w l /\ outgoing l' = outgoing l.
Proof.
  intros [Hb Hs Hr Hx Hw]. unfold act, fast_read. cbn [Z.eqb UART_URXD].
  assert (uart_enabled (port l) = true /\ rxd_enabled (port l) = true) as (-> & ->) by (unfold setup in Hs; injection Hs; auto).
  cbn [negb orb]. destruct Hb as [Hbr Hbt]. destruct (Z.eqb_spec (rxd_pointer (port l)) 0) as [E|E].
  - cbn. exists l. destruct l. cbn. do 4 (split; [reflexivity || (split; try assumption; split; assumption)|]). reflexivity.
  - assert (Hc : 0 <= rxd_fifo (port l) 0 < 256) by (apply rx_queue_byte; [lia|assumption]). destruct (read_word _ Hc) as [Hv Hl].
    assert (Hq : rx_queue (port l) = rxd_fifo (port l) 0 :: queue (shift_fifo (rxd_pointer (port l)) (rxd_fifo (port l)))
                                                             (rxd_pointer (port l) - 1)) by (apply queue_shift; lia).
    cbn [mbind exec_bind set_rxd rxd_pointer]. destruct (Z.eqb_spec (rxd_pointer (port l) - 1) 32); [lia|].
    rewrite Hv, Hl. eexists. split; [reflexivity|]. split; [|split; [reflexivity|split]].
    + split; cbn [port waiting]; try assumption.
      * split; cbn; lia.
      * rewrite Hq in Hr. inversion Hr. assumption.
    + unfold incoming. cbn [port waiting loaded]. rewrite Hq, <- app_assoc. reflexivity.
    + reflexivity.
Qed.

Lemma store_spec w datum l : line_ok w l -> txd_pointer (port l) < 32 ->
  exists l', act (Store datum) l = Ret l' /\ line_ok w l' /\ txd_pointer (port l') = txd_pointer (port l) + 1 /\
    incoming w l' = incoming w l /\ outgoing l' = outgoing l ++ [word_of w (Z.land datum 0xFF)].
Proof.
  intros [Hb Hs Hr Hx Hw] Hn. unfold act, fast_write. cbn [Z.eqb UART_UTXD Pos.eqb].
  assert (uart_enabled (port l) = true /\ txd_enabled (port l) = true /\ ws (port l) = w) as (-> & -> & ->)
    by (unfold setup in Hs; injection Hs; auto).
  cbn [negb orb]. destruct Hb as [Hbr Hbt]. destruct (Z.eqb_spec (txd_pointer (port l)) 33); [lia|].
  unfold put_fifo. destruct (Z.leb_spec 0 (txd_pointer (port l))), (Z.ltb_spec (txd_pointer (port l)) 32); try lia.
  cbn [andb mbind exec_bind]. rewrite stored_word. eexists. split; [reflexivity|].
  set (u := update_flags _).
  assert (Hq : tx_queue u = tx_queue (port l) ++ [word_of w (Z.land datum 0xFF)]) by (apply queue_put; lia).
  split; [|split; [reflexivity|split; [reflexivity|]]].
  - split; cbn [port waiting]; try assumption.
    + split; cbn; lia.
    + rewrite Hq. apply Forall_app. split; [assumption|]. constructor; [apply word_of_idem|constructor].
  - unfold outgoing. cbn [port printed]. rewrite Hq. apply app_assoc.
Qed.

Lemma store_crashes w datum l : line_ok w l -> txd_pointer (port l) = 32 -> act (Store datum) l = Crash.
Proof.
  intros [_ Hs _ _ _] Hn. unfold act, fast_write. cbn [Z.eqb UART_UTXD Pos.eqb].
  assert (uart_enabled (port l) = true /\ txd_enabled (port l) = true) as (-> & ->) by (unfold setup in Hs; injection Hs; auto).
  rewrite Hn. reflexivity.
Qed.

(** ** Sequences of actions *)

(** At most 32 characters are written between two turns of the thread. *)
Fixpoint fits (n : Z) (actions : list action) : bool :=
  match actions with
  | [] => true
  | Cycle _ :: actions => fits 0 actions
  | Load :: actions => fits n actions
  | Store _ :: actions => (n <? 32) && fits (n + 1) actions
  end.

Definition bytes_typed (actions : list action) : Prop := Forall (fun a => Forall (fun c => 0 <= c < 256) (typed a)) actions.

Lemma act_spec w a l l' : line_ok w l -> Forall (fun c => 0 <= c < 256) (typed a) -> act a l = Ret l' ->
  line_ok w l' /\ incoming w l' = incoming w l ++ map (word_of w) (typed a) /\ outgoing l' = outgoing l ++ stored w a.
Proof.
  intros Hl Ha E. destruct a as [arrived| |datum]; cbn [typed stored map].
  - destruct (cycle_spec w arrived l Hl Ha) as (l1 & E1 & H1 & _ & H2 & H3). rewrite app_nil_r. naive_solver congruence.
  - destruct (load_spec w l Hl) as (l1 & E1 & H1 & _ & H2 & H3). rewrite !app_nil_r. naive_solver congruence.
  - destruct (Z.eq_dec (txd_pointer (port l)) 32) as [Hf|Hf].
    + rewrite (store_crashes w datum l Hl Hf) in E. discriminate.
    + destruct (store_spec w datum l Hl) as (l1 & E1 & H1 & _ & H2 & H3); [destruct Hl as [[_ Ht] _ _ _ _]; lia|].
      rewrite app_nil_r. naive_solver congruence.
Qed.


(** The port survives exactly the sequences that write at most 32 characters
    between two turns of its thread: the 33rd passes the test for an overrun,
    which compares the count with 33, and is stored past the array. *)
Theorem transmitter_capacity w actions l :
  line_ok w l -> bytes_typed actions ->
  (exists l', acts actions l = Ret l') <-> fits (txd_pointer (port l)) actions = true.
Proof.
  revert l. induction actions as [|a actions IH]; intros l Hl Ha; cbn [acts fits].
  - split; [reflexivity|]. eauto.
  - inversion Ha as [|? ? Ht Hts]; subst. destruct a as [arrived| |datum].
    + destruct (cycle_spec w arrived l Hl Ht) as (l1 & -> & H1 & H2 & _). rewrite <- H2. apply (IH _ H1 Hts).
    + destruct (load_spec w l Hl) as (l1 & -> & H1 & H2 & _). rewrite <- H2. apply (IH _ H1 Hts).
    + destruct (Z.ltb_spec (txd_pointer (port l)) 32) as [Hn|Hn].
      * destruct (store_spec w datum l Hl Hn) as (l1 & -> & H1 & H2 & _). rewrite <- H2. apply (IH _ H1 Hts).
      * rewrite (store_crashes w datum l Hl); [|destruct Hl as [[_ H] _ _ _ _]; lia].
        split; [intros (l' & H)|intros H]; discriminate.
Qed.

(** ** A session *)

Definition opened : uart_module :=
  match fast_write UART_UCR1 1 (do_reset true (MkUart (fun _ => 0) (fun _ => 0) (fun _ => 0) 0 0 false false false false false
          false false false false 0 0 0 0)) with
  | Ret u => match fast_write UART_UCR2 0x27 u with Ret u => u | _ => u end
  | _ => do_reset true (MkUart (fun _ => 0) (fun _ => 0) (fun _ => 0) 0 0 false false false false false
          false false false false 0 0 0 0)
  end.

Definition session : line := MkLine opened (tzic_reset false) [] [] [].

Definition dialogue : list action := [Store 104; Cycle [97; 98]; Load; Store 105; Load; Cycle []; Load].

Lemma session_ok : line_ok true session.
Proof. split; [split; vm_compute; intuition discriminate|reflexivity|constructor..]. Qed.

Lemma dialogue_bytes : bytes_typed dialogue.
Proof. repeat constructor; lia. Qed.


Lemma transmitter_capacity_witness : fits 0 (repeat (Store 65) 33) = false /\ ~ exists l', acts (repeat (Store 65) 33) session = Ret l'.
Proof.
  split; [reflexivity|]. rewrite (transmitter_capacity true _ _ session_ok); [discriminate|].
  unfold bytes_typed. cbn [repeat]. repeat constructor.
Defined.
