(* ===== verification/Sd.v ===== *)
(** * The SD card of the ARM platform

    [src/armv7/src/sd.cpp] and [sd.h].  The image is the function [data], whose
    first [mapped] bytes are the pages of the mapped file; an access to memory
    outside the image or the line buffer is a [Crash], a call of [exit] an
    [Exit].  The bytes of a response a handler leaves uninitialised, and its
    type when the handler does not set it, are [None]. *)
From S2P Require Import Prelude.

Inductive response_type := R1 | R1b | R1bCMD12 | R2 | R3 | R4 | R5 | R5b | R6 | R7.

Record sd_response := MkResponse { type : option response_type; response : list (option Z) }.

(** The assignments to [resp.response], in order. *)
Definition respond (ty : option response_type) (writes : list (nat * Z)) : sd_response :=
  MkResponse ty (fold_left (fun r w => <[fst w := Some (snd w)]> r) writes (replicate 17 None)).

Inductive sd_state := SD_IDLE | SD_READY | SD_IDENT | SD_STBY | SD_TRAN | SD_DATA | SD_RCV | SD_PRG | SD_DIS | SD_INA.

#[export] Instance sd_state_eq_dec : EqDecision sd_state.
Proof. solve_decision. Defined.

Record sd_card := MkSd {
  current_state : sd_state;
  single_block_p : bool;
  application_specific_p : bool;
  data : Z -> Z;
  mapped : Z;
  blocklen : Z;
  current_block : Z;
  data_line : Z -> Z;
  rca : Z;
  card_selected_p : bool;
  bus_width : Z;
  data_line_busy : bool
}.

Definition update_state x c := MkSd x (single_block_p c) (application_specific_p c) (data c) (mapped c) (blocklen c)
  (current_block c) (data_line c) (rca c) (card_selected_p c) (bus_width c) (data_line_busy c).
Definition set_app x c := MkSd (current_state c) (single_block_p c) x (data c) (mapped c) (blocklen c)
  (current_block c) (data_line c) (rca c) (card_selected_p c) (bus_width c) (data_line_busy c).
Definition set_read b n c := MkSd (current_state c) b (application_specific_p c) (data c) (mapped c) (blocklen c)
  n (data_line c) (rca c) (card_selected_p c) (bus_width c) (data_line_busy c).
Definition set_blocklen x c := MkSd (current_state c) (single_block_p c) (application_specific_p c) (data c) (mapped c) x
  (current_block c) (data_line c) (rca c) (card_selected_p c) (bus_width c) (data_line_busy c).
Definition set_line x c := MkSd (current_state c) (single_block_p c) (application_specific_p c) (data c) (mapped c) (blocklen c)
  (current_block c) x (rca c) (card_selected_p c) (bus_width c) (data_line_busy c).
Definition set_rca x c := MkSd (current_state c) (single_block_p c) (application_specific_p c) (data c) (mapped c) (blocklen c)
  (current_block c) (data_line c) x (card_selected_p c) (bus_width c) (data_line_busy c).
Definition set_selected x c := MkSd (current_state c) (single_block_p c) (application_specific_p c) (data c) (mapped c) (blocklen c)
  (current_block c) (data_line c) (rca c) x (bus_width c) (data_line_busy c).
Definition set_width x c := MkSd (current_state c) (single_block_p c) (application_specific_p c) (data c) (mapped c) (blocklen c)
  (current_block c) (data_line c) (rca c) (card_selected_p c) x (data_line_busy c).
Definition set_busy x c := MkSd (current_state c) (single_block_p c) (application_specific_p c) (data c) (mapped c) (blocklen c)
  (current_block c) (data_line c) (rca c) (card_selected_p c) (bus_width c) x.

(** The constructor leaves the block length, the buffer and three other members
    uninitialised: they are those of [junk]. *)
Definition power_up (junk : sd_card) (image : Z -> Z) (pages : Z) : sd_card :=
  MkSd SD_IDLE (single_block_p junk) false image pages (blocklen junk) (current_block junk) (data_line junk) 0 false
       (bus_width junk) false.

Definition CSD : list Z := [0x40; 0x0e; 0x00; 0x32; 0x5b; 0x59; 0x00; 0x00; 0x1d; 0x6f; 0x7f; 0x80; 0x0a; 0x40; 0x00; 0x00].
Definition CID : list Z := [0x02; 0x54; 0x4d; 0x53; 0x41; 0x30; 0x34; 0x47; 0x06; 0x23; 0x65; 0xd7; 0xfd; 0x00; 0xb2; 0x00].
Definition SCR : list Z := [0x02; 0x35; 0x80; 0x00; 0x01; 0x00; 0x00; 0x00].
Definition SCR_SIZE : Z := 8.

(** [data_line], an array of 4096 bytes, after [memcpy (data_line, src, n)]. *)
Definition DATA_LINE_SIZE : Z := 4096.

Definition fill_line (src : Z -> Z) (n : Z) (line : Z -> Z) : exec (Z -> Z) :=
  if (0 <=? n) && (n <=? DATA_LINE_SIZE) then Ret (fun i => if (0 <=? i) && (i <? n) then src i else line i) else Crash.

(** ** The thread *)

Definition exec_state_data (c : sd_card) : exec sd_card :=
  if data_line_busy c then Ret c
  else
    let from := uwrap 32 (current_block c * blocklen c) in
    if negb (from + blocklen c <=? mapped c) then Crash
    else
      line ← fill_line (fun i => data c (from + i)) (blocklen c) (data_line c);
      let c := set_busy true (set_read (single_block_p c) (uwrap 32 (current_block c + 1)) (set_line line c)) in
      Ret (if single_block_p c then update_state SD_TRAN c else c).

(** A turn of [prc_sdcard]. *)
Definition sd_cycle (c : sd_card) : exec sd_card :=
  match current_state c with
  | SD_DATA => exec_state_data c
  | SD_RCV | SD_PRG => Exit "FSM State was not implemented in this model"
  | _ => Ret c
  end.

(** The bytes pushed on the queue of the caller, the result, and the card. *)
Definition read_dataline (c : sd_card) : exec (list Z * bool * sd_card) :=
  if data_line_busy c then
    if blocklen c <=? DATA_LINE_SIZE then Ret (data_line c <$> seqZ 0 (blocklen c), true, set_busy false c) else Crash
  else Ret ([], false, c).

(** ** The commands *)

Definition in_states (c : sd_card) (states : list sd_state) : bool := existsb (fun s => bool_decide (current_state c = s)) states.

Definition cmd0_handler (c : sd_card) : sd_response * sd_card :=
  (respond (Some R1) [], set_busy false (update_state SD_IDLE c)).

Definition cmd2_handler (c : sd_card) : sd_response * sd_card :=
  if in_states c [SD_READY] then
    (respond (Some R2) ((0%nat, 0x3F) :: zip (seq 1 16) (take 15 CID ++ [Z.lor 0x00 0x1])), update_state SD_IDENT c)
  else (respond (Some R2) [(0%nat, 0x03); (1%nat, 0); (2%nat, 0); (3%nat, 0); (3%nat, 0); (4%nat, 1)], c).

Definition cmd3_handler (c : sd_card) : sd_response * sd_card :=
  if in_states c [SD_IDENT; SD_STBY] then
    let c := set_rca 1 (update_state SD_STBY c) in
    (respond (Some R6) [(0%nat, 0x03); (1%nat, Z.shiftr (Z.land (rca c) 0xFF00) 8); (2%nat, Z.land (rca c) 0xFF);
                        (3%nat, 0); (3%nat, 0); (4%nat, 1)], c)
  else (respond (Some R6) [(0%nat, 0x03); (1%nat, 0); (2%nat, 0); (3%nat, 0); (3%nat, 0); (4%nat, 1)], c).

Definition cmd6_handler (arg : Z) (c : sd_card) : exec (sd_response * sd_card) :=
  if negb (Z.testbit arg 31) then
    line ← fill_line (fun _ => 0) 64 (data_line c);
    Ret (respond None [], set_busy true (set_line line (set_blocklen 64 c)))
  else Exit "Mode 1 not implemented in SWITCH instruction".

Definition cmd7_handler (arg : Z) (c : sd_card) : sd_response * sd_card :=
  let arg := Z.shiftr arg 16 in
  let c :=
    if (arg =? rca c) && negb (arg =? 0) then
      let c := set_selected true c in
      if in_states c [SD_STBY] then update_state SD_TRAN c
      else if in_states c [SD_DIS] then update_state SD_PRG c else c
    else
      let c := set_selected false c in
      if in_states c [SD_STBY; SD_TRAN; SD_DATA] then update_state SD_STBY c
      else if in_states c [SD_PRG] then update_state SD_PRG c else c in
  (respond (Some R1b) [(0%nat, 0xC7); (1%nat, 0); (2%nat, 0); (3%nat, 0); (3%nat, 0); (4%nat, 1)], c).

Definition cmd8_handler (arg : Z) (c : sd_card) : sd_response * sd_card :=
  if in_states c [SD_IDLE] then
    (respond (Some R7) [(0%nat, 0x48); (1%nat, 0); (2%nat, 0); (3%nat, Z.shiftr (Z.land arg 0xF00) 8);
                        (4%nat, Z.land arg 0xFF); (5%nat, 1)], c)
  else (respond (Some R7) [], c).

Definition cmd9_handler (c : sd_card) : sd_response * sd_card :=
  (respond (Some R2) (if in_states c [SD_STBY] then (0%nat, 0x3F) :: zip (seq 1 16) CSD else []), c).

Definition cmd12_handler (c : sd_card) : sd_response * sd_card :=
  (respond None [], if in_states c [SD_DATA] then update_state SD_TRAN c
                    else if in_states c [SD_RCV] then update_state SD_PRG c else c).

(** Not reached from [exec_cmd]. *)
Definition cmd13_handler (c : sd_card) : sd_response * sd_card :=
  (respond None (if in_states c [SD_IDLE; SD_READY; SD_IDENT; SD_INA] then []
                 else [(0%nat, 0xCD); (1%nat, 0); (2%nat, 0); (3%nat, 0); (4%nat, 0); (4%nat, 1)]), c).

Definition cmd16_handler (arg : Z) (c : sd_card) : exec (sd_response * sd_card) :=
  c ← (if in_states c [SD_TRAN] then
         if 4098 <? arg then Exit "SDCARD: BLOCKLEN too high. Overflow internal Buffer. aborting"
         else Ret (set_blocklen arg c)
       else Ret c);
  Ret (respond None [(0%nat, 0); (1%nat, 0); (2%nat, 0)], c).

Definition cmd17_handler (arg : Z) (c : sd_card) : sd_response * sd_card :=
  (respond None [], if in_states c [SD_TRAN] then update_state SD_DATA (set_read true arg (set_busy false c)) else c).

Definition cmd18_handler (arg : Z) (c : sd_card) : sd_response * sd_card :=
  (respond None [], if in_states c [SD_TRAN] then update_state SD_DATA (set_read false arg c) else c).

Definition cmd55_handler (c : sd_card) : sd_response * sd_card :=
  (respond (Some R1) [], if negb (in_states c [SD_READY; SD_INA; SD_IDENT]) then set_app true c else c).

Definition acmd41_handler (c : sd_card) : sd_response * sd_card :=
  if in_states c [SD_IDLE] then
    (respond (Some R3) [(0%nat, 0x3F); (1%nat, 0xFF); (2%nat, 0xFF); (3%nat, 0xFF); (4%nat, 0xFF); (5%nat, 0xFF)],
     update_state SD_READY c)
  else (respond None [], c).

Definition acmd51_handler (c : sd_card) : exec (sd_response * sd_card) :=
  line ← fill_line (fun i => nth (Z.to_nat i) SCR 0) SCR_SIZE (data_line c);
  Ret (respond (Some R1) [(0%nat, 0); (1%nat, 0); (2%nat, 0); (3%nat, 0); (5%nat, 0xFF)],
       set_busy true (set_line line (set_blocklen SCR_SIZE c))).

Definition acmd6_handler (arg : Z) (c : sd_card) : sd_response * sd_card :=
  (respond None [], set_width (Z.land arg 3) c).

Definition exec_cmd (cmd_index arg : Z) (c : sd_card) : exec (sd_response * sd_card) :=
  if negb (application_specific_p c) then
    match cmd_index with
    | 0 => Ret (cmd0_handler c)
    | 2 => Ret (cmd2_handler c)
    | 3 => Ret (cmd3_handler c)
    | 6 => cmd6_handler arg c
    | 7 => Ret (cmd7_handler arg c)
    | 8 => Ret (cmd8_handler arg c)
    | 9 => Ret (cmd9_handler c)
    | 12 => Ret (cmd12_handler c)
    | 16 => cmd16_handler arg c
    | 17 => Ret (cmd17_handler arg c)
    | 18 => Ret (cmd18_handler arg c)
    | 55 => Ret (cmd55_handler c)
    | 43 => Ret (respond (Some R1) [], c)
    | _ => Exit "CMD not supported/implemented in this model"
    end
  else
    let c := set_app false c in
    match cmd_index with
    | 6 => Ret (acmd6_handler arg c)
    | 41 => Ret (acmd41_handler c)
    | 51 => acmd51_handler c
    | _ => Exit "ACMD not supported/implemented in this model"
    end.

(** ** The SD card: the states it keeps to and the blocks it delivers

    The states reachable by any sequence of commands, cycles and reads of the
    data line, the stream of a multiple-block read, and the block lengths the
    buffer stands. *)

Inductive host_op :=
  | Cmd (cmd_index arg : Z)
  | Cycle                        (* a turn of the thread *)
  | Read.                        (* [read_dataline] *)

(** The bytes the controller gets, and the card. *)
Definition sd_op (o : host_op) (c : sd_card) : exec (list Z * sd_card) :=
  match o with
  | Cmd cmd_index arg => '(_, c) ← exec_cmd cmd_index arg c; Ret ([], c)
  | Cycle => c ← sd_cycle c; Ret ([], c)
  | Read => '(bytes, _, c) ← read_dataline c; Ret (bytes, c)
  end.

Fixpoint sd_run (ops : list host_op) (c : sd_card) : exec (list Z * sd_card) :=
  match ops with
  | [] => Ret ([], c)
  | o :: ops => '(bytes, c) ← sd_op o c; '(more, c) ← sd_run ops c; Ret (bytes ++ more, c)
  end.

(** ** The states *)

Definition served (s : sd_state) : bool :=
  match s with SD_IDLE | SD_READY | SD_IDENT | SD_STBY | SD_TRAN | SD_DATA => true | _ => false end.

(** The commands the card knows, in the state it is in. *)
Definition supported (cmd_index arg : Z) (c : sd_card) : bool :=
  if application_specific_p c then existsb (Z.eqb cmd_index) [6; 41; 51]
  else existsb (Z.eqb cmd_index) [0; 2; 3; 7; 8; 9; 12; 17; 18; 43; 55]
       || (cmd_index =? 6) && negb (Z.testbit arg 31)
       || (cmd_index =? 16) && ((arg <=? 4098) || negb (in_states c [SD_TRAN])).

(** A card in a served state, by cases on the state. *)
Ltac served_cases c Hs :=
  destruct c as [s single app image pages len block line address selected width busy];
  cbn [current_state] in Hs; destruct s; try discriminate Hs.

Lemma served_cmd7 arg c : served (current_state c) = true -> served (current_state (cmd7_handler arg c).2) = true.
Proof. intros Hs. unfold cmd7_handler. served_cases c Hs; cbn; destruct (_ && _); reflexivity. Qed.

Lemma served_simple c : served (current_state c) = true ->
  Forall (fun h => served (current_state (h c).2) = true)
    [cmd0_handler; cmd2_handler; cmd3_handler; cmd9_handler; cmd12_handler; cmd55_handler; acmd41_handler].
Proof. intros Hs. served_cases c Hs; repeat constructor. Qed.

Lemma served_argument arg c : served (current_state c) = true ->
  Forall (fun h => served (current_state (h arg c).2) = true)
    [cmd7_handler; cmd8_handler; cmd17_handler; cmd18_handler; acmd6_handler].
Proof.
  intros Hs. constructor; [apply served_cmd7; assumption|]. served_cases c Hs; repeat constructor.
Qed.

Lemma served_result (h : sd_response * sd_card) r c' :
  Ret h = Ret (r, c') -> served (current_state h.2) = true -> served (current_state c') = true.
Proof. intros [= ->]. auto. Qed.

Lemma served_checked i arg c r c' : served (current_state c) = true ->
  (match i with 6 => cmd6_handler arg c | 16 => cmd16_handler arg c | _ => acmd51_handler c end) = Ret (r, c') ->
  served (current_state c') = true.
Proof.
  intros Hs H.
  assert (H6 : cmd6_handler arg c = Ret (r, c') -> served (current_state c') = true).
  { unfold cmd6_handler. destruct (negb _); [|discriminate]. intros [= <- <-]. exact Hs. }
  assert (H16 : cmd16_handler arg c = Ret (r, c') -> served (current_state c') = true).
  { unfold cmd16_handler. destruct (in_states _ _); [destruct (_ <? _); [discriminate|]|]; intros [= <- <-]; exact Hs. }
  assert (H51 : acmd51_handler c = Ret (r, c') -> served (current_state c') = true) by (intros [= <- <-]; exact Hs).
  repeat match type of H with match ?i with _ => _ end = _ => destruct i; auto end; auto.
Qed.

Ltac destruct_Forall :=
  repeat match goal with H : Forall _ (_ :: _) |- _ => apply Forall_cons in H as [? H] end; cbv beta in *.

Lemma exec_cmd_served i arg c r c' : served (current_state c) = true -> exec_cmd i arg c = Ret (r, c') ->
  served (current_state c') = true.
Proof.
  intros Hs H. unfold exec_cmd in H.
  destruct (application_specific_p c); cbn [negb] in H.
  - set (c1 := set_app false c) in H. assert (Hs1 : served (current_state c1) = true) by exact Hs.
    pose proof (served_simple c1 Hs1) as F1. pose proof (served_argument arg c1 Hs1) as F2.
    repeat match type of H with
    | match ?i with _ => _ end = _ => destruct i; try discriminate
    end;
    try (apply (served_checked 51 arg c1 r c' Hs1 H));
    apply (served_result _ _ _ H); destruct_Forall; assumption.
  - pose proof (served_simple c Hs) as F1. pose proof (served_argument arg c Hs) as F2.
    repeat match type of H with
    | match ?i with _ => _ end = _ => destruct i; try discriminate
    end;
    try (apply (served_checked 6 arg c r c' Hs H)); try (apply (served_checked 16 arg c r c' Hs H));
    apply (served_result _ _ _ H); try exact Hs; destruct_Forall; assumption.
Qed.

(** The process ends exactly at an unsupported command. *)
Lemma exec_cmd_exit i arg c : (exists msg, exec_cmd i arg c = Exit msg) <-> supported i arg c = false.
Proof.
  assert (R : forall A (x : A), (exists msg, Ret x = Exit msg) <-> true = false) by (split; [intros [? ?]|]; discriminate).
  assert (E : forall A m, (exists msg, @Exit A m = Exit msg) <-> false = false) by (split; eauto).
  assert (H6 : (exists msg, cmd6_handler arg c = Exit msg) <-> negb (Z.testbit arg 31) = false).
  { unfold cmd6_handler. destruct (negb _); [apply R|apply E]. }
  assert (H16 : (exists msg, cmd16_handler arg c = Exit msg) <-> (arg <=? 4098) || negb (in_states c [SD_TRAN]) = false).
  { unfold cmd16_handler. destruct (in_states _ _); cbn [negb]; [|rewrite orb_true_r; apply R].
    destruct (Z.ltb_spec 4098 arg), (Z.leb_spec arg 4098); try lia; [apply E|apply R]. }
  unfold exec_cmd, supported. destruct (application_specific_p c); cbn [negb].
  - repeat match goal with |- context [match ?i with _ => _ end = Exit _] => destruct i; try apply E; try apply R end.
  - repeat match goal with |- context [match ?i with _ => _ end = Exit _] => destruct i; try apply E; try apply R end.
    + cbn [existsb Z.eqb Pos.eqb orb andb]. rewrite orb_false_r. exact H6.
    + exact H16.
Qed.

Lemma sd_cycle_served c : served (current_state c) = true -> forall msg, sd_cycle c <> Exit msg.
Proof.
  unfold sd_cycle, exec_state_data, fill_line. intros Hs msg. destruct (current_state c); try discriminate.
  destruct (data_line_busy c); [discriminate|]. destruct (negb _); [discriminate|]. destruct (_ && _); discriminate.
Qed.

Lemma sd_cycle_keeps c c' : served (current_state c) = true -> sd_cycle c = Ret c' -> served (current_state c') = true.
Proof.
  unfold sd_cycle, exec_state_data, fill_line. intros Hs H.
  destruct (current_state c) eqn:E; try discriminate; try (injection H as <-; rewrite E; reflexivity).
  destruct (data_line_busy c); [injection H as <-; rewrite E; reflexivity|].
  destruct (negb _); [discriminate|]. destruct (_ && _); [|discriminate]. injection H as <-.
  destruct (single_block_p c); cbn; rewrite ?E; reflexivity.
Qed.

Lemma read_dataline_keeps c x : read_dataline c = Ret x -> current_state x.2 = current_state c.
Proof.
  unfold read_dataline. destruct (data_line_busy c); [destruct (_ <=? _); [|discriminate]|]; intros [= <-]; reflexivity.
Qed.

Lemma sd_op_served o c bytes c' : served (current_state c) = true -> sd_op o c = Ret (bytes, c') ->
  served (current_state c') = true.
Proof.
  intros Hs H. destruct o as [i arg| |]; cbn [sd_op] in H.
  - destruct (exec_cmd i arg c) as [[r c1]| |] eqn:E; try discriminate. injection H as <- <-.
    apply (exec_cmd_served _ _ _ _ _ Hs E).
  - destruct (sd_cycle c) as [c1| |] eqn:E; try discriminate. injection H as <- <-. apply (sd_cycle_keeps _ _ Hs E).
  - destruct (read_dataline c) as [[[b f] c1]| |] eqn:E; try discriminate. injection H as <- <-.
    apply read_dataline_keeps in E. cbn in E. rewrite E. exact Hs.
Qed.

Lemma sd_run_served ops : forall c bytes c', served (current_state c) = true -> sd_run ops c = Ret (bytes, c') ->
  served (current_state c') = true.
Proof.
  induction ops as [|o ops IH]; intros c bytes c' Hs H; cbn [sd_run] in H; [injection H as <- <-; exact Hs|].
  destruct (sd_op o c) as [[b c1]| |] eqn:E; try discriminate. cbn in H.
  destruct (sd_run ops c1) as [[b2 c2]| |] eqn:E2; try discriminate. injection H as <- <-.
  apply (IH _ _ _ (sd_op_served _ _ _ _ Hs E) E2).
Qed.

(** Whatever commands, cycles and reads the card has gone through since it
    was built, it is not in one of the states the thread does not implement;
    the next operation ends the process only when it is a command the card does
    not support, and every such command does. *)
Theorem card_serves_until_unsupported junk image pages ops bytes c o :
  sd_run ops (power_up junk image pages) = Ret (bytes, c) ->
  served (current_state c) = true /\
  ((exists msg, sd_op o c = Exit msg) <-> exists i arg, o = Cmd i arg /\ supported i arg c = false).
Proof.
  intros H. apply sd_run_served in H; [|reflexivity]. split; [exact H|]. destruct o as [i arg| |]; cbn [sd_op].
  - transitivity (supported i arg c = false); [|split; [eauto|intros (? & ? & [= <- <-] & Hs); exact Hs]].
    rewrite <- exec_cmd_exit. destruct (exec_cmd i arg c) as [[r c1]|m|]; cbn; split; intros [msg Hm]; try discriminate; eauto.
  - split; [intros [msg Hm]|intros (? & ? & ? & _); discriminate].
    destruct (sd_cycle c) as [c1| |] eqn:E; try discriminate. destruct (sd_cycle_served c H _ E).
  - split; [intros [msg Hm]|intros (? & ? & ? & _); discriminate]. exfalso. revert Hm. unfold read_dataline.
    destruct (data_line_busy c); [destruct (_ <=? _)|]; discriminate.
Qed.

(** ** A multiple-block read *)

(** [n] bytes of the image from [from]. *)
Definition image_bytes (c : sd_card) (from n : Z) : list Z := data c <$> seqZ from n.

(** The bytes on the data line that have not been read. *)
Definition pending (c : sd_card) : list Z := if data_line_busy c then data_line c <$> seqZ 0 (blocklen c) else [].

Definition polls (o : host_op) : bool := match o with Cmd _ _ => false | _ => true end.

(** The card in a read of blocks of [n] bytes, from [c0]. *)
Record streaming (c0 c : sd_card) (b n : Z) (left : Z) : Prop := {
  st_state : current_state c = SD_DATA;
  st_multi : single_block_p c = false;
  st_len : blocklen c = n;
  st_image : data c = data c0 /\ mapped c = mapped c0;
  st_block : b <= current_block c;
  st_room : (current_block c + left) * n <= mapped c0
}.

Lemma image_bytes_app c from m n : 0 <= m -> 0 <= n -> image_bytes c from (m + n) = image_bytes c from m ++ image_bytes c (from + m) n.
Proof. intros. unfold image_bytes. rewrite seqZ_app by lia. apply fmap_app. Qed.

(** The data line after a block has been put on it. *)
Lemma line_block c f n : 0 <= n ->
  (fun i => if (0 <=? i) && (i <? n) then data c (f + i) else data_line c i) <$> seqZ 0 n = image_bytes c f n.
Proof.
  intros Hn. unfold image_bytes. replace (seqZ f n) with (seqZ (f + 0) n) by (f_equal; lia). rewrite <- (fmap_add_seqZ f 0 n), <- list_fmap_compose.
  apply list_fmap_ext. intros i x H. apply list_elem_of_lookup_2, elem_of_seqZ in H.
  unfold compose. destruct (Z.leb_spec 0 x), (Z.ltb_spec x n); try lia. reflexivity.
Qed.

Lemma stream_op c0 b n left o c : 0 <= b -> 0 < n <= DATA_LINE_SIZE -> mapped c0 < 2 ^ 32 -> 0 <= left ->
  polls o = true -> streaming c0 c b n (left + 1) ->
  exists bytes c', sd_op o c = Ret (bytes, c') /\ streaming c0 c' b n left /\ current_block c <= current_block c' /\
    bytes ++ pending c' = pending c ++ image_bytes c0 (current_block c * n) ((current_block c' - current_block c) * n).
Proof.
  intros Hb Hn Hm Hl Ho [Hs Hsi Hln [Hd Hmp] Hbl Hr].
  assert (Hle : (current_block c + left) * n <= mapped c0) by nia.
  assert (Hstay : streaming c0 c b n left) by (split; auto).
  assert (Hz : forall x, image_bytes c0 x ((current_block c - current_block c) * n) = [])
    by (intros x; rewrite Z.sub_diag; reflexivity).
  destruct o as [? ?| |]; [discriminate| |]; cbn [sd_op].
  - unfold sd_cycle. rewrite Hs. unfold exec_state_data. destruct (data_line_busy c) eqn:Ebusy.
    + exists [], c. split; [reflexivity|]. split; [exact Hstay|]. split; [lia|]. rewrite Hz, app_nil_r. reflexivity.
    + rewrite Hln, Hmp, Hsi.
      assert (Hfrom : 0 <= current_block c * n) by nia. assert (Hto : current_block c * n + n <= mapped c0) by nia.
      rewrite uwrap_small by lia. destruct (Z.leb_spec (current_block c * n + n) (mapped c0)); [|lia]. cbn [negb].
      unfold fill_line. destruct (Z.leb_spec 0 n), (Z.leb_spec n DATA_LINE_SIZE); try lia. cbn [andb mbind exec_bind].
      rewrite uwrap_small by (assert (current_block c + 1 <= mapped c0) by nia; lia).
      eexists _, _. split; [reflexivity|]. split; [split; cbn; auto; lia|]. cbn [current_block single_block_p set_busy set_read set_line].
      split; [lia|]. unfold pending. rewrite Ebusy. cbn [app data_line_busy set_busy blocklen set_read set_line data_line].
      rewrite Hln, line_block by lia. unfold image_bytes. rewrite Hd. do 2 f_equal. lia.
  - unfold read_dataline. unfold pending at 2. destruct (data_line_busy c) eqn:Ebusy.
    + rewrite Hln. destruct (Z.leb_spec n DATA_LINE_SIZE); [|lia]. eexists _, _. split; [reflexivity|].
      split; [split; cbn; auto|]. split; [cbn; lia|]. cbn [current_block set_busy]. rewrite Hz. reflexivity.
    + exists [], c. split; [reflexivity|]. split; [exact Hstay|]. split; [lia|]. rewrite Hz. unfold pending. rewrite Ebusy. reflexivity.
Qed.

Lemma stream_run c0 b n ops : forall c, 0 <= b -> 0 < n <= DATA_LINE_SIZE -> mapped c0 < 2 ^ 32 ->
  forallb polls ops = true -> streaming c0 c b n (Z.of_nat (length ops)) ->
  exists bytes c', sd_run ops c = Ret (bytes, c') /\ streaming c0 c' b n 0 /\ current_block c <= current_block c' /\
    bytes ++ pending c' = pending c ++ image_bytes c0 (current_block c * n) ((current_block c' - current_block c) * n).
Proof.
  induction ops as [|o ops IH]; intros c Hb Hn Hm Ho Hst; cbn [sd_run].
  - exists [], c. split; [reflexivity|]. split; [exact Hst|]. split; [lia|]. rewrite Z.sub_diag, app_nil_r. reflexivity.
  - cbn [forallb] in Ho. apply andb_true_iff in Ho as [Ho Hos].
    replace (Z.of_nat (length (o :: ops))) with (Z.of_nat (length ops) + 1) in Hst by (cbn [length]; lia).
    destruct (stream_op c0 b n (Z.of_nat (length ops)) o c) as (b1 & c1 & -> & H1 & Hc1 & E1); [lia..|exact Ho|exact Hst|].
    destruct (IH c1 Hb Hn Hm Hos H1) as (b2 & c2 & E & H2 & Hc2 & E2). cbn [mbind exec_bind]. rewrite E. cbn [mbind exec_bind].
    exists (b1 ++ b2), c2. split; [reflexivity|]. split; [exact H2|]. split; [lia|].
    rewrite <- app_assoc, E2, app_assoc, E1, <- app_assoc. f_equal.
    replace ((current_block c2 - current_block c) * n) with
      ((current_block c1 - current_block c) * n + (current_block c2 - current_block c1) * n) by lia.
    rewrite image_bytes_app by nia. do 2 f_equal. lia.
Qed.

(** The commands of a read. *)
Lemma in_states_eq c s : in_states c [s] = bool_decide (current_state c = s).
Proof. unfold in_states. cbn. apply orb_false_r. Qed.

Lemma exec_cmd18 b c : current_state c = SD_TRAN -> application_specific_p c = false ->
  sd_op (Cmd 18 b) c = Ret ([], update_state SD_DATA (set_read false b c)).
Proof. intros Hs Ha. cbn [sd_op]. unfold exec_cmd. rewrite Ha. cbn [negb mbind exec_bind].
  unfold cmd18_handler. rewrite in_states_eq, Hs. reflexivity. Qed.

Lemma exec_cmd17 b c : current_state c = SD_TRAN -> application_specific_p c = false ->
  sd_op (Cmd 17 b) c = Ret ([], update_state SD_DATA (set_read true b (set_busy false c))).
Proof. intros Hs Ha. cbn [sd_op]. unfold exec_cmd. rewrite Ha. cbn [negb mbind exec_bind].
  unfold cmd17_handler. rewrite in_states_eq, Hs. reflexivity. Qed.

(** C24. A multiple-block read from block [b], with the thread of the card and the
    controller in any order, gives the bytes of the image from that block on, in
    order and once each, after whatever a former read left on the data line: the
    bytes received and those waiting on the line are those left and the blocks
    loaded so far. *)
Theorem multiple_block_stream c b n ops :
  current_state c = SD_TRAN -> application_specific_p c = false -> blocklen c = n -> 0 < n <= DATA_LINE_SIZE ->
  0 <= b -> (b + Z.of_nat (length ops)) * n <= mapped c -> mapped c < 2 ^ 32 -> forallb polls ops = true ->
  exists bytes c', sd_run (Cmd 18 b :: ops) c = Ret (bytes, c') /\ current_state c' = SD_DATA /\ b <= current_block c' /\
    bytes ++ pending c' = pending c ++ image_bytes c (b * n) ((current_block c' - b) * n).
Proof.
  intros Hs Ha Hl Hn Hb Hr Hm Ho. cbn [sd_run]. rewrite exec_cmd18 by assumption. cbn [mbind exec_bind].
  destruct (stream_run c b n ops (update_state SD_DATA (set_read false b c))) as (bytes & c' & -> & H1 & H2 & H3); auto.
  { split; cbn; auto; lia. }
  exists bytes, c'. split; [reflexivity|]. split; [apply H1|]. split; [exact H2|]. exact H3.
Qed.

Lemma exec_cmd16 n c : current_state c = SD_TRAN -> application_specific_p c = false ->
  sd_op (Cmd 16 n) c = if 4098 <? n then Exit "SDCARD: BLOCKLEN too high. Overflow internal Buffer. aborting"
                       else Ret ([], set_blocklen n c).
Proof.
  intros Hs Ha. cbn [sd_op]. unfold exec_cmd. rewrite Ha. cbn [negb]. unfold cmd16_handler. rewrite in_states_eq, Hs.
  destruct (4098 <? n); reflexivity.
Qed.

(** A turn of the thread in a single-block read. *)
Lemma single_cycle c b n : current_state c = SD_DATA -> single_block_p c = true -> data_line_busy c = false ->
  current_block c = b -> blocklen c = n -> 0 <= n -> 0 <= b * n -> b * n + n <= mapped c -> mapped c < 2 ^ 32 ->
  sd_cycle c = if n <=? DATA_LINE_SIZE
               then Ret (update_state SD_TRAN (set_busy true (set_read true (uwrap 32 (b + 1))
                         (set_line (fun i => if (0 <=? i) && (i <? n) then data c (b * n + i) else data_line c i) c))))
               else Crash.
Proof.
  intros Hs Hsi Hbu Hb Hl Hn H0 Hr Hm. unfold sd_cycle. rewrite Hs. unfold exec_state_data. rewrite Hbu, Hb, Hl, Hsi.
  rewrite uwrap_small by lia. destruct (Z.leb_spec (b * n + n) (mapped c)); [|lia]. cbn [negb].
  unfold fill_line. destruct (Z.leb_spec 0 n); [|lia]. cbn [andb].
  destruct (n <=? DATA_LINE_SIZE); reflexivity.
Qed.

(** The block lengths CMD16 accepts and those the card stands: a read of one
    block after it is right up to 4096 bytes, writes past the buffer for 4097
    and 4098, and for more the process has ended at CMD16. *)
Theorem block_length_bounds c b n :
  current_state c = SD_TRAN -> application_specific_p c = false -> mapped c < 2 ^ 32 ->
  0 <= n -> 0 <= b -> b * n + n <= mapped c ->
  match sd_run [Cmd 16 n; Cmd 17 b; Cycle; Read] c with
  | Ret (bytes, c') => n <= 4096 /\ bytes = image_bytes c (b * n) n /\ current_state c' = SD_TRAN
  | Crash => 4096 < n <= 4098
  | Exit _ => 4098 < n
  end.
Proof.
  intros Hs Ha Hm Hn Hb Hr. cbn [sd_run].
  rewrite exec_cmd16 by assumption. destruct (Z.ltb_spec 4098 n); [assumption|]. cbn [mbind exec_bind].
  rewrite exec_cmd17 by assumption. cbn [mbind exec_bind].
  set (c1 := update_state SD_DATA _).
  assert (E : sd_op Cycle c1 = (c2 ← sd_cycle c1; Ret ([], c2))) by reflexivity. rewrite E.
  rewrite (single_cycle c1 b n) by (reflexivity || assumption || nia).
  destruct (Z.leb_spec n DATA_LINE_SIZE) as [Hle|Hgt]; cbn [mbind exec_bind]; [|unfold DATA_LINE_SIZE in Hgt; lia].
  set (c2 := update_state SD_TRAN _).
  assert (E2 : sd_op Read c2 = Ret (data_line c2 <$> seqZ 0 n, set_busy false c2)).
  { cbn [sd_op]. unfold read_dataline. change (data_line_busy c2) with true. change (blocklen c2) with n.
    destruct (Z.leb_spec n DATA_LINE_SIZE); [reflexivity|lia]. }
  rewrite E2. cbn [mbind exec_bind app]. rewrite app_nil_r.
  split; [exact Hle|]. split; [|reflexivity]. apply (line_block c). exact Hn.
Qed.

(** ** A session *)

Definition blank : sd_card := MkSd SD_IDLE false false (fun _ => 0) 0 512 0 (fun _ => 0) 0 false 0 false.
Definition identify : list host_op :=
  [Cmd 0 0; Cmd 8 0x1AA; Cmd 55 0; Cmd 41 0; Cmd 2 0; Cmd 3 0; Cmd 9 0; Cmd 7 0x10000; Cycle; Cmd 16 4].

(** The identification sequence takes the card from power-up to the transfer
    state; here with blocks of four bytes. *)
Definition identified : sd_card :=
  match sd_run identify (power_up blank (fun i => i mod 256) 8192) with Ret (_, c) => c | _ => blank end.

Lemma card_serves_until_unsupported_witness :
  (exists bytes, sd_run identify (power_up blank (fun i => i mod 256) 8192) = Ret (bytes, identified)) /\
  served (current_state identified) = true /\ exists msg, sd_op (Cmd 13 0) identified = Exit msg.
Proof.
  assert (H : sd_run identify (power_up blank (fun i => i mod 256) 8192) = Ret ([], identified)) by (vm_compute; reflexivity).
  split; [eauto|]. destruct (card_serves_until_unsupported blank (fun i => i mod 256) 8192 identify [] identified (Cmd 13 0) H) as [Hs He].
  split; [exact Hs|]. apply He. exists 13, 0. split; reflexivity.
Defined.

Lemma multiple_block_stream_witness : exists bytes c',
  sd_run [Cmd 18 2; Cycle; Read; Read; Cycle; Cycle; Read; Cycle] identified = Ret (bytes, c') /\
  bytes = [8; 9; 10; 11; 12; 13; 14; 15] /\
  bytes ++ pending c' = pending identified ++ image_bytes identified 8 ((current_block c' - 2) * 4).
Proof.
  destruct (multiple_block_stream identified 2 4 [Cycle; Read; Read; Cycle; Cycle; Read; Cycle]) as (bytes & c' & H & _ & _ & E);
    try reflexivity; try (vm_compute; intuition discriminate).
  exists bytes, c'. split; [exact H|]. split; [|exact E].
  assert (R : exists c2, sd_run [Cmd 18 2; Cycle; Read; Read; Cycle; Cycle; Read; Cycle] identified =
                         Ret ([8; 9; 10; 11; 12; 13; 14; 15], c2)) by (vm_compute; eauto).
  destruct R as [c2 R]. rewrite R in H. injection H as <- _. reflexivity.
Defined.

Lemma block_length_bounds_witness :
  (exists c', sd_run [Cmd 16 4097; Cmd 17 0; Cycle; Read] identified = c') /\
  match sd_run [Cmd 16 4097; Cmd 17 0; Cycle; Read] identified with Crash => 4096 < 4097 <= 4098 | _ => False end.
Proof.
  split; [eauto|].
  pose proof (block_length_bounds identified 0 4097 ltac:(reflexivity) ltac:(reflexivity) ltac:(reflexivity)
    ltac:(lia) ltac:(lia) ltac:(vm_compute; discriminate)) as H.
  destruct (sd_run _ identified) as [[bytes c']|m|]; [destruct H; lia|lia|exact H].
Defined.
