(* ===== verification/Esdhc.v ===== *)
(** * The SD host controller of the ARM platform

    [src/armv7/src/esdhcv2.cpp] and [esdhcv2.h].  The controller drives one card
    ([Sd]) and an input of the interrupt controller ([Tzic]); the state is the
    three.  The response registers are [None] where the card left the response,
    or its type, uninitialised.  Flags that no assignment sets are left out;
    [proctl] is the word the protocol control flags read as, and [junk] holds
    what the constructor leaves uninitialised. *)
From S2P Require Import Prelude ArmCore Tzic Sd.

Inductive state := IDLE | HOST_WRITE | HOST_READ_TRANSFER | HOST_READ_DONE | HOST_WRITE_DONE.

Definition IRQ_CINS_int : Z := 6.
Definition IRQ_BRR : Z := 5.
Definition IRQ_TC : Z := 1.
Definition IRQ_CC : Z := 0.

Definition DSADR : Z := 0x00.
Definition BLKATTR : Z := 0x04.
Definition CMDARG : Z := 0x08.
Definition XFERTYP : Z := 0x0C.
Definition CMDRSP0 : Z := 0x10.
Definition CMDRSP3 : Z := 0x1C.
Definition DATPORT : Z := 0x20.
Definition PRSSTAT : Z := 0x24.
Definition PROCTL : Z := 0x28.
Definition SYSCTL : Z := 0x2C.
Definition IRQSTAT : Z := 0x30.
Definition IRQSTATEN : Z := 0x34.
Definition IRQSIGEN : Z := 0x38.
Definition WML : Z := 0x44.
Definition FEVT : Z := 0x50.
Definition ADMAEST : Z := 0x54.
Definition ADSADDR : Z := 0x58.
Definition VENDOR : Z := 0xC0.
Definition MMCBOOT : Z := 0xC4.
Definition HOSTVER : Z := 0xFC.
Definition ESDHCV_LASTADDR : Z := 0x100.
Definition ESDHCV2_1_IRQ : Z := 1.

(** The transfer type register. *)
Record xfertyp := MkXfer {
  DMAEN : bool; BCEN : bool; AC12EN : bool; DTDSEL : bool; MSBSEL : bool; RSPTYP : Z; DPSEL : bool; CMDTYP : Z; CMDINX : Z
}.

(** The present state register. *)
Record prsstat := MkPrs { CINS : bool; BREN : bool; RTA : bool; SDSTB : bool; DLA : bool; CDIHB : bool; CIHB : bool }.

Record sysctl := MkSys { DTOCV : Z; SDCLKFS : Z; DVS : Z; SDCLKEN : bool; PEREN : bool; HCKEN : bool; IPGEN : bool }.
Record wml := MkWml { WR_BRST_LEN : Z; WR_WML : Z; RD_BRST_LEN : Z; RD_WML : Z }.
Record blkattr := MkBlk { BLKCNT : Z; BLKSIZE : Z; BLKCNT_BKP : Z }.

Record esdhc_module := MkEsdhc {
  current_state : state;
  regs : Z -> Z;
  cmdrsp : Z -> option Z;        (* CMDRSP0 to CMDRSP3 *)
  xfer : xfertyp;
  prs : prsstat;
  proctl : Z;
  sys : sysctl;
  wm : wml;
  adma : Z * Z;                  (* the word ADMAEST reads as, and ADMAES *)
  blk : blkattr;
  port : bool;                   (* whether a card is connected *)
  ibuffer : list Z
}.

Definition set_state x h := MkEsdhc x (regs h) (cmdrsp h) (xfer h) (prs h) (proctl h) (sys h) (wm h) (adma h) (blk h) (port h) (ibuffer h).
Definition set_regs x h := MkEsdhc (current_state h) x (cmdrsp h) (xfer h) (prs h) (proctl h) (sys h) (wm h) (adma h) (blk h) (port h) (ibuffer h).
Definition set_cmdrsp x h := MkEsdhc (current_state h) (regs h) x (xfer h) (prs h) (proctl h) (sys h) (wm h) (adma h) (blk h) (port h) (ibuffer h).
Definition set_xfer x h := MkEsdhc (current_state h) (regs h) (cmdrsp h) x (prs h) (proctl h) (sys h) (wm h) (adma h) (blk h) (port h) (ibuffer h).
Definition set_prs x h := MkEsdhc (current_state h) (regs h) (cmdrsp h) (xfer h) x (proctl h) (sys h) (wm h) (adma h) (blk h) (port h) (ibuffer h).
Definition set_proctl x h := MkEsdhc (current_state h) (regs h) (cmdrsp h) (xfer h) (prs h) x (sys h) (wm h) (adma h) (blk h) (port h) (ibuffer h).
Definition set_sys x h := MkEsdhc (current_state h) (regs h) (cmdrsp h) (xfer h) (prs h) (proctl h) x (wm h) (adma h) (blk h) (port h) (ibuffer h).
Definition set_wm x h := MkEsdhc (current_state h) (regs h) (cmdrsp h) (xfer h) (prs h) (proctl h) (sys h) x (adma h) (blk h) (port h) (ibuffer h).
Definition set_blk x h := MkEsdhc (current_state h) (regs h) (cmdrsp h) (xfer h) (prs h) (proctl h) (sys h) (wm h) (adma h) x (port h) (ibuffer h).
Definition set_port x h := MkEsdhc (current_state h) (regs h) (cmdrsp h) (xfer h) (prs h) (proctl h) (sys h) (wm h) (adma h) (blk h) x (ibuffer h).
Definition set_ibuffer x h := MkEsdhc (current_state h) (regs h) (cmdrsp h) (xfer h) (prs h) (proctl h) (sys h) (wm h) (adma h) (blk h) (port h) x.

Definition set_reg (i v : Z) (h : esdhc_module) : esdhc_module := set_regs (fun j => if j =? i then v else regs h j) h.

Definition set_CINS x p := MkPrs x (BREN p) (RTA p) (SDSTB p) (DLA p) (CDIHB p) (CIHB p).
Definition set_BREN x p := MkPrs (CINS p) x (RTA p) (SDSTB p) (DLA p) (CDIHB p) (CIHB p).
Definition set_SDSTB x p := MkPrs (CINS p) (BREN p) (RTA p) x (DLA p) (CDIHB p) (CIHB p).
Definition set_lines rta dla cdihb p := MkPrs (CINS p) (BREN p) rta (SDSTB p) dla cdihb (CIHB p).
Definition set_CDIHB x p := MkPrs (CINS p) (BREN p) (RTA p) (SDSTB p) (DLA p) x (CIHB p).
Definition set_CIHB x p := MkPrs (CINS p) (BREN p) (RTA p) (SDSTB p) (DLA p) (CDIHB p) x.

(** The controller with its card and the interrupt controller. *)
Definition host : Type := esdhc_module * sd_card * tzic_module.

(** ** Reset *)

Definition reset_regs : list (Z * Z) :=
  [(WML, 0x08100810); (IRQSTAT, 0); (IRQSTATEN, 0x117F013F); (IRQSIGEN, 0); (0x3C, 0); (0x40, 0x07F30000)].

(** [regs[ADMAES / 4] = 0], where [ADMAES] is a member, not an address. *)
Definition do_reset (h : esdhc_module) : exec esdhc_module :=
  let put h p := set_reg (fst p / 4) (snd p) h in
  let h := fold_left put [(DSADR, 0); (BLKATTR, 0); (CMDARG, 0); (DATPORT, 0)] h in
  let h := set_cmdrsp (fun _ => Some 0) h in
  let h := set_xfer (MkXfer false false false false false 0 false 0 0) h in
  let h := set_prs (MkPrs (port h) false false false false false false) h in
  let h := set_proctl (Z.land (proctl h) 0x112) h in
  let h := set_sys (MkSys 0 0x08 0 true false false false) h in
  let h := set_wm (MkWml 0x8 0x10 0x8 0x10) h in
  let h := fold_left put reset_regs h in
  let i := Z.quot (snd (adma h)) 4 in
  if 0 <=? i then
    Ret (fold_left put [(ADSADDR, 0); (VENDOR, 0x1); (MMCBOOT, 0); (HOSTVER, 0x1201)] (set_reg i 0 h))
  else Crash.

Definition new_esdhc (junk : esdhc_module) : exec esdhc_module :=
  h ← do_reset (set_ibuffer [] junk);
  Ret (set_port false (set_state IDLE (set_prs (set_CIHB false (prs h)) h))).

(** Erases what is left of a transfer; not called. *)
Definition reset_DAT_line (h : esdhc_module) : esdhc_module :=
  let h := set_prs (set_BREN false (set_lines false false false (prs h))) h in
  let h := set_proctl (Z.land (proctl h) (not32 0x30000)) h in
  set_ibuffer [] (set_reg (IRQSTAT / 4) (Z.land (regs h (IRQSTAT / 4)) (not32 0x3E)) h).

(** ** Signals *)

Definition generate_signal (irqnum : Z) (s : host) : exec host :=
  let '(h, c, t) := s in
  let h := if getBit (regs h (IRQSTATEN / 4)) irqnum
           then set_reg (IRQSTAT / 4) (setBit (regs h (IRQSTAT / 4)) irqnum) h else h in
  t ← (if getBit (regs h (IRQSIGEN / 4)) irqnum then interrupt ESDHCV2_1_IRQ true t else Ret t);
  Ret (h, c, t).

Definition connect_card (card : sd_card) (s : host) : exec host :=
  let '(h, _, t) := s in
  let h := set_port true h in
  generate_signal IRQ_CINS_int (set_prs (set_CINS true (prs h)) h, card, t).

Definition update_state (new_state : state) (h : esdhc_module) : exec esdhc_module :=
  match new_state with
  | HOST_READ_TRANSFER => Ret (set_state HOST_READ_TRANSFER (set_prs (set_lines true true true (prs h)) h))
  | HOST_READ_DONE => Ret (set_state HOST_READ_DONE (set_prs (set_lines false false false (prs h)) h))
  | HOST_WRITE => Exit "WRITE not implement in this model"
  | IDLE => Ret (set_state IDLE h)
  | HOST_WRITE_DONE => Ret h
  end.

(** ** Responses *)

(** [resp.response[i] << 24 | ...] over the given bytes, the first highest. *)
Definition response_word (resp : sd_response) (indices : list nat) : option Z :=
  fold_left (fun v i => v ← v; byte ← (response resp !! i) ≫= id; Some (Z.lor (Z.shiftl v 8) byte)) indices (Some 0).

Definition decode_response (resp : sd_response) (h : esdhc_module) : esdhc_module :=
  let words w0 w1 w2 w3 :=
    set_cmdrsp (fun i => if i =? 0 then w0 else if i =? 1 then w1 else if i =? 2 then w2 else w3) h in
  let first := response_word resp [1; 2; 3; 4]%nat in
  match type resp with
  | Some R6 => words (v ← first; Some (Z.land v (not32 1))) (Some 0) (Some 0) (Some 0)
  | Some R1bCMD12 => words (Some 0) (Some 0) (Some 0) first
  | Some R2 => words (response_word resp [12; 13; 14; 15]%nat) (response_word resp [8; 9; 10; 11]%nat)
                     (response_word resp [4; 5; 6; 7]%nat) (response_word resp [1; 2; 3]%nat)
  | Some _ => words first (Some 0) (Some 0) (Some 0)
  | None => words None None None None
  end.

(** [port->exec_cmd], with no card a call through an invalid pointer. *)
Definition port_exec_cmd (cmd_index arg : Z) (h : esdhc_module) (c : sd_card) : exec (sd_response * sd_card) :=
  if port h then exec_cmd cmd_index arg c else Crash.

Definition execute_xfertyp_command (s : host) : exec host :=
  let '(h, c, t) := s in
  '(resp, c) ← port_exec_cmd (CMDINX (xfer h)) (regs h (CMDARG / 4)) h c;
  let h := decode_response resp h in
  h ← (if DPSEL (xfer h) then
         update_state (if DTDSEL (xfer h) then HOST_READ_TRANSFER else HOST_WRITE) (set_prs (set_CDIHB true (prs h)) h)
       else Ret h);
  '(h, c, t) ← generate_signal IRQ_CC (h, c, t);
  Ret (set_prs (set_CIHB false (prs h)) h, c, t).

(** ** The thread *)

Definition sd_protocol (s : host) : exec host :=
  let '(h, c, t) := s in
  match current_state h with
  | HOST_READ_TRANSFER =>
      if negb (port h) then Crash
      else if data_line_busy c then
        '(bytes, _, c) ← read_dataline c;
        let h := set_ibuffer (ibuffer h ++ bytes) h in
        if MSBSEL (xfer h) then
          if BCEN (xfer h) then
            let count := uwrap 16 (BLKCNT (blk h) - 1) in
            if count =? 0 then
              '(_, c) ← port_exec_cmd 12 (regs h (CMDARG / 4)) h c;
              h ← update_state HOST_READ_DONE (set_blk (MkBlk (BLKCNT_BKP (blk h)) (BLKSIZE (blk h)) (BLKCNT_BKP (blk h))) h);
              Ret (h, c, t)
            else Ret (set_blk (MkBlk count (BLKSIZE (blk h)) (BLKCNT_BKP (blk h))) h, c, t)
          else Ret (h, c, t)
        else
          h ← update_state HOST_READ_DONE h;
          Ret (h, c, t)
      else Ret (h, c, t)
  | HOST_WRITE => Exit "ESDHC WRITE not implement in this model"
  | _ => Ret (h, c, t)
  end.

Definition reading (x : state) : bool := match x with HOST_READ_TRANSFER | HOST_READ_DONE => true | _ => false end.

Definition host_protocol (s : host) : exec host :=
  let '(h, c, t) := s in
  if reading (current_state h) then
    '(h, c, t) ← (if RD_WML (wm h) <=? Z.of_nat (length (ibuffer h))
                  then generate_signal IRQ_BRR (set_prs (set_BREN true (prs h)) h, c, t) else Ret (h, c, t));
    match current_state h, ibuffer h with
    | HOST_READ_DONE, [] =>
        '(h, c, t) ← generate_signal IRQ_TC (h, c, t);
        h ← update_state IDLE h;
        Ret (h, c, t)
    | _, _ => Ret (h, c, t)
    end
  else Ret (h, c, t).

(** A turn of [prc_ESDHCV2]. *)
Definition esdhc_cycle (s : host) : exec host :=
  match current_state s.1.1 with
  | IDLE => Ret s
  | _ => s ← sd_protocol s; host_protocol s
  end.

(** ** The registers *)

(** [b << n]. *)
Definition flag (b : bool) (n : Z) : Z := if b then Z.shiftl 1 n else 0.
Definition bits (words : list Z) : Z := fold_left Z.lor words 0.
Definition valid (address : Z) : bool := (0 <=? address) && (address / 4 <? ESDHCV_LASTADDR / 4).

(** The first bytes of the buffer as a little-endian word. *)
Fixpoint le_word (bytes : list Z) : Z := match bytes with [] => 0 | b :: bytes => Z.lor b (Z.shiftl (le_word bytes) 8) end.

(** The word read, [None] where it is uninitialised. *)
Definition fast_read (address : Z) (h : esdhc_module) : exec (option Z * esdhc_module) :=
  let word v := Ret (Some (u32 v), h) in
  let x := xfer h in let p := prs h in let y := sys h in let w := wm h in
  if address =? BLKATTR then word (bits [Z.shiftl (BLKCNT (blk h)) 16; Z.land (BLKSIZE (blk h)) 0x1FFF])
  else if address =? XFERTYP then
    word (bits [Z.shiftl (Z.land (CMDINX x) 0x3F) 24; Z.shiftl (Z.land (CMDTYP x) 3) 22; flag (DPSEL x) 21;
                Z.shiftl (Z.land (RSPTYP x) 3) 16; flag (MSBSEL x) 5; flag (DTDSEL x) 4; flag (AC12EN x) 2; flag (BCEN x) 1;
                flag (DMAEN x) 0])
  else if address =? PRSSTAT then
    word (bits [flag (CINS p) 16; flag (BREN p) 11; flag (RTA p) 9; flag (SDSTB p) 3; flag (DLA p) 2; flag (CDIHB p) 1;
                flag (CIHB p) 0])
  else if address =? PROCTL then word (proctl h)
  else if address =? SYSCTL then
    word (bits [Z.shiftl (Z.land (DTOCV y) 0xF) 16; Z.shiftl (swrap 8 (SDCLKFS y)) 8; Z.shiftl (Z.land (DVS y) 0xF) 4;
                flag (SDCLKEN y) 3; flag (PEREN y) 2; flag (HCKEN y) 1; flag (IPGEN y) 0])
  else if address =? WML then
    word (bits [Z.shiftl (WR_BRST_LEN w) 24; Z.shiftl (WR_WML w) 16; Z.shiftl (RD_BRST_LEN w) 8; RD_WML w])
  else if address =? FEVT then word 0
  else if address =? ADMAEST then word (fst (adma h))
  else if address =? DATPORT then
    Ret (Some (u32 (le_word (take 4 (ibuffer h)))), set_ibuffer (drop 4 (ibuffer h)) (set_prs (set_BREN false p) h))
  else if (CMDRSP0 <=? address) && (address <? CMDRSP3 + 4) then Ret (cmdrsp h ((address - CMDRSP0) / 4), h)
  else if valid address then Ret (Some (regs h (address / 4)), h) else Crash.

Definition field (datum low width : Z) : Z := Z.land (Z.shiftr datum low) (Z.ones width).

Definition write_blkattr (datum : Z) (h : esdhc_module) : esdhc_module :=
  set_blk (MkBlk (Z.shiftr datum 16) (Z.land datum 0x1FFF) (Z.shiftr datum 16)) h.

(** An assignment to MMCBOOT falls through to BLKATTR. *)
Definition fast_write (address datum : Z) (s : host) : exec host :=
  let '(h, c, t) := s in
  let put v := Ret (set_reg (address / 4) v h, c, t) in
  if address =? DSADR then put (Z.land datum (not32 3))
  else if address =? CMDARG then if CIHB (prs h) then Ret s else put datum
  else if address =? XFERTYP then
    if CIHB (prs h) then Ret s
    else
      let x := MkXfer (getBit datum 0) (getBit datum 1) (getBit datum 2) (getBit datum 4) (getBit datum 5) (field datum 16 2)
                 (getBit datum 21) (field datum 22 2) (field datum 24 6) in
      execute_xfertyp_command (set_prs (set_CIHB true (prs h)) (set_xfer x h), c, t)
  else if address =? PROCTL then Ret (set_proctl (Z.land datum 0x070F03FF) h, c, t)
  else if address =? SYSCTL then
    let h := set_sys (MkSys (field datum 16 4) (field datum 8 8) (u8 (Z.land (Z.shiftr datum 4) 0x1111)) (getBit datum 3)
                        (getBit datum 2) (getBit datum 1) (getBit datum 0)) h in
    h ← (if getBit datum 24 then do_reset h else Ret h);
    Ret (set_prs (set_SDSTB true (prs h)) h, c, t)
  else if address =? IRQSTAT then put (Z.land (regs h (IRQSTAT / 4)) (not32 datum))
  else if address =? IRQSTATEN then put (Z.lor (Z.shiftl 1 28) (Z.land datum 0x17F01FF))
  else if address =? IRQSIGEN then put (Z.land datum 0x117F01FE)
  else if address =? WML then
    Ret (set_wm (MkWml (field datum 24 5) (field datum 16 8) (field datum 8 5) (field datum 0 8)) h, c, t)
  else if address =? FEVT then Ret (set_reg (IRQSTAT / 4) (Z.land (regs h (IRQSTATEN / 4)) datum) h, c, t)
  else if address =? ADSADDR then put (Z.land datum 0xFE)
  else if address =? VENDOR then put (Z.land datum 0xFFF0003)
  else if address =? MMCBOOT then Ret (write_blkattr datum (set_reg (MMCBOOT / 4) (Z.land datum 0xFF0F) h), c, t)
  else if address =? BLKATTR then Ret (write_blkattr datum h, c, t)
  else Ret s.
