(* ===== verification/EsdhcOk.v ===== *)
(** * The SD host controller and the card together

    A driver that starts a multiple-block read through the registers gets the
    blocks of the image it asked for, and the transfer ends by itself; the
    controller never asserts its interrupt. *)
From S2P Require Import Prelude ArmCore ArmCoreOk Tzic Sd Esdhc.

(** ** The platform of a transfer *)

Inductive xfer_op :=
  | CardTurn
  | HostTurn
  | ReadPort.                    (* a read of DATPORT *)

(** The bytes of the word read that come from the buffer. *)
Fixpoint low_bytes (n : nat) (v : Z) : list Z :=
  match n with O => [] | S n => Z.land v 0xFF :: low_bytes n (Z.shiftr v 8) end.

Definition xfer_step (o : xfer_op) (s : host) : exec (list Z * host) :=
  let '(h, c, t) := s in
  match o with
  | CardTurn => c ← sd_cycle c; Ret ([], (h, c, t))
  | HostTurn => s ← esdhc_cycle (h, c, t); Ret ([], s)
  | ReadPort =>
      '(v, h') ← fast_read DATPORT h;
      Ret (match v with Some v => take (length (ibuffer h)) (low_bytes 4 v) | None => [] end, (h', c, t))
  end.

Fixpoint xfer_run (ops : list xfer_op) (s : host) : exec (list Z * host) :=
  match ops with
  | [] => Ret ([], s)
  | o :: ops => '(bytes, s) ← xfer_step o s; '(more, s) ← xfer_run ops s; Ret (bytes ++ more, s)
  end.

(** CMD18 with a block count, to be stopped by the controller. *)
Definition READ_BLOCKS : Z := bits [Z.shiftl 18 24; Z.shiftl 1 21; Z.shiftl 1 5; Z.shiftl 1 4; Z.shiftl 1 1].

(** What the driver writes to read [k] blocks of [n] bytes from block [b]. *)
Definition start_read (b n k : Z) (s : host) : exec host :=
  s ← fast_write BLKATTR (Z.lor (Z.shiftl k 16) n) s;
  s ← fast_write CMDARG b s;
  fast_write XFERTYP READ_BLOCKS s.

(** The blocks moved to the buffer: a turn of the card fills the data line, a
    turn of the controller empties it. *)
Fixpoint moved (k : Z) (loaded : bool) (ops : list xfer_op) : Z :=
  match ops with
  | [] => 0
  | CardTurn :: ops => if 0 <? k then moved k true ops else moved k loaded ops
  | HostTurn :: ops => if loaded then 1 + moved (k - 1) false ops else moved k false ops
  | ReadPort :: ops => moved k loaded ops
  end.

(** ** Words and bytes *)

Lemma byte_land c : 0 <= c < 256 -> Z.land c 0xFF = c.
Proof. intros H. change 0xFF with (Z.ones 8). rewrite Z.land_ones by lia. apply Z.mod_small. lia. Qed.

Lemma le_word_range bytes : Forall (fun c => 0 <= c < 256) bytes -> 0 <= le_word bytes < 2 ^ (8 * Z.of_nat (length bytes)).
Proof.
  induction 1 as [|c bytes Hc _ IH]; cbn [le_word length]; [cbn; lia|].
  replace (8 * Z.of_nat (S (length bytes))) with (8 * Z.of_nat (length bytes) + 8) by lia.
  set (w := 8 * Z.of_nat (length bytes)) in *. assert (0 <= w) by lia.
  assert (0 <= Z.lor c (Z.shiftl (le_word bytes) 8)).
  { apply Z.lor_nonneg. split; [lia|]. apply Z.shiftl_nonneg. lia. }
  split; [assumption|]. apply bits_range; [lia|assumption|]. intros i Hi.
  rewrite Z.lor_spec, Z.shiftl_spec by lia.
  rewrite (testbit_high 8), (testbit_high w) by lia. reflexivity.
Qed.

Lemma le_word_cons c bytes : 0 <= c < 256 ->
  Z.land (le_word (c :: bytes)) 0xFF = c /\ Z.shiftr (le_word (c :: bytes)) 8 = le_word bytes.
Proof.
  intros Hc. cbn [le_word]. split; apply Z.bits_inj'; intros i Hi.
  - rewrite Z.land_spec, Z.lor_spec, Z.shiftl_spec by lia. change 0xFF with (Z.ones 8). rewrite testbit_ones by lia.
    destruct (Z.ltb_spec i 8).
    + rewrite (Z.testbit_neg_r _ (i - 8)) by lia. rewrite orb_false_r. destruct (Z.leb_spec 0 i); [apply andb_true_r|lia].
    + rewrite (testbit_high 8 c) by lia. rewrite !andb_false_r. reflexivity.
  - rewrite Z.shiftr_spec, Z.lor_spec, Z.shiftl_spec by lia. rewrite (testbit_high 8 c) by lia.
    cbn [orb]. f_equal. lia.
Qed.

Lemma low_bytes_le n bytes : Forall (fun c => 0 <= c < 256) bytes -> (length bytes <= n)%nat ->
  take (length bytes) (low_bytes n (le_word bytes)) = bytes.
Proof.
  intros H. revert n. induction H as [|c bytes Hc _ IH]; intros n Hn; [reflexivity|].
  destruct n as [|n]; [cbn in Hn; lia|]. destruct (le_word_cons c bytes Hc) as [E1 E2].
  cbn [length low_bytes take]. rewrite E1, E2, IH by (cbn [length] in Hn; lia). reflexivity.
Qed.

(** A read of the port gives the first bytes of the buffer. *)
Lemma read_port_bytes bytes : Forall (fun c => 0 <= c < 256) bytes ->
  take (length bytes) (low_bytes 4 (u32 (le_word (take 4 bytes)))) = take 4 bytes.
Proof.
  intros H. assert (H4 : Forall (fun c => 0 <= c < 256) (take 4 bytes)) by (apply Forall_take; exact H).
  assert (Hl : (length (take 4 bytes) <= 4)%nat) by (rewrite length_take; lia).
  rewrite uwrap_small.
  - rewrite <- (low_bytes_le 4 (take 4 bytes)) at 2 by assumption. rewrite length_take.
    destruct (Nat.le_gt_cases (length bytes) 4) as [Hb|Hb]; [rewrite Nat.min_r by lia; reflexivity|].
    rewrite Nat.min_l by lia. rewrite !take_ge by (cbn; lia). reflexivity.
  - pose proof (le_word_range _ H4). assert (2 ^ (8 * Z.of_nat (length (take 4 bytes))) <= 2 ^ 32)
      by (apply Z.pow_le_mono_r; lia). lia.
Qed.

(** ** Signals *)

Lemma generate_signal_spec irqnum h c t : exists x t',
  generate_signal irqnum (h, c, t) = Ret (set_regs x h, c, t') /\ x (CMDARG / 4) = regs h (CMDARG / 4).
Proof.
  unfold generate_signal.
  assert (exists t', (if getBit (regs (if getBit (regs h (IRQSTATEN / 4)) irqnum
           then set_reg (IRQSTAT / 4) (setBit (regs h (IRQSTAT / 4)) irqnum) h else h) (IRQSIGEN / 4)) irqnum
           then interrupt ESDHCV2_1_IRQ true t else Ret t) = Ret t') as [t' E].
  { destruct (getBit _ _); [|eauto]. unfold interrupt. destruct (getBit _ 0); eauto. }
  rewrite E. cbn [mbind exec_bind].
  destruct (getBit (regs h (IRQSTATEN / 4)) irqnum); [|exists (regs h), t'; destruct h; auto].
  eexists _, t'. split; reflexivity.
Qed.

(** ** The transfer *)

(** The card in the middle of a read: block [p] is the next to be moved, and is
    on the data line when [loaded]. *)
Record card_reads (c0 c : sd_card) (n p : Z) (loaded : bool) : Prop := {
  cr_state : Sd.current_state c = SD_DATA;
  cr_multi : single_block_p c = false;
  cr_app : application_specific_p c = false;
  cr_len : blocklen c = n;
  cr_image : data c = data c0 /\ mapped c = mapped c0;
  cr_busy : data_line_busy c = loaded;
  cr_block : current_block c = if loaded then p + 1 else p;
  cr_line : loaded = true -> data_line c <$> seqZ 0 n = image_bytes c0 (p * n) n
}.

Record card_rests (c : sd_card) : Prop := {
  ce_state : Sd.current_state c = SD_TRAN;
  ce_app : application_specific_p c = false;
  ce_busy : data_line_busy c = false
}.

(** [r] blocks are still to be moved. *)
Inductive transfer (c0 : sd_card) (b n k r : Z) (loaded : bool) : host -> Prop :=
  | transfer_on h c t :
      0 < r -> current_state h = HOST_READ_TRANSFER -> port h = true -> MSBSEL (xfer h) = true -> BCEN (xfer h) = true ->
      BLKCNT (blk h) = r -> card_reads c0 c n (b + (k - r)) loaded -> transfer c0 b n k r loaded (h, c, t)
  | transfer_done h c t :
      r = 0 -> loaded = false -> current_state h = HOST_READ_DONE \/ current_state h = IDLE /\ ibuffer h = [] ->
      card_rests c -> transfer c0 b n k r loaded (h, c, t).

Section transfer.
  Context (c0 : sd_card) (b n k : Z).
  Hypothesis Hn : 0 < n <= 4096.
  Hypothesis Hb : 0 <= b.
  Hypothesis Hk : 0 < k < 2 ^ 16.
  Hypothesis Hroom : (b + k) * n <= mapped c0.
  Hypothesis Hmapped : mapped c0 < 2 ^ 32.
  Hypothesis Hbytes : forall i, 0 <= data c0 i < 256.

Lemma image_is_bytes from m : Forall (fun v => 0 <= v < 256) (image_bytes c0 from m).
Proof. unfold image_bytes. apply Forall_fmap, Forall_forall. intros x _. apply Hbytes. Qed.

Lemma card_turn_reads c p loaded : 0 <= p -> (p + 1) * n <= mapped c0 -> card_reads c0 c n p loaded ->
  exists c', sd_cycle c = Ret c' /\ card_reads c0 c' n p true.
Proof.
  intros Hp Hr [Hs Hm Ha Hl [Hd Hmp] Hbu Hbl Hli]. unfold sd_cycle. rewrite Hs. unfold exec_state_data. rewrite Hbu.
  destruct loaded.
  - exists c. split; [reflexivity|]. split; auto.
  - rewrite Hbl, Hl, Hm, Hmp. assert (Hfrom : 0 <= p * n) by nia. assert (Hto : p * n + n <= mapped c0) by nia.
    rewrite uwrap_small by lia. destruct (Z.leb_spec (p * n + n) (mapped c0)); [|lia]. cbn [negb].
    unfold fill_line, DATA_LINE_SIZE. destruct (Z.leb_spec 0 n), (Z.leb_spec n 4096); try lia. cbn [andb mbind exec_bind].
    assert (p + 1 <= mapped c0) by nia. rewrite uwrap_small by lia.
    eexists. split; [reflexivity|]. cbn [single_block_p set_busy set_read set_line]. split; auto.
    intros _. cbn [data_line set_busy set_read set_line]. rewrite line_block by lia. unfold image_bytes. rewrite Hd. reflexivity.
Qed.

Lemma card_turn_rests c : card_rests c -> sd_cycle c = Ret c.
Proof. intros [Hs _ _]. unfold sd_cycle. rewrite Hs. reflexivity. Qed.

Lemma host_protocol_spec h c t :
  reading (current_state h) = true ->
  exists h' t', host_protocol (h, c, t) = Ret (h', c, t') /\ ibuffer h' = ibuffer h /\ port h' = port h /\
    xfer h' = xfer h /\ blk h' = blk h /\
    current_state h' = match current_state h, ibuffer h with HOST_READ_DONE, [] => IDLE | x, _ => x end.
Proof.
  intros Hr. unfold host_protocol. rewrite Hr.
  destruct (RD_WML (wm h) <=? _).
  - destruct (generate_signal_spec IRQ_BRR (set_prs (set_BREN true (prs h)) h) c t) as (x & t' & -> & _).
    cbn [mbind exec_bind]. set (h1 := set_regs x _).
    assert (Hs1 : current_state h1 = current_state h) by reflexivity. assert (Hi1 : ibuffer h1 = ibuffer h) by reflexivity.
    rewrite Hs1, Hi1. destruct (current_state h); try discriminate; [eexists _, _; split; [reflexivity|]; auto|].
    destruct (ibuffer h) eqn:Ei; [|eexists _, _; split; [reflexivity|]; auto].
    destruct (generate_signal_spec IRQ_TC h1 c t') as (x2 & t2 & -> & _). eexists _, _. split; [reflexivity|]. auto.
  - cbn [mbind exec_bind]. destruct (current_state h) eqn:Es; try discriminate; [eexists _, _; split; [reflexivity|]; auto|].
    destruct (ibuffer h) eqn:Ei; [|eexists _, _; split; [reflexivity|]; auto].
    destruct (generate_signal_spec IRQ_TC h c t) as (x2 & t2 & -> & _). eexists _, _. split; [reflexivity|]. auto.
Qed.

Lemma esdhc_cycle_reading h c t : reading (current_state h) = true -> esdhc_cycle (h, c, t) = (s ← sd_protocol (h, c, t); host_protocol s).
Proof. unfold esdhc_cycle. cbn [fst]. destruct (current_state h); try discriminate; reflexivity. Qed.

(** The controller moves the block on the data line. *)
Lemma sd_protocol_moves h c t r p :
  0 < r < 2 ^ 16 -> current_state h = HOST_READ_TRANSFER -> port h = true -> MSBSEL (xfer h) = true -> BCEN (xfer h) = true ->
  BLKCNT (blk h) = r -> card_reads c0 c n p true ->
  exists h' c', sd_protocol (h, c, t) = Ret (h', c', t) /\ ibuffer h' = ibuffer h ++ image_bytes c0 (p * n) n /\
    if r =? 1 then current_state h' = HOST_READ_DONE /\ card_rests c'
    else current_state h' = HOST_READ_TRANSFER /\ port h' = true /\ MSBSEL (xfer h') = true /\ BCEN (xfer h') = true /\
         BLKCNT (blk h') = r - 1 /\ card_reads c0 c' n (p + 1) false.
Proof.
  intros Hr Hs Hp Hms Hbc Hcnt [Hcs Hm Ha Hl Hi Hbu Hbl Hli]. unfold sd_protocol. rewrite Hs, Hp, Hbu. cbn [negb].
  unfold read_dataline. rewrite Hbu, Hl. unfold DATA_LINE_SIZE. destruct (Z.leb_spec n 4096); [|lia]. cbn [mbind exec_bind].
  rewrite Hli by reflexivity.
  set (h1 := set_ibuffer _ h). change (MSBSEL (xfer h1)) with (MSBSEL (xfer h)). change (BCEN (xfer h1)) with (BCEN (xfer h)).
  change (blk h1) with (blk h). rewrite Hms, Hbc, Hcnt. rewrite uwrap_small by lia.
  assert (E1 : (r - 1 =? 0) = (r =? 1)) by (destruct (Z.eqb_spec (r - 1) 0), (Z.eqb_spec r 1); lia). rewrite E1.
  destruct (Z.eqb_spec r 1) as [Er|Er].
  - unfold port_exec_cmd. change (port h1) with (port h). rewrite Hp. unfold exec_cmd.
    change (application_specific_p (set_busy false c)) with (application_specific_p c). rewrite Ha. cbn [negb mbind exec_bind].
    unfold cmd12_handler. rewrite in_states_eq. change (Sd.current_state (set_busy false c)) with (Sd.current_state c). rewrite Hcs.
    eexists _, _. split; [reflexivity|]. split; [reflexivity|]. split; [reflexivity|]. split; [reflexivity|exact Ha|reflexivity].
  - eexists _, _. split; [reflexivity|]. split; [reflexivity|]. split; [exact Hs|]. do 4 (split; [assumption || reflexivity|]).
    split; auto; discriminate.
Qed.

Lemma host_turn r loaded h c t : r <= k -> transfer c0 b n k r loaded (h, c, t) ->
  exists h' c' t', esdhc_cycle (h, c, t) = Ret (h', c', t') /\
    transfer c0 b n k (if loaded then r - 1 else r) false (h', c', t') /\
    ibuffer h' = ibuffer h ++ image_bytes c0 ((b + (k - r)) * n) (if loaded then n else 0).
Proof.
  intros Hrk Ht. inversion Ht as [? ? ? Hr Hs Hp Hms Hbc Hcnt Hc|? ? ? Hr Hl Hs Hc]; subst.
  - rewrite esdhc_cycle_reading by (rewrite Hs; reflexivity). destruct loaded.
    + destruct (sd_protocol_moves h c t (BLKCNT (blk h)) _ ltac:(lia) Hs Hp Hms Hbc eq_refl Hc) as (h1 & c1 & -> & Hi & Hd).
      cbn [mbind exec_bind].
      assert (Hne : exists v l, ibuffer h1 = v :: l).
      { rewrite Hi. unfold image_bytes. rewrite seqZ_cons by lia. destruct (ibuffer h); cbn; eauto. }
      destruct Hne as (v & l & Hne).
      destruct (Z.eqb_spec (BLKCNT (blk h)) 1) as [E1|E1].
      * destruct Hd as [Hs1 Hc1].
        destruct (host_protocol_spec h1 c1 t ltac:(rewrite Hs1; reflexivity)) as (h2 & t2 & -> & Hi2 & _ & _ & _ & Hs2).
        rewrite Hs1, Hne in Hs2. exists h2, c1, t2. split; [reflexivity|]. split; [|congruence].
        apply transfer_done; auto. lia.
      * destruct Hd as (Hs1 & Hp1 & Hms1 & Hbc1 & Hcnt1 & Hc1).
        destruct (host_protocol_spec h1 c1 t ltac:(rewrite Hs1; reflexivity)) as (h2 & t2 & -> & Hi2 & Hp2 & Hx2 & Hb2 & Hs2).
        rewrite Hs1 in Hs2. exists h2, c1, t2. split; [reflexivity|]. split; [|congruence].
        apply transfer_on; try congruence; [lia|].
        replace (b + (k - (BLKCNT (blk h) - 1))) with (b + (k - BLKCNT (blk h)) + 1) by lia. exact Hc1.
    + assert (E : sd_protocol (h, c, t) = Ret (h, c, t)).
      { unfold sd_protocol. rewrite Hs, Hp, (cr_busy _ _ _ _ _ Hc). reflexivity. }
      rewrite E. cbn [mbind exec_bind].
      destruct (host_protocol_spec h c t ltac:(rewrite Hs; reflexivity)) as (h2 & t2 & -> & Hi2 & Hp2 & Hx2 & Hb2 & Hs2).
      rewrite Hs in Hs2. exists h2, c, t2. split; [reflexivity|]. split; [|rewrite app_nil_r; exact Hi2].
      apply transfer_on; try congruence; assumption.
  - destruct Hs as [Hs|[Hs Hi]].
    + rewrite esdhc_cycle_reading by (rewrite Hs; reflexivity).
      assert (E : sd_protocol (h, c, t) = Ret (h, c, t)) by (unfold sd_protocol; rewrite Hs; reflexivity).
      rewrite E. cbn [mbind exec_bind].
      destruct (host_protocol_spec h c t ltac:(rewrite Hs; reflexivity)) as (h2 & t2 & -> & Hi2 & Hp2 & Hx2 & Hb2 & Hs2).
      rewrite Hs in Hs2. exists h2, c, t2. split; [reflexivity|]. split; [|rewrite app_nil_r; exact Hi2].
      apply transfer_done; auto. rewrite Hi2. destruct (ibuffer h) eqn:Ei; [right; auto|left; exact Hs2].
    + exists h, c, t. split; [unfold esdhc_cycle; cbn [fst]; rewrite Hs; reflexivity|]. split; [|symmetry; apply app_nil_r].
      apply transfer_done; auto.
Qed.

Lemma moved_range ops : forall r loaded, 0 <= r -> (loaded = true -> 0 < r) -> 0 <= moved r loaded ops <= r.
Proof using Type.
  induction ops as [|[| |] ops IH]; intros r loaded Hr Hl; cbn [moved]; [lia|..|apply IH; assumption].
  - destruct (Z.ltb_spec 0 r); apply IH; assumption || lia.
  - destruct loaded; [|apply IH; [lia|discriminate]].
    specialize (Hl eq_refl). specialize (IH (r - 1) false ltac:(lia) ltac:(discriminate)). lia.
Qed.

Lemma transfer_loaded r loaded s : transfer c0 b n k r loaded s -> loaded = true -> 0 < r.
Proof using Type. intros H ->. inversion H; [assumption|discriminate]. Qed.

Lemma read_port h c t : Forall (fun v => 0 <= v < 256) (ibuffer h) ->
  exists h', xfer_step ReadPort (h, c, t) = Ret (take 4 (ibuffer h), (h', c, t)) /\ ibuffer h' = drop 4 (ibuffer h) /\
    current_state h' = current_state h /\ port h' = port h /\ xfer h' = xfer h /\ blk h' = blk h.
Proof using Type.
  intros H. cbn [xfer_step]. unfold fast_read. cbn [Z.eqb DATPORT BLKATTR XFERTYP PRSSTAT PROCTL SYSCTL WML FEVT ADMAEST Pos.eqb].
  cbn [mbind exec_bind]. rewrite read_port_bytes by exact H. eexists. split; [reflexivity|]. repeat (split; [reflexivity|]). reflexivity.
Qed.

Lemma transfer_run ops : forall r loaded h c t,
  r <= k -> transfer c0 b n k r loaded (h, c, t) -> Forall (fun v => 0 <= v < 256) (ibuffer h) ->
  exists bytes h' c' t' loaded', xfer_run ops (h, c, t) = Ret (bytes, (h', c', t')) /\
    transfer c0 b n k (r - moved r loaded ops) loaded' (h', c', t') /\
    bytes ++ ibuffer h' = ibuffer h ++ image_bytes c0 ((b + (k - r)) * n) (moved r loaded ops * n).
Proof.
  induction ops as [|o ops IH]; intros r loaded h c t Hrk Ht Hi; cbn [xfer_run moved].
  { exists [], h, c, t, loaded. split; [reflexivity|]. rewrite Z.sub_0_r. split; [exact Ht|]. symmetry. apply app_nil_r. }
  assert (Hr0 : 0 <= r) by (inversion Ht; subst; lia).
  destruct o.
  - cbn [xfer_step]. inversion Ht as [? ? ? Hr Hs Hp Hms Hbc Hcnt Hc|? ? ? Hr Hl Hs Hc]; subst.
    + destruct (card_turn_reads c (b + (k - BLKCNT (blk h))) loaded) as (c1 & -> & Hc1); [lia|nia|exact Hc|].
      cbn [mbind exec_bind]. destruct (Z.ltb_spec 0 (BLKCNT (blk h))); [|lia].
      destruct (IH (BLKCNT (blk h)) true h c1 t) as (bytes & h' & c' & t' & l' & -> & H1 & H2); [assumption|constructor; auto|assumption|].
      exists bytes, h', c', t', l'. auto.
    + rewrite (card_turn_rests c Hc). cbn [mbind exec_bind]. destruct (Z.ltb_spec 0 0); [lia|].
      destruct (IH 0 false h c t) as (bytes & h' & c' & t' & l' & -> & H1 & H2); [lia|assumption..|].
      exists bytes, h', c', t', l'. auto.
  - cbn [xfer_step]. destruct (host_turn r loaded h c t Hrk Ht) as (h1 & c1 & t1 & -> & Ht1 & Hi1).
    cbn [mbind exec_bind].
    assert (Hb1 : Forall (fun v => 0 <= v < 256) (ibuffer h1)).
    { rewrite Hi1. apply Forall_app. split; [assumption|apply image_is_bytes]. }
    destruct (IH (if loaded then r - 1 else r) false h1 c1 t1 ltac:(destruct loaded; lia) Ht1 Hb1) as (bytes & h' & c' & t' & l' & -> & H1 & H2).
    exists bytes, h', c', t', l'. split; [reflexivity|]. destruct loaded.
    + pose proof (transfer_loaded _ _ _ Ht eq_refl) as Hpos.
      pose proof (moved_range ops (r - 1) false ltac:(lia) ltac:(discriminate)) as Hm.
      split; [replace (r - (1 + moved (r - 1) false ops)) with (r - 1 - moved (r - 1) false ops) by lia; exact H1|].
      rewrite H2, Hi1, <- app_assoc. f_equal.
      replace ((1 + moved (r - 1) false ops) * n) with (n + moved (r - 1) false ops * n) by lia.
      rewrite image_bytes_app by nia. do 2 f_equal. lia.
    + split; [exact H1|]. rewrite H2, Hi1, app_nil_r. reflexivity.
  - destruct (read_port h c t Hi) as (h1 & -> & Hi1 & Hs1 & Hp1 & Hx1 & Hb1). cbn [mbind exec_bind].
    assert (Ht1 : transfer c0 b n k r loaded (h1, c, t)).
    { inversion Ht as [? ? ? Hr Hs Hp Hms Hbc Hcnt Hc|? ? ? Hr Hl Hs Hc]; subst.
      - constructor; congruence || assumption.
      - apply transfer_done; auto. rewrite Hs1, Hi1. destruct Hs as [Hs|[Hs ->]]; auto. }
    destruct (IH _ _ h1 c t Hrk Ht1) as (bytes & h' & c' & t' & l' & -> & H1 & H2); [rewrite Hi1; apply Forall_drop; exact Hi|].
    exists (take 4 (ibuffer h) ++ bytes), h', c', t', l'. split; [reflexivity|]. split; [exact H1|].
    rewrite <- app_assoc, H2, Hi1, app_assoc, take_drop. reflexivity.
Qed.
End transfer.

(** ** The driver *)

Lemma blkattr_fields k n : 0 <= n < 2 ^ 13 -> 0 <= k ->
  Z.shiftr (Z.lor (Z.shiftl k 16) n) 16 = k.
Proof.
  intros Hn Hk. rewrite Z.shiftr_lor, Z.shiftr_shiftl_l by lia. rewrite (Z.shiftr_div_pow2 n) by lia.
  rewrite Z.div_small by lia. rewrite Z.lor_0_r. apply Z.shiftl_0_r.
Qed.

(** The card after CMD18. *)
Definition asked (b : Z) (c : sd_card) : sd_card := Sd.update_state SD_DATA (set_read false b c).

Definition read_command : xfertyp := MkXfer false true false true true 0 true 0 18.

Lemma write_xfertyp h c t : CIHB (prs h) = false ->
  fast_write XFERTYP READ_BLOCKS (h, c, t) =
  execute_xfertyp_command (set_prs (set_CIHB true (prs h)) (set_xfer read_command h), c, t).
Proof. intros H. unfold fast_write. cbn [Z.eqb XFERTYP DSADR CMDARG Pos.eqb]. rewrite H. reflexivity. Qed.

Lemma execute_read h c t : Sd.current_state c = SD_TRAN -> application_specific_p c = false -> port h = true ->
  xfer h = read_command ->
  exists h' t', execute_xfertyp_command (h, c, t) = Ret (h', asked (regs h (CMDARG / 4)) c, t') /\ ibuffer h' = ibuffer h /\
    current_state h' = HOST_READ_TRANSFER /\ port h' = true /\ xfer h' = read_command /\ blk h' = blk h.
Proof.
  intros Hs Ha Hp Hx. unfold execute_xfertyp_command, port_exec_cmd. rewrite Hp, Hx.
  assert (E : exec_cmd (CMDINX read_command) (regs h (CMDARG / 4)) c = Ret (respond None [], asked (regs h (CMDARG / 4)) c)).
  { unfold exec_cmd. rewrite Ha. cbn [negb CMDINX read_command]. unfold cmd18_handler. rewrite in_states_eq, Hs. reflexivity. }
  rewrite E. cbn [mbind exec_bind]. set (h1 := decode_response _ h).
  assert (xfer h1 = read_command) as -> by exact Hx. cbn [DPSEL DTDSEL read_command update_state mbind exec_bind].
  destruct (generate_signal_spec IRQ_CC
    (set_state HOST_READ_TRANSFER (set_prs (set_lines true true true (prs (set_prs (set_CDIHB true (prs h1)) h1)))
       (set_prs (set_CDIHB true (prs h1)) h1))) (asked (regs h (CMDARG / 4)) c) t) as (x & t' & -> & _).
  cbn [mbind exec_bind]. eexists _, _. split; [reflexivity|]. do 3 (split; [assumption || reflexivity|]). split; [exact Hx|reflexivity].
Qed.

Lemma start_read_spec b n k h c t :
  0 < n <= 4096 -> 0 < k -> Sd.current_state c = SD_TRAN -> application_specific_p c = false ->
  port h = true -> CIHB (prs h) = false -> blocklen c = n -> data_line_busy c = false ->
  exists h' t', start_read b n k (h, c, t) = Ret (h', asked b c, t') /\ ibuffer h' = ibuffer h /\
    transfer c b n k k false (h', asked b c, t').
Proof.
  intros Hn Hk Hs Ha Hp Hc Hl Hbu. unfold start_read.
  set (h1 := write_blkattr (Z.lor (Z.shiftl k 16) n) h).
  assert (E1 : fast_write BLKATTR (Z.lor (Z.shiftl k 16) n) (h, c, t) = Ret (h1, c, t)) by reflexivity. rewrite E1.
  cbn [mbind exec_bind].
  assert (E2 : fast_write CMDARG b (h1, c, t) = Ret (set_reg (CMDARG / 4) b h1, c, t)).
  { unfold fast_write. cbn [Z.eqb CMDARG DSADR Pos.eqb]. change (CIHB (prs h1)) with (CIHB (prs h)). rewrite Hc. reflexivity. }
  rewrite E2. cbn [mbind exec_bind]. rewrite write_xfertyp by exact Hc. set (h2 := set_prs _ _).
  destruct (execute_read h2 c t Hs Ha Hp eq_refl) as (h' & t' & E & Hi & Hs' & Hp' & Hx' & Hb').
  change (regs h2 (CMDARG / 4)) with b in E. exists h', t'. split; [exact E|]. split; [exact Hi|].
  apply transfer_on; try assumption; try (rewrite Hx'; reflexivity).
  - rewrite Hb'. apply (blkattr_fields k n); lia.
  - split; auto; [cbn; lia|discriminate].
Qed.

(** C25. A driver writes the block attributes, the argument and the transfer type
    of a read of [k] blocks of [n] bytes; then the thread of the card, the thread
    of the controller and the reads of the data port come in any order.  The
    bytes read, followed by those in the buffer, are those of the blocks moved
    so far, in order; the number of blocks moved is that of the turns of the
    controller that find one loaded, up to [k].  When all are moved the card has
    been stopped and is back in the transfer state with an empty data line; when
    the controller is idle again the driver has every byte it asked for. *)
Theorem block_transfer_exact b n k h c t ops :
  0 < n <= 4096 -> 0 <= b -> 0 < k < 2 ^ 16 -> (b + k) * n <= mapped c -> mapped c < 2 ^ 32 ->
  (forall i, 0 <= data c i < 256) -> Sd.current_state c = SD_TRAN -> application_specific_p c = false ->
  blocklen c = n -> data_line_busy c = false -> port h = true -> CIHB (prs h) = false -> ibuffer h = [] ->
  exists bytes h' c' t', (s ← start_read b n k (h, c, t); xfer_run ops s) = Ret (bytes, (h', c', t')) /\
    let m := moved k false ops in
    0 <= m <= k /\ bytes ++ ibuffer h' = image_bytes c (b * n) (m * n) /\
    (m = k -> Sd.current_state c' = SD_TRAN /\ data_line_busy c' = false) /\
    (current_state h' = IDLE -> bytes = image_bytes c (b * n) (k * n)).
Proof.
  intros Hn Hb Hk Hr Hm Hd Hs Ha Hl Hbu Hp Hc Hi.
  destruct (start_read_spec b n k h c t Hn ltac:(lia) Hs Ha Hp Hc Hl Hbu) as (h1 & t1 & -> & Hi1 & Ht).
  cbn [mbind exec_bind]. rewrite Hi in Hi1.
  destruct (transfer_run c b n k Hn Hb Hk Hr Hm Hd ops k false h1 (asked b c) t1 ltac:(lia) Ht) as
    (bytes & h' & c' & t' & l' & -> & Ht' & E); [rewrite Hi1; constructor|].
  rewrite Hi1, Z.sub_diag, Z.add_0_r in E. cbn [app] in E.
  pose proof (moved_range ops k false ltac:(lia) ltac:(discriminate)) as Hmv.
  exists bytes, h', c', t'. split; [reflexivity|]. cbv zeta. split; [exact Hmv|]. split; [exact E|].
  inversion Ht' as [? ? ? Hr' Hs' Hp' Hms Hbc Hcnt Hc'|? ? ? Hr' Hl' Hs' Hc']; subst.
  - split; [intros; lia|congruence].
  - split; [intros _; split; apply Hc'|]. intros Hidle. destruct Hs' as [Hs'|[_ He]]; [congruence|].
    rewrite He, app_nil_r in E. rewrite E. do 2 f_equal. lia.
Qed.

(** Turns in alternation move every block. *)
Lemma moved_alternating k : moved (Z.of_nat k) false (concat (repeat [CardTurn; HostTurn] k)) = Z.of_nat k.
Proof.
  induction k as [|k IH]; [reflexivity|]. cbn [repeat concat app moved].
  destruct (Z.ltb_spec 0 (Z.of_nat (S k))); [|lia]. replace (Z.of_nat (S k) - 1) with (Z.of_nat k) by lia. rewrite IH. lia.
Qed.

(** ** The interrupt line *)

Definition esdhc_line (s : host) : bool := getBit (int_in s.2 0) ESDHCV2_1_IRQ.

(** What the controller does to its input of the interrupt controller. *)
Definition quiet (s s' : host) : Prop := esdhc_line s' = true -> esdhc_line s = true.

Lemma generate_signal_quiet irqnum h c t s : generate_signal irqnum (h, c, t) = Ret s -> quiet (h, c, t) s.
Proof.
  unfold generate_signal, quiet, esdhc_line, interrupt. cbn [fst snd]. intros H.
  destruct (getBit (regs _ (IRQSIGEN / 4)) irqnum); [|injection H as <-; auto].
  destruct (getBit (Tzic.regs t (TZIC_DSMINT / 4)) 0); [injection H as <-; auto|].
  injection H as <-. cbn [snd int_in set_changed set_int_in]. unfold getBit, put_bit, ESDHCV2_1_IRQ.
  change (1 / 32) with 0. change (1 mod 32) with 1. cbn [negb Z.eqb]. rewrite testbit_clearBit by lia. discriminate.
Qed.

Lemma execute_quiet h c t s : execute_xfertyp_command (h, c, t) = Ret s -> quiet (h, c, t) s.
Proof.
  unfold execute_xfertyp_command. intros H. exec_inv H. destruct a as [resp c1]. exec_inv H.
  exec_inv H. destruct a0 as [[h2 c2] t2]. injection H as <-. apply generate_signal_quiet in E1. exact E1.
Qed.

Lemma fast_write_quiet address datum s s' : fast_write address datum s = Ret s' -> quiet s s'.
Proof.
  destruct s as [[h c] t]. unfold fast_write. intros H.
  repeat match type of H with (if ?b then _ else _) = _ => destruct b end;
    try (apply execute_quiet in H; exact H); try (injection H as <-; exact id).
  all: exec_inv H; injection H as <-; exact id.
Qed.

Lemma sd_protocol_quiet h c t s : sd_protocol (h, c, t) = Ret s -> s.2 = t.
Proof.
  unfold sd_protocol. intros H. destruct (current_state h); try discriminate; try (injection H as <-; reflexivity).
  destruct (negb _); [discriminate|]. destruct (data_line_busy c); [|injection H as <-; reflexivity].
  exec_inv H. destruct a as [[bytes f] c1]. destruct (MSBSEL _); [|exec_inv H; injection H as <-; reflexivity].
  destruct (BCEN _); [|injection H as <-; reflexivity].
  destruct (_ =? 0); [|injection H as <-; reflexivity]. exec_inv H. destruct a. exec_inv H. injection H as <-. reflexivity.
Qed.

Lemma host_protocol_quiet h c t s : host_protocol (h, c, t) = Ret s -> quiet (h, c, t) s.
Proof.
  unfold host_protocol. intros H. destruct (reading _); [|injection H as <-; exact id].
  exec_inv H. destruct a as [[h1 c1] t1].
  assert (Q : quiet (h, c, t) (h1, c1, t1)).
  { destruct (_ <=? _); [exact (generate_signal_quiet _ _ _ _ _ E)|injection E as <- <- <-; exact id]. }
  clear E. intros L. apply Q.
  destruct (current_state h1); try (injection H as <-; exact L).
  destruct (ibuffer h1); [|injection H as <-; exact L].
  exec_inv H. destruct a as [[h2 c2] t2]. exec_inv H. injection H as <-. apply generate_signal_quiet in E. apply E, L.
Qed.

(** The controller never asserts its interrupt: whatever is written to its
    registers and whatever its thread does, its input of the interrupt controller
    is set afterwards only if it was before. *)
Theorem esdhc_never_interrupts s s' :
  (exists address datum, fast_write address datum s = Ret s') \/ esdhc_cycle s = Ret s' \/
  (exists card, connect_card card s = Ret s') -> quiet s s'.
Proof.
  intros [(address & datum & H)|[H|(card & H)]].
  - apply (fast_write_quiet _ _ _ _ H).
  - destruct s as [[h c] t]. unfold esdhc_cycle in H. cbn [fst] in H.
    destruct (current_state h); try (injection H as <-; exact id);
      exec_inv H; destruct a as [[h1 c1] t1]; apply sd_protocol_quiet in E; apply host_protocol_quiet in H;
      cbn [snd] in E; subst t1; exact H.
  - destruct s as [[h c] t]. apply (generate_signal_quiet _ _ _ _ _ H).
Qed.

(** ** A session *)

Definition blank_host : esdhc_module :=
  MkEsdhc IDLE (fun _ => 0) (fun _ => None) read_command (MkPrs false false false false false false false) 0
    (MkSys 0 0 0 false false false false) (MkWml 0 0 0 0) (0, 0) (MkBlk 0 0 0) false [].

(** A controller out of reset with the card [c]. *)
Definition attach (c : sd_card) : host :=
  match new_esdhc blank_host with
  | Ret h => match connect_card c (h, c, tzic_reset false) with Ret s => s | _ => (h, c, tzic_reset false) end
  | _ => (blank_host, c, tzic_reset false)
  end.

Lemma attach_fields c : ((attach c).1.2, port (attach c).1.1, CIHB (prs (attach c).1.1), ibuffer (attach c).1.1) = (c, true, false, []).
Proof. vm_compute. reflexivity. Qed.

Lemma attach_ready c : exists h t, attach c = (h, c, t) /\ port h = true /\ CIHB (prs h) = false /\ ibuffer h = [].
Proof.
  pose proof (attach_fields c) as H. destruct (attach c) as [[h c'] t]. cbn [fst snd] in H. injection H as -> Hp Hc Hi.
  exists h, t. auto.
Qed.

Definition read_turns : list xfer_op :=
  [CardTurn; CardTurn; HostTurn; ReadPort; HostTurn; CardTurn; ReadPort; HostTurn; CardTurn; HostTurn; ReadPort; HostTurn].

Lemma identified_bytes i : 0 <= data identified i < 256.
Proof. apply (Z.mod_pos_bound i 256). lia. Qed.

Lemma identified_ready : Sd.current_state identified = SD_TRAN /\ application_specific_p identified = false /\
  blocklen identified = 4 /\ data_line_busy identified = false /\ mapped identified = 8192.
Proof. vm_compute. auto. Qed.

Lemma idle_after_turns :
  match (s ← start_read 2 4 2 (attach identified); xfer_run read_turns s) with
  | Ret (_, (h, _, _)) => current_state h = IDLE
  | _ => False
  end.
Proof. vm_compute. reflexivity. Qed.

Lemma block_transfer_exact_witness :
  exists bytes h' c' t', (s ← start_read 2 4 2 (attach identified); xfer_run read_turns s) = Ret (bytes, (h', c', t')) /\
    bytes = image_bytes identified 8 8 /\ current_state h' = IDLE.
Proof.
  destruct (attach_ready identified) as (h & t & Ec & Hp & Hc & Hi). destruct identified_ready as (Hs & Ha & Hl & Hb & Hm).
  pose proof idle_after_turns as Hidle. rewrite Ec in Hidle |- *.
  destruct (block_transfer_exact 2 4 2 h identified t read_turns) as (bytes & h' & c' & t' & E & _ & _ & _ & H);
    try assumption; try lia; [exact identified_bytes|].
  rewrite E in Hidle. exists bytes, h', c', t'. split; [exact E|]. split; [apply H; exact Hidle|exact Hidle].
Defined.

Lemma write_irqsigen v h c t :
  fast_write IRQSIGEN v (h, c, t) = Ret (set_reg (IRQSIGEN / 4) (Z.land v 0x117F01FE) h, c, t).
Proof. reflexivity. Qed.

Lemma esdhc_never_interrupts_witness : exists h t s',
  attach identified = (h, identified, t) /\ fast_write IRQSIGEN 0x117F01FF (h, identified, t) = Ret s' /\
  (esdhc_line s' = true -> esdhc_line (h, identified, t) = true).
Proof.
  destruct (attach_ready identified) as (h & t & Ec & _).
  pose proof (write_irqsigen 0x117F01FF h identified t) as E. eexists h, t, _. split; [exact Ec|]. split; [exact E|].
  refine (esdhc_never_interrupts (h, identified, t) _ (or_introl _)). exists IRQSIGEN, 0x117F01FF. exact E.
Defined.
