(* ===== verification/Board.v ===== *)
(** * The board: small devices, memory map and command line

    [armv7/src/ccm.cpp], [dpllc.cpp], [src.cpp] and their headers, the
    translation buffer of [tlb.h], and [main.cpp]: the devices of the i.MX53
    board on one bus ([bus.cpp]), their threads, and the debug option.  A device
    keeps its state in a field of the board; the devices that drive the
    interrupt controller or the card share those fields.  An access behind a
    register array, behind what a RAM allocates or behind what is mapped of the
    boot file is a [Crash]. *)
From S2P Require Import Prelude ArmCore ArmMmu Tzic Gpt Uart Sd Esdhc.

(** ** The clock control module *)

(** Nineteen registers; [junk]: what the constructor leaves. *)
Definition CCM_LAST_ADDR : Z := 0x4C.
Definition CBCDR : Z := 0x14.

Definition ccm_reset_values : list (Z * Z) :=
  [(0x0, 0x000016FF); (0x4, 0); (0x8, 0x00000010); (0xC, 0); (0x8, 0x00000010); (0x10, 0); (0x14, 0x00888945);
   (0x18, 0x00016154); (0x1C, 0xA6A2A020); (0x20, 0x00B12F02); (0x24, 0x00430318); (0x28, 0x02860241);
   (0x2C, 0x00860041); (0x30, 0x143701d2); (0x34, 0); (0x38, 0x12080844); (0x3C, 0x00000041); (0x40, 0x00000241); (0x48, 0)].

(** The registers of a small device, by index. *)
Definition registers : Type := Z -> Z.
Definition put_register (i v : Z) (r : registers) : registers := fun j => if j =? i then v else r j.
Definition put_values (l : list (Z * Z)) (r : registers) : registers :=
  fold_left (fun r p => put_register (p.1 / 4) p.2 r) l r.

Definition ccm_reset (junk : registers) : registers := put_values ccm_reset_values junk.

(** [regs\[address / 4\]] of an array of [last / 4] words. *)
Definition array_read (last address : Z) (r : registers) : exec Z :=
  if (0 <=? address) && (address / 4 <? last / 4) then Ret (r (address / 4)) else Crash.
Definition array_write (last address v : Z) (r : registers) : exec registers :=
  if (0 <=? address) && (address / 4 <? last / 4) then Ret (put_register (address / 4) v r) else Crash.

Definition ccm_read (address : Z) (r : registers) : exec Z := array_read CCM_LAST_ADDR address r.
Definition ccm_write (address datum : Z) (r : registers) : exec registers :=
  if address =? CBCDR then Ret (put_register (CBCDR / 4) datum r) else Ret r.

(** ** The phase-locked loop controllers *)

Definition DPLLC_CTL : Z := 0x0.
Definition DPLLC_CONFIG : Z := 0x4.
Definition DPLLC_LAST_ADDR : Z := 0x2C.

Definition dpllc_reset (junk : registers) : registers :=
  put_values [(DPLLC_CTL, 0x00AA0223); (DPLLC_CONFIG, 0x00AA0006)] junk.

Definition dpllc_read (address : Z) (r : registers) : exec Z := array_read DPLLC_LAST_ADDR address r.

(** A write to the control register reports the loop as locked. *)
Definition dpllc_write (address datum : Z) (r : registers) : exec registers :=
  if address =? DPLLC_CTL then Ret (put_register (DPLLC_CTL / 4) (Z.lor datum 0x1) r)
  else array_write DPLLC_LAST_ADDR address datum r.

(** ** The reset controller *)

Definition SRC_SCR : Z := 0x0.
Definition SRC_SBMR : Z := 0x4.
Definition SRC_SRSR : Z := 0x8.
Definition SRC_SISR : Z := 0x14.
Definition SRC_SIMR : Z := 0x18.
Definition SRC_LAST_ADDRESS : Z := 0x18.

(** The array has six words; index 6, which SIMR uses, is behind it: what the
    constructor, [src_reset], does with it is not defined. *)
Definition src_read_reg (address : Z) (r : registers) : exec Z := array_read SRC_LAST_ADDRESS address r.
Definition src_write_reg (address v : Z) (r : registers) : exec registers := array_write SRC_LAST_ADDRESS address v r.

Definition src_reset (junk : registers) : exec registers :=
  r ← src_write_reg SRC_SCR 0x00000D21 junk;
  r ← src_write_reg SRC_SRSR 0x00000001 r;
  r ← src_write_reg SRC_SISR 0x00000001 r;
  src_write_reg SRC_SIMR 0x0000000F r.

(** The pins of [pins.h]. *)
Definition TEST_MODE : Z -> Z := fun _ => 0.
Definition BT_FUSE_SEL : Z := 0.
Definition BMOD (i : Z) : Z := if i =? 1 then 1 else 0.
Definition BOOT_CFG (i : Z) : Z := if i =? 0 then 0x40 else 0.

Definition boot_mode : Z :=
  fold_left Z.lor
    [Z.shiftl (TEST_MODE 1) 28; Z.shiftl (TEST_MODE 0) 27; Z.shiftl BT_FUSE_SEL 26; Z.shiftl (BMOD 1) 25;
     Z.shiftl (BMOD 0) 24; Z.shiftl (BOOT_CFG 2) 16; Z.shiftl (BOOT_CFG 1) 8; Z.shiftl (BOOT_CFG 0) 0]
    (Z.shiftl (TEST_MODE 2) 29).

Definition src_read (address : Z) (r : registers) : exec Z :=
  if SRC_LAST_ADDRESS <? address then Ret 0
  else if address =? SRC_SBMR then Ret boot_mode
  else src_read_reg address r.

Definition src_write (address datum : Z) (r : registers) : exec registers :=
  if address =? SRC_SCR then
    r ← src_write_reg address (Z.land datum 0xFFF) r;
    v ← src_read_reg address r; src_write_reg address (Z.land v (not32 0x1E)) r
  else if address =? SRC_SRSR then
    v ← src_read_reg address r; src_write_reg address (Z.land v (not32 datum)) r
  else if address =? SRC_SIMR then
    v ← src_read_reg address r; src_write_reg address (Z.lor v (Z.land datum 0x0F)) r
  else Ret r.

(** ** The translation buffer *)

(** A class no device uses yet; [magnitude] is its template parameter.  The
    items are not initialised. *)
Record cache_item := MkItem { item_valid : bool; item_va : Z; item_pa : Z }.
Definition tlb : Type := Z -> cache_item.

Definition tlb_hash (magnitude address : Z) : Z := Z.land address (Z.shiftl 1 magnitude - 1).

Definition fetch_item (magnitude va : Z) (t : tlb) : option Z :=
  let cell := t (tlb_hash magnitude va) in
  if negb (item_valid cell) || negb (item_va cell =? va) then None else Some (item_pa cell).

Definition put_item (h : Z) (x : cache_item) (t : tlb) : tlb := fun i => if i =? h then x else t i.

Definition insert_item (magnitude va pa : Z) (t : tlb) : tlb := put_item (tlb_hash magnitude va) (MkItem true va pa) t.

Definition flush_item (magnitude va : Z) (t : tlb) : tlb :=
  let h := tlb_hash magnitude va in put_item h (MkItem false (item_va (t h)) (item_pa (t h))) t.

(** The same text as [flush_item]. *)
Definition flush_all (magnitude va : Z) (t : tlb) : tlb :=
  let h := tlb_hash magnitude va in put_item h (MkItem false (item_va (t h)) (item_pa (t h))) t.

(** ** The board *)

(** The boot memory: the bytes of the file, and how many the host maps (the file
    up to the end of its last page). *)
Record boot_rom := MkBoot { boot_data : rom_module; mapped : Z }.

Record board := MkBoard {
  ddr1 : ram_module; ddr2 : ram_module; bootmem : boot_rom;
  tzic : tzic_module; esdhc1 : esdhc_module; card : sd_card; gpt : gpt_module; uart : uart_module;
  src : registers; ccm : registers; dpllc : Z -> registers; iram : ram_module
}.

Definition set_ddr1 x b := MkBoard x (ddr2 b) (bootmem b) (tzic b) (esdhc1 b) (card b) (gpt b) (uart b) (src b) (ccm b) (dpllc b) (iram b).
Definition set_ddr2 x b := MkBoard (ddr1 b) x (bootmem b) (tzic b) (esdhc1 b) (card b) (gpt b) (uart b) (src b) (ccm b) (dpllc b) (iram b).
Definition set_bootmem x b := MkBoard (ddr1 b) (ddr2 b) x (tzic b) (esdhc1 b) (card b) (gpt b) (uart b) (src b) (ccm b) (dpllc b) (iram b).
Definition set_tzic x b := MkBoard (ddr1 b) (ddr2 b) (bootmem b) x (esdhc1 b) (card b) (gpt b) (uart b) (src b) (ccm b) (dpllc b) (iram b).
Definition set_host (h : Esdhc.host) b :=
  MkBoard (ddr1 b) (ddr2 b) (bootmem b) h.2 h.1.1 h.1.2 (gpt b) (uart b) (src b) (ccm b) (dpllc b) (iram b).
Definition set_gpt x b := MkBoard (ddr1 b) (ddr2 b) (bootmem b) (tzic b) (esdhc1 b) (card b) x (uart b) (src b) (ccm b) (dpllc b) (iram b).
Definition set_uart x b := MkBoard (ddr1 b) (ddr2 b) (bootmem b) (tzic b) (esdhc1 b) (card b) (gpt b) x (src b) (ccm b) (dpllc b) (iram b).
Definition set_src x b := MkBoard (ddr1 b) (ddr2 b) (bootmem b) (tzic b) (esdhc1 b) (card b) (gpt b) (uart b) x (ccm b) (dpllc b) (iram b).
Definition set_ccm x b := MkBoard (ddr1 b) (ddr2 b) (bootmem b) (tzic b) (esdhc1 b) (card b) (gpt b) (uart b) (src b) x (dpllc b) (iram b).
Definition set_dpllc (i : Z) x b :=
  MkBoard (ddr1 b) (ddr2 b) (bootmem b) (tzic b) (esdhc1 b) (card b) (gpt b) (uart b) (src b) (ccm b)
    (fun j => if j =? i then x else dpllc b j) (iram b).
Definition set_iram x b := MkBoard (ddr1 b) (ddr2 b) (bootmem b) (tzic b) (esdhc1 b) (card b) (gpt b) (uart b) (src b) (ccm b) (dpllc b) x.

Definition host_of (b : board) : Esdhc.host := (esdhc1 b, card b, tzic b).

(** ** The memory map *)

Inductive device_id := DDR1 | DDR2 | BOOTMEM | TZIC | ESDHC1 | GPT | UART | SRC | CCM | DPLLC (i : Z) | IRAM.

#[export] Instance device_id_eq_dec : EqDecision device_id.
Proof. solve_decision. Defined.

Definition memory_map : list (mapped_device device_id) :=
  fold_left (fun l p => connect_device p.1.1 p.1.2 p.2 l)
    [(DDR1, 0x70000000, 0xAFFFFFFF); (DDR2, 0xB0000000, 0xEFFFFFFF); (BOOTMEM, 0x00000000, 0x000FFFFF);
     (TZIC, 0x0FFFC000, 0x0FFFFFFF); (ESDHC1, 0x50004000, 0x50007FFF); (GPT, 0x53FA0000, 0x53FA3FFF);
     (UART, 0x53FBC000, 0x53FBFFFF); (SRC, 0x53FD0000, 0x53FD3FFF); (CCM, 0x53FD4000, 0x53FD7FFF);
     (DPLLC 1, 0x63F80000, 0x63F83FFF); (DPLLC 2, 0x63F84000, 0x63F87FFF); (DPLLC 3, 0x63F88000, 0x63F8bFFF);
     (DPLLC 4, 0x63F8C000, 0x63F8FFFF); (IRAM, 0xF8000000, 0xF801FFFF)] [].

Definition MAX_DEVICES : nat := 15%nat.

(** [new unsigned\[blockNumber / 4\]]; an access is four bytes. *)
Definition allocated (r : ram_module) : Z := 4 * (blockNumber r / 4).
Definition in_memory (a size : Z) : bool := (0 <=? a) && (a + 4 <=? size).

Definition ram_read (a : Z) (r : ram_module) : exec Z :=
  if in_memory a (allocated r) then Ret (ArmMmu.fast_read a (ram_memory r)) else Crash.
Definition ram_write (a v : Z) (r : ram_module) : exec ram_module :=
  if in_memory a (allocated r) then Ret (MkRam (ArmMmu.fast_write a v (ram_memory r)) (blockNumber r)) else Crash.
Definition rom_read (a : Z) (r : boot_rom) : exec Z :=
  if in_memory a (mapped r) then Ret (ArmMmu.fast_read a (rom_data (boot_data r))) else Crash.

(** What [read_signal] of a device gives; [None] is uninitialised. *)
Definition device_read (d : device_id) (a : Z) (b : board) : exec (option Z * board) :=
  match d with
  | DDR1 => v ← ram_read a (ddr1 b); Ret (Some v, b)
  | DDR2 => v ← ram_read a (ddr2 b); Ret (Some v, b)
  | IRAM => v ← ram_read a (iram b); Ret (Some v, b)
  | BOOTMEM => v ← rom_read a (bootmem b); Ret (Some v, b)
  | TZIC => v ← Tzic.fast_read a (tzic b); Ret (Some v, b)
  | ESDHC1 => '(v, h) ← Esdhc.fast_read a (esdhc1 b); Ret (v, set_host (h, card b, tzic b) b)
  | GPT => v ← Gpt.fast_read a (gpt b); Ret (Some v, b)
  | UART => '(v, u) ← Uart.fast_read a (uart b); Ret (Some v, set_uart u b)
  | SRC => v ← src_read a (src b); Ret (Some v, b)
  | CCM => v ← ccm_read a (ccm b); Ret (Some v, b)
  | DPLLC i => v ← dpllc_read a (dpllc b i); Ret (Some v, b)
  end.

Definition device_write (d : device_id) (a v : Z) (b : board) : exec board :=
  match d with
  | DDR1 => r ← ram_write a v (ddr1 b); Ret (set_ddr1 r b)
  | DDR2 => r ← ram_write a v (ddr2 b); Ret (set_ddr2 r b)
  | IRAM => r ← ram_write a v (iram b); Ret (set_iram r b)
  | BOOTMEM => Ret b
  | TZIC => t ← Tzic.fast_write a v (tzic b); Ret (set_tzic t b)
  | ESDHC1 => h ← Esdhc.fast_write a v (host_of b); Ret (set_host h b)
  | GPT => g ← Gpt.fast_write a v (gpt b); Ret (set_gpt g b)
  | UART => u ← Uart.fast_write a v (uart b); Ret (set_uart u b)
  | SRC => r ← src_write a v (src b); Ret (set_src r b)
  | CCM => c ← ccm_write a v (ccm b); Ret (set_ccm c b)
  | DPLLC i => r ← dpllc_write a v (dpllc b i); Ret (set_dpllc i r b)
  end.

(** The answer of the bus: the data of a read, the success of a write, or an
    error; the data abort that goes with it is a read request, which the core
    refuses ([ArmMmu.intr_transport]). *)
Inductive answer := Data (v : option Z) | Written | Refused.

(** The loop of [imx53_bus::transport]. *)
Fixpoint bus_device (addr : Z) (l : list (mapped_device device_id)) : option (mapped_device device_id) :=
  match l with [] => None | cur :: l => if selects addr cur then Some cur else bus_device addr l end.

Definition board_transport (req : ac_tlm_req) (b : board) : exec (answer * board) :=
  match bus_device (req_addr req) memory_map with
  | None => Ret (Refused, b)
  | Some cur =>
      let a := req_addr req - start_address cur in
      match req_type req with
      | READ => '(v, b) ← device_read (device cur) a b; Ret (Data v, b)
      | WRITE => b ← device_write (device cur) a (req_data req) b; Ret (Written, b)
      end
  end.

(** ** The threads *)

Inductive thread := THREAD_TZIC | THREAD_GPT | THREAD_UART | THREAD_ESDHC | THREAD_SD.

(** The rest of the standard input, what is written to the output, whether the
    core is asked for an interrupt, and the board. *)
Definition turn (t : thread) (input : list Z) (b : board) : exec (list Z * list Z * bool * board) :=
  match t with
  | THREAD_TZIC => let '(z, sent) := tzic_cycle (tzic b) in Ret (input, [], sent, set_tzic z b)
  | THREAD_GPT => '(g, z) ← gpt_cycle (gpt b, tzic b); Ret (input, [], false, set_tzic z (set_gpt g b))
  | THREAD_UART =>
      '(input, output, (u, z)) ← uart_cycle input (uart b, tzic b);
      Ret (input, output, false, set_tzic z (set_uart u b))
  | THREAD_ESDHC => h ← esdhc_cycle (host_of b); Ret (input, [], false, set_host h b)
  | THREAD_SD => c ← sd_cycle (card b); Ret (input, [], false, set_host (esdhc1 b, c, tzic b) b)
  end.

(** ** A run of the board *)

(** An access of the core, or a turn of a thread. *)
Inductive event := Access (req : ac_tlm_req) | Turn (t : thread) (input : list Z).

Definition board_step (e : event) (b : board) : exec board :=
  match e with
  | Access req => '(_, b) ← board_transport req b; Ret b
  | Turn t input => '(_, _, _, b) ← turn t input b; Ret b
  end.

Fixpoint board_run (es : list event) (b : board) : exec board :=
  match es with [] => Ret b | e :: es => b ← board_step e b; board_run es b end.

(** ** The debug option *)

Definition debug_modes : list (list Z) :=
  map (fun s => map (fun c => Z.of_N (N_of_ascii c)) (String.list_ascii_of_string s))
    ["core"; "bus"; "tzic"; "gpt"; "uart"; "ram"; "rom"; "cp15"; "mmu"; "esdhc"; "sd"; "dpllc"; "ccm"; "flow"].

(** The switch [activate_debug_mode] sets, by its place in the list. *)
Definition activate_debug_mode (mode : list Z) : option nat :=
  fst <$> list_find (fun m => m = mode) debug_modes.

Definition comma : Z := 44.

(** The loop of option [D]: [word] are the characters from [init] to [s], last
    first, [l] those from [s] on to the NUL; the switches set come in order. *)
Fixpoint parse_debug (word l : list Z) : exec (list nat) :=
  let finish := match word with
                | [] => Exit "Invalid null peripheral for debug."
                | _ => match activate_debug_mode (rev word) with
                       | None => Exit "Invalid peripheral."
                       | Some m => Ret m
                       end
                end in
  match l with
  | [] => m ← finish; Ret [m]
  | c :: l =>
      if c =? comma then
        match l with
        | [] => Exit "Extra comma at the end of the argument for '--debug'."
        | _ => m ← finish; ms ← parse_debug [] l; Ret (m :: ms)
        end
      else parse_debug (c :: word) l
  end.

(** ** The translation buffer returns what was put in *)

Lemma tlb_fetch_insert k va va' pa t : fetch_item k va' (insert_item k va pa t) =
  if va' =? va then Some pa else if tlb_hash k va' =? tlb_hash k va then None else fetch_item k va' t.
Proof.
  unfold fetch_item, insert_item, put_item. destruct (Z.eqb_spec va' va) as [->|Hn].
  - rewrite Z.eqb_refl. cbn. rewrite Z.eqb_refl. reflexivity.
  - destruct (Z.eqb_spec (tlb_hash k va') (tlb_hash k va)); [|reflexivity]. cbn.
    destruct (Z.eqb_spec va va'); [congruence|reflexivity].
Qed.

Lemma tlb_fetch_flushed k va t : fetch_item k va (flush_item k va t) = None.
Proof. unfold fetch_item, flush_item, put_item. rewrite Z.eqb_refl. reflexivity. Qed.

(** [flush_all] leaves the items of every other cell. *)
Example tlb_flush_all_keeps : fetch_item 4 0x11 (flush_all 4 0x10 (insert_item 4 0x11 0x80 (fun _ => MkItem false 0 0))) = Some 0x80.
Proof. reflexivity. Qed.

(** ** The memory map *)

Definition apart (d1 d2 : mapped_device device_id) : bool :=
  (end_address d1 <? start_address d2) || (end_address d2 <? start_address d1).

Lemma memory_map_fits : (length memory_map <= MAX_DEVICES)%nat.
Proof. apply Nat.leb_le. reflexivity. Qed.

(** A test of all pairs of entries. *)
Lemma memory_map_pairs (f : mapped_device device_id -> mapped_device device_id -> bool) :
  forallb (fun d1 => forallb (f d1) memory_map) memory_map = true ->
  forall d1 d2, d1 ∈ memory_map -> d2 ∈ memory_map -> f d1 d2 = true.
Proof.
  intros H d1 d2 H1 H2. rewrite forallb_forall in H. specialize (H d1 (proj1 (list_elem_of_In _ _) H1)).
  rewrite forallb_forall in H. exact (H d2 (proj1 (list_elem_of_In _ _) H2)).
Qed.

(** Entries of one device are one entry, those of two do not overlap. *)
Definition separate (d1 d2 : mapped_device device_id) : bool :=
  if decide (device d1 = device d2) then (start_address d1 =? start_address d2) && (end_address d1 =? end_address d2)
  else apart d1 d2.

Lemma memory_map_separate d1 d2 : d1 ∈ memory_map -> d2 ∈ memory_map -> separate d1 d2 = true.
Proof. apply (memory_map_pairs separate). vm_compute. reflexivity. Qed.

Lemma memory_map_device d1 d2 : d1 ∈ memory_map -> d2 ∈ memory_map -> device d1 = device d2 -> d1 = d2.
Proof.
  intros H1 H2 E. assert (H := memory_map_separate d1 d2 H1 H2). unfold separate in H. rewrite decide_True in H by exact E.
  destruct d1, d2; cbn in *. subst. apply andb_true_iff in H as [E1 E2]. apply Z.eqb_eq in E1, E2. congruence.
Qed.

Lemma memory_map_apart d1 d2 : d1 ∈ memory_map -> d2 ∈ memory_map -> d1 = d2 \/ apart d1 d2 = true.
Proof.
  intros H1 H2. assert (H := memory_map_separate d1 d2 H1 H2). unfold separate in H.
  destruct (decide (device d1 = device d2)); [left; apply memory_map_device; assumption|right; exact H].
Qed.

Lemma bus_device_Some addr l cur : bus_device addr l = Some cur -> cur ∈ l /\ selects addr cur = true.
Proof.
  induction l as [|d l IH]; cbn; [discriminate|]. destruct (selects addr d) eqn:E.
  - intros [= ->]. split; [left|exact E].
  - intros H. destruct (IH H). split; [right|]; assumption.
Qed.

Lemma bus_device_None addr l : bus_device addr l = None <-> forall d, d ∈ l -> selects addr d = false.
Proof.
  induction l as [|d l IH]; cbn.
  - split; [intros _ d Hd; inversion Hd|reflexivity].
  - destruct (selects addr d) eqn:E.
    + split; [discriminate|]. intros H. rewrite (H d) in E by left. discriminate.
    + rewrite IH. split; intros H d' Hd'; [apply elem_of_cons in Hd' as [->|Hd']; auto|]. apply H. right. exact Hd'.
Qed.

(** The only device an address selects. *)
Lemma bus_device_unique addr cur d : bus_device addr memory_map = Some cur -> d ∈ memory_map -> selects addr d = true -> d = cur.
Proof.
  intros H Hd Hs. destruct (bus_device_Some _ _ _ H) as [Hc Hsc].
  destruct (memory_map_apart d cur Hd Hc) as [E|E]; [exact E|]. exfalso.
  unfold apart in E. apply andb_true_iff in Hs as [H1 H2], Hsc as [H3 H4]. lia.
Qed.

(** ** What an access changes *)

(** The fields of the board that do not belong to a device; the host controller
    has the card behind it and an input of the interrupt controller. *)
Definition untouched (d : device_id) (b b' : board) : Prop :=
  (d <> DDR1 -> ddr1 b' = ddr1 b) /\ (d <> DDR2 -> ddr2 b' = ddr2 b) /\ (d <> IRAM -> iram b' = iram b) /\
  bootmem b' = bootmem b /\ (d <> TZIC -> d <> ESDHC1 -> tzic b' = tzic b) /\
  (d <> ESDHC1 -> esdhc1 b' = esdhc1 b /\ card b' = card b) /\ (d <> GPT -> gpt b' = gpt b) /\
  (d <> UART -> uart b' = uart b) /\ (d <> SRC -> src b' = src b) /\ (d <> CCM -> ccm b' = ccm b) /\
  (forall i, d <> DPLLC i -> dpllc b' i = dpllc b i).

Lemma untouched_refl d b : untouched d b b.
Proof. repeat split. Qed.

Lemma device_write_isolated d a v b b' : device_write d a v b = Ret b' -> untouched d b b'.
Proof.
  destruct d; cbn [device_write]; intros H; try (exec_inv H); injection H as <-;
    try apply untouched_refl; repeat split; intros; try reflexivity; try congruence; cbn.
  destruct (Z.eqb_spec i0 i); [congruence|reflexivity].
Qed.

Lemma device_read_isolated d a b v b' : device_read d a b = Ret (v, b') -> untouched d b b' /\ (d <> UART -> d <> ESDHC1 -> b' = b).
Proof.
  destruct d; cbn [device_read]; intros H; try (exec_inv H); try (destruct a0); injection H as <- <-;
    (split; [|intros; congruence]); try apply untouched_refl; repeat split; intros; try reflexivity; congruence.
Qed.

(** The bus of the board: an access reaches the one device whose window has
    the address and changes nothing else of the board, except that the SD host
    controller has its card and its interrupt line behind it; a read changes
    only the serial port and the host controller, whose data registers are
    queues; where no device is mapped the board stays as it is and the answer
    is an error. *)
Theorem board_access_isolated req b ans b' : board_transport req b = Ret (ans, b') ->
  match bus_device (req_addr req) memory_map with
  | Some cur =>
      ans <> Refused /\ start_address cur <= req_addr req <= end_address cur /\
      (forall d, d ∈ memory_map -> selects (req_addr req) d = true -> d = cur) /\
      untouched (device cur) b b' /\
      (req_type req = READ -> device cur <> UART -> device cur <> ESDHC1 -> b' = b)
  | None => ans = Refused /\ b' = b /\ forall d, d ∈ memory_map -> selects (req_addr req) d = false
  end.
Proof.
  unfold board_transport. destruct (bus_device (req_addr req) memory_map) as [cur|] eqn:E.
  - intros H. destruct (bus_device_Some _ _ _ E) as [_ Hs]. apply andb_true_iff in Hs as [H1 H2].
    destruct (req_type req) eqn:Et.
    + exec_inv H. destruct a as [v b1]. injection H as <- <-. destruct (device_read_isolated _ _ _ _ _ E0) as [Hu Hr].
      split; [discriminate|]. split; [lia|]. split; [intros d; apply bus_device_unique, E|]. split; [exact Hu|auto].
    + exec_inv H. injection H as <- <-. assert (Hu := device_write_isolated _ _ _ _ _ E0).
      split; [discriminate|]. split; [lia|]. split; [intros d; apply bus_device_unique, E|]. split; [exact Hu|discriminate].
  - intros [= <- <-]. split; [reflexivity|]. split; [reflexivity|]. apply bus_device_None, E.
Qed.

(** ** Reads behind the registers *)

(** The bytes of registers of a device that reads through an array. *)
Definition register_space (d : device_id) : option Z :=
  match d with
  | TZIC => Some TZIC_LASTADDR
  | ESDHC1 => Some ESDHCV_LASTADDR
  | GPT => Some GPT_LASTADDR
  | UART => Some UART_LASTADDR
  | CCM => Some CCM_LAST_ADDR
  | DPLLC _ => Some DPLLC_LAST_ADDR
  | _ => None
  end.

(** The offsets at which the last word of a memory of [n] bytes is passed. *)
Definition past (n a : Z) : bool := n <? a + 4.

(** Offsets that leave the memory of the device: the RAMs are three bytes
    shorter than their windows, the boot memory is what is mapped of its file, one word
    of the reset controller is behind its array. *)
Definition behind (b : board) (d : device_id) (a : Z) : bool :=
  match d with
  | DDR1 | DDR2 => past 0x3FFFFFFC a
  | IRAM => past 0x1FFFC a
  | BOOTMEM => past (mapped (bootmem b)) a
  | SRC => (0x18 <=? a) && (a <=? 0x18)
  | _ => match register_space d with Some n => n <=? a | None => false end
  end.

(** The sizes the RAMs are built with. *)
Definition sizes (b : board) : Z * Z * Z := (blockNumber (ddr1 b), blockNumber (ddr2 b), blockNumber (iram b)).
Definition built : Z * Z * Z := (0x3FFFFFFF, 0x3FFFFFFF, 0x1FFFF).

Lemma word_below a n : 0 <= a -> (0 <=? a) && (a / 4 <? 4 * n / 4) = (a <? 4 * n).
Proof.
  intros H. rewrite Z.mul_comm, Z.div_mul by lia. rewrite (proj2 (Z.leb_le _ _) H). cbn [andb].
  assert (Hd := Z.div_mod a 4 ltac:(lia)). assert (Hm := Z.mod_pos_bound a 4 ltac:(lia)).
  destruct (Z.ltb_spec (a / 4) n), (Z.ltb_spec a (n * 4)); lia.
Qed.

Lemma ccm_read_behind a r : 0 <= a -> if CCM_LAST_ADDR <=? a then ccm_read a r = Crash else exists v, ccm_read a r = Ret v.
Proof.
  intros H. unfold ccm_read, array_read, CCM_LAST_ADDR. change 0x4C with (4 * 19). rewrite word_below by exact H.
  rewrite Z.ltb_antisym. destruct (4 * 19 <=? a); [reflexivity|eexists; reflexivity].
Qed.

Lemma dpllc_read_behind a r : 0 <= a -> if DPLLC_LAST_ADDR <=? a then dpllc_read a r = Crash else exists v, dpllc_read a r = Ret v.
Proof.
  intros H. unfold dpllc_read, array_read, DPLLC_LAST_ADDR. change 0x2C with (4 * 11). rewrite word_below by exact H.
  rewrite Z.ltb_antisym. destruct (4 * 11 <=? a); [reflexivity|eexists; reflexivity].
Qed.

Lemma gpt_read_behind a g : 0 <= a -> if GPT_LASTADDR <=? a then Gpt.fast_read a g = Crash else exists v, Gpt.fast_read a g = Ret v.
Proof.
  intros H. unfold Gpt.fast_read, Gpt.valid, GPT_LASTADDR. change 0x28 with (4 * 10). rewrite word_below by exact H.
  rewrite Z.ltb_antisym. destruct (Z.leb_spec (4 * 10) a); cbn [negb].
  - destruct (Z.eqb_spec a GPT_CNT); [unfold GPT_CNT in *; lia|reflexivity].
  - case_match; eexists; reflexivity.
Qed.

Lemma uart_read_behind a u : 0 <= a -> if UART_LASTADDR <=? a then Uart.fast_read a u = Crash else exists v, Uart.fast_read a u = Ret v.
Proof.
  intros H. unfold Uart.fast_read, Uart.valid, UART_LASTADDR. change 0xB8 with (4 * 46). rewrite word_below by exact H.
  rewrite Z.ltb_antisym. destruct (Z.leb_spec (4 * 46) a); cbn [negb].
  - destruct (Z.eqb_spec a UART_URXD), (Z.eqb_spec a UART_USR1), (Z.eqb_spec a UART_USR2);
      unfold UART_URXD, UART_USR1, UART_USR2 in *; try lia. reflexivity.
  - repeat case_match; eexists; reflexivity.
Qed.

Lemma esdhc_read_behind a h : 0 <= a -> if ESDHCV_LASTADDR <=? a then Esdhc.fast_read a h = Crash else exists v, Esdhc.fast_read a h = Ret v.
Proof.
  intros H. unfold Esdhc.fast_read, Esdhc.valid, ESDHCV_LASTADDR. change 0x100 with (4 * 64). rewrite word_below by exact H.
  destruct (Z.leb_spec (4 * 64) a).
  - repeat match goal with |- context [a =? ?k] =>
      let N := fresh in assert (N : (a =? k) = false) by (apply Z.eqb_neq; unfold k; lia); rewrite N; clear N end.
    replace (a <? CMDRSP3 + 4) with false by (symmetry; apply Z.ltb_ge; unfold CMDRSP3; lia).
    rewrite andb_false_r. replace (a <? 4 * 64) with false by lia. reflexivity.
  - replace (a <? 4 * 64) with true by lia. repeat case_match; eexists; reflexivity.
Qed.

Lemma in_bank_below bank a : in_bank bank a = true -> bank <= a < bank + 16.
Proof. unfold in_bank. cbn. rewrite !orb_true_iff, !Z.eqb_eq. intros [H|[H|[H|[H|H]]]]; try discriminate; lia. Qed.

Lemma reg_at_below a t : 0 <= a -> if TZIC_LASTADDR <=? a then reg_at a t = Crash else exists v, reg_at a t = Ret v.
Proof.
  intros H. unfold reg_at, TZIC_LASTADDR. change 0xF04 with (4 * 961). rewrite word_below by exact H.
  rewrite Z.ltb_antisym. destruct (4 * 961 <=? a); [reflexivity|eexists; reflexivity].
Qed.

Lemma tzic_read_behind a t : 0 <= a -> if TZIC_LASTADDR <=? a then Tzic.fast_read a t = Crash else exists v, Tzic.fast_read a t = Ret v.
Proof.
  intros H. unfold Tzic.fast_read. assert (Hr := reg_at_below a t H).
  destruct (Z.eqb_spec a TZIC_INTCTRL) as [->|N]; [eexists; reflexivity|].
  destruct (in_bank TZIC_ENCLEAR0 a) eqn:E1; [|destruct (in_bank TZIC_SRCCLEAR0 a || in_bank TZIC_SRCSET0 a) eqn:E2; [|exact Hr]].
  - apply in_bank_below in E1. unfold TZIC_ENCLEAR0, TZIC_ENSET0, TZIC_LASTADDR in *.
    replace (0xF04 <=? a) with false by lia. assert (Hb := reg_at_below (a - (0x180 - 0x100)) t ltac:(lia)).
    unfold TZIC_LASTADDR in Hb. replace (0xF04 <=? a - (0x180 - 0x100)) with false in Hb by lia. exact Hb.
  - assert (Hb : 0x200 <= a < 0x290).
    { apply orb_true_iff in E2 as [E|E]; apply in_bank_below in E; unfold TZIC_SRCCLEAR0, TZIC_SRCSET0 in E; lia. }
    set (a' := if in_bank TZIC_SRCCLEAR0 a then a - (TZIC_SRCCLEAR0 - TZIC_SRCSET0) else a).
    assert (Ha : 0 <= a' <= a) by (unfold a', TZIC_SRCCLEAR0, TZIC_SRCSET0; destruct (in_bank 0x280 a); lia).
    assert (Hc := reg_at_below a' t ltac:(lia)). unfold TZIC_LASTADDR in *.
    replace (0xF04 <=? a) with false by lia. replace (0xF04 <=? a') with false in Hc by lia.
    destruct Hc as [v Hv]. cbn zeta. fold a'. rewrite Hv. eexists. reflexivity.
Qed.

Lemma ram_read_behind a n r : 0 <= a -> allocated r = n -> if past n a then ram_read a r = Crash else exists v, ram_read a r = Ret v.
Proof.
  intros H <-. unfold ram_read, past, in_memory. rewrite (proj2 (Z.leb_le _ _) H). cbn [andb].
  destruct (Z.ltb_spec (allocated r) (a + 4)), (Z.leb_spec (a + 4) (allocated r)); try lia; [reflexivity|eexists; reflexivity].
Qed.

Lemma rom_read_behind a r : 0 <= a -> if past (mapped r) a then rom_read a r = Crash else exists v, rom_read a r = Ret v.
Proof.
  intros H. unfold rom_read, past, in_memory. rewrite (proj2 (Z.leb_le _ _) H). cbn [andb].
  destruct (Z.ltb_spec (mapped r) (a + 4)), (Z.leb_spec (a + 4) (mapped r)); try lia; [reflexivity|eexists; reflexivity].
Qed.

Lemma src_read_behind a r : 0 <= a -> if (0x18 <=? a) && (a <=? 0x18) then src_read a r = Crash else exists v, src_read a r = Ret v.
Proof.
  intros H. unfold src_read, src_read_reg, array_read, SRC_LAST_ADDRESS, SRC_SBMR. change (0x18 / 4) with (4 * 6 / 4). rewrite word_below by exact H.
  destruct (Z.ltb_spec 0x18 a); [replace (a <=? 0x18) with false by lia; rewrite andb_false_r; eexists; reflexivity|].
  destruct (Z.eqb_spec a 4) as [->|N]; [eexists; reflexivity|]. rewrite Z.ltb_antisym. replace (4 * 6) with 0x18 by reflexivity.
  replace (a <=? 0x18) with true by lia. rewrite andb_true_r. destruct (0x18 <=? a); [reflexivity|eexists; reflexivity].
Qed.

(** A read of a device that gives a word and leaves the board as it is. *)
Lemma word_read_behind (c : bool) (x : exec Z) (b : board) : (if c then x = Crash else exists v, x = Ret v) ->
  if c then (v ← x; Ret (Some v, b)) = Crash else exists r, (v ← x; Ret (Some v, b)) = Ret r.
Proof. destruct c; [intros ->; reflexivity|]. intros [v ->]. eexists. reflexivity. Qed.

Lemma device_read_behind d a b : 0 <= a -> sizes b = built ->
  if behind b d a then device_read d a b = Crash else exists r, device_read d a b = Ret r.
Proof.
  intros H Hs. assert (H1 : blockNumber (ddr1 b) = 0x3FFFFFFF /\ blockNumber (ddr2 b) = 0x3FFFFFFF /\ blockNumber (iram b) = 0x1FFFF)
    by (injection Hs; auto). destruct H1 as (H1 & H2 & H3).
  destruct d; cbn [behind register_space device_read].
  - apply word_read_behind, ram_read_behind; [exact H|]. unfold allocated. rewrite H1. reflexivity.
  - apply word_read_behind, ram_read_behind; [exact H|]. unfold allocated. rewrite H2. reflexivity.
  - apply word_read_behind, rom_read_behind, H.
  - apply word_read_behind, tzic_read_behind, H.
  - assert (Hd := esdhc_read_behind a (esdhc1 b) H). destruct (ESDHCV_LASTADDR <=? a); [|destruct Hd as [[v h] Hd]]; rewrite Hd; [|eexists]; reflexivity.
  - apply word_read_behind, gpt_read_behind, H.
  - assert (Hd := uart_read_behind a (uart b) H). destruct (UART_LASTADDR <=? a); [|destruct Hd as [[v h] Hd]]; rewrite Hd; [|eexists]; reflexivity.
  - apply word_read_behind, src_read_behind, H.
  - apply word_read_behind, ccm_read_behind, H.
  - apply word_read_behind, dpllc_read_behind, H.
  - apply word_read_behind, ram_read_behind; [exact H|]. unfold allocated. rewrite H3. reflexivity.
Qed.

(** C38. With the RAMs of the sizes the program builds them with, a read of the bus
    completes, whatever else the state of the board, unless its offset leaves
    the memory of the device, and there it is undefined: a word that reaches the
    last four bytes of the window of a RAM, which are not allocated; past what is mapped of the boot file; at 0x18 of the reset controller;
    behind the registers of the host controller, timer, serial port, interrupt,
    clock and loop controllers.  An address of no device is answered. *)
Theorem board_reads_complete addr datum b : sizes b = built ->
  match bus_device addr memory_map with
  | Some cur =>
      if behind b (device cur) (addr - start_address cur) then board_transport (MkReq READ addr datum) b = Crash
      else exists v b', board_transport (MkReq READ addr datum) b = Ret (Data v, b')
  | None => board_transport (MkReq READ addr datum) b = Ret (Refused, b)
  end.
Proof.
  intros Hb. unfold board_transport. cbn [req_addr req_type]. destruct (bus_device addr memory_map) as [cur|] eqn:E; [|reflexivity].
  destruct (bus_device_Some _ _ _ E) as [_ Hs]. apply andb_true_iff in Hs as [H1 _].
  assert (Hd := device_read_behind (device cur) (addr - start_address cur) b ltac:(lia) Hb).
  destruct (behind _ _ _); [rewrite Hd; reflexivity|]. destruct Hd as [[v b'] Hd]. rewrite Hd. do 2 eexists. reflexivity.
Qed.

(** ** Memory along a run *)

Lemma turn_keeps t input b r b' : turn t input b = Ret (r, b') ->
  ddr1 b' = ddr1 b /\ ddr2 b' = ddr2 b /\ iram b' = iram b /\ bootmem b' = bootmem b /\ src b' = src b /\
  ccm b' = ccm b /\ dpllc b' = dpllc b.
Proof.
  destruct t; cbn [turn]; intros H; [destruct (tzic_cycle (tzic b)) as [z sent]|..]; try (exec_inv H);
    repeat match type of H with context [match ?x with (_, _) => _ end] => destruct x end; injection H as <- <-; repeat split.
Qed.

(** The bytes of a memory of the board. *)
Definition memory_of (d : device_id) (b : board) : option bytes :=
  match d with
  | DDR1 => Some (ram_memory (ddr1 b))
  | DDR2 => Some (ram_memory (ddr2 b))
  | IRAM => Some (ram_memory (iram b))
  | BOOTMEM => Some (rom_data (boot_data (bootmem b)))
  | _ => None
  end.

(** The byte of memory at an address of the bus. *)
Definition memory_byte (addr : Z) (b : board) : option Z :=
  match bus_device addr memory_map with
  | Some cur => (fun f => f (addr - start_address cur)) <$> memory_of (device cur) b
  | None => None
  end.

Definition written (addr : Z) (e : event) : bool :=
  match e with
  | Access req => match req_type req with WRITE => (req_addr req <=? addr) && (addr <? req_addr req + 4) | READ => false end
  | Turn _ _ => false
  end.

Lemma memory_of_untouched d d' b b' : untouched d b b' -> d <> d' -> memory_of d' b' = memory_of d' b.
Proof.
  intros (H1 & H2 & H3 & H4 & _) Hn. destruct d'; try reflexivity; cbn [memory_of];
    [rewrite H1|rewrite H2|rewrite H4|rewrite H3]; congruence.
Qed.

Lemma ram_write_Ret a v r r' : ram_write a v r = Ret r' ->
  in_memory a (allocated r) = true /\ r' = MkRam (ArmMmu.fast_write a v (ram_memory r)) (blockNumber r).
Proof. unfold ram_write. destruct (in_memory a (allocated r)); [|discriminate]. intros [= <-]. auto. Qed.

Lemma device_write_memory d a v b b' x : device_write d a v b = Ret b' -> (a <=? x) && (x <? a + 4) = false ->
  (fun f => f x) <$> memory_of d b' = (fun f => f x) <$> memory_of d b.
Proof.
  intros H Hx. destruct d; cbn [device_write] in H; try (exec_inv H); injection H as <-; try reflexivity;
    apply ram_write_Ret in E as [_ ->]; cbn; unfold ArmMmu.fast_write; rewrite Hx; reflexivity.
Qed.

Lemma board_step_keeps addr e b b' : board_step e b = Ret b' -> written addr e = false -> memory_byte addr b' = memory_byte addr b.
Proof.
  intros H Hw. unfold memory_byte. destruct (bus_device addr memory_map) as [cur|] eqn:Ec; [|reflexivity].
  destruct e as [req|t input]; cbn [board_step] in H; exec_inv H.
  - destruct a as [ans b1]. injection H as ->. unfold board_transport in E.
    destruct (bus_device (req_addr req) memory_map) as [cur'|] eqn:Er; [|injection E as <- <-; reflexivity].
    cbn [written] in Hw. destruct (req_type req); exec_inv E.
    + destruct a as [v b2]. injection E as <- <-. destruct (device_read_isolated _ _ _ _ _ E0) as [Hu _].
      destruct (decide (device cur' = device cur)) as [Hd|Hd]; [|f_equal; exact (memory_of_untouched _ _ _ _ Hu Hd)].
      rewrite <- Hd. destruct (device cur'); cbn [device_read] in E0; try (exec_inv E0); try (destruct a); injection E0 as <- <-; reflexivity.
    + injection E as <- <-. assert (Hu := device_write_isolated _ _ _ _ _ E0).
      destruct (decide (device cur' = device cur)) as [Hd|Hd]; [|f_equal; exact (memory_of_untouched _ _ _ _ Hu Hd)].
      rewrite <- Hd. apply (device_write_memory _ _ _ _ _ _ E0).
      destruct (bus_device_Some _ _ _ Er) as [Hi' _], (bus_device_Some _ _ _ Ec) as [Hi _].
      rewrite (memory_map_device _ _ Hi' Hi Hd) in *. lia.
  - destruct a as [r b1]. destruct r as [[? ?] ?]. injection H as ->.
    destruct (turn_keeps _ _ _ _ _ E) as (H1 & H2 & H3 & H4 & _). destruct (device cur); cbn [memory_of]; congruence.
Qed.

Lemma board_run_keeps addr es b b' : board_run es b = Ret b' -> Forall (fun e => written addr e = false) es ->
  memory_byte addr b' = memory_byte addr b.
Proof.
  revert b. induction es as [|e es IH]; cbn [board_run]; intros b H Hf; [injection H as ->; reflexivity|].
  exec_inv H. inversion_clear Hf. rewrite (IH _ H) by assumption. apply (board_step_keeps _ e); assumption.
Qed.

Lemma bus_device_within a k cur : bus_device a memory_map = Some cur -> 0 <= k -> a + k <= end_address cur -> bus_device (a + k) memory_map = Some cur.
Proof.
  intros H Hk He. destruct (bus_device_Some _ _ _ H) as [Hi Hs]. apply andb_true_iff in Hs as [H1 H2].
  destruct (bus_device (a + k) memory_map) as [d|] eqn:E.
  - f_equal. symmetry. apply (bus_device_unique _ _ _ E Hi). unfold selects. lia.
  - assert (Hn := proj1 (bus_device_None _ _) E cur Hi). unfold selects in Hn. lia.
Qed.

(** Whether a word lies in one of the writable memories. *)
Definition ram_word (a : Z) : bool :=
  match bus_device a memory_map with
  | Some cur => match device cur with DDR1 | DDR2 | IRAM => a + 3 <=? end_address cur | _ => false end
  | None => false
  end.

(** Whether an event writes into the word at [a]. *)
Definition overwrites (a : Z) (e : event) : bool :=
  match e with
  | Access req => match req_type req with WRITE => (req_addr req <? a + 4) && (a <? req_addr req + 4) | READ => false end
  | Turn _ _ => false
  end.

Lemma bytes_of_word v : 0 <= v < 2 ^ 32 ->
  u8 (Z.shiftr v 0) + 2 ^ 8 * u8 (Z.shiftr v 8) + 2 ^ 16 * u8 (Z.shiftr v 16) + 2 ^ 24 * u8 (Z.shiftr v 24) = v.
Proof.
  intros H. unfold uwrap. rewrite !Z.shiftr_div_pow2 by lia. Z.to_euclidean_division_equations. lia.
Qed.

(** Whether the RAM of a word is allocated so far. *)
Definition held (a : Z) (s : Z * Z * Z) : bool :=
  match bus_device a memory_map with
  | Some cur =>
      match device cur with
      | DDR1 => in_memory (a - start_address cur) (4 * (s.1.1 / 4))
      | DDR2 => in_memory (a - start_address cur) (4 * (s.1.2 / 4))
      | IRAM => in_memory (a - start_address cur) (4 * (s.2 / 4))
      | _ => false
      end
  | None => false
  end.

Lemma write_shows a v b b1 : ram_word a = true -> board_step (Access (MkReq WRITE a v)) b = Ret b1 ->
  held a (sizes b1) = true /\ forall k, 0 <= k < 4 -> memory_byte (a + k) b1 = Some (u8 (Z.shiftr v (8 * k))).
Proof.
  unfold ram_word, memory_byte, held. cbn [board_step]. unfold board_transport. cbn [req_addr req_type req_data].
  destruct (bus_device a memory_map) as [cur|] eqn:E; [|discriminate]. intros Hw H.
  assert (He : a + 3 <= end_address cur) by (destruct (device cur); try discriminate; lia).
  assert (Hf : forall f k, 0 <= k < 4 -> ArmMmu.fast_write (a - start_address cur) v f (a + k - start_address cur) = u8 (Z.shiftr v (8 * k))).
  { intros f k Hk. unfold ArmMmu.fast_write. rewrite (proj2 (Z.leb_le _ _)), (proj2 (Z.ltb_lt _ _)) by lia. cbn [andb]. do 3 f_equal. lia. }
  destruct (device_write (device cur) (a - start_address cur) v b) as [b2|msg|] eqn:Ew; [|discriminate|discriminate]. injection H as ->.
  enough (Hd : match device cur with
               | DDR1 => in_memory (a - start_address cur) (4 * ((sizes b1).1.1 / 4))
               | DDR2 => in_memory (a - start_address cur) (4 * ((sizes b1).1.2 / 4))
               | IRAM => in_memory (a - start_address cur) (4 * ((sizes b1).2 / 4))
               | _ => false
               end = true /\ exists f, memory_of (device cur) b1 = Some (ArmMmu.fast_write (a - start_address cur) v f)).
  { destruct Hd as [Hd [f Hm]]. split; [exact Hd|]. intros k Hk. rewrite (bus_device_within a k cur E) by lia. rewrite Hm. cbn. rewrite Hf by lia. reflexivity. }
  destruct (device cur); try discriminate; cbn [device_write] in Ew; exec_inv Ew; injection Ew as <-;
    apply ram_write_Ret in E0 as [Hi ->]; (split; [exact Hi|eexists; reflexivity]).
Qed.

Lemma read_bytes_of a v b : ram_word a = true -> 0 <= v < 2 ^ 32 -> held a (sizes b) = true ->
  (forall k, 0 <= k < 4 -> memory_byte (a + k) b = Some (u8 (Z.shiftr v (8 * k)))) ->
  board_transport (MkReq READ a 0) b = Ret (Data (Some v), b).
Proof.
  unfold ram_word, memory_byte, held. unfold board_transport. cbn [req_addr req_type req_data].
  destruct (bus_device a memory_map) as [cur|] eqn:E; [|discriminate]. intros Hw Hv Hh H.
  assert (He : a + 3 <= end_address cur) by (destruct (device cur); try discriminate; lia).
  assert (H' : forall f, memory_of (device cur) b = Some f -> ArmMmu.fast_read (a - start_address cur) f = v).
  { intros f Hf. rewrite <- (bytes_of_word v Hv). unfold ArmMmu.fast_read.
    assert (Hb : forall k, 0 <= k < 4 -> f (a - start_address cur + k) = u8 (Z.shiftr v (8 * k))).
    { intros k Hk. specialize (H k Hk). rewrite (bus_device_within a k cur E), Hf in H by lia. cbn in H.
      injection H as <-. f_equal. lia. }
    assert (H0 := Hb 0 ltac:(lia)). rewrite Z.add_0_r in H0. rewrite H0, (Hb 1), (Hb 2), (Hb 3) by lia. reflexivity. }
  destruct (device cur); try discriminate; cbn [device_read memory_of] in *; cbn [sizes fst snd] in Hh;
    unfold ram_read, allocated; rewrite Hh, (H' _ eq_refl); reflexivity.
Qed.

Lemma board_step_keeps_sizes e b b' : board_step e b = Ret b' -> sizes b' = sizes b.
Proof.
  destruct e as [req|t input]; cbn [board_step]; intros H; exec_inv H.
  - destruct a as [ans b1]. injection H as ->. unfold board_transport in E.
    destruct (bus_device (req_addr req) memory_map) as [cur|]; [|injection E as <- <-; reflexivity].
    destruct (req_type req); exec_inv E.
    + destruct a as [v b2]. injection E as <- <-.
      destruct (device cur); cbn [device_read] in E0; try (exec_inv E0); try (destruct a); injection E0 as <- <-; reflexivity.
    + injection E as <- <-. destruct (device cur); cbn [device_write] in E0; try (exec_inv E0); injection E0 as <-; try reflexivity;
        apply ram_write_Ret in E as [_ ->]; reflexivity.
  - destruct a as [[[? ?] ?] b1]. injection H as ->. destruct (turn_keeps _ _ _ _ _ E) as (H1 & H2 & H3 & _). unfold sizes. rewrite H1, H2, H3. reflexivity.
Qed.

Lemma board_run_keeps_sizes es b b' : board_run es b = Ret b' -> sizes b' = sizes b.
Proof.
  revert b. induction es as [|e es IH]; cbn [board_run]; intros b H; [injection H as ->; reflexivity|].
  exec_inv H. rewrite (IH _ H). apply (board_step_keeps_sizes e), E.
Qed.

Lemma board_step_keeps_rom e b b' : board_step e b = Ret b' -> bootmem b' = bootmem b.
Proof.
  destruct e as [req|t input]; cbn [board_step]; intros H; exec_inv H.
  - destruct a as [ans b1]. injection H as ->. unfold board_transport in E.
    destruct (bus_device (req_addr req) memory_map); [|injection E as <- <-; reflexivity].
    destruct (req_type req); exec_inv E.
    + destruct a as [v b2]. injection E as <- <-. apply (device_read_isolated _ _ _ _ _ E0).
    + injection E as <- <-. apply (device_write_isolated _ _ _ _ _ E0).
  - destruct a as [[[? ?] ?] b1]. injection H as ->. apply (turn_keeps _ _ _ _ _ E).
Qed.

Lemma board_run_keeps_rom es b b' : board_run es b = Ret b' -> bootmem b' = bootmem b.
Proof.
  revert b. induction es as [|e es IH]; cbn [board_run]; intros b H; [injection H as ->; reflexivity|].
  exec_inv H. rewrite (IH _ H). apply (board_step_keeps_rom e), E.
Qed.

(** C37. Memory along a run of the board that completes: a word written to one of
    the three RAMs is read back however the threads of the devices and other accesses of the
    core interleave, as long as no write overlaps it, and the read changes
    nothing; the boot memory is never changed. *)
Theorem memory_survives_run a v es b b' :
  ram_word a = true -> 0 <= v < 2 ^ 32 -> Forall (fun e => overwrites a e = false) es ->
  board_run (Access (MkReq WRITE a v) :: es) b = Ret b' ->
  board_transport (MkReq READ a 0) b' = Ret (Data (Some v), b') /\ bootmem b' = bootmem b.
Proof.
  intros Ha Hv Hes H. split; [|apply (board_run_keeps_rom _ _ _ H)]. cbn [board_run] in H. exec_inv H.
  destruct (write_shows a v b _ Ha E) as [Hh Hw].
  apply read_bytes_of; [exact Ha|exact Hv|rewrite (board_run_keeps_sizes _ _ _ H); exact Hh|].
  intros k Hk. rewrite (board_run_keeps (a + k) es _ _ H).
  - apply Hw, Hk.
  - eapply Forall_impl; [exact Hes|]. intros [req|t input]; cbn; [|reflexivity]. destruct (req_type req); [reflexivity|]. lia.
Qed.

(** ** What the debug option accepts *)

(** Names joined by commas. *)
Fixpoint joined (names : list (list Z)) : list Z :=
  match names with [] => [] | [n] => n | n :: names => n ++ comma :: joined names end.

Definition plain (w : list Z) : bool := forallb (fun c => negb (c =? comma)) w.

Lemma debug_modes_plain n m : activate_debug_mode n = Some m -> plain n = true /\ n <> [].
Proof.
  unfold activate_debug_mode. destruct (list_find (fun x => x = n) debug_modes) as [[i x]|] eqn:E; [|discriminate]. intros _.
  apply list_find_Some in E as (Hl & -> & _). apply list_elem_of_lookup_2 in Hl.
  assert (H : forallb (fun w => plain w && bool_decide (w <> [])) debug_modes = true) by (vm_compute; reflexivity).
  rewrite forallb_forall in H. specialize (H _ (proj1 (list_elem_of_In _ _) Hl)). cbv beta in H.
  apply andb_true_iff in H as [H1 H2%bool_decide_eq_true]. split; assumption.
Qed.

Lemma plain_rev w : plain (rev w) = plain w.
Proof.
  induction w as [|c w IH]; [reflexivity|]. cbn. unfold plain in *. rewrite forallb_app, IH. cbn. destruct (negb _), (forallb _ w); reflexivity.
Qed.

Lemma joined_split u x n ns : plain u = true -> plain n = true -> u ++ comma :: x = joined (n :: ns) -> u = n /\ ns <> [] /\ x = joined ns.
Proof.
  revert u. induction n as [|c n IH]; intros u Hu Hn H.
  - destruct ns as [|m ns]; [destruct u; discriminate H|]. destruct u as [|d u]; [injection H as ->; auto|].
    injection H as -> _. discriminate Hu.
  - cbn in Hn. apply andb_true_iff in Hn as [Hc Hn]. destruct u as [|d u].
    + destruct ns; injection H as <- _; discriminate Hc.
    + cbn in Hu. apply andb_true_iff in Hu as [_ Hu]. assert (Ht : d = c /\ u ++ comma :: x = joined (n :: ns)) by (destruct ns; injection H as -> H; auto).
      destruct Ht as [-> Ht]. destruct (IH u Hu Hn Ht) as (-> & H1 & H2). auto.
Qed.

Lemma plain_joined u n ns : plain u = true -> u = joined (n :: ns) -> ns = [] /\ u = n.
Proof.
  intros Hu H. destruct ns as [|m ns]; [auto|]. exfalso. subst u. cbn in Hu. unfold plain in Hu. rewrite forallb_app in Hu.
  apply andb_true_iff in Hu as [_ Hu]. discriminate Hu.
Qed.

Lemma parse_debug_from l word ms : plain word = true ->
  parse_debug word l = Ret ms <->
  exists names, names <> [] /\ rev word ++ l = joined names /\ map activate_debug_mode names = map Some ms.
Proof.
  revert word ms. induction l as [|c l IH]; intros word ms Hw; cbn [parse_debug].
  - rewrite app_nil_r. split.
    + intros H. exec_inv H. injection H as <-. exists [rev word]. destruct word; [discriminate E|].
      destruct (activate_debug_mode _) eqn:Em; [|discriminate E]. injection E as <-. split; [discriminate|]. split; [reflexivity|].
      cbn [map]. rewrite Em. reflexivity.
    + intros ([|n ns] & Hn & Hj & Hm); [congruence|]. destruct (plain_joined (rev word) n ns) as [-> Hr]; [rewrite plain_rev; exact Hw|exact Hj|].
      destruct ms as [|m [|]]; try discriminate Hm. injection Hm as Hm. destruct (debug_modes_plain _ _ Hm) as [_ He].
      destruct word; [cbn in Hr; congruence|]. rewrite Hr, Hm. reflexivity.
  - destruct (Z.eqb_spec c comma) as [->|Hc].
    + split.
      * intros H. destruct l as [|c l]; [discriminate|]. exec_inv H. exec_inv H. injection H as <-.
        apply (IH [] a0 eq_refl) in E0 as (names & Hn & Hj & Hm). exists (rev word :: names). destruct word as [|d w]; [discriminate E|].
        destruct (activate_debug_mode (rev (d :: w))) eqn:Em; [|discriminate E]. injection E as <-.
        split; [discriminate|]. split; [destruct names; [congruence|]; exact (f_equal (fun x => rev (d :: w) ++ comma :: x) Hj)|]. cbn [map]. rewrite Em, Hm. reflexivity.
      * intros ([|n ns] & Hn & Hj & Hm); [congruence|]. destruct ms as [|m ms]; [discriminate Hm|]. injection Hm as Hm Hms.
        destruct (debug_modes_plain _ _ Hm) as [Hp He].
        destruct (joined_split (rev word) l n ns) as (Hr & Hns & Hl); [rewrite plain_rev; exact Hw|exact Hp|exact Hj|].
        assert (Hrec : parse_debug [] l = Ret ms) by (apply (IH [] ms eq_refl); exists ns; auto).
        destruct l as [|d l]; [discriminate Hrec|]. destruct word; [cbn in Hr; congruence|]. rewrite Hr, Hm, Hrec. reflexivity.
    + rewrite (IH (c :: word) ms); [cbn [rev]; rewrite <- app_assoc; reflexivity|].
      unfold plain in *. cbn [forallb]. rewrite Hw. destruct (Z.eqb_spec c comma); [contradiction|reflexivity].
Qed.

(** The option takes the known names joined by commas, and nothing else; the
    switches set are those named. *)
Lemma debug_option_exact arg ms : parse_debug [] arg = Ret ms <->
  exists names, names <> [] /\ arg = joined names /\ map activate_debug_mode names = map Some ms.
Proof. apply (parse_debug_from arg [] ms eq_refl). Qed.

(** ** Examples *)

(** The board out of reset, with zeros for what is not initialised, no card, and
    the words of the reset controller that are in its array. *)
Definition blank_gpt : gpt_module :=
  MkGpt (fun _ => 0) 0 0 0 0 0 0 0 0 0 0 false false false false false false false false.
Definition blank_uart : uart_module :=
  MkUart (fun _ => 0) (fun _ => 0) (fun _ => 0) 0 0 false false false false false false false false false 0 0 0 0.
Definition sample_host : esdhc_module :=
  MkEsdhc IDLE (fun _ => 0) (fun _ => None) (MkXfer false false false false false 0 false 0 0)
    (MkPrs false false false false false false false) 0 (MkSys 0 0 0 false false false false) (MkWml 0 0 0 0) (0, 0) (MkBlk 0 0 0) false [].
Definition sample_board : board :=
  MkBoard (MkRam (fun _ => 0) 0x3FFFFFFF) (MkRam (fun _ => 0) 0x3FFFFFFF) (MkBoot (MkRom (fun a => a mod 256)) 0x1000)
    (tzic_reset false) sample_host blank (Gpt.do_reset true blank_gpt) (Uart.do_reset true blank_uart)
    (put_values [(SRC_SCR, 0x00000D21); (SRC_SRSR, 0x00000001); (SRC_SISR, 0x00000001)] (fun _ => 0)) (ccm_reset (fun _ => 0)) (fun _ => dpllc_reset (fun _ => 0)) (MkRam (fun _ => 0) 0x1FFFF).

Example boot_mode_read : board_transport (MkReq READ 0x53FD0004 0) sample_board = Ret (Data (Some 0x02000040), sample_board).
Proof. reflexivity. Qed.

(** The constructor of the reset controller writes behind its array. *)
Lemma src_reset_undefined junk : src_reset junk = Crash.
Proof. reflexivity. Qed.

(** A write into the last word of the window of a RAM leaves what is allocated. *)
Example last_word : board_transport (MkReq WRITE 0xAFFFFFFC 1) sample_board = Crash.
Proof. reflexivity. Qed.

Lemma board_reads_complete_witness :
  board_transport (MkReq READ 0x53FD0018 0) sample_board = Crash /\
  exists v b', board_transport (MkReq READ 0x70000010 0) sample_board = Ret (Data v, b').
Proof.
  split; [exact (board_reads_complete 0x53FD0018 0 sample_board eq_refl)|exact (board_reads_complete 0x70000010 0 sample_board eq_refl)].
Defined.

Example debug_names : parse_debug [] (joined (take 3 debug_modes)) = Ret [0; 1; 2]%nat.
Proof. reflexivity. Qed.

Lemma board_access_isolated_example : exists b', board_transport (MkReq WRITE 0x70000010 7) sample_board = Ret (Written, b') /\
  untouched DDR1 sample_board b'.
Proof.
  eexists. split; [reflexivity|].
  exact (proj1 (proj2 (proj2 (proj2 (board_access_isolated (MkReq WRITE 0x70000010 7) sample_board Written _ eq_refl))))).
Defined.

(** A word in the internal memory, a turn of two threads, and accesses around it. *)
Definition sample_run : list event :=
  [Turn THREAD_TZIC []; Access (MkReq WRITE 0xF8000014 5); Turn THREAD_GPT []; Access (MkReq WRITE 0x10 9);
   Access (MkReq READ 0x53FD4014 0); Access (MkReq WRITE 0x60000000 1)].

Definition completes {A} (x : exec A) : bool := match x with Ret _ => true | _ => false end.

Lemma sample_run_completes : completes (board_run (Access (MkReq WRITE 0xF8000010 0xCAFE) :: sample_run) sample_board) = true.
Proof. vm_compute. reflexivity. Qed.

Lemma memory_survives_run_witness :
  match board_run (Access (MkReq WRITE 0xF8000010 0xCAFE) :: sample_run) sample_board with
  | Ret b' => board_transport (MkReq READ 0xF8000010 0) b' = Ret (Data (Some 0xCAFE), b') /\ bootmem b' = bootmem sample_board
  | _ => False
  end.
Proof.
  assert (H := sample_run_completes). destruct (board_run _ _) as [b'|msg|] eqn:E; [|discriminate H|discriminate H].
  apply (memory_survives_run 0xF8000010 0xCAFE sample_run sample_board b');
    [reflexivity|split; [discriminate|reflexivity]|repeat constructor|exact E].
Defined.
