(* ===== verification/MemMap.v ===== *)
(** * The memory map of the run-time linker

    [archc/src/aclib/ac_rtld/memmap.cpp] and [memmap.H]: the regions of the
    target memory, the program break, and the system calls [mmap], [munmap] and
    [brk] of the simulated program.  The linked list of nodes is a list; a node
    runs to the address of the next one.  Addresses are words of 32 bits whose
    sums wrap; [pagesize] is that of the host and [ALIGN_ADDR] is computed with
    64 bits.  The messages are left out. *)
From S2P Require Import Prelude.

Inductive memmap_status := MS_FREE | MS_USED.

#[export] Instance memmap_status_eq_dec : EqDecision memmap_status.
Proof. solve_decision. Defined.

Record memmap_node := MkNode { get_addr : Z; get_status : memmap_status }.

Record memmap := MkMap {
  nodes : list memmap_node;
  pagesize : Z;
  memsize : Z;
  brkaddr : Z;
  newbrkaddr : Z;
  warning_display : bool
}.

Definition set_nodes x m := MkMap x (pagesize m) (memsize m) (brkaddr m) (newbrkaddr m) (warning_display m).
Definition set_memsize x m := MkMap (nodes m) (pagesize m) x (brkaddr m) (newbrkaddr m) (warning_display m).
Definition set_newbrk x m := MkMap (nodes m) (pagesize m) (memsize m) (brkaddr m) x (warning_display m).
Definition set_warning x m := MkMap (nodes m) (pagesize m) (memsize m) (brkaddr m) (newbrkaddr m) x.
Definition set_brk_addr addr m := MkMap (nodes m) (pagesize m) (memsize m) addr addr (warning_display m).

Definition new_memmap (page : Z) : memmap := MkMap [MkNode 0 MS_FREE] page 0 0 0 true.

Definition is_free (n : memmap_node) : bool := bool_decide (get_status n = MS_FREE).

(** ** The list *)

(** The first loop of [fix_consistency]: a node at or above the next one goes,
    unless both are free. *)
Definition misplaced (prior aux : memmap_node) : bool :=
  (get_addr aux <=? get_addr prior) && negb (is_free aux && is_free prior).

Fixpoint fix_misplaced (prior : memmap_node) (l : list memmap_node) : list memmap_node :=
  match l with
  | [] => [prior]
  | aux :: l => if misplaced prior aux then fix_misplaced aux l else prior :: fix_misplaced aux l
  end.

(** The second loop: adjacent free regions are merged. *)
Fixpoint merge_free (prior : memmap_node) (l : list memmap_node) : list memmap_node :=
  match l with
  | [] => [prior]
  | aux :: l => if is_free aux && is_free prior then merge_free prior l else prior :: merge_free aux l
  end.

(** [list] is never NULL. *)
Definition fix_consistency (l : list memmap_node) : exec (list memmap_node) :=
  match l with
  | [] => Crash
  | n :: l => match fix_misplaced n l with [] => Crash | n :: l => Ret (merge_free n l) end
  end.

(** The node of [find_region] and what follows it. *)
Fixpoint find_region (addr : Z) (l : list memmap_node) : option (list memmap_node * memmap_node * list memmap_node) :=
  match l with
  | [] => None
  | n :: l =>
      if get_addr n =? addr then Some ([], n, l)
      else '(before, found, after) ← find_region addr l; Some (n :: before, found, after)
  end.

(** The two new nodes come behind the last node below [start_addr], or behind
    the first node. *)
Fixpoint insert_after_below (start_addr : Z) (new l : list memmap_node) : list memmap_node :=
  match l with
  | n :: l => if get_addr n <? start_addr then n :: insert_after_below start_addr new l else new ++ n :: l
  | [] => new
  end.

Definition insert_region (start_addr size : Z) (l : list memmap_node) : exec (list memmap_node) :=
  let new := [MkNode start_addr MS_USED; MkNode (u32 (start_addr + size)) MS_FREE] in
  match l with
  | [] => Crash
  | n :: l' => Ret (if get_addr n <? start_addr then insert_after_below start_addr new l else n :: new ++ l')
  end.

Definition add_region (start_addr size : Z) (m : memmap) : exec memmap :=
  if memsize m <? u32 (start_addr + size) then Exit "ArchC memory manager error: not enough memory in target."
  else
    l ← insert_region start_addr size (nodes m);
    l ← fix_consistency l;
    Ret (set_nodes l m).

(** ** The requests *)

Definition ALIGN_ADDR (m : memmap) (align : Z) : Z := align - align mod pagesize m + pagesize m.

(** The last node the loop reaches and the nodes behind it. *)
Fixpoint region_of (addr : Z) (aux : memmap_node) (l : list memmap_node) : memmap_node * list memmap_node :=
  match l with
  | [] => (aux, [])
  | n :: l' => if addr <? get_addr n then (aux, l) else region_of addr n l'
  end.

(** The result and the value of [*next_addr], [None] where it is not assigned. *)
Definition verify_region_availability (addr size : Z) (m : memmap) : exec (bool * option Z) :=
  if addr <=? ALIGN_ADDR m (newbrkaddr m) then Ret (false, Some (u32 (ALIGN_ADDR m (newbrkaddr m))))
  else
    match nodes m with
    | [] => Crash
    | n :: l =>
        let '(aux, after) := region_of addr n l in
        if negb (is_free aux) then
          Ret (false, Some (match after with next :: _ => get_addr next | [] => 0 end))
        else
          match after with
          | next :: after =>
              if negb (is_free next) && (get_addr next <? u32 (addr + size)) then
                Ret (false, Some (match after with next :: _ => get_addr next | [] => 0 end))
              else Ret (negb (memsize m <? u32 (addr + size)), Some 0)
          | [] => Ret (negb (memsize m <? u32 (addr + size)), Some 0)
          end
    end.

Definition suggest_free_region (m : memmap) : exec Z :=
  match last (nodes m) with
  | None => Crash
  | Some n => Ret (if get_addr n mod pagesize m =? 0 then get_addr n else u32 (ALIGN_ADDR m (get_addr n)))
  end.

Definition NO_ADDR : Z := 2 ^ 32 - 1.

(** The loop of [suggest_mmap_region], with fuel; [loop] tells whether the
    search has started again from the break. *)
Fixpoint suggest_loop (fuel : nat) (addr size : Z) (loop : bool) (m : memmap) : option (exec (Z * memmap)) :=
  match fuel with
  | O => None
  | S fuel =>
      match verify_region_availability addr size m with
      | Ret (true, _) => Some (Ret (addr, m))
      | Ret (false, next) =>
          let nextaddr := default 0 next in
          if negb (nextaddr =? 0) && (u32 (nextaddr + size) <? memsize m) then
            suggest_loop fuel (u32 (ALIGN_ADDR m nextaddr)) size loop m
          else if negb loop then suggest_loop fuel (u32 (ALIGN_ADDR m (brkaddr m))) size true m
          else Some (Ret (NO_ADDR, set_warning false m))
      | Exit msg => Some (Exit msg)
      | Crash => Some Crash
      end
  end.

Definition suggest_mmap_region (fuel : nat) (size : Z) (m : memmap) : option (exec (Z * memmap)) :=
  let addr := u32 (Z.shiftr (u32 (memsize m - newbrkaddr m)) 1 + newbrkaddr m) in
  suggest_loop fuel (u32 (ALIGN_ADDR m addr)) size false m.

Definition mmap_anon (fuel : nat) (addr size : Z) (m : memmap) : option (exec (Z * memmap)) :=
  if size =? 0 then Some (Ret (NO_ADDR, m))
  else
    let addr := if addr mod pagesize m =? 0 then addr else u32 (ALIGN_ADDR m addr) in
    let place :=
      if addr =? 0 then suggest_mmap_region fuel size m
      else match verify_region_availability addr size m with
           | Ret (true, _) => Some (Ret (addr, m))
           | Ret (false, _) => suggest_mmap_region fuel size m
           | Exit msg => Some (Exit msg)
           | Crash => Some Crash
           end in
    match place with
    | Some (Ret (addr, m)) =>
        Some (if addr =? NO_ADDR then Ret (addr, m) else m ← add_region addr size m; Ret (addr, m))
    | r => r
    end.

Definition munmap (addr size : Z) (m : memmap) : exec (bool * memmap) :=
  if addr =? 0 then Ret (false, m)
  else if negb (addr mod pagesize m =? 0) then Ret (false, m)
  else
    match find_region addr (nodes m) with
    | None => Ret (false, m)
    | Some (before, aux, after) =>
        match after with
        | next :: _ =>
            if u32 (get_addr next - get_addr aux) <=? size then
              l ← fix_consistency (before ++ MkNode (get_addr aux) MS_FREE :: after);
              Ret (true, set_nodes l m)
            else Ret (true, m)
        | [] => Ret (true, m)
        end
    end.

(** The lowest used node at or above the break. *)
Definition used_above (brk : Z) (l : list memmap_node) : option memmap_node :=
  List.find (fun n => (brk <=? get_addr n) && negb (is_free n)) l.

Definition brk (addr : Z) (m : memmap) : Z * memmap :=
  if addr <=? brkaddr m then (newbrkaddr m, m)
  else if addr <=? newbrkaddr m then (addr, set_newbrk addr m)
  else if memsize m <=? addr then (newbrkaddr m, set_warning false m)
  else match used_above (newbrkaddr m) (nodes m) with
       | Some n => if get_addr n <=? addr then (newbrkaddr m, m) else (addr, set_newbrk addr m)
       | None => (addr, set_newbrk addr m)
       end.

(** [ac_rtld::initiate]: the program's own region and the break. *)
Definition initiate (page start size memory brk : Z) : exec memmap :=
  m ← add_region start size (set_memsize memory (new_memmap page));
  Ret (set_brk_addr brk m).
