(* ===== verification/MemMapOk.v ===== *)
(** * The memory map never gives the same address twice

    For every sequence of [mmap], [munmap] and [brk] requests: the search for a
    free region ends, and the regions the program holds are disjoint, aligned,
    above the heap and inside the memory.  A size for which addresses wrap is
    excluded, and the last section shows what such a size does. *)
From S2P Require Import Prelude MemMap.

(** ** Chains of nodes *)

(** Addresses grow and free regions are not adjacent; a free region of length
    zero may be left before a used one. *)
Definition link (a b : memmap_node) : Prop :=
  get_addr a < get_addr b /\ (is_free a && is_free b) = false \/
  get_addr a = get_addr b /\ is_free a = true /\ is_free b = false.

Fixpoint chain (l : list memmap_node) : Prop :=
  match l with a :: (b :: _) as l' => link a b /\ chain l' | _ => True end.

Lemma link_le a b : link a b -> get_addr a <= get_addr b.
Proof. intros [[? _]|[? _]]; lia. Qed.

Lemma link_free a b : link a b -> is_free a = true -> is_free b = false.
Proof. intros [[_ H]|(_ & _ & H)] Ha; [rewrite Ha in H; exact H|exact H]. Qed.

Lemma chain_cons a l : chain (a :: l) -> chain l.
Proof. destruct l; cbn; tauto. Qed.

Lemma chain_app l1 a l2 : chain (l1 ++ a :: l2) <-> chain (l1 ++ [a]) /\ chain (a :: l2).
Proof.
  induction l1 as [|b l1 IH]; [cbn [app chain]; destruct l2; tauto|].
  cbn [app]. destruct l1 as [|c l1]; [cbn [app chain]; tauto|].
  cbn [app] in IH |- *. cbn [chain]. cbn [chain] in IH. tauto.
Qed.

Lemma chain_app_r l1 l2 : chain (l1 ++ l2) -> chain l2.
Proof. induction l1 as [|a l1 IH]; [auto|]. intros H. apply IH, (chain_cons a), H. Qed.

Lemma chain_below a l : chain (a :: l) -> Forall (fun n => get_addr a <= get_addr n) l.
Proof.
  revert a. induction l as [|b l IH]; intros a H; constructor.
  - apply link_le, H.
  - eapply Forall_impl; [apply (IH b), (chain_cons a), H|]. cbn. intros n. pose proof (link_le a b (proj1 H)). lia.
Qed.

(** ** The loops of [fix_consistency] on a chain *)

(** What the first loop keeps of [l] before the node [a]. *)
Fixpoint kept (l : list memmap_node) (a : memmap_node) : list memmap_node :=
  match l with
  | [] => []
  | n :: l => (if misplaced n (match l with [] => a | b :: _ => b end) then [] else [n]) ++ kept l a
  end.

Lemma fix_misplaced_app l n a r : fix_misplaced n (l ++ a :: r) = kept (n :: l) a ++ fix_misplaced a r.
Proof.
  revert n. induction l as [|b l IH]; intros n.
  - cbn [app fix_misplaced kept]. destruct (misplaced n a); reflexivity.
  - cbn [app fix_misplaced]. rewrite IH. cbn [kept]. destruct (misplaced n b); reflexivity.
Qed.

Lemma misplaced_link a b : link a b -> misplaced a b = true -> get_addr a = get_addr b /\ is_free a = true /\ is_free b = false.
Proof.
  intros [[H _]|H]; [|auto]. unfold misplaced. destruct (Z.leb_spec (get_addr b) (get_addr a)); [lia|discriminate].
Qed.

(** Only free nodes go, and the first node keeps its address. *)
Lemma kept_spec l a : chain (l ++ [a]) ->
  chain (kept l a ++ [a]) /\ (forall n, In n (kept l a) -> In n l) /\
  (forall n, In n l -> is_free n = false -> In n (kept l a)) /\
  (forall p, link p (hd a l) -> link p (hd a (kept l a))) /\ get_addr (hd a (kept l a)) = get_addr (hd a l).
Proof.
  induction l as [|n l IH]; intros H; [cbn; auto|].
  cbn [app] in H. destruct (IH (chain_cons _ _ H)) as (H1 & H2 & H3 & H4 & H5).
  assert (Hl : link n (hd a l)) by (destruct l; apply H).
  cbn [kept hd]. replace (match l with [] => a | b :: _ => b end) with (hd a l) by (destruct l; reflexivity).
  destruct (misplaced n (hd a l)) eqn:E; cbn [app].
  - destruct (misplaced_link _ _ Hl E) as (E1 & E2 & E3).
    split; [exact H1|]. split; [auto with datatypes|]. split; [|split].
    + intros m [->|Hm] Hf; [congruence|auto].
    + intros p Hp. apply H4. destruct Hp as [[Hp Hpf]|(_ & _ & Hp)]; [|congruence].
      left. split; [lia|]. rewrite E3. apply andb_false_r.
    + congruence.
  - split; [|split; [|split; [|split]]].
    + destruct (kept l a) as [|b k]; cbn [app chain]; (split; [apply H4, Hl|apply H1]).
    + intros m [->|Hm]; [left; reflexivity|right; auto].
    + intros m [->|Hm] Hf; [left; reflexivity|right; auto].
    + auto.
    + reflexivity.
Qed.

Lemma fix_misplaced_spec n l : chain (n :: l) ->
  chain (fix_misplaced n l) /\ (forall m, In m (fix_misplaced n l) -> In m (n :: l)) /\
  (forall m, In m (n :: l) -> is_free m = false -> In m (fix_misplaced n l)) /\
  exists b k, fix_misplaced n l = b :: k /\ get_addr b = get_addr n.
Proof.
  intros H. destruct (exists_last (l := n :: l)) as (l1 & a & E); [discriminate|].
  assert (Ef : fix_misplaced n l = kept l1 a ++ [a]).
  { destruct l1 as [|n1 l1]; injection E as -> ->; [reflexivity|].
    rewrite fix_misplaced_app. reflexivity. }
  rewrite E in H. destruct (kept_spec l1 a H) as (H1 & H2 & H3 & _ & H5). rewrite Ef, E. split; [exact H1|].
  split; [|split].
  - intros m Hm. apply in_app_or in Hm as [Hm|Hm]; apply in_or_app; auto.
  - intros m Hm Hf. apply in_app_or in Hm as [Hm|Hm]; apply in_or_app; auto.
  - assert (Hn : get_addr (hd a l1) = get_addr n) by (destruct l1; injection E as -> ->; reflexivity).
    destruct (kept l1 a) as [|b k]; cbn [hd app] in *; eexists _, _; (split; [reflexivity|congruence]).
Qed.

Lemma merge_free_chain l n : chain (n :: l) -> merge_free n l = n :: l.
Proof.
  revert n. induction l as [|b l IH]; intros n H; [reflexivity|]. cbn [merge_free]. destruct H as [Hl H].
  destruct (is_free n) eqn:E; [rewrite (link_free _ _ Hl E)|rewrite andb_false_r]; cbn [andb]; rewrite IH by exact H; reflexivity.
Qed.

Lemma merge_free_app l n a r : chain (n :: l ++ [a]) -> merge_free n (l ++ a :: r) = n :: l ++ merge_free a r.
Proof.
  revert n. induction l as [|b l IH]; intros n H; cbn [app merge_free]; destruct H as [Hl H].
  - destruct (is_free n) eqn:E; [rewrite (link_free _ _ Hl E)|rewrite andb_false_r]; reflexivity.
  - destruct (is_free n) eqn:E; [rewrite (link_free _ _ Hl E)|rewrite andb_false_r]; cbn [andb]; rewrite IH by exact H; reflexivity.
Qed.

(** ** A new region *)

(** A place for [size] bytes at [st]: a free node and what follows it. *)
Record place (l before : list memmap_node) (aux : memmap_node) (after : list memmap_node) (st size : Z) : Prop := {
  pl_list : l = before ++ aux :: after;
  pl_free : is_free aux = true;
  pl_below : get_addr aux <= st;
  pl_after : forall h r, after = h :: r -> st < get_addr h /\ is_free h = false /\ st + size <= get_addr h
}.

Lemma insert_after_below_app st new l1 l2 :
  Forall (fun n => get_addr n < st) l1 -> (forall h r, l2 = h :: r -> st <= get_addr h) ->
  insert_after_below st new (l1 ++ l2) = l1 ++ new ++ l2.
Proof.
  intros H1 H2. induction H1 as [|n l1 Hn _ IH]; cbn [app insert_after_below].
  - destruct l2 as [|h r]; [cbn; rewrite app_nil_r; reflexivity|]. cbn [insert_after_below].
    specialize (H2 h r eq_refl). destruct (Z.ltb_spec (get_addr h) st); [lia|reflexivity].
  - destruct (Z.ltb_spec (get_addr n) st); [|lia]. rewrite IH. reflexivity.
Qed.

Lemma chain_before l1 a : chain (l1 ++ [a]) -> Forall (fun n => get_addr n <= get_addr a) l1.
Proof.
  induction l1 as [|n l1 IH]; constructor.
  - pose proof (chain_below n (l1 ++ [a]) H) as F. apply Forall_app in F as [_ F]. inversion F. assumption.
  - apply IH, (chain_cons n), H.
Qed.

(** A free node is strictly above those before it. *)
Lemma chain_before_free l1 a : chain (l1 ++ [a]) -> is_free a = true -> Forall (fun n => get_addr n < get_addr a) l1.
Proof.
  induction l1 as [|n l1 IH]; intros H Ha; constructor; [|apply IH; [apply (chain_cons n), H|assumption]].
  destruct l1 as [|b l1].
  - destruct H as [[[H _]|(_ & _ & H)] _]; [exact H|congruence].
  - specialize (IH (chain_cons _ _ H) Ha). inversion IH as [|? ? Hb _]; subst. pose proof (link_le _ _ (proj1 H)). lia.
Qed.

Definition used (a : Z) : memmap_node := MkNode a MS_USED.
Definition free (a : Z) : memmap_node := MkNode a MS_FREE.

Lemma is_free_free a : is_free (free a) = true.
Proof. reflexivity. Qed.

(** What the requests keep of a list of nodes: it is a chain from address 0. *)
Definition nodes_ok (l : list memmap_node) : Prop := chain l /\ exists n r, l = n :: r /\ get_addr n = 0.

Lemma fix_consistency_chain l : nodes_ok l ->
  exists l', fix_consistency l = Ret l' /\ nodes_ok l' /\ (forall n, In n l' -> In n l) /\
    (forall n, In n l -> is_free n = false -> In n l').
Proof.
  intros [H (n & r & -> & H0)]. destruct (fix_misplaced_spec n r H) as (H1 & H2 & H3 & b & k & E & Hb).
  cbn [fix_consistency]. rewrite E in *. rewrite merge_free_chain by exact H1.
  eexists. split; [reflexivity|]. split; [split; [exact H1|exists b, k; split; [reflexivity|lia]]|]. split; assumption.
Qed.

Lemma insert_between l before aux after st size :
  nodes_ok l -> place l before aux after st size -> get_addr aux < st -> 0 < size ->
  nodes_ok (before ++ aux :: used st :: free (st + size) :: after).
Proof.
  intros [Hc (n & r & En & Hn)] [-> Hf Hb Ha] Hlt Hs. split.
  - apply chain_app in Hc as [H1 H2]. apply chain_app. split; [exact H1|]. cbn [chain].
    split; [left; split; [exact Hlt|apply andb_false_r]|]. split; [left; split; [cbn; lia|reflexivity]|].
    destruct after as [|h t]; [exact I|]. split; [|apply (chain_cons aux), H2].
    destruct (Ha h t eq_refl) as (H3 & H4 & H5). destruct (Z.eq_dec (st + size) (get_addr h)) as [E|E].
    + right. auto.
    + left. rewrite H4. split; [cbn; lia|reflexivity].
  - destruct before as [|b before]; injection En as <- _; eexists _, _; (split; [reflexivity|exact Hn]).
Qed.

(** The new region starts at a free node, which goes. *)
Lemma fix_replaced l before aux after st size :
  nodes_ok l -> place l before aux after st size -> get_addr aux = st -> 0 < st -> 0 < size ->
  exists l', fix_consistency (before ++ used st :: free (st + size) :: aux :: after) = Ret l' /\ nodes_ok l' /\
    (forall n, In n l' -> In n l \/ n = used st \/ n = free (st + size)) /\
    (forall n, In n l -> is_free n = false -> In n l') /\ In (used st) l'.
Proof.
  intros [Hc (n & r & En & Hn)] [-> Hf Hb Ha] Heq Hpos Hs.
  destruct before as [|n0 before]; [injection En as -> ->; lia|]. injection En as -> En.
  apply chain_app in Hc as [H1 H2].
  assert (Hu : chain ((n :: before) ++ [used st])).
  { pose proof (chain_before_free _ _ H1 Hf) as F. rewrite Heq in F. revert H1 F. generalize (n :: before).
    intros l1. induction l1 as [|x l1 IH]; intros H1 F; [exact I|]. inversion F as [|? ? Hx F']; subst.
    destruct l1 as [|y l1]; [cbn; split; [left; split; [exact Hx|apply andb_false_r]|exact I]|].
    split; [apply H1|]. apply IH; [apply (chain_cons x), H1|exact F']. }
  (* the first loop *)
  assert (Et : exists t, fix_misplaced aux after = aux :: t /\ chain (free (st + size) :: t) /\
                (forall m, In m t -> In m after) /\ (forall m, In m after -> is_free m = false -> In m t)).
  { destruct after as [|h r']; [exists []; cbn; auto|]. destruct (Ha h r' eq_refl) as (H3 & H4 & H5).
    cbn [fix_misplaced]. destruct (misplaced aux h) eqn:E.
    { destruct (misplaced_link _ _ (proj1 H2) E). lia. }
    destruct (fix_misplaced_spec h r' (chain_cons _ _ H2)) as (G1 & G2 & G3 & b & k & G4 & G5).
    eexists. split; [reflexivity|]. split; [|split; assumption].
    assert (b = h) as ->.
    { destruct r' as [|h2 r'']; [cbn in G4; congruence|]. cbn [fix_misplaced] in G4.
      destruct (misplaced h h2) eqn:E2; [|congruence].
      destruct (misplaced_link _ _ (proj1 (chain_cons _ _ H2)) E2) as (_ & G & _). congruence. }
    rewrite G4 in *. split; [|exact G1].
    destruct (Z.eq_dec (st + size) (get_addr h)) as [E3|E3]; [right; auto|left; split; [cbn; lia|]].
    rewrite H4. reflexivity. }
  destruct Et as (t & Et & Ht & Ht1 & Ht2).
  assert (Ef : fix_misplaced n (before ++ used st :: free (st + size) :: aux :: after) =
               kept (n :: before) (used st) ++ used st :: free (st + size) :: aux :: t).
  { rewrite fix_misplaced_app. f_equal. cbn [fix_misplaced]. unfold misplaced at 1. cbn [get_addr used free].
    destruct (Z.leb_spec (st + size) st); [lia|]. cbn [andb]. f_equal. unfold misplaced. rewrite Hf, is_free_free. cbn [andb negb].
    rewrite andb_false_r, Et. reflexivity. }
  destruct (kept_spec _ _ Hu) as (K1 & K2 & K3 & _ & K5).
  cbn [app fix_consistency]. rewrite Ef.
  assert (Hch : chain (kept (n :: before) (used st) ++ [used st] ++ [free (st + size)])).
  { apply chain_app. split; [exact K1|]. cbn. split; [left; cbn; split; [lia|reflexivity]|exact I]. }
  assert (Em : exists b k, kept (n :: before) (used st) ++ used st :: free (st + size) :: aux :: t =
            b :: k ++ free (st + size) :: aux :: t /\ kept (n :: before) (used st) ++ [used st] = b :: k).
  { destruct (kept (n :: before) (used st)) as [|b k]; [exists (used st), []; auto|].
    exists b, (k ++ [used st]). cbn [app]. rewrite <- app_assoc. auto. }
  destruct Em as (b & k & Em & Ek). rewrite Em.
  assert (Hbk : chain (b :: k ++ [free (st + size)])).
  { rewrite app_assoc, Ek in Hch. exact Hch. }
  rewrite merge_free_app by exact Hbk. cbn [merge_free]. rewrite Hf, is_free_free. cbn [andb].
  rewrite merge_free_chain by exact Ht.
  eexists. split; [reflexivity|].
  replace (b :: k ++ free (st + size) :: t) with (kept (n :: before) (used st) ++ used st :: free (st + size) :: t)
    by (transitivity ((kept (n :: before) (used st) ++ [used st]) ++ free (st + size) :: t);
        [rewrite <- app_assoc; reflexivity|rewrite Ek; reflexivity]).
  split; [split|split; [|split]].
  - apply chain_app. split; [exact K1|]. split; [left; cbn; split; [lia|reflexivity]|exact Ht].
  - exists (hd (used st) (kept (n :: before) (used st))). cbn [hd] in K5.
    destruct (kept (n :: before) (used st)); eexists; (split; [reflexivity|cbn in K5 |- *; lia]).
  - intros m Hm. apply in_app_or in Hm as [Hm|[<-|[<-|Hm]]]; auto.
    + left. apply (in_or_app (n :: before)). left. apply K2. exact Hm.
    + left. apply (in_or_app (n :: before)). right. right. apply Ht1. exact Hm.
  - intros m Hm Hu'. apply in_or_app. apply (in_app_or (n :: before)) in Hm as [Hm|[<-|Hm]]; [left; apply K3; assumption|congruence|].
    right. right. right. apply Ht2; assumption.
  - apply in_or_app. right. left. reflexivity.
Qed.

(** ** The map *)

Record map_ok (m : memmap) : Prop := {
  mo_nodes : nodes_ok (nodes m);
  mo_bound : Forall (fun n => get_addr n <= memsize m) (nodes m);
  mo_page : 0 < pagesize m;
  mo_size : memsize m + 2 * pagesize m <= 2 ^ 32;
  mo_brk : 0 <= brkaddr m <= newbrkaddr m /\ newbrkaddr m <= memsize m
}.

Lemma nodes_nonneg l : nodes_ok l -> Forall (fun n => 0 <= get_addr n) l.
Proof.
  intros [H (n & r & -> & H0)]. constructor; [lia|]. eapply Forall_impl; [apply (chain_below _ _ H)|]. cbn. intros. lia.
Qed.

Lemma align_range m x : 0 < pagesize m -> x < ALIGN_ADDR m x <= x + pagesize m.
Proof. intros H. unfold ALIGN_ADDR. pose proof (Z.mod_pos_bound x (pagesize m) H). lia. Qed.

Lemma align_aligned m x : 0 < pagesize m -> ALIGN_ADDR m x mod pagesize m = 0.
Proof.
  intros H. unfold ALIGN_ADDR. pose proof (Z.div_mod x (pagesize m) ltac:(lia)).
  replace (x - x mod pagesize m + pagesize m) with ((x / pagesize m + 1) * pagesize m) by lia. apply Z_mod_mult.
Qed.

Lemma region_of_spec a l : forall n aux after, region_of a n l = (aux, after) -> get_addr n <= a ->
  exists before, n :: l = before ++ aux :: after /\ get_addr aux <= a /\ (forall h r, after = h :: r -> a < get_addr h).
Proof.
  induction l as [|b l IH]; intros n aux after H Hn; cbn [region_of] in H.
  - injection H as <- <-. exists []. split; [reflexivity|]. split; [exact Hn|discriminate].
  - destruct (Z.ltb_spec a (get_addr b)).
    + injection H as <- <-. exists []. split; [reflexivity|]. split; [exact Hn|]. intros h r [= <- <-]. assumption.
    + destruct (IH b aux after H) as (before & E & H1 & H2); [lia|]. exists (n :: before). rewrite E. auto.
Qed.

(** The request fits where the check says so. *)
Definition available (addr size : Z) (m : memmap) : Prop :=
  ALIGN_ADDR m (newbrkaddr m) < addr /\ addr + size <= memsize m /\
  exists before aux after, place (nodes m) before aux after addr size.

(** How the check goes on: where the search continues, above the place it
    refused, or not at all. *)
Definition refused (addr : Z) (next : Z) (m : memmap) : Prop :=
  addr <= ALIGN_ADDR m (newbrkaddr m) /\ next = ALIGN_ADDR m (newbrkaddr m) \/
  ALIGN_ADDR m (newbrkaddr m) < addr /\ (next = 0 \/ addr < next /\ exists n, In n (nodes m) /\ get_addr n = next).

Lemma verify_spec addr size m : map_ok m -> 0 < size -> 0 <= addr -> addr + size < 2 ^ 32 ->
  exists b next, verify_region_availability addr size m = Ret (b, next) /\
    (if b then available addr size m else refused addr (default 0 next) m).
Proof.
  intros [Hn Hbd Hp Hm [Hb1 Hb2]] Hs Ha Hw. unfold verify_region_availability.
  pose proof (align_range m (newbrkaddr m) Hp). destruct (Z.leb_spec addr (ALIGN_ADDR m (newbrkaddr m))).
  { eexists false, _. split; [reflexivity|]. left. cbn. rewrite uwrap_small by lia. auto. }
  pose proof Hn as [Hc (n & r & En & Hz)]. rewrite En.
  destruct (region_of addr n r) as [aux after] eqn:Er.
  destruct (region_of_spec _ _ _ _ _ Er) as (before & El & Hle & Hgt); [lia|]. rewrite <- En in El.
  assert (Hr : forall x t, after = x :: t -> refused addr (get_addr x) m).
  { intros x t ->. right. split; [assumption|]. right. split; [apply (Hgt x t eq_refl)|]. exists x. split; [|reflexivity].
    rewrite El. apply in_or_app. right. right. left. reflexivity. }
  assert (Hz0 : refused addr 0 m) by (right; auto).
  rewrite uwrap_small by lia.
  assert (Hend : forall P, place (nodes m) before aux after addr size \/ P -> ~ P ->
            (if negb (memsize m <? addr + size) then available addr size m else refused addr 0 m)).
  { intros P [Hpl|HP] HnP; [|contradiction]. destruct (Z.ltb_spec (memsize m) (addr + size)); [exact Hz0|].
    split; [assumption|]. split; [assumption|]. eauto. }
  destruct (is_free aux) eqn:Ef; cbn [negb].
  2:{ destruct after as [|x t]; eexists false, _; (split; [reflexivity|]); cbn; [exact Hz0|apply (Hr x t eq_refl)]. }
  destruct after as [|x t].
  { eexists _, _. split; [reflexivity|]. apply (Hend False); [left|tauto]. split; auto. discriminate. }
  assert (Hux : is_free x = false).
  { rewrite El in Hc. apply chain_app in Hc as [_ [Hl _]]. apply (link_free _ _ Hl Ef). }
  rewrite Hux. cbn [negb andb]. destruct (Z.ltb_spec (get_addr x) (addr + size)).
  - destruct t as [|y t]; eexists false, _; (split; [reflexivity|]); cbn; [exact Hz0|].
    right. split; [assumption|]. right. split.
    + pose proof (Hgt x (y :: t) eq_refl). rewrite El in Hc. apply chain_app in Hc as [_ [_ [Hl _]]]. pose proof (link_le _ _ Hl). lia.
    + exists y. split; [|reflexivity]. rewrite El. apply in_or_app. right. right. right. left. reflexivity.
  - eexists _, _. split; [reflexivity|]. apply (Hend False); [left|tauto]. split; auto.
    intros h r' [= <- <-]. split; [apply (Hgt x t eq_refl)|auto].
Qed.

Lemma add_region_spec addr size m : map_ok m -> 0 < size -> available addr size m ->
  exists l, add_region addr size m = Ret (set_nodes l m) /\ nodes_ok l /\
    (forall n, In n l -> In n (nodes m) \/ n = used addr \/ n = free (addr + size)) /\
    (forall n, In n (nodes m) -> is_free n = false -> In n l) /\ In (used addr) l.
Proof.
  intros [Hn Hbd Hp Hm [Hb1 Hb2]] Hs (Ha1 & Ha2 & before & aux & after & Hpl).
  pose proof (align_range m (newbrkaddr m) Hp).
  unfold add_region. rewrite uwrap_small by lia. destruct (Z.ltb_spec (memsize m) (addr + size)); [lia|].
  pose proof Hpl as [El Hf Hle Hafter]. pose proof Hn as [Hc (n & r & En & Hz)].
  assert (Hins : forall l1 l2, nodes m = l1 ++ l2 -> Forall (fun x => get_addr x < addr) l1 ->
            (forall h t, l2 = h :: t -> addr <= get_addr h) ->
            insert_region addr size (nodes m) = Ret (l1 ++ used addr :: free (addr + size) :: l2)).
  { intros l1 l2 E F1 F2. unfold insert_region. rewrite uwrap_small by lia. rewrite En at 1.
    destruct (Z.ltb_spec (get_addr n) addr); [|lia]. rewrite E, insert_after_below_app by assumption. reflexivity. }
  rewrite El in Hc. apply chain_app in Hc as [Hc1 Hc2].
  destruct (Z.eq_dec (get_addr aux) addr) as [Eq|Ne].
  - rewrite (Hins before (aux :: after) El).
    + destruct (fix_replaced _ _ _ _ _ _ Hn Hpl Eq ltac:(lia) Hs) as (l & E & H1 & H2 & H3 & H4).
      cbn [mbind exec_bind]. rewrite E. exists l. split; [reflexivity|]. auto.
    + rewrite <- Eq. apply chain_before_free; assumption.
    + intros h t [= <- <-]. lia.
  - rewrite (Hins (before ++ [aux]) after).
    + pose proof (insert_between _ _ _ _ _ _ Hn Hpl ltac:(lia) Hs) as Hok.
      rewrite <- app_assoc. cbn [app mbind exec_bind]. destruct (fix_consistency_chain _ Hok) as (l & E & H1 & H2 & H3).
      rewrite E. exists l. split; [reflexivity|]. split; [exact H1|]. rewrite El. split; [|split].
      * intros m0 Hm0. apply H2, in_app_or in Hm0 as [Hm0|[<-|[<-|[<-|Hm0]]]]; auto; left; apply in_or_app; cbn; auto.
      * intros m0 Hm0 Hu. apply H3; [|exact Hu]. apply in_or_app. apply in_app_or in Hm0 as [Hm0|[<-|Hm0]]; cbn; auto.
      * apply H3; [|reflexivity]. apply in_or_app. cbn. auto.
    + rewrite <- app_assoc. exact El.
    + apply Forall_app. split; [|constructor; [lia|constructor]]. eapply Forall_impl; [apply (chain_before _ _ Hc1)|]. cbn. intros. lia.
    + intros h t ->. destruct (Hafter h t eq_refl). lia.
Qed.

(** ** The search ends *)

(** The places the search can still be refused at from [addr] on. *)
Definition ahead (m : memmap) (addr : Z) : nat :=
  (if (addr <=? ALIGN_ADDR m (newbrkaddr m)) then 1 else 0) + length (List.filter (fun n => addr <? get_addr n) (nodes m)).

Lemma filter_length_lt {A} (f g : A -> bool) l x : (forall y, In y l -> g y = true -> f y = true) ->
  In x l -> f x = true -> g x = false -> (length (List.filter g l) < length (List.filter f l))%nat.
Proof.
  assert (Hle : forall l, (forall y, In y l -> g y = true -> f y = true) -> (length (List.filter g l) <= length (List.filter f l))%nat).
  { induction l0 as [|y l0 IH]; intros H; [reflexivity|]. cbn [List.filter]. specialize (IH ltac:(intros; apply H; cbn; auto)).
    pose proof (H y (or_introl eq_refl)). destruct (g y), (f y); cbn [length]; try lia; discriminate (H0 eq_refl). }
  induction l as [|y l IH]; intros H Hx Hf Hg; [destruct Hx|]. cbn [List.filter].
  assert (Hl : forall z, In z l -> g z = true -> f z = true) by (intros; apply H; cbn; auto).
  destruct Hx as [->|Hx].
  - rewrite Hf, Hg. specialize (Hle l Hl). cbn [length]. lia.
  - specialize (IH Hl Hx Hf Hg). pose proof (H y (or_introl eq_refl)) as Hy.
    destruct (g y), (f y); cbn [length]; try lia; discriminate (Hy eq_refl).
Qed.

Lemma ahead_bound m addr : (ahead m addr <= 1 + length (nodes m))%nat.
Proof. unfold ahead. pose proof (List.filter_length_le (fun n => addr <? get_addr n) (nodes m)). destruct (_ <=? _); lia. Qed.

(** The search goes on from a place with less ahead. *)
Lemma ahead_next m addr next : 0 < pagesize m -> next <> 0 -> refused addr next m -> (ahead m (ALIGN_ADDR m next) < ahead m addr)%nat.
Proof.
  intros Hp H0 H. pose proof (align_range m next Hp) as Hal. unfold ahead.
  assert (Hmono : forall a b, a <= b -> forall y, In y (nodes m) -> (b <? get_addr y) = true -> (a <? get_addr y) = true).
  { intros a b Hab y _ Hy. apply Z.ltb_lt in Hy. apply Z.ltb_lt. lia. }
  destruct H as [[Ha ->]|[Ha [->|(Hlt & n & Hin & <-)]]]; [|contradiction|].
  - set (an := ALIGN_ADDR m (newbrkaddr m)) in *. destruct (Z.leb_spec addr an); [|lia].
    destruct (Z.leb_spec (ALIGN_ADDR m an) an); [lia|].
    assert (length (List.filter (fun n => (ALIGN_ADDR m an <? get_addr n)%Z) (nodes m)) <=
            length (List.filter (fun n => (addr <? get_addr n)%Z) (nodes m)))%nat; [|lia].
    clear Hmono. assert (Hle : addr <= ALIGN_ADDR m an) by lia. revert Hle. generalize (ALIGN_ADDR m an). intros b Hle.
    induction (nodes m) as [|y l IH]; [reflexivity|]. cbn [List.filter].
    destruct (Z.ltb_spec b (get_addr y)), (Z.ltb_spec addr (get_addr y)); cbn [length]; lia.
  - destruct (Z.leb_spec addr (ALIGN_ADDR m (newbrkaddr m))); [lia|].
    destruct (Z.leb_spec (ALIGN_ADDR m (get_addr n)) (ALIGN_ADDR m (newbrkaddr m))); [lia|].
    apply (filter_length_lt (fun y => addr <? get_addr y) (fun y => ALIGN_ADDR m (get_addr n) <? get_addr y) (nodes m) n).
    + apply Hmono. lia.
    + exact Hin.
    + apply Z.ltb_lt. exact Hlt.
    + apply Z.ltb_ge. lia.
Qed.

(** A size for which no address the search looks at wraps. *)
Definition fits (size : Z) (m : memmap) : Prop := memsize m + 2 * pagesize m + size <= 2 ^ 32.

Definition aligned (m : memmap) (addr : Z) : Prop := addr mod pagesize m = 0.

Lemma suggest_loop_spec size m : map_ok m -> 0 < size -> fits size m ->
  forall fuel addr (loop : bool), 0 <= addr -> addr + size < 2 ^ 32 -> aligned m addr ->
  (ahead m addr + (if loop then 0 else 2 + length (nodes m)) < fuel)%nat ->
  exists r m', suggest_loop fuel addr size loop m = Some (Ret (r, m')) /\
    (r = NO_ADDR /\ m' = set_warning false m \/ m' = m /\ available r size m /\ aligned m r).
Proof.
  intros Hm Hs Hfit. pose proof (mo_page m Hm) as Hp. pose proof (mo_brk m Hm) as [Hb1 Hb2].
  induction fuel as [|fuel IH]; intros addr loop Ha Hw Hal Hf; [lia|]. cbn [suggest_loop].
  destruct (verify_spec addr size m Hm Hs Ha Hw) as (b & next & -> & Hv). destruct b.
  { eexists _, _. split; [reflexivity|]. right. auto. }
  set (nx := default 0 next) in *. unfold fits in Hfit.
  assert (Hrange : 0 <= nx <= memsize m + pagesize m).
  { destruct Hv as [[_ ->]|[_ [->|(_ & n & Hin & <-)]]]; pose proof (align_range m (newbrkaddr m) Hp); try lia.
    pose proof (mo_bound m Hm) as B. rewrite List.Forall_forall in B. specialize (B n Hin).
    pose proof (nodes_nonneg _ (mo_nodes m Hm)) as N. rewrite List.Forall_forall in N. specialize (N n Hin). lia. }
  pose proof (align_range m nx Hp). pose proof (align_range m (brkaddr m) Hp).
  rewrite (uwrap_small 32 (nx + size)) by lia.
  destruct (Z.eqb_spec nx 0) as [E0|E0]; cbn [negb andb];
    [|destruct (Z.ltb_spec (nx + size) (memsize m)) as [Hlt|Hge]].
  2:{ rewrite uwrap_small by lia. apply IH; [lia|lia|apply align_aligned; exact Hp|].
      pose proof (ahead_next m addr nx Hp E0 Hv). lia. }
  all: destruct loop; cbn [negb]; [eexists _, _; split; [reflexivity|]; left; auto|].
  all: rewrite uwrap_small by lia; apply IH; [lia|lia|apply align_aligned; exact Hp|].
  all: pose proof (ahead_bound m (ALIGN_ADDR m (brkaddr m))); lia.
Qed.

(** Fuel for a request on [m]. *)
Definition mmap_fuel (m : memmap) : nat := 4 + 2 * length (nodes m).

Lemma suggest_mmap_spec size m : map_ok m -> 0 < size -> fits size m ->
  exists r m', suggest_mmap_region (mmap_fuel m) size m = Some (Ret (r, m')) /\
    (r = NO_ADDR /\ m' = set_warning false m \/ m' = m /\ available r size m /\ aligned m r).
Proof.
  intros Hm Hs Hfit. pose proof (mo_page m Hm) as Hp. pose proof (mo_brk m Hm) as [Hb1 Hb2]. unfold fits in Hfit.
  unfold suggest_mmap_region. rewrite (uwrap_small 32 (memsize m - newbrkaddr m)) by lia.
  pose proof (Z.shiftr_div_pow2 (memsize m - newbrkaddr m) 1 ltac:(lia)) as Esh. change (2 ^ 1) with 2 in Esh.
  assert (0 <= Z.shiftr (memsize m - newbrkaddr m) 1 <= memsize m - newbrkaddr m) by (rewrite Esh; Z.div_mod_to_equations; lia).
  set (h := Z.shiftr (memsize m - newbrkaddr m) 1) in *. rewrite (uwrap_small 32 (h + newbrkaddr m)) by lia.
  pose proof (align_range m (h + newbrkaddr m) Hp). rewrite uwrap_small by lia.
  apply suggest_loop_spec; try assumption; [lia|lia|apply align_aligned; exact Hp|].
  pose proof (ahead_bound m (ALIGN_ADDR m (h + newbrkaddr m))). unfold mmap_fuel. lia.
Qed.

(** ** A region is freed *)

(** As [link], but free regions may be adjacent. *)
Definition order (a b : memmap_node) : Prop :=
  get_addr a < get_addr b \/ get_addr a = get_addr b /\ is_free a = true /\ is_free b = false.

Fixpoint ordered (R : memmap_node -> memmap_node -> Prop) (l : list memmap_node) : Prop :=
  match l with a :: (b :: _) as l' => R a b /\ ordered R l' | _ => True end.

Definition below (a b : memmap_node) : Prop := get_addr a < get_addr b.

Lemma chain_ordered l : chain l -> ordered order l.
Proof.
  induction l as [|a l IH]; [auto|]. destruct l as [|b l]; [auto|]. intros [H Hc]. split; [|apply IH, Hc].
  destruct H as [[H _]|H]; [left|right]; exact H.
Qed.

Lemma ordered_app R l1 a l2 : ordered R (l1 ++ a :: l2) <-> ordered R (l1 ++ [a]) /\ ordered R (a :: l2).
Proof.
  induction l1 as [|b l1 IH]; [cbn [app ordered]; destruct l2; tauto|].
  cbn [app]. destruct l1 as [|c l1]; [cbn [app ordered]; tauto|].
  cbn [app] in IH |- *. cbn [ordered]. cbn [ordered] in IH. tauto.
Qed.

Lemma fix_misplaced_ordered l : forall n, ordered order (n :: l) ->
  ordered below (fix_misplaced n l) /\ (forall m, In m (fix_misplaced n l) -> In m (n :: l)) /\
  (forall m, In m (n :: l) -> is_free m = false -> In m (fix_misplaced n l)) /\
  exists b k, fix_misplaced n l = b :: k /\ get_addr b = get_addr n.
Proof.
  induction l as [|b l IH]; intros n H; [cbn; repeat split; auto; eauto|].
  destruct H as [Hl H]. destruct (IH b H) as (H1 & H2 & H3 & c & k & E & Hc). cbn [fix_misplaced].
  unfold misplaced. destruct Hl as [Hl|(Hl & Hf & Hu)].
  - destruct (Z.leb_spec (get_addr b) (get_addr n)); [lia|]. cbn [andb]. split; [|split; [|split]].
    + rewrite E in *. split; [unfold below; lia|exact H1].
    + intros m [->|Hm]; [left; reflexivity|right; auto].
    + intros m [->|Hm] Hm'; [left; reflexivity|right; auto].
    + eauto.
  - destruct (Z.leb_spec (get_addr b) (get_addr n)); [|lia]. rewrite Hu. cbn [andb negb].
    split; [exact H1|]. split; [intros m Hm; right; auto|]. split.
    + intros m [->|Hm] Hm'; [congruence|auto].
    + exists c, k. split; [exact E|lia].
Qed.

Lemma merge_free_below l : forall n, ordered below (n :: l) ->
  chain (merge_free n l) /\ (forall m, In m (merge_free n l) -> In m (n :: l)) /\
  (forall m, In m (n :: l) -> is_free m = false -> In m (merge_free n l)) /\ exists k, merge_free n l = n :: k.
Proof.
  induction l as [|b l IH]; intros n H; [cbn; repeat split; auto; eauto|].
  destruct H as [Hl H]. cbn [merge_free]. destruct (is_free b && is_free n) eqn:E.
  - apply andb_true_iff in E as [Eb En].
    assert (Hn : ordered below (n :: l)).
    { destruct l as [|c l]; [exact I|]. destruct H as [Hb H]. split; [unfold below in *; lia|exact H]. }
    destruct (IH n Hn) as (H1 & H2 & H3 & k & Ek). split; [exact H1|]. split; [|split; [|eauto]].
    + intros m Hm. destruct (H2 m Hm) as [->|Hm']; cbn; auto.
    + intros m [->|[->|Hm]] Hf; [congruence|congruence|]. apply H3; cbn; auto.
  - destruct (IH b H) as (H1 & H2 & H3 & k & Ek). rewrite Ek in *. split; [|split; [|split; [|eauto]]].
    + split; [|exact H1]. left. split; [exact Hl|]. rewrite andb_comm. exact E.
    + intros m [->|Hm]; [left; reflexivity|right; apply H2, Hm].
    + intros m [->|Hm] Hf; [left; reflexivity|right; apply H3; assumption].
Qed.

Lemma fix_consistency_ordered l n r : l = n :: r -> get_addr n = 0 -> ordered order l ->
  exists l', fix_consistency l = Ret l' /\ nodes_ok l' /\ (forall m, In m l' -> In m l) /\
    (forall m, In m l -> is_free m = false -> In m l').
Proof.
  intros -> Hz H. destruct (fix_misplaced_ordered r n H) as (H1 & H2 & H3 & b & k & E & Hb).
  cbn [fix_consistency]. rewrite E in *. destruct (merge_free_below k b H1) as (G1 & G2 & G3 & k' & Ek).
  eexists. split; [reflexivity|]. split; [split; [exact G1|exists b, k'; split; [exact Ek|lia]]|].
  split; intros m Hm; [apply H2, G2, Hm|]. intros Hf. apply G3; [|exact Hf]. apply H3; assumption.
Qed.

Lemma find_region_spec addr l : forall before n after, find_region addr l = Some (before, n, after) ->
  l = before ++ n :: after /\ get_addr n = addr /\ Forall (fun x => get_addr x <> addr) before.
Proof.
  induction l as [|x l IH]; intros before n after H; [discriminate|]. cbn [find_region] in H.
  destruct (Z.eqb_spec (get_addr x) addr) as [E|E].
  - injection H as <- <- <-. split; [reflexivity|]. split; [exact E|constructor].
  - destruct (find_region addr l) as [[[b n'] a]|] eqn:Ef; [|discriminate]. injection H as <- <- <-.
    destruct (IH _ _ _ eq_refl) as (-> & H1 & H2). split; [reflexivity|]. split; [exact H1|]. constructor; assumption.
Qed.

(** [munmap] frees one node, that of the address. *)
Lemma munmap_spec addr size m : map_ok m ->
  exists b l, munmap addr size m = Ret (b, set_nodes l m) /\ nodes_ok l /\
    (forall n, In n l -> In n (nodes m) \/ n = free addr /\ exists x, In x (nodes m) /\ get_addr x = addr) /\
    (forall n, In n (nodes m) -> is_free n = false -> get_addr n <> addr \/ b = false -> In n l).
Proof.
  intros Hm. pose proof (mo_nodes m Hm) as Hn. unfold munmap.
  assert (Hsame : forall b, exists b' l, Ret (b, m) = Ret (b', set_nodes l m) /\ nodes_ok l /\
    (forall n, In n l -> In n (nodes m) \/ n = free addr /\ exists x, In x (nodes m) /\ get_addr x = addr) /\
    (forall n, In n (nodes m) -> is_free n = false -> get_addr n <> addr \/ b' = false -> In n l)).
  { intros b. exists b, (nodes m). split; [destruct m; reflexivity|]. auto. }
  destruct (addr =? 0); [apply Hsame|]. destruct (negb _); [apply Hsame|].
  destruct (find_region addr (nodes m)) as [[[before aux] after]|] eqn:Ef; [|apply Hsame].
  destruct (find_region_spec _ _ _ _ _ Ef) as (E & Ha & Hb).
  destruct after as [|next after]; [apply Hsame|]. destruct (_ <=? size); [|apply Hsame].
  set (l0 := before ++ MkNode (get_addr aux) MS_FREE :: next :: after).
  assert (Hin : forall n, In n l0 -> In n (nodes m) \/ n = free addr /\ exists x, In x (nodes m) /\ get_addr x = addr).
  { intros n Hi. rewrite E. apply in_app_or in Hi as [Hi|[<-|Hi]]; [left|right|left].
    - apply in_or_app; auto.
    - split; [rewrite Ha; reflexivity|]. exists aux. split; [apply in_or_app; cbn; auto|exact Ha].
    - apply in_or_app; cbn; auto. }
  assert (Hkeep : forall n, In n (nodes m) -> is_free n = false -> get_addr n <> addr -> In n l0).
  { intros n Hi _ Hne. rewrite E in Hi. apply in_or_app. apply in_app_or in Hi as [Hi|[<-|Hi]]; cbn; auto. contradiction. }
  destruct Hn as [Hc (n & r & En & Hz)].
  assert (Ho : exists n0 r0, l0 = n0 :: r0 /\ get_addr n0 = 0).
  { unfold l0. rewrite E in En. destruct before as [|b0 before]; injection En as -> _; eauto. }
  destruct Ho as (n0 & r0 & E0 & Hz0).
  assert (Hord : ordered order l0).
  { rewrite E in Hc. apply chain_app in Hc as [Hc1 Hc2]. apply ordered_app. split.
    - revert Hb Hc1. clear - Ha. induction before as [|x l IH]; intros Hb Hc; [exact I|].
      inversion Hb as [|? ? Hx Hb']; subst. destruct l as [|y l].
      + cbn. split; [|exact I]. left. cbn. pose proof (link_le _ _ (proj1 Hc)). lia.
      + split; [|apply IH; [exact Hb'|apply Hc]]. destruct Hc as [[[H _]|H] _]; [left|right]; exact H.
    - apply chain_ordered in Hc2. destruct Hc2 as [Hl Ho]. split; [|exact Ho].
      destruct Hl as [Hl|(Hl & _ & Hu)]; [left; exact Hl|right; auto]. }
  destruct (fix_consistency_ordered l0 n0 r0 E0 Hz0 Hord) as (l & El & H1 & H2 & H3). rewrite El. cbn [mbind exec_bind].
  exists true, l. split; [reflexivity|]. split; [exact H1|]. split; [auto|].
  intros x Hx Hf [Hne|Hne]; [|discriminate]. apply H3; [apply Hkeep; assumption|exact Hf].
Qed.

(** ** A program and its regions *)

Inductive request := Mmap (addr size : Z) | Munmap (addr size : Z) | Brk (addr : Z).

(** The regions the program has been given and has not given back. *)
Definition regions : Type := list (Z * Z).

Definition serve (q : request) (s : memmap * regions) : option (exec (memmap * regions)) :=
  let '(m, held) := s in
  match q with
  | Mmap addr size =>
      match mmap_anon (mmap_fuel m) addr size m with
      | Some (Ret (r, m)) => Some (Ret (m, if r =? NO_ADDR then held else (r, size) :: held))
      | Some (Exit msg) => Some (Exit msg)
      | Some Crash => Some Crash
      | None => None
      end
  | Munmap addr size =>
      Some ('(done, m) ← munmap addr size m; Ret (m, if done : bool then List.filter (fun g => negb (fst g =? addr)) held else held))
  | Brk addr => Some (Ret ((brk addr m).2, held))
  end.

Fixpoint serve_all (qs : list request) (s : memmap * regions) : option (exec (memmap * regions)) :=
  match qs with
  | [] => Some (Ret s)
  | q :: qs => match serve q s with Some (Ret s) => serve_all qs s | r => r end
  end.

(** No address of the request wraps. *)
Definition sensible (m : memmap) (q : request) : Prop :=
  match q with
  | Mmap addr size => 0 <= addr /\ 0 <= size /\ addr + pagesize m + size < 2 ^ 32 /\ fits size m
  | Brk addr => 0 <= addr
  | Munmap _ _ => True
  end.

Definition overlap (g h : Z * Z) : Prop := exists x, fst g <= x < fst g + snd g /\ fst h <= x < fst h + snd h.

(** A region of the program in the map: its node and no other inside. *)
Record holds (m : memmap) (g : Z * Z) : Prop := {
  hd_size : 0 < snd g;
  hd_aligned : aligned m (fst g);
  hd_above : newbrkaddr m < fst g;
  hd_end : fst g + snd g <= memsize m;
  hd_node : In (used (fst g)) (nodes m);
  hd_inside : forall n, In n (nodes m) -> ~ (fst g < get_addr n < fst g + snd g)
}.

Record held_ok (m : memmap) (held : regions) : Prop := {
  ho_map : map_ok m;
  ho_holds : Forall (holds m) held;
  ho_distinct : NoDup (map fst held)
}.

Lemma holds_disjoint m g h : holds m g -> holds m h -> fst g <> fst h -> ~ overlap g h.
Proof.
  intros Hg Hh Hne (x & H1 & H2).
  pose proof (hd_inside m g Hg _ (hd_node m h Hh)) as A. pose proof (hd_inside m h Hh _ (hd_node m g Hg)) as B.
  cbn [get_addr used] in A, B. lia.
Qed.

(** Requests that keep the sizes and add nodes outside the regions held. *)
Lemma holds_step m l g : holds m g -> In (used (fst g)) l ->
  (forall n, In n l -> In n (nodes m) \/ ~ (fst g < get_addr n < fst g + snd g)) -> holds (set_nodes l m) g.
Proof. intros [H1 H2 H3 H4 H5 H6] Hin Hl. split; auto. intros n Hn. destruct (Hl n Hn); auto. Qed.

Lemma map_ok_step m l : map_ok m -> nodes_ok l -> (forall n, In n l -> In n (nodes m) \/ get_addr n <= memsize m) ->
  map_ok (set_nodes l m).
Proof.
  intros [Hn Hb Hp Hs Hk] Hl Hin. split; auto. cbn. apply List.Forall_forall. intros n Hi.
  rewrite List.Forall_forall in Hb. destruct (Hin n Hi); auto.
Qed.

(** A place the check accepts lies outside every region held. *)
Lemma available_outside addr size m g : map_ok m -> 0 < size -> available addr size m -> holds m g ->
  fst g + snd g <= addr \/ addr + size <= fst g.
Proof.
  intros Hm Hs (_ & _ & before & aux & after & [El Hf Hle Haf]) [Hg1 _ _ _ Hg5 Hg6].
  destruct (mo_nodes m Hm) as [Hc _]. rewrite El in Hc. apply chain_app in Hc as [Hc1 Hc2].
  pose proof Hg5 as Hin. rewrite El in Hin. apply in_app_or in Hin as [Hin|[Hin|Hin]].
  - (* the node of the region comes before the place *)
    pose proof (chain_before_free _ _ Hc1 Hf) as F. rewrite List.Forall_forall in F. specialize (F _ Hin). cbn in F.
    assert (Ha : ~ (fst g < get_addr aux < fst g + snd g)) by (apply Hg6; rewrite El; apply in_or_app; cbn; auto). lia.
  - subst aux. discriminate.
  - destruct after as [|h r]; [destruct Hin|]. destruct (Haf h r eq_refl) as (_ & _ & H3).
    destruct Hin as [->|Hin]; [cbn in H3; lia|]. pose proof (chain_below _ _ (chain_cons _ _ Hc2)) as F.
    rewrite List.Forall_forall in F. specialize (F _ Hin). cbn in F. lia.
Qed.

Lemma mmap_ok addr size m held : held_ok m held -> sensible m (Mmap addr size) ->
  exists m' held', serve (Mmap addr size) (m, held) = Some (Ret (m', held')) /\ held_ok m' held' /\
    pagesize m' = pagesize m /\ memsize m' = memsize m.
Proof.
  intros [Hm Hh Hd] (Ha & Hs & Hw & Hfit). cbn [serve]. unfold mmap_anon.
  assert (Hwarn : held_ok (set_warning false m) held).
  { split; [|eapply List.Forall_impl; [|exact Hh]|exact Hd].
    - destruct Hm; split; assumption.
    - intros g [? ? ? ? ? ?]. split; assumption. }
  destruct (Z.eqb_spec size 0) as [->|Hs0]; [exists m, held; split; [reflexivity|split; [split; assumption|auto]]|].
  pose proof (mo_page m Hm) as Hp. pose proof (mo_brk m Hm) as [Hb1 Hb2].
  set (addr' := if addr mod pagesize m =? 0 then addr else u32 (ALIGN_ADDR m addr)).
  assert (Ha' : 0 <= addr' /\ addr' + size < 2 ^ 32 /\ aligned m addr').
  { unfold addr'. destruct (Z.eqb_spec (addr mod pagesize m) 0); [split; [lia|split; [lia|assumption]]|].
    pose proof (align_range m addr Hp). rewrite uwrap_small by lia. split; [lia|]. split; [lia|]. apply align_aligned, Hp. }
  destruct Ha' as (Ha1 & Ha2 & Ha3).
  (* where the region goes *)
  assert (Hplace : exists r m', (if addr' =? 0 then suggest_mmap_region (mmap_fuel m) size m
      else match verify_region_availability addr' size m with
           | Ret (true, _) => Some (Ret (addr', m)) | Ret (false, _) => suggest_mmap_region (mmap_fuel m) size m
           | Exit msg => Some (Exit msg) | Crash => Some Crash end) = Some (Ret (r, m')) /\
      (r = NO_ADDR /\ m' = set_warning false m \/ m' = m /\ available r size m /\ aligned m r)).
  { pose proof (suggest_mmap_spec size m Hm ltac:(lia) Hfit) as Hsug.
    destruct (addr' =? 0); [exact Hsug|].
    destruct (verify_spec addr' size m Hm ltac:(lia) Ha1 Ha2) as (b & next & -> & Hv). destruct b; [|exact Hsug].
    eexists _, _. split; [reflexivity|]. right. auto. }
  destruct Hplace as (r & m' & -> & [[-> ->]|(-> & Hav & Hal)]).
  { exists (set_warning false m), held. split; [reflexivity|]. auto. }
  pose proof Hav as (Hav1 & Hav2 & _). pose proof (align_range m (newbrkaddr m) Hp).
  assert (Hr : (r =? NO_ADDR) = false) by (apply Z.eqb_neq; unfold NO_ADDR; unfold fits in Hfit; lia).
  rewrite Hr. destruct (add_region_spec r size m Hm ltac:(lia) Hav) as (l & -> & H1 & H2 & H3 & H4). cbn [mbind exec_bind].
  rewrite Hr. exists (set_nodes l m), ((r, size) :: held). split; [reflexivity|]. split; [|auto].
  assert (Hout : forall g, holds m g -> fst g + snd g <= r \/ r + size <= fst g)
    by (intros g Hg; apply (available_outside r size m g Hm ltac:(lia) Hav Hg)).
  split.
  - apply map_ok_step; [exact Hm|exact H1|]. intros n Hn. destruct (H2 n Hn) as [|[->| ->]]; [auto|right; cbn; lia..].
  - constructor.
    + split; auto; cbn [fst snd]; [lia|cbn; lia|]. intros n Hn. destruct (H2 n Hn) as [Hn'|[->| ->]]; [|cbn; lia..].
      destruct Hav as (_ & _ & before & aux & after & [El Hf Hle Haf]). destruct (mo_nodes m Hm) as [Hc _].
      rewrite El in Hc, Hn'. apply chain_app in Hc as [Hc1 Hc2]. apply in_app_or in Hn' as [Hn'|[<-|Hn']]; [|lia|].
      * pose proof (chain_before _ _ Hc1) as F. rewrite List.Forall_forall in F. specialize (F _ Hn'). lia.
      * destruct after as [|h t]; [destruct Hn'|]. destruct (Haf h t eq_refl) as (_ & _ & He).
        destruct Hn' as [<-|Hn']; [lia|]. pose proof (chain_below _ _ (chain_cons _ _ Hc2)) as F.
        rewrite List.Forall_forall in F. specialize (F _ Hn'). lia.
    + eapply List.Forall_impl; [|exact Hh]. intros g Hg. apply holds_step; [exact Hg|apply H3; [apply Hg|reflexivity]|].
      intros n Hn. destruct (H2 n Hn) as [|[->| ->]]; [auto|right..]; pose proof (Hout g Hg); pose proof (hd_size m g Hg); cbn; lia.
  - cbn [map fst]. constructor; [|exact Hd]. intros Hin. apply list_elem_of_In, in_map_iff in Hin as (g & Eg & Hg).
    rewrite List.Forall_forall in Hh. pose proof (Hout g (Hh g Hg)). pose proof (hd_size m g (Hh g Hg)). lia.
Qed.

Lemma munmap_ok addr size m held : held_ok m held ->
  exists m' held', serve (Munmap addr size) (m, held) = Some (Ret (m', held')) /\ held_ok m' held' /\
    pagesize m' = pagesize m /\ memsize m' = memsize m.
Proof.
  intros [Hm Hh Hd]. cbn [serve]. destruct (munmap_spec addr size m Hm) as (b & l & -> & H1 & H2 & H3). cbn [mbind exec_bind].
  eexists _, _. split; [reflexivity|]. split; [|auto].
  assert (Hmap : map_ok (set_nodes l m)).
  { apply map_ok_step; [exact Hm|exact H1|]. intros n Hn. destruct (H2 n Hn) as [|[-> (x & Hx & <-)]]; [auto|right].
    pose proof (mo_bound m Hm) as B. rewrite List.Forall_forall in B. apply (B x Hx). }
  assert (Hkeep : forall g, holds m g -> fst g <> addr \/ b = false -> holds (set_nodes l m) g).
  { intros g Hg Hne. apply holds_step; [exact Hg| |].
    - apply H3; [apply Hg|reflexivity|exact Hne].
    - intros n Hn. destruct (H2 n Hn) as [|[-> (x & Hx & <-)]]; [auto|right]. apply (hd_inside m g Hg x Hx). }
  destruct b; (split; [exact Hmap| |]).
  - apply List.Forall_forall. intros g Hg. apply filter_In in Hg as [Hg Hne]. rewrite List.Forall_forall in Hh.
    apply Hkeep; [apply Hh, Hg|left]. apply negb_true_iff, Z.eqb_neq in Hne. exact Hne.
  - clear - Hd. induction held as [|g held IH]; [constructor|]. cbn [map] in Hd. apply NoDup_cons in Hd as [Hn Hd].
    cbn [List.filter]. destruct (negb _); [|apply IH, Hd]. cbn [map]. constructor; [|apply IH, Hd].
    intros Hin. apply Hn. apply list_elem_of_In, in_map_iff in Hin as (h & Eh & Hh). apply filter_In in Hh as [Hh _].
    apply list_elem_of_In, in_map_iff. eauto.
  - eapply List.Forall_impl; [|exact Hh]. intros g Hg. apply Hkeep; auto.
  - exact Hd.
Qed.

Lemma find_none_In {A} (f : A -> bool) l x : List.find f l = None -> In x l -> f x = false.
Proof. intros H. apply (find_none f l H). Qed.

(** The break grows below the lowest used node above it. *)
Lemma brk_spec addr m : map_ok m -> 0 <= addr ->
  exists nb w, (brk addr m).2 = set_warning w (set_newbrk nb m) /\ brkaddr m <= nb <= memsize m /\
    (nb <= newbrkaddr m \/ forall n, In n (nodes m) -> is_free n = false -> newbrkaddr m <= get_addr n -> nb < get_addr n).
Proof.
  intros Hm Ha. pose proof (mo_brk m Hm) as [Hb1 Hb2]. unfold brk.
  assert (Hstay : m = set_warning (warning_display m) (set_newbrk (newbrkaddr m) m)) by (destruct m; reflexivity).
  destruct (Z.leb_spec addr (brkaddr m)).
  { exists (newbrkaddr m), (warning_display m). split; [exact Hstay|]. split; [lia|left; lia]. }
  destruct (Z.leb_spec addr (newbrkaddr m)).
  { exists addr, (warning_display m). split; [destruct m; reflexivity|]. split; [lia|left; lia]. }
  destruct (Z.leb_spec (memsize m) addr).
  { exists (newbrkaddr m), false. split; [destruct m; reflexivity|]. split; [lia|left; lia]. }
  assert (Hgrow : exists nb w, set_newbrk addr m = set_warning w (set_newbrk nb m) /\ nb = addr) by (exists addr, (warning_display m); destruct m; auto).
  destruct Hgrow as (nb & w & Eg & ->).
  destruct (used_above (newbrkaddr m) (nodes m)) as [n|] eqn:Ef; unfold used_above in Ef.
  - destruct (Z.leb_spec (get_addr n) addr).
    { exists (newbrkaddr m), (warning_display m). split; [exact Hstay|]. split; [lia|left; lia]. }
    exists addr, w. split; [exact Eg|]. split; [lia|]. right. intros x Hx Hu Hge.
    destruct (mo_nodes m Hm) as [Hc _]. clear - Ef Hx Hu Hge Hc H2. induction (nodes m) as [|y l IH]; [destruct Hx|].
    cbn [List.find] in Ef. destruct ((newbrkaddr m <=? get_addr y) && negb (is_free y)) eqn:E.
    + injection Ef as ->. destruct Hx as [<-|Hx]; [exact H2|]. pose proof (chain_below _ _ Hc) as F.
      rewrite List.Forall_forall in F. specialize (F x Hx). lia.
    + destruct Hx as [->|Hx]; [|apply IH; [exact Ef|exact Hx|apply (chain_cons _ _ Hc)]].
      rewrite Hu in E. destruct (Z.leb_spec (newbrkaddr m) (get_addr x)); [discriminate|lia].
  - exists addr, w. split; [exact Eg|]. split; [lia|]. right. intros x Hx Hu Hge. pose proof (find_none_In _ _ x Ef Hx) as E.
    cbv beta in E. rewrite Hu in E. destruct (Z.leb_spec (newbrkaddr m) (get_addr x)); [discriminate|lia].
Qed.

Lemma brk_ok addr m held : held_ok m held -> 0 <= addr ->
  exists m' held', serve (Brk addr) (m, held) = Some (Ret (m', held')) /\ held_ok m' held' /\
    pagesize m' = pagesize m /\ memsize m' = memsize m.
Proof.
  intros [Hm Hh Hd] Ha. cbn [serve]. destruct (brk_spec addr m Hm Ha) as (nb & w & -> & Hr & Hlow).
  eexists _, _. split; [reflexivity|]. split; [|auto]. pose proof Hm as [Hn Hb Hp Hs Hk]. split; [split; auto; cbn; lia| |exact Hd].
  eapply List.Forall_impl; [|exact Hh]. intros g [H1 H2 H3 H4 H5 H6]. split; auto. cbn.
  destruct Hlow as [Hlow|Hlow]; [lia|]. apply (Hlow _ H5); [reflexivity|]. cbn. lia.
Qed.

Lemma serve_all_ok qs : forall m held, held_ok m held -> Forall (sensible m) qs ->
  exists m' held', serve_all qs (m, held) = Some (Ret (m', held')) /\ held_ok m' held'.
Proof.
  induction qs as [|q qs IH]; intros m held H Hq; [exists m, held; auto|].
  inversion Hq as [|? ? Hq1 Hq2]; subst.
  assert (Hstep : exists m' held', serve q (m, held) = Some (Ret (m', held')) /\ held_ok m' held' /\
                    pagesize m' = pagesize m /\ memsize m' = memsize m)
    by (destruct q; [apply mmap_ok|apply munmap_ok|apply brk_ok]; assumption).
  destruct Hstep as (m1 & held1 & E & H1 & Ep & Es). cbn [serve_all]. rewrite E. apply IH; [exact H1|].
  eapply List.Forall_impl; [|exact Hq2]. intros q' Hs. destruct q'; unfold sensible, fits in *; rewrite ?Ep, ?Es; exact Hs.
Qed.


(** ** The start of a program *)

Lemma initiate_ok page start size memory brk :
  0 < page -> 0 <= start -> 0 < size -> start + size <= memory -> memory + 2 * page <= 2 ^ 32 -> 0 <= brk <= memory ->
  exists m, initiate page start size memory brk = Ret m /\ map_ok m /\ pagesize m = page /\ memsize m = memory.
Proof.
  intros Hp Hst Hs He Hm Hb. unfold initiate, add_region. cbn [memsize set_memsize nodes new_memmap].
  rewrite uwrap_small by lia. destruct (Z.ltb_spec memory (start + size)); [lia|].
  unfold insert_region. rewrite uwrap_small by lia. cbn [get_addr].
  assert (Hok : exists l, fix_consistency (if 0 <? start then insert_after_below start [used start; free (start + size)] [free 0]
                    else [free 0; used start; free (start + size)]) = Ret l /\ nodes_ok l /\
                  Forall (fun n => get_addr n <= memory) l).
  { destruct (Z.ltb_spec 0 start).
    - assert (E : insert_after_below start [used start; free (start + size)] [free 0] = [free 0; used start; free (start + size)]).
      { cbn [insert_after_below get_addr free]. destruct (Z.ltb_spec 0 start); [reflexivity|lia]. }
      rewrite E. assert (Hn : nodes_ok [free 0; used start; free (start + size)]).
      { split; [|eexists _, _; split; [reflexivity|reflexivity]]. cbn.
        split; [left; cbn; split; [lia|reflexivity]|]. split; [left; cbn; split; [lia|reflexivity]|exact I]. }
      destruct (fix_consistency_chain _ Hn) as (l & El & H1 & H2 & _). exists l. split; [exact El|]. split; [exact H1|].
      apply List.Forall_forall. intros n Hi. destruct (H2 n Hi) as [<-|[<-|[<-|[]]]]; cbn; lia.
    - assert (start = 0) as -> by lia. exists [used 0; free (0 + size)]. split; [|split].
      + cbn [app fix_consistency fix_misplaced]. unfold misplaced at 1. cbn [get_addr used free Z.leb Z.compare].
        change (is_free (MkNode 0 MS_USED)) with false. cbn [andb negb].
        unfold misplaced. cbn [get_addr used free]. destruct (Z.leb_spec (0 + size) 0); [lia|]. reflexivity.
      + split; [|eexists _, _; split; reflexivity]. cbn. split; [left; cbn; split; [lia|reflexivity]|exact I].
      + repeat constructor; cbn; lia. }
  destruct Hok as (l & El & H1 & H2). unfold used, free in El. cbn [mbind exec_bind app]. rewrite El. cbn [mbind exec_bind].
  eexists. split; [reflexivity|]. split; [|auto]. split; auto; cbn; lia.
Qed.

(** ** Requests whose addresses wrap *)

Lemma merge_free_subset l : forall n m, In m (merge_free n l) -> In m (n :: l).
Proof.
  induction l as [|b l IH]; intros n m H; [exact H|]. cbn [merge_free] in H. destruct (_ && _).
  - destruct (IH n m H) as [->|H']; cbn; auto.
  - destruct H as [->|H]; [left; reflexivity|right; apply IH, H].
Qed.

Lemma kept_subset l a n : In n (kept l a) -> In n l.
Proof.
  induction l as [|b l IH]; [auto|]. cbn [kept]. intros H. apply in_app_or in H as [H|H]; [|right; apply IH, H].
  destruct (misplaced _ _); [destruct H|]. destruct H as [<-|[]]. left. reflexivity.
Qed.

(** A hint near the top of the address space, with a size that wraps, is
    accepted: [mmap] gives back an address outside the memory and records
    nothing there. *)
Theorem wrapping_hint_accepted m before n addr size :
  map_ok m -> nodes m = before ++ [n] -> is_free n = true -> 0 < size -> aligned m addr ->
  memsize m + pagesize m < addr < 2 ^ 32 -> addr <> NO_ADDR -> 2 ^ 32 <= addr + size <= 2 ^ 32 + memsize m ->
  exists l, mmap_anon (mmap_fuel m) addr size m = Some (Ret (addr, set_nodes l m)) /\ ~ In (used addr) l.
Proof.
  intros Hm En Hf Hs Hal Ha Hno Hw. pose proof (mo_page m Hm) as Hp. pose proof (mo_brk m Hm) as [Hb1 Hb2].
  pose proof (align_range m (newbrkaddr m) Hp) as Hbr. pose proof (mo_bound m Hm) as Hbd.
  unfold mmap_anon. destruct (Z.eqb_spec size 0) as [|_]; [lia|]. unfold aligned in Hal. rewrite Hal. cbn [Z.eqb].
  destruct (Z.eqb_spec addr 0) as [|_]; [lia|].
  assert (Eu : u32 (addr + size) = addr + size - 2 ^ 32).
  { unfold uwrap. symmetry. apply (Z.mod_unique _ _ 1); [left; lia|lia]. }
  assert (Ev : verify_region_availability addr size m = Ret (true, Some 0)).
  { unfold verify_region_availability. destruct (Z.leb_spec addr (ALIGN_ADDR m (newbrkaddr m))); [lia|].
    assert (Er : forall x l, nodes m = x :: l -> region_of addr x l = (n, [])).
    { rewrite En in Hbd |- *. clear - Hbd Ha Hp. revert Hbd. induction before as [|y k IH]; intros Hbd x l E.
      - injection E as <- <-. reflexivity.
      - cbn [app] in E. injection E as <- <-. inversion Hbd as [|? ? _ Hbd']; subst.
        destruct (k ++ [n]) as [|z t] eqn:Ek; [destruct k; discriminate|]. cbn [region_of].
        inversion Hbd' as [|? ? Hz _]; subst. destruct (Z.ltb_spec addr (get_addr z)); [lia|]. apply (IH Hbd' z t eq_refl). }
    destruct (nodes m) as [|x l] eqn:Ex; [destruct before; discriminate|]. rewrite (Er x l eq_refl), Hf. cbn [negb].
    rewrite Eu. destruct (Z.ltb_spec (memsize m) (addr + size - 2 ^ 32)); [lia|reflexivity]. }
  rewrite Ev. destruct (Z.eqb_spec addr NO_ADDR) as [|_]; [contradiction|].
  unfold add_region. rewrite Eu. destruct (Z.ltb_spec (memsize m) (addr + size - 2 ^ 32)); [lia|].
  pose proof (mo_nodes m Hm) as [Hc (n0 & r & E0 & Hz)].
  assert (Ei : insert_region addr size (nodes m) = Ret (n0 :: r ++ [used addr; free (addr + size - 2 ^ 32)])).
  { unfold insert_region. rewrite Eu, E0. destruct (Z.ltb_spec (get_addr n0) addr); [|lia].
    pose proof (insert_after_below_app addr [used addr; free (addr + size - 2 ^ 32)] (n0 :: r) []) as I.
    rewrite !app_nil_r in I. unfold used, free in I |- *. rewrite I; [reflexivity| |discriminate].
    rewrite <- E0. eapply List.Forall_impl; [|exact Hbd]. cbn. intros. lia. }
  rewrite Ei. cbn [mbind exec_bind fix_consistency].
  replace (n0 :: r ++ [used addr; free (addr + size - 2 ^ 32)]) with (n0 :: r ++ used addr :: [free (addr + size - 2 ^ 32)]) by reflexivity.
  rewrite fix_misplaced_app. cbn [fix_misplaced]. unfold misplaced at 1. cbn [get_addr used free].
  destruct (Z.leb_spec (addr + size - 2 ^ 32) addr); [|lia]. change (is_free (used addr)) with false. rewrite andb_false_r. cbn [andb negb].
  set (l0 := kept (n0 :: r) (used addr) ++ [free (addr + size - 2 ^ 32)]).
  assert (Hl0 : forall x, In x l0 -> get_addr x <= memsize m).
  { intros x Hx. apply in_app_or in Hx as [Hx|[<-|[]]]; [|cbn; lia]. apply kept_subset in Hx. rewrite <- E0 in Hx.
    rewrite List.Forall_forall in Hbd. apply Hbd, Hx. }
  destruct l0 as [|n1 l1] eqn:El; [destruct (kept (n0 :: r) (used addr)); discriminate|].
  cbn [mbind exec_bind]. eexists. split; [reflexivity|]. intros Hin. apply merge_free_subset, Hl0 in Hin. cbn in Hin. lia.
Qed.

(** ** A process *)

(** 64 MB with pages of 4 KB. *)
Definition process : memmap :=
  match initiate 4096 0 0x100000 0x4000000 0x100000 with Ret m => m | _ => new_memmap 4096 end.

Lemma process_ok : map_ok process /\ memsize process = 0x4000000 /\ pagesize process = 4096.
Proof.
  destruct (initiate_ok 4096 0 0x100000 0x4000000 0x100000) as (m & E & H1 & H2 & H3); try lia.
  unfold process. rewrite E. auto.
Qed.

Definition requests : list request :=
  [Mmap 0 8192; Mmap 0x3000000 4096; Brk 0x180000; Mmap 0x3000000 4096; Munmap 0x3000000 4096; Mmap 0x3000000 12288; Brk 0x3000000].

Lemma requests_sensible : Forall (sensible process) requests.
Proof.
  destruct process_ok as (_ & Es & Ep). unfold requests, sensible, fits. rewrite Es, Ep.
  repeat constructor; lia.
Qed.


Lemma wrapping_hint_accepted_witness : exists l,
  mmap_anon (mmap_fuel process) 0xFFFFE000 0x4000 process = Some (Ret (0xFFFFE000, set_nodes l process)) /\
  ~ In (used 0xFFFFE000) l.
Proof.
  destruct process_ok as (Hm & Es & Ep).
  apply (wrapping_hint_accepted process [used 0] (free 0x100000) 0xFFFFE000 0x4000 Hm); try (unfold aligned, NO_ADDR; rewrite ?Es, ?Ep; lia);
    reflexivity.
Defined.
