(* ===== verification/DynMem.v ===== *)
(** * The target memory as the run-time linker sees it

    The simulator keeps the target memory in one array of the host;
    [archc/src/aclib/ac_rtld] reads the structures of ELF in place.  An access
    outside the array is a [Crash].  The host is little endian, and
    [convert_endian] of [ac_utils.cpp] swaps what it reads when the target is
    not.  Loops over lists whose links could be cyclic have fuel: [None] is a
    run that has not ended. *)
From S2P Require Import Prelude.

(** ** Runs that may go on *)

Definition run (A : Type) : Type := option (exec A).

#[export] Instance run_ret : MRet run := fun A a => Some (Ret a).
#[export] Instance run_bind : MBind run := fun A B f m =>
  match m with Some (Ret a) => f a | Some (Exit msg) => Some (Exit msg) | Some Crash => Some Crash | None => None end.

Definition lift {A} (m : exec A) : run A := Some m.

Lemma run_bind_ret {A B} (m : run A) (f : A -> run B) b :
  m ≫= f = Some (Ret b) <-> exists a, m = Some (Ret a) /\ f a = Some (Ret b).
Proof.
  split; [|intros (a & -> & H); exact H].
  destruct m as [[a|msg|]|]; cbn; try discriminate. intros H. exists a. auto.
Qed.

Ltac run_inv H :=
  let a := fresh "a" in let E := fresh "E" in
  apply run_bind_ret in H as (a & E & H).

(** ** The array *)

Record memory := MkMemory { bytes : Z -> Z; msize : Z }.

Definition in_memory (m : memory) (a n : Z) : bool := (0 <=? a) && (a + n <=? msize m).

(** The little-endian word of [n] bytes. *)
Fixpoint word_at (f : Z -> Z) (n : nat) (a : Z) : Z :=
  match n with O => 0 | S n => Z.lor (f a) (Z.shiftl (word_at f n (a + 1)) 8) end.

Definition load (n : nat) (a : Z) (m : memory) : exec Z :=
  if in_memory m a (Z.of_nat n) then Ret (word_at (bytes m) n a) else Crash.

Definition byte_of (v i : Z) : Z := Z.land (Z.shiftr v (8 * i)) 0xFF.

Definition put_word (f : Z -> Z) (n : nat) (a v : Z) : Z -> Z :=
  fun i => if (a <=? i) && (i <? a + Z.of_nat n) then byte_of v (i - a) else f i.

Definition store (n : nat) (a v : Z) (m : memory) : exec memory :=
  if in_memory m a (Z.of_nat n) then Ret (MkMemory (put_word (bytes m) n a v) (msize m)) else Crash.

(** [memcpy (mem + dst, mem + src, n)] on areas that do not overlap. *)
Definition copy_bytes (dst src n : Z) (m : memory) : exec memory :=
  if n =? 0 then Ret m
  else if in_memory m dst n && in_memory m src n then
    Ret (MkMemory (fun i => if (dst <=? i) && (i <? dst + n) then bytes m (src + (i - dst)) else bytes m i) (msize m))
  else Crash.

(** ** Byte order *)

Fixpoint swap_bytes (n : nat) (num out : Z) : Z :=
  match n with O => out | S n => swap_bytes n (Z.shiftr num 8) (u32 (Z.lor (Z.shiftl out 8) (Z.land num 0xFF))) end.

Definition convert_endian (n : nat) (num : Z) (match_endian : bool) : Z :=
  if match_endian then num else swap_bytes n num 0.

(** A field of a structure. *)
Definition field (match_endian : bool) (n : nat) (a : Z) (m : memory) : exec Z :=
  v ← load n a m; Ret (convert_endian n v match_endian).

Definition set_field (match_endian : bool) (n : nat) (a v : Z) (m : memory) : exec memory :=
  store n a (convert_endian n v match_endian) m.

(** ** Strings *)

(** [strcmp] of two strings of the memory: whether they are equal. *)
Fixpoint strcmp_loop (fuel : nat) (a b : Z) (m : memory) : exec bool :=
  match fuel with
  | O => Crash
  | S fuel =>
      x ← load 1 a m; y ← load 1 b m;
      if x =? y then if x =? 0 then Ret true else strcmp_loop fuel (a + 1) (b + 1) m else Ret false
  end.

(** No string is longer than the memory. *)
Definition mem_fuel (m : memory) : nat := S (Z.to_nat (msize m)).
Definition strcmp (a b : Z) (m : memory) : exec bool := strcmp_loop (mem_fuel m) a b m.

Fixpoint string_loop (fuel : nat) (a : Z) (m : memory) : exec (list Z) :=
  match fuel with
  | O => Crash
  | S fuel => c ← load 1 a m; if c =? 0 then Ret [] else s ← string_loop fuel (a + 1) m; Ret (c :: s)
  end.

Definition string_at (a : Z) (m : memory) : exec (list Z) := string_loop (mem_fuel m) a m.

(** The hash function of the ELF ABI, as [unsigned long] of 64 bits. *)
Definition elf_hash_step (hash c : Z) : Z :=
  let hash := u64 (u64 (Z.shiftl hash 4) + c) in
  let hi := Z.land hash 0xf0000000 in
  Z.lxor (Z.lxor hash hi) (Z.shiftr hi 24).

Definition elf_hash (name : list Z) : Z := u32 (fold_left elf_hash_step name 0).

(** ** Byte order, strings and the hash of symbol names

    The words of the target memory, [convert_endian], the comparison of strings
    and the hash function of the ELF ABI. *)

(** ** The hash function *)

(** The function of the generic ABI, on words of 32 bits. *)
Definition abi_hash_step (h c : Z) : Z :=
  let h := u32 (Z.shiftl h 4 + c) in
  let g := Z.land h 0xf0000000 in
  Z.ldiff (if g =? 0 then h else Z.lxor h (Z.shiftr g 24)) g.

Definition abi_hash (name : list Z) : Z := fold_left abi_hash_step name 0.

Lemma high_nibble : 0xf0000000 = Z.shiftl (Z.ones 4) 28.
Proof. reflexivity. Qed.

Lemma u32_shift_add h c : u32 (u64 (u64 (Z.shiftl h 4) + c)) = u32 (Z.shiftl (u32 h) 4 + c).
Proof.
  rewrite uwrap_add_l. rewrite !Z.shiftl_mul_pow2 by lia. unfold uwrap. change (2 ^ 4) with 16.
  change (2 ^ 64) with 18446744073709551616. change (2 ^ 32) with 4294967296. Z.div_mod_to_equations. lia.
Qed.

Lemma elf_hash_step_abi h c : u32 (elf_hash_step h c) = abi_hash_step (u32 h) c.
Proof.
  unfold elf_hash_step, abi_hash_step. rewrite <- (u32_shift_add h c). generalize (u64 (u64 (Z.shiftl h 4) + c)). intros x.
  assert (E : Z.ldiff (if Z.land (u32 x) 0xf0000000 =? 0 then u32 x else Z.lxor (u32 x) (Z.shiftr (Z.land (u32 x) 0xf0000000) 24))
                      (Z.land (u32 x) 0xf0000000) =
              Z.ldiff (Z.lxor (u32 x) (Z.shiftr (Z.land (u32 x) 0xf0000000) 24)) (Z.land (u32 x) 0xf0000000)).
  { destruct (Z.eqb_spec (Z.land (u32 x) 0xf0000000) 0) as [->|]; [|reflexivity]. rewrite Z.lxor_0_r. reflexivity. }
  rewrite E, high_nibble. zbits; repeat destruct (Z.testbit x _); reflexivity.
Qed.

Lemma abi_hash_step_range h c : 0 <= abi_hash_step h c < 2 ^ 28.
Proof.
  unfold abi_hash_step. set (x := u32 (Z.shiftl h 4 + c)). assert (Hx : 0 <= x < 2 ^ 32) by (apply uwrap_range; lia).
  set (y := if Z.land x 0xf0000000 =? 0 then x else Z.lxor x (Z.shiftr (Z.land x 0xf0000000) 24)).
  assert (Hy : 0 <= y).
  { unfold y. destruct (_ =? 0); [lia|]. apply Z.lxor_nonneg. split; intros _; [|lia]. apply Z.shiftr_nonneg, Z.land_nonneg. lia. }
  assert (H0 : 0 <= Z.ldiff y (Z.land x 0xf0000000)) by (apply Z.ldiff_nonneg; auto).
  split; [exact H0|]. apply bits_range; [lia|exact H0|]. intros i Hi. rewrite Z.ldiff_spec, Z.land_spec.
  assert (Ey : Z.testbit y i = Z.testbit x i).
  { unfold y. destruct (_ =? 0); [reflexivity|]. rewrite Z.lxor_spec, Z.shiftr_spec, Z.land_spec by lia.
    rewrite (testbit_high 32 x (i + 24)) by lia. cbn. apply Bool.xorb_false_r. }
  rewrite Ey, high_nibble, Z.shiftl_spec, testbit_ones by lia.
  destruct (Z.ltb_spec i 32).
  - destruct (Z.leb_spec 0 (i - 28)), (Z.ltb_spec (i - 28) 4); try lia. destruct (Z.testbit x i); reflexivity.
  - rewrite (testbit_high 32 x i) by lia. reflexivity.
Qed.

Lemma elf_hash_abi_loop name : forall h, u32 (fold_left elf_hash_step name h) = fold_left abi_hash_step name (u32 h).
Proof. induction name as [|c name IH]; intros h; [reflexivity|]. cbn [fold_left]. rewrite IH, elf_hash_step_abi. reflexivity. Qed.

(** The hash of a name, computed with an [unsigned long] of 64 bits whose
    bits above the thirty-second are never cleared, is that of the 32-bit
    function of the ELF ABI, and below 2^28. *)
Theorem elf_hash_abi name : elf_hash name = abi_hash name /\ 0 <= elf_hash name < 2 ^ 28.
Proof.
  assert (E : elf_hash name = abi_hash name) by apply (elf_hash_abi_loop name 0). split; [exact E|]. rewrite E.
  unfold abi_hash. destruct name as [|c name] using rev_ind; [cbn; lia|]. rewrite fold_left_app. apply abi_hash_step_range.
Qed.

Definition carrying_name : list Z := [0xff; 0x0f; 0x0f; 0x0f; 0x0f; 0x0f; 0x12].

(** A name whose sum carries out of the thirty-second bit. *)
Example elf_hash_carry : u64 (fold_left elf_hash_step carrying_name 0) <> elf_hash carrying_name.
Proof. vm_compute. discriminate. Qed.

(** ** Words of the memory *)

Lemma byte_of_byte v i : 0 <= byte_of v i < 256.
Proof. unfold byte_of. change 0xFF with (Z.ones 8). rewrite Z.land_ones by lia. apply Z.mod_pos_bound. lia. Qed.

Lemma word_at_ext f g n a : (forall i, a <= i < a + Z.of_nat n -> f i = g i) -> word_at f n a = word_at g n a.
Proof.
  revert a. induction n as [|n IH]; intros a H; [reflexivity|]. cbn [word_at].
  rewrite (H a) by lia. rewrite (IH (a + 1)); [reflexivity|]. intros i Hi. apply H. lia.
Qed.

Lemma put_word_inside f n a v i : a <= i < a + Z.of_nat n -> put_word f n a v i = byte_of v (i - a).
Proof. intros H. unfold put_word. destruct (Z.leb_spec a i), (Z.ltb_spec i (a + Z.of_nat n)); try lia. reflexivity. Qed.

Lemma put_word_outside f n a v i : ~ (a <= i < a + Z.of_nat n) -> put_word f n a v i = f i.
Proof. intros H. unfold put_word. destruct (Z.leb_spec a i), (Z.ltb_spec i (a + Z.of_nat n)); try lia; reflexivity. Qed.

Lemma word_at_put f n a v : word_at (put_word f n a v) n a = v mod 2 ^ (8 * Z.of_nat n).
Proof.
  assert (G : forall k j, (j + k = n)%nat ->
    word_at (put_word f n a v) k (a + Z.of_nat j) = Z.shiftr v (8 * Z.of_nat j) mod 2 ^ (8 * Z.of_nat k)).
  { induction k as [|k IH]; intros j Hj; cbn [word_at]; [rewrite Z.mod_1_r; reflexivity|].
    rewrite put_word_inside by lia. replace (a + Z.of_nat j + 1) with (a + Z.of_nat (S j)) by lia. rewrite (IH (S j)) by lia.
    replace (a + Z.of_nat j - a) with (Z.of_nat j) by lia. replace (8 * Z.of_nat (S k)) with (8 * Z.of_nat k + 8) by lia.
    replace (8 * Z.of_nat (S j)) with (8 * Z.of_nat j + 8) by lia. unfold byte_of. change 0xFF with (Z.ones 8).
    rewrite <- (Z.shiftr_shiftr v (8 * Z.of_nat j) 8) by lia. generalize (Z.shiftr v (8 * Z.of_nat j)). intros w.
    apply Z.bits_inj'. intros i Hi. rewrite Z.lor_spec, Z.land_spec, testbit_ones, Z.shiftl_spec by lia.
    rewrite !Z.testbit_mod_pow2 by lia. destruct (Z.leb_spec 0 i); [|lia]. destruct (Z.ltb_spec i 8); cbn [andb].
    - rewrite (Z.testbit_neg_r _ (i - 8)) by lia. destruct (Z.ltb_spec i (8 * Z.of_nat k + 8)); [|lia].
      rewrite Bool.andb_false_r, Bool.orb_false_r, Bool.andb_true_r. reflexivity.
    - rewrite Z.shiftr_spec by lia. replace (i - 8 + 8) with i by lia.
      rewrite Bool.andb_false_r. cbn [orb]. f_equal. destruct (Z.ltb_spec (i - 8) (8 * Z.of_nat k)), (Z.ltb_spec i (8 * Z.of_nat k + 8)); lia. }
  specialize (G n O eq_refl). change (8 * Z.of_nat 0) with 0 in G. rewrite Z.shiftr_0_r in G.
  replace (a + Z.of_nat 0) with a in G by lia. exact G.
Qed.

(** ** Byte order *)

Lemma byte_of_div v i : 0 <= i -> byte_of v i = v / 2 ^ (8 * i) mod 256.
Proof.
  intros Hi. unfold byte_of. change 0xFF with (Z.ones 8). rewrite Z.land_ones, Z.shiftr_div_pow2 by lia. reflexivity.
Qed.

Lemma disjoint_byte a b : Z.land (Z.shiftl a 8) (b mod 256) = 0.
Proof.
  change 256 with (2 ^ 8). apply Z.bits_inj'. intros i Hi. rewrite Z.land_spec, Z.bits_0. destruct (Z.ltb_spec i 8).
  - rewrite Z.shiftl_spec_low by lia. reflexivity.
  - rewrite Z.mod_pow2_bits_high by lia. apply Bool.andb_false_r.
Qed.

Lemma swap_step out num : u32 (Z.lor (Z.shiftl out 8) (Z.land num 0xFF)) = (out * 256 + num mod 256) mod 4294967296.
Proof.
  change 0xFF with (Z.ones 8). rewrite Z.land_ones by lia. change (2 ^ 8) with 256.
  rewrite <- Z.lxor_lor, <- Z.add_nocarry_lxor.
  - rewrite Z.shiftl_mul_pow2 by lia. reflexivity.
  - apply disjoint_byte.
  - apply disjoint_byte.
Qed.

(** Four bytes in the other order. *)
Lemma swap4 x : convert_endian 4 x false =
  byte_of x 0 * 16777216 + byte_of x 1 * 65536 + byte_of x 2 * 256 + byte_of x 3.
Proof.
  rewrite !byte_of_div by lia. zlits. unfold convert_endian, swap_bytes. rewrite !swap_step, !Z.shiftr_shiftr by lia. zlits.
  rewrite !Z.shiftr_div_pow2 by lia.
  change (2 ^ 0) with 1. change (2 ^ 8) with 256. change (2 ^ 16) with 65536. change (2 ^ 24) with 16777216.
  rewrite Z.div_1_r. pose proof (Z.mod_pos_bound x 256). pose proof (Z.mod_pos_bound (x / 256) 256).
  pose proof (Z.mod_pos_bound (x / 65536) 256). pose proof (Z.mod_pos_bound (x / 16777216) 256).
  rewrite (Z.mod_small (0 * 256 + x mod 256)) by lia.
  rewrite (Z.mod_small (_ + x / 256 mod 256)) by lia.
  rewrite (Z.mod_small (_ + x / 65536 mod 256)) by lia.
  rewrite (Z.mod_small (_ + x / 16777216 mod 256)) by lia. lia.
Qed.

Lemma convert_range x e : 0 <= x < 2 ^ 32 -> 0 <= convert_endian 4 x e < 2 ^ 32.
Proof.
  destruct e; [auto|]. intros _. rewrite swap4. pose proof (byte_of_byte x 0). pose proof (byte_of_byte x 1).
  pose proof (byte_of_byte x 2). pose proof (byte_of_byte x 3). change (2 ^ 32) with 4294967296. lia.
Qed.

Lemma convert_involutive x e : 0 <= x < 2 ^ 32 -> convert_endian 4 (convert_endian 4 x e) e = x.
Proof.
  destruct e; [auto|]. change (2 ^ 32) with 4294967296. intros Hx. rewrite (swap4 (convert_endian 4 x false)), swap4.
  pose proof (byte_of_byte x 0) as B0. pose proof (byte_of_byte x 1) as B1. pose proof (byte_of_byte x 2) as B2. pose proof (byte_of_byte x 3) as B3.
  rewrite !(byte_of_div (_ + _)) by lia. zlits. change (2 ^ 0) with 1. change (2 ^ 8) with 256. change (2 ^ 16) with 65536.
  change (2 ^ 24) with 16777216.
  assert (E : x = byte_of x 0 + byte_of x 1 * 256 + byte_of x 2 * 65536 + byte_of x 3 * 16777216).
  { rewrite !byte_of_div by lia. zlits. change (2 ^ 0) with 1. change (2 ^ 8) with 256. change (2 ^ 16) with 65536.
    change (2 ^ 24) with 16777216. Z.div_mod_to_equations. lia. }
  clear Hx. revert E B0 B1 B2 B3. generalize (byte_of x 0), (byte_of x 1), (byte_of x 2), (byte_of x 3). intros b0 b1 b2 b3 -> B0 B1 B2 B3.
  Z.div_mod_to_equations. lia.
Qed.

(** ** Fields, where they are in the memory *)

Definition value_at (e : bool) (n : nat) (a : Z) (m : memory) : Z := convert_endian n (word_at (bytes m) n a) e.

Lemma in_memory_spec m a n : in_memory m a n = true <-> 0 <= a /\ a + n <= msize m.
Proof. unfold in_memory. rewrite andb_true_iff, !Z.leb_le. reflexivity. Qed.

Lemma field_value e n a m : in_memory m a (Z.of_nat n) = true -> field e n a m = Ret (value_at e n a m).
Proof. intros H. unfold field, load. rewrite H. reflexivity. Qed.

Lemma value_at_ext e n a m m' : (forall i, a <= i < a + Z.of_nat n -> bytes m i = bytes m' i) -> value_at e n a m = value_at e n a m'.
Proof. intros H. unfold value_at. rewrite (word_at_ext (bytes m) (bytes m') n a H). reflexivity. Qed.

(** A word written in the order of the target. *)
Definition patched (e : bool) (a v : Z) (m : memory) : memory :=
  MkMemory (put_word (bytes m) 4 a (convert_endian 4 v e)) (msize m).

Lemma set_field_patched e a v m : in_memory m a 4 = true -> set_field e 4 a v m = Ret (patched e a v m).
Proof. intros H. unfold set_field, store. change (Z.of_nat 4) with 4. rewrite H. reflexivity. Qed.

Lemma value_at_patched e a v m : 0 <= v < 2 ^ 32 -> value_at e 4 a (patched e a v m) = v.
Proof.
  intros Hv. unfold value_at, patched. cbn [bytes]. rewrite word_at_put. change (8 * Z.of_nat 4) with 32.
  rewrite Z.mod_small by (apply convert_range; exact Hv). apply convert_involutive. exact Hv.
Qed.

Lemma bytes_patched e a v m i : ~ (a <= i < a + 4) -> bytes (patched e a v m) i = bytes m i.
Proof. apply (put_word_outside (bytes m) 4). Qed.

(** A little-endian word put at an address, to write down small memories. *)
Definition put (n : nat) (a v : Z) (m : memory) : memory := MkMemory (put_word (bytes m) n a v) (msize m).
