(* ===== verification/DynSym.v ===== *)
(** * Symbols, versions and relocations of a shared object

    [archc/src/aclib/ac_rtld]: [symbol_wrapper.H], [version_definitions.cpp],
    [version_needed.cpp], [dynamic_symbol_table.cpp] and
    [dynamic_relocations.cpp].  A pointer into the target memory is an offset in
    it, the current entry of a version table is returned by the function that
    sets it. *)
From S2P Require Import Prelude DynMem.

(** ** Constants of the ELF format *)

Definition SHN_UNDEF : Z := 0.
Definition STT_FUNC : Z := 2.
Definition STT_OBJECT : Z := 1.
Definition STT_COMMON : Z := 5.
Definition STB_LOCAL : Z := 0.
Definition STB_WEAK : Z := 2.
Definition STV_DEFAULT : Z := 0.
Definition STN_UNDEF : Z := 0.
Definition VER_FLG_WEAK : Z := 2.

Definition ST_BIND (info : Z) : Z := Z.shiftr info 4.
Definition ST_TYPE (info : Z) : Z := Z.land info 0xf.
Definition ST_VISIBILITY (other : Z) : Z := Z.land other 3.
Definition R_SYM (info : Z) : Z := Z.shiftr info 8.
Definition R_TYPE (info : Z) : Z := Z.land info 0xff.

(** ** A symbol, by the address of its entry *)

Definition read_name_ndx (e : bool) (sym : Z) (m : memory) : exec Z := field e 4 sym m.
Definition read_value (e : bool) (sym : Z) (m : memory) : exec Z := field e 4 (sym + 4) m.
Definition read_size (e : bool) (sym : Z) (m : memory) : exec Z := field e 4 (sym + 8) m.
Definition read_info (sym : Z) (m : memory) : exec Z := load 1 (sym + 12) m.
Definition read_other (sym : Z) (m : memory) : exec Z := load 1 (sym + 13) m.
Definition read_section_ndx (e : bool) (sym : Z) (m : memory) : exec Z := field e 2 (sym + 14) m.

Definition write_value (e : bool) (sym v : Z) (m : memory) : exec memory := set_field e 4 (sym + 4) v m.
Definition write_size (e : bool) (sym v : Z) (m : memory) : exec memory := set_field e 4 (sym + 8) v m.
Definition write_info (sym v : Z) (m : memory) : exec memory := store 1 (sym + 12) v m.
Definition write_section_ndx (e : bool) (sym v : Z) (m : memory) : exec memory := set_field e 2 (sym + 14) v m.

(** ** Version definitions *)

Record version_table := MkVersions { v_strtab : Z; v_first : Z }.

(** [get_cur_name] of an entry of the definitions; [vd_aux] is not converted.
    The NULL it returns for an entry without a name is dereferenced. *)
Definition verdef_name (e : bool) (t : version_table) (entry : Z) (m : memory) : exec Z :=
  aux ← load 4 (entry + 12) m;
  if aux =? 0 then Crash
  else name ← field e 4 (entry + aux) m; Ret (v_strtab t + name).

Definition verdef_hash (e : bool) (entry : Z) (m : memory) : exec Z := field e 4 (entry + 8) m.

(** The entry behind [entry]: the link is zero at the end. *)
Definition next_entry (e : bool) (offset entry : Z) (m : memory) : exec (option Z) :=
  link ← load 4 (entry + offset) m;
  if link =? 0 then Ret None else next ← field e 4 (entry + offset) m; Ret (Some (entry + next)).

(** [set_entry (vername, hash)]. *)
Fixpoint verdef_named (fuel : nat) (e : bool) (t : version_table) (entry vername hash : Z) (m : memory) : exec (option Z) :=
  match fuel with
  | O => Crash
  | S fuel =>
      h ← verdef_hash e entry m;
      found ← (if h =? hash then name ← verdef_name e t entry m; strcmp name vername m else Ret false);
      if found : bool then Ret (Some entry)
      else next ← next_entry e 16 entry m;
           match next with Some entry => verdef_named fuel e t entry vername hash m | None => Ret None end
  end.

(** [set_entry (index)]. *)
Fixpoint verdef_indexed (fuel : nat) (e : bool) (entry index : Z) (m : memory) : exec (option Z) :=
  match fuel with
  | O => Crash
  | S fuel =>
      ndx ← field e 2 (entry + 4) m;
      if ndx =? index then Ret (Some entry)
      else next ← next_entry e 16 entry m;
           match next with Some entry => verdef_indexed fuel e entry index m | None => Ret None end
  end.

(** ** Versions needed *)

(** [set_entry (filename)]: the auxiliary entry that becomes the current one. *)
Fixpoint verneed_file (fuel : nat) (e : bool) (t : version_table) (entry filename : Z) (m : memory) : exec (option Z) :=
  match fuel with
  | O => Crash
  | S fuel =>
      file ← field e 4 (entry + 4) m;
      same ← strcmp filename (v_strtab t + file) m;
      if same : bool then aux ← field e 4 (entry + 8) m; Ret (Some (entry + aux))
      else next ← next_entry e 12 entry m;
           match next with Some entry => verneed_file fuel e t entry filename m | None => Ret None end
  end.

Definition vernaux_hash (e : bool) (aux : Z) (m : memory) : exec Z := field e 4 aux m.
Definition vernaux_flags (e : bool) (aux : Z) (m : memory) : exec Z := field e 2 (aux + 4) m.
Definition vernaux_other (e : bool) (aux : Z) (m : memory) : exec Z := field e 2 (aux + 6) m.
Definition vernaux_name (e : bool) (t : version_table) (aux : Z) (m : memory) : exec Z :=
  name ← field e 4 (aux + 8) m; Ret (v_strtab t + name).
Definition next_vernaux (e : bool) (aux : Z) (m : memory) : exec (option Z) := next_entry e 12 aux m.

Fixpoint vernaux_version (fuel : nat) (e : bool) (aux ver : Z) (m : memory) : exec (option Z) :=
  match fuel with
  | O => Crash
  | S fuel =>
      other ← vernaux_other e aux m;
      if other =? ver then Ret (Some aux)
      else next ← next_vernaux e aux m;
           match next with Some aux => vernaux_version fuel e aux ver m | None => Ret None end
  end.

(** [lookup_version]: the auxiliary entry with the version's name and hash. *)
Fixpoint lookup_version (fuel : nat) (e : bool) (entry ver : Z) (m : memory) : exec (option Z) :=
  match fuel with
  | O => Crash
  | S fuel' =>
      aux ← load 4 (entry + 8) m;
      found ← (if aux =? 0 then Ret None
               else aux ← field e 4 (entry + 8) m; vernaux_version (mem_fuel m) e (entry + aux) ver m);
      match found with
      | Some aux => Ret (Some aux)
      | None => next ← next_entry e 12 entry m;
                match next with Some entry => lookup_version fuel' e entry ver m | None => Ret None end
      end
  end.

(** ** The symbol table *)

Record symbol_table := MkTable {
  nbuckets : Z; nchain : Z; buckets : Z; chain : Z; symtab : Z; strtab : Z;
  versym : option Z; verneed : option version_table; verdefs : option version_table; t_endian : bool
}.

Definition optional (a : Z) : option Z := if a =? 0 then None else Some a.

(** The words of the hash table are read in the order of the host. *)
Definition setup_hash (hash_addr symtab_addr strtab_addr verdef_addr verneed_addr versym_addr : Z) (match_endian : bool)
    (m : memory) : exec symbol_table :=
  nb ← load 4 hash_addr m; nc ← load 4 (hash_addr + 4) m;
  Ret (MkTable nb nc (hash_addr + 8) (hash_addr + 8 + 4 * nb) symtab_addr strtab_addr (optional versym_addr)
         (MkVersions strtab_addr <$> optional verneed_addr) (MkVersions strtab_addr <$> optional verdef_addr) match_endian).

Definition symbol_at (t : symbol_table) (symndx : Z) : Z := symtab t + 16 * symndx.

(** The matches remembered while a chain is searched. *)
Record matches := MkMatches { last_match : option Z; weak_match : option Z; is_unique_match : bool }.

(** What a symbol's version comes to: accepted, rejected, or kept as the only
    version there may be. *)
Inductive version_check := Accept | Reject | Later.

(** The version asked for: the address of its name, and its hash. *)
Definition check_version (t : symbol_table) (symndx : Z) (version : option (Z * Z)) (m : memory) : exec version_check :=
  match versym t, verdefs t with
  | Some vs, Some defs =>
      verndx ← field (t_endian t) 2 (vs + 2 * symndx) m;
      match version with
      | Some (vername, verhash) =>
          if Z.testbit verndx 15 then Ret Reject
          else
            entry ← verdef_indexed (mem_fuel m) (t_endian t) (v_first defs) (Z.land verndx 0x7fff) m;
            match entry with
            | None => Exit "Run-time dynamic linker: fatal error"
            | Some entry =>
                h ← verdef_hash (t_endian t) entry m;
                if negb (h =? verhash) then Ret Reject
                else name ← verdef_name (t_endian t) defs entry m;
                     same ← strcmp name vername m;
                     Ret (if same : bool then Accept else Reject)
            end
      | None => Ret (if (verndx =? 1) || (verndx =? 2) then Accept else Later)
      end
  | _, _ => Ret Accept
  end.

(** Whether the symbol could be an answer at all: defined, data or code,
    visible, and of that name. *)
Definition candidate_symbol (t : symbol_table) (symndx name : Z) (m : memory) : exec bool :=
  let sym := symbol_at t symndx in
  value ← read_value (t_endian t) sym m;
  section ← (if value =? 0 then Ret SHN_UNDEF else read_section_ndx (t_endian t) sym m);
  if (value =? 0) || (section =? SHN_UNDEF) then Ret false
  else
    info ← read_info sym m;
    if (STT_FUNC <? ST_TYPE info) && negb (ST_TYPE info =? STT_COMMON) then Ret false
    else
      other ← read_other sym m;
      if negb (ST_VISIBILITY other =? STV_DEFAULT) then Ret false
      else ndx ← read_name_ndx (t_endian t) sym m; strcmp (strtab t + ndx) name m.

Definition check_symbol (t : symbol_table) (symndx name : Z) (version : option (Z * Z)) (w : matches) (m : memory) :
    exec (option Z * matches) :=
  let sym := symbol_at t symndx in
  candidate ← candidate_symbol t symndx name m;
  if negb candidate then Ret (None, w)
  else
    let w := match last_match w with Some _ => MkMatches (last_match w) (weak_match w) false | None => w end in
    check ← check_version t symndx version m;
    match check with
    | Reject => Ret (None, w)
    | Later => Ret (None, MkMatches (Some sym) (weak_match w) (is_unique_match w))
    | Accept =>
        info ← read_info sym m;
        if ST_BIND info =? STB_WEAK then Ret (None, MkMatches (last_match w) (Some sym) (is_unique_match w))
        else Ret (Some sym, w)
    end.

(** The loop over a chain. *)
Fixpoint search_chain (fuel : nat) (t : symbol_table) (symndx name : Z) (version : option (Z * Z)) (w : matches) (m : memory) :
    run (option Z * matches) :=
  if symndx =? STN_UNDEF then Some (Ret (None, w))
  else
    match fuel with
    | O => None
    | S fuel =>
        '(found, w) ← lift (check_symbol t symndx name version w m);
        match found with
        | Some sym => Some (Ret (Some sym, w))
        | None => next ← lift (load 4 (chain t + 4 * symndx) m); search_chain fuel t next name version w m
        end
    end.

(** [hash % nbuckets] of zero buckets is a division by zero. *)
Definition lookup_symbol (fuel : nat) (t : symbol_table) (hash name : Z) (version : option (Z * Z)) (m : memory) : run (option Z) :=
  if nbuckets t =? 0 then Some Crash
  else
    first ← lift (load 4 (buckets t + 4 * (hash mod nbuckets t)) m);
    '(found, w) ← search_chain fuel t first name version (MkMatches None None true) m;
    Some (Ret (match found with
               | Some sym => Some sym
               | None => match last_match w with
                         | Some sym => if is_unique_match w then Some sym else weak_match w
                         | None => weak_match w
                         end
               end)).

(** [None] is the NULL of an index out of range. *)
Definition get_symbol (t : symbol_table) (symndx : Z) : option Z :=
  if nchain t <=? symndx then None else Some (symbol_at t symndx).

Definition get_verndx (t : symbol_table) (symndx : Z) (m : memory) : exec Z :=
  if nchain t <=? symndx then Ret 0
  else match versym t with Some vs => field (t_endian t) 2 (vs + 2 * symndx) m | None => Crash end.

Definition get_name (t : symbol_table) (strndx : Z) : Z := strtab t + strndx.

(** ** Relocations *)

Inductive reloc_use := AC_NO_RELOC | AC_USE_REL | AC_USE_RELA.

#[export] Instance reloc_use_eq_dec : EqDecision reloc_use.
Proof. solve_decision. Defined.

Record relocations := MkRelocs { r_addr : Z; r_size : Z; r_use : reloc_use; r_endian : bool }.

Definition no_relocations : relocations := MkRelocs 0 0 AC_NO_RELOC true.

(** A word of entry [ndx]. *)
Definition reloc_word (offset : Z) (r : relocations) (ndx : Z) (m : memory) : exec Z :=
  if r_size r <=? ndx then Ret 0
  else match r_use r with
       | AC_USE_REL => field (r_endian r) 4 (r_addr r + 8 * ndx + offset) m
       | AC_USE_RELA => field (r_endian r) 4 (r_addr r + 12 * ndx + offset) m
       | AC_NO_RELOC => Ret 0
       end.

Definition read_offset : relocations -> Z -> memory -> exec Z := reloc_word 0.
Definition reloc_info : relocations -> Z -> memory -> exec Z := reloc_word 4.
Definition read_addend (r : relocations) (ndx : Z) (m : memory) : exec Z :=
  match r_use r with AC_USE_RELA => reloc_word 8 r ndx m | _ => Ret 0 end.
