(* ===== verification/SymLookupOk.v ===== *)
(** * Looking up a symbol

    [lookup_symbol] against the verdicts of the symbols of a chain, and what it
    finds in a table that is hashed as the ELF ABI says. *)
From S2P Require Import Prelude DynMem DynSym.

(** ** Equal strings *)

Lemma strcmp_loop_true fuel : forall a b m, strcmp_loop fuel a b m = Ret true -> string_loop fuel a m = string_loop fuel b m.
Proof.
  induction fuel as [|fuel IH]; intros a b m H; [discriminate|]. cbn in *.
  apply exec_bind_ret in H as (x & Ex & H). apply exec_bind_ret in H as (y & Ey & H). rewrite Ex, Ey. cbn.
  destruct (Z.eqb_spec x y) as [->|]; [|discriminate]. destruct (y =? 0); [reflexivity|]. rewrite (IH _ _ _ H). reflexivity.
Qed.

Lemma strcmp_true a b m : strcmp a b m = Ret true -> string_at a m = string_at b m.
Proof. apply strcmp_loop_true. Qed.

Lemma strcmp_loop_false fuel : forall a b m, strcmp_loop fuel a b m = Ret false ->
  forall str, string_loop fuel a m = Ret str -> string_loop fuel b m <> Ret str.
Proof.
  induction fuel as [|fuel IH]; intros a b m H; [discriminate|]. cbn in *.
  apply exec_bind_ret in H as (x & Ex & H). apply exec_bind_ret in H as (y & Ey & H). rewrite Ex, Ey. cbn.
  destruct (Z.eqb_spec x y) as [->|Hn].
  - destruct (y =? 0); [discriminate|]. intros str Ha Hb. apply exec_bind_ret in Ha as (u & Ha & Eu), Hb as (w & Hb & Ew).
    injection Eu as <-. injection Ew as ->. exact (IH _ _ _ H _ Ha Hb).
  - intros str. destruct (Z.eqb_spec x 0) as [->|], (Z.eqb_spec y 0) as [->|]; try congruence; intros Ha Hb.
    + injection Ha as <-. apply exec_bind_ret in Hb as (w & _ & Ew). discriminate.
    + injection Hb as <-. apply exec_bind_ret in Ha as (w & _ & Ew). discriminate.
    + apply exec_bind_ret in Ha as (u & _ & Eu), Hb as (w & _ & Ew). injection Eu as <-. injection Ew as E. congruence.
Qed.

Lemma strcmp_false a b m str : strcmp a b m = Ret false -> string_at a m = Ret str -> string_at b m <> Ret str.
Proof. intros H. apply (strcmp_loop_false _ _ _ _ H). Qed.

(** [strcmp] finds two strings equal, so both are there. *)
Lemma strcmp_loop_Ret fuel : forall a b m, strcmp_loop fuel a b m = Ret true -> exists str, string_loop fuel a m = Ret str.
Proof.
  induction fuel as [|fuel IH]; intros a b m H; [discriminate|]. cbn in *.
  apply exec_bind_ret in H as (x & Ex & H). apply exec_bind_ret in H as (y & Ey & H). rewrite Ex. cbn.
  destruct (Z.eqb_spec x y) as [->|]; [|discriminate]. destruct (y =? 0); [eexists; reflexivity|].
  destruct (IH _ _ _ H) as [str E]. rewrite E. eexists. reflexivity.
Qed.

(** ** What the ELF ABI says of a symbol *)

(** The entry of symbol [s] of the table: the value at 4, the section at 14, the
    type in the low half of the byte at 12, the visibility in the low bits of the
    byte at 13, the index of the name at 0.  A definition in a section, of data
    or code or common, with the default visibility, named [str]. *)
Definition visible_definition (t : symbol_table) (m : memory) (s : Z) (str : list Z) : Prop :=
  exists value section info other ndx,
    field (t_endian t) 4 (symbol_at t s + 4) m = Ret value /\ value <> 0 /\
    field (t_endian t) 2 (symbol_at t s + 14) m = Ret section /\ section <> 0 /\
    load 1 (symbol_at t s + 12) m = Ret info /\ (info mod 16 <= 2 \/ info mod 16 = 5) /\
    load 1 (symbol_at t s + 13) m = Ret other /\ other mod 4 = 0 /\
    field (t_endian t) 4 (symbol_at t s) m = Ret ndx /\ string_at (strtab t + ndx) m = Ret str.

Definition weak_symbol (t : symbol_table) (m : memory) (s : Z) : Prop :=
  exists info, load 1 (symbol_at t s + 12) m = Ret info /\ info / 16 = 2.

(** The version of the symbol is acceptable: the table has no versions, or
    the one asked for is the definition that the symbol's index, not marked
    hidden, leads to, by hash and name; where none is asked for, it is the base
    version. *)
Definition version_ok (t : symbol_table) (m : memory) (s : Z) (version : option (Z * Z)) : Prop :=
  match versym t, verdefs t with
  | Some vs, Some defs => exists k, field (t_endian t) 2 (vs + 2 * s) m = Ret k /\
      match version with
      | None => k = 1 \/ k = 2
      | Some (vername, verhash) => Z.testbit k 15 = false /\ exists entry aux str,
          verdef_indexed (mem_fuel m) (t_endian t) (v_first defs) (Z.land k 0x7fff) m = Ret (Some entry) /\
          field (t_endian t) 4 (entry + 8) m = Ret verhash /\ verdef_name (t_endian t) defs entry m = Ret aux /\
          string_at aux m = Ret str /\ string_at vername m = Ret str
      end
  | _, _ => True
  end.

(** None is asked for, and the symbol has one that is not the base version. *)
Definition other_version (t : symbol_table) (m : memory) (s : Z) (version : option (Z * Z)) : Prop :=
  version = None /\ exists vs defs k, versym t = Some vs /\ verdefs t = Some defs /\
    field (t_endian t) 2 (vs + 2 * s) m = Ret k /\ k <> 1 /\ k <> 2.

(** ** The verdict on a symbol *)

Inductive verdict := Other | Rejected | Fallback | Weak | Strong.

#[export] Instance verdict_eq_dec : EqDecision verdict.
Proof. solve_decision. Defined.

Definition judge (t : symbol_table) (name : Z) (version : option (Z * Z)) (m : memory) (s : Z) : exec verdict :=
  candidate ← candidate_symbol t s name m;
  if negb candidate then Ret Other
  else
    check ← check_version t s version m;
    match check with
    | Reject => Ret Rejected
    | Later => Ret Fallback
    | Accept => info ← read_info (symbol_at t s) m; Ret (if ST_BIND info =? STB_WEAK then Weak else Strong)
    end.

(** What each verdict means. *)
Definition verdict_means (t : symbol_table) (m : memory) (s : Z) (str : list Z) (version : option (Z * Z)) (v : verdict) : Prop :=
  match v with
  | Other => ~ visible_definition t m s str
  | Rejected => visible_definition t m s str /\ ~ version_ok t m s version /\ ~ other_version t m s version
  | Fallback => visible_definition t m s str /\ other_version t m s version
  | Weak => visible_definition t m s str /\ version_ok t m s version /\ weak_symbol t m s
  | Strong => visible_definition t m s str /\ version_ok t m s version /\ ~ weak_symbol t m s
  end.

Lemma candidate_visible t m s name str c : string_at name m = Ret str -> candidate_symbol t s name m = Ret c ->
  c = true <-> visible_definition t m s str.
Proof.
  intros Hs H. unfold candidate_symbol in H. apply exec_bind_ret in H as (value & Ev & H). unfold visible_definition.
  unfold read_value in Ev. rewrite Ev. destruct (Z.eqb_spec value 0) as [->|Hv].
  { injection H as <-. split; [discriminate|]. intros (? & ? & ? & ? & ? & [= <-] & ? & _). congruence. }
  apply exec_bind_ret in H as (section & Es & H). unfold read_section_ndx in Es. rewrite Es. cbn [orb] in H. unfold SHN_UNDEF in H.
  destruct (Z.eqb_spec section 0) as [->|Hsec].
  { injection H as <-. split; [discriminate|]. intros (? & ? & ? & ? & ? & _ & _ & [= <-] & ? & _). congruence. }
  apply exec_bind_ret in H as (info & Ei & H). unfold read_info in Ei. rewrite Ei. unfold ST_TYPE, STT_FUNC, STT_COMMON in H.
  change 0xf with (Z.ones 4) in H. rewrite Z.land_ones in H by lia. change (2 ^ 4) with 16 in H.
  destruct ((2 <? info mod 16) && negb (info mod 16 =? 5)) eqn:Et.
  { injection H as <-. split; [discriminate|]. intros (? & ? & ? & ? & ? & _ & _ & _ & _ & [= <-] & Ht & _). lia. }
  apply exec_bind_ret in H as (other & Eo & H). unfold read_other in Eo. rewrite Eo. unfold ST_VISIBILITY, STV_DEFAULT in H.
  change 3 with (Z.ones 2) in H. rewrite Z.land_ones in H by lia. change (2 ^ 2) with 4 in H.
  destruct (Z.eqb_spec (other mod 4) 0) as [Hd|Hd]; cbn [negb] in H.
  2: { injection H as <-. split; [discriminate|]. intros (? & ? & ? & ? & ? & _ & _ & _ & _ & _ & _ & [= <-] & ? & _). congruence. }
  apply exec_bind_ret in H as (ndx & En & H). unfold read_name_ndx in En. rewrite En. destruct c.
  - split; [|reflexivity]. intros _. exists value, section, info, other, ndx. repeat (split; [first [reflexivity|assumption|lia]|]).
    rewrite (strcmp_true _ _ _ H). exact Hs.
  - split; [discriminate|]. intros (? & ? & ? & ? & ? & _ & _ & _ & _ & _ & _ & _ & _ & [= <-] & Hstr).
    destruct (strcmp_false _ _ _ _ H Hstr Hs).
Qed.

Lemma version_means t m s version k : check_version t s version m = Ret k ->
  match k with
  | Accept => version_ok t m s version
  | Reject => ~ version_ok t m s version /\ ~ other_version t m s version
  | Later => other_version t m s version
  end.
Proof.
  unfold check_version, version_ok, other_version. destruct (versym t) as [vs|]; [|intros [= <-]; exact I].
  destruct (verdefs t) as [defs|]; [|intros [= <-]; exact I]. intros H. apply exec_bind_ret in H as (n & En & H).
  destruct version as [[vername verhash]|].
  - assert (Ho : ~ (Some (vername, verhash) = None /\ exists vs0 defs0 k0, Some vs = Some vs0 /\ Some defs = Some defs0 /\
      field (t_endian t) 2 (vs0 + 2 * s) m = Ret k0 /\ k0 <> 1 /\ k0 <> 2)) by (intros [E _]; discriminate).
    rewrite En. destruct (Z.testbit n 15) eqn:Eb.
    { injection H as <-. split; [|exact Ho]. intros (? & [= <-] & E & _). congruence. }
    apply exec_bind_ret in H as ([entry|] & Ee & H); [|discriminate]. apply exec_bind_ret in H as (h & Eh & H). unfold verdef_hash in Eh.
    destruct (Z.eqb_spec h verhash) as [->|Hh]; cbn [negb] in H.
    2: { injection H as <-. split; [|exact Ho]. intros (? & [= <-] & _ & e & aux & str & He & Hx & _).
         rewrite Ee in He. injection He as <-. congruence. }
    apply exec_bind_ret in H as (aux & Ea & H). apply exec_bind_ret in H as (same & Es & H). injection H as <-. destruct same.
    + destruct (strcmp_loop_Ret _ _ _ _ Es) as [str Hstr]. exists n. split; [reflexivity|]. split; [exact Eb|].
      exists entry, aux, str. repeat (split; [assumption|]). rewrite <- (strcmp_true _ _ _ Es). exact Hstr.
    + split; [|exact Ho]. intros (? & [= <-] & _ & e & aux' & str & He & _ & Ha & H1 & H2).
      rewrite Ee in He. injection He as <-. rewrite Ea in Ha. injection Ha as <-. exact (strcmp_false _ _ _ _ Es H1 H2).
  - rewrite En. destruct (Z.eqb_spec n 1), (Z.eqb_spec n 2); injection H as <-; try (exists n; auto).
    split; [reflexivity|]. exists vs, defs, n. auto.
Qed.

(** The verdict of the code has its meaning. *)
Lemma judge_means t m s name str version v : string_at name m = Ret str -> judge t name version m s = Ret v ->
  verdict_means t m s str version v.
Proof.
  intros Hs H. unfold judge in H. apply exec_bind_ret in H as (c & Hc & H). apply (candidate_visible _ _ _ _ str) in Hc; [|exact Hs].
  destruct c; cbn [negb] in H; [|injection H as <-; cbn; rewrite <- Hc; discriminate].
  apply proj1 in Hc. specialize (Hc eq_refl). apply exec_bind_ret in H as (k & Hk & H). apply version_means in Hk.
  destruct k; [|injection H as <-; split; assumption..].
  apply exec_bind_ret in H as (info & Ei & H). unfold read_info in Ei. injection H as <-. unfold ST_BIND, STB_WEAK.
  rewrite Z.shiftr_div_pow2 by lia. change (2 ^ 4) with 16.
  destruct (Z.eqb_spec (info / 16) 2) as [E|E]; (split; [exact Hc|]); (split; [exact Hk|]).
  - exists info. auto.
  - intros (i & Hi & E'). rewrite Ei in Hi. injection Hi as <-. contradiction.
Qed.

(** ** The choice among judged symbols *)

Definition named (l : list (Z * verdict)) : list (Z * verdict) := List.filter (fun p => negb (bool_decide (p.2 = Other))) l.

Definition first_strong (l : list (Z * verdict)) : option Z := fst <$> list_first (fun p => bool_decide (p.2 = Strong)) l.
Definition last_with (v : verdict) (l : list (Z * verdict)) : option Z :=
  fst <$> list_first (fun p => bool_decide (p.2 = v)) (rev l).

(** The only version there is: the last symbol of that name, when no earlier
    one was kept. *)
Definition only_fallback (l : list (Z * verdict)) : option Z :=
  match rev (named l) with
  | (s, Fallback) :: before => if existsb (fun p => bool_decide (p.2 = Fallback)) before then None else Some s
  | _ => None
  end.

Definition chosen (l : list (Z * verdict)) : option Z :=
  match first_strong l with
  | Some s => Some s
  | None => match only_fallback l with Some s => Some s | None => last_with Weak l end
  end.

(** ** The chain *)

Inductive chain_from (t : symbol_table) (m : memory) : Z -> list Z -> Prop :=
  | chain_end : chain_from t m STN_UNDEF []
  | chain_next s next l : s <> STN_UNDEF -> load 4 (chain t + 4 * s) m = Ret next -> chain_from t m next l -> chain_from t m s (s :: l).

Section search.
Context (t : symbol_table) (name : Z) (version : option (Z * Z)) (m : memory) (v : Z -> verdict).

Definition judged (l : list Z) : list (Z * verdict) := map (fun s => (symbol_at t s, v s)) l.

Lemma check_symbol_judged s w : judge t name version m s = Ret (v s) ->
  check_symbol t s name version w m =
  Ret (match v s with
       | Other => (None, w)
       | _ =>
           let w := match last_match w with Some _ => MkMatches (last_match w) (weak_match w) false | None => w end in
           match v s with
           | Fallback => (None, MkMatches (Some (symbol_at t s)) (weak_match w) (is_unique_match w))
           | Weak => (None, MkMatches (last_match w) (Some (symbol_at t s)) (is_unique_match w))
           | Strong => (Some (symbol_at t s), w)
           | _ => (None, w)
           end
       end).
Proof.
  unfold judge, check_symbol. intros H. apply exec_bind_ret in H as (c & -> & H). cbn [mbind exec_bind].
  destruct c; cbn [negb] in *; [|injection H as <-; reflexivity].
  apply exec_bind_ret in H as (k & -> & H). cbn [mbind exec_bind].
  destruct k; [|injection H as <-; reflexivity..].
  apply exec_bind_ret in H as (i & -> & H). cbn [mbind exec_bind]. injection H as <-.
  destruct (ST_BIND i =? STB_WEAK); reflexivity.
Qed.

(** The matches after the symbols [l], none of them strong. *)
Definition matches_of (l : list Z) : matches :=
  MkMatches (last_with Fallback (judged l)) (last_with Weak (judged l))
    (match last_with Fallback (judged l) with None => true | Some _ => bool_decide (is_Some (only_fallback (judged l))) end).

Lemma judged_app l l' : judged (l ++ l') = judged l ++ judged l'.
Proof. apply map_app. Qed.

Lemma last_with_snoc w l s x : last_with w (l ++ [(s, x)]) = if bool_decide (x = w) then Some s else last_with w l.
Proof. unfold last_with. rewrite rev_app_distr. cbn. destruct (bool_decide (x = w)); reflexivity. Qed.

Lemma only_fallback_snoc l s x : only_fallback (l ++ [(s, x)]) =
  match x with
  | Other => only_fallback l
  | Fallback => match last_with Fallback l with None => Some s | Some _ => None end
  | _ => None
  end.
Proof.
  unfold only_fallback, named. rewrite List.filter_app. cbn [List.filter snd]. destruct x; cbn [negb bool_decide]; 
    repeat (rewrite bool_decide_eq_false_2 by discriminate || rewrite bool_decide_eq_true_2 by reflexivity); cbn [negb];
    rewrite ?app_nil_r, ?rev_app_distr; try reflexivity. cbn [rev app].
  assert (E : existsb (fun p : Z * verdict => bool_decide (p.2 = Fallback)) (rev (List.filter (fun p : Z * verdict => negb (bool_decide (p.2 = Other))) l)) =
              match last_with Fallback l with None => false | Some _ => true end).
  { induction l as [|[s' x'] l IH] using rev_ind; [reflexivity|]. rewrite last_with_snoc, List.filter_app, rev_app_distr, existsb_app, IH.
    cbn [List.filter snd]. destruct x'; cbn; try (destruct (last_with Fallback l); reflexivity). }
  rewrite E. destruct (last_with Fallback l); reflexivity.
Qed.

Lemma matches_snoc l s : v s <> Strong ->
  matches_of (l ++ [s]) =
  match v s with
  | Other => matches_of l
  | x =>
      let w := matches_of l in
      let w := match last_match w with Some _ => MkMatches (last_match w) (weak_match w) false | None => w end in
      match x with
      | Fallback => MkMatches (Some (symbol_at t s)) (weak_match w) (is_unique_match w)
      | Weak => MkMatches (last_match w) (Some (symbol_at t s)) (is_unique_match w)
      | _ => w
      end
  end.
Proof.
  intros Hs. unfold matches_of. rewrite judged_app. cbn [judged map]. rewrite !last_with_snoc, only_fallback_snoc.
  destruct (v s); try congruence; cbn; destruct (last_with Fallback (judged l)); reflexivity.
Qed.
Lemma first_strong_cons s l : first_strong (judged (s :: l)) = if bool_decide (v s = Strong) then Some (symbol_at t s) else first_strong (judged l).
Proof. unfold first_strong. cbn. destruct (bool_decide (v s = Strong)); reflexivity. Qed.

Lemma search_chain_judged s l : chain_from t m s l -> (forall x, In x l -> judge t name version m x = Ret (v x)) ->
  forall fuel before, (length l <= fuel)%nat ->
  exists w, search_chain fuel t s name version (matches_of before) m = Some (Ret (first_strong (judged l), w)) /\
    (first_strong (judged l) = None -> w = matches_of (before ++ l)).
Proof.
  intros Hc. induction Hc as [|s next l Hs Hload Hc IH]; intros Hj fuel before Hf.
  - exists (matches_of before). rewrite app_nil_r. split; [destruct fuel; reflexivity|reflexivity].
  - destruct fuel as [|fuel]; [cbn in Hf; lia|]. cbn [search_chain]. destruct (Z.eqb_spec s STN_UNDEF) as [|_]; [contradiction|].
    rewrite (check_symbol_judged s _ (Hj s (or_introl eq_refl))), first_strong_cons.
    destruct (decide (v s = Strong)) as [Ev|Ev].
    + rewrite Ev. rewrite bool_decide_eq_true_2 by reflexivity. eexists. split; [reflexivity|discriminate].
    + rewrite bool_decide_eq_false_2 by exact Ev.
      destruct (IH (fun x Hx => Hj x (or_intror Hx)) fuel (before ++ [s]) ltac:(cbn in Hf; lia)) as (w & E & Hw).
      exists w. rewrite <- app_assoc in Hw. split; [|exact Hw]. rewrite (matches_snoc before s Ev) in E. rewrite <- E.
      destruct (v s); try congruence; cbn [lift mbind run_bind]; rewrite Hload; reflexivity.
Qed.

Lemma only_fallback_last l x : only_fallback l = Some x -> last_with Fallback l = Some x.
Proof.
  induction l as [|[s y] l IH] using rev_ind; [discriminate|]. rewrite only_fallback_snoc, last_with_snoc. destruct y; cbn; try discriminate; auto.
  destruct (last_with Fallback l); [discriminate|auto].
Qed.

Lemma lookup_judged hash first l fuel : nbuckets t <> 0 ->
  load 4 (buckets t + 4 * (hash mod nbuckets t)) m = Ret first -> chain_from t m first l ->
  (forall x, In x l -> judge t name version m x = Ret (v x)) -> (length l <= fuel)%nat ->
  lookup_symbol fuel t hash name version m = Some (Ret (chosen (judged l))).
Proof.
  intros Hb Hfirst Hc Hj Hf. unfold lookup_symbol. destruct (Z.eqb_spec (nbuckets t) 0) as [|_]; [contradiction|].
  rewrite Hfirst. cbn [lift mbind run_bind].
  destruct (search_chain_judged first l Hc Hj fuel [] Hf) as (w & E & Hw).
  change (matches_of []) with (MkMatches None None true) in E. rewrite E. unfold chosen. cbn [mbind run_bind].
  destruct (first_strong (judged l)) as [x|]; [reflexivity|]. rewrite (Hw eq_refl). unfold matches_of. cbn [last_match weak_match is_unique_match app].
  pose proof (only_fallback_last (judged l)) as Ho.
  destruct (only_fallback (judged l)) as [x|]; [rewrite (Ho x eq_refl); reflexivity|].
  destruct (last_with Fallback (judged l)); reflexivity.
Qed.
End search.

(** ** Tables hashed as the ABI says *)

Definition table_index (t : symbol_table) (s : Z) : Prop := 0 < s < nchain t.

(** The string that names symbol [s]. *)
Definition symbol_name (t : symbol_table) (s : Z) (m : memory) : exec (list Z) :=
  ndx ← read_name_ndx (t_endian t) (symbol_at t s) m; string_at (strtab t + ndx) m.

(** Each bucket has a chain of symbols of the table, and the symbols are on the
    chain of the bucket of their names. *)
Record hashed (t : symbol_table) (m : memory) (chains : Z -> list Z) : Prop := {
  hs_buckets : 0 < nbuckets t;
  hs_chain : forall b, 0 <= b < nbuckets t -> exists first,
    load 4 (buckets t + 4 * b) m = Ret first /\ chain_from t m first (chains b) /\ NoDup (chains b) /\
    forall s, In s (chains b) -> table_index t s;
  hs_named : forall s str, table_index t s -> symbol_name t s m = Ret str -> In s (chains (abi_hash str mod nbuckets t))
}.

Lemma chain_length t m chains b : hashed t m chains -> 0 <= b < nbuckets t -> (length (chains b) <= Z.to_nat (nchain t))%nat.
Proof.
  intros H Hb. destruct (hs_chain _ _ _ H b Hb) as (first & _ & _ & Hn & Hi).
  assert (Hl : (length (chains b) <= length (seqZ 1 (nchain t - 1)))%nat).
  { apply NoDup_incl_length; [apply NoDup_ListNoDup; exact Hn|]. intros s Hs. specialize (Hi s Hs). unfold table_index in Hi.
    apply list_elem_of_In, elem_of_seqZ. lia. }
  rewrite length_seqZ in Hl. lia.
Qed.

Lemma judge_candidate t name version m s v : judge t name version m s = Ret v -> v <> Other <-> candidate_symbol t s name m = Ret true.
Proof.
  unfold judge. intros H. apply exec_bind_ret in H as (c & -> & H). destruct c; cbn in H.
  - split; [reflexivity|]. intros _. apply exec_bind_ret in H as (k & _ & H). destruct k; try (injection H as <-; discriminate).
    apply exec_bind_ret in H as (i & _ & H). injection H as <-. destruct (_ =? _); discriminate.
  - injection H as <-. split; [congruence|discriminate].
Qed.

Lemma candidate_name t s name m str : candidate_symbol t s name m = Ret true -> string_at name m = Ret str -> symbol_name t s m = Ret str.
Proof.
  unfold candidate_symbol, symbol_name. intros H Hs.
  apply exec_bind_ret in H as (value & _ & H). apply exec_bind_ret in H as (section & _ & H).
  destruct ((value =? 0) || (section =? SHN_UNDEF)); [discriminate|]. apply exec_bind_ret in H as (i & _ & H).
  destruct ((STT_FUNC <? ST_TYPE i) && _); [discriminate|]. apply exec_bind_ret in H as (o & _ & H).
  destruct (negb _); [discriminate|]. apply exec_bind_ret in H as (ndx & -> & H). cbn. rewrite <- Hs; apply (strcmp_true _ _ _ H).
Qed.

Lemma chosen_from l x : chosen l = Some x -> exists v, In (x, v) l /\ v <> Other.
Proof.
  unfold chosen. intros H. destruct (first_strong l) as [y|] eqn:E.
  - injection H as ->. unfold first_strong in E. apply fmap_Some in E as ([z v] & E & ->). apply list_first_Some in E as [E Ev].
    apply bool_decide_eq_true in Ev. exists v. split; [apply list_elem_of_In; exact E|cbn in Ev; congruence].
  - assert (Hw : exists w, w <> Other /\ last_with w l = Some x).
    { destruct (only_fallback l) as [y|] eqn:Eo; [injection H as ->|exists Weak; split; [discriminate|exact H]].
      exists Fallback. split; [discriminate|apply only_fallback_last; exact Eo]. }
    destruct Hw as (w & Hw & Hx). unfold last_with in Hx. apply fmap_Some in Hx as ([z v] & Hx & ->).
    apply list_first_Some in Hx as [Hx Ev]. apply bool_decide_eq_true in Ev. apply list_elem_of_In, in_rev in Hx.
    exists v. split; [exact Hx|cbn in Ev; congruence].
Qed.

Lemma chosen_strong l x : In (x, Strong) l -> exists y, chosen l = Some y /\ In (y, Strong) l.
Proof.
  intros H. unfold chosen, first_strong. destruct (list_first (fun p => bool_decide (p.2 = Strong)) l) as [[y v]|] eqn:E.
  - apply list_first_Some in E as [E Ev]. apply bool_decide_eq_true in Ev. cbn in *. subst v. exists y.
    split; [reflexivity|apply list_elem_of_In; exact E].
  - rewrite list_first_None in E. apply list_elem_of_In in H. specialize (E _ H). cbn in E. discriminate.
Qed.

(** C28. In a table hashed as the ELF ABI says, where the check of no symbol leaves
    the memory, the lookup of a name by its hash ends within as many steps as there
    are symbols.  Each symbol is judged by its entry: whether it is a visible
    definition of that name, of an acceptable version, weak or not.  The lookup
    gives the first strong one of the chain; without one, the last symbol of that
    name, if it has a version other than the base and no earlier one had (even
    after a weak definition of the base version, though the comment speaks of the
    only version there is); otherwise the last weak one.  What it finds is a
    visible definition of that name; it finds a strong one of an acceptable
    version whenever there is one, and nothing when there is no visible
    definition of that name. *)
Theorem lookup_symbol_exact t m chains name str version v : hashed t m chains -> string_at name m = Ret str ->
  (forall s, table_index t s -> judge t name version m s = Ret (v s)) ->
  exists r, lookup_symbol (Z.to_nat (nchain t)) t (elf_hash str) name version m = Some (Ret r) /\
    r = chosen (judged t v (chains (elf_hash str mod nbuckets t))) /\
    (forall s, table_index t s -> verdict_means t m s str version (v s)) /\
    (forall x, r = Some x -> exists s, x = symbol_at t s /\ table_index t s /\ visible_definition t m s str) /\
    ((exists s, table_index t s /\ visible_definition t m s str /\ version_ok t m s version /\ ~ weak_symbol t m s) ->
     exists s, r = Some (symbol_at t s) /\ table_index t s /\
       visible_definition t m s str /\ version_ok t m s version /\ ~ weak_symbol t m s) /\
    ((forall s, table_index t s -> ~ visible_definition t m s str) -> r = None).
Proof.
  intros Hh Hstr Hj. pose proof (hs_buckets _ _ _ Hh) as Hnb. set (b := elf_hash str mod nbuckets t).
  assert (Hb : 0 <= b < nbuckets t) by (apply Z.mod_pos_bound; exact Hnb).
  destruct (hs_chain _ _ _ Hh b Hb) as (first & Hf & Hc & _ & Hi). exists (chosen (judged t v (chains b))).
  assert (Hmeans : forall s, table_index t s -> verdict_means t m s str version (v s)).
  { intros s Hs. apply (judge_means _ _ _ _ _ _ _ Hstr (Hj s Hs)). }
  assert (Hin : forall x w, In (x, w) (judged t v (chains b)) -> exists s, x = symbol_at t s /\ w = v s /\ table_index t s).
  { intros x w H. unfold judged in H. apply in_map_iff in H as (s & [= <- <-] & Hs). exists s. auto. }
  assert (Hcand : forall x, chosen (judged t v (chains b)) = Some x ->
    exists s, x = symbol_at t s /\ table_index t s /\ visible_definition t m s str).
  { intros x Hx. apply chosen_from in Hx as (w & Hx & Hw). apply Hin in Hx as (s & -> & -> & Hs). exists s. split; [reflexivity|].
    split; [exact Hs|]. specialize (Hmeans s Hs). destruct (v s); [congruence|apply Hmeans..]. }
  split; [|split; [reflexivity|split; [exact Hmeans|split; [exact Hcand|split]]]].
  - apply (lookup_judged t name version m v _ first); try assumption; [lia|intros s Hs; apply Hj, Hi, Hs|].
    apply (chain_length t m chains b Hh Hb).
  - intros (s & Hs & Hvis & Hok & Hw). assert (Hv : v s = Strong).
    { specialize (Hmeans s Hs). destruct (v s); cbn in Hmeans; try tauto. destruct Hmeans as [_ [-> (vs & defs & k & E1 & E2 & Ek & H1 & H2)]].
      unfold version_ok in Hok. rewrite E1, E2 in Hok. destruct Hok as (k' & Ek' & Hk). rewrite Ek in Ek'. injection Ek' as <-. tauto. }
    assert (Hc' : candidate_symbol t s name m = Ret true).
    { apply (judge_candidate _ _ _ _ _ _ (Hj s Hs)). rewrite Hv. discriminate. }
    pose proof (hs_named _ _ _ Hh s str Hs (candidate_name _ _ _ _ _ Hc' Hstr)) as Hn.
    rewrite <- (proj1 (elf_hash_abi str)) in Hn. fold b in Hn.
    destruct (chosen_strong (judged t v (chains b)) (symbol_at t s)) as (y & -> & Hy).
    { unfold judged. apply in_map_iff. exists s. rewrite Hv. auto. }
    apply Hin in Hy as (s' & -> & Hv' & Hs'). exists s'. split; [reflexivity|]. split; [exact Hs'|].
    specialize (Hmeans s' Hs'). rewrite <- Hv' in Hmeans. exact Hmeans.
  - intros Hnone. destruct (chosen _) as [x|] eqn:E; [|reflexivity]. exfalso.
    destruct (Hcand x eq_refl) as (s & _ & Hs & Hc'). exact (Hnone s Hs Hc').
Qed.

(** A version that is not the base one is taken although a weak definition of the
    base version comes first. *)
Example chosen_after_weak : chosen [(16, Weak); (32, Fallback)] = Some 32.
Proof. reflexivity. Qed.

(** ** A table with two symbols, "ab" and the weak "ac" *)

Definition sample_symbols : memory :=
  put 4 8 1 (put 4 12 2
    (put 4 0x30 1 (put 4 0x34 0x100 (put 1 0x3c 0x12 (put 2 0x3e 1
    (put 4 0x40 4 (put 4 0x44 0x200 (put 1 0x4c 0x22 (put 2 0x4e 1
    (put 4 0x60 0x00626100 (put 4 0x64 0x00006361 (put 4 0x70 0x00006261 (MkMemory (fun _ => 0) 0x80))))))))))))).

Definition sample_table : symbol_table := MkTable 2 3 8 16 0x20 0x60 None None None true.

Definition sample_chains (b : Z) : list Z := if b =? 0 then [1] else [2].

Lemma sample_hashed : hashed sample_table sample_symbols sample_chains.
Proof.
  split; [reflexivity| |].
  - intros b Hb. cbn in Hb. assert (b = 0 \/ b = 1) as [-> | ->] by lia; [exists 1|exists 2]; (split; [vm_compute; reflexivity|]);
      (split; [apply (chain_next _ _ _ 0); [discriminate|vm_compute; reflexivity|constructor]|]);
      (split; [apply NoDup_singleton|]); intros s [<-|[]]; split; vm_compute; reflexivity.
  - intros s str Hs Hn. unfold table_index in Hs. cbn in Hs. assert (s = 1 \/ s = 2) as [-> | ->] by lia;
      vm_compute in Hn; injection Hn as <-; left; vm_compute; reflexivity.
Qed.

Lemma sample_ab : visible_definition sample_table sample_symbols 1 [97; 98].
Proof.
  exists 0x100, 1, 0x12, 0, 1. repeat (split; [vm_compute; (reflexivity || discriminate || (left; discriminate))|]). vm_compute. reflexivity.
Qed.

Lemma lookup_symbol_exact_witness :
  exists s, lookup_symbol 3 sample_table (elf_hash [97; 98]) 0x70 None sample_symbols = Some (Ret (Some (symbol_at sample_table s))) /\
    visible_definition sample_table sample_symbols s [97; 98].
Proof.
  destruct (lookup_symbol_exact sample_table sample_symbols sample_chains 0x70 [97; 98] None (fun s => if s =? 1 then Strong else Other)
    sample_hashed) as (r & E & _ & _ & _ & Hs & _).
  - vm_compute. reflexivity.
  - intros s Hs. unfold table_index in Hs. cbn in Hs. assert (s = 1 \/ s = 2) as [-> | ->] by lia; vm_compute; reflexivity.
  - destruct Hs as (s & -> & _ & Hv & _).
    + exists 1. split; [split; reflexivity|]. split; [exact sample_ab|]. split; [exact I|].
      intros (i & Hi & Hw). vm_compute in Hi. injection Hi as <-. discriminate.
    + exists s. split; [exact E|exact Hv].
Defined.
