(* ===== verification/RelMap.v ===== *)
(** * The relocation map of the run-time linker

    [archc/src/aclib/ac_rtld/ac_rtld_config.cpp]: the file [ac_rtld.relmap]
    translates the relocation codes of a target to those of the linker.  A file
    is the list of its bytes and a NUL character stands for its end, as
    [request_read] stores one there.  Writing behind [buffer[19]] is a [Crash].
    The search along [AC_LIBRARY_PATH] is shared with [find_library] of
    [dynamic_info.cpp]; the sizes of the path buffers are not modelled. *)
From S2P Require Import Prelude DynMem.

Definition NUL : Z := 0.
Definition TAB : Z := 9.
Definition NEWLINE : Z := 10.
Definition SPACE : Z := 32.
Definition HASH_SIGN : Z := 35.
Definition SLASH : Z := 47.
Definition COLON : Z := 58.
Definition EQUALS : Z := 61.

Definition is_digit (c : Z) : bool := (48 <=? c) && (c <=? 57).
Definition is_blank (c : Z) : bool := (c =? SPACE) || (c =? TAB).
Definition ends_line (c : Z) : bool := (c =? NEWLINE) || (c =? NUL).

(** ** The file *)

Definition request_read (s : list Z) : Z * list Z := match s with [] => (NUL, []) | c :: s => (c, s) end.

(** The character that ends the line of a comment, and what follows. *)
Fixpoint skip_comment (c : Z) (s : list Z) : Z * list Z :=
  if ends_line c then (c, s) else match s with [] => (NUL, []) | c :: s => skip_comment c s end.

Fixpoint skip_blanks (c : Z) (s : list Z) : Z * list Z :=
  if is_blank c then match s with [] => (NUL, []) | c :: s => skip_blanks c s end else (c, s).

(** The digits stored from [buffer[i]] on, the character behind them and what
    follows. *)
Fixpoint read_digits (i c : Z) (s : list Z) : exec (list Z * Z * list Z) :=
  if is_digit c then
    if 20 <=? i + 1 then Crash
    else match s with
         | [] => Ret ([c], NUL, [])
         | c' :: s => '(ds, e, s) ← read_digits (i + 1) c' s; Ret (c :: ds, e, s)
         end
  else Ret ([], c, s).

(** [strtol] of a string of digits stops behind the last one. *)
Definition decimal (ds : list Z) : Z := fold_left (fun n c => 10 * n + (c - 48)) ds 0.
Definition strtol (ds : list Z) : Z := Z.min (decimal ds) (2 ^ 63 - 1).

Definition parse_number (c : Z) (s : list Z) : exec (option (Z * Z * list Z)) :=
  if is_digit c then '(ds, e, s) ← read_digits 0 c s; Ret (Some (u32 (strtol ds), e, s)) else Ret None.

(** What is left of the line behind the first number. *)
Definition parse_definition (c : Z) (s : list Z) : exec (option (Z * Z * list Z)) :=
  if ends_line c then Ret None
  else
    let '(c, s) := skip_blanks c s in
    if negb (c =? EQUALS) then Ret None
    else
      let '(c, s) := request_read s in
      let '(c, s) := skip_blanks c s in
      if ends_line c then Ret None
      else
        num2 ← parse_number c s;
        match num2 with
        | None => Ret None
        | Some (num2, c, s) => Ret (if ends_line c then Some (num2, c, s) else None)
        end.

Definition parse_statement (c : Z) (s : list Z) : exec (option (Z * Z * Z * list Z)) :=
  num1 ← parse_number c s;
  match num1 with
  | None => Ret None
  | Some (num1, c, s) =>
      num2 ← parse_definition c s;
      Ret (match num2 with None => None | Some (num2, c, s) => Some (num1, num2, c, s) end)
  end.

(** ** The hash table *)

Definition hash_table : Type := list (list (Z * Z)).

Definition HASHTABLE_SIZE : Z := 20.

Definition hash_initialize : hash_table := replicate (Z.to_nat HASHTABLE_SIZE) [].

Definition bucket (index : Z) : nat := Z.to_nat (index mod HASHTABLE_SIZE).

Definition hash_add_value (t : hash_table) (index value : Z) : hash_table :=
  alter (cons (index, value)) (bucket index) t.

Fixpoint find_index (index : Z) (l : list (Z * Z)) : option Z :=
  match l with [] => None | (i, v) :: l => if i =? index then Some v else find_index index l end.

Definition hash_get_value (t : hash_table) (index : Z) : option Z :=
  l ← t !! bucket index; find_index index l.

(** ** The map *)

(** The lines of a map; [add] enters a definition.  [None] inside is the ERROR of
    a line that is not understood. *)
Fixpoint map_lines (add : hash_table -> Z -> Z -> hash_table) (fuel : nat) (s : list Z) (t : hash_table) : run (option hash_table) :=
  match fuel with
  | O => None
  | S fuel =>
      let next c s t := if c =? NUL then Some (Ret (Some t)) else map_lines add fuel s t in
      let '(c, s) := request_read s in
      if c =? HASH_SIGN then let '(c, s) := skip_comment c s in next c s t
      else
        let '(c, s) := skip_blanks c s in
        if ends_line c then next c s t
        else
          match parse_statement c s with
          | Ret (Some (num1, num2, c, s)) => next c s (add t num1 num2)
          | Ret None => Some (Ret None)
          | Exit msg => Some (Exit msg)
          | Crash => Some Crash
          end
  end.

Definition process_map_file : nat -> list Z -> hash_table -> run (option hash_table) := map_lines hash_add_value.

(** A line takes at least a character. *)
Definition map_fuel (s : list Z) : nat := S (length s).

(** The names tried for [filename] along the path: a name ends at a colon or at
    the end, [apath] is what has been collected. *)
Fixpoint path_names (apath env filename : list Z) : list (list Z) :=
  match env with
  | [] => []
  | c :: env =>
      let apath := apath ++ [c] in
      match env with
      | [] => [apath ++ SLASH :: filename]
      | c' :: env' => if c' =? COLON then (apath ++ SLASH :: filename) :: path_names [] env' filename
                      else path_names apath env filename
      end
  end.

(** The first name that can be opened, with [files] the files that are there. *)
Definition first_file {F} (files : list Z -> option F) (names : list (list Z)) : option F :=
  foldr (fun name r => match files name with Some f => Some f | None => r end) None names.

Definition find_file {F} (files : list Z -> option F) (env : option (list Z)) (filename : list Z) : option F :=
  match files filename with
  | Some f => Some f
  | None => match env with None => None | Some env => first_file files (path_names [] env filename) end
  end.

Definition relmap_name : list Z := [97; 99; 95; 114; 116; 108; 100; 46; 114; 101; 108; 109; 97; 112].

(** The constructor: the table, when a configuration is loaded. *)
Definition ac_rtld_config (files : list Z -> option (list Z)) (env : option (list Z)) : run (option hash_table) :=
  match find_file files env relmap_name with
  | None => Some (Ret None)
  | Some s => process_map_file (map_fuel s) s hash_initialize
  end.

(** [None] is the result -1. *)
Definition translate (config : option hash_table) (code : Z) : option Z :=
  t ← config; hash_get_value t code.

(** ** What the relocation map accepts

    An inductive grammar of the file [ac_rtld.relmap] and the proof that
    [process_map_file] accepts exactly its sentences, always ends, and gives each
    code its last definition. *)

(** ** The grammar *)

Definition blanks (b : list Z) : Prop := Forall (fun c => is_blank c = true) b.
Definition comment_text (t : list Z) : Prop := Forall (fun c => ends_line c = false) t.
Definition number (d : list Z) : Prop := Forall (fun c => is_digit c = true) d /\ (0 < length d < 20)%nat.

(** The end of a line, and what is read after it. *)
Inductive line_end : list Z -> list Z -> Prop :=
  | le_newline s : line_end (NEWLINE :: s) s
  | le_stop s : line_end (NUL :: s) []
  | le_eof : line_end [] [].

Inductive map_file : list Z -> list (Z * Z) -> Prop :=
  | mf_end : map_file [] []
  | mf_comment t l s defs : comment_text t -> line_end l s -> map_file s defs -> map_file (HASH_SIGN :: t ++ l) defs
  | mf_blank b l s defs : blanks b -> line_end l s -> map_file s defs -> map_file (b ++ l) defs
  | mf_define b d b1 b2 d' l s defs :
      blanks b -> number d -> blanks b1 -> blanks b2 -> number d' -> line_end l s -> map_file s defs ->
      map_file (b ++ d ++ b1 ++ EQUALS :: b2 ++ d' ++ l) ((u32 (strtol d), u32 (strtol d')) :: defs).

#[export] Hint Constructors line_end map_file : core.

(** ** The scanners *)

Lemma digit_props c : is_digit c = true -> ends_line c = false /\ is_blank c = false /\ c <> HASH_SIGN.
Proof.
  unfold is_digit, ends_line, is_blank, NUL, NEWLINE, SPACE, TAB, HASH_SIGN.
  intros H. apply andb_prop in H as [H1%Z.leb_le H2%Z.leb_le].
  repeat match goal with |- context [c =? ?k] => destruct (Z.eqb_spec c k); [lia|] end. repeat split; lia.
Qed.

Lemma blank_props c : is_blank c = true -> ends_line c = false /\ is_digit c = false /\ c <> HASH_SIGN.
Proof.
  unfold is_blank, SPACE, TAB, HASH_SIGN. intros H.
  apply orb_prop in H as [->%Z.eqb_eq| ->%Z.eqb_eq]; repeat split; discriminate.
Qed.

(** A scanner that skips the characters that satisfy a test. *)
Lemma skip_spec (test : Z -> bool) (skip : Z -> list Z -> Z * list Z) :
  test NUL = false ->
  (forall c s, skip c s = if test c then match s with [] => (NUL, []) | c :: s => skip c s end else (c, s)) ->
  forall l c s e s', request_read l = (c, s) ->
  skip c s = (e, s') <-> exists b l', l = b ++ l' /\ Forall (fun c => test c = true) b /\ request_read l' = (e, s') /\ test e = false.
Proof.
  intros H0 Hskip l. induction l as [|c0 l IH]; intros c s e s' E; injection E as <- <-; rewrite Hskip.
  - rewrite H0. split.
    + intros [= <- <-]. exists [], []. auto.
    + intros ([|? ?] & [|? ?] & Hl & _ & E & _); try discriminate. exact E.
  - destruct (test c0) eqn:Et.
    + transitivity (exists b l', l = b ++ l' /\ Forall (fun c => test c = true) b /\ request_read l' = (e, s') /\ test e = false).
      * destruct l as [|c1 l]; [|apply IH; reflexivity].
        rewrite <- (IH NUL [] e s' eq_refl), Hskip, H0. reflexivity.
      * split; intros (b & l' & El & Hb & E).
        -- exists (c0 :: b), l'. subst l. auto.
        -- destruct b as [|b0 b]; cbn in El.
           ++ subst l'. destruct E as [[= <- <-] E]. congruence.
           ++ injection El as <- ->. inversion Hb. exists b, l'. auto.
    + split.
      * intros [= <- <-]. exists [], (c0 :: l). auto.
      * intros ([|b0 b] & l' & E & Hb & E' & Ee); cbn in E; subst; [exact E'|]. injection E as -> _.
        inversion Hb. congruence.
Qed.

Lemma skip_blanks_spec l c s e s' : request_read l = (c, s) ->
  skip_blanks c s = (e, s') <-> exists b l', l = b ++ l' /\ blanks b /\ request_read l' = (e, s') /\ is_blank e = false.
Proof. apply skip_spec; [reflexivity|]. intros ? [|? ?]; reflexivity. Qed.

Lemma read_digits_spec l : forall i c s ds e s', i < 20 -> request_read l = (c, s) ->
  read_digits i c s = Ret (ds, e, s') <->
  exists l', l = ds ++ l' /\ Forall (fun c => is_digit c = true) ds /\ i + Z.of_nat (length ds) < 20 /\
    request_read l' = (e, s') /\ is_digit e = false.
Proof.
  induction l as [|c0 l IH]; intros i c s ds e s' Hi E; injection E as <- <-.
  - cbn. split.
    + intros [= <- <- <-]. exists []. cbn. repeat split; try lia; auto.
    + intros (l' & Hl & _ & _ & E & _). destruct ds, l'; try discriminate. injection E as <- <-. reflexivity.
  - replace (read_digits i c0 l) with
      (if is_digit c0 then if 20 <=? i + 1 then Crash else
         '(ds, e, s) ← (let '(c', s) := request_read l in read_digits (i + 1) c' s); Ret (c0 :: ds, e, s)
       else Ret ([], c0, l)) by (destruct l; reflexivity).
    destruct (is_digit c0) eqn:Ed.
    + destruct (Z.leb_spec 20 (i + 1)).
      * split; [discriminate|]. intros (l' & E & Hd & Hlt & E' & Ee). destruct ds as [|d ds]; cbn in *; [|lia].
        subst l'. injection E' as <- <-. congruence.
      * destruct (request_read l) as [c' s] eqn:El. assert (Hi' : i + 1 < 20) by lia. rewrite exec_bind_ret. split.
        -- intros ([[ds0 e0] s0] & E & [= <- <- <-]). apply (IH (i + 1) c' s ds0 e0 s0 Hi' eq_refl) in E as (l' & -> & Hd & Hlt & E).
           exists l'. cbn [length]. repeat split; try tauto; [constructor; auto|lia].
        -- intros (l' & E & Hd & Hlt & E' & Ee). destruct ds as [|d ds]; cbn in E.
           { subst l'. injection E' as <- <-. congruence. }
           injection E as <- ->. inversion_clear Hd. exists (ds, e, s'). split; [|reflexivity].
           apply (IH (i + 1) c' s ds e s' Hi' eq_refl). exists l'. cbn [length] in Hlt. repeat split; auto; lia.
    + split.
      * intros [= <- <- <-]. exists (c0 :: l). cbn. repeat split; auto; lia.
      * intros (l' & E & Hd & Hlt & E' & Ee). destruct ds as [|d ds]; cbn in E.
        -- subst l'. injection E' as <- <-. reflexivity.
        -- injection E as <- _. inversion Hd. congruence.
Qed.

Lemma skip_comment_spec l c s : request_read l = (c, s) ->
  exists t l' e s', l = t ++ l' /\ comment_text t /\ request_read l' = (e, s') /\ ends_line e = true /\ skip_comment c s = (e, s').
Proof.
  revert c s. induction l as [|c0 l IH]; intros c s E; injection E as <- <-.
  - exists [], [], NUL, []. repeat split; constructor.
  - destruct (ends_line c0) eqn:Ee.
    + exists [], (c0 :: l), c0, l. repeat split; [constructor|exact Ee|]. destruct l; cbn; rewrite Ee; reflexivity.
    + destruct (request_read l) as [c1 s1] eqn:El. destruct (IH c1 s1 eq_refl) as (t & l' & e & s' & -> & Ht & El' & He & Hs).
      exists (c0 :: t), l', e, s'. repeat split; try assumption; [constructor; assumption|].
      rewrite <- Hs. destruct (t ++ l') as [|c2 l2]; injection El as <- <-; cbn; rewrite Ee; reflexivity.
Qed.

Lemma skip_comment_app t l c s e s' : comment_text t -> request_read (t ++ l) = (c, s) ->
  request_read l = (e, s') -> ends_line e = true -> skip_comment c s = (e, s').
Proof.
  revert c s. induction t as [|c0 t IH]; intros c s Ht E El He.
  - cbn in E. rewrite El in E. injection E as <- <-. destruct s'; cbn; rewrite He; reflexivity.
  - injection E as <- <-. inversion Ht as [|? ? Hc Ht']. cbn [app]. destruct (request_read (t ++ l)) as [c1 s1] eqn:E1.
    rewrite <- (IH c1 s1 Ht' eq_refl El He). destruct (t ++ l) as [|c2 l2]; injection E1 as <- <-; cbn; rewrite Hc; reflexivity.
Qed.

(** ** Lines *)

Lemma line_end_read l r : line_end l r <-> exists e s, request_read l = (e, s) /\ ends_line e = true /\ r = (if e =? NUL then [] else s).
Proof.
  split.
  - intros []; eexists _, _; repeat split.
  - intros (e & s & E & He & ->). unfold ends_line in He. apply orb_prop in He as [->%Z.eqb_eq| ->%Z.eqb_eq].
    + destruct l; injection E; [discriminate|]. intros <- ->. constructor.
    + destruct l as [|c l]; injection E; [intros _; constructor|]. intros <- ->. constructor.
Qed.

Lemma parse_number_spec l c s n e s' : request_read l = (c, s) ->
  parse_number c s = Ret (Some (n, e, s')) <->
  exists d l', l = d ++ l' /\ number d /\ n = u32 (strtol d) /\ request_read l' = (e, s') /\ is_digit e = false.
Proof.
  intros E. unfold parse_number. destruct (is_digit c) eqn:Ec.
  - rewrite exec_bind_ret. split.
    + intros ([[d e0] s0] & H & [= <- <- <-]). apply (read_digits_spec l 0 c s d e0 s0 eq_refl E) in H as (l' & -> & Hd & Hn & H).
      exists d, l'. repeat split; try tauto; try lia. destruct d as [|? ?]; [|cbn; lia]. cbn in E. rewrite E in H.
      destruct H as [[= <- <-] H]. congruence.
    + intros (d & l' & -> & (Hd & Hn) & -> & H). exists (d, e, s'). split; [|reflexivity].
      apply (read_digits_spec (d ++ l') 0 c s d e s' eq_refl E). exists l'. repeat split; try tauto; lia.
  - split; [discriminate|]. intros ([|d0 d] & l' & -> & (Hd & Hn) & _); [cbn in Hn; lia|].
    injection E as <- <-. inversion Hd. congruence.
Qed.

Lemma parse_definition_spec l c s n e s' : request_read l = (c, s) ->
  parse_definition c s = Ret (Some (n, e, s')) <->
  exists b b' d l', l = b ++ EQUALS :: b' ++ d ++ l' /\ blanks b /\ blanks b' /\ number d /\ n = u32 (strtol d) /\
    request_read l' = (e, s') /\ ends_line e = true.
Proof.
  intros E. unfold parse_definition. split.
  - destruct (ends_line c); [discriminate|]. destruct (skip_blanks c s) as [c1 s1] eqn:E1.
    apply (skip_blanks_spec l c s c1 s1 E) in E1 as (b & l1 & -> & Hb & E1 & _).
    destruct (Z.eqb_spec c1 EQUALS) as [->|]; [|discriminate]. cbn [negb].
    destruct l1 as [|c1 l1]; [discriminate|]. injection E1 as -> <-.
    destruct (request_read l1) as [c2 s2] eqn:E2. destruct (skip_blanks c2 s2) as [c3 s3] eqn:E3.
    apply (skip_blanks_spec l1 c2 s2 c3 s3 E2) in E3 as (b' & l2 & -> & Hb' & E3 & _).
    destruct (ends_line c3); [discriminate|]. intros H. apply exec_bind_ret in H as ([[[n0 e0] s0]|] & H & H'); [|discriminate].
    apply (parse_number_spec l2 c3 s3 n0 e0 s0 E3) in H as (d & l' & -> & Hd & -> & El' & _).
    destruct (ends_line e0) eqn:Ee; [|discriminate]. injection H' as <- <- <-. exists b, b', d, l'. auto 10.
  - intros (b & b' & d & l' & -> & Hb & Hb' & Hd & -> & El' & He).
    assert (E1 : skip_blanks c s = (EQUALS, b' ++ d ++ l')) by (apply (skip_blanks_spec _ c s _ _ E); exists b; eauto 10).
    destruct (request_read (b' ++ d ++ l')) as [c2 s2] eqn:E2. destruct Hd as (Hd & Hn).
    destruct d as [|d0 d]; [cbn in Hn; lia|]. assert (Hd0 : is_digit d0 = true) by (inversion Hd; assumption).
    destruct (digit_props d0 Hd0) as (Hd1 & Hd2 & _).
    assert (E3 : skip_blanks c2 s2 = (d0, d ++ l')) by (apply (skip_blanks_spec _ c2 s2 _ _ E2); exists b', ((d0 :: d) ++ l'); auto).
    assert (Hc : ends_line c = false).
    { destruct b as [|b0 b]; injection E as <- _; [reflexivity|]. inversion Hb as [|? ? Hb0]. apply (blank_props b0 Hb0). }
    rewrite Hc, E1. cbn [negb Z.eqb EQUALS]. rewrite E2, E3, Hd1.
    assert (E4 : parse_number d0 (d ++ l') = Ret (Some (u32 (strtol (d0 :: d)), e, s'))).
    { apply (parse_number_spec ((d0 :: d) ++ l') d0 (d ++ l') _ _ _ eq_refl). exists (d0 :: d), l'.
      repeat split; auto; try apply Hn. destruct (is_digit e) eqn:Ede; [|reflexivity]. apply digit_props in Ede. intuition congruence. }
    rewrite E4. cbn. rewrite He. reflexivity.
Qed.

Lemma parse_statement_spec l c s n n' e s' : request_read l = (c, s) ->
  parse_statement c s = Ret (Some (n, n', e, s')) <->
  exists d b b' d' l', l = d ++ b ++ EQUALS :: b' ++ d' ++ l' /\ number d /\ blanks b /\ blanks b' /\ number d' /\
    n = u32 (strtol d) /\ n' = u32 (strtol d') /\ request_read l' = (e, s') /\ ends_line e = true.
Proof.
  intros E. unfold parse_statement. rewrite exec_bind_ret. split.
  - intros ([[[n0 c1] s1]|] & H & H'); [|discriminate].
    apply (parse_number_spec l c s n0 c1 s1 E) in H as (d & l1 & -> & Hd & -> & E1 & _).
    apply exec_bind_ret in H' as ([[[n1 e0] s0]|] & H & [= <- <- <- <-]).
    apply (parse_definition_spec l1 c1 s1 _ _ _ E1) in H as (b & b' & d' & l' & -> & H). exists d, b, b', d', l'. intuition.
  - intros (d & b & b' & d' & l' & -> & Hd & Hb & Hb' & Hd' & -> & -> & El & He).
    destruct (request_read (b ++ EQUALS :: b' ++ d' ++ l')) as [c1 s1] eqn:E1. exists (Some (u32 (strtol d), c1, s1)). split.
    + apply (parse_number_spec _ c s _ _ _ E). exists d, (b ++ EQUALS :: b' ++ d' ++ l'). repeat split; try assumption; try apply Hd.
      destruct b as [|b0 b]; injection E1 as <- _; [reflexivity|]. inversion Hb as [|? ? Hb0]. apply (blank_props b0 Hb0).
    + apply exec_bind_ret. exists (Some (u32 (strtol d'), e, s')). split; [|reflexivity].
      apply (parse_definition_spec _ c1 s1 _ _ _ E1). exists b, b', d', l'. auto 10.
Qed.

(** ** The file *)

Section lines.
Context (add : hash_table -> Z -> Z -> hash_table).

Definition add_all (defs : list (Z * Z)) (t : hash_table) : hash_table :=
  fold_left (fun t d => add t d.1 d.2) defs t.

Lemma map_file_nil l defs : map_file l defs -> l = [] -> defs = [].
Proof.
  intros H. induction H as [|? ? ? ? ? He H IH|b l s defs Hb He H IH|b d ? ? ? ? ? ? Hb (_ & Hd)]; intros E.
  - reflexivity.
  - discriminate.
  - apply app_eq_nil in E as [-> ->]. inversion He; subst. auto.
  - apply app_eq_nil in E as [-> E]. apply app_eq_nil in E as [-> _]. cbn in Hd. lia.
Qed.

(** What the loop does after a line. *)
Definition continue (fuel : nat) (c : Z) (s : list Z) (t : hash_table) : run (option hash_table) :=
  if c =? NUL then Some (Ret (Some t)) else map_lines add fuel s t.

Lemma process_S fuel l t c s : request_read l = (c, s) ->
  map_lines add (S fuel) l t =
  if c =? HASH_SIGN then let '(c, s) := skip_comment c s in continue fuel c s t
  else let '(c, s) := skip_blanks c s in
       if ends_line c then continue fuel c s t
       else match parse_statement c s with
            | Ret (Some (num1, num2, c, s)) => continue fuel c s (add t num1 num2)
            | Ret None => Some (Ret None)
            | Exit msg => Some (Exit msg)
            | Crash => Some Crash
            end.
Proof. intros E. cbn [map_lines]. rewrite E. reflexivity. Qed.

(** A line read is a line of the grammar. *)
Lemma process_sound fuel : forall l t t', map_lines add fuel l t = Some (Ret (Some t')) ->
  exists defs, map_file l defs /\ t' = add_all defs t.
Proof.
  induction fuel as [|fuel IH]; intros l t t' H; [discriminate|].
  assert (Hc : forall l e s t, request_read l = (e, s) -> ends_line e = true -> continue fuel e s t = Some (Ret (Some t')) ->
    exists r defs, line_end l r /\ map_file r defs /\ t' = add_all defs t).
  { clear l t H. intros l e s t E He H. unfold continue in H. exists (if e =? NUL then [] else s).
    destruct (Z.eqb_spec e NUL) as [->|Hne].
    - injection H as <-. exists []. repeat split; [apply line_end_read; eauto|constructor].
    - destruct (IH s t t' H) as (defs & Hd & ->). exists defs. repeat split; [|assumption].
      apply line_end_read. exists e, s. repeat split; [assumption..|]. apply Z.eqb_neq in Hne. rewrite Hne. reflexivity. }
  destruct (request_read l) as [c s] eqn:E. rewrite (process_S fuel l t c s E) in H.
  destruct (Z.eqb_spec c HASH_SIGN) as [->|Hne].
  - destruct l as [|c l]; injection E as E <-; [discriminate|]. subst c.
    assert (Es : request_read (HASH_SIGN :: l) = (HASH_SIGN, l)) by reflexivity.
    destruct (skip_comment_spec _ _ _ Es) as (t0 & l' & e & s' & El & Ht & El' & He & Hs). rewrite Hs in H.
    destruct (Hc _ _ _ _ El' He H) as (r & defs & Hr & Hd & ->). exists defs. split; [|reflexivity].
    destruct t0 as [|h t0]; cbn in El.
    { subst l'. injection El' as <- <-. discriminate. }
    injection El as <- ->. apply (mf_comment _ l' r); [inversion Ht|..]; assumption.
  - destruct (skip_blanks c s) as [c1 s1] eqn:E1.
    apply (skip_blanks_spec l c s c1 s1 E) in E1 as (b & l1 & -> & Hb & E1 & _). destruct (ends_line c1) eqn:E2.
    + destruct (Hc _ _ _ _ E1 E2 H) as (r & defs & Hr & Hd & ->). exists defs. split; [eauto|reflexivity].
    + destruct (parse_statement c1 s1) as [[[[[n n'] e] s2]|]|msg|] eqn:E3; try discriminate.
      apply (parse_statement_spec l1 c1 s1 _ _ _ _ E1) in E3
        as (d & b1 & b2 & d' & l' & -> & Hd & Hb1 & Hb2 & Hd' & -> & -> & El' & He).
      destruct (Hc _ _ _ _ El' He H) as (r & defs & Hr & Hf & ->). exists ((u32 (strtol d), u32 (strtol d')) :: defs).
      split; [|reflexivity]. exact (mf_define b d b1 b2 d' l' r defs Hb Hd Hb1 Hb2 Hd' Hr Hf).
Qed.

(** ** A line of the grammar is read as such *)

Lemma line_end_length l r : line_end l r -> (length r <= length l)%nat /\ (length r = length l -> l = []).
Proof. intros []; cbn; split; try lia; intros; try lia; reflexivity. Qed.

Lemma line_end_head l r c s : line_end l r -> request_read l = (c, s) -> ends_line c = true /\ is_digit c = false /\ is_blank c = false.
Proof. intros [] E; injection E as <- <-; repeat split. Qed.

Lemma process_comment fuel t0 l r e s t : comment_text t0 -> line_end l r -> request_read l = (e, s) ->
  map_lines add (S fuel) (HASH_SIGN :: t0 ++ l) t = continue fuel e s t.
Proof.
  intros Ht Hl E. rewrite (process_S fuel (HASH_SIGN :: t0 ++ l) t HASH_SIGN (t0 ++ l) eq_refl). cbn [Z.eqb HASH_SIGN].
  rewrite (skip_comment_app (HASH_SIGN :: t0) l HASH_SIGN (t0 ++ l) e s); [reflexivity|constructor; [reflexivity|exact Ht]|reflexivity|exact E|].
  apply (line_end_head l r e s Hl E).
Qed.

Lemma no_comment b l c s : blanks b -> request_read (b ++ l) = (c, s) -> fst (request_read l) <> HASH_SIGN -> c <> HASH_SIGN.
Proof.
  intros Hb E Hl ->. destruct b as [|b0 b]; cbn in E.
  - rewrite E in Hl. exact (Hl eq_refl).
  - injection E as -> _. inversion Hb as [|? ? Hb0]. discriminate Hb0.
Qed.

Lemma process_blank fuel b l r e s t : blanks b -> line_end l r -> request_read l = (e, s) ->
  map_lines add (S fuel) (b ++ l) t = continue fuel e s t.
Proof.
  intros Hb Hl E. destruct (line_end_head l r e s Hl E) as (He & _ & Heb).
  destruct (request_read (b ++ l)) as [c s1] eqn:E1. rewrite (process_S fuel _ t c s1 E1).
  assert (Es : skip_blanks c s1 = (e, s)) by (apply (skip_blanks_spec _ c s1 _ _ E1); exists b, l; auto).
  rewrite Es, He. destruct (Z.eqb_spec c HASH_SIGN) as [->|_]; [|reflexivity].
  exfalso. apply (no_comment b l HASH_SIGN s1 Hb E1); [|reflexivity]. rewrite E. cbn. intros ->. discriminate He.
Qed.

Lemma process_define fuel b d b1 b2 d' l r e s t :
  blanks b -> number d -> blanks b1 -> blanks b2 -> number d' -> line_end l r -> request_read l = (e, s) ->
  map_lines add (S fuel) (b ++ d ++ b1 ++ EQUALS :: b2 ++ d' ++ l) t =
  continue fuel e s (add t (u32 (strtol d)) (u32 (strtol d'))).
Proof.
  intros Hb Hd Hb1 Hb2 Hd' Hl E. destruct (line_end_head l r e s Hl E) as (He & _ & _).
  set (tail := d ++ b1 ++ EQUALS :: b2 ++ d' ++ l) in *. destruct (request_read (b ++ tail)) as [c s1] eqn:E1.
  rewrite (process_S fuel _ t c s1 E1). destruct d as [|d0 d]; [destruct Hd as [_ Hd]; cbn in Hd; lia|].
  assert (Hd0 : is_digit d0 = true) by (destruct Hd as [Hd _]; inversion Hd; assumption).
  destruct (digit_props d0 Hd0) as (Hd1 & Hd2 & Hd3).
  assert (Es : skip_blanks c s1 = (d0, d ++ b1 ++ EQUALS :: b2 ++ d' ++ l))
    by (apply (skip_blanks_spec _ c s1 _ _ E1); exists b, tail; auto).
  rewrite Es, Hd1. destruct (Z.eqb_spec c HASH_SIGN) as [->|_].
  { exfalso. apply (no_comment b tail HASH_SIGN s1 Hb E1); [exact Hd3|reflexivity]. }
  assert (Ep : parse_statement d0 (d ++ b1 ++ EQUALS :: b2 ++ d' ++ l) =
               Ret (Some (u32 (strtol (d0 :: d)), u32 (strtol d'), e, s))).
  { apply (parse_statement_spec tail d0 (d ++ b1 ++ EQUALS :: b2 ++ d' ++ l) _ _ _ _ eq_refl). exists (d0 :: d), b1, b2, d', l. auto 12. }
  rewrite Ep. reflexivity.
Qed.

Lemma process_nil fuel t : (0 < fuel)%nat -> map_lines add fuel [] t = Some (Ret (Some t)).
Proof. destruct fuel; [lia|reflexivity]. Qed.

Lemma continue_line_end fuel l r e s t : line_end l r -> request_read l = (e, s) -> (length r < fuel)%nat ->
  continue fuel e s t = map_lines add fuel r t.
Proof. intros Hl E Hf. unfold continue. destruct Hl; injection E as <- <-; cbn [Z.eqb NUL NEWLINE]; rewrite ?process_nil by lia; reflexivity. Qed.

(** A sentence of the grammar is read to its end. *)
Lemma process_complete l defs : map_file l defs -> forall fuel t, (length l < fuel)%nat ->
  map_lines add fuel l t = Some (Ret (Some (add_all defs t))).
Proof.
  intros H. induction H as [|t0 l s defs Ht Hl H IH|b l s defs Hb Hl H IH|b d b1 b2 d' l s defs Hb Hd Hb1 Hb2 Hd' Hl H IH];
    intros fuel t Hf; [apply process_nil; lia|..]; (destruct fuel as [|fuel]; [lia|]);
    destruct (line_end_length l s Hl) as (Hlen & Hlen'); destruct (request_read l) as [e s'] eqn:El.
  - rewrite (process_comment fuel t0 l s e s' t Ht Hl El). cbn in Hf. rewrite length_app in Hf.
    rewrite (continue_line_end fuel l s e s' t Hl El) by lia. apply IH. lia.
  - destruct (decide (b ++ l = [])) as [En|En].
    + rewrite En. apply app_eq_nil in En as [-> ->]. inversion Hl; subst. rewrite (map_file_nil _ _ H eq_refl). reflexivity.
    + rewrite (process_blank fuel b l s e s' t Hb Hl El). rewrite length_app in Hf.
      assert (length s < fuel)%nat.
      { destruct b as [|? ?]; cbn in *; [|lia]. destruct (decide (length s = length l)) as [E1|]; [rewrite (Hlen' E1) in En; congruence|lia]. }
      rewrite (continue_line_end fuel l s e s' t Hl El) by assumption. apply IH. assumption.
  - rewrite (process_define fuel b d b1 b2 d' l s e s' t); try assumption. rewrite !length_app in Hf. cbn in Hf. rewrite !length_app in Hf.
    rewrite (continue_line_end fuel l s e s' _ Hl El) by lia. apply IH. lia.
Qed.

(** ** The loop ends *)

Lemma request_read_length l c s : request_read l = (c, s) -> l = [] \/ length l = S (length s).
Proof. destruct l; intros E; injection E as <- <-; auto. Qed.

Lemma process_ends fuel : forall l t, (length l < fuel)%nat -> map_lines add fuel l t <> None.
Proof.
  induction fuel as [|fuel IH]; intros l t Hf; [lia|].
  assert (Hc : forall e s t, (e <> NUL -> (length s < fuel)%nat) -> continue fuel e s t <> None).
  { intros e s t' Hs. unfold continue. destruct (Z.eqb_spec e NUL); [discriminate|]. apply IH. auto. }
  assert (Hr : forall l' e s, (length l' <= length l)%nat -> request_read l' = (e, s) -> e <> NUL -> (length s < fuel)%nat).
  { intros l' e s Hl E He. destruct (request_read_length _ _ _ E) as [->|]; [injection E; congruence|lia]. }
  destruct (request_read l) as [c s] eqn:E. rewrite (process_S fuel l t c s E). destruct (c =? HASH_SIGN).
  - destruct (skip_comment_spec l c s E) as (t0 & l' & e & s' & -> & _ & El & _ & ->).
    apply Hc, (Hr l'); [|exact El]. rewrite length_app. lia.
  - destruct (skip_blanks c s) as [c1 s1] eqn:E1. apply (skip_blanks_spec l c s c1 s1 E) in E1 as (b & l1 & -> & _ & E1 & _).
    rewrite length_app in Hr. destruct (ends_line c1); [apply Hc, (Hr l1); [lia|exact E1]|].
    destruct (parse_statement c1 s1) as [[[[[n n'] e] s2]|]|msg|] eqn:E3; try discriminate.
    apply (parse_statement_spec l1 c1 s1 _ _ _ _ E1) in E3 as (d & b1 & b2 & d' & l' & -> & _ & _ & _ & _ & _ & _ & El & _).
    apply Hc, (Hr l'); [|exact El]. rewrite !length_app. cbn. rewrite !length_app. lia.
Qed.
End lines.

(** ** The table *)

(** The last definition of a code. *)
Definition last_definition (code : Z) (defs : list (Z * Z)) : option Z :=
  fold_left (fun r d => if d.1 =? code then Some d.2 else r) defs None.

Lemma hash_get_add t i v code : length t = 20%nat ->
  hash_get_value (hash_add_value t i v) code = if i =? code then Some v else hash_get_value t code.
Proof.
  intros Hlen. unfold hash_get_value, hash_add_value, hash_table in *.
  destruct (decide (bucket i = bucket code)) as [E|E].
  - rewrite E. rewrite list_lookup_alter_eq.
    assert (Hb : (bucket code < length t)%nat).
    { rewrite Hlen. unfold bucket, HASHTABLE_SIZE. pose proof (Z.mod_pos_bound code 20 eq_refl). lia. }
    apply lookup_lt_is_Some in Hb as (l & El). rewrite El. cbn. reflexivity.
  - rewrite list_lookup_alter_ne by exact E. destruct (Z.eqb_spec i code); [congruence|reflexivity].
Qed.

Lemma add_all_get defs : forall t code, length t = 20%nat ->
  hash_get_value (add_all hash_add_value defs t) code =
  match last_definition code defs with Some v => Some v | None => hash_get_value t code end.
Proof.
  unfold add_all, last_definition. induction defs as [|[i v] defs IH] using rev_ind; intros t code Hlen; [reflexivity|].
  rewrite !fold_left_app. cbn [fold_left fst snd]. rewrite hash_get_add.
  - rewrite IH by exact Hlen. destruct (i =? code); reflexivity.
  - clear IH. revert t Hlen. induction defs as [|d defs IHd]; intros t Hlen; [exact Hlen|].
    cbn. apply IHd. unfold hash_add_value, hash_table in *. rewrite length_alter. exact Hlen.
Qed.

Lemma hash_get_initialize code : hash_get_value hash_initialize code = None.
Proof.
  unfold hash_get_value. assert (E : (hash_initialize : list (list (Z * Z))) !! bucket code = Some []).
  { apply lookup_replicate_2. unfold bucket, HASHTABLE_SIZE. pose proof (Z.mod_pos_bound code 20 eq_refl). lia. }
  unfold hash_table in *; rewrite E. reflexivity.
Qed.

(** The relocation map: reading a file always ends, and the table it gives
    translates codes as the map [f] exactly when the file is a sentence of the
    grammar whose last definition of each code is [f]; numbers of more than 19
    digits and anything else behind a statement make the whole map fail. *)
Theorem relmap_language s f :
  process_map_file (map_fuel s) s hash_initialize <> None /\
  ((exists t, process_map_file (map_fuel s) s hash_initialize = Some (Ret (Some t)) /\ forall code, translate (Some t) code = f code) <->
   (exists defs, map_file s defs /\ forall code, last_definition code defs = f code)).
Proof.
  split; [apply (process_ends hash_add_value); unfold map_fuel; lia|].
  assert (Hg : forall defs code, translate (Some (add_all hash_add_value defs hash_initialize)) code = last_definition code defs).
  { intros defs code. change (translate (Some (add_all hash_add_value defs hash_initialize)) code)
      with (hash_get_value (add_all hash_add_value defs hash_initialize) code). rewrite add_all_get by reflexivity.
    rewrite hash_get_initialize. destruct (last_definition code defs); reflexivity. }
  split.
  - intros (t & H & Ht). apply (process_sound hash_add_value) in H as (defs & Hd & ->). exists defs. split; [exact Hd|]. intros code. rewrite <- Hg. apply Ht.
  - intros (defs & Hd & Hf). exists (add_all hash_add_value defs hash_initialize). split; [|intros code; rewrite Hg; apply Hf].
    apply (process_complete hash_add_value); [exact Hd|unfold map_fuel; lia].
Qed.

(** The bytes of "#m", " 23 = 1", "3 =4" and "23= 2", the last line without an end. *)
Definition sample_map : list Z :=
  [35; 109; 10; 32; 50; 51; 32; 61; 32; 49; 10; 10; 51; 32; 61; 52; 10; 50; 51; 61; 32; 50].

Example sample_map_read :
  match process_map_file (map_fuel sample_map) sample_map hash_initialize with
  | Some (Ret config) => (translate config <$> [23; 3; 4]) = [Some 2; Some 4; None]
  | _ => False
  end.
Proof. vm_compute. reflexivity. Qed.

(** A blank behind the second number makes the map fail; so does a number of
    twenty digits, which is stored one byte behind the buffer. *)
Example trailing_blank_rejected : process_map_file 10 [49; 61; 50; 32; 10] hash_initialize = Some (Ret None).
Proof. reflexivity. Qed.

Example long_number_overruns : process_map_file 30 (replicate 20 49 ++ [61; 49]) hash_initialize = Some Crash.
Proof. reflexivity. Qed.
