(* ===== verification/DynInfo.v ===== *)
(** * The dynamic table and the loading of a library

    [archc/src/aclib/ac_rtld/dynamic_info.cpp]: the DYNAMIC segment as a list of
    tags and values, the comparison of the names of libraries, and
    [load_library], which copies the segments of an ELF file into the target
    memory.  A file is an array of bytes; the files that can be opened are a
    function of their names. *)
From S2P Require Import Prelude DynMem RelMap.

(** ** Constants of the ELF format *)

Definition DT_NULL : Z := 0.
Definition DT_NEEDED : Z := 1.
Definition DT_PLTRELSZ : Z := 2.
Definition DT_HASH : Z := 4.
Definition DT_STRTAB : Z := 5.
Definition DT_SYMTAB : Z := 6.
Definition DT_RELA : Z := 7.
Definition DT_INIT : Z := 12.
Definition DT_FINI : Z := 13.
Definition DT_REL : Z := 17.
Definition DT_PLTREL : Z := 20.
Definition DT_JMPREL : Z := 23.
Definition DT_INIT_ARRAY : Z := 25.
Definition DT_FINI_ARRAY : Z := 26.
Definition DT_INIT_ARRAYSZ : Z := 27.
Definition DT_FINI_ARRAYSZ : Z := 28.
Definition DT_VERSYM : Z := 0x6ffffff0.
Definition DT_VERDEF : Z := 0x6ffffffc.
Definition DT_VERNEED : Z := 0x6ffffffe.

Definition ET_REL : Z := 1.
Definition ET_EXEC : Z := 2.
Definition ET_DYN : Z := 3.
Definition PT_LOAD : Z := 1.
Definition PT_DYNAMIC : Z := 2.
Definition PT_INTERP : Z := 3.

(** ** The dynamic table *)

Definition dynamic_table : Type := list (Z * Z).

Definition get_value (tag : Z) (t : dynamic_table) : Z :=
  match list_first (fun e => e.1 =? tag) t with Some e => e.2 | None => 0 end.

(** The first entry with the tag; the result tells whether there is one. *)
Fixpoint set_value (tag value : Z) (t : dynamic_table) : bool * dynamic_table :=
  match t with
  | [] => (false, [])
  | e :: t => if e.1 =? tag then (true, (e.1, value) :: t) else let '(r, t) := set_value tag value t in (r, e :: t)
  end.

(** The entries up to the first [DT_NULL], which is in the table. *)
Fixpoint read_entries (fuel : nat) (e : bool) (addr : Z) (m : memory) : exec dynamic_table :=
  match fuel with
  | O => Crash
  | S fuel =>
      tag ← load 4 addr m; value ← load 4 (addr + 4) m;
      let entry := (convert_endian 4 tag e, convert_endian 4 value e) in
      if tag =? DT_NULL then Ret [entry] else t ← read_entries fuel e (addr + 8) m; Ret (entry :: t)
  end.

Definition load_dynamic_info (addr : Z) (match_endian : bool) (m : memory) : exec dynamic_table :=
  read_entries (mem_fuel m) match_endian addr m.

(** ** Names *)

(** What is behind the last slash. *)
Fixpoint base_name (s : list Z) : list Z :=
  match s with
  | [] => []
  | c :: s' => if existsb (Z.eqb SLASH) s then base_name s' else s
  end.

(** [compare_library_soname () == 0]. *)
Definition same_library (soname1 soname2 : option (list Z)) : bool :=
  match soname1, soname2 with
  | None, None => true
  | Some s1, Some s2 => bool_decide (base_name s1 = base_name s2)
  | _, _ => false
  end.

(** ** Files *)

Definition file : Type := memory.
Definition file_system : Type := list Z -> option file.

Definition ELFMAG : list Z := [0x7f; 0x45; 0x4c; 0x46].

(** The header is there and begins with the magic number. *)
Definition is_elf (f : file) : bool :=
  (52 <=? msize f) && bool_decide (bytes f <$> [0; 1; 2; 3] = ELFMAG).

Definition e_type (e : bool) (f : file) : exec Z := field e 2 16 f.
Definition e_entry (e : bool) (f : file) : exec Z := field e 4 24 f.
Definition e_phoff (e : bool) (f : file) : exec Z := field e 4 28 f.
Definition e_phentsize (e : bool) (f : file) : exec Z := field e 2 42 f.
Definition e_phnum (e : bool) (f : file) : exec Z := field e 2 44 f.

Record phdr := MkPhdr { p_type : Z; p_offset : Z; p_vaddr : Z; p_filesz : Z; p_memsz : Z }.

(** Program header [i]; a short read ends the program. *)
Definition read_phdr (e : bool) (f : file) (i : Z) : exec phdr :=
  off ← e_phoff e f; size ← e_phentsize e f;
  let at_ := u32 (off + u32 (size * i)) in
  if in_memory f at_ 32 then
    t ← field e 4 at_ f; o ← field e 4 (at_ + 4) f; v ← field e 4 (at_ + 8) f;
    fs ← field e 4 (at_ + 16) f; ms ← field e 4 (at_ + 20) f;
    Ret (MkPhdr t o v fs ms)
  else Exit "reading ELF program header.".

(** [lseek] and [read] of [n] bytes to [dst]; a short read ends the program. *)
Definition read_file (f : file) (off n dst : Z) (m : memory) : exec memory :=
  if n =? 0 then Ret m
  else if negb (in_memory f off n) then Exit "read file operation failed."
  else if in_memory m dst n then
    Ret (MkMemory (fun i => if (dst <=? i) && (i <? dst + n) then bytes f (off + (i - dst)) else bytes m i) (msize m))
  else Crash.

Definition clear (dst n : Z) (m : memory) : exec memory :=
  if n =? 0 then Ret m
  else if in_memory m dst n then
    Ret (MkMemory (fun i => if (dst <=? i) && (i <? dst + n) then 0 else bytes m i) (msize m))
  else Crash.

(** ** A library *)

Record loading := MkLoading { l_dyn_addr : Z; l_dyn_size : Z; l_total : Z; l_mem : memory }.

(** A PT_LOAD or PT_DYNAMIC segment. *)
Definition load_segment (f : file) (load_addr mem_size : Z) (p : phdr) (l : loading) : exec loading :=
  if mem_size <? u32 (u32 (p_vaddr p + p_memsz p) + load_addr) then
    Exit "not enough memory in ArchC model to load requested shared library."
  else
    let last := u32 (p_vaddr p + p_memsz p) in
    m ← read_file f (p_offset p) (p_filesz p) (p_vaddr p + load_addr) (l_mem l);
    m ← clear (p_vaddr p + load_addr + p_filesz p) (u32 (p_memsz p - p_filesz p)) m;
    Ret (MkLoading (l_dyn_addr l) (l_dyn_size l) (if l_total l <? last then last else l_total l) m).

Definition process_phdr (f : file) (load_addr mem_size : Z) (p : phdr) (l : loading) : exec loading :=
  if p_type p =? PT_DYNAMIC then
    load_segment f load_addr mem_size p (MkLoading (u32 (load_addr + p_vaddr p)) (p_memsz p) (l_total l) (l_mem l))
  else if p_type p =? PT_LOAD then load_segment f load_addr mem_size p l
  else Ret l.

(** The last [n] of the [num] program headers. *)
Fixpoint load_phdrs (e : bool) (f : file) (load_addr mem_size num : Z) (n : nat) (l : loading) : exec loading :=
  match n with
  | O => Ret l
  | S n =>
      p ← read_phdr e f (num - Z.of_nat (S n));
      l ← process_phdr f load_addr mem_size p l;
      load_phdrs e f load_addr mem_size num n l
  end.

Definition EXIT_FAILURE : Z := 1.

(** The total size is [EXIT_FAILURE] when the file is no ELF file. *)
Definition load_library (files : file_system) (env : option (list Z)) (e : bool) (load_addr : Z) (soname : list Z)
    (mem_size : Z) (m : memory) : exec loading :=
  match find_file files env soname with
  | None => Exit "Run-time dynamic linker: Could not find shared library"
  | Some f =>
      if negb (is_elf f) then Ret (MkLoading 0 0 EXIT_FAILURE m)
      else
        type ← e_type e f;
        if negb (type =? ET_DYN) then Exit "Run-time dynamic linker: File is not an ELF dynamic library."
        else num ← e_phnum e f; load_phdrs e f load_addr mem_size num (Z.to_nat num) (MkLoading 0 0 0 m)
  end.
