(* ===== verification/RelConvert.v ===== *)
(** * The converter of relocation codes

    [archc/src/acbinutils/acrelconvert.c]: a program of its own that rewrites the
    relocation codes of an ELF file with a map in the language of
    [ac_rtld.relmap]; the text of its parser is that of [ac_rtld_config.cpp], so
    the scanners of [RelMap] are used, without the messages.  The file is open
    for reading and writing at a position; what is read is a copy.  The host is
    little endian; writing to an open file succeeds. *)
From S2P Require Import Prelude CString DynMem RelMap DynInfo.

(** ** The map *)

(** The table the map gives; in reverse mode the sides change places. *)
Definition map_entry (reverse_mode : bool) (t : hash_table) (num1 num2 : Z) : hash_table :=
  if reverse_mode then hash_add_value t num2 num1 else hash_add_value t num1 num2.

Definition convert_map (reverse_mode : bool) : nat -> list Z -> hash_table -> run (option hash_table) :=
  map_lines (map_entry reverse_mode).

(** ** The file *)

Record fd := MkFd { contents : memory; position : Z }.

(** The outcome of a function: a value or the message of an error. *)
Definition io (A : Type) : Type := fd -> (string + A) * fd.

#[export] Instance io_ret : MRet io := fun A a f => (inr a, f).
#[export] Instance io_bind : MBind io := fun A B k m f =>
  match m f with (inr a, f) => k a f | (inl msg, f) => (inl msg, f) end.

Definition fail {A} (msg : string) : io A := fun f => (inl msg, f).

Definition lseek (p : Z) : io () := fun f => (inr (), MkFd (contents f) p).
(** [lseek(fd, -n, SEEK_CUR)]. *)
Definition lseek_back (n : Z) : io () := fun f => (inr (), MkFd (contents f) (position f - n)).

(** [read] of [n] bytes to a buffer; a short read is the error [msg]. *)
Definition read (n : Z) (msg : string) : io memory := fun f =>
  let p := position f in
  if in_memory (contents f) p n
  then (inr (MkMemory (fun i => bytes (contents f) (p + i)) n), MkFd (contents f) (p + n))
  else (inl msg, f).

(** [write] of a buffer inside the file. *)
Definition write (buf : memory) : io () := fun f =>
  let p := position f in
  let n := msize buf in
  (inr (), MkFd (MkMemory (fun i => if (p <=? i) && (i <? p + n) then bytes buf (i - p) else bytes (contents f) i)
                          (Z.max (msize (contents f)) (p + n))) (p + n)).

(** A field of a structure in a buffer. *)
Definition get (e : bool) (n : nat) (off : Z) (buf : memory) : Z := convert_endian n (word_at (bytes buf) n off) e.

(** ** Relocations *)

Definition sizeof_Rel : Z := 8.
Definition sizeof_Rela : Z := 12.
Definition ELF32_R_SYM (info : Z) : Z := Z.shiftr info 8.
Definition ELF32_R_TYPE (info : Z) : Z := Z.land info 0xff.
Definition ELF32_R_INFO (sym type : Z) : Z := u32 (Z.shiftl sym 8 + Z.land type 0xff).

(** The new [r_info], when the code is in the table. *)
Definition new_info (e : bool) (t : hash_table) (r_info : Z) : option Z :=
  let info := convert_endian 4 r_info e in
  (fun code => convert_endian 4 (ELF32_R_INFO (ELF32_R_SYM info) code) e) <$> hash_get_value t (ELF32_R_TYPE info).

(** [rel.r_info = v]; the field is behind [r_offset]. *)
Definition set_info (v : Z) (rel : memory) : memory := MkMemory (put_word (bytes rel) 4 4 v) (msize rel).

(** One entry: read, patched, written back. *)
Definition patch_entry (e : bool) (t : hash_table) (entry_size : Z) : io () :=
  rel ← read entry_size "Couldn't read relocation";
  match new_info e t (word_at (bytes rel) 4 4) with
  | None => fail "Error: unrecognized relocation code"
  | Some v => lseek_back entry_size ;; write (set_info v rel)
  end.

Fixpoint patch_entries (e : bool) (t : hash_table) (entry_size : Z) (total : nat) : io () :=
  match total with
  | O => mret ()
  | S n => patch_entry e t entry_size ;; patch_entries e t entry_size n
  end.

Definition patch_relocation_section (size rel_type : Z) (t : hash_table) (e : bool) : io () :=
  let entry_size := if rel_type =? DT_REL then sizeof_Rel else sizeof_Rela in
  patch_entries e t entry_size (Z.to_nat (size / entry_size)).

(** ** The file header *)

Definition sizeof_Ehdr : Z := 52.
Definition sizeof_Shdr : Z := 40.
Definition sizeof_Phdr : Z := 32.
Definition sizeof_Dyn : Z := 8.
Definition ELFDATA2LSB : Z := 1.
Definition ELFDATA2MSB : Z := 2.
Definition SHT_RELA : Z := 4.
Definition SHT_REL : Z := 9.

(** [match_endian] of a file; the default of the machine is 0 on a little-endian
    host. *)
Definition endian_of (ei_data : Z) : bool :=
  if ei_data =? ELFDATA2MSB then false else if ei_data =? ELFDATA2LSB then true else false.

(** ** Files with section headers *)

(** The sections from [i] on; the result is the counter [sections_patched]. *)
Fixpoint patch_sections (e : bool) (t : hash_table) (shoff shsize : Z) (n : nat) (i sections_patched : Z) : io Z :=
  match n with
  | O => mret sections_patched
  | S n =>
      lseek (u32 (shoff + u32 (shsize * i))) ;;
      shdr ← read sizeof_Shdr "Error while trying to read section header.";
      let shtype := get e 4 4 shdr in
      if (shtype =? SHT_REL) || (shtype =? SHT_RELA) then
        let rel_type := if shtype =? SHT_REL then DT_REL else DT_RELA in
        let rel_size := get e 4 20 shdr in
        lseek (get e 4 16 shdr) ;;
        patch_relocation_section rel_size rel_type t e ;;
        patch_sections e t shoff shsize n (i + 1) (swrap 8 (sections_patched + 1))
      else patch_sections e t shoff shsize n (i + 1) sections_patched
  end.

(** ** Shared objects without section headers *)

(** [rel_type], [rel_addr] and [rel_size] from the entries of the dynamic section. *)
Definition dynamic_entry (e : bool) (buffer : memory) (j : Z) (r : Z * Z * Z) : Z * Z * Z :=
  let '(rel_type, rel_addr, rel_size) := r in
  let d_tag := get e 4 (sizeof_Dyn * j) buffer in
  let d_val := get e 4 (sizeof_Dyn * j + 4) buffer in
  if (d_tag =? DT_REL) || (d_tag =? DT_RELA) then (d_tag, d_val, rel_size)
  else if (d_tag =? 18) || (d_tag =? 8) then (rel_type, rel_addr, d_val)
  else r.

Definition dynamic_entries (e : bool) (buffer : memory) (n : nat) : Z * Z * Z :=
  fold_left (fun r j => dynamic_entry e buffer (Z.of_nat j) r) (seq 0 n) (0, 0, 0).

(** The loop that looks for the segment of the relocations reads program header
    [i] again and again. *)
Fixpoint find_segment (e : bool) (phoff phentsize i rel_addr rel_size : Z) (n : nat) (rel_offset : Z) : io Z :=
  match n with
  | O => mret rel_offset
  | S n =>
      lseek (u32 (phoff + u32 (phentsize * i))) ;;
      phdr ← read sizeof_Phdr "Fatal error: Couldn't read program header.";
      let p_vaddr := get e 4 8 phdr in
      let p_filesz := get e 4 16 phdr in
      let p_offset := get e 4 4 phdr in
      let rel_offset :=
        if (get e 4 0 phdr =? PT_LOAD) && (p_vaddr <=? rel_addr) && (u32 (rel_addr + rel_size) <=? u32 (p_vaddr + p_filesz))
        then u32 (p_offset + u32 (rel_addr - p_vaddr)) else rel_offset in
      find_segment e phoff phentsize i rel_addr rel_size n rel_offset
  end.

(** The dynamic segment of program header [i]. *)
Definition patch_dynamic (e : bool) (t : hash_table) (phoff phentsize phnum i : Z) (phdr : memory) : io () :=
  let p_filesz := get e 4 16 phdr in
  lseek (get e 4 4 phdr) ;;
  buffer ← read p_filesz "Fatal error: Couldn't read DYNAMIC segment.";
  let '(rel_type, rel_addr, rel_size) := dynamic_entries e buffer (Z.to_nat (p_filesz / sizeof_Dyn)) in
  if (rel_type =? 0) || (rel_addr =? 0) || (rel_size =? 0)
  then fail "Could not locate a dynamic relocation section in this DSO."
  else
    rel_offset ← find_segment e phoff phentsize i rel_addr rel_size (Z.to_nat (u32 phnum)) 0;
    if rel_offset =? 0 then fail "Could not locate the dynamic relocation section in this DSO."
    else lseek rel_offset ;; patch_relocation_section rel_size rel_type t e.

(** The program headers from [i] on; true when the dynamic segment was found. *)
Fixpoint patch_segments (e : bool) (t : hash_table) (phoff phentsize phnum : Z) (n : nat) (i : Z) : io bool :=
  match n with
  | O => mret false
  | S n =>
      lseek (u32 (phoff + u32 (phentsize * i))) ;;
      phdr ← read sizeof_Phdr "Fatal error: Couldn't read program header.";
      if get e 4 0 phdr =? PT_DYNAMIC
      then patch_dynamic e t phoff phentsize phnum i phdr ;; mret true
      else patch_segments e t phoff phentsize phnum n (i + 1)
  end.

(** ** The file *)

Inductive report := NothingFound | Patched (sections : Z) | PatchedDynamic.

Definition patch_stripped (e : bool) (t : hash_table) (type : Z) (ehdr : memory) : io report :=
  let phnum := s16 (get e 2 44 ehdr) in
  let phentsize := s16 (get e 2 42 ehdr) in
  let phoff := s32 (get e 4 28 ehdr) in
  if negb (type =? ET_DYN) then fail "Error: File is not a dynamic shared object, can't continue without section header."
  else if (phnum =? 0) || (phoff =? 0) then fail "Fatal error: Program headers are missing."
  else
    dynamic_found ← patch_segments e t phoff phentsize phnum (Z.to_nat (u32 phnum)) 0;
    if dynamic_found : bool then mret PatchedDynamic
    else fail "Fatal error: Couldn't find any DYNAMIC segment in this DSO.".

Definition process_elf (t : hash_table) : io report :=
  ehdr ← read sizeof_Ehdr "Failure opening file: Not an ELF file or magic number mismatches.";
  if negb (bool_decide (bytes ehdr <$> [0; 1; 2; 3] = ELFMAG)) then fail "Failure opening file: Not an ELF file or magic number mismatches."
  else
    let e := endian_of (bytes ehdr 5) in
    let type := s16 (get e 2 16 ehdr) in
    if negb ((type =? ET_EXEC) || (type =? ET_REL) || (type =? ET_DYN))
    then fail "Can't patch this file: this ELF is not a relocatable file, executable or DSO."
    else
      let shoff := s32 (get e 4 32 ehdr) in
      let shsize := s16 (get e 2 46 ehdr) in
      if (shoff =? 0) || (shsize =? 0) then patch_stripped e t type ehdr
      else
        sections_patched ← patch_sections e t shoff shsize (Z.to_nat (get e 2 48 ehdr)) 0 0;
        mret (if sections_patched =? 0 then NothingFound else Patched sections_patched).

(** ** The program *)

(** The three parameters: the option, the map and the file. *)
Definition process_parameters (argv : list string) : option bool :=
  match argv with
  | [option; _; _] =>
      if negb (streq option "--map-file") && negb (streq option "-m") then if streq option "-r" then Some true else None
      else Some false
  | _ => None
  end.

(** The exit status is a success or not; the file that is converted keeps what
    was written before an error.  [maps] and [elf_files] are the files that can be
    opened. *)
Definition convert_main (maps : string -> option (list Z)) (elf_files : string -> option memory) (argv : list string)
    : run (option report * option memory) :=
  match process_parameters argv, argv with
  | Some reverse_mode, [_; map_name; elf_name] =>
      match maps map_name with
      | None => Some (Ret (None, elf_files elf_name))
      | Some s =>
          table ← convert_map reverse_mode (map_fuel s) s hash_initialize;
          match table, elf_files elf_name with
          | None, elf => Some (Ret (None, elf))
          | Some _, None => Some (Ret (None, None))
          | Some t, Some elf =>
              let '(result, f) := process_elf t (MkFd elf 0) in
              Some (Ret (match result with inr r => Some r | inl _ => None end, Some (contents f)))
          end
      end
  | _, _ => Some (Ret (None, None))
  end.
