(* ===== verification/RelConvertOk.v ===== *)
(** * Converting relocation codes

    What the converter does to a file with section headers, that converting back
    with the reversed map restores the file, and that a shared object without
    section headers is never converted. *)
From S2P Require Import Prelude CString DynMem RelMap DynInfo RelConvert.

(** A counter of type [char]. *)
Notation s8 := (swrap 8).

Lemma s8_idem z : s8 (s8 z) = s8 z.
Proof. unfold swrap. change (2 ^ 8) with 256. change (2 ^ (8 - 1)) with 128. Z.div_mod_to_equations. lia. Qed.

Lemma s8_add a b : s8 (s8 a + b) = s8 (a + b).
Proof. unfold swrap. change (2 ^ 8) with 256. change (2 ^ (8 - 1)) with 128. Z.div_mod_to_equations. lia. Qed.

(** Files with the same bytes. *)
Definition same (m m' : memory) : Prop := msize m = msize m' /\ forall i, bytes m i = bytes m' i.

Lemma same_refl m : same m m.
Proof. split; reflexivity. Qed.

Lemma same_trans m1 m2 m3 : same m1 m2 -> same m2 m3 -> same m1 m3.
Proof. intros [H1 H2] [H3 H4]. split; [congruence|]. intros i. rewrite H2. apply H4. Qed.

#[export] Hint Resolve same_refl : core.

Lemma same_word m m' n a : same m m' -> word_at (bytes m) n a = word_at (bytes m') n a.
Proof. intros [_ H]. apply word_at_ext. intros i _. apply H. Qed.

Lemma same_put m m' n a v : same m m' -> same (put n a v m) (put n a v m').
Proof. intros [H1 H2]. split; [exact H1|]. intros i. cbn. unfold put_word. destruct (_ && _); [reflexivity|apply H2]. Qed.

Lemma same_in_memory m m' a n : same m m' -> in_memory m a n = in_memory m' a n.
Proof. intros [H _]. unfold in_memory. rewrite H. reflexivity. Qed.

Lemma io_bind_eq {A B} (m : io A) (k : A -> io B) f :
  (m ≫= k) f = match m f with (inr a, f) => k a f | (inl msg, f) => (inl msg, f) end.
Proof. reflexivity. Qed.

Lemma read_eq n msg f : read n msg f =
  if in_memory (contents f) (position f) n
  then (inr (MkMemory (fun i => bytes (contents f) (position f + i)) n), MkFd (contents f) (position f + n)) else (inl msg, f).
Proof. reflexivity. Qed.

(** ** One entry, and a list of words *)

(** The words at the positions [P], each converted in turn until a code is not in
    the table. *)
Fixpoint conv (e : bool) (t : hash_table) (P : list Z) (m : memory) : memory * bool :=
  match P with
  | [] => (m, true)
  | a :: P =>
      match new_info e t (word_at (bytes m) 4 a) with
      | Some v => conv e t P (put 4 a v m)
      | None => (m, false)
      end
  end.

(** Where [r_info] is in the entries of a section at [p]. *)
Fixpoint info_words (p entry_size : Z) (n : nat) : list Z :=
  match n with O => [] | S n => p + 4 :: info_words (p + entry_size) entry_size n end.

Lemma conv_same e t P m m' : same m m' ->
  same (fst (conv e t P m)) (fst (conv e t P m')) /\ snd (conv e t P m) = snd (conv e t P m').
Proof.
  revert m m'. induction P as [|a P IH]; intros m m' H; [split; [exact H|reflexivity]|].
  cbn [conv]. rewrite (same_word m m' 4 a H). destruct (new_info e t _); [|split; [exact H|reflexivity]].
  apply IH, same_put, H.
Qed.

Lemma conv_app e t P Q m : conv e t (P ++ Q) m = if snd (conv e t P m) then conv e t Q (fst (conv e t P m)) else conv e t P m.
Proof.
  revert m. induction P as [|a P IH]; intros m; [reflexivity|]. cbn [app conv].
  destruct (new_info e t _); [apply IH|reflexivity].
Qed.

Lemma patch_entry_conv e t es f : (es = 8 \/ es = 12) -> in_memory (contents f) (position f) es = true ->
  exists f', let a := position f + 4 in
    patch_entry e t es f = (if snd (conv e t [a] (contents f)) then inr () else inl "Error: unrecognized relocation code", f') /\
    same (contents f') (fst (conv e t [a] (contents f))) /\
    (snd (conv e t [a] (contents f)) = true -> position f' = position f + es).
Proof.
  intros Hes Hin. destruct f as [m p]. cbn [contents position] in *.
  assert (Hw : word_at (bytes (MkMemory (fun i => bytes m (p + i)) es)) 4 4 = word_at (bytes m) 4 (p + 4)).
  { cbn [bytes word_at]. rewrite !Z.add_assoc. reflexivity. }
  unfold patch_entry. rewrite io_bind_eq, read_eq. cbn [contents position]. rewrite Hin, Hw. cbn [conv].
  destruct (new_info e t (word_at (bytes m) 4 (p + 4))) as [v|]; cbn [fst snd].
  - rewrite io_bind_eq. unfold lseek_back, write. cbn [contents position set_info bytes msize]. eexists. split; [reflexivity|]. cbn [contents position set_info bytes msize]. apply in_memory_spec in Hin as [Hp Hs].
    split; [|intros _; cbn; lia]. split; [cbn; lia|]. intros i. cbn [bytes put contents].
    replace (p + es - es) with p by lia. unfold put_word.
    destruct (Z.leb_spec p i), (Z.ltb_spec i (p + es)); cbn [andb];
      destruct (Z.leb_spec (p + 4) i), (Z.ltb_spec i (p + 4 + Z.of_nat 4)); cbn [andb];
      destruct (Z.leb_spec 4 (i - p)), (Z.ltb_spec (i - p) (4 + Z.of_nat 4)); cbn [andb]; try lia; f_equal; lia.
  - eexists. split; [reflexivity|]. split; [apply same_refl|discriminate].
Qed.

Definition unrecognized : string := "Error: unrecognized relocation code".

Lemma conv_msize e t P m : msize (fst (conv e t P m)) = msize m.
Proof. revert m. induction P as [|a P IH]; intros m; cbn [conv]; [reflexivity|]. destruct (new_info e t _); [rewrite IH|]; reflexivity. Qed.

Lemma patch_entries_conv e t es n : (es = 8 \/ es = 12) -> forall f, 0 <= position f -> position f + es * Z.of_nat n <= msize (contents f) ->
  let r := conv e t (info_words (position f) es n) (contents f) in
  exists f', patch_entries e t es n f = (if snd r then inr () else inl unrecognized, f') /\ same (contents f') (fst r).
Proof.
  intros Hes. induction n as [|n IH]; intros f Hp Hs; cbn zeta; [exists f; split; [reflexivity|apply same_refl]|].
  destruct (patch_entry_conv e t es f Hes) as (f1 & E1 & Hf1 & Hp1); [apply in_memory_spec; split; [exact Hp|nia]|]. cbn zeta in *.
  cbn [info_words patch_entries]. rewrite io_bind_eq, E1.
  change (position f + 4 :: info_words (position f + es) es n) with ([position f + 4] ++ info_words (position f + es) es n).
  rewrite conv_app. destruct (snd (conv e t [position f + 4] (contents f))) eqn:Ec; cbn [negb].
  - rewrite <- (Hp1 eq_refl). specialize (Hp1 eq_refl).
    destruct (IH f1) as (f' & E & Hf'); [lia|destruct Hf1 as [Hm _]; rewrite Hm, conv_msize; nia|]. cbn zeta in *.
    destruct (conv_same e t (info_words (position f1) es n) _ _ Hf1) as [Hsame Hsnd].
    exists f'. rewrite E, Hsnd. split; [reflexivity|]. eapply same_trans; eassumption.
  - rewrite Ec. exists f1. split; [reflexivity|]. exact Hf1.
Qed.

(** ** The words, all at once *)

(** The words do not overlap. *)
Definition separate (a b : Z) : Prop := a + 4 <= b \/ b + 4 <= a.
Definition disjoint (P : list Z) : Prop := ForallOrdPairs separate P.

Definition outside (P : list Z) (i : Z) : Prop := Forall (fun a => ~ (a <= i < a + 4)) P.

Lemma put_word_other m a v b : separate a b -> word_at (bytes (put 4 a v m)) 4 b = word_at (bytes m) 4 b.
Proof.
  intros H. apply word_at_ext. intros i Hi. cbn. apply put_word_outside. unfold separate in H. lia.
Qed.

Lemma conv_outside e t P m i : outside P i -> bytes (fst (conv e t P m)) i = bytes m i.
Proof.
  intros H. revert m. induction H as [|a P Ha _ IH]; intros m; cbn [conv]; [reflexivity|].
  destruct (new_info e t _); [|reflexivity]. rewrite IH. cbn. apply put_word_outside. lia.
Qed.

Lemma conv_other e t P m b : Forall (fun a => separate a b) P -> word_at (bytes (fst (conv e t P m))) 4 b = word_at (bytes m) 4 b.
Proof.
  intros H. apply word_at_ext. intros i Hi. apply conv_outside. eapply Forall_impl; [exact H|].
  intros a Ha. unfold separate in Ha. lia.
Qed.

Lemma new_info_range e t w v : new_info e t w = Some v -> 0 <= v < 2 ^ 32.
Proof.
  unfold new_info. destruct (hash_get_value t _); cbn; [|discriminate]. intros [= <-]. apply convert_range.
  unfold ELF32_R_INFO. apply uwrap_range. lia.
Qed.

(** All codes are in the table: every word is replaced by its new value. *)
Lemma conv_all e t P m : disjoint P -> Forall (fun a => new_info e t (word_at (bytes m) 4 a) <> None) P ->
  snd (conv e t P m) = true /\
  forall a, a ∈ P -> Some (word_at (bytes (fst (conv e t P m))) 4 a) = new_info e t (word_at (bytes m) 4 a).
Proof.
  intros Hd. revert m. induction Hd as [|a P Ha Hd IH]; intros m Hk; [split; [reflexivity|intros a Hin; inversion Hin]|].
  apply Forall_cons in Hk as [Hka Hk]. cbn [conv]. destruct (new_info e t (word_at (bytes m) 4 a)) as [v|] eqn:Ev; [|congruence].
  assert (Hother : forall b, b ∈ P -> word_at (bytes (put 4 a v m)) 4 b = word_at (bytes m) 4 b).
  { intros b Hb. apply put_word_other. rewrite Forall_forall in Ha. apply Ha, Hb. }
  destruct (IH (put 4 a v m)) as [Hsnd Hw].
  { rewrite Forall_forall in Hk |- *. intros b Hb. rewrite Hother by exact Hb. apply Hk, Hb. }
  split; [exact Hsnd|]. intros b Hb. apply elem_of_cons in Hb as [->|Hb].
  - rewrite conv_other.
    + cbn [put bytes]. rewrite word_at_put. rewrite Ev. f_equal. apply Z.mod_small. change (8 * Z.of_nat 4) with 32.
      eapply new_info_range. eassumption.
    + eapply Forall_impl; [exact Ha|]. unfold separate. intros x Hx. lia.
  - rewrite Hw by exact Hb. rewrite Hother by exact Hb. reflexivity.
Qed.

(** Some code is not in the table: the conversion stops. *)
Lemma conv_stops e t P m : disjoint P -> Exists (fun a => new_info e t (word_at (bytes m) 4 a) = None) P ->
  snd (conv e t P m) = false.
Proof.
  intros Hd. revert m. induction Hd as [|a P Ha Hd IH]; intros m Hx; [inversion Hx|]. cbn [conv].
  destruct (new_info e t (word_at (bytes m) 4 a)) as [v|] eqn:Ev; [|reflexivity].
  apply IH. apply Exists_cons in Hx as [Hx|Hx]; [congruence|]. apply Exists_exists in Hx as (b & Hb & Hx).
  apply Exists_exists. exists b. split; [exact Hb|]. rewrite put_word_other; [exact Hx|].
  rewrite Forall_forall in Ha. apply Ha, Hb.
Qed.

(** ** The sections of a file *)

Section file.
Context (e : bool) (t : hash_table).

Lemma word_at_shift f p n a : word_at (fun i => f (p + i)) n a = word_at f n (p + a).
Proof. revert a. induction n as [|n IH]; intros a; cbn [word_at]; [reflexivity|]. rewrite IH, Z.add_assoc. reflexivity. Qed.

Lemma get_buffer n o m p s : get e n o (MkMemory (fun i => bytes m (p + i)) s) = value_at e n (p + o) m.
Proof. unfold get, value_at. cbn [bytes]. rewrite word_at_shift. reflexivity. Qed.

Variables (shoff shsize : Z).

Definition header (i : Z) : Z := u32 (shoff + u32 (shsize * i)).

(** What the header of section [i] says. *)
Definition is_reloc (m : memory) (i : Z) : bool :=
  (value_at e 4 (header i + 4) m =? SHT_REL) || (value_at e 4 (header i + 4) m =? SHT_RELA).
Definition entry_size (m : memory) (i : Z) : Z := if value_at e 4 (header i + 4) m =? SHT_REL then sizeof_Rel else sizeof_Rela.
Definition sh_offset (m : memory) (i : Z) : Z := value_at e 4 (header i + 16) m.
Definition entries (m : memory) (i : Z) : nat := Z.to_nat (value_at e 4 (header i + 20) m / entry_size m i).

(** The words of the relocations of section [i], and of all from [i] on. *)
Definition section_words (m : memory) (i : Z) : list Z :=
  if is_reloc m i then info_words (sh_offset m i) (entry_size m i) (entries m i) else [].
Fixpoint reloc_words (m : memory) (n : nat) (i : Z) : list Z :=
  match n with O => [] | S n => section_words m i ++ reloc_words m n (i + 1) end.
Fixpoint reloc_count (m : memory) (n : nat) (i : Z) : Z :=
  match n with O => 0 | S n => (if is_reloc m i then 1 else 0) + reloc_count m n (i + 1) end.

(** The headers and the sections of relocations lie in the file. *)
Definition in_file (m : memory) (n : nat) (i : Z) : Prop :=
  forall j, i <= j < i + Z.of_nat n -> in_memory m (header j) sizeof_Shdr = true /\
    (is_reloc m j = true -> 0 <= sh_offset m j /\ sh_offset m j + entry_size m j * Z.of_nat (entries m j) <= msize m).

(** The header [j] is the same in both files. *)
Definition header_kept (m m' : memory) (j : Z) : Prop := forall i, header j <= i < header j + sizeof_Shdr -> bytes m i = bytes m' i.

Lemma kept_value m m' j o n : header_kept m m' j -> 0 <= o -> o + Z.of_nat n <= sizeof_Shdr ->
  value_at e n (header j + o) m = value_at e n (header j + o) m'.
Proof. intros H Ho Hn. apply value_at_ext. intros i Hi. apply H. lia. Qed.

(** Converting words away from a header keeps it. *)
Lemma conv_header P m j : Forall (fun a => a + 4 <= header j \/ header j + sizeof_Shdr <= a) P ->
  header_kept (fst (conv e t P m)) m j.
Proof.
  intros H i Hi. apply conv_outside. eapply Forall_impl; [exact H|]. intros a Ha. cbn beta in Ha. lia.
Qed.

Lemma section_count m n i : 0 <= reloc_count m n i.
Proof. revert i. induction n as [|n IH]; intros i; cbn [reloc_count]; [lia|]. specialize (IH (i + 1)). destruct (is_reloc m i); lia. Qed.

(** A section whose header is that of [m]. *)
Lemma patch_section_conv m i f : is_reloc m i = true -> 0 <= sh_offset m i ->
  sh_offset m i + entry_size m i * Z.of_nat (entries m i) <= msize (contents f) -> position f = sh_offset m i ->
  exists f', patch_relocation_section (value_at e 4 (header i + 20) m) (if value_at e 4 (header i + 4) m =? SHT_REL then DT_REL else DT_RELA) t e f
    = (if snd (conv e t (section_words m i) (contents f)) then inr () else inl unrecognized, f') /\
    same (contents f') (fst (conv e t (section_words m i) (contents f))).
Proof.
  intros Er Ho Hs Hp. unfold patch_relocation_section, section_words. rewrite Er.
  assert (Ees : (if (if value_at e 4 (header i + 4) m =? SHT_REL then DT_REL else DT_RELA) =? DT_REL then sizeof_Rel else sizeof_Rela) = entry_size m i).
  { unfold entry_size. destruct (_ =? SHT_REL); reflexivity. }
  rewrite Ees. fold (entries m i). rewrite <- Hp.
  apply patch_entries_conv; [|lia|lia]. unfold entry_size, sizeof_Rel, sizeof_Rela. destruct (_ =? SHT_REL); auto.
Qed.

(** The loop over the sections converts their words in order; the headers are
    those of [m]. *)
Lemma patch_sections_conv m n : forall i k f,
  in_file m n i -> (forall j a, i <= j < i + Z.of_nat n -> a ∈ reloc_words m n i -> a + 4 <= header j \/ header j + sizeof_Shdr <= a) ->
  msize (contents f) = msize m -> (forall j, i <= j < i + Z.of_nat n -> header_kept (contents f) m j) ->
  let r := conv e t (reloc_words m n i) (contents f) in
  exists f' k', patch_sections e t shoff shsize n i k f = (if snd r then inr k' else inl unrecognized, f') /\
    same (contents f') (fst r) /\ (k = s8 k -> k' = s8 (k + reloc_count m n i)).
Proof.
  induction n as [|n IH]; intros i k f Hin Hfar Hsize Hkept; cbn zeta.
  { exists f, k. cbn. rewrite Z.add_0_r. repeat split; auto. }
  destruct (Hin i ltac:(lia)) as [Hh Hrel]. pose proof (Hkept i ltac:(lia)) as Hki.
  assert (Hrest : in_file m n (i + 1)) by (intros j Hj; apply Hin; lia).
  assert (Hfar' : forall j a, i + 1 <= j < i + 1 + Z.of_nat n -> a ∈ reloc_words m n (i + 1) -> a + 4 <= header j \/ header j + sizeof_Shdr <= a).
  { intros j a Hj Ha. apply Hfar; [lia|]. cbn [reloc_words]. apply elem_of_app. right. exact Ha. }
  cbn [patch_sections]. rewrite io_bind_eq. unfold lseek at 1. fold (header i).
  rewrite io_bind_eq, read_eq. cbn [contents position]. unfold in_memory in *. rewrite Hsize, Hh. rewrite !get_buffer.
  rewrite (kept_value _ m i 4 4 Hki), (kept_value _ m i 16 4 Hki), (kept_value _ m i 20 4 Hki) by (cbn; unfold sizeof_Shdr; lia).
  fold (is_reloc m i). fold (sh_offset m i). cbn [reloc_words reloc_count]. rewrite conv_app. destruct (is_reloc m i) eqn:Er.
  - destruct (Hrel eq_refl) as [Ho Hs]. rewrite io_bind_eq. unfold lseek. rewrite io_bind_eq. cbn [contents position].
    destruct (patch_section_conv m i (MkFd (contents f) (sh_offset m i)) Er Ho) as (f1 & E1 & Hf1); [cbn; rewrite Hsize; exact Hs|reflexivity|].
    cbn [contents] in E1, Hf1. rewrite E1. destruct (snd (conv e t (section_words m i) (contents f))) eqn:Ec.
    + destruct (IH (i + 1) (s8 (k + 1)) f1 Hrest Hfar') as (f' & k' & E & Hsame & Hk).
      * destruct Hf1 as [Hm _]. rewrite Hm, conv_msize. exact Hsize.
      * intros j Hj x Hx. destruct Hf1 as [_ Hb]. rewrite Hb. transitivity (bytes (contents f) x); [|apply (Hkept j ltac:(lia) x Hx)].
        refine (conv_header (section_words m i) (contents f) j _ x Hx). apply Forall_forall. intros a Ha. apply Hfar; [lia|].
        cbn [reloc_words]. apply elem_of_app. left. exact Ha.
      * cbn zeta in E, Hsame. destruct (conv_same e t (reloc_words m n (i + 1)) _ _ Hf1) as [Hs1 Hs2].
        exists f', k'. rewrite E, Hs2. split; [reflexivity|]. split; [eapply same_trans; eassumption|].
        intros _. rewrite Hk by (symmetry; apply s8_idem). rewrite s8_add. f_equal. lia.
    + exists f1, (s8 (k + (1 + reloc_count m n (i + 1)))). rewrite Ec. split; [reflexivity|]. split; [exact Hf1|auto].
  - unfold section_words. rewrite Er. cbn [conv snd fst app].
    destruct (IH (i + 1) k (MkFd (contents f) (header i + sizeof_Shdr)) Hrest Hfar') as (f' & k' & E & Hsame & Hk);
      [exact Hsize|intros j Hj; apply (Hkept j); lia|].
    exists f', k'. rewrite E. split; [reflexivity|]. split; [exact Hsame|exact Hk].
Qed.
End file.

(** ** The whole file *)

Definition match_endian (m : memory) : bool := endian_of (bytes m 5).
Definition file_type (m : memory) : Z := s16 (value_at (match_endian m) 2 16 m).
Definition shoff (m : memory) : Z := s32 (value_at (match_endian m) 4 32 m).
Definition shsize (m : memory) : Z := s16 (value_at (match_endian m) 2 46 m).
Definition shnum (m : memory) : nat := Z.to_nat (value_at (match_endian m) 2 48 m).

(** An ELF file of a type that is converted. *)
Record elf_header (m : memory) : Prop := {
  eh_size : sizeof_Ehdr <= msize m;
  eh_magic : bytes m <$> [0; 1; 2; 3] = ELFMAG;
  eh_type : file_type m = ET_EXEC \/ file_type m = ET_REL \/ file_type m = ET_DYN
}.

(** Where the words with the codes of the relocations are. *)
Definition file_words (m : memory) : list Z := reloc_words (match_endian m) (shoff m) (shsize m) m (shnum m) 0.

(** Its section headers and its relocations lie in the file and do not overlap. *)
Record well_formed (m : memory) : Prop := {
  wf_header : elf_header m;
  wf_shoff : shoff m <> 0;
  wf_shsize : shsize m <> 0;
  wf_in_file : in_file (match_endian m) (shoff m) (shsize m) m (shnum m) 0;
  wf_far : forall j a, 0 <= j < Z.of_nat (shnum m) -> a ∈ file_words m ->
    a + 4 <= header (shoff m) (shsize m) j \/ header (shoff m) (shsize m) j + sizeof_Shdr <= a;
  wf_disjoint : disjoint (file_words m)
}.

(** What [process_elf] does with a header. *)
Lemma process_elf_header t m : elf_header m ->
  process_elf t (MkFd m 0) =
  if (shoff m =? 0) || (shsize m =? 0)
  then patch_stripped (match_endian m) t (file_type m) (MkMemory (fun i => bytes m (0 + i)) sizeof_Ehdr) (MkFd m sizeof_Ehdr)
  else (sections_patched ← patch_sections (match_endian m) t (shoff m) (shsize m) (shnum m) 0 0;
        mret (if sections_patched =? 0 then NothingFound else Patched sections_patched)) (MkFd m sizeof_Ehdr).
Proof.
  intros [Hs Hm Ht]. unfold process_elf. rewrite io_bind_eq, read_eq. cbn [contents position].
  assert (in_memory m 0 sizeof_Ehdr = true) as -> by (apply in_memory_spec; lia).
  change (bytes (MkMemory (fun i => bytes m (0 + i)) sizeof_Ehdr) <$> [0; 1; 2; 3]) with (bytes m <$> [0; 1; 2; 3]).
  rewrite bool_decide_eq_true_2 by exact Hm. cbn [negb]. rewrite !get_buffer. rewrite !Z.add_0_l.
  change (bytes (MkMemory (fun i => bytes m (0 + i)) sizeof_Ehdr) 5) with (bytes m 5).
  fold (match_endian m). fold (file_type m) (shoff m) (shsize m) (shnum m).
  assert ((file_type m =? ET_EXEC) || (file_type m =? ET_REL) || (file_type m =? ET_DYN) = true) as ->.
  { destruct Ht as [-> |[-> | ->]]; reflexivity. }
  cbn [negb]. destruct ((shoff m =? 0) || (shsize m =? 0)); reflexivity.
Qed.

Definition report_of (m : memory) : report :=
  let n := s8 (reloc_count (match_endian m) (shoff m) (shsize m) m (shnum m) 0) in if n =? 0 then NothingFound else Patched n.

Lemma process_elf_conv t m : well_formed m ->
  let r := conv (match_endian m) t (file_words m) m in
  exists f', process_elf t (MkFd m 0) = (if snd r then inr (report_of m) else inl unrecognized, f') /\ same (contents f') (fst r).
Proof.
  intros [Hh Hn1 Hn2 Hin Hfar _]. cbn zeta. rewrite (process_elf_header t m Hh).
  apply Z.eqb_neq in Hn1, Hn2. rewrite Hn1, Hn2. cbn [orb]. rewrite io_bind_eq.
  destruct (patch_sections_conv (match_endian m) t (shoff m) (shsize m) m (shnum m) 0 0 (MkFd m sizeof_Ehdr) Hin)
    as (f' & k' & E & Hsame & Hk); [intros j a Hj; apply Hfar; lia|reflexivity|intros j Hj i Hi; reflexivity|].
  cbn zeta in E, Hsame. cbn [contents] in E, Hsame. fold (file_words m) in E, Hsame. rewrite E. exists f'.
  split; [|exact Hsame]. destruct (snd (conv (match_endian m) t (file_words m) m)); [|reflexivity].
  rewrite (Hk eq_refl). reflexivity.
Qed.

(** ** Codes and symbols *)

Lemma info_split info : 0 <= info < 2 ^ 32 ->
  0 <= ELF32_R_SYM info < 2 ^ 24 /\ 0 <= ELF32_R_TYPE info < 256 /\ ELF32_R_INFO (ELF32_R_SYM info) (ELF32_R_TYPE info) = info.
Proof.
  intros H. unfold ELF32_R_SYM, ELF32_R_TYPE, ELF32_R_INFO, uwrap. change 0xff with (Z.ones 8).
  rewrite !Z.land_ones, Z.shiftl_mul_pow2, Z.shiftr_div_pow2 by lia.
  change (2 ^ 8) with 256. change (2 ^ 24) with 16777216. change (2 ^ 32) with 4294967296 in *. Z.div_mod_to_equations. lia.
Qed.

Lemma info_join sym code : 0 <= sym < 2 ^ 24 -> 0 <= code < 256 ->
  0 <= ELF32_R_INFO sym code < 2 ^ 32 /\ ELF32_R_SYM (ELF32_R_INFO sym code) = sym /\ ELF32_R_TYPE (ELF32_R_INFO sym code) = code.
Proof.
  intros Hs Hc. unfold ELF32_R_SYM, ELF32_R_TYPE, ELF32_R_INFO, uwrap. change 0xff with (Z.ones 8).
  rewrite !Z.land_ones, Z.shiftl_mul_pow2, Z.shiftr_div_pow2 by lia.
  change (2 ^ 8) with 256. change (2 ^ 24) with 16777216 in *. change (2 ^ 32) with 4294967296 in *. Z.div_mod_to_equations. lia.
Qed.

(** The file holds bytes. *)
Definition byte_file (m : memory) : Prop := forall i, 0 <= bytes m i < 256.

Lemma word_at_S m n a : byte_file m -> word_at (bytes m) (S n) a = bytes m a + 256 * word_at (bytes m) n (a + 1).
Proof.
  intros Hb. cbn [word_at]. specialize (Hb a). assert (E : bytes m a = bytes m a mod 256) by (symmetry; apply Z.mod_small; exact Hb).
  rewrite E at 1. pose proof (disjoint_byte (word_at (bytes m) n (a + 1)) (bytes m a)) as Hd.
  rewrite Z.lor_comm, <- Z.lxor_lor, <- Z.add_nocarry_lxor by exact Hd. rewrite <- E, Z.shiftl_mul_pow2 by lia. lia.
Qed.

Lemma word_at_range m n a : byte_file m -> 0 <= word_at (bytes m) n a < 256 ^ Z.of_nat n.
Proof.
  intros Hb. revert a. induction n as [|n IH]; intros a; [cbn; lia|]. rewrite word_at_S by exact Hb.
  specialize (IH (a + 1)). specialize (Hb a). rewrite Nat2Z.inj_succ, Z.pow_succ_r by lia. lia.
Qed.

Lemma word_at_byte m n a i : byte_file m -> a <= i < a + Z.of_nat n -> byte_of (word_at (bytes m) n a) (i - a) = bytes m i.
Proof.
  intros Hb. revert a. induction n as [|n IH]; intros a Hi; [lia|]. rewrite byte_of_div by lia.
  pose proof (Hb a) as Ha. rewrite word_at_S by exact Hb. destruct (Z.eq_dec i a) as [->|Hne].
  - rewrite Z.sub_diag. change (2 ^ (8 * 0)) with 1. rewrite Z.div_1_r, Z.mul_comm, Z.mod_add by lia. apply Z.mod_small. exact Ha.
  - rewrite <- (IH (a + 1)), byte_of_div by lia.
    replace (8 * (i - a)) with (8 + 8 * (i - (a + 1))) by lia. rewrite Z.pow_add_r by lia. change (2 ^ 8) with 256.
    rewrite <- Z.div_div by lia. rewrite (Z.mul_comm 256), Z.div_add, (Z.div_small (bytes m a)) by lia. reflexivity.
Qed.

Lemma value_range m a e : byte_file m -> 0 <= value_at e 4 a m < 2 ^ 32.
Proof. intros Hb. apply convert_range. apply (word_at_range m 4 a Hb). Qed.

Lemma conv_bytes e t P m : byte_file m -> byte_file (fst (conv e t P m)).
Proof.
  revert m. induction P as [|a P IH]; intros m Hb; cbn [conv]; [exact Hb|]. destruct (new_info e t _) as [v|]; [|exact Hb].
  apply IH. intros i. cbn. unfold put_word. destruct (_ && _); [apply byte_of_byte|apply Hb].
Qed.

(** The new word in terms of the values. *)
Lemma new_info_value e t m a v : new_info e t (word_at (bytes m) 4 a) = Some v ->
  exists code, hash_get_value t (ELF32_R_TYPE (value_at e 4 a m)) = Some code /\
    convert_endian 4 v e = ELF32_R_INFO (ELF32_R_SYM (value_at e 4 a m)) code.
Proof.
  unfold new_info. fold (value_at e 4 a m). destruct (hash_get_value t _) as [code|]; cbn; [|discriminate].
  intros [= <-]. exists code. split; [reflexivity|]. apply convert_involutive. unfold ELF32_R_INFO. apply uwrap_range. lia.
Qed.

(** The code of a relocation is in the table. *)
Definition known (t : hash_table) (m : memory) (a : Z) : Prop := hash_get_value t (ELF32_R_TYPE (value_at (match_endian m) 4 a m)) <> None.

Lemma known_new_info t m a : known t m a <-> new_info (match_endian m) t (word_at (bytes m) 4 a) <> None.
Proof. unfold known, new_info, value_at. destruct (hash_get_value t _); cbn; split; congruence. Qed.

(** On a well-formed ELF file with section headers: when every relocation has
    a code of the map, the run succeeds, every relocation gets the code the map
    gives and keeps its symbol, and no other byte of the file changes; when some
    relocation has no such code the run is an error. *)
Theorem relocation_codes_converted t m : well_formed m ->
  (Forall (known t m) (file_words m) ->
   exists f', process_elf t (MkFd m 0) = (inr (report_of m), f') /\ msize (contents f') = msize m /\
     (forall a, a ∈ file_words m ->
        exists code, hash_get_value t (ELF32_R_TYPE (value_at (match_endian m) 4 a m)) = Some code /\
          value_at (match_endian m) 4 a (contents f') = ELF32_R_INFO (ELF32_R_SYM (value_at (match_endian m) 4 a m)) code) /\
     (forall i, outside (file_words m) i -> bytes (contents f') i = bytes m i)) /\
  (Exists (fun a => ~ known t m a) (file_words m) -> exists f', process_elf t (MkFd m 0) = (inl unrecognized, f')).
Proof.
  intros Hwf. destruct (process_elf_conv t m Hwf) as (f' & E & Hsame). cbn zeta in *. pose proof (wf_disjoint m Hwf) as Hd. split.
  - intros Hk. destruct (conv_all (match_endian m) t (file_words m) m Hd) as [Hsnd Hw].
    { eapply Forall_impl; [exact Hk|]. intros a Ha. apply known_new_info, Ha. }
    exists f'. rewrite Hsnd in E. split; [exact E|]. split; [destruct Hsame as [-> _]; apply conv_msize|]. split.
    + intros a Ha. destruct (new_info_value (match_endian m) t m a _ (eq_sym (Hw a Ha))) as (code & Hc & Hv).
      exists code. split; [exact Hc|]. rewrite <- Hv. unfold value_at. f_equal. apply same_word. exact Hsame.
    + intros i Hi. destruct Hsame as [_ ->]. apply conv_outside. exact Hi.
  - intros Hx. rewrite (conv_stops (match_endian m) t (file_words m) m Hd) in E; [exists f'; exact E|].
    eapply Exists_impl; [exact Hx|]. intros a Ha. destruct (new_info _ _ _) eqn:En; [|reflexivity].
    exfalso. apply Ha, known_new_info. congruence.
Qed.

(** ** Back again *)

(** Converting with [t] and then with [t'] gives the codes back. *)
Definition inverse (t t' : hash_table) : Prop :=
  forall code v, hash_get_value t code = Some v -> 0 <= v < 256 /\ hash_get_value t' v = Some code.

Lemma new_info_back e t t' w v : inverse t t' -> 0 <= w < 2 ^ 32 -> new_info e t w = Some v -> new_info e t' v = Some w.
Proof.
  intros Hinv Hw Hv. unfold new_info in *. set (info := convert_endian 4 w e) in *.
  assert (Hinfo : 0 <= info < 2 ^ 32) by (apply convert_range; exact Hw).
  destruct (info_split info Hinfo) as (Hs & Hc & Hj).
  destruct (hash_get_value t (ELF32_R_TYPE info)) as [code|] eqn:E; [|discriminate]. injection Hv as <-.
  destruct (Hinv _ _ E) as [Hcode Hback]. destruct (info_join (ELF32_R_SYM info) code Hs Hcode) as (Hr & H1 & H2).
  rewrite convert_involutive by exact Hr. rewrite H1, H2, Hback. cbn. rewrite Hj. unfold info. rewrite convert_involutive by exact Hw.
  reflexivity.
Qed.

Lemma conv_back e t t' P m : byte_file m -> disjoint P -> inverse t t' ->
  Forall (fun a => new_info e t (word_at (bytes m) 4 a) <> None) P ->
  snd (conv e t' P (fst (conv e t P m))) = true /\ same (fst (conv e t' P (fst (conv e t P m)))) m.
Proof.
  intros Hb Hd Hinv Hk. destruct (conv_all e t P m Hd Hk) as [_ Hw]. set (m1 := fst (conv e t P m)) in *.
  assert (Hback : forall a, a ∈ P -> new_info e t' (word_at (bytes m1) 4 a) = Some (word_at (bytes m) 4 a)).
  { intros a Ha. apply (new_info_back e t t'); [exact Hinv|apply (word_at_range m 4 a Hb)|]. symmetry. apply Hw, Ha. }
  destruct (conv_all e t' P m1 Hd) as [Hsnd Hw'].
  { apply Forall_forall. intros a Ha. rewrite Hback by exact Ha. discriminate. }
  split; [exact Hsnd|]. split; [unfold m1; rewrite !conv_msize; reflexivity|]. intros i.
  destruct (decide (Exists (fun a => a <= i < a + 4) P)) as [Hx|Hx].
  - apply Exists_exists in Hx as (a & Ha & Hi). specialize (Hw' a Ha). rewrite Hback in Hw' by exact Ha. apply (inj Some) in Hw'.
    rewrite <- (word_at_byte m 4 a i Hb) by lia. rewrite <- Hw'. symmetry. apply word_at_byte; [|lia]. unfold m1. apply conv_bytes, conv_bytes, Hb.
  - assert (Ho : outside P i) by (apply Forall_forall; intros a Ha Hi; apply Hx, Exists_exists; eauto).
    unfold m1. rewrite !conv_outside by exact Ho. reflexivity.
Qed.

(** A file whose words are away from the file header as well. *)
Definition clear_header (m : memory) : Prop := Forall (fun a => sizeof_Ehdr <= a) (file_words m).

Lemma reloc_words_kept e so ss m m' n i : (forall j, i <= j < i + Z.of_nat n -> header_kept so ss m' m j) ->
  reloc_words e so ss m' n i = reloc_words e so ss m n i /\ reloc_count e so ss m' n i = reloc_count e so ss m n i.
Proof.
  revert i. induction n as [|n IH]; intros i H; [split; reflexivity|]. cbn [reloc_words reloc_count].
  destruct (IH (i + 1)) as [-> ->]; [intros j Hj; apply H; lia|]. pose proof (H i ltac:(lia)) as Hi.
  unfold section_words, is_reloc, entries, entry_size, sh_offset.
  rewrite (kept_value e so ss m' m i 4 4 Hi), (kept_value e so ss m' m i 16 4 Hi), (kept_value e so ss m' m i 20 4 Hi) by (cbn; unfold sizeof_Shdr; lia).
  split; reflexivity.
Qed.

(** A file that differs in the words of its relocations only. *)
Record converted (m m' : memory) : Prop := {
  cv_size : msize m' = msize m;
  cv_bytes : forall i, outside (file_words m) i -> bytes m' i = bytes m i
}.

Lemma converted_header m m' : clear_header m -> converted m m' ->
  match_endian m' = match_endian m /\ file_type m' = file_type m /\ shoff m' = shoff m /\ shsize m' = shsize m /\ shnum m' = shnum m /\
  (bytes m' <$> [0; 1; 2; 3]) = (bytes m <$> [0; 1; 2; 3]).
Proof.
  intros Hc [Hs Hb]. assert (Hh : forall i, 0 <= i < 52 -> bytes m' i = bytes m i).
  { intros i Hi. apply Hb. eapply Forall_impl; [exact Hc|]. intros a Ha. unfold sizeof_Ehdr in Ha. cbn beta in Ha. lia. }
  assert (He : match_endian m' = match_endian m) by (unfold match_endian; rewrite Hh by lia; reflexivity).
  assert (Hv : forall n a, 0 <= a -> a + Z.of_nat n <= 52 -> value_at (match_endian m) n a m' = value_at (match_endian m) n a m).
  { intros n a Ha Hn. apply value_at_ext. intros i Hi. apply Hh. lia. }
  unfold file_type, shoff, shsize, shnum. rewrite He, !Hv by lia. cbn. rewrite !Hh by lia. repeat split.
Qed.

Lemma converted_well_formed m m' : well_formed m -> clear_header m -> converted m m' ->
  well_formed m' /\ file_words m' = file_words m /\ report_of m' = report_of m /\ match_endian m' = match_endian m.
Proof.
  intros [[Hsz Hmg Hty] Hn1 Hn2 Hin Hfar Hd] Hc Hcv. destruct (converted_header m m' Hc Hcv) as (Ee & Et & Eo & Es & En & Em).
  destruct Hcv as [Hsize Hb].
  assert (Hkept : forall j, 0 <= j < 0 + Z.of_nat (shnum m) -> header_kept (shoff m) (shsize m) m' m j).
  { intros j Hj i Hi. apply Hb. apply Forall_forall. intros a Ha. specialize (Hfar j a ltac:(lia) Ha). lia. }
  destruct (reloc_words_kept (match_endian m) _ _ _ _ _ _ Hkept) as [Ew Ec].
  assert (Ewords : file_words m' = file_words m) by (unfold file_words; rewrite Ee, Eo, Es, En; exact Ew).
  split; [|split; [exact Ewords|split; [unfold report_of; rewrite Ee, Eo, Es, En, Ec; reflexivity|exact Ee]]].
  constructor; rewrite ?Ewords, ?Ee, ?Eo, ?Es, ?En; [|assumption..| |assumption|assumption].
  - constructor; [lia|congruence|rewrite Et; exact Hty].
  - intros j Hj. destruct (Hin j Hj) as [H1 H2]. pose proof (Hkept j Hj) as Hk.
    split; [unfold in_memory in *; rewrite Hsize; exact H1|].
    assert (Ev : forall o, 0 <= o <= 36 -> value_at (match_endian m) 4 (header (shoff m) (shsize m) j + o) m' = value_at (match_endian m) 4 (header (shoff m) (shsize m) j + o) m).
    { intros o Ho. apply (kept_value _ (shoff m) (shsize m)); [exact Hk|lia|cbn; unfold sizeof_Shdr; lia]. }
    unfold is_reloc, entries, entry_size, sh_offset in *. rewrite !Ev by lia. rewrite Hsize. exact H2.
Qed.

(** Converting a file with a map and then with its inverse. *)
Lemma process_back t t' m : well_formed m -> byte_file m -> clear_header m -> inverse t t' -> Forall (known t m) (file_words m) ->
  exists f1 f2, process_elf t (MkFd m 0) = (inr (report_of m), f1) /\
    process_elf t' (MkFd (contents f1) 0) = (inr (report_of m), f2) /\ same (contents f2) m.
Proof.
  intros Hwf Hb Hc Hinv Hk. destruct (process_elf_conv t m Hwf) as (f1 & E1 & Hs1). cbn zeta in *.
  assert (Hk' : Forall (fun a => new_info (match_endian m) t (word_at (bytes m) 4 a) <> None) (file_words m)).
  { eapply Forall_impl; [exact Hk|]. intros a Ha. apply known_new_info, Ha. }
  destruct (conv_back (match_endian m) t t' (file_words m) m Hb (wf_disjoint m Hwf) Hinv Hk') as [Hsnd2 Hback].
  destruct (conv_all (match_endian m) t (file_words m) m (wf_disjoint m Hwf) Hk') as [Hsnd1 _]. rewrite Hsnd1 in E1.
  assert (Hcv : converted m (contents f1)).
  { destruct Hs1 as [H1 H2]. constructor; [rewrite H1; apply conv_msize|]. intros i Hi. rewrite H2. apply conv_outside. exact Hi. }
  destruct (converted_well_formed m (contents f1) Hwf Hc Hcv) as (Hwf1 & Ew & Er & Ee).
  destruct (process_elf_conv t' (contents f1) Hwf1) as (f2 & E2 & Hs2). cbn zeta in *. rewrite Ew, Er, Ee in *.
  destruct (conv_same (match_endian m) t' (file_words m) _ _ Hs1) as [Hs3 Hs4]. rewrite Hs4, Hsnd2 in E2.
  exists f1, f2. split; [exact E1|]. split; [exact E2|]. eapply same_trans; [exact Hs2|]. eapply same_trans; [exact Hs3|exact Hback].
Qed.

(** ** Reversed maps *)

Definition swap (d : Z * Z) : Z * Z := (d.2, d.1).

Lemma add_all_entry reverse_mode defs t :
  add_all (map_entry reverse_mode) defs t = add_all hash_add_value (if reverse_mode then map swap defs else defs) t.
Proof.
  revert t. induction defs as [|d defs IH]; intros t; [destruct reverse_mode; reflexivity|].
  unfold add_all in *. cbn [fold_left]. rewrite IH. destruct reverse_mode; reflexivity.
Qed.

(** When no code is defined twice, the table gives the definitions. *)
Lemma last_definition_in defs code v : NoDup (map fst defs) -> last_definition code defs = Some v <-> (code, v) ∈ defs.
Proof.
  unfold last_definition. induction defs as [|[c w] defs IH] using rev_ind; intros Hd.
  - split; [discriminate|intros H; inversion H].
  - rewrite fold_left_app. cbn [fold_left fst snd]. rewrite map_app in Hd. cbn [map fst] in Hd.
    apply NoDup_app in Hd as (Hd & Hne & _). specialize (IH Hd). rewrite elem_of_app, list_elem_of_singleton.
    destruct (Z.eqb_spec c code) as [->|Hcode].
    + split; [intros [= <-]; right; reflexivity|]. intros [H|[= <-]]; [|reflexivity].
      exfalso. apply (Hne code); [|apply list_elem_of_singleton; reflexivity]. apply list_elem_of_In, in_map_iff. exists (code, v).
      split; [reflexivity|apply list_elem_of_In; exact H].
    + rewrite IH. split; [intros H; left; exact H|]. intros [H|[= -> _]]; [exact H|congruence].
Qed.

(** A map whose definitions can be reversed: one code for one code, of a byte. *)
Record reversible (defs : list (Z * Z)) : Prop := {
  rv_codes : NoDup (map fst defs);
  rv_values : NoDup (map snd defs);
  rv_bytes : Forall (fun d => 0 <= d.2 < 256) defs
}.

Definition table_of (reverse_mode : bool) (defs : list (Z * Z)) : hash_table := add_all (map_entry reverse_mode) defs hash_initialize.

Lemma table_get reverse_mode defs code : hash_get_value (table_of reverse_mode defs) code =
  last_definition code (if reverse_mode then map swap defs else defs).
Proof.
  unfold table_of. rewrite add_all_entry, add_all_get by reflexivity. rewrite hash_get_initialize. destruct (last_definition _ _); reflexivity.
Qed.

Lemma reversible_inverse defs : reversible defs -> inverse (table_of false defs) (table_of true defs).
Proof.
  intros [H1 H2 H3] code v Hv. rewrite table_get in *. apply (last_definition_in defs code v H1) in Hv. split.
  - rewrite Forall_forall in H3. apply (H3 _ Hv).
  - apply last_definition_in.
    + rewrite map_map. exact H2.
    + apply list_elem_of_In, in_map_iff. exists (code, v). split; [reflexivity|apply list_elem_of_In; exact Hv].
Qed.

(** The program up to the file. *)
Lemma convert_main_map maps files reverse_mode option map_name elf_name s defs m :
  process_parameters [option; map_name; elf_name] = Some reverse_mode -> maps map_name = Some s -> map_file s defs ->
  files elf_name = Some m ->
  convert_main maps files [option; map_name; elf_name] =
  let '(result, f) := process_elf (table_of reverse_mode defs) (MkFd m 0) in
  Some (Ret (match result with inr r => Some r | inl _ => None end, Some (contents f))).
Proof.
  intros Hp Hmap Hdefs Hfile. unfold convert_main. rewrite Hp, Hmap. unfold convert_map.
  rewrite (process_complete (map_entry reverse_mode) s defs Hdefs (map_fuel s) hash_initialize) by (unfold map_fuel; lia).
  cbn [mbind run_bind]. rewrite Hfile. fold (table_of reverse_mode defs). destruct (process_elf _ _). reflexivity.
Qed.

(** C33. Converting a well-formed ELF file (its section headers and relocations lie
    in the file, apart from each other and from the file header) with "-m" and a
    map of one code to one code, and then with "-r" and the same map: when the map
    has every relocation code of the file, both runs end with success and give
    the file back byte for byte; when it lacks one, the first run already ends
    with an error. *)
Theorem conversion_undone maps files map_name elf_name s defs m :
  maps map_name = Some s -> map_file s defs -> reversible defs ->
  files elf_name = Some m -> well_formed m -> byte_file m -> clear_header m ->
  let in_map a := exists v, (ELF32_R_TYPE (value_at (match_endian m) 4 a m), v) ∈ defs in
  (Forall in_map (file_words m) ->
   exists m1 m2, convert_main maps files ["-m"; map_name; elf_name] = Some (Ret (Some (report_of m), Some m1)) /\
     convert_main maps (fun name => if streq name elf_name then Some m1 else files name) ["-r"; map_name; elf_name] =
       Some (Ret (Some (report_of m), Some m2)) /\
     same m2 m) /\
  (forall a, a ∈ file_words m -> ~ in_map a ->
   exists m1, convert_main maps files ["-m"; map_name; elf_name] = Some (Ret (None, Some m1))).
Proof.
  intros Hmap Hdefs Hrev Hfile Hwf Hb Hc in_map. split.
  - intros Hcodes.
    destruct (process_back (table_of false defs) (table_of true defs) m Hwf Hb Hc (reversible_inverse defs Hrev)) as (f1 & f2 & E1 & E2 & Hs).
    { eapply Forall_impl; [exact Hcodes|]. intros a (v & Hv). unfold known. rewrite table_get.
      apply (last_definition_in defs _ v (rv_codes defs Hrev)) in Hv. cbn. rewrite Hv. discriminate. }
    exists (contents f1), (contents f2). split.
    + rewrite (convert_main_map maps files false "-m" map_name elf_name s defs m eq_refl Hmap Hdefs Hfile), E1. reflexivity.
    + split; [|exact Hs]. rewrite (convert_main_map maps _ true "-r" map_name elf_name s defs (contents f1) eq_refl Hmap Hdefs), E2;
        [reflexivity|]. rewrite streq_refl. reflexivity.
  - intros a Ha Hn. destruct (process_elf_conv (table_of false defs) m Hwf) as (f1 & E1 & _). cbn zeta in E1.
    rewrite conv_stops in E1; [|apply wf_disjoint, Hwf|].
    + exists (contents f1). rewrite (convert_main_map maps files false "-m" map_name elf_name s defs m eq_refl Hmap Hdefs Hfile), E1. reflexivity.
    + apply Exists_exists. exists a. split; [exact Ha|].
      destruct (new_info (match_endian m) (table_of false defs) (word_at (bytes m) 4 a)) as [w|] eqn:E; [|reflexivity]. exfalso. apply Hn.
      assert (Hk : known (table_of false defs) m a) by (apply known_new_info; congruence). unfold known in Hk. rewrite table_get in Hk. cbn in Hk.
      destruct (last_definition _ defs) as [v|] eqn:Ev; [|congruence]. exists v. apply (last_definition_in defs _ v (rv_codes defs Hrev)), Ev.
Qed.

(** ** Shared objects without section headers *)

(** The run leaves the file as it is, and a value it gives satisfies [P]. *)
Definition keeps {A} (m : memory) (P : A -> Prop) (c : io A) : Prop :=
  forall f, contents f = m -> contents (snd (c f)) = m /\ match fst (c f) with inr x => P x | inl _ => True end.

Lemma frame_bind {A B} m (P : A -> Prop) (Q : B -> Prop) c k :
  keeps m P c -> (forall x, P x -> keeps m Q (k x)) -> keeps m Q (c ≫= k).
Proof.
  intros Hc Hk f Hf. rewrite io_bind_eq. destruct (Hc f Hf) as [H1 H2]. destruct (c f) as [[msg|x] f']; cbn in *; [auto|].
  apply Hk; assumption.
Qed.

Lemma keeps_ret {A} m (P : A -> Prop) x : P x -> keeps m P (mret x).
Proof. intros H f Hf. split; assumption. Qed.

Lemma keeps_fail {A} m (P : A -> Prop) msg : keeps m P (fail msg).
Proof. intros f Hf. split; [exact Hf|exact I]. Qed.

(** A structure read at a position. *)
Lemma keeps_read_at {B} m (Q : B -> Prop) p n msg k :
  (keeps m Q (k (MkMemory (fun i => bytes m (p + i)) n))) -> keeps m Q (lseek p ;; (read n msg ≫= k)).
Proof.
  intros Hk f Hf. rewrite io_bind_eq. unfold lseek. rewrite io_bind_eq, read_eq. cbn [contents position]. rewrite Hf.
  destruct (in_memory m p n); cbn [fst snd]; [apply Hk; reflexivity|split; [reflexivity|exact I]].
Qed.

Section stripped.
Context (e : bool) (m : memory) (phoff phentsize : Z).

Definition program_header (i : Z) : Z := u32 (phoff + u32 (phentsize * i)).

(** The loop that looks for the segment sees the dynamic segment only. *)
Lemma find_segment_none i rel_addr rel_size n : value_at e 4 (program_header i) m = PT_DYNAMIC ->
  keeps m (fun rel_offset => rel_offset = 0) (find_segment e phoff phentsize i rel_addr rel_size n 0).
Proof.
  intros Hdyn. induction n as [|n IH]; [apply keeps_ret; reflexivity|]. cbn [find_segment]. fold (program_header i).
  apply keeps_read_at. rewrite !get_buffer, Z.add_0_r, Hdyn. exact IH.
Qed.

Lemma patch_segments_none t phnum n : forall i, keeps m (fun found => found = false) (patch_segments e t phoff phentsize phnum n i).
Proof.
  induction n as [|n IH]; intros i; [apply keeps_ret; reflexivity|]. cbn [patch_segments]. fold (program_header i).
  apply keeps_read_at. rewrite get_buffer, Z.add_0_r. destruct (Z.eqb_spec (value_at e 4 (program_header i) m) PT_DYNAMIC) as [Hdyn|_]; [|apply IH].
  apply (frame_bind m (fun _ => False)); [|intros _ []]. unfold patch_dynamic. apply keeps_read_at.
  destruct (dynamic_entries _ _ _) as [[rel_type rel_addr] rel_size]. destruct (_ || _ || _); [apply keeps_fail|].
  eapply frame_bind; [apply find_segment_none, Hdyn|]. intros rel_offset ->. apply keeps_fail.
Qed.
End stripped.

(** An ELF file without section headers is never converted, whatever the map
    and its relocations: the search for the segment that holds them reads the
    header of the dynamic segment each time, so it never finds one; the run is an
    error and the file is left as it is. *)
Theorem stripped_never_converted t m : elf_header m -> shoff m = 0 \/ shsize m = 0 ->
  exists msg f', process_elf t (MkFd m 0) = (inl msg, f') /\ contents f' = m.
Proof.
  intros Hh Hs. rewrite (process_elf_header t m Hh).
  assert ((shoff m =? 0) || (shsize m =? 0) = true) as ->.
  { destruct Hs as [-> | ->]; cbn; [reflexivity|apply orb_true_r]. }
  assert (Hk : keeps m (fun _ => False) (patch_stripped (match_endian m) t (file_type m) (MkMemory (fun i => bytes m (0 + i)) sizeof_Ehdr))).
  { unfold patch_stripped. destruct (negb _); [apply keeps_fail|]. destruct (_ || _); [apply keeps_fail|].
    eapply frame_bind; [apply patch_segments_none|]. intros found ->. apply keeps_fail. }
  destruct (Hk (MkFd m sizeof_Ehdr) eq_refl) as [H1 H2]. destruct (patch_stripped _ _ _ _ _) as [[msg|r] f']; [|destruct H2].
  exists msg, f'. split; [reflexivity|exact H1].
Qed.

(** ** A small file *)

Lemma put_byte_file n a v m : byte_file m -> byte_file (put n a v m).
Proof. intros H i. cbn. unfold put_word. destruct (_ && _); [apply byte_of_byte|apply H]. Qed.

(** A relocatable file with one section header at 52 and a section of two
    relocations at 92; [so] is where the header says the section headers are. *)
Definition sample_elf (so : Z) : memory :=
  put 4 104 0x603 (put 4 96 0x502 (put 4 72 16 (put 4 68 92 (put 4 56 9
    (put 2 48 1 (put 2 46 40 (put 4 32 so (put 2 16 1 (put 4 4 0x101 (put 4 0 0x464c457f (MkMemory (fun _ => 0) 108))))))))))).

Lemma sample_bytes so : byte_file (sample_elf so).
Proof. repeat apply put_byte_file. intros i. cbn. lia. Qed.

Lemma sample_well_formed : well_formed (sample_elf 52).
Proof.
  constructor.
  - constructor; [vm_compute; discriminate|reflexivity|right; left; reflexivity].
  - vm_compute. discriminate.
  - vm_compute. discriminate.
  - intros j Hj. change (Z.of_nat (shnum (sample_elf 52))) with 1 in Hj. replace j with 0 by lia.
    split; [reflexivity|]. intros _. vm_compute. split; discriminate.
  - intros j a Hj Ha. change (Z.of_nat (shnum (sample_elf 52))) with 1 in Hj. replace j with 0 by lia.
    change (file_words (sample_elf 52)) with [96; 104] in Ha. right.
    change (header (shoff (sample_elf 52)) (shsize (sample_elf 52)) 0) with 52. unfold sizeof_Shdr.
    apply elem_of_cons in Ha as [->|Ha]; [lia|]. apply list_elem_of_singleton in Ha as ->. lia.
  - change (file_words (sample_elf 52)) with [96; 104]. repeat constructor. unfold separate. lia.
Qed.

(** "2=20", "3=21". *)
Definition sample_text : list Z := [50; 61; 50; 48; 10; 51; 61; 50; 49; 10].

Lemma sample_text_map : map_file sample_text [(2, 20); (3, 21)].
Proof.
  apply (mf_define [] [50] [] [] [50; 48] [10; 51; 61; 50; 49; 10] [51; 61; 50; 49; 10] [(3, 21)]);
    [constructor|split; [repeat constructor|cbn; lia]|constructor|constructor|split; [repeat constructor|cbn; lia]|constructor|].
  apply (mf_define [] [51] [] [] [50; 49] [10] [] []);
    [constructor|split; [repeat constructor|cbn; lia]|constructor|constructor|split; [repeat constructor|cbn; lia]|constructor|constructor].
Qed.

Lemma sample_reversible : reversible [(2, 20); (3, 21)].
Proof. constructor; [apply (bool_decide_unpack _); reflexivity..|]. repeat first [apply Forall_cons_2|apply Forall_nil_2]; cbn; lia. Qed.

Lemma relocation_codes_converted_witness :
  exists f', process_elf (table_of false [(2, 20); (3, 21)]) (MkFd (sample_elf 52) 0) = (inr (Patched 1), f').
Proof.
  destruct (proj1 (relocation_codes_converted (table_of false [(2, 20); (3, 21)]) (sample_elf 52) sample_well_formed)) as (f' & E & _).
  - change (file_words (sample_elf 52)) with [96; 104]. repeat constructor; vm_compute; discriminate.
  - exists f'. exact E.
Defined.

Lemma sample_clear : clear_header (sample_elf 52).
Proof. unfold clear_header. change (file_words (sample_elf 52)) with [96; 104]. repeat constructor; vm_compute; discriminate. Qed.

Lemma conversion_undone_witness :
  exists m1 m2, convert_main (fun _ => Some sample_text) (fun _ => Some (sample_elf 52)) ["-m"; "map"; "a.o"] = Some (Ret (Some (Patched 1), Some m1)) /\
    convert_main (fun _ => Some sample_text) (fun name => if streq name "a.o" then Some m1 else Some (sample_elf 52)) ["-r"; "map"; "a.o"] =
      Some (Ret (Some (Patched 1), Some m2)) /\
    same m2 (sample_elf 52).
Proof.
  apply (proj1 (conversion_undone (fun _ => Some sample_text) (fun _ => Some (sample_elf 52)) "map" "a.o" sample_text
    [(2, 20); (3, 21)] (sample_elf 52) eq_refl sample_text_map sample_reversible eq_refl sample_well_formed (sample_bytes 52)
    sample_clear)).
  change (file_words (sample_elf 52)) with [96; 104]. repeat first [apply Forall_cons_2|apply Forall_nil_2].
  - exists 20. apply list_elem_of_here.
  - exists 21. apply list_elem_of_further, list_elem_of_here.
Defined.

Lemma stripped_never_converted_witness :
  exists msg f', process_elf hash_initialize (MkFd (sample_elf 0) 0) = (inl msg, f') /\ contents f' = sample_elf 0.
Proof.
  apply (stripped_never_converted hash_initialize (sample_elf 0)); [|left; reflexivity].
  constructor; [vm_compute; discriminate|reflexivity|right; left; reflexivity].
Defined.
