(* ===== verification/LinkNode.v ===== *)
(** * The linking of loaded objects

    [archc/src/aclib/ac_rtld/link_node.cpp] and [ac_rtld.cpp]: an object is the
    element of a list whose first one is the executable, which also keeps the
    start and fini vectors of all.  Loading the libraries an object needs,
    adjusting and resolving symbols, applying relocations and the copies they
    schedule, and [loadnlink_all], which does all of it. *)
From S2P Require Import Prelude DynMem DynSym MemMap RelMap DynInfo.

Record link_node := MkLink {
  dyn_info : dynamic_table;
  dyn_table : symbol_table;
  dyn_relocs : relocations;
  load_addr : Z;
  soname : option Z;
  sched_copy : list (Z * Z * Z);
  needed_is_loaded : bool;
  has_relocations : bool;
  rtld_global_patched : bool;
  match_endian : bool
}.

Definition set_copies x n := MkLink (dyn_info n) (dyn_table n) (dyn_relocs n) (load_addr n) (soname n) x (needed_is_loaded n) (has_relocations n) (rtld_global_patched n) (match_endian n).
Definition set_loaded n := MkLink (dyn_info n) (dyn_table n) (dyn_relocs n) (load_addr n) (soname n) (sched_copy n) true (has_relocations n) (rtld_global_patched n) (match_endian n).
Definition set_patched n := MkLink (dyn_info n) (dyn_table n) (dyn_relocs n) (load_addr n) (soname n) (sched_copy n) (needed_is_loaded n) (has_relocations n) true (match_endian n).

(** The vectors and the interpreter are those of the root. *)
Record vectors := MkVectors { startvec : list Z; finivec : list Z; pinterp : list Z }.

Definition add_to_start_vector (addr : Z) (v : vectors) : vectors := MkVectors (startvec v ++ [addr]) (finivec v) (pinterp v).
Definition add_to_fini_vector (addr : Z) (v : vectors) : vectors := MkVectors (startvec v) (finivec v ++ [addr]) (pinterp v).

(** The linker: its objects, the vectors, the relocation map and the width of a
    word of the target. *)
Record rtld := MkRtld { objects : list link_node; vecs : vectors; rtld_config : option hash_table; word_size : Z }.

Definition set_objects x l := MkRtld x (vecs l) (rtld_config l) (word_size l).

(** ** [link_node_setup] *)

Definition relocate (l_addr a : Z) : Z := if a =? 0 then 0 else u32 (a + l_addr).

(** The words of an init or fini array, from [i] on. *)
Fixpoint array_words (n : nat) (e : bool) (a : Z) (m : memory) : exec (list Z) :=
  match n with O => Ret [] | S n => x ← field e 4 a m; l ← array_words n e (a + 4) m; Ret (x :: l) end.

Definition add_array (e : bool) (add : Z -> vectors -> vectors) (l_addr addr size : Z) (v : vectors) (m : memory) : exec vectors :=
  if (size =? 0) || (addr =? 0) then Ret v
  else
    words ← array_words (Z.to_nat ((size + 3) / 4)) e (u32 (addr + l_addr)) m;
    Ret (fold_left (fun v w => add (u32 (w + l_addr)) v) words v).

(** The functions an object asks to be called; the program interpreter's are
    left out. *)
Definition add_functions (e : bool) (t : dynamic_table) (l_addr : Z) (is_interp : bool) (v : vectors) (m : memory) : exec vectors :=
  if is_interp then Ret v
  else
    let v := let init := get_value DT_INIT t in if init =? 0 then v else add_to_start_vector (u32 (init + l_addr)) v in
    v ← add_array e add_to_start_vector l_addr (get_value DT_INIT_ARRAY t) (get_value DT_INIT_ARRAYSZ t) v m;
    let v := let fini := get_value DT_FINI t in if fini =? 0 then v else add_to_fini_vector (u32 (fini + l_addr)) v in
    add_array e add_to_fini_vector l_addr (get_value DT_FINI_ARRAY t) (get_value DT_FINI_ARRAYSZ t) v m.

(** The relocation table; an address of zero is replaced by that of the
    relocations of the procedure linkage table. *)
Definition setup_relocations (e : bool) (t : dynamic_table) (l_addr : Z) : bool * relocations :=
  let pltrel := get_value DT_PLTREL t in
  if pltrel =? 0 then (false, no_relocations)
  else
    let use := if pltrel =? DT_REL then AC_USE_REL else AC_USE_RELA in
    let reladdr := u32 (l_addr + get_value pltrel t) in
    let reladdr := if reladdr =? 0 then get_value DT_JMPREL t else reladdr in
    let relsize := u32 (get_value (pltrel + 1) t + get_value DT_PLTRELSZ t) in
    (true, MkRelocs reladdr (relsize / (if pltrel =? DT_REL then 8 else 12)) use e).

(** The loop over the versions wanted of this library. *)
Fixpoint versions_present (fuel : nat) (e : bool) (need defs : version_table) (aux : Z) (m : memory) : exec bool :=
  match fuel with
  | O => Crash
  | S fuel =>
      name ← vernaux_name e need aux m; hash ← vernaux_hash e aux m;
      entry ← verdef_named (mem_fuel m) e defs (v_first defs) name hash m;
      flags ← vernaux_flags e aux m;
      if bool_decide (entry = None) && (Z.land flags VER_FLG_WEAK =? 0) then Ret false
      else next ← next_vernaux e aux m;
           match next with None => Ret true | Some aux => versions_present fuel e need defs aux m end
  end.

(** Whether the library is recent enough for the object that needs it. *)
Definition accept_library (e : bool) (verneed : option version_table) (name : option Z) (t : symbol_table) (m : memory) : exec bool :=
  match verneed with
  | None => Ret true
  | Some need =>
      name ← of_option name;
      aux ← verneed_file (mem_fuel m) e need (v_first need) name m;
      match aux with
      | None => Ret true
      | Some aux =>
          match verdefs t with
          | None => Ret false
          | Some defs => versions_present (mem_fuel m) e need defs aux m
          end
      end
  end.

Definition read_soname (name : option Z) (m : memory) : exec (option (list Z)) :=
  match name with None => Ret None | Some a => s ← string_at a m; Ret (Some s) end.

Definition link_node_setup (dynaddr l_addr : Z) (name : option Z) (verneed : option version_table) (e : bool)
    (v : vectors) (m : memory) : exec (bool * link_node * vectors) :=
  t ← load_dynamic_info dynaddr e m;
  sname ← read_soname name m;
  v ← add_functions e t l_addr (same_library sname (Some (pinterp v))) v m;
  let at_ tag := relocate l_addr (get_value tag t) in
  table ← setup_hash (at_ DT_HASH) (at_ DT_SYMTAB) (at_ DT_STRTAB) (at_ DT_VERDEF) (at_ DT_VERNEED) (at_ DT_VERSYM) e m;
  let '(has, relocs) := setup_relocations e t l_addr in
  accepted ← accept_library e verneed name table m;
  Ret (accepted, MkLink (snd (set_value DT_STRTAB (at_ DT_STRTAB) t)) table relocs l_addr name [] false has false e, v).

(** ** Loading *)

(** Whether an object of that name is in the list. *)
Fixpoint is_loaded (name : list Z) (l : list link_node) (m : memory) : exec bool :=
  match l with
  | [] => Ret false
  | n :: l => s ← read_soname (soname n) m; if same_library (Some name) s then Ret true else is_loaded name l m
  end.

Record process := MkProcess { p_rtld : rtld; p_map : memmap; p_mem : memory }.

(** A DT_NEEDED entry [offset] of object [n]. *)
Definition load_one (files : file_system) (env : option (list Z)) (mem_size : Z) (n : link_node) (offset : Z) (p : process) : exec process :=
  base ← suggest_free_region (p_map p);
  let name := get_value DT_STRTAB (dyn_info n) + offset in
  s ← string_at name (p_mem p);
  loaded ← is_loaded s (objects (p_rtld p)) (p_mem p);
  if loaded : bool then Ret p
  else
    l ← load_library files env (match_endian n) base s mem_size (p_mem p);
    mm ← add_region base (l_total l) (p_map p);
    if (l_dyn_addr l =? 0) || (l_dyn_size l =? 0) then Exit "Run-time dynamic linker: Could not find DYNAMIC segment of library"
    else
      r ← link_node_setup (l_dyn_addr l) base (Some name) (verneed (dyn_table n)) (match_endian n) (vecs (p_rtld p)) (l_mem l);
      let '(accepted, n', v) := r in
      if accepted : bool then
        Ret (MkProcess (MkRtld (objects (p_rtld p) ++ [n']) v (rtld_config (p_rtld p)) (word_size (p_rtld p))) mm (l_mem l))
      else Exit "run-time dynamic linker: Loaded library is old and can't be used (version mismatch).".

Fixpoint load_entries (files : file_system) (env : option (list Z)) (mem_size : Z) (n : link_node) (t : dynamic_table) (p : process) : exec process :=
  match t with
  | [] => Ret p
  | e :: t =>
      p ← (if e.1 =? DT_NEEDED then load_one files env mem_size n e.2 p else Ret p);
      load_entries files env mem_size n t p
  end.

(** [load_needed] of the object at [i]. *)
Definition load_needed (files : file_system) (env : option (list Z)) (mem_size : Z) (i : nat) (p : process) : exec process :=
  n ← of_option (objects (p_rtld p) !! i);
  if needed_is_loaded n then Ret p
  else
    p ← load_entries files env mem_size n (dyn_info n) p;
    Ret (MkProcess (set_objects (alter set_loaded i (objects (p_rtld p))) (p_rtld p)) (p_map p) (p_mem p)).

Fixpoint load_libraries (fuel : nat) (files : file_system) (env : option (list Z)) (mem_size : Z) (i : nat) (p : process) : run process :=
  if (length (objects (p_rtld p)) <=? i)%nat then Some (Ret p)
  else match fuel with
       | O => None
       | S fuel => p ← lift (load_needed files env mem_size i p); load_libraries fuel files env mem_size (S i) p
       end.

(** ** Relocation codes *)

Definition AC_COPY : Z := 2.

(** FETCH_RELOC_TYPE. *)
Definition reloc_type (config : option hash_table) (info : Z) : Z :=
  default (R_TYPE info) (translate config (R_TYPE info)).

(** The address of the copy relocation of the executable [n] against [name],
    zero if there is none; [k] relocations are left. *)
Fixpoint copy_relocation_loop (config : option hash_table) (n : link_node) (name : Z) (k : nat) (m : memory) : exec Z :=
  match k with
  | O => Ret 0
  | S k' =>
      let i := r_size (dyn_relocs n) - Z.of_nat k in
      info ← reloc_info (dyn_relocs n) i m;
      if negb (reloc_type config info =? AC_COPY) then copy_relocation_loop config n name k' m
      else
        sym ← of_option (get_symbol (dyn_table n) (R_SYM info));
        ndx ← read_name_ndx (match_endian n) sym m;
        same ← strcmp name (get_name (dyn_table n) ndx) m;
        if same : bool then off ← read_offset (dyn_relocs n) i m; Ret (u32 (off + load_addr n))
        else copy_relocation_loop config n name k' m
  end.

Definition find_copy_relocation (config : option hash_table) (n : link_node) (name : Z) (m : memory) : exec Z :=
  if has_relocations n then copy_relocation_loop config n name (Z.to_nat (r_size (dyn_relocs n))) m else Ret 0.

(** ** Adjusting symbols *)

Definition moving_type (info : Z) : bool := (ST_TYPE info <=? STT_FUNC) || (ST_TYPE info =? STT_COMMON).

(** Symbol [sym] of object [n], which is the executable when [root] is [None]. *)
Definition adjust_symbol (config : option hash_table) (root : option link_node) (n : link_node) (sym : Z)
    (copies : list (Z * Z * Z)) (m : memory) : exec (list (Z * Z * Z) * memory) :=
  let e := match_endian n in
  info ← read_info sym m;
  if negb (moving_type info) then Ret (copies, m)
  else
    section ← read_section_ndx e sym m;
    if section =? SHN_UNDEF then Ret (copies, m)
    else
      target ← (match root with
                | Some r => if ST_TYPE info =? STT_OBJECT
                            then ndx ← read_name_ndx e sym m; find_copy_relocation config r (get_name (dyn_table n) ndx) m
                            else Ret 0
                | None => Ret 0
                end);
      value ← read_value e sym m;
      if negb (target =? 0) then
        size ← read_size e sym m;
        m ← write_value e sym target m;
        Ret ((target, u32 (value + load_addr n), size) :: copies, m)
      else m ← write_value e sym (u32 (value + load_addr n)) m; Ret (copies, m).

Fixpoint adjust_loop (config : option hash_table) (root : option link_node) (n : link_node) (k : nat)
    (copies : list (Z * Z * Z)) (m : memory) : exec (list (Z * Z * Z) * memory) :=
  match k with
  | O => Ret (copies, m)
  | S k' =>
      '(copies, m) ← adjust_symbol config root n (symbol_at (dyn_table n) (nchain (dyn_table n) - Z.of_nat k)) copies m;
      adjust_loop config root n k' copies m
  end.

Definition adjust_symbols (config : option hash_table) (root : option link_node) (n : link_node) (m : memory) : exec (link_node * memory) :=
  if load_addr n =? 0 then Ret (n, m)
  else
    '(copies, m) ← adjust_loop config root n (Z.to_nat (nchain (dyn_table n))) (sched_copy n) m;
    Ret (set_copies copies n, m).

(** ** Resolving symbols *)

(** The loop over the objects: the first definition that is not weak, or else
    the first weak one. *)
Fixpoint search_objects (fuel : nat) (e : bool) (hash name : Z) (version : option (Z * Z)) (l : list link_node) (weak : option Z)
    (m : memory) : run (option Z * option Z) :=
  match l with
  | [] => Some (Ret (None, weak))
  | n :: l =>
      found ← lookup_symbol fuel (dyn_table n) hash name version m;
      match found with
      | None => search_objects fuel e hash name version l weak m
      | Some sym =>
          info ← lift (read_info sym m);
          if ST_BIND info =? STB_WEAK
          then search_objects fuel e hash name version l (match weak with None => Some sym | w => w end) m
          else Some (Ret (Some sym, weak))
      end
  end.

(** "_rtld_global". *)
Definition rtld_global_name : list Z := [95; 114; 116; 108; 100; 95; 103; 108; 111; 98; 97; 108].

Definition patch_rtld_global (e : bool) (sym : Z) (m : memory) : exec memory :=
  value ← read_value e sym m;
  m ← store 4 (u32 (value + 984)) 0x88 m;
  value ← read_value e sym m;
  store 4 (u32 (value + 988)) 0x88 m.

(** The definition found, the memory and the flag of the hook. *)
Definition find_symbol (fuel : nat) (e : bool) (objs : list link_node) (name : Z) (version : option (Z * Z)) (patched : bool)
    (m : memory) : run (option Z * memory * bool) :=
  s ← lift (string_at name m);
  '(strong, weak) ← search_objects fuel e (elf_hash s) name version objs None m;
  match strong with
  | None => Some (Ret (weak, m, patched))
  | Some sym =>
      if bool_decide (s = rtld_global_name) && negb patched
      then m ← lift (patch_rtld_global e sym m); Some (Ret (Some sym, m, true))
      else Some (Ret (Some sym, m, patched))
  end.

(** The version that object [n] wants of symbol [symndx]. *)
Definition wanted_version (n : link_node) (symndx : Z) (m : memory) : exec (option (Z * Z)) :=
  match verneed (dyn_table n) with
  | None => Ret None
  | Some need =>
      verndx ← get_verndx (dyn_table n) symndx m;
      aux ← lookup_version (mem_fuel m) (match_endian n) (v_first need) (Z.land verndx 0x7fff) m;
      match aux with
      | None => Ret None
      | Some aux => name ← vernaux_name (match_endian n) need aux m; hash ← vernaux_hash (match_endian n) aux m; Ret (Some (name, hash))
      end
  end.

(** The fields of the definition are copied one after the other. *)
Definition copy_symbol (e : bool) (sym def : Z) (m : memory) : exec memory :=
  v ← read_value e def m; m ← write_value e sym v m;
  s ← read_size e def m; m ← write_size e sym s m;
  x ← read_section_ndx e def m; m ← write_section_ndx e sym x m;
  i ← read_info def m; write_info sym i m.

(** A global or weak symbol that may have to be resolved. *)
Definition resolvable (info : Z) : bool :=
  moving_type info && negb (ST_BIND info =? STB_LOCAL) && (ST_BIND info <=? STB_WEAK).

(** Relocation [i]; [weak] stays set once a weak symbol has been met. *)
Definition resolve_one (fuel : nat) (objs : list link_node) (n : link_node) (i : Z) (weak patched : bool) (m : memory) : run (bool * bool * memory) :=
  let e := match_endian n in
  info ← lift (reloc_info (dyn_relocs n) i m);
  sym ← lift (of_option (get_symbol (dyn_table n) (R_SYM info)));
  sinfo ← lift (read_info sym m);
  if negb (resolvable sinfo) then Some (Ret (weak, patched, m))
  else
    let weak := weak || (ST_BIND sinfo =? STB_WEAK) in
    section ← lift (read_section_ndx e sym m);
    if negb (section =? SHN_UNDEF) then Some (Ret (weak, patched, m))
    else
      version ← lift (wanted_version n (R_SYM info) m);
      ndx ← lift (read_name_ndx e sym m);
      '(def, m, patched) ← find_symbol fuel e objs (get_name (dyn_table n) ndx) version patched m;
      match def with
      | None => if weak : bool then Some (Ret (weak, patched, m)) else Some (Exit "Run-time dynamic linker: Symbol unknown.")
      | Some def => m ← lift (copy_symbol e sym def m); Some (Ret (weak, patched, m))
      end.

Fixpoint resolve_loop (fuel : nat) (objs : list link_node) (n : link_node) (k : nat) (weak patched : bool) (m : memory) : run (bool * memory) :=
  match k with
  | O => Some (Ret (patched, m))
  | S k' =>
      '(weak, patched, m) ← resolve_one fuel objs n (r_size (dyn_relocs n) - Z.of_nat k) weak patched m;
      resolve_loop fuel objs n k' weak patched m
  end.

Definition resolve_symbols (fuel : nat) (objs : list link_node) (n : link_node) (m : memory) : run (link_node * memory) :=
  if has_relocations n then
    '(patched, m) ← resolve_loop fuel objs n (Z.to_nat (r_size (dyn_relocs n))) false (rtld_global_patched n) m;
    Some (Ret (if patched : bool then set_patched n else n, m))
  else Some (Ret (n, m)).

(** ** Applying relocations *)

(** [mask |= 1; mask = mask << 1], once for each bit. *)
Fixpoint patch_mask (num_bits : nat) : Z :=
  match num_bits with O => 0 | S n => u32 (Z.shiftl (Z.lor (patch_mask n) 1) 1) end.

(** The bytes of [data] behind its fourth are not there. *)
Definition patch_code (e : bool) (location data target_size : Z) (m : memory) : exec memory :=
  let data := Z.land data (patch_mask (Z.to_nat (8 * target_size))) in
  if 4 <? target_size then Crash
  else store (Z.to_nat target_size) location (if e then data else convert_endian (Z.to_nat target_size) data false) m.

(** Relocation [i] of object [n]. *)
Definition apply_one (config : option hash_table) (word_size : Z) (n : link_node) (i : Z) (m : memory) : exec memory :=
  let e := match_endian n in
  info ← reloc_info (dyn_relocs n) i m;
  sym ← of_option (get_symbol (dyn_table n) (R_SYM info));
  value ← read_value e sym m;
  addend ← read_addend (dyn_relocs n) i m;
  off ← read_offset (dyn_relocs n) i m;
  let target := u32 (value + addend) in
  let location := u32 (off + load_addr n) in
  match reloc_type config info with
  | 0 => Ret m
  | 1 => if 4 <? word_size then Crash
         else aux ← field e (Z.to_nat word_size) location m;
              patch_code e location (u32 (aux + load_addr n)) word_size m
  | 2 => Ret m
  | 5 => patch_code e location target 8 m
  | 6 => patch_code e location target 16 m
  | 7 | 3 | 4 => patch_code e location target word_size m
  | 8 => patch_code e location (u32 (target - location)) 8 m
  | 9 => patch_code e location (u32 (target - location)) 16 m
  | 10 => patch_code e location (u32 (target - location)) word_size m
  | _ => Exit "Run-time dynamic linker: Unknown relocation code"
  end.

Fixpoint apply_loop (config : option hash_table) (word_size : Z) (n : link_node) (k : nat) (m : memory) : exec memory :=
  match k with
  | O => Ret m
  | S k' =>
      m ← apply_one config word_size n (r_size (dyn_relocs n) - Z.of_nat k) m;
      apply_loop config word_size n k' m
  end.

Definition apply_relocations (config : option hash_table) (word_size : Z) (n : link_node) (m : memory) : exec memory :=
  if has_relocations n then apply_loop config word_size n (Z.to_nat (r_size (dyn_relocs n))) m else Ret m.

(** The copies are made in the order of the list, the last one scheduled first. *)
Fixpoint apply_pending_copies (l : list (Z * Z * Z)) (m : memory) : exec memory :=
  match l with [] => Ret m | (dst, src, n) :: l => m ← copy_bytes dst src n m; apply_pending_copies l m end.

(** ** The linker *)

Fixpoint adjust_all (config : option hash_table) (root : option link_node) (l : list link_node) (m : memory) : exec (list link_node * memory) :=
  match l with
  | [] => Ret ([], m)
  | n :: l =>
      '(n, m) ← adjust_symbols config root n m;
      '(l, m) ← adjust_all config (Some (default n root)) l m;
      Ret (n :: l, m)
  end.

(** [objs] are all the objects; those of [l] are still to be done. *)
Fixpoint resolve_all (fuel : nat) (objs l : list link_node) (m : memory) : run (list link_node * memory) :=
  match l with
  | [] => Some (Ret ([], m))
  | n :: l =>
      '(n, m) ← resolve_symbols fuel objs n m;
      '(l, m) ← resolve_all fuel objs l m;
      Some (Ret (n :: l, m))
  end.

Fixpoint for_objects (f : link_node -> memory -> exec memory) (l : list link_node) (m : memory) : exec memory :=
  match l with [] => Ret m | n :: l => m ← f n m; for_objects f l m end.

Definition link (fuel : nat) (r : rtld) (m : memory) : run (rtld * memory) :=
  '(objs, m) ← lift (adjust_all (rtld_config r) None (objects r) m);
  '(objs, m) ← resolve_all fuel objs objs m;
  m ← lift (for_objects (apply_relocations (rtld_config r) (word_size r)) objs m);
  m ← lift (for_objects (fun n => apply_pending_copies (sched_copy n)) objs m);
  Some (Ret (set_objects objs r, m)).

(** The first start function is called in place of the program, which comes
    last. *)
Definition rotate_start (start_addr : Z) (v : vectors) : Z * vectors :=
  match startvec v with
  | [] => (start_addr, v)
  | f :: l => (f, MkVectors (l ++ [start_addr]) (finivec v) (pinterp v))
  end.

(** The result: the linker, the map, the memory, the start address and the heap. *)
Definition loadnlink_all (fuel : nat) (files : file_system) (env : option (list Z)) (config : option hash_table)
    (dynaddr : Z) (interp : list Z) (start_addr wsize : Z) (e : bool) (mem_size : Z) (mm : memmap) (m : memory) :
    run (process * Z * Z) :=
  '(_, root, v) ← lift (link_node_setup dynaddr 0 None None e (MkVectors [] [] interp) m);
  p ← load_libraries fuel files env mem_size 0 (MkProcess (MkRtld [root] v config wsize) mm m);
  heap ← lift (suggest_free_region (p_map p));
  '(r, m) ← link fuel (p_rtld p) (p_mem p);
  let '(start_addr, v) := rotate_start start_addr (vecs r) in
  Some (Ret (MkProcess (MkRtld (objects r) v (rtld_config r) (word_size r)) (set_brk_addr heap (p_map p)) m, start_addr, heap)).
