(* ===== verification/RelocOk.v ===== *)
(** * Relocations patch their words and nothing else

    [apply_relocations] on an object whose relocation and symbol tables are in
    the memory and are not patched themselves: every relocation stores the value
    the ELF ABI gives it, computed from the memory as it was, with bit 0
    cleared; no other byte changes. *)
From S2P Require Import Prelude DynMem DynSym RelMap LinkNode.

Section relocations.
Context (config : option hash_table) (n : link_node) (m0 : memory).

Definition entry_size : Z := match r_use (dyn_relocs n) with AC_USE_RELA => 12 | _ => 8 end.
Definition entry (i : Z) : Z := r_addr (dyn_relocs n) + entry_size * i.
Definition entry_word (i offset : Z) : Z := value_at (r_endian (dyn_relocs n)) 4 (entry i + offset) m0.

Definition info (i : Z) : Z := entry_word i 4.
Definition addend (i : Z) : Z := match r_use (dyn_relocs n) with AC_USE_RELA => entry_word i 8 | _ => 0 end.
Definition place (i : Z) : Z := u32 (entry_word i 0 + load_addr n).
Definition symbol (i : Z) : Z := symbol_at (dyn_table n) (R_SYM (info i)).
Definition symbol_value (i : Z) : Z := value_at (match_endian n) 4 (symbol i + 4) m0.

(** The addend of the ABI: in the entry, or, for entries without one, the word at the place. *)
Definition abi_addend (i : Z) : Z :=
  match r_use (dyn_relocs n) with AC_USE_RELA => entry_word i 8 | _ => value_at (match_endian n) 4 (place i) m0 end.

(** The word the ABI defines: the load address or the symbol, plus the addend,
    less the place for a relative one; [None] stores nothing. *)
Definition abi_word (i : Z) : option Z :=
  match reloc_type config (info i) with
  | 1 => Some (u32 (load_addr n + abi_addend i))
  | 3 | 4 | 7 => Some (u32 (symbol_value i + abi_addend i))
  | 10 => Some (u32 (symbol_value i + abi_addend i - place i))
  | _ => None
  end.

(** The addend the program takes: the word at the place for a relocation by the
    load address; else that of the entry, or 0 where it has none. *)
Definition addend_taken (i : Z) : Z :=
  if reloc_type config (info i) =? 1 then value_at (match_endian n) 4 (place i) m0 else addend i.

(** The word a relocation stores; [None] stores nothing. *)
Definition relocated (i : Z) : option Z :=
  match reloc_type config (info i) with
  | 1 => Some (u32 (value_at (match_endian n) 4 (place i) m0 + load_addr n))
  | 3 | 4 | 7 => Some (u32 (symbol_value i + addend i))
  | 10 => Some (u32 (symbol_value i + addend i - place i))
  | _ => None
  end.

Definition places (i : Z) : Prop := is_Some (relocated i).
Definition indexed (i : Z) : Prop := 0 <= i < r_size (dyn_relocs n).

Definition apart (a la b lb : Z) : Prop := a + la <= b \/ b + lb <= a.

(** The codes the linker knows and whose width is that of a word. *)
Definition word_codes : list Z := [0; 1; 2; 3; 4; 7; 10].

Record relocatable := {
  rl_has : has_relocations n = true;
  rl_use : r_use (dyn_relocs n) <> AC_NO_RELOC;
  rl_size : 0 <= r_size (dyn_relocs n);
  rl_entry : forall i, indexed i -> in_memory m0 (entry i) entry_size = true;
  rl_symbol : forall i, indexed i -> R_SYM (info i) < nchain (dyn_table n) /\ in_memory m0 (symbol i) 16 = true;
  rl_code : forall i, indexed i -> In (reloc_type config (info i)) word_codes;
  rl_place : forall i, indexed i -> places i -> in_memory m0 (place i) 4 = true;
  rl_apart : forall i j, indexed i -> indexed j -> places i -> i <> j -> places j -> apart (place i) 4 (place j) 4;
  rl_entries_apart : forall i j, indexed i -> indexed j -> places i -> apart (place i) 4 (entry j) entry_size;
  rl_symbols_apart : forall i j, indexed i -> indexed j -> places i -> apart (place i) 4 (symbol j) 16
}.

(** The word stored is that of the ABI exactly when the addend taken is. *)
Lemma relocated_abi i : places i -> relocated i = abi_word i <-> u32 (addend_taken i) = u32 (abi_addend i).
Proof.
  assert (Hx : forall x y a b, Some (u32 (x + a - y)) = Some (u32 (x + b - y)) <-> u32 a = u32 b).
  { intros x y a b. split.
    - intros [= E]. unfold uwrap in *. Z.to_euclidean_division_equations. lia.
    - intros E. f_equal. unfold uwrap in *. Z.to_euclidean_division_equations. lia. }
  unfold places, relocated, abi_word, addend_taken. intros [v Hv]. destruct (reloc_type config (info i)) as [|p|p]; try discriminate.
  repeat (destruct p as [p|p|]; try discriminate); cbn [Z.eqb Pos.eqb] in *.
  all: try (rewrite <- (Hx (symbol_value i) 0), !Z.sub_0_r; reflexivity).
  - rewrite <- (Hx (symbol_value i) (place i)). reflexivity.
  - rewrite <- (Hx (load_addr n) 0), !Z.sub_0_r, (Z.add_comm (value_at _ _ _ _)). reflexivity.
Qed.

Hypothesis Hok : relocatable.

Lemma patch_mask_word : patch_mask 32 = 0xFFFFFFFE.
Proof. reflexivity. Qed.

Definition clear_bit0 (v : Z) : Z := Z.land v 0xFFFFFFFE.

Lemma clear_bit0_range v : 0 <= v < 2 ^ 32 -> 0 <= clear_bit0 v < 2 ^ 32.
Proof.
  intros Hv. unfold clear_bit0. assert (H0 : 0 <= Z.land v 0xFFFFFFFE) by (apply Z.land_nonneg; lia). split; [exact H0|].
  apply bits_range; [lia|exact H0|]. intros i Hi. rewrite Z.land_spec, (testbit_high 32 v i) by lia. reflexivity.
Qed.

Lemma patch_code_word e a v m : in_memory m a 4 = true -> patch_code e a v 4 m = Ret (patched e a (clear_bit0 v) m).
Proof.
  intros H. unfold patch_code. change (4 <? 4) with false. cbn iota. change (Z.to_nat (8 * 4)) with 32%nat. change (Z.to_nat 4) with 4%nat.
  rewrite patch_mask_word. rewrite <- (set_field_patched e a (clear_bit0 v) m H). unfold set_field. destruct e; reflexivity.
Qed.

(** What one relocation does to a memory that still has its entry, its symbol
    and its place as they were. *)
Definition unchanged_at (m : memory) (a len : Z) : Prop := forall i, a <= i < a + len -> bytes m i = bytes m0 i.

Lemma entry_field m i off : indexed i -> msize m = msize m0 -> unchanged_at m (entry i) entry_size ->
  0 <= off -> off + 4 <= entry_size -> reloc_word off (dyn_relocs n) i m = Ret (entry_word i off).
Proof.
  intros Hi Hsz Hu H0 Ho. pose proof (rl_entry Hok i Hi) as Hm. apply in_memory_spec in Hm as [Hm1 Hm2].
  pose proof (rl_use Hok) as Huse. unfold reloc_word. destruct Hi as [Hi1 Hi2].
  destruct (Z.leb_spec (r_size (dyn_relocs n)) i); [lia|].
  assert (E : field (r_endian (dyn_relocs n)) 4 (entry i + off) m = Ret (entry_word i off)).
  { rewrite field_value by (apply in_memory_spec; rewrite Hsz; change (Z.of_nat 4) with 4; lia).
    f_equal. apply value_at_ext. intros j Hj. apply Hu. lia. }
  unfold entry, entry_size in E. destruct (r_use (dyn_relocs n)); [congruence|exact E|exact E].
Qed.

Lemma entry_size_cases : entry_size = 8 \/ entry_size = 12.
Proof. unfold entry_size. destruct (r_use _); auto. Qed.

Lemma entry_addend m i : indexed i -> msize m = msize m0 -> unchanged_at m (entry i) entry_size ->
  read_addend (dyn_relocs n) i m = Ret (addend i).
Proof.
  intros Hi Hsz Hu. unfold read_addend, addend. destruct (r_use (dyn_relocs n)) eqn:E; try reflexivity.
  apply entry_field; try assumption; unfold entry_size; rewrite ?E; lia.
Qed.

Lemma apply_one_word m i : indexed i -> msize m = msize m0 -> unchanged_at m (entry i) entry_size ->
  unchanged_at m (symbol i) 16 -> (places i -> unchanged_at m (place i) 4) ->
  apply_one config 4 n i m =
  Ret (match relocated i with Some v => patched (match_endian n) (place i) (clear_bit0 v) m | None => m end).
Proof.
  intros Hi Hsz Hue Hus Hup. pose proof entry_size_cases as Hes. destruct (rl_symbol Hok i Hi) as [Hs1 Hs2].
  apply in_memory_spec in Hs2 as [Hs2 Hs3]. unfold apply_one, reloc_info.
  rewrite (entry_field m i 4 Hi Hsz Hue) by lia. cbn [mbind exec_bind]. fold (info i). unfold get_symbol.
  destruct (Z.leb_spec (nchain (dyn_table n)) (R_SYM (info i))); [lia|]. cbn [of_option mbind exec_bind]. fold (symbol i).
  assert (Ev : read_value (match_endian n) (symbol i) m = Ret (symbol_value i)).
  { unfold read_value. rewrite field_value by (apply in_memory_spec; change (Z.of_nat 4) with 4; lia).
    f_equal. apply value_at_ext. intros j Hj. apply Hus. lia. }
  rewrite Ev, (entry_addend m i Hi Hsz Hue). cbn [mbind exec_bind]. unfold read_offset.
  rewrite (entry_field m i 0 Hi Hsz Hue) by lia. cbn [mbind exec_bind]. fold (place i).
  assert (Hpl : places i -> in_memory m (place i) 4 = true).
  { intros Hp. pose proof (rl_place Hok i Hi Hp) as H'. apply in_memory_spec in H'. apply in_memory_spec. lia. }
  pose proof (rl_code Hok i Hi) as Hc. unfold places in Hup, Hpl. unfold relocated in *. unfold word_codes in Hc. cbn in Hc.
  destruct Hc as [Hc|[Hc|[Hc|[Hc|[Hc|[Hc|[Hc|[]]]]]]]]; rewrite <- Hc in *; cbn iota; try reflexivity;
    specialize (Hup (ex_intro _ _ eq_refl)); specialize (Hpl (ex_intro _ _ eq_refl));
    try (apply patch_code_word; exact Hpl).
  - change (4 <? 4) with false. cbn iota. change (Z.to_nat 4) with 4%nat. rewrite (field_value (match_endian n) 4 (place i) m Hpl). cbn [mbind exec_bind].
    rewrite (patch_code_word _ _ _ _ Hpl). do 5 f_equal. apply value_at_ext. exact Hup.
  - rewrite uwrap_sub_l. apply patch_code_word. exact Hpl.
Qed.

(** The memory after the relocations below [j]. *)
Record relocated_below (j : Z) (m : memory) : Prop := {
  rb_size : msize m = msize m0;
  rb_words : forall i v, 0 <= i < j -> relocated i = Some v -> value_at (match_endian n) 4 (place i) m = clear_bit0 v;
  rb_rest : forall a, (forall i, 0 <= i < j -> places i -> ~ (place i <= a < place i + 4)) -> bytes m a = bytes m0 a
}.

Lemma relocated_range i v : relocated i = Some v -> 0 <= v < 2 ^ 32.
Proof.
  unfold relocated. intros H. destruct (reloc_type config (info i)) as [|p|p]; try discriminate.
  repeat (destruct p as [p|p|]; try discriminate); injection H as <-; apply uwrap_range; lia.
Qed.

Lemma apart_unchanged j m a len : indexed j -> relocated_below j m ->
  (forall i, indexed i -> i <> j -> places i -> apart (place i) 4 a len) -> unchanged_at m a len.
Proof.
  intros Hj Hm Ha k Hk. apply (rb_rest _ _ Hm). intros i Hi Hp Hin. unfold indexed in *.
  destruct (Ha i) as [H|H]; try assumption; lia.
Qed.

Lemma relocated_step j m : indexed j -> relocated_below j m ->
  relocated_below (j + 1) (match relocated j with Some v => patched (match_endian n) (place j) (clear_bit0 v) m | None => m end).
Proof.
  intros Hj Hm. destruct (relocated j) as [v|] eqn:E.
  - assert (Hp : places j) by (exists v; exact E). pose proof (relocated_range j v E) as Hv. split.
    + exact (rb_size _ _ Hm).
    + intros i w Hi Ei. destruct (Z.eq_dec i j) as [->|Hne].
      * rewrite E in Ei. injection Ei as <-. apply value_at_patched, clear_bit0_range, Hv.
      * assert (Hij : 0 <= i < j) by lia. assert (Hpi : places i) by (exists w; exact Ei).
        rewrite <- (rb_words _ _ Hm i w Hij Ei). apply value_at_ext. intros a Ha. apply bytes_patched.
        unfold indexed in *. destruct (rl_apart Hok i j) as [H|H]; unfold indexed; try assumption; lia.
    + intros a Ha. rewrite bytes_patched by (apply Ha; [unfold indexed in *; lia|exact Hp]).
      apply (rb_rest _ _ Hm). intros i Hi. apply Ha. lia.
  - split.
    + exact (rb_size _ _ Hm).
    + intros i w Hi Ei. destruct (Z.eq_dec i j) as [->|]; [congruence|]. apply (rb_words _ _ Hm); [lia|exact Ei].
    + intros a Ha. apply (rb_rest _ _ Hm). intros i Hi. apply Ha. lia.
Qed.

Lemma apply_loop_words k : forall m, Z.of_nat k <= r_size (dyn_relocs n) -> relocated_below (r_size (dyn_relocs n) - Z.of_nat k) m ->
  exists m', apply_loop config 4 n k m = Ret m' /\ relocated_below (r_size (dyn_relocs n)) m'.
Proof.
  induction k as [|k IH]; intros m Hk Hm.
  - exists m. split; [reflexivity|]. replace (r_size (dyn_relocs n) - Z.of_nat 0) with (r_size (dyn_relocs n)) in Hm by lia. exact Hm.
  - set (j := r_size (dyn_relocs n) - Z.of_nat (S k)) in *. assert (Hj : indexed j) by (unfold indexed; lia).
    assert (E : apply_one config 4 n j m = Ret (match relocated j with
      Some v => patched (match_endian n) (place j) (clear_bit0 v) m | None => m end)).
    { apply apply_one_word; [exact Hj|exact (rb_size _ _ Hm)|apply (apart_unchanged j m _ _ Hj Hm)..|].
      - intros i Hi _ Hp. exact (rl_entries_apart Hok i j Hi Hj Hp).
      - intros i Hi _ Hp. exact (rl_symbols_apart Hok i j Hi Hj Hp).
      - intros Hp. apply (apart_unchanged j m _ _ Hj Hm). intros i Hi Hne Hpi. exact (rl_apart Hok i j Hi Hj Hpi Hne Hp). }
    cbn [apply_loop]. fold j. rewrite E. cbn [mbind exec_bind]. apply IH; [lia|].
    replace (r_size (dyn_relocs n) - Z.of_nat k) with (j + 1) by lia. apply relocated_step; assumption.
Qed.

Lemma relocations_applied : exists m, apply_relocations config 4 n m0 = Ret m /\ relocated_below (r_size (dyn_relocs n)) m.
Proof.
  unfold apply_relocations. rewrite (rl_has Hok). pose proof (rl_size Hok) as Hs. apply apply_loop_words; [lia|].
  split; [reflexivity|intros; lia|reflexivity].
Qed.
End relocations.

(** C29. Relocating an object whose tables and places are in the memory and apart,
    with relocations of a word or without effect only (the codes none, by the
    load address, copy, the symbol in three uses, relative to the place): the
    loop succeeds; each relocation's place then holds, in the order of the target
    and with its lowest bit cleared, the symbol's value plus the addend, less the
    place for a relative one, or the word there plus the load address, all from
    the memory before; no byte outside the places has changed.  Before that bit
    is cleared, the word is the one the ELF ABI defines exactly when the addend
    taken is the ABI's: entries without an addend (REL) use 0 where the ABI takes
    the word at the place, and relocations by the load address take that word even
    where the entry has an addend. *)
Theorem relocations_exact config n m0 : relocatable config n m0 ->
  exists m, apply_relocations config 4 n m0 = Ret m /\ msize m = msize m0 /\
    (forall i v, indexed n i -> relocated config n m0 i = Some v ->
       value_at (match_endian n) 4 (place n m0 i) m = Z.land v 0xFFFFFFFE /\
       (abi_word config n m0 i = Some v <-> u32 (addend_taken config n m0 i) = u32 (abi_addend n m0 i))) /\
    (forall a, (forall i, indexed n i -> places config n m0 i -> ~ (place n m0 i <= a < place n m0 i + 4)) ->
       bytes m a = bytes m0 a).
Proof.
  intros Hok. destruct (relocations_applied config n m0 Hok) as (m & E & Hm). exists m.
  split; [exact E|]. split; [exact (rb_size _ _ _ _ _ Hm)|]. split; [|exact (rb_rest _ _ _ _ _ Hm)].
  intros i v Hi Hv. split; [exact (rb_words _ _ _ _ _ Hm i v Hi Hv)|].
  rewrite <- (relocated_abi config n m0 i (ex_intro _ v Hv)), Hv. split; congruence.
Qed.

(** ** An object of a big-endian target: an absolute relocation and a relative
    one, with addends *)

Definition set_words (l : list (Z * Z)) (m : memory) : memory :=
  fold_left (fun m w => patched false w.1 w.2 m) l m.

Definition object_memory : memory :=
  set_words [(0, 0x40); (4, 0x107); (8, 5);            (* offset, info and addend *)
             (12, 0x44); (16, 0x001); (20, 0);
             (0x20 + 20, 0x1234);                      (* the value of symbol 1 *)
             (0x144, 0x2001)] (MkMemory (fun _ => 0) 0x200).

Definition object : link_node :=
  MkLink [] (MkTable 1 2 0 0 0x20 0 None None None false) (MkRelocs 0 2 AC_USE_RELA false) 0x100 None [] true true false false.

Lemma object_index i : indexed object i -> i = 0 \/ i = 1.
Proof. unfold indexed. cbn. lia. Qed.

Lemma object_relocatable : relocatable None object object_memory.
Proof.
  split; try reflexivity; try discriminate.
  - intros i [-> | ->]%object_index; vm_compute; reflexivity.
  - intros i [-> | ->]%object_index; vm_compute; auto.
  - intros i [-> | ->]%object_index; vm_compute; tauto.
  - intros i [-> | ->]%object_index _; vm_compute; reflexivity.
  - intros i j [-> | ->]%object_index [-> | ->]%object_index _ H _; try congruence; vm_compute; [left|right]; discriminate.
  - intros i j [-> | ->]%object_index [-> | ->]%object_index _; vm_compute; right; discriminate.
  - intros i j [-> | ->]%object_index [-> | ->]%object_index _; vm_compute; right; discriminate.
Qed.

Lemma relocations_exact_witness : exists m, apply_relocations None 4 object object_memory = Ret m /\
  value_at false 4 0x140 m = 0x1238 /\ value_at false 4 0x144 m = 0x2100.
Proof.
  destruct (relocations_exact None object object_memory object_relocatable) as (m & E & _ & Hw & _). exists m. split; [exact E|].
  split; [apply (Hw 0 0x1239)|apply (Hw 1 0x2101)]; try (split; vm_compute; congruence); vm_compute; reflexivity.
Defined.
