(* ===== verification/ElfLoad.v ===== *)
(** * Loading the application

    [ac_load_elf] of [archc/src/aclib/ac_utils/ac_utils.H] and
    [detect_static_glibc] of [ac_rtld.cpp]: the segments of an executable or the
    sections of an object file are copied into the target memory, the linker's
    memory map is set up, and a dynamic executable is linked. *)
From S2P Require Import Prelude DynMem MemMap RelMap DynInfo LinkNode.

(** What is known while the program headers are read; [a_interp] is set by a
    PT_INTERP segment, [a_heap] is [ac_heap_ptr]. *)
Record app := MkApp { a_dyn : Z; a_size : Z; a_heap : Z; a_interp : option (list Z); a_mem : memory }.

(** A read of [n] bytes whose count is compared with [(signed) n]. *)
Definition read_signed (f : file) (off n dst : Z) (m : memory) : exec memory :=
  if 2 ^ 31 <=? n then Exit "reading ELF LOAD segment." else read_file f off n dst m.

Definition cut_string (s : list Z) : list Z := (fix cut s := match s with [] => [] | c :: s => if c =? 0 then [] else c :: cut s end) s.

(** The name of the interpreter, at most 255 bytes of it. *)
Definition read_interp (f : file) (p : phdr) : exec (list Z) :=
  let n := Z.min (p_filesz p) 255 in
  if (n =? 0) || in_memory f (p_offset p) n
  then Ret (cut_string (map (fun i => bytes f (p_offset p + Z.of_nat i)) (seq 0 (Z.to_nat n))))
  else Exit "reading program interpreter segment".

Definition load_app_segment (f : file) (data_mem_size : Z) (p : phdr) (a : app) : exec app :=
  let last := u32 (p_vaddr p + p_memsz p) in
  if data_mem_size <? last then Exit "not enough memory in ArchC model to load application."
  else
    m ← read_signed f (p_offset p) (p_filesz p) (p_vaddr p) (a_mem a);
    m ← clear (p_vaddr p + p_filesz p) (u32 (p_memsz p - p_filesz p)) m;
    Ret (MkApp (a_dyn a) (Z.max (a_size a) last) (Z.max (a_heap a) last) (a_interp a) m).

Definition load_app_phdr (f : file) (data_mem_size : Z) (p : phdr) (a : app) : exec app :=
  if p_type p =? PT_INTERP then
    s ← read_interp f p; Ret (MkApp (a_dyn a) (a_size a) (a_heap a) (Some s) (a_mem a))
  else if p_type p =? PT_DYNAMIC then
    load_app_segment f data_mem_size p (MkApp (p_vaddr p) (a_size a) (a_heap a) (a_interp a) (a_mem a))
  else if p_type p =? PT_LOAD then load_app_segment f data_mem_size p a
  else Ret a.

Fixpoint load_app_phdrs (e : bool) (f : file) (data_mem_size num : Z) (n : nat) (a : app) : exec app :=
  match n with
  | O => Ret a
  | S n =>
      p ← read_phdr e f (num - Z.of_nat (S n));
      a ← load_app_phdr f data_mem_size p a;
      load_app_phdrs e f data_mem_size num n a
  end.

(** ** Sections *)

Record shdr := MkShdr { sh_name : Z; sh_addr : Z; sh_offset : Z; sh_size : Z }.

(** [None] is a short read. *)
Definition shdr_at (e : bool) (f : file) (at_ : Z) : exec (option shdr) :=
  if in_memory f at_ 40 then
    n ← field e 4 at_ f; a ← field e 4 (at_ + 12) f; o ← field e 4 (at_ + 16) f; s ← field e 4 (at_ + 20) f;
    Ret (Some (MkShdr n a o s))
  else Ret None.

(** [int] and two [short]s of the header. *)
Record sections := MkSections { shoff : Z; shndx : Z; shsize : Z }.

Definition read_sections (e : bool) (f : file) : exec sections :=
  o ← field e 4 32 f; n ← field e 2 50 f; s ← field e 2 46 f;
  Ret (MkSections (s32 o) (s16 n) (s16 s)).

(** A seek to a negative offset leaves the file behind its header. *)
Definition names_position (s : sections) : Z :=
  let at_ := s32 (shoff s + shndx s * shsize s) in if at_ <? 0 then 52 else at_.

Definition section_position (s : sections) (i : Z) : Z := u32 (shoff s + u32 (shsize s * i)).

(** The string table, as an array of its own; [None] is a short read. *)
Definition string_table (e : bool) (f : file) (s : sections) : exec (option memory) :=
  h ← shdr_at e f (names_position s);
  Ret (match h with
       | None => None
       | Some h =>
           if (sh_size h <? 2 ^ 31) && ((sh_size h =? 0) || in_memory f (sh_offset h) (sh_size h))
           then Some (MkMemory (fun i => bytes f (sh_offset h + i)) (sh_size h))
           else None
       end).

(** Whether the characters at [a] are those of [s]. *)
Fixpoint starts_with (s : list Z) (a : Z) (t : memory) : exec bool :=
  match s with
  | [] => Ret true
  | c :: s => x ← load 1 a t; if x =? c then starts_with s (a + 1) t else Ret false
  end.

Definition libc_prefix : list Z := [95; 95; 108; 105; 98; 99].
Definition text_name : list Z := [46; 116; 101; 120; 116; 0].
Definition data_name : list Z := [46; 100; 97; 116; 97; 0].
Definition bss_name : list Z := [46; 98; 115; 115; 0].

(** The last [n] of the [num] sections. *)
Fixpoint any_libc (e : bool) (f : file) (s : sections) (t : memory) (num : Z) (n : nat) : exec bool :=
  match n with
  | O => Ret false
  | S n =>
      h ← shdr_at e f (section_position s (num - Z.of_nat (S n)));
      match h with
      | None => Ret false
      | Some h => found ← starts_with libc_prefix (sh_name h) t; if found : bool then Ret true else any_libc e f s t num n
      end
  end.

Definition e_shnum (e : bool) (f : file) : exec Z := field e 2 48 f.

Definition detect_static_glibc (e : bool) (f : file) : exec bool :=
  if negb (is_elf f) then Ret false
  else
    s ← read_sections e f; t ← string_table e f s;
    match t with
    | None => Ret false
    | Some t => num ← e_shnum e f; any_libc e f s t num (Z.to_nat num)
    end.

(** One section: [true] in the result ends the loop. *)
Definition load_section (f : file) (t : memory) (data_mem_size : Z) (h : shdr) (a : app) : exec (bool * app) :=
  text ← starts_with text_name (sh_name h) t;
  data ← (if text : bool then Ret true else starts_with data_name (sh_name h) t);
  bss ← (if data : bool then Ret false else starts_with bss_name (sh_name h) t);
  if negb (data || bss) || (sh_size h =? 0) then Ret (false, a)
  else
    let last := u32 (sh_addr h + sh_size h) in
    if data_mem_size <? last then Exit "not enough memory in ArchC model to load application."
    else
      m ← (if bss : bool then clear (sh_addr h) (sh_size h) (a_mem a) else read_signed f (sh_offset h) (sh_size h) (sh_addr h) (a_mem a));
      Ret (bss, MkApp (a_dyn a) (a_size a) (Z.max (a_heap a) last) (a_interp a) m).

Fixpoint load_sections (e : bool) (f : file) (s : sections) (t : memory) (data_mem_size num : Z) (n : nat) (a : app) : exec app :=
  match n with
  | O => Ret a
  | S n =>
      h ← shdr_at e f (section_position s (num - Z.of_nat (S n)));
      match h with
      | None => Exit "reading ELF section header"
      | Some h =>
          '(stop, a) ← load_section f t data_mem_size h a;
          if stop : bool then Ret a else load_sections e f s t data_mem_size num n a
      end
  end.

Definition load_object (e : bool) (f : file) (data_mem_size : Z) (a : app) : exec app :=
  s ← read_sections e f; t ← string_table e f s;
  match t with
  | None => Exit "reading ELF string table."
  | Some t => num ← e_shnum e f; load_sections e f s t data_mem_size num (Z.to_nat num) a
  end.

(** ** [ac_load_elf] *)

(** The part that fills the memory. *)
Definition load_image (e : bool) (f : file) (data_mem_size heap : Z) (m : memory) : exec (Z * app) :=
  start ← e_entry e f;
  if data_mem_size <? start then Exit "the start address of the application is beyond model memory"
  else
    type ← e_type e f;
    let a := MkApp 0 0 heap None m in
    a ← (if type =? ET_EXEC then num ← e_phnum e f; load_app_phdrs e f data_mem_size num (Z.to_nat num) a
         else if type =? ET_REL then load_object e f data_mem_size a
         else Ret a);
    Ret (start, a).

Record loaded := MkLoaded { ld_start : Z; ld_heap : Z; ld_glibc : bool; ld_process : process }.

(** [None] inside is the result EXIT_FAILURE for a file that is no ELF file;
    the messages are those of [exit].  [page] is the page size of the host. *)
Definition ac_load_elf (fuel : nat) (files : file_system) (env : option (list Z)) (config : option hash_table) (wsize : Z)
    (e : bool) (page : Z) (filename : list Z) (data_mem_size heap : Z) (m : memory) : run (option loaded) :=
  match files filename with
  | None => Some (Exit "Opening application file")
  | Some f =>
      if negb (is_elf f) then Some (Ret None)
      else
        '(start, a) ← lift (load_image e f data_mem_size heap m);
        mm ← lift (initiate page start (a_size a) data_mem_size (a_heap a));
        glibc ← lift (detect_static_glibc e f);
        match a_interp a with
        | Some interp =>
            if a_dyn a =? 0 then Some (Exit "ELF executable requests a program interpreter but does not provide a DYNAMIC segment.")
            else
              '(p, start, heap) ← loadnlink_all fuel files env config (a_dyn a) interp start wsize e data_mem_size mm (a_mem a);
              Some (Ret (Some (MkLoaded start heap true p)))
        | None =>
            Some (Ret (Some (MkLoaded start (a_heap a) glibc
              (MkProcess (MkRtld [] (MkVectors [] [] []) config wsize) mm (a_mem a)))))
        end
  end.
