(* ===== verification/ImageOk.v ===== *)
(** * The segments of an ELF file reach the memory

    What [load_library] and [ac_load_elf] make of the program headers of a file:
    an address covered by a loadable segment holds that segment's byte, every
    other address is as before. *)
From S2P Require Import Prelude DynMem MemMap RelMap DynInfo LinkNode ElfLoad.

Section image.
Context (f : file) (h : Z -> phdr) (num base limit : Z) (m0 : memory).

Definition loadable (p : phdr) : bool := (p_type p =? PT_LOAD) || (p_type p =? PT_DYNAMIC).
Definition first_address (i : Z) : Z := base + p_vaddr (h i).

Definition covers (i a : Z) : Prop := loadable (h i) = true /\ first_address i <= a < first_address i + p_memsz (h i).

(** The byte of segment [i] for address [a]. *)
Definition segment_byte (i a : Z) : Z :=
  let k := a - first_address i in if k <? p_filesz (h i) then bytes f (p_offset (h i) + k) else 0.

Record segment_ok (i : Z) : Prop := {
  so_sizes : 0 <= p_filesz (h i) <= p_memsz (h i) /\ p_filesz (h i) < 2 ^ 31;
  so_file : 0 <= p_offset (h i) /\ p_offset (h i) + p_filesz (h i) <= msize f;
  so_memory : 0 <= p_vaddr (h i) /\ first_address i + p_memsz (h i) <= limit
}.

(** The file fits; segments that share addresses, as the dynamic one does with
    the one that holds it, agree on them. *)
Record segments_ok : Prop := {
  ss_base : 0 <= base;
  ss_limit : limit <= msize m0 /\ limit < 2 ^ 32;
  ss_segment : forall i, 0 <= i < num -> loadable (h i) = true -> segment_ok i;
  ss_agree : forall i j a, 0 <= i < num -> 0 <= j < num -> covers i a -> covers j a -> segment_byte i a = segment_byte j a
}.

Record image_below (j : Z) (m : memory) : Prop := {
  ib_size : msize m = msize m0;
  ib_bytes : forall i a, 0 <= i < j -> covers i a -> bytes m a = segment_byte i a;
  ib_rest : forall a, (forall i, 0 <= i < j -> ~ covers i a) -> bytes m a = bytes m0 a
}.

Hypothesis Hok : segments_ok.

Lemma image_start : image_below 0 m0.
Proof. split; [reflexivity|intros; lia|reflexivity]. Qed.

Lemma read_file_bytes off n dst m : 0 <= n -> 0 <= off -> off + n <= msize f -> 0 <= dst -> dst + n <= msize m ->
  exists m', read_file f off n dst m = Ret m' /\ msize m' = msize m /\
    forall a, bytes m' a = if (dst <=? a) && (a <? dst + n) then bytes f (off + (a - dst)) else bytes m a.
Proof.
  intros Hn Ho Hf Hd Hm. unfold read_file. destruct (Z.eqb_spec n 0) as [->|].
  - exists m. repeat split. intros a. destruct (Z.leb_spec dst a), (Z.ltb_spec a (dst + 0)); try lia; reflexivity.
  - rewrite (proj2 (in_memory_spec f off n)) by lia. rewrite (proj2 (in_memory_spec m dst n)) by lia.
    eexists. repeat split.
Qed.

Lemma clear_bytes n dst m : 0 <= n -> 0 <= dst -> dst + n <= msize m ->
  exists m', clear dst n m = Ret m' /\ msize m' = msize m /\
    forall a, bytes m' a = if (dst <=? a) && (a <? dst + n) then 0 else bytes m a.
Proof.
  intros Hn Hd Hm. unfold clear. destruct (Z.eqb_spec n 0) as [->|].
  - exists m. repeat split. intros a. destruct (Z.leb_spec dst a), (Z.ltb_spec a (dst + 0)); try lia; reflexivity.
  - rewrite (proj2 (in_memory_spec m dst n)) by lia. eexists. repeat split.
Qed.

(** The bytes of one segment. *)
Lemma segment_placed j m : 0 <= j < num -> loadable (h j) = true -> image_below j m ->
  exists m1 m2, read_file f (p_offset (h j)) (p_filesz (h j)) (first_address j) m = Ret m1 /\
    clear (first_address j + p_filesz (h j)) (u32 (p_memsz (h j) - p_filesz (h j))) m1 = Ret m2 /\ image_below (j + 1) m2.
Proof.
  intros Hj Hl Hm. destruct (ss_segment Hok j Hj Hl) as [Hs Hf Hv]. pose proof (ss_base Hok). destruct (ss_limit Hok) as [Hlim Hl32].
  pose proof (ib_size _ _ Hm) as Hsz. unfold first_address in *.
  destruct (read_file_bytes (p_offset (h j)) (p_filesz (h j)) (base + p_vaddr (h j)) m) as (m1 & E1 & S1 & B1); try lia.
  rewrite (uwrap_small 32) by lia.
  destruct (clear_bytes (p_memsz (h j) - p_filesz (h j)) (base + p_vaddr (h j) + p_filesz (h j)) m1) as (m2 & E2 & S2 & B2); try lia.
  exists m1, m2. split; [exact E1|]. split; [exact E2|].
  assert (Hin : forall a, covers j a -> bytes m2 a = segment_byte j a).
  { intros a [_ Ha]. unfold first_address in Ha. rewrite B2, B1. unfold segment_byte, first_address.
    destruct (Z.ltb_spec (a - (base + p_vaddr (h j))) (p_filesz (h j)));
      destruct (Z.leb_spec (base + p_vaddr (h j) + p_filesz (h j)) a),
               (Z.ltb_spec a (base + p_vaddr (h j) + p_filesz (h j) + (p_memsz (h j) - p_filesz (h j)))),
               (Z.leb_spec (base + p_vaddr (h j)) a), (Z.ltb_spec a (base + p_vaddr (h j) + p_filesz (h j))); cbn [andb]; try lia; reflexivity. }
  assert (Hout : forall a, ~ covers j a -> bytes m2 a = bytes m a).
  { intros a Ha. unfold covers, first_address in Ha. rewrite B2, B1.
    destruct (Z.leb_spec (base + p_vaddr (h j) + p_filesz (h j)) a),
             (Z.ltb_spec a (base + p_vaddr (h j) + p_filesz (h j) + (p_memsz (h j) - p_filesz (h j)))),
             (Z.leb_spec (base + p_vaddr (h j)) a), (Z.ltb_spec a (base + p_vaddr (h j) + p_filesz (h j))); cbn [andb]; try reflexivity;
      exfalso; apply Ha; split; try assumption; lia. }
  assert (Hdec : forall a, covers j a \/ ~ covers j a).
  { intros a. unfold covers. destruct (Z_le_gt_dec (first_address j) a), (Z_lt_ge_dec a (first_address j + p_memsz (h j))); [left|right..]; try (intros []); try split; try assumption; lia. }
  split.
  - lia.
  - intros i a Hi Hc. destruct (Hdec a) as [Ha|Ha].
    + rewrite (Hin a Ha). apply (ss_agree Hok j i a); try assumption; lia.
    + rewrite (Hout a Ha). apply (ib_bytes _ _ Hm); [|exact Hc]. destruct (Z.eq_dec i j) as [->|]; [contradiction|lia].
  - intros a Ha. rewrite (Hout a) by (apply Ha; lia). apply (ib_rest _ _ Hm). intros i Hi. apply Ha. lia.
Qed.

Lemma segment_skipped j m : loadable (h j) = false -> image_below j m -> image_below (j + 1) m.
Proof.
  intros Hl Hm. split; [exact (ib_size _ _ Hm)|..].
  - intros i a Hi Hc. apply (ib_bytes _ _ Hm); [|exact Hc]. destruct (Z.eq_dec i j) as [->|]; [|lia]. destruct Hc as [Hc _]. congruence.
  - intros a Ha. apply (ib_rest _ _ Hm). intros i Hi. apply Ha. lia.
Qed.

(** [last] is the end of the highest segment below [j], or [start]. *)
Definition highest_end (start j last : Z) : Prop :=
  start <= last /\ (forall i, 0 <= i < j -> loadable (h i) = true -> p_vaddr (h i) + p_memsz (h i) <= last) /\
  (last = start \/ exists i, 0 <= i < j /\ loadable (h i) = true /\ last = p_vaddr (h i) + p_memsz (h i)).

Lemma highest_end_step start j last : 0 <= j -> highest_end start j last -> loadable (h j) = true ->
  highest_end start (j + 1) (Z.max last (p_vaddr (h j) + p_memsz (h j))).
Proof.
  intros Hj (H1 & H2 & H3) Hl. split; [lia|]. split.
  - intros i Hi Hli. destruct (Z.eq_dec i j) as [->|]; [lia|]. specialize (H2 i). lia || (assert (0 <= i < j) by lia; specialize (H2 H Hli); lia).
  - destruct (Z.max_spec last (p_vaddr (h j) + p_memsz (h j))) as [[_ ->]|[_ ->]].
    + right. exists j. repeat split; try assumption; lia.
    + destruct H3 as [->|(i & Hi & Hli & ->)]; [left; reflexivity|right]. exists i. repeat split; try assumption; lia.
Qed.

Lemma highest_end_skip start j last : highest_end start j last -> loadable (h j) = false -> highest_end start (j + 1) last.
Proof.
  intros (H1 & H2 & H3) Hl. split; [exact H1|]. split.
  - intros i Hi Hli. apply H2; [|exact Hli]. destruct (Z.eq_dec i j) as [->|]; [congruence|lia].
  - destruct H3 as [->|(i & Hi & Hli & ->)]; [left; reflexivity|right]. exists i. repeat split; try assumption; lia.
Qed.
End image.

Lemma loadable_cases p : loadable p = (p_type p =? PT_DYNAMIC) || (p_type p =? PT_LOAD).
Proof. apply Bool.orb_comm. Qed.

(** ** A library *)

Section library.
Context (f : file) (h : Z -> phdr) (num base limit : Z) (m0 : memory).

(** The dynamic segment seen last. *)
Definition dynamic_below (j addr size : Z) : Prop :=
  (addr = 0 /\ size = 0 /\ forall i, 0 <= i < j -> p_type (h i) <> PT_DYNAMIC) \/
  (exists i, 0 <= i < j /\ p_type (h i) = PT_DYNAMIC /\ addr = base + p_vaddr (h i) /\ size = p_memsz (h i)).

Record library_below (j : Z) (l : loading) : Prop := {
  lb_image : image_below f h base m0 j (l_mem l);
  lb_total : highest_end h 0 j (l_total l);
  lb_dynamic : dynamic_below j (l_dyn_addr l) (l_dyn_size l)
}.

Hypothesis Hok : segments_ok f h num base limit m0.

Lemma dynamic_skip j a s : dynamic_below j a s -> p_type (h j) <> PT_DYNAMIC -> dynamic_below (j + 1) a s.
Proof.
  intros [(-> & -> & H)|(i & Hi & H)] Hne; [left|right; exists i; split; [lia|exact H]].
  repeat split. intros i Hi. destruct (Z.eq_dec i j) as [->|]; [exact Hne|apply H; lia].
Qed.

Lemma load_segment_ok j d s l : 0 <= j < num -> loadable (h j) = true -> library_below j l ->
  dynamic_below (j + 1) d s ->
  exists l', load_segment f base limit (h j) (MkLoading d s (l_total l) (l_mem l)) = Ret l' /\ library_below (j + 1) l'.
Proof.
  intros Hj Hl [Hi Ht _] Hd. destruct (ss_segment _ _ _ _ _ _ Hok j Hj Hl) as [Hs Hf Hv]. pose proof (ss_base _ _ _ _ _ _ Hok).
  destruct (ss_limit _ _ _ _ _ _ Hok) as [_ Hl32]. unfold first_address in Hv.
  destruct (segment_placed f h num base limit m0 Hok j (l_mem l) Hj Hl Hi) as (m1 & m2 & E1 & E2 & Hi').
  unfold load_segment, first_address in *. rewrite !(uwrap_small 32 (p_vaddr (h j) + p_memsz (h j))) by lia.
  rewrite (uwrap_small 32 (_ + base)) by lia. destruct (Z.ltb_spec limit (p_vaddr (h j) + p_memsz (h j) + base)); [lia|].
  cbn [l_mem l_total l_dyn_addr l_dyn_size]. rewrite (Z.add_comm (p_vaddr (h j)) base), E1. cbn [mbind exec_bind]. rewrite E2. cbn [mbind exec_bind].
  eexists. split; [reflexivity|]. split; [exact Hi'| |exact Hd].
  replace (if l_total l <? p_vaddr (h j) + p_memsz (h j) then p_vaddr (h j) + p_memsz (h j) else l_total l)
    with (Z.max (l_total l) (p_vaddr (h j) + p_memsz (h j))) by (destruct (Z.ltb_spec (l_total l) (p_vaddr (h j) + p_memsz (h j))); lia).
  apply highest_end_step; [lia|exact Ht|exact Hl].
Qed.

Lemma process_phdr_ok j l : 0 <= j < num -> library_below j l ->
  exists l', process_phdr f base limit (h j) l = Ret l' /\ library_below (j + 1) l'.
Proof.
  intros Hj Hl. pose proof (loadable_cases (h j)) as Hc. unfold process_phdr.
  destruct (Z.eqb_spec (p_type (h j)) PT_DYNAMIC) as [Et|Et].
  - cbn in Hc. destruct (ss_segment _ _ _ _ _ _ Hok j Hj Hc) as [Hs _ Hv]. pose proof (ss_base _ _ _ _ _ _ Hok).
    destruct (ss_limit _ _ _ _ _ _ Hok) as [_ Hl32]. unfold first_address in Hv. rewrite uwrap_small by lia.
    apply load_segment_ok; try assumption. right. exists j. repeat split; try assumption; lia.
  - destruct (Z.eqb_spec (p_type (h j)) PT_LOAD) as [Et'|Et']; cbn in Hc.
    + destruct l as [d s t m]. apply (load_segment_ok j d s (MkLoading d s t m)); try assumption.
      apply dynamic_skip; [exact (lb_dynamic _ _ Hl)|exact Et].
    + exists l. split; [reflexivity|]. destruct Hl as [Hi Ht Hd]. split.
      * apply segment_skipped; assumption.
      * apply highest_end_skip; assumption.
      * apply dynamic_skip; assumption.
Qed.

Lemma load_phdrs_ok e n : (forall i, 0 <= i < num -> read_phdr e f i = Ret (h i)) -> forall l, Z.of_nat n <= num ->
  library_below (num - Z.of_nat n) l -> exists l', load_phdrs e f base limit num n l = Ret l' /\ library_below num l'.
Proof.
  intros Hh. induction n as [|n IH]; intros l Hn Hl.
  - exists l. split; [reflexivity|]. replace (num - Z.of_nat 0) with num in Hl by lia. exact Hl.
  - cbn [load_phdrs]. rewrite (Hh (num - Z.of_nat (S n))) by lia. cbn [mbind exec_bind].
    destruct (process_phdr_ok (num - Z.of_nat (S n)) l) as (l1 & E & Hl1); [lia|exact Hl|]. rewrite E. cbn [mbind exec_bind].
    apply IH; [lia|]. replace (num - Z.of_nat n) with (num - Z.of_nat (S n) + 1) by lia. exact Hl1.
Qed.
End library.

(** [load_library] of an ELF library whose segments fit and agree: the memory
    holds the image, and the size and the dynamic segment are those of the
    headers. *)
Theorem load_library_exact files env e base soname limit m0 f h num :
  find_file files env soname = Some f -> is_elf f = true -> e_type e f = Ret ET_DYN -> e_phnum e f = Ret num -> 0 <= num ->
  (forall i, 0 <= i < num -> read_phdr e f i = Ret (h i)) -> segments_ok f h num base limit m0 ->
  exists l, load_library files env e base soname limit m0 = Ret l /\ library_below f h base m0 num l.
Proof.
  intros Ef Hel Et En Hn Hh Hok. unfold load_library. rewrite Ef, Hel, Et. cbn [negb mbind exec_bind].
  change (ET_DYN =? ET_DYN) with true. cbn [negb]. rewrite En. cbn [mbind exec_bind].
  apply (load_phdrs_ok f h num base limit m0 Hok e (Z.to_nat num) Hh); [lia|].
  replace (num - Z.of_nat (Z.to_nat num)) with 0 by lia. split; cbn.
  - apply image_start.
  - split; [lia|]. split; [intros; lia|left; reflexivity].
  - left. repeat split. intros; lia.
Qed.

(** ** The application *)

Section application.
Context (f : file) (h : Z -> phdr) (num limit heap : Z) (m0 : memory).

Definition no_interp (j : Z) : Prop := forall i, 0 <= i < j -> p_type (h i) <> PT_INTERP.

Record app_below (j : Z) (a : app) : Prop := {
  ab_image : image_below f h 0 m0 j (a_mem a);
  ab_size : highest_end h 0 j (a_size a);
  ab_heap : highest_end h heap j (a_heap a);
  ab_interp : a_interp a = None <-> no_interp j
}.

Hypothesis Hok : segments_ok f h num 0 limit m0.
Hypothesis Hinterp : forall i, 0 <= i < num -> p_type (h i) = PT_INTERP -> exists s, read_interp f (h i) = Ret s.

Lemma no_interp_step j : p_type (h j) <> PT_INTERP -> 0 <= j -> no_interp (j + 1) <-> no_interp j.
Proof.
  intros Hne Hj. split; intros H i Hi; [apply H; lia|]. destruct (Z.eq_dec i j) as [->|]; [exact Hne|apply H; lia].
Qed.

Lemma load_app_segment_ok j d a : 0 <= j < num -> loadable (h j) = true -> p_type (h j) <> PT_INTERP -> app_below j a ->
  exists a', load_app_segment f limit (h j) (MkApp d (a_size a) (a_heap a) (a_interp a) (a_mem a)) = Ret a' /\ app_below (j + 1) a'.
Proof.
  intros Hj Hl Hni [Hi Hs Hh Hn]. destruct (ss_segment _ _ _ _ _ _ Hok j Hj Hl) as [Hsz Hf Hv].
  destruct (ss_limit _ _ _ _ _ _ Hok) as [_ Hl32]. unfold first_address in Hv.
  destruct (segment_placed f h num 0 limit m0 Hok j (a_mem a) Hj Hl Hi) as (m1 & m2 & E1 & E2 & Hi').
  unfold load_app_segment, read_signed, first_address in *. rewrite !Z.add_0_l in *.
  rewrite !(uwrap_small 32 (p_vaddr (h j) + p_memsz (h j))) by lia.
  destruct (Z.ltb_spec limit (p_vaddr (h j) + p_memsz (h j))); [lia|]. destruct (Z.leb_spec (2 ^ 31) (p_filesz (h j))); [lia|].
  cbn [a_mem a_dyn a_size a_heap a_interp]. rewrite E1. cbn [mbind exec_bind]. rewrite E2. cbn [mbind exec_bind].
  eexists. split; [reflexivity|]. split; cbn.
  - exact Hi'.
  - apply highest_end_step; [lia|assumption..].
  - apply highest_end_step; [lia|assumption..].
  - rewrite no_interp_step by (assumption || lia). exact Hn.
Qed.

Lemma load_app_phdr_ok j a : 0 <= j < num -> app_below j a ->
  exists a', load_app_phdr f limit (h j) a = Ret a' /\ app_below (j + 1) a'.
Proof.
  intros Hj Ha. pose proof (loadable_cases (h j)) as Hc. unfold load_app_phdr.
  destruct (Z.eqb_spec (p_type (h j)) PT_INTERP) as [Et|Hni].
  - destruct (Hinterp j Hj Et) as (s & ->). cbn [mbind exec_bind]. eexists. split; [reflexivity|]. destruct Ha as [Hi Hs Hh Hn].
    rewrite Et in Hc. cbn in Hc. split; cbn; [apply segment_skipped|apply highest_end_skip|apply highest_end_skip|]; try assumption.
    split; [discriminate|]. intros H. exfalso. apply (H j); [lia|exact Et].
  - destruct (Z.eqb_spec (p_type (h j)) PT_DYNAMIC) as [Et|Et].
    + apply load_app_segment_ok; assumption.
    + destruct (Z.eqb_spec (p_type (h j)) PT_LOAD) as [Et'|Et']; cbn in Hc.
      * destruct a as [d s hp ip m]. apply (load_app_segment_ok j d (MkApp d s hp ip m)); assumption.
      * exists a. split; [reflexivity|]. destruct Ha as [Hi Hs Hh Hn].
        split; [apply segment_skipped|apply highest_end_skip|apply highest_end_skip|rewrite no_interp_step by (assumption || lia)]; assumption.
Qed.

Lemma load_app_phdrs_ok e n : (forall i, 0 <= i < num -> read_phdr e f i = Ret (h i)) -> forall a, Z.of_nat n <= num ->
  app_below (num - Z.of_nat n) a -> exists a', load_app_phdrs e f limit num n a = Ret a' /\ app_below num a'.
Proof.
  intros Hh. induction n as [|n IH]; intros a Hn Ha.
  - exists a. split; [reflexivity|]. replace (num - Z.of_nat 0) with num in Ha by lia. exact Ha.
  - cbn [load_app_phdrs]. rewrite (Hh (num - Z.of_nat (S n))) by lia. cbn [mbind exec_bind].
    destruct (load_app_phdr_ok (num - Z.of_nat (S n)) a) as (a1 & E & Ha1); [lia|exact Ha|]. rewrite E. cbn [mbind exec_bind].
    apply IH; [lia|]. replace (num - Z.of_nat n) with (num - Z.of_nat (S n) + 1) by lia. exact Ha1.
Qed.
End application.

(** C27. Loading an executable whose headers can be read and whose segments fit
    the file and the memory, and agree where they share addresses: the load
    succeeds; every address of a loadable segment holds that segment's byte of
    the file, or zero behind the bytes the file has; every other address is as
    before; and the size and the heap are the end of the highest segment. *)
Theorem load_image_exact e f h num limit heap m0 start :
  e_entry e f = Ret start -> start <= limit -> e_type e f = Ret ET_EXEC -> e_phnum e f = Ret num -> 0 <= num ->
  (forall i, 0 <= i < num -> read_phdr e f i = Ret (h i)) -> segments_ok f h num 0 limit m0 ->
  (forall i, 0 <= i < num -> p_type (h i) = PT_INTERP -> exists s, read_interp f (h i) = Ret s) ->
  exists a, load_image e f limit heap m0 = Ret (start, a) /\ msize (a_mem a) = msize m0 /\
    (forall i b, 0 <= i < num -> covers h 0 i b -> bytes (a_mem a) b = segment_byte f h 0 i b) /\
    (forall b, (forall i, 0 <= i < num -> ~ covers h 0 i b) -> bytes (a_mem a) b = bytes m0 b) /\
    highest_end h 0 num (a_size a) /\ highest_end h heap num (a_heap a) /\
    (a_interp a = None <-> forall i, 0 <= i < num -> p_type (h i) <> PT_INTERP).
Proof.
  intros Ee Hs Et En Hn Hh Hok Hi. unfold load_image. rewrite Ee. cbn [mbind exec_bind].
  destruct (Z.ltb_spec limit start); [lia|]. rewrite Et. cbn [mbind exec_bind]. change (ET_EXEC =? ET_EXEC) with true. cbn iota.
  rewrite En. cbn [mbind exec_bind].
  destruct (load_app_phdrs_ok f h num limit heap m0 Hok Hi e (Z.to_nat num) Hh (MkApp 0 0 heap None m0)) as (a & E & [Ha Hsz Hhp Hin]).
  - lia.
  - replace (num - Z.of_nat (Z.to_nat num)) with 0 by lia. split; cbn.
    + apply image_start.
    + split; [lia|]. split; [intros; lia|left; reflexivity].
    + split; [lia|]. split; [intros; lia|left; reflexivity].
    + split; [intros _ i Hij; lia|reflexivity].
  - exists a. rewrite E. cbn [mbind exec_bind]. split; [reflexivity|]. destruct Ha as [Hz Hb Hr].
    exact (conj Hz (conj Hb (conj Hr (conj Hsz (conj Hhp Hin))))).
Qed.

(** ** A file with a loadable segment that holds the dynamic one *)

Definition sample_elf : file :=
  put 4 0 0x464c457f (put 2 16 ET_EXEC (put 4 24 0x104 (put 4 28 52 (put 2 42 32 (put 2 44 2
    (put 4 52 PT_LOAD (put 4 56 120 (put 4 60 0x100 (put 4 68 8 (put 4 72 16
    (put 4 84 PT_DYNAMIC (put 4 88 124 (put 4 92 0x104 (put 4 100 4 (put 4 104 4
    (put 4 120 0x11223344 (put 4 124 0x55667788 (MkMemory (fun _ => 0) 128)))))))))))))))))).

Definition sample_header (i : Z) : phdr :=
  if i =? 0 then MkPhdr PT_LOAD 120 0x100 8 16 else MkPhdr PT_DYNAMIC 124 0x104 4 4.

Definition sample_memory : memory := MkMemory (fun _ => 0xee) 0x1000.

Lemma sample_index i : 0 <= i < 2 -> i = 0 \/ i = 1.
Proof. lia. Qed.

Lemma sample_segments : segments_ok sample_elf sample_header 2 0 0x1000 sample_memory.
Proof.
  split; [lia|split; vm_compute; congruence| |].
  - intros i [-> | ->]%sample_index _; split; vm_compute; split; congruence || (split; congruence).
  - intros i j a [-> | ->]%sample_index [-> | ->]%sample_index [_ Hi] [_ Hj]; try reflexivity; unfold segment_byte;
      change (first_address sample_header 0 0) with 0x100 in *; change (first_address sample_header 0 1) with 0x104 in *;
      change (p_memsz (sample_header 0)) with 16 in *; change (p_memsz (sample_header 1)) with 4 in *;
      change (p_filesz (sample_header 0)) with 8; change (p_filesz (sample_header 1)) with 4;
      change (p_offset (sample_header 0)) with 120; change (p_offset (sample_header 1)) with 124;
      destruct (Z.ltb_spec (a - 0x100) 8), (Z.ltb_spec (a - 0x104) 4); try lia; f_equal; lia.
Qed.

Lemma sample_headers i : 0 <= i < 2 -> read_phdr true sample_elf i = Ret (sample_header i).
Proof. intros [-> | ->]%sample_index; vm_compute; reflexivity. Qed.

Lemma load_image_exact_witness : exists a, load_image true sample_elf 0x1000 0 sample_memory = Ret (0x104, a) /\
  bytes (a_mem a) 0x105 = 0x77 /\ bytes (a_mem a) 0x108 = 0 /\ bytes (a_mem a) 0x110 = 0xee.
Proof.
  destruct (load_image_exact true sample_elf sample_header 2 0x1000 0 sample_memory 0x104) as (a & E & _ & Hb & Hr & _).
  1-5: first [vm_compute; reflexivity|lia|vm_compute; congruence].
  - exact sample_headers.
  - exact sample_segments.
  - intros i [-> | ->]%sample_index; discriminate.
  - exists a. split; [exact E|]. split; [|split].
    + rewrite (Hb 0 0x105); [vm_compute; reflexivity|lia|split; vm_compute; [reflexivity|split; congruence]].
    + rewrite (Hb 0 0x108); [vm_compute; reflexivity|lia|split; vm_compute; [reflexivity|split; congruence]].
    + rewrite Hr; [reflexivity|]. intros i [-> | ->]%sample_index [_ H]; revert H; vm_compute; intros [H1 H2]; congruence.
Defined.
