(* ===== verification/Storage.v ===== *)
(** * The storage library: memories, transaction ports, registers, delays

    [archc/src/aclib/ac_storage] and [ac_tlm]: the interface [ac_inout_if] with
    its two implementations [ac_storage] (an array of bytes) and [ac_tlm_port]
    (transactions of four bytes), the wrapper [ac_memport] with its loader,
    registers [ac_reg], register banks [ac_regbank] and the queues of delayed
    updates, as built with [AC_DELAY].  Host words are little endian; a buffer is
    the list of its items, and an access outside a buffer, an array or a bank is
    a [Crash]. *)
From S2P Require Import Prelude DynMem MemMap RelMap DynInfo LinkNode ElfLoad CString.

(** ** The interface [ac_inout_if] *)

(** The methods take the item or items of the buffer, the address and the word
    size in bits; a read gives the buffer after it. *)
Class InOut (S : Type) := {
  io_read : Z -> Z -> Z -> S -> exec (Z * S);
  io_read_n : list Z -> Z -> Z -> Z -> S -> exec (list Z * S);
  io_write : Z -> Z -> Z -> S -> exec S;
  io_write_n : list Z -> Z -> Z -> Z -> S -> exec S;
  io_lock : S -> exec S;
  io_unlock : S -> exec S;
  io_size : S -> Z
}.

(** The bytes of an item; [None] is a weird size. *)
Definition item_bytes (wordsize : Z) : option nat :=
  if wordsize =? 8 then Some 1%nat else if wordsize =? 16 then Some 2%nat
  else if wordsize =? 32 then Some 4%nat else if wordsize =? 64 then Some 8%nat else None.

(** ** [ac_storage] *)

Record ac_storage := MkStorage { stg_name : string; data : memory }.

Definition set_data (m : memory) (s : ac_storage) : ac_storage := MkStorage (stg_name s) m.

(** [new unsigned char\[sz\]]; [junk]: the bytes it finds. *)
Definition new_storage (junk : Z -> Z) (nm : string) (sz : Z) : ac_storage := MkStorage nm (MkMemory junk sz).

Definition storage_read (buf address wordsize : Z) (s : ac_storage) : exec Z :=
  match item_bytes wordsize with Some k => load k address (data s) | None => Ret buf end.

(** The items [first + i], [first + i + 1], ... of the array seen as items of
    [k] bytes. *)
Fixpoint read_words (k : nat) (first i : Z) (n : nat) (m : memory) : exec (list Z) :=
  match n with
  | O => Ret []
  | S n => v ← load k (Z.of_nat k * u32 (first + i)) m; l ← read_words k first (i + 1) n m; Ret (v :: l)
  end.

Definition storage_read_n (buf : list Z) (address wordsize n : Z) (s : ac_storage) : exec (list Z) :=
  match item_bytes wordsize with
  | Some k =>
      l ← read_words k (address / Z.of_nat k) 0 (Z.to_nat n) (data s);
      if (length buf <? Z.to_nat n)%nat then Crash else Ret (l ++ drop (Z.to_nat n) buf)
  | None => Ret buf
  end.

Definition storage_write (buf address wordsize : Z) (s : ac_storage) : exec ac_storage :=
  match item_bytes wordsize with
  | Some k => m ← store k address buf (data s); Ret (set_data m s)
  | None => Ret s
  end.

Fixpoint write_words (k : nat) (first i : Z) (items : list Z) (m : memory) : exec memory :=
  match items with
  | [] => Ret m
  | v :: items => m ← store k (Z.of_nat k * u32 (first + i)) v m; write_words k first (i + 1) items m
  end.

Definition storage_write_n (buf : list Z) (address wordsize n : Z) (s : ac_storage) : exec ac_storage :=
  match item_bytes wordsize with
  | Some k =>
      if (length buf <? Z.to_nat n)%nat then Crash
      else m ← write_words k (address / Z.of_nat k) 0 (take (Z.to_nat n) buf) (data s); Ret (set_data m s)
  | None => Ret s
  end.

#[export] Instance storage_inout : InOut ac_storage := {|
  io_read buf a w s := v ← storage_read buf a w s; Ret (v, s);
  io_read_n buf a w n s := l ← storage_read_n buf a w n s; Ret (l, s);
  io_write := storage_write;
  io_write_n := storage_write_n;
  io_lock s := Ret s;
  io_unlock s := Ret s;
  io_size s := msize (data s)
|}.

(** ** [ac_tlm_port] *)

Inductive req_type := READ | WRITE | LOCK | UNLOCK | REQUEST_COUNT.
Record tlm_req := MkTlmReq { type : req_type; dev_id : Z; addr : Z; req_data : Z }.
Record tlm_rsp := MkTlmRsp { success : bool; rsp_data : Z }.

(** The device a port is bound to. *)
Class Transport (M : Type) := { transport : tlm_req -> M -> exec (tlm_rsp * M) }.

Section Port.
Context {M : Type} `{!Transport M}.

(** Fields of a request that are not initialised, and the device of the port. *)
Context (junk_type : req_type) (junk dev_id_ size_ : Z).

(** Item [j] of [k] bytes of a word of the union. *)
Definition item_of (k : nat) (d j : Z) : Z := Z.land (Z.shiftr d (8 * Z.of_nat k * j)) (Z.ones (8 * Z.of_nat k)).

Definition put_item (k : nat) (d j v : Z) : Z :=
  let o := 8 * Z.of_nat k * j in let mask := Z.shiftl (Z.ones (8 * Z.of_nat k)) o in
  Z.lor (Z.ldiff d mask) (Z.land (Z.shiftl v o) mask).

Definition tlm_read (buf address wordsize : Z) (m : M) : exec (Z * M) :=
  '(rsp, m) ← transport (MkTlmReq READ junk address 0) m;
  Ret (if success rsp then
         if wordsize =? 8 then item_of 1 (rsp_data rsp) 0
         else if wordsize =? 16 then item_of 2 (rsp_data rsp) 0
         else if (wordsize =? 32) || (wordsize =? 64) then rsp_data rsp
         else buf
       else buf, m).

(** The loop of a read of [n] items of [k] bytes, [g] of which come with one
    answer; [a] is the address and [buf] the buffer from the next item on.  An
    answer that is no success skips one item. *)
Fixpoint read_items (fuel : nat) (k g : nat) (step a : Z) (n : nat) (buf : list Z) (m : M) : exec (list Z * M) :=
  match n, fuel with
  | O, _ => Ret (buf, m)
  | _, O => Crash
  | _, S fuel =>
      '(rsp, m) ← transport (MkTlmReq READ junk (u32 a) 0) m;
      let j := if success rsp then Nat.min g n else 1%nat in
      let new := if success rsp then map (item_of k (rsp_data rsp)) (seqZ 0 (Z.of_nat j)) else take 1 buf in
      '(rest, m) ← read_items fuel k g step (a + step * Z.of_nat j) (n - j) (drop j buf) m;
      Ret (new ++ rest, m)
  end.

Definition tlm_read_n (buf : list Z) (address wordsize n : Z) (m : M) : exec (list Z * M) :=
  let n := Z.to_nat n in
  if (length buf <? n)%nat && bool_decide (is_Some (item_bytes wordsize)) then Crash
  else if wordsize =? 8 then read_items n 1 4 1 address n buf m
  else if wordsize =? 16 then read_items n 2 2 2 address n buf m
  else if wordsize =? 32 then read_items n 4 1 4 address n buf m
  else if wordsize =? 64 then read_items n 4 1 8 address n buf m
  else Ret (buf, m).

(** A byte and a half word are mixed into the word that is read first. *)
Definition tlm_write (buf address wordsize : Z) (m : M) : exec M :=
  if (wordsize =? 8) || (wordsize =? 16) then
    '(rsp, m) ← transport (MkTlmReq READ junk address junk) m;
    '(_, m) ← transport (MkTlmReq WRITE junk address (put_item (Z.to_nat (wordsize / 8)) (rsp_data rsp) 0 buf)) m;
    Ret m
  else if (wordsize =? 32) || (wordsize =? 64) then
    '(_, m) ← transport (MkTlmReq WRITE junk address (u32 buf)) m; Ret m
  else Ret m.

Fixpoint put_items (k : nat) (d j : Z) (items : list Z) : Z :=
  match items with [] => d | v :: items => put_items k (put_item k d j v) (j + 1) items end.

(** The loop of a write of items of [k] bytes, [g] of which go with one request. *)
Fixpoint write_items (fuel : nat) (k g : nat) (a : Z) (items : list Z) (m : M) : exec M :=
  match items, fuel with
  | [], _ => Ret m
  | _, O => Crash
  | _, S fuel =>
      '(rsp, m) ← transport (MkTlmReq READ junk (u32 a) 0) m;
      '(_, m) ← transport (MkTlmReq WRITE junk (u32 a) (put_items k (rsp_data rsp) 0 (take g items))) m;
      write_items fuel k g (a + Z.of_nat k * Z.of_nat g) (drop g items) m
  end.

(** Whole words, without reading first. *)
Fixpoint write_requests (type : req_type) (step a : Z) (items : list Z) (m : M) : exec M :=
  match items with
  | [] => Ret m
  | v :: items =>
      '(_, m) ← transport (MkTlmReq type junk (u32 a) (u32 v)) m;
      write_requests type step (a + step) items m
  end.

(** The requests of a 64-bit write have no type. *)
Definition tlm_write_n (buf : list Z) (address wordsize n : Z) (m : M) : exec M :=
  let n := Z.to_nat n in let items := take n buf in
  if (length buf <? n)%nat && bool_decide (is_Some (item_bytes wordsize)) then Crash
  else if wordsize =? 8 then write_items n 1 4 address items m
  else if wordsize =? 16 then write_items n 2 2 address items m
  else if wordsize =? 32 then write_requests WRITE 4 address items m
  else if wordsize =? 64 then write_requests junk_type 8 address items m
  else Ret m.

Definition tlm_lock (m : M) : exec M := '(_, m) ← transport (MkTlmReq LOCK dev_id_ junk junk) m; Ret m.
Definition tlm_unlock (m : M) : exec M := '(_, m) ← transport (MkTlmReq UNLOCK dev_id_ junk junk) m; Ret m.

Definition tlm_port_inout : InOut M := {|
  io_read := tlm_read; io_read_n := tlm_read_n; io_write := tlm_write; io_write_n := tlm_write_n;
  io_lock := tlm_lock; io_unlock := tlm_unlock; io_size _ := size_
|}.
End Port.

(** ** Delayed updates *)

(** [double]: what the queues use of it. *)
Class Time (T : Type) := {
  time_of : Z -> T;
  time_add : T -> T -> T;
  time_mul : T -> T -> T;
  time_le : T -> T -> bool
}.

Record change_log (T : Type) := MkLog { cl_addr : Z; cl_value : Z; cl_time : T }.
Arguments MkLog {T} cl_addr cl_value cl_time.
Arguments cl_addr {T} c.
Arguments cl_value {T} c.
Arguments cl_time {T} c.

(** [operator==] and [operator<] of [change_log]; [time_le] both ways is the
    equality of numbers. *)
Definition log_eq {T} `{!Time T} (x y : change_log T) : bool :=
  (cl_addr x =? cl_addr y) && (time_le (cl_time x) (cl_time y) && time_le (cl_time y) (cl_time x)) && (cl_value x =? cl_value y).

Definition log_lt {T} `{!Time T} (x y : change_log T) : bool :=
  if negb (time_le (cl_time x) (cl_time y) && time_le (cl_time y) (cl_time x)) then negb (time_le (cl_time y) (cl_time x))
  else cl_addr x <? cl_addr y.

(** The loop of the three [commit_delays]; [put] is the write. *)
Fixpoint commit_delays {T S} `{!Time T} (put : change_log T -> S -> exec S) (time : T) (delays : list (change_log T)) (s : S)
    : exec (list (change_log T) * S) :=
  match delays with
  | x :: rest => if time_le (cl_time x) time then s ← put x s; commit_delays put time rest s else Ret (delays, s)
  | [] => Ret ([], s)
  end.

(** [(time * time_step) + time_step + sc_simulation_time()]. *)
Definition due {T} `{!Time T} (time_step now : T) (time : Z) : T :=
  time_add (time_add (time_mul (time_of time) time_step) time_step) now.

(** [ac_arch_ref::delay], in processor cycles. *)
Definition delay {T} `{!Time T} (ac_cycle_counter val clocks : Z) : change_log T :=
  MkLog 0 val (time_of (u64 (clocks + ac_cycle_counter))).

(** ** [ac_memport] *)

(** [be16toh] and its likes for a big-endian target. *)
Definition byte_swap (big : bool) (n : nat) (v : Z) : Z :=
  if big then word_at (fun i => byte_of v (Z.of_nat n - 1 - i)) n 0 else v.

Section Memport.
Context {S : Type} `{!InOut S} {T : Type} `{!Time T}.

(** The byte order, the sizes of [ac_word] and [ac_Hword], and what an
    uninitialised item holds. *)
Context (big : bool) (wn hn : nat) (junk : Z).

Notation bits n := (8 * Z.of_nat n) (only parsing).

Definition mem_read (address : Z) (s : S) : exec (Z * S) :=
  '(v, s) ← io_read junk address (bits wn) s; Ret (byte_swap big wn v, s).
Definition mem_read_byte (address : Z) (s : S) : exec (Z * S) := io_read junk address 8 s.
Definition mem_read_half (address : Z) (s : S) : exec (Z * S) :=
  '(v, s) ← io_read junk address (bits hn) s; Ret (byte_swap big hn v, s).

Definition mem_write (address datum : Z) (s : S) : exec S := io_write (byte_swap big wn datum) address (bits wn) s.
Definition mem_write_byte (address datum : Z) (s : S) : exec S := io_write datum address 8 s.
Definition mem_write_half (address datum : Z) (s : S) : exec S := io_write (byte_swap big hn datum) address (bits hn) s.

(** The port with its queue. *)
Record memport := MkMemport { storage : S; mem_delays : list (change_log T) }.

Definition push_log (x : change_log T) (p : memport) : memport := MkMemport (storage p) (mem_delays p ++ [x]).

Definition write_delayed (address datum time : Z) (p : memport) : memport :=
  push_log (MkLog address (byte_swap big wn datum) (time_of time)) p.

(** [((type * )(&aux_word))\[oset_addr\] = datum] with a [type] of [n] bytes: the
    index counts items, and the word has [wn] bytes. *)
Definition put_in_word (n : nat) (aux_word oset_addr datum : Z) : exec Z :=
  if (oset_addr + 1) * Z.of_nat n <=? Z.of_nat wn then
    Ret (word_at (put_word (fun i => byte_of aux_word i) n (oset_addr * Z.of_nat n) datum) wn 0)
  else Crash.

(** The word of the storage with the part changed, for later. *)
Definition write_part_delayed (n : nat) (address datum time : Z) (p : memport) : exec memport :=
  let oset_addr := address mod Z.of_nat wn in
  let base_addr := address - oset_addr in
  '(aux_word, s) ← io_read junk base_addr (bits wn) (storage p);
  aux_word ← put_in_word n aux_word oset_addr datum;
  Ret (push_log (MkLog base_addr aux_word (time_of time)) (MkMemport s (mem_delays p))).

Definition write_byte_delayed (address datum time : Z) (p : memport) : exec memport :=
  write_part_delayed 1 address datum time p.
Definition write_half_delayed (address datum time : Z) (p : memport) : exec memport :=
  write_part_delayed hn address (byte_swap big hn datum) time p.

Definition mem_commit_delays (time : T) (p : memport) : exec memport :=
  '(l, s) ← commit_delays (fun x => io_write (cl_value x) (cl_addr x) (bits wn)) time (mem_delays p) (storage p);
  Ret (MkMemport s l).

(** *** Loading *)

Definition load_array (d : list Z) (s : S) : exec S :=
  if io_size s <? Z.of_nat (length d) then Exit "trying to load an array bigger then storage size."
  else io_write_n d 0 8 (Z.of_nat (length d)) s.

(** [getline]. *)
Fixpoint file_lines (s : string) : list string :=
  match s with
  | EmptyString => [""]
  | String c s =>
      if Ascii.eqb c (ascii_of_nat 10) then "" :: file_lines s
      else match file_lines s with l :: ls => String c l :: ls | [] => [String c ""] end
  end.

(** [line >> word] until the line is used up; [word] has the characters of the
    current word. *)
Fixpoint line_words (word : string) (s : string) : list string :=
  let rest := match word with EmptyString => [] | _ => [word] end in
  match s with
  | EmptyString => rest
  | String c s => if isspace c then rest ++ line_words "" s else line_words (word ++ String c "") s
  end.

(** The words of a line: an address, then data from there on. *)
Fixpoint load_words (is_addr : bool) (addr : Z) (words : list string) (s : S) : exec (Z * S) :=
  match words with
  | [] => Ret (addr, s)
  | word :: words =>
      let v := fst (strtol 16 word) in
      if is_addr then load_words false (u32 v) words s
      else s ← mem_write addr (uwrap (bits wn) v) s; load_words false (u32 (addr + Z.of_nat wn)) words s
  end.

Fixpoint load_lines (addr : Z) (lines : list string) (s : S) : exec (Z * S) :=
  match lines with
  | [] => Ret (addr, s)
  | l :: lines => '(addr, s) ← load_words true addr (line_words "" l) s; load_lines addr lines s
  end.

Definition text_of (f : memory) : string :=
  String.string_of_list_ascii (map (fun i => ascii_of_N (Z.to_N (bytes f i))) (seqZ 0 (msize f))).

(** The control variables of the processor that [load] sets. *)
Record control := MkControl { ac_start_addr : Z; ac_heap_ptr : Z; dec_cache_size : Z }.

(** A file that is no ELF file is a text of addresses and words. *)
Definition mem_load (fuel : nat) (files : file_system) (env : option (list Z)) (config : option hash_table) (e : bool) (page : Z)
    (fresh : Z -> Z) (file : list Z) (c : control) (s : S) : run (control * S) :=
  elf ← ac_load_elf fuel files env config (Z.of_nat wn) e page file (io_size s) (ac_heap_ptr c) (MkMemory fresh (io_size s));
  match elf, files file with
  | Some l, _ =>
      let items := map (fun i => word_at (bytes (p_mem (ld_process l))) 4 (4 * i)) (seqZ 0 (ld_heap l / 4)) in
      let c := MkControl (ld_start l) (ld_heap l) (if dec_cache_size c =? 0 then ld_heap l else dec_cache_size c) in
      s ← lift (if 4 * (ld_heap l / 4) <=? msize (p_mem (ld_process l)) then io_write_n items 0 32 (ld_heap l / 4) s else Crash);
      Some (Ret (c, s))
  | None, None => Some (Exit "Could not open input file")
  | None, Some f =>
      '(addr, s) ← lift (load_lines 0 (file_lines (text_of f)) s);
      Some (Ret (MkControl (ac_start_addr c) (ac_heap_ptr c) (if dec_cache_size c =? 0 then addr else dec_cache_size c), s))
  end.
End Memport.
Arguments memport S T : clear implicits.

(** ** [ac_reg] *)

Section Registers.
Context {T : Type} `{!Time T}.

(** The width of the unsigned type of the register. *)
Context (w : Z).

Record ac_reg := MkReg { reg_data : Z; reg_delays : list (change_log T) }.

Definition new_reg (value : Z) : ac_reg := MkReg value [].
Definition reg_read (r : ac_reg) : Z := reg_data r.
Definition reg_write (datum : Z) (r : ac_reg) : ac_reg := MkReg (uwrap w datum) (reg_delays r).
Definition reg_push (x : change_log T) (r : ac_reg) : ac_reg := MkReg (reg_data r) (reg_delays r ++ [x]).

Definition reg_write_delayed (time_step now : T) (datum time : Z) (r : ac_reg) : ac_reg :=
  reg_push (MkLog 0 datum (due time_step now time)) r.

Definition reg_commit_delays (time : T) (r : ac_reg) : exec ac_reg :=
  '(l, v) ← commit_delays (fun x _ => Ret (uwrap w (cl_value x))) time (reg_delays r) (reg_data r);
  Ret (MkReg v l).

(** [r = delay (val, clocks)]. *)
Definition reg_assign_log (x : change_log T) (r : ac_reg) : ac_reg := reg_push x r.

Inductive reg_operator := MUL | DIV | MOD | ADD | SUB | SHL | SHR | AND | XOR | OR.

(** The type the operands are promoted to. *)
Definition promoted : Z := Z.max w 32.

Definition apply_operator (o : reg_operator) (a d : Z) : exec Z :=
  match o with
  | MUL => Ret (a * d)
  | DIV => if d =? 0 then Crash else Ret (a / d)
  | MOD => if d =? 0 then Crash else Ret (a mod d)
  | ADD => Ret (a + d)
  | SUB => Ret (a - d)
  | SHL => Ret (Z.shiftl a (d mod promoted))
  | SHR => Ret (Z.shiftr a (d mod promoted))
  | AND => Ret (Z.land a d)
  | XOR => Ret (Z.lxor a d)
  | OR => Ret (Z.lor a d)
  end.

(** [r op= reg]. *)
Definition reg_op_reg (o : reg_operator) (v : ac_reg) (r : ac_reg) : exec ac_reg :=
  x ← apply_operator o (reg_read r) (reg_read v); Ret (reg_write x r).

(** [r op= d]; a factor is an [int]. *)
Definition reg_op_const (o : reg_operator) (d : Z) (r : ac_reg) : exec ac_reg :=
  x ← apply_operator o (reg_read r) (match o with MUL => s32 d | _ => d end); Ret (reg_write x r).

Definition reg_assign (r' r : ac_reg) : ac_reg := reg_write (reg_read r') r.

(** ** [ac_regbank] *)

(** The bytes of [ac_word] and [ac_Dword]. *)
Context (wn dn : nat).

Record ac_regbank := MkBank { bank_name : string; bank : list Z; bank_delays : list (change_log T) }.

Definition set_bank (l : list Z) (b : ac_regbank) : ac_regbank := MkBank (bank_name b) l (bank_delays b).

Definition bank_read (address : Z) (b : ac_regbank) : exec Z :=
  if address <? 0 then Crash else of_option (bank b !! Z.to_nat address).

Definition bank_write (address datum : Z) (b : ac_regbank) : exec ac_regbank :=
  if (0 <=? address) && (address <? Z.of_nat (length (bank b))) then
    Ret (set_bank (<[Z.to_nat address := uwrap w datum]> (bank b)) b)
  else Crash.

(** The little-endian value of registers and the registers of a value. *)
Fixpoint join_words (l : list Z) : Z := match l with [] => 0 | v :: l => Z.lor v (Z.shiftl (join_words l) w) end.
Fixpoint split_words (n : nat) (v : Z) : list Z := match n with O => [] | S n => uwrap w v :: split_words n (Z.shiftr v w) end.

(** [Data + address * sizeof(ac_Dword)] counts registers. *)
Definition double_index (address : Z) : Z := address * Z.of_nat dn.
Definition double_words : nat := Nat.div dn wn.
Definition double_inside (address : Z) (b : ac_regbank) : bool :=
  (0 <=? address) && (double_index address + Z.of_nat double_words <=? Z.of_nat (length (bank b))).

Definition read_double (address : Z) (b : ac_regbank) : exec Z :=
  if double_inside address b then Ret (join_words (take double_words (drop (Z.to_nat (double_index address)) (bank b)))) else Crash.

Definition write_double (address datum : Z) (b : ac_regbank) : exec ac_regbank :=
  if double_inside address b then
    let i := Z.to_nat (double_index address) in
    Ret (set_bank (take i (bank b) ++ split_words double_words datum ++ drop (i + double_words) (bank b)) b)
  else Crash.

Definition bank_write_delayed (time_step now : T) (address datum time : Z) (b : ac_regbank) : ac_regbank :=
  MkBank (bank_name b) (bank b) (bank_delays b ++ [MkLog address datum (due time_step now time)]).

Definition bank_commit_delays (time : T) (b : ac_regbank) : exec ac_regbank :=
  '(l, b) ← commit_delays (fun x => bank_write (cl_addr x) (cl_value x)) time (bank_delays b) b;
  Ret (MkBank (bank_name b) (bank b) l).

(** [load]: the words of a line; [None] is the return at [.text]. *)
Fixpoint bank_load_words (is_addr : bool) (addr : Z) (words : list string) (b : ac_regbank) : exec (option Z * ac_regbank) :=
  match words with
  | [] => Ret (Some addr, b)
  | word :: words =>
      if String.eqb word ".text" then Ret (None, b)
      else if String.eqb word ".data" then bank_load_words is_addr addr words b
      else
        let v := fst (strtol 16 word) in
        if is_addr then bank_load_words false (s32 v) words b
        else b ← bank_write (u32 addr) v b; bank_load_words false (s32 (addr + Z.of_nat wn)) words b
  end.

Fixpoint bank_load_lines (addr : Z) (lines : list string) (b : ac_regbank) : exec ac_regbank :=
  match lines with
  | [] => Ret b
  | l :: lines =>
      '(next, b) ← bank_load_words true addr (line_words "" l) b;
      match next with Some addr => bank_load_lines addr lines b | None => Ret b end
  end.

(** A file that cannot be opened leaves the bank as it is. *)
Definition bank_load (file : option string) (b : ac_regbank) : exec ac_regbank :=
  match file with Some text => bank_load_lines 0 (file_lines text) b | None => Ret b end.
End Registers.
Arguments ac_reg T : clear implicits.
Arguments ac_regbank T : clear implicits.

(** ** Bytes and items *)

Lemma word_at_testbit f n a i : (forall x, 0 <= f x < 256) -> 0 <= i ->
  Z.testbit (word_at f n a) i = (i <? 8 * Z.of_nat n) && Z.testbit (f (a + i / 8)) (i mod 8).
Proof.
  intros Hf. revert a i. induction n as [|n IH]; intros a i Hi; cbn [word_at].
  - rewrite Z.bits_0. replace (i <? 8 * Z.of_nat 0) with false; [reflexivity|]. symmetry. apply Z.ltb_ge. cbn. lia.
  - rewrite Z.lor_spec, Z.shiftl_spec by lia. destruct (Z.ltb_spec i 8).
    + rewrite (Z.testbit_neg_r _ (i - 8)) by lia. rewrite orb_false_r, Z.div_small, Z.mod_small, Z.add_0_r by lia.
      rewrite (proj2 (Z.ltb_lt i _)) by lia. reflexivity.
    + rewrite (testbit_high 8 (f a) i) by (try lia; apply Hf). cbn [orb]. rewrite IH by lia.
      replace (i / 8) with ((i - 8) / 8 + 1) by (Z.div_mod_to_equations; lia).
      replace (i mod 8) with ((i - 8) mod 8) by (Z.div_mod_to_equations; lia).
      replace (a + 1 + (i - 8) / 8) with (a + ((i - 8) / 8 + 1)) by lia. f_equal.
      destruct (Z.ltb_spec (i - 8) (8 * Z.of_nat n)), (Z.ltb_spec i (8 * Z.of_nat (S n))); lia.
Qed.

Lemma byte_of_testbit v b i : 0 <= b -> 0 <= i -> Z.testbit (byte_of v b) i = (i <? 8) && Z.testbit v (8 * b + i).
Proof.
  intros Hb Hi. unfold byte_of. change 0xFF with (Z.ones 8). rewrite Z.land_spec, Z.shiftr_spec, testbit_ones by lia.
  rewrite (proj2 (Z.leb_le 0 i)) by lia. cbn [andb]. rewrite andb_comm. f_equal. f_equal. lia.
Qed.

Lemma byte_of_word_at f n a b : (forall x, 0 <= f x < 256) -> 0 <= b < Z.of_nat n -> byte_of (word_at f n a) b = f (a + b).
Proof.
  intros Hf Hb. apply Z.bits_inj'. intros i Hi. rewrite byte_of_testbit by lia. destruct (Z.ltb_spec i 8); cbn [andb].
  - rewrite word_at_testbit by (try apply Hf; lia). rewrite (proj2 (Z.ltb_lt (8 * b + i) _)) by lia. cbn [andb].
    f_equal; [f_equal|]; Z.div_mod_to_equations; lia.
  - symmetry. apply (testbit_high 8); [apply Hf|lia].
Qed.

Section Items.
(** The bytes of an item. *)
Context (k : nat) (k_pos : (0 < k)%nat).
Notation kz := (Z.of_nat k).

Lemma item_of_word f a j : (forall x, 0 <= f x < 256) -> 0 <= j -> kz * j + kz <= 4 ->
  item_of k (word_at f 4 a) j = word_at f k (a + kz * j).
Proof.
  intros Hf Hj Hk. unfold item_of. apply Z.bits_inj'. intros i Hi.
  rewrite Z.land_spec, Z.shiftr_spec, testbit_ones, !word_at_testbit by (try apply Hf; lia).
  rewrite (proj2 (Z.leb_le 0 i)) by lia. cbn [andb]. destruct (Z.ltb_spec i (8 * kz)); [|rewrite andb_false_r; reflexivity].
  rewrite (proj2 (Z.ltb_lt (i + 8 * kz * j) _)) by lia. rewrite andb_true_r. cbn [andb].
  f_equal; [f_equal|]; Z.div_mod_to_equations; lia.
Qed.

Lemma byte_of_put_item d j v b : 0 <= j -> 0 <= b ->
  byte_of (put_item k d j v) b = if (kz * j <=? b) && (b <? kz * j + kz) then byte_of v (b - kz * j) else byte_of d b.
Proof.
  intros Hj Hb. apply Z.bits_inj'. intros i Hi. unfold put_item.
  destruct (Z.ltb_spec i 8).
  - assert (Hm : Z.testbit (Z.shiftl (Z.ones (8 * kz)) (8 * kz * j)) (8 * b + i) = (kz * j <=? b) && (b <? kz * j + kz)).
    { rewrite Z.shiftl_spec, testbit_ones by lia.
      destruct (Z.leb_spec 0 (8 * b + i - 8 * kz * j)), (Z.ltb_spec (8 * b + i - 8 * kz * j) (8 * kz)),
        (Z.leb_spec (kz * j) b), (Z.ltb_spec b (kz * j + kz)); nia || reflexivity. }
    rewrite byte_of_testbit, (proj2 (Z.ltb_lt i 8)) by lia. cbn [andb].
    rewrite Z.lor_spec, Z.ldiff_spec, Z.land_spec, Hm.
    destruct (_ && _) eqn:E; rewrite ?andb_true_r, ?andb_false_r, ?orb_false_r; cbn [orb negb].
    + apply andb_true_iff in E as [E1 E2]. rewrite byte_of_testbit, (proj2 (Z.ltb_lt i 8)), Z.shiftl_spec by lia.
      cbn [andb]. rewrite ?andb_false_r. cbn [orb]. f_equal. lia.
    + rewrite byte_of_testbit, (proj2 (Z.ltb_lt i 8)) by lia. cbn [andb]. rewrite ?andb_true_r, ?orb_false_r. reflexivity.
  - assert (H0 : forall x c, Z.testbit (byte_of x c) i = false) by (intros; apply (testbit_high 8); [apply byte_of_byte|lia]).
    destruct (_ && _); rewrite !H0; reflexivity.
Qed.

(** Byte [o] of a list of items. *)
Definition item_byte (items : list Z) (o : Z) : Z := byte_of (nth (Z.to_nat (o / kz)) items 0) (o mod kz).

Lemma item_byte_cons v items o : 0 <= o -> item_byte (v :: items) o = if o <? kz then byte_of v o else item_byte items (o - kz).
Proof.
  intros Ho. unfold item_byte. destruct (Z.ltb_spec o kz).
  - rewrite Z.div_small, Z.mod_small by lia. reflexivity.
  - replace (o / kz) with ((o - kz) / kz + 1) by (rewrite <- Z.div_add by lia; f_equal; lia).
    replace (o mod kz) with ((o - kz) mod kz) by (replace o with (o - kz + 1 * kz) at 2 by lia; rewrite Z.mod_add by lia; reflexivity).
    assert (0 <= (o - kz) / kz) by (apply Z.div_pos; lia). rewrite Z2Nat.inj_add by lia.
    replace (Z.to_nat ((o - kz) / kz) + Z.to_nat 1)%nat with (S (Z.to_nat ((o - kz) / kz))) by lia. reflexivity.
Qed.

Lemma byte_of_put_items items d j b : 0 <= j -> 0 <= b ->
  byte_of (put_items k d j items) b =
    if (kz * j <=? b) && (b <? kz * (j + Z.of_nat (length items))) then item_byte items (b - kz * j) else byte_of d b.
Proof.
  revert d j. induction items as [|v items IH]; intros d j Hj Hb; cbn [put_items length].
  - destruct (Z.leb_spec (kz * j) b), (Z.ltb_spec b (kz * (j + Z.of_nat 0))); cbn [andb]; try reflexivity. cbn in *. nia.
  - rewrite IH by lia. rewrite byte_of_put_item by lia.
    destruct (Z.leb_spec (kz * (j + 1)) b), (Z.ltb_spec b (kz * (j + 1 + Z.of_nat (length items)))),
      (Z.leb_spec (kz * j) b), (Z.ltb_spec b (kz * j + kz)), (Z.ltb_spec b (kz * (j + Z.of_nat (S (length items))))); cbn [andb]; try nia; try reflexivity.
    + rewrite item_byte_cons by lia. rewrite (proj2 (Z.ltb_ge _ _)) by nia. f_equal. nia.
    + rewrite item_byte_cons by lia. rewrite (proj2 (Z.ltb_lt _ _)) by nia. reflexivity.
Qed.
End Items.

(** ** Blocks through a transaction port *)

(** What a port expects of a memory behind it: bytes, read and written four at a
    time at the addresses between [dev_lo] and [dev_hi]. *)
Class WordDevice (M : Type) `{!Transport M} := {
  dev_view : M -> Z -> Z;
  dev_lo : Z;
  dev_hi : Z;
  dev_range : 0 <= dev_lo /\ dev_hi <= 2 ^ 32;
  dev_bytes : forall m x, 0 <= dev_view m x < 256;
  dev_reads : forall m id a d, dev_lo <= a -> a + 4 <= dev_hi ->
    transport (MkTlmReq READ id a d) m = Ret (MkTlmRsp true (word_at (dev_view m) 4 a), m);
  dev_writes : forall m id a v, dev_lo <= a -> a + 4 <= dev_hi ->
    exists rsp m', transport (MkTlmReq WRITE id a v) m = Ret (rsp, m') /\
      forall x, dev_view m' x = put_word (dev_view m) 4 a v x
}.

(** The bytes after the items have been written at [a]. *)
Definition put_block (k : nat) (f : Z -> Z) (a : Z) (items : list Z) : Z -> Z := fun x =>
  if (a <=? x) && (x <? a + Z.of_nat k * Z.of_nat (length items)) then item_byte k items (x - a) else f x.

Section Blocks.
Context {M : Type} `{!Transport M} `{!WordDevice M} (junk : Z).

Lemma item_byte_app k items items' o : (0 < k)%nat -> 0 <= o -> o < Z.of_nat k * Z.of_nat (length items) ->
  item_byte k (items ++ items') o = item_byte k items o.
Proof.
  intros Hk. revert o. induction items as [|v items IH]; intros o Ho Hl; [cbn in Hl; lia|]. cbn [Datatypes.app].
  rewrite !item_byte_cons by lia. destruct (Z.ltb_spec o (Z.of_nat k)); [reflexivity|].
  apply IH; [lia|]. cbn [length] in Hl. nia.
Qed.

Lemma item_byte_skip k items items' o : (0 < k)%nat -> 0 <= o ->
  item_byte k (items ++ items') (Z.of_nat k * Z.of_nat (length items) + o) = item_byte k items' o.
Proof.
  intros Hk. induction items as [|v items IH]; intros Ho; cbn [Datatypes.app length]; [f_equal; lia|].
  rewrite item_byte_cons by nia. rewrite (proj2 (Z.ltb_ge _ _)) by nia. rewrite <- IH by lia. f_equal. nia.
Qed.

Lemma put_block_app k f a items items' x : (0 < k)%nat ->
  put_block k (put_block k f a items) (a + Z.of_nat k * Z.of_nat (length items)) items' x = put_block k f a (items ++ items') x.
Proof.
  intros Hk. unfold put_block. rewrite length_app. set (n := Z.of_nat k * Z.of_nat (length items)).
  replace (a + Z.of_nat k * Z.of_nat (length items + length items')) with (a + n + Z.of_nat k * Z.of_nat (length items')) by (unfold n; nia).
  assert (Hn : 0 <= n) by (unfold n; nia). assert (Hn' : 0 <= Z.of_nat k * Z.of_nat (length items')) by nia.
  destruct (Z.leb_spec (a + n) x), (Z.ltb_spec x (a + n + Z.of_nat k * Z.of_nat (length items'))), (Z.leb_spec a x), (Z.ltb_spec x (a + n));
    cbn [andb]; try lia; try reflexivity.
  - replace (x - a) with (n + (x - (a + n))) by lia. unfold n. rewrite item_byte_skip by lia. reflexivity.
  - symmetry. apply item_byte_app; unfold n in *; lia.
Qed.

Lemma put_block_nil k f a x : put_block k f a [] x = f x.
Proof.
  unfold put_block. cbn [length]. rewrite Z.mul_0_r, Z.add_0_r. destruct (Z.leb_spec a x), (Z.ltb_spec x a); cbn [andb]; lia || reflexivity.
Qed.

Lemma put_block_ext k f g a items x : f x = g x -> put_block k f a items x = put_block k g a items x.
Proof. unfold put_block. intros ->. reflexivity. Qed.

(** One read and one write put a group of items. *)
Lemma put_group k items f a x : (0 < k)%nat -> Z.of_nat k * Z.of_nat (length items) <= 4 -> (forall y, 0 <= f y < 256) ->
  put_word f 4 a (put_items k (word_at f 4 a) 0 items) x = put_block k f a items x.
Proof.
  intros Hk Hl Hf. unfold put_word, put_block. destruct (Z.leb_spec a x); cbn [andb]; [|reflexivity].
  destruct (Z.ltb_spec x (a + Z.of_nat 4)).
  - rewrite byte_of_put_items by lia. rewrite Z.mul_0_r, Z.sub_0_r, Z.add_0_l.
    rewrite (proj2 (Z.leb_le 0 (x - a))) by lia. cbn [andb].
    destruct (Z.ltb_spec (x - a) (Z.of_nat k * Z.of_nat (length items))), (Z.ltb_spec x (a + Z.of_nat k * Z.of_nat (length items))); try lia.
    rewrite byte_of_word_at by (try apply Hf; lia). f_equal. lia.
  - destruct (Z.ltb_spec x (a + Z.of_nat k * Z.of_nat (length items))); [lia|reflexivity].
Qed.

Lemma write_items_block k g items : (0 < k)%nat -> (k * g = 4)%nat -> forall fuel a m, (length items <= fuel)%nat ->
  dev_lo <= a -> a + Z.of_nat k * Z.of_nat (length items) + 3 <= dev_hi ->
  exists m', write_items junk fuel k g a items m = Ret m' /\ forall x, dev_view m' x = put_block k (dev_view m) a items x.
Proof.
  intros Hk Hg fuel. revert items. induction fuel as [|fuel IH]; intros items a m Hf Ha Hb.
  - destruct items; [|cbn in Hf; lia]. exists m. split; [reflexivity|]. intros x. rewrite put_block_nil. reflexivity.
  - destruct items as [|v items'].
    { exists m. split; [reflexivity|]. intros x. rewrite put_block_nil. reflexivity. }
    set (items := v :: items') in *. assert (Hl : (0 < length items)%nat) by (cbn; lia).
    assert (R := dev_range). cbn [write_items]. change (v :: items') with items.
    assert (Eu : u32 a = a) by (apply uwrap_small; nia). rewrite Eu, dev_reads by nia. cbn [mbind exec_bind].
    destruct (dev_writes m junk a (put_items k (word_at (dev_view m) 4 a) 0 (take g items)) Ha ltac:(nia)) as (rsp & m1 & E & Hv).
    cbn [rsp_data]. rewrite E. cbn [mbind exec_bind].
    assert (Ht : (length (take g items) = Nat.min g (length items))%nat) by (rewrite length_take; reflexivity).
    assert (Hv1 : forall x, dev_view m1 x = put_block k (dev_view m) a (take g items) x).
    { intros x. rewrite Hv. apply put_group; [exact Hk|rewrite Ht; nia|apply dev_bytes]. }
    destruct (decide (length items <= g)%nat) as [Hs|Hs].
    + rewrite drop_ge by lia. rewrite take_ge in Hv1 by lia. exists m1. destruct fuel; split; auto.
    + destruct (IH (drop g items) (a + Z.of_nat k * Z.of_nat g) m1) as (m2 & E2 & Hv2).
      { rewrite length_drop. nia. } { nia. } { rewrite length_drop. nia. }
      exists m2. split; [exact E2|]. intros x. rewrite Hv2, (put_block_ext _ _ _ _ _ _ (Hv1 x)).
      transitivity (put_block k (dev_view m) a (take g items ++ drop g items) x); [|rewrite take_drop; reflexivity].
      rewrite <- put_block_app by exact Hk. rewrite Ht, Nat.min_l by lia. reflexivity.
Qed.

Lemma write_requests_block items : forall a m, dev_lo <= a -> a + 4 * Z.of_nat (length items) <= dev_hi ->
  exists m', write_requests junk WRITE 4 a items m = Ret m' /\ forall x, dev_view m' x = put_block 4 (dev_view m) a items x.
Proof.
  induction items as [|v items IH]; intros a m Ha Hb; cbn [write_requests].
  - exists m. split; [reflexivity|]. intros x. rewrite put_block_nil. reflexivity.
  - assert (R := dev_range). cbn [length] in Hb. rewrite (uwrap_small 32 a) by lia.
    destruct (dev_writes m junk a (u32 v) Ha ltac:(lia)) as (rsp & m1 & E & Hv). rewrite E. cbn [mbind exec_bind].
    destruct (IH (a + 4) m1) as (m2 & E2 & Hv2); [lia|lia|]. exists m2. split; [exact E2|]. intros x. rewrite Hv2.
    assert (Hv1 : dev_view m1 x = put_block 4 (dev_view m) a [v] x).
    { rewrite Hv. unfold put_word, put_block. cbn [length]. destruct (Z.leb_spec a x), (Z.ltb_spec x (a + Z.of_nat 4)),
        (Z.ltb_spec x (a + Z.of_nat 4 * Z.of_nat 1)); cbn [andb]; try lia; try reflexivity.
      rewrite item_byte_cons by lia. rewrite (proj2 (Z.ltb_lt _ _)) by lia. apply Z.bits_inj'. intros i Hi.
      rewrite !byte_of_testbit by lia. destruct (Z.ltb_spec i 8); [|reflexivity]. cbn [andb].
      rewrite testbit_uwrap by lia. rewrite (proj2 (Z.ltb_lt _ 32)) by lia. reflexivity. }
    rewrite (put_block_ext _ _ _ _ _ _ Hv1). exact (put_block_app 4 (dev_view m) a [v] items x ltac:(lia)).
Qed.

(** The [n] items at [a]. *)
Fixpoint read_block (k : nat) (f : Z -> Z) (a : Z) (n : nat) : list Z :=
  match n with O => [] | S n => word_at f k a :: read_block k f (a + Z.of_nat k) n end.

Lemma read_block_app k f a n n' : read_block k f a (n + n') = read_block k f a n ++ read_block k f (a + Z.of_nat k * Z.of_nat n) n'.
Proof.
  revert a. induction n as [|n IH]; intros a; cbn [read_block Nat.add Datatypes.app]; [f_equal; lia|]. rewrite IH. do 3 f_equal. lia.
Qed.

Lemma read_block_ext k f g a n : (forall x, a <= x < a + Z.of_nat k * Z.of_nat n -> f x = g x) -> read_block k f a n = read_block k g a n.
Proof.
  revert a. induction n as [|n IH]; intros a H; [reflexivity|]. cbn [read_block].
  rewrite (word_at_ext f g) by (intros; apply H; nia). rewrite IH by (intros; apply H; nia). reflexivity.
Qed.

Lemma length_read_block k f a n : length (read_block k f a n) = n.
Proof. revert a. induction n as [|n IH]; intros a; [reflexivity|]. cbn [read_block length]. rewrite IH. reflexivity. Qed.

Lemma read_put_block k f items a : (0 < k)%nat ->
  read_block k (put_block k f a items) a (length items) = map (uwrap (8 * Z.of_nat k)) items.
Proof.
  intros Hk. revert f a. induction items as [|v items IH]; intros f a; [reflexivity|]. cbn [read_block length map]. f_equal.
  - rewrite (word_at_ext _ (put_word f k a v)); [apply word_at_put|]. intros x Hx. rewrite put_word_inside by lia.
    unfold put_block. cbn [length]. rewrite (proj2 (Z.leb_le a x)), (proj2 (Z.ltb_lt x _)) by nia. cbn [andb].
    rewrite item_byte_cons by lia. rewrite (proj2 (Z.ltb_lt _ _)) by lia. reflexivity.
  - rewrite <- (IH (put_block k f a [v]) (a + Z.of_nat k)). apply read_block_ext. intros x _.
    replace (a + Z.of_nat k) with (a + Z.of_nat k * Z.of_nat (length [v])) by (cbn; lia). symmetry.
    exact (put_block_app k f a [v] items x Hk).
Qed.

Lemma read_group k f a : (0 < k)%nat -> (forall x, 0 <= f x < 256) -> forall n i, 0 <= i -> Z.of_nat k * (i + Z.of_nat n) <= 4 ->
  map (item_of k (word_at f 4 a)) (seqZ i (Z.of_nat n)) = read_block k f (a + Z.of_nat k * i) n.
Proof.
  intros Hp Hf. induction n as [|n IH]; intros i Hi Hk; [reflexivity|]. rewrite seqZ_cons by lia. cbn [map read_block].
  rewrite Nat2Z.inj_succ in *. assert (0 <= Z.of_nat k * Z.of_nat n) by lia.
  rewrite item_of_word by (assumption || lia). f_equal. rewrite Z.pred_succ, IH by lia. f_equal. lia.
Qed.

Lemma read_items_block k g : (0 < k)%nat -> (k * g = 4)%nat -> forall fuel n a buf m, (n <= fuel)%nat -> (n <= length buf)%nat ->
  dev_lo <= a -> a + Z.of_nat k * Z.of_nat n + 3 <= dev_hi ->
  read_items junk fuel k g (Z.of_nat k) a n buf m = Ret (read_block k (dev_view m) a n ++ drop n buf, m).
Proof.
  intros Hk Hg fuel. induction fuel as [|fuel IH]; intros n a buf m Hf Hl Ha Hb.
  - destruct n; [reflexivity|lia].
  - destruct n as [|n']; [reflexivity|]. cbn [read_items]. set (n := S n') in *. assert (R := dev_range).
    rewrite (uwrap_small 32 a), dev_reads by nia. cbn [mbind exec_bind success rsp_data].
    rewrite (read_group k (dev_view m) a Hk (dev_bytes m)) by nia. rewrite Z.mul_0_r, Z.add_0_r.
    rewrite IH by (try rewrite length_drop; nia). cbn [mbind exec_bind]. rewrite drop_drop, app_assoc, <- read_block_app.
    replace (Nat.min g n + (n - Nat.min g n))%nat with n by lia. reflexivity.
Qed.

(** *** Blocks of the storage *)

Lemma read_words_block k first i n m : 0 <= first + i -> first + i + Z.of_nat n <= 2 ^ 32 ->
  Z.of_nat k * (first + i + Z.of_nat n) <= msize m ->
  read_words k first i n m = Ret (read_block k (bytes m) (Z.of_nat k * (first + i)) n).
Proof.
  revert i. induction n as [|n IH]; intros i H0 H1 H2; [reflexivity|]. cbn [read_words read_block].
  rewrite uwrap_small by lia. unfold load, in_memory.
  rewrite (proj2 (Z.leb_le 0 _)), (proj2 (Z.leb_le _ (msize m))) by nia. cbn [andb mbind exec_bind].
  rewrite IH by lia. cbn [mbind exec_bind]. do 3 f_equal. lia.
Qed.

Lemma write_words_block k first items : (0 < k)%nat -> forall i m, 0 <= first + i -> first + i + Z.of_nat (length items) <= 2 ^ 32 ->
  Z.of_nat k * (first + i + Z.of_nat (length items)) <= msize m ->
  exists m', write_words k first i items m = Ret m' /\ msize m' = msize m /\
    forall x, bytes m' x = put_block k (bytes m) (Z.of_nat k * (first + i)) items x.
Proof.
  intros Hk. induction items as [|v items IH]; intros i m H0 H1 H2; cbn [write_words].
  - exists m. split; [reflexivity|]. split; [reflexivity|]. intros x. rewrite put_block_nil. reflexivity.
  - cbn [length] in *. rewrite Nat2Z.inj_succ in *. rewrite uwrap_small by lia. unfold store, in_memory.
    assert (0 <= Z.of_nat k * Z.of_nat (length items)) by lia. assert (0 <= Z.of_nat k * (first + i)) by (apply Z.mul_nonneg_nonneg; lia).
    rewrite (proj2 (Z.leb_le 0 _)), (proj2 (Z.leb_le _ (msize m))) by lia. cbn [andb mbind exec_bind].
    destruct (IH (i + 1) (MkMemory (put_word (bytes m) k (Z.of_nat k * (first + i)) v) (msize m))) as (m' & E & Hs & Hv);
      [lia|lia|cbn [msize]; lia|].
    exists m'. split; [exact E|]. split; [exact Hs|]. intros x. rewrite Hv. cbn [bytes].
    replace (Z.of_nat k * (first + (i + 1))) with (Z.of_nat k * (first + i) + Z.of_nat k * Z.of_nat (length [v])) by (cbn; lia).
    rewrite <- (put_block_app k (bytes m) _ [v] items x Hk). apply put_block_ext. unfold put_word, put_block. cbn [length].
    replace (Z.of_nat k * Z.of_nat 1) with (Z.of_nat k) by lia. destruct (_ && _) eqn:E'; [|reflexivity].
    rewrite item_byte_cons by lia. rewrite (proj2 (Z.ltb_lt _ _)) by lia. reflexivity.
Qed.

Lemma storage_writes_block k wordsize address items s : (0 < k)%nat -> item_bytes wordsize = Some k ->
  0 <= address -> address mod Z.of_nat k = 0 -> address + Z.of_nat k * Z.of_nat (length items) <= 2 ^ 32 ->
  address + Z.of_nat k * Z.of_nat (length items) <= msize (data s) ->
  exists s', storage_write_n items address wordsize (Z.of_nat (length items)) s = Ret s' /\ msize (data s') = msize (data s) /\
    forall x, bytes (data s') x = put_block k (bytes (data s)) address items x.
Proof.
  intros Hk Hi Ha Hm H1 H2. unfold storage_write_n. rewrite Hi, Nat2Z.id, Nat.ltb_irrefl, take_ge by lia.
  assert (Ea : Z.of_nat k * (address / Z.of_nat k + 0) = address) by (rewrite Z.add_0_r; symmetry; apply Z.div_exact; lia).
  destruct (write_words_block k (address / Z.of_nat k) items Hk 0 (data s)) as (m' & E & Hs & Hv).
  - rewrite Z.add_0_r. apply Z.div_pos; lia.
  - assert (0 <= address / Z.of_nat k) by (apply Z.div_pos; lia). nia.
  - rewrite Z.mul_add_distr_l, Ea. lia.
  - rewrite E. exists (set_data m' s). split; [reflexivity|]. split; [exact Hs|]. intros x. rewrite <- Ea at 1. apply Hv.
Qed.

Lemma storage_reads_block k wordsize address n buf s : (0 < k)%nat -> item_bytes wordsize = Some k -> (n <= length buf)%nat ->
  0 <= address -> address mod Z.of_nat k = 0 -> address + Z.of_nat k * Z.of_nat n <= 2 ^ 32 ->
  address + Z.of_nat k * Z.of_nat n <= msize (data s) ->
  storage_read_n buf address wordsize (Z.of_nat n) s = Ret (read_block k (bytes (data s)) address n ++ drop n buf).
Proof.
  intros Hk Hi Hl Ha Hm H1 H2. unfold storage_read_n. rewrite Hi, Nat2Z.id, (proj2 (Nat.ltb_ge _ _)) by lia.
  assert (Ea : Z.of_nat k * (address / Z.of_nat k + 0) = address) by (rewrite Z.add_0_r; symmetry; apply Z.div_exact; lia).
  assert (0 <= address / Z.of_nat k) by (apply Z.div_pos; lia).
  rewrite read_words_block; [rewrite Ea; reflexivity|lia|nia|rewrite Z.mul_add_distr_l, Ea; lia].
Qed.

Lemma port_writes_block k wordsize address items (m : M) junk_type : In (wordsize, k) [(8, 1%nat); (16, 2%nat); (32, 4%nat)] ->
  dev_lo <= address -> address + Z.of_nat k * Z.of_nat (length items) + 3 <= dev_hi ->
  exists m', tlm_write_n junk_type junk items address wordsize (Z.of_nat (length items)) m = Ret m' /\
    forall x, dev_view m' x = put_block k (dev_view m) address items x.
Proof.
  intros Hi Ha Hb. unfold tlm_write_n. rewrite Nat2Z.id, Nat.ltb_irrefl, take_ge by lia. cbn [andb].
  destruct Hi as [[= <- <-]|[[= <- <-]|[[= <- <-]|[]]]]; cbn [Z.eqb Pos.eqb];
    [apply write_items_block; lia|apply write_items_block; lia|apply write_requests_block; lia].
Qed.

Lemma port_reads_block k wordsize address n buf (m : M) : In (wordsize, k) [(8, 1%nat); (16, 2%nat); (32, 4%nat)] -> (n <= length buf)%nat ->
  dev_lo <= address -> address + Z.of_nat k * Z.of_nat n + 3 <= dev_hi ->
  tlm_read_n junk buf address wordsize (Z.of_nat n) m = Ret (read_block k (dev_view m) address n ++ drop n buf, m).
Proof.
  intros Hi Hl Ha Hb. unfold tlm_read_n. rewrite Nat2Z.id, (proj2 (Nat.ltb_ge _ _)) by lia. cbn [andb].
  destruct Hi as [[= <- <-]|[[= <- <-]|[[= <- <-]|[]]]]; cbn [Z.eqb Pos.eqb].
  - apply (read_items_block 1 4); lia.
  - apply (read_items_block 2 2); lia.
  - apply (read_items_block 4 1); lia.
Qed.

End Blocks.

(** ** Delayed updates take effect in time *)

Section Delays.
Context {T : Type} `{!Time T} (le_trans : forall x y z : T, time_le x y = true -> time_le y z = true -> time_le x z = true).

Definition due_by (time : T) (x : change_log T) : bool := time_le (cl_time x) time.
Definition later (time : T) (x : change_log T) : bool := negb (due_by time x).

(** A queue in the order of the times. *)
Definition in_order (q : list (change_log T)) : Prop := StronglySorted (fun x y => time_le (cl_time x) (cl_time y) = true) q.

Fixpoint put_all {S} (put : change_log T -> S -> exec S) (l : list (change_log T)) (s : S) : exec S :=
  match l with [] => Ret s | x :: l => s ← put x s; put_all put l s end.

Lemma due_head time x q : in_order (x :: q) -> due_by time x = false -> List.filter (due_by time) (x :: q) = [] /\ List.filter (later time) (x :: q) = x :: q.
Proof.
  intros Hs Hx. apply StronglySorted_inv in Hs as [_ Hf]. cbn [List.filter]. unfold later at 1. rewrite Hx. cbn [negb].
  assert (Hall : forall y, y ∈ q -> due_by time y = false).
  { intros y Hy. rewrite Forall_forall in Hf. specialize (Hf y Hy). cbv beta in Hf. destruct (due_by time y) eqn:E; [|reflexivity].
    unfold due_by in *. rewrite (le_trans _ _ _ Hf E) in Hx. discriminate. }
  split; [apply filter_none, Hall|]. f_equal. clear - Hall. induction q as [|y q IH]; [reflexivity|]. cbn [List.filter].
  unfold later at 1. rewrite Hall by left. cbn [negb]. f_equal. apply IH. intros z Hz. apply Hall. right. exact Hz.
Qed.

(** On a queue in order a commit writes what is due, in order, and keeps the rest. *)
Lemma commit_in_order {S} (put : change_log T -> S -> exec S) time q s : in_order q ->
  commit_delays put time q s = s' ← put_all put (List.filter (due_by time) q) s; Ret (List.filter (later time) q, s').
Proof.
  revert s. induction q as [|x q IH]; intros s Hs; [reflexivity|]. cbn [commit_delays].
  change (time_le (cl_time x) time) with (due_by time x). destruct (due_by time x) eqn:E.
  - cbn [List.filter]. unfold later at 1. rewrite E. cbn [negb put_all]. destruct (put x s); cbn [mbind exec_bind]; try reflexivity.
    apply IH. apply StronglySorted_inv in Hs. apply Hs.
  - destruct (due_head time x q Hs E) as [-> ->]. reflexivity.
Qed.

Lemma in_order_split time q : in_order q -> q = List.filter (due_by time) q ++ List.filter (later time) q.
Proof.
  induction q as [|x q IH]; intros Hs; [reflexivity|]. destruct (due_by time x) eqn:E.
  - cbn [List.filter]. unfold later at 1. rewrite E. cbn [negb Datatypes.app]. f_equal. apply IH. apply StronglySorted_inv in Hs. apply Hs.
  - destruct (due_head time x q Hs E) as [-> ->]. reflexivity.
Qed.

Lemma in_order_app_l q q' : in_order (q ++ q') -> in_order q.
Proof.
  induction q as [|x q IH]; [constructor|]. intros H. apply StronglySorted_inv in H as [H Hf]. apply Forall_app in Hf as [Hf _].
  constructor; [apply IH, H|exact Hf].
Qed.

Lemma in_order_app_r q q' : in_order (q ++ q') -> in_order q'.
Proof. induction q as [|x q IH]; [exact id|]. intros H. apply IH. apply StronglySorted_inv in H. apply H. Qed.

Lemma due_mono t time x : time_le t time = true -> due_by t x = true -> due_by time x = true.
Proof. intros H E. exact (le_trans _ _ _ E H). Qed.

Lemma filter_later t time q : time_le t time = true -> List.filter (later time) (List.filter (later t) q) = List.filter (later time) q.
Proof.
  intros H. induction q as [|x q IH]; [reflexivity|]. cbn [List.filter]. unfold later in *.
  destruct (due_by t x) eqn:E; cbn [negb List.filter]; [rewrite (due_mono t time x H E); exact IH|].
  destruct (due_by time x); cbn [negb]; [|f_equal]; exact IH.
Qed.

Lemma filter_due t time q : time_le t time = true -> List.filter (due_by time) (List.filter (due_by t) q) = List.filter (due_by t) q.
Proof.
  intros H. induction q as [|x q IH]; [reflexivity|]. cbn [List.filter]. destruct (due_by t x) eqn:E; [|exact IH].
  cbn [List.filter]. rewrite (due_mono t time x H E). f_equal. exact IH.
Qed.

(** The registers after updates, and the value of one of them. *)
Definition updated (w : Z) (l : list (change_log T)) (regs : list Z) : list Z :=
  fold_left (fun regs x => <[Z.to_nat (cl_addr x) := uwrap w (cl_value x)]> regs) l regs.
Definition latest (w r : Z) (l : list (change_log T)) (v : Z) : Z :=
  fold_left (fun v x => if cl_addr x =? r then uwrap w (cl_value x) else v) l v.

Definition inside (n : nat) (x : change_log T) : Prop := 0 <= cl_addr x < Z.of_nat n.

Lemma length_updated w l regs : length (updated w l regs) = length regs.
Proof. revert regs. induction l as [|x l IH]; intros regs; [reflexivity|]. cbn [updated fold_left]. unfold updated in IH. rewrite IH. apply length_insert. Qed.

Lemma updated_latest w l r regs : 0 <= r < Z.of_nat (length regs) -> Forall (inside (length regs)) l ->
  nth (Z.to_nat r) (updated w l regs) 0 = latest w r l (nth (Z.to_nat r) regs 0).
Proof.
  intros Hr. revert regs Hr. induction l as [|x l IH]; intros regs Hr Hf; [reflexivity|]. inversion_clear Hf as [|? ? Hx Hl].
  cbn [updated latest fold_left]. unfold updated, latest in IH. rewrite IH by (rewrite length_insert; assumption). f_equal.
  rewrite !nth_lookup. destruct (Z.eqb_spec (cl_addr x) r) as [->|Hn].
  - rewrite list_lookup_insert_eq by (unfold inside in Hx; lia). reflexivity.
  - rewrite list_lookup_insert_ne by (unfold inside in Hx; lia). reflexivity.
Qed.

Lemma bank_write_inside w a v (b : ac_regbank T) : 0 <= a < Z.of_nat (length (bank b)) ->
  bank_write w a v b = Ret (set_bank (<[Z.to_nat a := uwrap w v]> (bank b)) b).
Proof. intros H. unfold bank_write. rewrite (proj2 (Z.leb_le _ _)), (proj2 (Z.ltb_lt _ _)) by lia. reflexivity. Qed.

Lemma put_all_bank w l (b : ac_regbank T) : Forall (inside (length (bank b))) l ->
  put_all (fun x => bank_write w (cl_addr x) (cl_value x)) l b = Ret (MkBank (bank_name b) (updated w l (bank b)) (bank_delays b)).
Proof.
  revert b. induction l as [|x l IH]; intros b Hf; [destruct b; reflexivity|]. inversion_clear Hf as [|? ? Hx Hl].
  cbn [put_all]. rewrite (bank_write_inside w _ _ _ Hx). cbn [mbind exec_bind]. rewrite IH; [reflexivity|].
  cbn [set_bank bank]. rewrite length_insert. exact Hl.
Qed.

(** What happens to a bank in time. *)
Inductive bank_event := Delayed (time_step now : T) (address datum time : Z) | Commit (time : T).

Definition bank_step (w : Z) (e : bank_event) (b : ac_regbank T) : exec (ac_regbank T) :=
  match e with
  | Delayed time_step now address datum time => Ret (bank_write_delayed time_step now address datum time b)
  | Commit time => bank_commit_delays w time b
  end.

Fixpoint bank_run (w : Z) (es : list bank_event) (b : ac_regbank T) : exec (ac_regbank T) :=
  match es with [] => Ret b | e :: es => b ← bank_step w e b; bank_run w es b end.

Definition queued (e : bank_event) : list (change_log T) :=
  match e with Delayed time_step now address datum time => [MkLog address datum (due time_step now time)] | Commit _ => [] end.
Definition committed_by (time : T) (e : bank_event) : Prop :=
  match e with Commit t => time_le t time = true | Delayed _ _ _ _ _ => True end.

Lemma Forall_filter_inside (P : change_log T -> Prop) f l : Forall P l -> Forall P (List.filter f l).
Proof. induction 1; cbn [List.filter]; [constructor|]. destruct (f _); [constructor|]; assumption. Qed.

Lemma commit_bank w time (b : ac_regbank T) : in_order (bank_delays b) -> Forall (inside (length (bank b))) (bank_delays b) ->
  bank_commit_delays w time b = Ret (MkBank (bank_name b) (updated w (List.filter (due_by time) (bank_delays b)) (bank b))
    (List.filter (later time) (bank_delays b))).
Proof.
  intros Ho Hi. unfold bank_commit_delays. rewrite commit_in_order by exact Ho.
  rewrite put_all_bank by (apply Forall_filter_inside, Hi). reflexivity.
Qed.

Lemma bank_run_commit w time es : forall b : ac_regbank T,
  let q := bank_delays b ++ concat (map queued es) in
  in_order q -> Forall (committed_by time) es -> Forall (inside (length (bank b))) q ->
  bank_run w (es ++ [Commit time]) b =
    Ret (MkBank (bank_name b) (updated w (List.filter (due_by time) q) (bank b)) (List.filter (later time) q)).
Proof.
  induction es as [|e es IH]; intros b q Ho Hc Hi.
  - unfold q in *. cbn in Ho, Hi |- *. rewrite app_nil_r in *. rewrite commit_bank by assumption. reflexivity.
  - inversion_clear Hc as [|? ? Hc1 Hc2]. cbn [Datatypes.app bank_run]. destruct e as [step now a v n|t]; cbn [bank_step mbind exec_bind].
    + unfold q in *. cbn [map concat queued] in *. rewrite IH; cbn [bank_write_delayed bank bank_delays bank_name];
        rewrite <- ?app_assoc; (assumption || reflexivity).
    + unfold q in *. cbn [map concat queued Datatypes.app] in *. set (d := bank_delays b) in *. set (L := concat (map queued es)) in *.
      assert (Hd : in_order d) by exact (in_order_app_l _ _ Ho). apply Forall_app in Hi as [Hid HiL].
      rewrite commit_bank by assumption. cbn [mbind exec_bind]. rewrite IH; cbn [bank bank_delays bank_name].
      * fold d L. rewrite !List.filter_app, (filter_later t time) by exact Hc1. do 2 f_equal.
        unfold updated. rewrite <- fold_left_app. f_equal. rewrite app_assoc. f_equal.
        rewrite (in_order_split t d Hd) at 3. rewrite List.filter_app, filter_due by exact Hc1. reflexivity.
      * fold d L. rewrite (in_order_split t d Hd), <- app_assoc in Ho. exact (in_order_app_r _ _ Ho).
      * exact Hc2.
      * rewrite length_updated. apply Forall_app. split; [apply Forall_filter_inside; exact Hid|exact HiL].
Qed.

(** C40. A register bank with delayed updates, for any course of updates and
    commits: when the updates fall due in the order they are issued, a commit at
    a time no earlier than those before leaves in each register the last update
    that is due, or what it held, and in the queue the updates that are not; no
    update is lost, taken twice or early. *)
Theorem delayed_updates_exact w time es (b : ac_regbank T) :
  let q := bank_delays b ++ concat (map queued es) in
  in_order q -> Forall (committed_by time) es -> Forall (inside (length (bank b))) q ->
  exists b', bank_run w (es ++ [Commit time]) b = Ret b' /\ bank_delays b' = List.filter (later time) q /\
    forall r, 0 <= r < Z.of_nat (length (bank b)) ->
      bank_read r b' = Ret (latest w r (List.filter (due_by time) q) (nth (Z.to_nat r) (bank b) 0)).
Proof.
  intros q Ho Hc Hi. assert (E := bank_run_commit w time es b Ho Hc Hi). cbv zeta in E. fold q in E.
  eexists. split; [exact E|]. split; [reflexivity|]. intros r Hr.
  unfold bank_read. rewrite (proj2 (Z.ltb_ge _ _)) by lia. cbn [bank].
  rewrite <- updated_latest by (try apply Forall_filter_inside; assumption).
  assert (Hl : (Z.to_nat r < length (updated w (List.filter (due_by time) q) (bank b)))%nat) by (rewrite length_updated; lia).
  destruct (lookup_lt_is_Some_2 _ _ Hl) as [x Hx]. rewrite Hx. cbn [of_option]. f_equal. rewrite nth_lookup, Hx. reflexivity.
Qed.
End Delays.

(** ** Examples *)

(** Times as whole numbers of nanoseconds, and a memory of four gigabytes. *)
#[export] Instance whole_time : Time Z := {| time_of z := z; time_add := Z.add; time_mul := Z.mul; time_le := Z.leb |}.

Lemma whole_time_trans x y z : time_le x y = true -> time_le y z = true -> time_le x z = true.
Proof. cbn. lia. Qed.

#[export] Instance flat_transport : Transport (Z -> Z) := {|
  transport req f := match type req with
                     | READ => Ret (MkTlmRsp true (word_at (fun x => u8 (f x)) 4 (addr req)), f)
                     | WRITE => Ret (MkTlmRsp true (req_data req), put_word f 4 (addr req) (req_data req))
                     | _ => Ret (MkTlmRsp false 0, f)
                     end
|}.

#[export] Instance flat_device : WordDevice (Z -> Z).
Proof.
  refine {| dev_view f x := u8 (f x); dev_lo := 0; dev_hi := 2 ^ 32 |}; [lia|intros; apply (uwrap_range 8); lia|reflexivity|].
  intros f id a v _ _. do 2 eexists. split; [reflexivity|]. intros x. cbn [addr req_data]. unfold put_word.
  destruct (_ && _); [|reflexivity]. apply uwrap_small. apply byte_of_byte.
Defined.


(** A bank of two registers whose second is set twice. *)
Definition sample_updates : list (@bank_event Z) :=
  [Delayed 10 0 1 7 0; Commit 10; Delayed 10 10 1 8 0; Delayed 10 15 0 9 0; Commit 20; Delayed 10 21 1 5 2].
Definition sample_bank : ac_regbank Z := MkBank "RB" [0; 0] [].

Lemma delayed_updates_exact_witness : exists b', bank_run 32 (sample_updates ++ [Commit 25]) sample_bank = Ret b' /\
  bank_delays b' = [MkLog 1 5 51] /\ bank_read 0 b' = Ret 9 /\ bank_read 1 b' = Ret 8.
Proof.
  destruct (delayed_updates_exact whole_time_trans 32 25 sample_updates sample_bank) as (b' & E & Hq & Hr).
  - repeat constructor.
  - repeat constructor.
  - repeat constructor; cbn; lia.
  - exists b'. split; [exact E|]. split; [exact Hq|]. split; [apply (Hr 0)|apply (Hr 1)]; cbn; lia.
Defined.

(** An update due before one issued earlier waits for it. *)
Example update_held_back :
  bank_run 32 [Delayed 10 0 0 1 4; Delayed 10 0 1 2 0; Commit 20] sample_bank = Ret (MkBank "RB" [0; 0] [MkLog 0 1 50; MkLog 1 2 10]).
Proof. reflexivity. Qed.

Definition counting : ac_storage := new_storage (fun i => i) "ram" 16.

(** At an odd address the block versions use the item below. *)
Example block_rounds_down : storage_read 0 1 16 counting = Ret 0x0201 /\ storage_read_n [0] 1 16 1 counting = Ret [0x0100].
Proof. split; reflexivity. Qed.

(** The index of a delayed half word counts half words, not bytes. *)
Example delayed_half_outside :
  write_half_delayed false 4 2 0 2 0xBEEF 1 (MkMemport counting []) = Crash (A := memport ac_storage Z) /\
  write_half_delayed false 4 2 0 1 0xBEEF 1 (MkMemport counting []) = Ret (MkMemport counting [MkLog 0 0xBEEF0100 1]).
Proof. split; reflexivity. Qed.

(** A pair of registers is found at eight times its number, not twice. *)
Example double_register_index :
  read_double 32 4 8 1 (MkBank (T := Z) "RB" [0; 1; 2; 3; 4; 5; 6; 7; 8; 9] []) = Ret 0x900000008.
Proof. reflexivity. Qed.

(** The words of a file go to every fourth register. *)
Example bank_file_strides : bank_load 32 4 (Some "0 a b") (MkBank (T := Z) "RB" [0; 0; 0; 0; 0] []) = Ret (MkBank "RB" [10; 0; 0; 0; 11] []).
Proof. reflexivity. Qed.

(** A factor of a 64-bit register is cut to an [int]. *)
Example wide_factor_cut : reg_op_const 64 MUL (2 ^ 32 + 1) (new_reg (T := Z) 3) = Ret (new_reg 3).
Proof. reflexivity. Qed.

(** A text file of words. *)
Example text_loaded : load_lines (S := ac_storage) false 4 0 (file_lines "4 01020304 a") (new_storage (fun _ => 0) "ram" 16) ≫=
    (fun r => Ret (fst r, map (bytes (data (snd r))) (seqZ 4 8))) = Ret (12, [4; 3; 2; 1; 10; 0; 0; 0]).
Proof. vm_compute. reflexivity. Qed.

(** The same word through the port of a big-endian target. *)
Example text_loaded_big : load_lines (S := ac_storage) true 4 0 (file_lines "4 01020304") (new_storage (fun _ => 0) "ram" 16) ≫=
    (fun r => Ret (map (bytes (data (snd r))) (seqZ 4 4))) = Ret [1; 2; 3; 4].
Proof. vm_compute. reflexivity. Qed.
