(* ===== verification/Syscall.v ===== *)
(** * System calls of the simulated program

    [archc/src/aclib/ac_syscall/ac_syscall.H], [ac_syscall.cpp] and
    [ac_syscall.def]: the functions the library libac_sysc reaches by jumping to
    fixed addresses, and [process_syscall], which a system call instruction
    reaches.  The processor is the interface [Target]; the host is the interface
    [Host], which answers a call with its result and the contents of the buffer
    it was given, arbitrary where it wrote nothing.  The host is little endian
    with [long], [size_t] and pointers of 64 bits, allocation succeeds, and the
    structures are those of its C library.  Reading or writing outside an array
    is a [Fault].  The messages and the "W" packet of the GDB stub are left out. *)
From S2P Require Import Prelude DynMem MemMap LinkNode.

(** ** Outcomes *)

(** [Stopped] and [Exited]: [ref.stop (status)] and [exit (EXIT_FAILURE)];
    [Annulled]: the memory port left the instruction with [longjmp]. *)
Inductive outcome (M A : Type) := Done (a : A) | Annulled (m : M) | Stopped (status : Z) | Exited | Fault.
Arguments Done {M A} a.
Arguments Annulled {M A} m.
Arguments Stopped {M A} status.
Arguments Exited {M A}.
Arguments Fault {M A}.

#[export] Instance outcome_bind M : MBind (outcome M) := fun A B f r =>
  match r with
  | Done a => f a | Annulled m => Annulled m | Stopped st => Stopped st | Exited => Exited | Fault => Fault
  end.

Definition of_opt {M A} (o : option A) : outcome M A := match o with Some a => Done a | None => Fault end.

(** ** Little-endian words in arrays of bytes *)

Fixpoint le_word (l : list Z) : Z := match l with [] => 0 | b :: l => b + 256 * le_word l end.
Fixpoint le_bytes (n : nat) (v : Z) : list Z := match n with O => [] | S n => u8 v :: le_bytes n (Z.shiftr v 8) end.

Definition word_of (off n : nat) (l : list Z) : Z := le_word (take n (drop off l)).
Definition put_at (off n : nat) (v : Z) (l : list Z) : list Z := take off l ++ le_bytes n v ++ drop (off + n) l.

(** The C string at the start of an array; [None] when no NUL is in it. *)
Fixpoint c_string (l : list Z) : option (list Z) :=
  match l with [] => None | c :: l => if c =? 0 then Some [] else s ← c_string l; Some (c :: s) end.

(** ** Byte order of structures *)

(** [CORRECT_ENDIAN]: the word is cut to [unsigned]; the conversion of more
    than four bytes reads behind the parameter. *)
Definition CORRECT_ENDIAN (match_endian : bool) (v : Z) (size : nat) : option Z :=
  if negb match_endian && (4 <? size)%nat then None else Some (convert_endian size (u32 v) match_endian).

(** A field of [size] bytes at an offset; a field outside the structure is a fault. *)
Definition correct_field (e : bool) (f : nat * nat) (buf : list Z) : option (list Z) :=
  let '(off, size) := f in
  if (length buf <? off + size)%nat then None
  else v ← CORRECT_ENDIAN e (word_of off size buf) size; Some (put_at off size v buf).

Fixpoint correct_fields (e : bool) (fs : list (nat * nat)) (buf : list Z) : option (list Z) :=
  match fs with [] => Some buf | f :: fs => b ← correct_field e f buf; correct_fields e fs b end.

(** The loop of [SET_BUFFER_CORRECT_ENDIAN] over [n] words. *)
Definition correct_words (e : bool) (n : nat) (buf : list Z) : option (list Z) :=
  correct_fields e (map (fun i => (4 * i, 4)%nat) (seq 0 n)) buf.

(** [struct stat]: st_dev, st_ino, st_mode, st_nlink, st_uid, st_gid, st_rdev,
    st_size, st_blksize, st_blocks, st_atime, st_mtime and st_ctime. *)
Definition stat_fields : list (nat * nat) :=
  [(0, 8); (8, 8); (24, 4); (16, 8); (28, 4); (32, 4); (40, 8); (48, 8); (56, 8); (64, 8); (72, 8); (88, 8); (104, 8)]%nat.
Definition sizeof_stat : nat := 144%nat.
Definition sizeof_tms : nat := 32%nat.
Definition sizeof_utsname : nat := 390%nat.
Definition sizeof_iovec : nat := 16%nat.
Definition sizeof_sockaddr : nat := 16%nat.

Definition CORRECT_STAT_STRUCT (e : bool) : list Z -> option (list Z) := correct_fields e stat_fields.
Definition CORRECT_TIMEVAL_STRUCT (e : bool) : list Z -> option (list Z) := correct_fields e [(0, 8); (8, 8)]%nat.
Definition CORRECT_TIMEZONE_STRUCT (e : bool) : list Z -> option (list Z) := correct_fields e [(0, 4); (4, 4)]%nat.

Definition AF_INET : Z := 2.
Definition AF_INET6 : Z := 10.

(** The fields that follow the family: [sin_addr], or [sin6_flowinfo] and
    [sin6_scope_id]. *)
Definition address_fields (family : Z) : list (nat * nat) :=
  if family =? AF_INET then [(4, 4)]%nat else if family =? AF_INET6 then [(4, 4); (24, 4)]%nat else [].

Definition CORRECT_SOCKADDR_STRUCT_TO_HOST (e : bool) (buf : list Z) : option (list Z) :=
  b ← correct_field e (0, 2)%nat buf; correct_fields e (address_fields (word_of 0 2 b)) b.
Definition CORRECT_SOCKADDR_STRUCT_TO_GUEST (e : bool) (buf : list Z) : option (list Z) :=
  b ← correct_fields e (address_fields (word_of 0 2 buf)) buf; correct_field e (0, 2)%nat b.

(** ** Flags of newlib *)

(** [if (f & newlib) flags |= host]. *)
Definition correct_flag (f : Z) (flags : Z) (p : Z * Z) : Z :=
  if Z.land f p.1 =? 0 then flags else Z.lor flags p.2.

(** O_RDONLY, O_WRONLY, O_RDWR, O_CREAT, O_EXCL, O_NOCTTY, O_TRUNC, O_APPEND
    and O_NONBLOCK of newlib and of Linux. *)
Definition flag_table : list (Z * Z) :=
  [(0x0000, 0); (0x0001, 1); (0x0002, 2); (0x0200, 64); (0x0800, 128); (0x8000, 256); (0x0400, 512);
   (0x0008, 1024); (0x4000, 2048)].

Definition correct_flags (f : Z) : Z := fold_left (correct_flag f) flag_table 0.

(** ** The host *)

Inductive call :=
  | SYS_open (path : list Z) (flags mode : Z) | SYS_creat (path : list Z) (mode : Z) | SYS_close (fd : Z)
  | SYS_read (fd count : Z) | SYS_write (fd : Z) (buf : list Z) | SYS_readv (fd : Z) (lens : list Z)
  | SYS_writev (fd : Z) (bufs : list (list Z)) | SYS_isatty (fd : Z) | SYS_lseek (fd offset whence : Z)
  | SYS_access (path : list Z) (mode : Z) | SYS_chmod (path : list Z) (mode : Z) | SYS_dup (fd : Z)
  | SYS_dup2 (fd newfd : Z) | SYS_stat (path : list Z) | SYS_lstat (path : list Z) | SYS_fstat (fd : Z)
  | SYS_stat64 (path : list Z) | SYS_lstat64 (path : list Z) | SYS_fstat64 (fd : Z)
  | SYS_time | SYS_times | SYS_gettimeofday | SYS_uname | SYS_random | SYS_errno | SYS_fork
  | SYS_getpid | SYS_getuid | SYS_getgid | SYS_geteuid | SYS_getegid
  | SYS_socket (domain type protocol : Z) | SYS_bind (fd : Z) (addr : list Z) (len : Z)
  | SYS_connect (fd : Z) (addr : list Z) (len : Z) | SYS_listen (fd backlog : Z) | SYS_accept (fd len : Z).

(** [uninitialised]: what a variable holds that was never assigned. *)
Class Host (K : Type) := {
  kernel : call -> K -> (Z * list Z) * K;
  uninitialised : Z
}.

(** ** The processor *)

(** The functions a model implements; [get_int] gives an [int].  A buffer comes
    with the size the caller claims. *)
Class Target (M : Type) := {
  get_int : Z -> M -> Z;
  set_int : Z -> Z -> M -> M;
  get_buffer : Z -> Z -> M -> outcome M (list Z * M);
  set_buffer : Z -> list Z -> Z -> M -> outcome M M;
  return_from_syscall : M -> M;
  set_pc : Z -> M -> M;
  set_return : Z -> M -> M;
  get_return : M -> Z;
  get_syscall_table : option (list Z)
}.

(** [returnaddr] is the static variable of [ac_rtld_fini], [buf_stat] that of
    [ac_syscall_wrapper]. *)
Record state (M K : Type) := MkState {
  target : M;
  host : K;
  ac_heap_ptr : Z;
  mem_map : memmap;
  vecs : vectors;
  returnaddr : Z;
  buf_stat : list Z
}.
Arguments MkState {M K}.
Arguments target {M K}.
Arguments host {M K}.
Arguments ac_heap_ptr {M K}.
Arguments mem_map {M K}.
Arguments vecs {M K}.
Arguments returnaddr {M K}.
Arguments buf_stat {M K}.

Section Syscalls.
Context {M K : Type} `{!Target M} `{!Host K}.
Notation st := (state M K).

(** ** Sequencing *)

Definition sys (A : Type) : Type := st -> outcome M (A * st).

#[export] Instance sys_ret : MRet sys := fun A a s => Done (a, s).
#[export] Instance sys_bind : MBind sys := fun A B f m s =>
  match m s with
  | Done (a, s) => f a s
  | Annulled m => Annulled m | Stopped status => Stopped status | Exited => Exited | Fault => Fault
  end.

Definition fault {A} : sys A := fun _ => Fault.
Definition exit_failure {A} : sys A := fun _ => Exited.
Definition stop {A} (status : Z) : sys A := fun _ => Stopped status.
Definition orfault {A} (o : option A) : sys A := match o with Some a => mret a | None => fault end.

Definition set_target (m : M) (s : st) : st :=
  MkState m (host s) (ac_heap_ptr s) (mem_map s) (vecs s) (returnaddr s) (buf_stat s).
Definition set_host (k : K) (s : st) : st :=
  MkState (target s) k (ac_heap_ptr s) (mem_map s) (vecs s) (returnaddr s) (buf_stat s).
Definition set_heap (x : Z) (s : st) : st :=
  MkState (target s) (host s) x (mem_map s) (vecs s) (returnaddr s) (buf_stat s).
Definition set_map (x : memmap) (s : st) : st :=
  MkState (target s) (host s) (ac_heap_ptr s) x (vecs s) (returnaddr s) (buf_stat s).
Definition set_vecs (x : vectors) (s : st) : st :=
  MkState (target s) (host s) (ac_heap_ptr s) (mem_map s) x (returnaddr s) (buf_stat s).
Definition set_returnaddr (x : Z) (s : st) : st :=
  MkState (target s) (host s) (ac_heap_ptr s) (mem_map s) (vecs s) x (buf_stat s).
Definition set_buf_stat (x : list Z) (s : st) : st :=
  MkState (target s) (host s) (ac_heap_ptr s) (mem_map s) (vecs s) (returnaddr s) x.

(** An [int] argument, and the same as an [unsigned]. *)
Definition arg (n : Z) : sys Z := fun s => Done (get_int n (target s), s).
Definition uarg (n : Z) : sys Z := v ← arg n; mret (u32 v).

(** The result of a call as an [int], and the register that gets it. *)
Definition result (n v : Z) : sys unit := fun s => Done (tt, set_target (set_int n (s32 v) (target s)) s).
Definition return_ : sys unit := fun s => Done (tt, set_target (return_from_syscall (target s)) s).
Definition jump (pc : Z) : sys unit := fun s => Done (tt, set_target (set_pc pc (target s)) s).
Definition returns_to (pc : Z) : sys unit := fun s => Done (tt, set_target (set_return pc (target s)) s).

Definition from_guest (n size : Z) : sys (list Z) := fun s =>
  '(buf, m) ← get_buffer n (u32 size) (target s); Done (buf, set_target m s).
Definition to_guest (n : Z) (buf : list Z) (size : Z) : sys unit := fun s =>
  m ← set_buffer n buf (u32 size) (target s); Done (tt, set_target m s).

Definition ask (c : call) : sys (Z * list Z) := fun s =>
  let '(r, k) := kernel c (host s) in Done (r, set_host k s).
(** The result of a C function that returns [int]. *)
Definition ask_int (c : call) : sys Z := '(ret, _) ← ask c; mret (s32 ret).

(** A path in a buffer of [size] characters. *)
Definition pathname (n size : Z) : sys (list Z) := buf ← from_guest n size; orfault (c_string buf).

(** [set_int (0, ret); return_from_syscall ()]. *)
Definition finish (ret : Z) : sys unit := result 0 ret;; return_.

(** A result of -1 ends the simulator. *)
Definition checked (ret : Z) : sys unit := if ret =? -1 then exit_failure else mret tt.

(** ** The functions at fixed addresses *)

Definition sys_open : sys unit :=
  path ← pathname 0 100; flags ← arg 1; mode ← arg 2;
  ret ← ask_int (SYS_open path (correct_flags flags) mode); checked ret;; finish ret.

Definition sys_creat : sys unit :=
  path ← pathname 0 100; mode ← arg 1; ret ← ask_int (SYS_creat path mode); checked ret;; finish ret.

(** The standard streams stay open. *)
Definition close_fd (fd : Z) : sys Z :=
  if (fd =? 0) || (fd =? 1) || (fd =? 2) then mret 0 else ask_int (SYS_close fd).

Definition sys_close : sys unit := fd ← arg 0; ret ← close_fd fd; checked ret;; finish ret.

Definition sys_read : sys unit :=
  fd ← arg 0; count ← uarg 2; '(ret, buf) ← ask (SYS_read fd count);
  checked (s32 ret);; to_guest 1 buf (s32 ret);; finish (s32 ret).

Definition sys_write : sys unit :=
  fd ← arg 0; count ← uarg 2; buf ← from_guest 1 count; ret ← ask_int (SYS_write fd buf); checked ret;; finish ret.

Definition sys_isatty : sys unit := desc ← arg 0; ret ← ask_int (SYS_isatty desc); finish ret.

(** [ramsize]: the size of the target memory. *)
Definition sys_sbrk (ramsize : Z) : sys unit :=
  increment ← uarg 0;
  (fun s =>
     let base := ac_heap_ptr s in
     let heap := u32 (base + increment) in
     if u32 (ramsize - 1024) <? heap then result 0 (-1) s else result 0 base (set_heap heap s));;
  return_.

Definition sys_lseek : sys unit :=
  fd ← arg 0; offset ← arg 1; whence ← arg 2; ret ← ask_int (SYS_lseek fd offset whence); finish ret.

Definition sys_fstat : sys unit := fd ← arg 0; ret ← ask_int (SYS_fstat fd); checked ret;; finish ret.

Definition sys__exit : sys unit := status ← arg 0; stop status.

Definition sys_times : sys unit := to_guest 0 (repeat 0 16) 16;; finish 0.

Definition sys_time : sys unit :=
  t ← arg 0; ret ← ask_int SYS_time; (if t =? 0 then mret tt else to_guest 0 (le_bytes 4 ret) 4);; finish ret.

Definition sys_random : sys unit := ret ← ask_int SYS_random; finish ret.

(** [__NR_*] of [ac_syscall_codes.h]. *)
Definition NR_chmod : Z := 15.
Definition NR_getpid : Z := 20.
Definition NR_dup : Z := 41.
Definition NR_dup2 : Z := 63.
Definition NR_fstat : Z := 108.
Definition AC_BASE : Z := 65536.

Definition static_stat : sys (list Z) := fun s => Done (buf_stat s, s).
Definition put_stat (buf : list Z) : sys unit := fun s => Done (tt, set_buf_stat buf s).

Definition ac_syscall_wrapper : sys unit :=
  code ← arg 0;
  ret ← (if code =? NR_getpid then mret 123
         else if code =? NR_chmod then
           path ← pathname 0 100; mode ← arg 1; ask_int (SYS_chmod path mode)
         else if code =? NR_dup then fd ← arg 1; ask_int (SYS_dup fd)
         else if code =? NR_dup2 then fd ← arg 1; newfd ← arg 2; ask_int (SYS_dup2 fd newfd)
         else if code =? NR_fstat then
           fd ← arg 1; '(ret, buf) ← ask (SYS_fstat fd); put_stat buf;; mret (s32 ret)
         else if (AC_BASE <=? code) && (code <? AC_BASE + 13) then
           buf ← static_stat;
           '(off, size) ← orfault (stat_fields !! Z.to_nat (code - AC_BASE));
           mret (s32 (word_of off size buf))
         else exit_failure);
  finish ret.

Definition ac_syscall_geterrno : sys unit := ret ← ask_int SYS_errno; finish ret.
Definition ac_syscall_stat_mode : sys unit := exit_failure.
Definition ac_forbidden : sys unit := exit_failure.
Definition ac_rtld_dummy : sys unit := finish 0.

Definition loader_vectors : sys vectors := fun s => Done (vecs s, s).
Definition put_vectors (v : vectors) : sys unit := fun s => Done (tt, set_vecs v s).

(** The first function leaves the vector; the last one, the program itself,
    gets the address of [ac_rtld_fini]. *)
Definition ac_rtld_init : sys unit :=
  v ← loader_vectors;
  match startvec v with
  | [] => exit_failure
  | destination :: l =>
      put_vectors (MkVectors l (finivec v) (pinterp v));;
      jump destination;;
      result 0 (match l with [] => 0x84 | _ => 0 end);; result 1 0;; result 2 0;; returns_to 0x80
  end.

Definition first_return : sys unit := fun s =>
  Done (tt, if returnaddr s =? 0 then set_returnaddr (get_return (target s)) s else s).

Definition jump_back : sys unit := fun s => jump (returnaddr s) s.

Definition ac_rtld_fini : sys unit :=
  first_return;;
  v ← loader_vectors;
  match finivec v with
  | destination :: l => put_vectors (MkVectors (startvec v) l (pinterp v));; jump destination;; returns_to 0x84
  | [] => jump_back
  end.

(** [ac_syscall.def]: the function at an address. *)
Definition ac_syscall_def (ramsize : Z) : list (Z * sys unit) :=
  [(0x3c, ac_forbidden); (0x40, sys_open); (0x44, sys_creat); (0x48, sys_close); (0x4c, sys_read);
   (0x50, sys_write); (0x54, sys_isatty); (0x58, sys_sbrk ramsize); (0x5c, sys_lseek); (0x60, sys_fstat);
   (0x64, sys__exit); (0x68, sys_times); (0x6c, sys_time); (0x70, sys_random); (0x74, ac_syscall_wrapper);
   (0x78, ac_syscall_geterrno); (0x7c, ac_syscall_stat_mode); (0x80, ac_rtld_init); (0x84, ac_rtld_fini);
   (0x88, ac_rtld_dummy)].

(** The [switch] over the program counter; [None] decodes an instruction. *)
Definition at_address (ramsize pc : Z) : option (sys unit) :=
  snd <$> list_first (fun p => p.1 =? pc) (ac_syscall_def ramsize).

(** ** [process_syscall] *)

(** The calls in the order of the table; the result is that of
    [process_syscall].  Every one answers in argument 0. *)
Definition done (ret : Z) : sys Z := result 0 ret;; mret 0.

Definition EINVAL : Z := 22.
Definition EPERM : Z := 1.

Definition call_restart : sys Z := result 0 (- EINVAL);; mret (-1).
Definition call_exit : sys Z := status ← arg 0; stop status.
Definition call_fork : sys Z := ret ← ask_int SYS_fork; done ret.

(** The result of the host is also the size of what is stored. *)
Definition call_read : sys Z :=
  fd ← arg 0; count ← uarg 2; '(ret, buf) ← ask (SYS_read fd count); to_guest 1 buf (s32 ret);; done ret.

Definition call_write : sys Z :=
  fd ← arg 0; count ← uarg 2; buf ← from_guest 1 count; ret ← ask_int (SYS_write fd buf); done ret.

Definition call_open : sys Z :=
  path ← pathname 0 100; flags ← arg 1; mode ← arg 2; ret ← ask_int (SYS_open path flags mode); done ret.

Definition call_close : sys Z := fd ← arg 0; ret ← close_fd fd; done ret.

Definition call_creat : sys Z :=
  path ← pathname 0 100; mode ← arg 1; ret ← ask_int (SYS_creat path mode); done ret.

(** [time_t] has eight bytes. *)
Definition call_time (e : bool) : sys Z :=
  '(ret, param) ← ask SYS_time; t ← arg 0;
  (if (t =? 0) || (ret =? -1) then mret tt else b ← orfault (correct_words e 2 param); to_guest 0 b 8);; done ret.

Definition call_lseek : sys Z :=
  offset ← arg 1; whence ← arg 2; fd ← arg 0; ret ← ask_int (SYS_lseek fd offset whence); done ret.

Definition call_getpid : sys Z := ret ← ask_int SYS_getpid; done ret.

Definition call_access : sys Z :=
  path ← pathname 0 100; mode ← arg 1; ret ← ask_int (SYS_access path mode); done ret.

Definition call_kill : sys Z := done 0.
Definition call_dup : sys Z := fd ← arg 0; ret ← ask_int (SYS_dup fd); done ret.

Definition call_times (e : bool) : sys Z :=
  '(ret, buf) ← ask SYS_times;
  (if ret =? -1 then mret tt else b ← orfault (correct_words e (sizeof_tms / 4) buf); to_guest 0 b (Z.of_nat sizeof_tms));;
  done ret.

Definition call_brk : sys Z :=
  ptr ← uarg 0; ret ← (fun s => let '(r, mm) := brk ptr (mem_map s) in Done (r, set_map mm s)); done ret.

(** Only anonymous mappings.  [fuel]: turns of the search for a region, which
    ends ([MemMapOk]). *)
Definition call_mmap (fuel : nat) : sys Z :=
  flags ← arg 3; addr ← uarg 0; size ← uarg 1;
  if Z.land flags 0x20 =? 0 then done (- EINVAL)
  else
    ret ← (fun s => match mmap_anon fuel addr size (mem_map s) with
                    | Some (Ret (r, mm)) => Done (r, set_map mm s)
                    | Some (Exit _) => Exited
                    | _ => Fault
                    end);
    done ret.

Definition call_munmap : sys Z :=
  addr ← uarg 0; size ← uarg 1;
  ok ← (fun s => match munmap addr size (mem_map s) with
                 | Ret (r, mm) => Done (r, set_map mm s)
                 | Exit _ => Exited
                 | Crash => Fault
                 end);
  done (if ok : bool then 0 else - EINVAL).

(** The six ways to ask for a [struct stat]. *)
Definition give_stat (e : bool) (c : call) : sys Z :=
  '(ret, buf) ← ask c;
  (if s32 ret <? 0 then mret tt
   else b ← orfault (CORRECT_STAT_STRUCT e buf); to_guest 1 b (Z.of_nat sizeof_stat));;
  done ret.

Definition call_stat (e : bool) : sys Z := path ← pathname 0 256; give_stat e (SYS_stat path).
Definition call_lstat (e : bool) : sys Z := path ← pathname 0 256; give_stat e (SYS_lstat path).
Definition call_fstat (e : bool) : sys Z := fd ← arg 0; give_stat e (SYS_fstat fd).
Definition call_stat64 (e : bool) : sys Z := path ← pathname 0 256; give_stat e (SYS_stat64 path).
Definition call_lstat64 (e : bool) : sys Z := path ← pathname 0 256; give_stat e (SYS_lstat64 path).
Definition call_fstat64 (e : bool) : sys Z := fd ← arg 0; give_stat e (SYS_fstat64 fd).

Definition call_uname : sys Z :=
  '(ret, buf) ← ask SYS_uname; to_guest 0 buf (Z.of_nat sizeof_utsname);; done ret.

(** The offsets are extended with their sign to [unsigned long]; the position
    is not stored. *)
Definition call_llseek : sys Z :=
  fd ← arg 0; offset_high ← arg 1; offset_low ← arg 2; whence ← arg 4;
  ret ← (if offset_high =? 0 then '(ret_off, _) ← ask (SYS_lseek fd offset_low whence); mret (if 0 <=? ret_off then 0 else -1)
         else mret (-1));
  done ret.

(** A [struct iovec] of the host: address and length, eight bytes each. *)
Definition iovec_at (i : nat) (buf : list Z) : Z * Z :=
  (word_of (sizeof_iovec * i) 8 buf, word_of (sizeof_iovec * i + 8) 8 buf).

Definition iovecs (n : Z) (buf : list Z) : list (Z * Z) := map (fun i => iovec_at i buf) (seq 0 (Z.to_nat n)).

(** Counts whose arrays cannot be allocated. *)
Definition bad_count (n : Z) : bool := (n <? 0) || (2 ^ 28 <=? n).

(** The contents of the buffers one after the other; register 1 is lost. *)
Fixpoint scatter (l : list (Z * Z)) (data : list Z) : sys unit :=
  match l with
  | [] => mret tt
  | (base, len) :: l =>
      result 1 base;; to_guest 1 (take (Z.to_nat len) data) len;; scatter l (drop (Z.to_nat len) data)
  end.

Definition call_readv : sys Z :=
  fd ← arg 0; iovcnt ← arg 2;
  if bad_count iovcnt then fault
  else
    buf ← from_guest 1 (Z.of_nat sizeof_iovec * iovcnt);
    '(ret, data) ← ask (SYS_readv fd (map snd (iovecs iovcnt buf)));
    scatter (iovecs iovcnt buf) data;;
    done ret.

Fixpoint gather (e : bool) (l : list (Z * Z)) : sys (list (list Z)) :=
  match l with
  | [] => mret []
  | (base, len) :: l =>
      base ← orfault (CORRECT_ENDIAN e base 8); len ← orfault (CORRECT_ENDIAN e len 8);
      result 1 base;; b ← from_guest 1 len; bs ← gather e l; mret (b :: bs)
  end.

Definition call_writev (e : bool) : sys Z :=
  fd ← arg 0; iovcnt ← arg 2;
  if bad_count iovcnt then fault
  else
    buf ← from_guest 1 (Z.of_nat sizeof_iovec * iovcnt);
    bufs ← gather e (iovecs iovcnt buf);
    ret ← ask_int (SYS_writev fd bufs);
    done ret.

Definition call_getuid32 : sys Z := ret ← ask_int SYS_getuid; done ret.
Definition call_getgid32 : sys Z := ret ← ask_int SYS_getgid; done ret.
Definition call_geteuid32 : sys Z := ret ← ask_int SYS_geteuid; done ret.
Definition call_getegid32 : sys Z := ret ← ask_int SYS_getegid; done ret.
Definition call_fcntl64 : sys Z := done (- EINVAL).

(** The argument block of a socket call: words of the host's byte order. *)
Definition socket_arg (i : nat) (tmp : list Z) : Z := word_of (4 * i) 4 tmp.

(** The address of [bind] and [connect]: argument 0 is overwritten with its place. *)
Definition socket_address (e : bool) (tmp : list Z) : sys (list Z) :=
  result 0 (socket_arg 1 tmp);; b ← from_guest 0 (Z.of_nat sizeof_sockaddr);
  orfault (CORRECT_SOCKADDR_STRUCT_TO_HOST e b).

Definition call_accept (e : bool) (tmp : list Z) : sys Z :=
  '(ret, out) ← ask (SYS_accept (s32 (socket_arg 0 tmp)) uninitialised);
  addr ← orfault (CORRECT_SOCKADDR_STRUCT_TO_GUEST e (take sizeof_sockaddr out));
  len ← orfault (CORRECT_ENDIAN e (word_of sizeof_sockaddr 4 out) 4);
  result 0 (socket_arg 1 tmp);; to_guest 0 addr (Z.of_nat sizeof_sockaddr);;
  result 0 (socket_arg 2 tmp);; to_guest 0 (le_bytes 4 len) 4;;
  mret (s32 ret).

(** An unknown number leaves [ret] uninitialised. *)
Definition call_socketcall (e : bool) : sys Z :=
  number ← arg 0; tmp ← from_guest 1 256;
  ret ← match number with
        | 1 => ask_int (SYS_socket (s32 (socket_arg 0 tmp)) (s32 (socket_arg 1 tmp)) (s32 (socket_arg 2 tmp)))
        | 2 => addr ← socket_address e tmp; ask_int (SYS_bind (s32 (socket_arg 0 tmp)) addr (socket_arg 2 tmp))
        | 3 => addr ← socket_address e tmp; ask_int (SYS_connect (s32 (socket_arg 0 tmp)) addr (socket_arg 2 tmp))
        | 4 => ask_int (SYS_listen (s32 (socket_arg 0 tmp)) (s32 (socket_arg 1 tmp)))
        | 5 => call_accept e tmp
        | _ => mret uninitialised
        end;
  done ret.

Definition call_gettimeofday (e : bool) : sys Z :=
  '(ret, out) ← ask SYS_gettimeofday;
  tv ← orfault (CORRECT_TIMEVAL_STRUCT e (take 16 out)); tz ← orfault (CORRECT_TIMEZONE_STRUCT e (drop 16 out));
  to_guest 0 tv 16;; to_guest 1 tz 8;; done ret.

Definition call_settimeofday : sys Z := done (- EPERM).

(** The branches in the order of the tests; [None] is [mmap2]. *)
Definition branches (e : bool) (fuel : nat) : list (option (sys Z)) :=
  [Some call_restart; Some call_exit; Some call_fork; Some call_read; Some call_write; Some call_open;
   Some call_close; Some call_creat; Some (call_time e); Some call_lseek; Some call_getpid; Some call_access;
   Some call_kill; Some call_dup; Some (call_times e); Some call_brk; Some (call_mmap fuel); Some call_munmap;
   Some (call_stat e); Some (call_lstat e); Some (call_fstat e); Some call_uname; Some call_llseek;
   Some call_readv; Some (call_writev e); None; Some (call_stat64 e); Some (call_lstat64 e);
   Some (call_fstat64 e); Some call_getuid32; Some call_getgid32; Some call_geteuid32; Some call_getegid32;
   Some call_fcntl64; Some call_exit; Some (call_socketcall e); Some (call_gettimeofday e); Some call_settimeofday].

(** The chain of tests [syscall == sctbl[i]]: the branch taken, [Some None] when
    none is, [None] when a test reads behind the table. *)
Fixpoint choose {B} (syscall : Z) (table : list Z) (l : list B) : option (option B) :=
  match l, table with
  | [], _ => Some None
  | _ :: _, [] => None
  | b :: l, code :: table => if syscall =? code then Some (Some b) else choose syscall table l
  end.

(** [mmap2] calls the function again with the number of [mmap]; that call
    finds its branch at or before [mmap] and goes no deeper. *)
Fixpoint process_table (depth : nat) (e : bool) (fuel : nat) (table : list Z) (syscall : Z) : sys Z :=
  match depth with
  | O => fault
  | S depth =>
      match choose syscall table (branches e fuel) with
      | None => fault
      | Some None => call_restart
      | Some (Some (Some branch)) => branch
      | Some (Some None) => mmap ← orfault (table !! 16%nat); process_table depth e fuel table mmap
      end
  end.

Definition process_syscall (e : bool) (fuel : nat) (syscall : Z) : sys Z :=
  match get_syscall_table (M := M) with
  | None => mret (-1)
  | Some table => process_table 2 e fuel table syscall
  end.
End Syscalls.

(** ** Flags *)

Lemma correct_flags_fold l : forall f g a b,
  fold_left (correct_flag (Z.lor f g)) l (Z.lor a b) = Z.lor (fold_left (correct_flag f) l a) (fold_left (correct_flag g) l b).
Proof.
  induction l as [|p l IH]; intros f g a b; [reflexivity|]. cbn [fold_left]. rewrite <- IH. f_equal.
  unfold correct_flag. rewrite Z.land_lor_distr_l.
  destruct (Z.eqb_spec (Z.land f p.1) 0) as [->|Hf], (Z.eqb_spec (Z.land g p.1) 0) as [->|Hg]; rewrite ?Z.lor_0_r.
  - reflexivity.
  - rewrite Z.lor_0_l, (proj2 (Z.eqb_neq _ _) Hg). apply Z.bits_inj'. intros i Hi. rewrite !Z.lor_spec. destruct (Z.testbit a i), (Z.testbit b i), (Z.testbit p.2 i); reflexivity.
  - rewrite (proj2 (Z.eqb_neq _ _) Hf). apply Z.bits_inj'. intros i Hi. rewrite !Z.lor_spec. destruct (Z.testbit a i), (Z.testbit b i), (Z.testbit p.2 i); reflexivity.
  - destruct (Z.eqb_spec (Z.lor (Z.land f p.1) (Z.land g p.1)) 0) as [E|_]; [apply Z.lor_eq_0_iff in E as [E _]; contradiction|].
    apply Z.bits_inj'. intros i Hi. rewrite !Z.lor_spec. destruct (Z.testbit a i), (Z.testbit b i), (Z.testbit p.2 i); reflexivity.
Qed.

(** The flags of newlib are translated one by one. *)
Lemma correct_flags_union f g : correct_flags (Z.lor f g) = Z.lor (correct_flags f) (correct_flags g).
Proof. exact (correct_flags_fold flag_table f g 0 0). Qed.

Lemma correct_flags_each : Forall (fun p => correct_flags p.1 = p.2) flag_table.
Proof. repeat constructor. Qed.

(** ** The heap *)

Section Heap.
Context {M K : Type} `{!Target M} `{!Host K}.

(** The heap of [sbrk] keeps below the last kilobyte of the memory, and a
    request that is refused leaves it. *)
Lemma sbrk_below ramsize (s s' : state M K) : 1024 <= ramsize < 2 ^ 32 -> 0 <= ac_heap_ptr s <= ramsize - 1024 ->
  sys_sbrk ramsize s = Done (tt, s') ->
  0 <= ac_heap_ptr s' <= ramsize - 1024 /\
  (ac_heap_ptr s' = u32 (ac_heap_ptr s + u32 (get_int 0 (target s))) \/ ac_heap_ptr s' = ac_heap_ptr s).
Proof.
  intros Hr Hh. unfold sys_sbrk, uarg, arg, return_, result. cbv [mbind sys_bind mret sys_ret].
  set (grown := u32 (ac_heap_ptr s + _)). assert (Hg : 0 <= grown < 2 ^ 32) by (apply uwrap_range; lia).
  rewrite (uwrap_small 32 (ramsize - 1024)) by lia.
  destruct (Z.ltb_spec (ramsize - 1024) grown); intros [= <-]; cbn; [split; [exact Hh|right; reflexivity]|].
  split; [lia|left; reflexivity].
Qed.
End Heap.

(** ** Layouts *)

(** Two [struct iovec]s of a target of 32 bits are one of the host, with an
    address and a length that are each made of two words. *)
Example iovec_of_target : iovec_at 0 (le_bytes 4 0x1000 ++ le_bytes 4 16 ++ le_bytes 4 0x2000 ++ le_bytes 4 32)
  = (0x1000 + 16 * 2 ^ 32, 0x2000 + 32 * 2 ^ 32).
Proof. reflexivity. Qed.

(** [CORRECT_STAT_STRUCT] cuts sizes to 32 bits even when nothing is to be
    swapped, and fails on a target of the other byte order. *)
Example stat_size_cut : word_of 48 8 <$> CORRECT_STAT_STRUCT true (put_at 48 8 (2 ^ 32 + 5) (repeat 0 sizeof_stat)) = Some 5.
Proof. reflexivity. Qed.
Example stat_size_unswappable : CORRECT_STAT_STRUCT false (repeat 0 sizeof_stat) = None.
Proof. reflexivity. Qed.

(** An address of IPv6 does not fit the structure it is read into. *)
Example inet6_address_overruns : CORRECT_SOCKADDR_STRUCT_TO_HOST true (10 :: repeat 0 15) = None.
Proof. reflexivity. Qed.
