(* ===== verification/ArmSyscall.v ===== *)
(** * System calls of the ARM model

    [armv7/src/arm_syscall.cpp]: the processor's side of the interface [Target],
    the arguments of the program and the table of call numbers; and the
    behaviour of SWI in [arm_isa.cpp] for a simulator without [SYSTEM_MODEL].
    The registers are those of the bank [RB], not the ones of the current mode.
    The theorems run the calls of [Syscall] on a memory that behaves as an array
    of bytes. *)
From S2P Require Import Prelude DynMem MemMap LinkNode ArmCore ArmFormats ArmData ArmMem ArmIsa ArmMmu ArmCoreOk ArmFormatsOk ArmDataOk ArmStepOk ArmMemOk ArmMmuOk ArmSystemOk Syscall.

Definition AC_RAM_END : Z := 10485760.

Definition from_flow {S A} (r : flow S A) : outcome S A :=
  match r with Next a => Done a | Annul s => Annulled s | Stop status => Stopped status end.

Section ArmTarget.
Context {mem : Type} `{!MemPort mem}.
Notation machine := (core * mem)%type.

(** ** Buffers *)

Fixpoint read_bytes (n : nat) (addr : Z) (m : machine) : outcome machine (list Z * machine) :=
  match n with
  | O => Done ([], m)
  | S n =>
      '(x, m) ← from_flow (MEM_read_byte addr m);
      '(bs, m) ← read_bytes n (u32 (addr + 1)) m;
      Done (x :: bs, m)
  end.

Definition arm_get_buffer (argn size : Z) (m : machine) : outcome machine (list Z * machine) :=
  read_bytes (Z.to_nat size) (bank_read m.1 argn) m.

(** [size] bytes of an array that has the bytes [buf]. *)
Fixpoint write_bytes (size addr : Z) (buf : list Z) (m : machine) : outcome machine machine :=
  if size <=? 0 then Done m
  else
    match buf with
    | [] => Fault
    | x :: buf => m ← from_flow (MEM_write_byte addr x m); write_bytes (size - 1) (u32 (addr + 1)) buf m
    end.

Definition arm_set_buffer (argn : Z) (buf : list Z) (size : Z) (m : machine) : outcome machine machine :=
  write_bytes size (bank_read m.1 argn) buf m.

(** An array of words, written with the order of the target. *)
Fixpoint write_words (addr : Z) (buf : list Z) (m : machine) : outcome machine machine :=
  match buf with
  | [] => Done m
  | w :: buf => m ← from_flow (MEM_write addr w m); write_words (u32 (addr + 4)) buf m
  end.

Definition arm_set_buffer_noinvert (argn : Z) (buf : list Z) (m : machine) : outcome machine machine :=
  write_words (bank_read m.1 argn) buf m.

(** ** Registers *)

Definition arm_get_int (argn : Z) (m : machine) : Z := s32 (bank_read m.1 argn).
Definition arm_set_int (argn val : Z) (m : machine) : machine := (bank_write m.1 argn (u32 val), m.2).
Definition arm_set_pc (val : Z) (m : machine) : machine := (ArmCore.set_pc val (bank_write m.1 15 val), m.2).
Definition arm_set_return (val : Z) (m : machine) : machine := (bank_write m.1 14 val, m.2).
Definition arm_get_return (m : machine) : Z := bank_read m.1 14.
Definition arm_return_from_syscall (m : machine) : machine := (ArmCore.set_pc (bank_read m.1 14) m.1, m.2).

(** ** The table *)

Definition ARM_NR_SYSCALL_BASE : Z := 0x900000.

(** restart, exit, fork, read, write, open, close, creat, time, lseek, getpid,
    access, kill, dup, times, brk, mmap, munmap, stat, lstat, fstat, uname,
    _llseek, readv, writev, mmap2, stat64, lstat64, fstat64, getuid32, getgid32,
    geteuid32, getegid32, fcntl64, exit_group and socketcall. *)
Definition arm_numbers : list Z :=
  [0; 1; 2; 3; 4; 5; 6; 8; 13; 19; 20; 33; 37; 41; 43; 45; 90; 91; 106; 107; 108; 122; 140; 145; 146; 192;
   195; 196; 197; 199; 200; 201; 202; 221; 248; 102].

Definition arm_syscall_table : list Z := map (Z.add ARM_NR_SYSCALL_BASE) arm_numbers.

#[export] Instance arm_syscall : Target machine := {|
  get_int := arm_get_int;
  set_int := arm_set_int;
  get_buffer := arm_get_buffer;
  set_buffer := arm_set_buffer;
  return_from_syscall := arm_return_from_syscall;
  Syscall.set_pc := arm_set_pc;
  set_return := arm_set_return;
  get_return := arm_get_return;
  get_syscall_table := Some arm_syscall_table
|}.

(** ** The arguments of the program *)

Definition put_list (j : nat) (l strs : list Z) : list Z := take j strs ++ l ++ drop (j + length l) strs.

(** The strings in [ac_argstr], from position [j] on, and their addresses;
    [None] is a write behind one of the arrays. *)
Fixpoint layout_args (base : Z) (j : nat) (argv : list (list Z)) (strs : list Z) : option (list Z * list Z) :=
  match argv with
  | [] => Some ([], strs)
  | a :: argv =>
      let len := (length a + 1)%nat in
      if (length strs <? j + len)%nat then None
      else '(ptrs, strs) ← layout_args base (j + len) argv (put_list j (a ++ [0]) strs);
           Some ((base + Z.of_nat j) :: ptrs, strs)
  end.

(** [words] and [strs]: the uninitialised arrays [ac_argv] and [ac_argstr]. *)
Definition set_prog_args (argv : list (list Z)) (words strs : list Z) (is_glibc : bool) (init_arraysz : Z) (m : machine) :
    outcome machine machine :=
  let argc := Z.of_nat (length argv) in
  '(ptrs, strs) ← of_opt (layout_args (AC_RAM_END - 512) 0 argv strs);
  if (length words <? length argv + 2)%nat then Fault
  else
    let ac_argv := ptrs ++ [0; 0] ++ drop (length argv + 2) words in
    let m := (bank_write m.1 13 (AC_RAM_END - 512), m.2) in
    m ← arm_set_buffer 13 strs 512 m;
    let m := (bank_write m.1 13 (AC_RAM_END - 512 - 120), m.2) in
    m ← arm_set_buffer_noinvert 13 ac_argv m;
    m ← (if is_glibc then
           let m := (bank_write m.1 13 (AC_RAM_END - 512 - 124), m.2) in
           from_flow (MEM_write (AC_RAM_END - 512 - 124) argc m)
         else Done m);
    let m := if init_arraysz =? 0 then m else arm_set_return 0x80 m in
    Done (if is_glibc then (bank_write m.1 0 0x84, m.2)
          else (bank_write (bank_write m.1 0 argc) 1 (AC_RAM_END - 512 - 120), m.2)).

(** ** SWI without [SYSTEM_MODEL] *)

Context {K : Type} `{!Host K}.

(** A number of 0 is the new ABI.  A result of -1 is only reported. *)
Definition behavior_swi (e : bool) (fuel : nat) (swinumber : Z) : sys (M := machine) (K := K) Z := fun s =>
  let number := if swinumber =? 0 then add_w (RB_read (target s).1 7) 0x900000 else swinumber in
  process_syscall e fuel (s32 number) s.
End ArmTarget.

(** ** Buffers in a memory that is an array of bytes *)

Section ArmCalls.
Context {mem : Type} `{!MemPort mem} `{!Memory mem}.
Notation machine := (core * mem)%type.

(** The bytes of [n] addresses from [a] on are in the memory. *)
Definition area (s : mem) (a n : Z) : Prop := forall q, a <= q < a + n -> has s q.

Definition bytes_at (s : mem) (a : Z) (n : nat) : list Z := map (fun i => view s (a + Z.of_nat i)) (seq 0 n).

Lemma bytes_at_S s a n : bytes_at s a (S n) = view s a :: bytes_at s (a + 1) n.
Proof.
  unfold bytes_at. cbn [seq map]. rewrite Z.add_0_r. f_equal. rewrite <- seq_shift, map_map.
  apply map_ext. intros i. f_equal. lia.
Qed.

Lemma read_bytes_view n : forall a c s, ready s -> 0 <= a -> a + Z.of_nat n <= 2 ^ 32 -> area s a (Z.of_nat n) ->
  read_bytes n a (c, s) = Done (bytes_at s a n, (c, s)).
Proof.
  induction n as [|n IH]; intros a c s Hr Ha Hn Hh; [reflexivity|]. cbn [read_bytes].
  rewrite law_read_byte by (try assumption; apply Hh; lia). cbn [from_flow mbind outcome_bind].
  destruct (decide (n = 0%nat)) as [->|Hn0]; [cbn; rewrite Z.add_0_r; reflexivity|].
  rewrite u32_id by lia. rewrite IH by (try assumption; try lia; intros q Hq; apply Hh; lia).
  cbn [mbind outcome_bind]. rewrite bytes_at_S. reflexivity.
Qed.

(** What [n] bytes of [buf] at [a] make of an array of bytes. *)
Definition stored (a : Z) (buf : list Z) (f : bytes) : bytes :=
  fun q => if (a <=? q) && (q <? a + Z.of_nat (length buf)) then u8 (nth (Z.to_nat (q - a)) buf 0) else f q.

Lemma stored_nil a f q : stored a [] f q = f q.
Proof.
  unfold stored. cbn [length]. rewrite Z.add_0_r. destruct (Z.leb_spec a q), (Z.ltb_spec q a); try reflexivity. lia.
Qed.

Lemma stored_cons a x buf f q : stored a (x :: buf) f q = stored (a + 1) buf (fun q => if q =? a then u8 x else f q) q.
Proof.
  unfold stored. cbn [length]. rewrite Nat2Z.inj_succ, <- Z.add_1_r. pose proof (Nat2Z.is_nonneg (length buf)) as Hb.
  destruct (Z.eqb_spec q a) as [->|Hq].
  - replace ((a <=? a) && (a <? a + (Z.of_nat (length buf) + 1))) with true by lia.
    replace ((a + 1 <=? a) && (a <? a + 1 + Z.of_nat (length buf))) with false by lia. rewrite Z.sub_diag. reflexivity.
  - replace ((a + 1 <=? q) && (q <? a + 1 + Z.of_nat (length buf))) with ((a <=? q) && (q <? a + (Z.of_nat (length buf) + 1))) by lia.
    destruct ((a <=? q) && (q <? a + (Z.of_nat (length buf) + 1))) eqn:E; [|reflexivity].
    replace (Z.to_nat (q - a)) with (S (Z.to_nat (q - (a + 1)))) by lia. reflexivity.
Qed.

Lemma stored_ext a buf f g q : (forall q, f q = g q) -> stored a buf f q = stored a buf g q.
Proof. intros H. unfold stored. rewrite H. reflexivity. Qed.

Lemma write_bytes_0 a buf (m : machine) : write_bytes 0 a buf m = Done m.
Proof. destruct buf; reflexivity. Qed.

Lemma write_bytes_view buf : forall n a c s, ready s -> 0 <= a -> (n <= length buf)%nat -> a + Z.of_nat n <= 2 ^ 32 ->
  area s a (Z.of_nat n) -> exists s', write_bytes (Z.of_nat n) a buf (c, s) = Done (c, s') /\ ready s' /\
    (forall q, view s' q = stored a (take n buf) (view s) q) /\ (forall q, has s q -> has s' q).
Proof.
  induction buf as [|x buf IH]; intros [|n] a c s Hr Ha Hn Hw Hh; cbn [length] in Hn; try lia;
    try (exists s; rewrite take_0; repeat split; auto; intros q; rewrite stored_nil; reflexivity).
  destruct (law_write_byte a x c s Hr (Hh a ltac:(lia))) as (s1 & E1 & Hr1 & Hv1 & Hh1).
  assert (E : exists s', write_bytes (Z.of_nat n) (u32 (a + 1)) buf (c, s1) = Done (c, s') /\ ready s' /\
    (forall q, view s' q = stored (a + 1) (take n buf) (view s1) q) /\ (forall q, has s1 q -> has s' q)).
  { destruct n as [|n].
    - exists s1. rewrite write_bytes_0, take_0. repeat split; auto. intros q. rewrite stored_nil. reflexivity.
    - rewrite u32_id by lia. apply IH; auto; try lia. intros q Hq. apply Hh1, Hh. lia. }
  destruct E as (s2 & E2 & Hr2 & Hv2 & Hh2). exists s2. cbn [write_bytes].
  destruct (Z.leb_spec (Z.of_nat (S n)) 0); [lia|]. rewrite E1. cbn [from_flow mbind outcome_bind].
  replace (Z.of_nat (S n) - 1) with (Z.of_nat n) by lia. split; [exact E2|]. repeat split; auto.
  intros q. rewrite Hv2, firstn_cons, stored_cons. apply stored_ext, Hv1.
Qed.

Context {K : Type} `{!Host K}.
Notation sstate := (state machine K).
Notation arm_sys := (sys (M := machine) (K := K)).

(** ** Sequencing *)

Lemma sys_bind_done {A B} (p : arm_sys A) (f : A -> arm_sys B) s a s' : p s = Done (a, s') -> (p ≫= f) s = f a s'.
Proof. intros E. unfold mbind, sys_bind. rewrite E. reflexivity. Qed.

(** Runs the first call of a sequence, whose outcome [E] gives. *)
Ltac sys_step E := rewrite (sys_bind_done _ _ _ _ _ E); cbv beta.

Lemma swrap_range w z : 0 < w -> - 2 ^ (w - 1) <= swrap w z < 2 ^ (w - 1).
Proof.
  intros Hw. unfold swrap. assert (E : 2 ^ w = 2 * 2 ^ (w - 1)) by (rewrite <- Z.pow_succ_r by lia; f_equal; lia).
  assert (0 < 2 ^ (w - 1)) by (apply Z.pow_pos_nonneg; lia).
  assert (0 <= (z + 2 ^ (w - 1)) mod 2 ^ w < 2 ^ w) by (apply Z.mod_pos_bound; lia). lia.
Qed.

(** The state after a call that changed the memory and the host and answered
    [ret]. *)
Definition answered (ret : Z) (m : mem) (k : K) (s : sstate) : sstate :=
  set_host k (set_target (bank_write (target s).1 0 (u32 (s32 ret)), m) s).

Lemma done_answers ret s : done ret s = Done (0, answered ret (target s).2 (host s) s).
Proof. reflexivity. Qed.

(** ** Which call a number is *)

Lemma choose_found {B} x : forall table (l : list B) i b, base.NoDup table -> table !! i = Some x -> l !! i = Some b ->
  choose x table l = Some (Some b).
Proof.
  induction table as [|y table IH]; intros [|b' l] [|i] b Hn Ht Hl; try discriminate; cbn [choose].
  - injection Ht as ->. injection Hl as ->. rewrite Z.eqb_refl. reflexivity.
  - apply NoDup_cons in Hn as [Hy Hn]. destruct (Z.eqb_spec x y) as [->|_].
    + destruct Hy. exact (list_elem_of_lookup_2 table i _ Ht).
    + exact (IH l i b Hn Ht Hl).
Qed.

Lemma choose_missing {B} x : forall table (l : list B), x ∉ table -> (length table < length l)%nat -> choose x table l = None.
Proof.
  induction table as [|y table IH]; intros [|b' l] Hx Hl; cbn [length] in Hl; try lia; [reflexivity|].
  cbn [choose]. apply not_elem_of_cons in Hx as [Hy Hx]. replace (x =? y) with false by lia. apply IH; [exact Hx|lia].
Qed.

Lemma arm_table_unique : base.NoDup arm_syscall_table.
Proof. apply (bool_decide_unpack (base.NoDup arm_syscall_table)). vm_compute. exact I. Qed.

(** Every number of the table is served by the branch at its place, [mmap2] by that
    of [mmap]; every other one reads behind the table. *)
Lemma call_by_place e fuel number (s : sstate) :
  process_syscall e fuel number s =
    match list_find (fun x => x = number) arm_syscall_table with
    | Some (i, _) => match branches e fuel !! i with Some (Some branch) => branch s | Some None => call_mmap fuel s | None => Fault end
    | None => Fault
    end.
Proof.
  unfold process_syscall. cbn [get_syscall_table arm_syscall process_table].
  destruct (list_find _ _) as [[i x]|] eqn:E.
  - apply list_find_Some in E as (Hi & -> & _).
    destruct (branches e fuel !! i) as [b|] eqn:Eb.
    + rewrite (choose_found (B := option (arm_sys Z)) number _ _ i b arm_table_unique Hi Eb). destruct b as [b|]; [reflexivity|].
      unfold process_table. cbn [mbind].
      rewrite (sys_bind_done (orfault _) _ s (ARM_NR_SYSCALL_BASE + 90) s) by reflexivity.
      rewrite (choose_found (B := option (arm_sys Z)) (ARM_NR_SYSCALL_BASE + 90) _ _ 16%nat (Some (call_mmap fuel)) arm_table_unique) by reflexivity.
      reflexivity.
    + apply lookup_lt_Some in Hi. apply lookup_ge_None in Eb. cbn in Hi, Eb. lia.
  - rewrite choose_missing; [reflexivity| |cbn; lia].
    apply list_find_None in E. intros Hx. rewrite Forall_forall in E. exact (E _ Hx eq_refl).
Qed.

(** The system calls of Linux on the ARM, as its unistd.h numbers them. *)
Definition linux_calls (e : bool) (fuel : nat) : list (Z * arm_sys Z) :=
  [(0, call_restart); (1, call_exit); (2, call_fork); (3, call_read); (4, call_write); (5, call_open); (6, call_close);
   (8, call_creat); (13, call_time e); (19, call_lseek); (20, call_getpid); (33, call_access); (37, call_kill); (41, call_dup);
   (43, call_times e); (45, call_brk); (90, call_mmap fuel); (91, call_munmap); (102, call_socketcall e); (106, call_stat e);
   (107, call_lstat e); (108, call_fstat e); (122, call_uname); (140, call_llseek); (145, call_readv); (146, call_writev e);
   (192, call_mmap fuel); (195, call_stat64 e); (196, call_lstat64 e); (197, call_fstat64 e); (199, call_getuid32);
   (200, call_getgid32); (201, call_geteuid32); (202, call_getegid32); (221, call_fcntl64); (248, call_exit)].

(** C36. System calls by their numbers: the 36 numbers of Linux on the ARM that the simulator
    knows, above the base 0x900000 of the old ABI, are served by the calls of
    those names, [mmap2] by [mmap] and [exit_group] by [exit].  Every other
    number, although the function has an answer for it ("not implemented"),
    reads behind the table: the table has 36 entries and the tests go on to the
    thirty-seventh. *)
Theorem arm_call_numbers e fuel (s : sstate) :
  Forall (fun p => process_syscall e fuel (0x900000 + p.1) s = p.2 s) (linux_calls e fuel) /\
  (forall number, number - 0x900000 ∉ map fst (linux_calls e fuel) -> process_syscall e fuel number s = Fault).
Proof.
  split; [repeat constructor|]. intros number Hn. rewrite call_by_place.
  destruct (list_find (fun x => x = number) arm_syscall_table) as [[i x]|] eqn:E; [|reflexivity]. exfalso. apply Hn.
  apply list_find_Some in E as (Hi & -> & _). apply list_elem_of_lookup_2 in Hi.
  assert (Ht : Forall (fun x => x - 0x900000 ∈ map fst (linux_calls e fuel)) arm_syscall_table).
  { change (map fst (linux_calls e fuel)) with [0; 1; 2; 3; 4; 5; 6; 8; 13; 19; 20; 33; 37; 41; 43; 45; 90; 91; 102; 106; 107; 108; 122; 140;
      145; 146; 192; 195; 196; 197; 199; 200; 201; 202; 221; 248]. apply (bool_decide_unpack _). vm_compute. exact I. }
  rewrite Forall_forall in Ht. exact (Ht _ Hi).
Qed.

(** ** Files *)

Definition reg (s : sstate) (n : Z) : Z := bank_read (target s).1 n.

Lemma call_read_stores s ret data k : let a := reg s 1 in
  kernel (SYS_read (s32 (reg s 0)) (u32 (s32 (reg s 2)))) (host s) = ((ret, data), k) ->
  0 <= ret <= Z.of_nat (length data) -> ret < 2 ^ 31 -> 0 <= a -> a + ret <= 2 ^ 32 ->
  ready (target s).2 -> area (target s).2 a ret -> exists m,
  call_read s = Done (0, answered ret m k s) /\ ready m /\
  (forall q, view m q = stored a (take (Z.to_nat ret) data) (view (target s).2) q) /\ (forall q, has (target s).2 q -> has m q).
Proof.
  destruct s as [[c m] k0 h mm vs ra bs]. intros a Hk Hret Hr31 Ha Hw Hr Har. cbn in a, Hk, Hr, Har. unfold reg in Hk. cbn in Hk.
  destruct (write_bytes_view data (Z.to_nat ret) a c m Hr Ha) as (m1 & E & Hr1 & Hv & Hh); rewrite ?Z2Nat.id by lia; try lia; [exact Har|].
  rewrite Z2Nat.id in E by lia. exists m1. split; [|split; [exact Hr1|split; [exact Hv|exact Hh]]].
  assert (Hs : s32 ret = ret) by (apply swrap_small; lia).
  unfold call_read. rewrite (sys_bind_done (arg 0) _ _ _ _ eq_refl). cbv beta.
  rewrite (sys_bind_done (uarg 2) _ _ _ _ eq_refl). cbv beta.
  rewrite (sys_bind_done (ask _) _ _ (ret, data) (MkState (c, m) k h mm vs ra bs)) by (unfold ask; cbn; unfold arm_get_int; cbn [fst]; rewrite Hk; reflexivity).
  rewrite (sys_bind_done (to_guest _ _ _) _ _ tt (MkState (c, m1) k h mm vs ra bs)); [reflexivity|].
  unfold to_guest. cbn [set_buffer arm_syscall target]. unfold arm_set_buffer. cbn [fst].
  rewrite Hs, u32_id by lia. change (bank_read c 1) with a. rewrite E. reflexivity.
Qed.

Lemma call_write_sends s : let a := reg s 1 in let n := u32 (s32 (reg s 2)) in
  0 <= a -> a + n <= 2 ^ 32 -> ready (target s).2 -> area (target s).2 a n ->
  call_write s = let '((ret, _), k) := kernel (SYS_write (s32 (reg s 0)) (bytes_at (target s).2 a (Z.to_nat n))) (host s) in
    Done (0, answered ret (target s).2 k s).
Proof.
  destruct s as [[c m] k0 h mm vs ra bs]. intros a n Ha Hw Hr Har. cbn in a, n, Hr, Har.
  assert (Hn : 0 <= n < 2 ^ 32) by (apply uwrap_range; lia).
  unfold call_write. rewrite (sys_bind_done (arg 0) _ _ _ _ eq_refl). cbv beta.
  rewrite (sys_bind_done (uarg 2) _ _ _ _ eq_refl). cbv beta. fold n.
  rewrite (sys_bind_done (from_guest _ _) _ _ (bytes_at m a (Z.to_nat n)) (MkState (c, m) k0 h mm vs ra bs)).
  - unfold reg. cbn [target fst snd host get_int arm_syscall]. unfold arm_get_int. cbn [fst].
    destruct (kernel _ k0) as [[ret out] k1] eqn:E. cbv beta.
    rewrite (sys_bind_done (ask_int _) _ _ (s32 ret) (MkState (c, m) k1 h mm vs ra bs)).
    + unfold answered. rewrite done_answers. unfold answered. rewrite (swrap_small 32 (s32 ret)); [reflexivity|lia|].
      assert (H := swrap_range 32 ret ltac:(lia)). lia.
    + unfold ask_int. rewrite (sys_bind_done (ask _) _ _ (ret, out) (MkState (c, m) k1 h mm vs ra bs)) by (unfold ask; cbn [host]; rewrite E; reflexivity).
      reflexivity.
  - unfold from_guest. cbn [get_buffer arm_syscall target]. unfold arm_get_buffer. cbn [fst].
    change (u32 (get_int 2 (c, m))) with n. rewrite (u32_id n) by exact Hn.
    change (bank_read c 1) with a. rewrite read_bytes_view;
      [reflexivity|exact Hr|exact Ha|rewrite Z2Nat.id by lia; exact Hw|rewrite Z2Nat.id by lia; exact Har].
Qed.

(** A SWI of the new ABI with the number in register 7. *)
Lemma swi_number e fuel (s : sstate) n : In (mode_of (target s).1) modes -> reg s 7 = n ->
  behavior_swi e fuel 0 s = process_syscall e fuel (s32 (add_w n 0x900000)) s.
Proof.
  intros Hm <-. unfold behavior_swi. cbn [Z.eqb]. unfold reg, bypass_read.
  assert (E : bypass_reg (mode_of (target s).1) 7 = Some (inl tt))
    by (destruct Hm as [<-|[<-|[<-|[<-|[<-|[<-|[<-|[]]]]]]]]; reflexivity).
  rewrite E. reflexivity.
Qed.

Lemma swi_read e fuel s : In (mode_of (target s).1) modes -> reg s 7 = 3 -> behavior_swi e fuel 0 s = call_read s.
Proof. intros Hm Hn. rewrite (swi_number e fuel s 3 Hm Hn), call_by_place. reflexivity. Qed.

Lemma swi_write e fuel s : In (mode_of (target s).1) modes -> reg s 7 = 4 -> behavior_swi e fuel 0 s = call_write s.
Proof. intros Hm Hn. rewrite (swi_number e fuel s 4 Hm Hn), call_by_place. reflexivity. Qed.

Lemma bytes_at_stored m a buf f : (forall q, view m q = stored a buf f q) -> Forall (fun x => 0 <= x < 256) buf ->
  bytes_at m a (length buf) = buf.
Proof.
  intros Hv Hb. apply list_eq. intros i. unfold bytes_at. rewrite list_lookup_fmap.
  destruct (decide (i < length buf)%nat) as [Hi|Hi].
  - rewrite lookup_seq_lt by exact Hi. cbn. rewrite Hv. unfold stored.
    destruct (lookup_lt_is_Some_2 buf i Hi) as [x Hx]. rewrite Hx.
    replace ((a <=? a + Z.of_nat i) && (a + Z.of_nat i <? a + Z.of_nat (length buf))) with true.
    + replace (Z.to_nat (a + Z.of_nat i - a)) with i by lia. rewrite (nth_lookup_Some _ _ _ _ Hx).
      rewrite Forall_forall in Hb. f_equal. apply uwrap_small. apply Hb. exact (list_elem_of_lookup_2 buf i _ Hx).
    + symmetry. apply andb_true_intro. split; lia.
  - rewrite lookup_seq_ge by lia. rewrite lookup_ge_None_2 by lia. reflexivity.
Qed.

(** C34. File data passes through the memory of the program unchanged: a read of
    the new ABI stores at the buffer exactly the bytes the host delivered and
    answers with their number; a write of that buffer, wherever the program has
    got its other arguments from, hands the host these bytes.  The host is asked
    once each time; register 0 and the buffer are all that changes. *)
Theorem file_data_preserved e fuel (s : sstate) ret data k : let a := reg s 1 in
  In (mode_of (target s).1) modes -> reg s 7 = 3 ->
  kernel (SYS_read (s32 (reg s 0)) (u32 (s32 (reg s 2)))) (host s) = ((ret, data), k) ->
  0 <= ret <= Z.of_nat (length data) -> ret < 2 ^ 31 -> Forall (fun x => 0 <= x < 256) data ->
  0 <= a -> a + ret <= 2 ^ 32 -> ready (target s).2 -> area (target s).2 a ret -> exists m,
  let s1 := answered ret m k s in
  behavior_swi e fuel 0 s = Done (0, s1) /\
  (forall q, view m q = stored a (take (Z.to_nat ret) data) (view (target s).2) q) /\
  forall c2, In (mode_of c2) modes -> bank_read c2 7 = 4 -> bank_read c2 1 = a -> bank_read c2 2 = ret ->
    behavior_swi e fuel 0 (set_target (c2, m) s1) =
      let '((sent, _), k2) := kernel (SYS_write (s32 (bank_read c2 0)) (take (Z.to_nat ret) data)) k in
      Done (0, answered sent m k2 (set_target (c2, m) s1)).
Proof.
  intros a Hm Hn Hk Hret Hr31 Hb Ha Hw Hr Har.
  destruct (call_read_stores s ret data k Hk Hret Hr31 Ha Hw Hr Har) as (m & E & Hrm & Hv & Hh).
  exists m. intros s1. split; [rewrite swi_read by assumption; exact E|]. split; [exact Hv|].
  intros c2 Hm2 H7 H1 H2. rewrite swi_write by assumption.
  assert (Hret2 : u32 (s32 ret) = ret) by (rewrite (swrap_small 32 ret) by lia; apply u32_id; lia).
  assert (Eb : bytes_at m a (Z.to_nat ret) = take (Z.to_nat ret) data).
  { rewrite <- (bytes_at_stored m a (take (Z.to_nat ret) data) (view (target s).2) Hv) by (apply Forall_take, Hb).
    rewrite length_take. f_equal. lia. }
  rewrite call_write_sends; unfold reg; cbn [target set_target s1 answered set_host fst snd host];
    rewrite ?H1, ?H2, ?Hret2; try assumption; [|intros q Hq; apply Hh, Har; exact Hq].
  fold a. rewrite Eb. reflexivity.
Qed.

(** ** The arguments of the program *)

Definition args_size (argv : list (list Z)) : nat := fold_right (fun a n => (length a + 1 + n)%nat) 0%nat argv.

Lemma put_list_length j l strs : (j + length l <= length strs)%nat -> length (put_list j l strs) = length strs.
Proof. intros H. unfold put_list. rewrite !length_app, length_take, length_drop. lia. Qed.

Lemma put_list_before j l strs : (j <= length strs)%nat -> take j (put_list j l strs) = take j strs.
Proof. intros H. unfold put_list. rewrite take_app_le, take_take, Nat.min_id by (rewrite length_take; lia). reflexivity. Qed.

Lemma put_list_after j l strs : (j <= length strs)%nat -> drop j (put_list j l strs) = l ++ drop (j + length l) strs.
Proof. intros H. unfold put_list. rewrite drop_app_length' by (rewrite length_take; lia). reflexivity. Qed.

Lemma layout_spec base argv : forall j strs, (j + args_size argv <= length strs)%nat -> exists ptrs strs',
  layout_args base j argv strs = Some (ptrs, strs') /\ length ptrs = length argv /\ length strs' = length strs /\
  take j strs' = take j strs /\
  forall i a, argv !! i = Some a -> exists p, (p + length a < length strs)%nat /\ ptrs !! i = Some (base + Z.of_nat p) /\
    take (length a + 1) (drop p strs') = a ++ [0].
Proof.
  induction argv as [|a argv IH]; intros j strs H; cbn [layout_args args_size fold_right] in *.
  - exists [], strs. repeat split; auto. intros i a Hi. rewrite lookup_nil in Hi. discriminate.
  - fold (args_size argv) in H. destruct (Nat.ltb_spec (length strs) (j + (length a + 1))); [lia|].
    assert (La : length (a ++ [0]) = (length a + 1)%nat) by (rewrite length_app; reflexivity).
    destruct (IH (j + (length a + 1))%nat (put_list j (a ++ [0]) strs)) as (ptrs & strs' & -> & Hp & Hl & Ht & Hi);
      [rewrite put_list_length; lia|]. rewrite put_list_length in Hl, Hi by lia.
    exists ((base + Z.of_nat j) :: ptrs), strs'. split; [reflexivity|]. split; [cbn [length]; lia|]. split; [exact Hl|]. split.
    + rewrite <- (put_list_before j (a ++ [0]) strs) by lia. apply (f_equal (take j)) in Ht. rewrite !take_take in Ht.
      replace (j `min` (j + (length a + 1)))%nat with j in Ht by lia. exact Ht.
    + intros [|i] b Hb; [|exact (Hi i b Hb)]. injection Hb as <-. exists j. split; [lia|]. split; [reflexivity|].
      rewrite take_drop_commute, Ht, <- take_drop_commute, put_list_after by lia. rewrite take_app_length' by lia. reflexivity.
Qed.

(** What the words [ws] at [a] make of an array of bytes. *)
Lemma write_words_view ws : forall a c s, ready s -> 0 <= a -> a + 4 * Z.of_nat (length ws) <= 2 ^ 32 ->
  area s a (4 * Z.of_nat (length ws)) -> Forall (fun w => word w) ws -> exists s', write_words a ws (c, s) = Done (c, s') /\ ready s' /\
    (forall i w, ws !! i = Some w -> fast_read (a + 4 * Z.of_nat i) (view s') = w) /\
    (forall q, q < a \/ a + 4 * Z.of_nat (length ws) <= q -> view s' q = view s q) /\ (forall q, has s q -> has s' q).
Proof.
  induction ws as [|w ws IH]; intros a c s Hr Ha Hn Hh Hw; cbn [length write_words] in *.
  - exists s. repeat split; auto. intros i w Hi. rewrite lookup_nil in Hi. discriminate.
  - inversion_clear Hw as [|? ? Hw0 Hws].
    destruct (law_write a w c s Hr (Hh a ltac:(lia))) as (s1 & E1 & Hr1 & Hv1 & Hh1).
    assert (E : exists s', write_words (u32 (a + 4)) ws (c, s1) = Done (c, s') /\ ready s' /\
      (forall i w, ws !! i = Some w -> fast_read (a + 4 + 4 * Z.of_nat i) (view s') = w) /\
      (forall q, q < a + 4 \/ a + 4 + 4 * Z.of_nat (length ws) <= q -> view s' q = view s1 q) /\ (forall q, has s1 q -> has s' q)).
    { destruct ws as [|w' ws'].
      - exists s1. repeat split; auto. intros i x Hi. rewrite lookup_nil in Hi. discriminate.
      - cbn [length] in Hn, Hh. rewrite u32_id by lia. apply IH; cbn [length]; auto; try lia.
        intros q Hq. apply Hh1, Hh. lia. }
    destruct E as (s2 & E2 & Hr2 & Hi2 & Hq2 & Hh2). exists s2. rewrite E1. cbn [from_flow mbind outcome_bind].
    split; [exact E2|]. split; [exact Hr2|]. split; [|split; [|auto]].
    + intros [|i] x Hx.
      * injection Hx as ->. rewrite Z.mul_0_r, Z.add_0_r.
        rewrite (fast_read_ext _ _ a (fun q Hq => eq_trans (Hq2 q ltac:(lia)) (Hv1 q))). apply fast_read_write, Hw0.
      * replace (a + 4 * Z.of_nat (S i)) with (a + 4 + 4 * Z.of_nat i) by lia. exact (Hi2 i x Hx).
    + intros q Hq. rewrite Hq2 by lia. rewrite Hv1. unfold fast_write.
      replace ((a <=? q) && (q <? a + 4)) with false by lia. reflexivity.
Qed.

Lemma layout_overflow base argv : forall j strs, (j <= length strs < j + args_size argv)%nat -> layout_args base j argv strs = None.
Proof.
  induction argv as [|a argv IH]; intros j strs H; cbn [layout_args args_size fold_right] in *; [lia|].
  fold (args_size argv) in H. destruct (Nat.ltb_spec (length strs) (j + (length a + 1))); [reflexivity|].
  assert (La : length (a ++ [0]) = (length a + 1)%nat) by (rewrite length_app; reflexivity).
  rewrite IH; [reflexivity|]. rewrite put_list_length by lia. lia.
Qed.

Lemma bank_read_write c r v q : (Z.to_nat r < length (RB c))%nat ->
  bank_read (bank_write c r v) q = if Nat.eqb (Z.to_nat q) (Z.to_nat r) then v else bank_read c q.
Proof.
  intros Hl. unfold bank_read, bank_write. cbn [RB set_RB]. destruct (Nat.eqb_spec (Z.to_nat q) (Z.to_nat r)) as [->|Hn].
  - apply nth_lookup_Some. rewrite list_lookup_insert_eq by exact Hl. reflexivity.
  - rewrite !nth_lookup, list_lookup_insert_ne by congruence. reflexivity.
Qed.

Lemma bank_write_length c r v : length (RB (bank_write c r v)) = length (RB c).
Proof. cbn. apply length_insert. Qed.

(** The register is in the bank. *)
Ltac bank_room := rewrite ?bank_write_length; cbn; rewrite ?length_insert; lia.

Definition argv_base : Z := AC_RAM_END - 512 - 120.

Lemma bytes_at_view m m' a n : (forall q, a <= q < a + Z.of_nat n -> view m q = view m' q) -> bytes_at m a n = bytes_at m' a n.
Proof.
  intros H. unfold bytes_at. apply map_ext_in. intros i Hi%in_seq. apply H. lia.
Qed.

Lemma bytes_at_inside m b buf f p n : (forall q, view m q = stored b buf f q) -> (p + n <= length buf)%nat ->
  bytes_at m (b + Z.of_nat p) n = map u8 (take n (drop p buf)).
Proof.
  intros Hv Hl. apply list_eq. intros i. unfold bytes_at. rewrite !list_lookup_fmap.
  destruct (decide (i < n)%nat) as [Hi|Hi].
  - rewrite lookup_seq_lt, lookup_take_lt, lookup_drop by exact Hi. cbn. rewrite Hv. unfold stored.
    destruct (lookup_lt_is_Some_2 buf (p + i) ltac:(lia)) as [x Hx]. rewrite Hx. cbn.
    replace ((b <=? b + Z.of_nat p + Z.of_nat i) && (b + Z.of_nat p + Z.of_nat i <? b + Z.of_nat (length buf))) with true
      by (symmetry; apply andb_true_intro; split; lia).
    replace (Z.to_nat (b + Z.of_nat p + Z.of_nat i - b)) with (p + i)%nat by lia. rewrite (nth_lookup_Some _ _ _ _ Hx). reflexivity.
  - rewrite lookup_seq_ge, lookup_take_ge by lia. reflexivity.
Qed.

Lemma argv_words argv words strs ptrs : length ptrs = length argv -> Forall (fun w => word w) words ->
  (forall i a, argv !! i = Some a -> exists p, (p + length a < 512)%nat /\ ptrs !! i = Some (AC_RAM_END - 512 + Z.of_nat p) /\
     take (length a + 1) (drop p strs) = a ++ [0]) ->
  Forall (fun w => word w) (ptrs ++ [0; 0] ++ drop (length argv + 2) words).
Proof.
  intros Hp Hw Hi. apply Forall_app. split; [|apply Forall_app; split; [repeat constructor; lia|apply Forall_drop, Hw]].
  apply Forall_forall. intros w [i Hl]%list_elem_of_lookup. destruct (lookup_lt_is_Some_2 argv i) as [a Ha];
    [apply lookup_lt_Some in Hl; lia|]. destruct (Hi i a Ha) as (p & Hpl & Hpi & _). rewrite Hpi in Hl. injection Hl as <-.
  unfold AC_RAM_END. lia.
Qed.

(** The stack pointer the program starts with; glibc wants the number of
    arguments there, below the table. *)
Definition start_sp (is_glibc : bool) : Z := if is_glibc then argv_base - 4 else argv_base.

(** What the program finds: the registers, the table with the strings, and the
    memory elsewhere as it was. *)
Definition arguments_seen (argv : list (list Z)) (is_glibc : bool) (sz : Z) (c : core) (m : mem) (c' : core) (m' : mem) : Prop :=
  (if is_glibc
   then bank_read c' 0 = 0x84 /\ bank_read c' 1 = bank_read c 1 /\ fast_read (start_sp is_glibc) (view m') = Z.of_nat (length argv)
   else bank_read c' 0 = Z.of_nat (length argv) /\ bank_read c' 1 = argv_base) /\
  bank_read c' 13 = start_sp is_glibc /\ bank_read c' 14 = (if sz =? 0 then bank_read c 14 else 0x80) /\
  (forall i a, argv !! i = Some a ->
     bytes_at m' (fast_read (argv_base + 4 * Z.of_nat i) (view m')) (length a + 1) = a ++ [0]) /\
  fast_read (argv_base + 4 * Z.of_nat (length argv)) (view m') = 0 /\
  (forall q, q < start_sp is_glibc \/ AC_RAM_END <= q -> view m' q = view m q).

(** The word that glibc finds at its stack pointer. *)
Lemma glibc_word (is_glibc : bool) argc c m : ready m -> area m (start_sp is_glibc) (120 + 512) -> word argc -> exists m',
  (if is_glibc then from_flow (MEM_write (AC_RAM_END - 512 - 124) argc (bank_write c 13 (AC_RAM_END - 512 - 124), m)) else Done (c, m)) =
    Done (if is_glibc then bank_write c 13 (start_sp is_glibc) else c, m') /\
  (is_glibc = true -> fast_read (start_sp is_glibc) (view m') = argc) /\
  (forall q, q < start_sp is_glibc \/ argv_base <= q -> view m' q = view m q).
Proof.
  intros Hr Ha Hw. destruct is_glibc; cbn [start_sp] in *.
  - change (AC_RAM_END - 512 - 124) with (argv_base - 4).
    destruct (law_write (argv_base - 4) argc (bank_write c 13 (argv_base - 4)) m Hr) as (m' & E & _ & Hv & _);
      [apply Ha; unfold start_sp; lia|]. exists m'. rewrite E. split; [reflexivity|]. split.
    + intros _. rewrite (fast_read_ext _ _ (argv_base - 4) (fun q _ => Hv q)). apply fast_read_write, Hw.
    + intros q Hq. rewrite Hv. unfold fast_write, start_sp in *. replace ((argv_base - 4 <=? q) && (q <? argv_base - 4 + 4)) with false by lia. reflexivity.
  - exists m. split; [reflexivity|]. split; [discriminate|reflexivity].
Qed.

(** The strings and the table of pointers behind the stack. *)
Lemma arguments_placed argv words strs (is_glibc : bool) sz c m :
  (length argv <= 28)%nat -> (args_size argv <= 512)%nat -> Forall (Forall (fun x => 0 <= x < 256)) argv ->
  length words = 30%nat -> Forall (fun w => word w) words -> length strs = 512%nat ->
  (15 <= length (RB c))%nat -> ready m -> area m (argv_base - 4) (4 + 120 + 512) -> exists c' m',
  set_prog_args argv words strs is_glibc sz (c, m) = Done (c', m') /\ arguments_seen argv is_glibc sz c m c' m'.
Proof.
  intros Hargc Hsize Hbytes Hwords Hww Hstrs HRB Hr Har.
  destruct (layout_spec (AC_RAM_END - 512) argv 0 strs ltac:(lia)) as (ptrs & strs' & El & Hp & Hs' & _ & Hi). rewrite Hstrs in Hi.
  set (ws := ptrs ++ [0; 0] ++ drop (length argv + 2) words).
  assert (Hws : length ws = 30%nat) by (unfold ws; rewrite !length_app, length_drop; cbn [length]; lia).
  assert (Hww' : Forall (fun w => word w) ws) by exact (argv_words argv words strs' ptrs Hp Hww Hi).
  destruct (write_bytes_view strs' 512 (AC_RAM_END - 512) (bank_write c 13 (AC_RAM_END - 512)) m Hr) as (m1 & E1 & Hr1 & Hv1 & Hh1);
    [unfold AC_RAM_END; lia|lia|unfold AC_RAM_END; lia|intros q Hq; apply Har; unfold argv_base in *; lia|].
  set (c2 := bank_write (bank_write c 13 (AC_RAM_END - 512)) 13 argv_base).
  destruct (write_words_view ws argv_base c2 m1 Hr1) as (m2 & E2 & Hr2 & Hw2 & Hq2 & Hh2);
    [unfold argv_base, AC_RAM_END; lia|rewrite Hws; unfold argv_base, AC_RAM_END; lia| |exact Hww'|].
  { intros q Hq. rewrite Hws in Hq. apply Hh1, Har. lia. }
  destruct (glibc_word is_glibc (Z.of_nat (length argv)) c2 m2 Hr2) as (m3 & E3 & Hg & Hq3);
    [intros q Hq; apply Hh2, Hh1, Har; unfold start_sp in Hq; destruct is_glibc; lia|lia|].
  rewrite Hws in Hq2. rewrite take_ge in Hv1 by lia.
  assert (L2 : (15 <= length (RB c2))%nat) by (unfold c2; rewrite !bank_write_length; exact HRB).
  set (c3 := if is_glibc then bank_write c2 13 (start_sp is_glibc) else c2) in *.
  assert (L3 : (15 <= length (RB c3))%nat) by (unfold c3; destruct is_glibc; rewrite ?bank_write_length; exact L2).
  set (c4 := if sz =? 0 then c3 else bank_write c3 14 0x80).
  assert (L4 : (15 <= length (RB c4))%nat) by (unfold c4; destruct (sz =? 0); rewrite ?bank_write_length; exact L3).
  exists (if is_glibc then bank_write c4 0 0x84 else bank_write (bank_write c4 0 (Z.of_nat (length argv))) 1 argv_base), m3.
  assert (H13 : bank_read c3 13 = start_sp is_glibc).
  { unfold c3, c2. destruct is_glibc; rewrite !bank_read_write by bank_room; reflexivity. }
  split; [|split; [|split; [|split; [|split; [|split]]]]].
  - unfold set_prog_args. rewrite El. cbn [of_opt mbind outcome_bind]. rewrite Hwords.
    destruct (Nat.ltb_spec 30 (length argv + 2)); [lia|]. fold ws. unfold arm_set_buffer, arm_set_buffer_noinvert. cbn [fst snd].
    rewrite bank_read_write, Nat.eqb_refl by (cbn; lia).
    change (AC_RAM_END - 512 - 120) with argv_base. change (Z.of_nat 512) with 512 in E1. rewrite E1. cbn [mbind outcome_bind fst snd]. fold c2.
    replace (bank_read c2 13) with argv_base by (unfold c2; rewrite bank_read_write, Nat.eqb_refl by bank_room; reflexivity).
    rewrite E2. cbn [mbind outcome_bind fst snd]. rewrite E3. unfold c4, c3. destruct is_glibc, (sz =? 0); reflexivity.
  - destruct is_glibc; [split; [|split; [|exact (Hg eq_refl)]]|split]; rewrite ?bank_read_write by bank_room; try reflexivity.
    cbn [Nat.eqb Z.to_nat]. unfold c4, c3, c2. destruct (sz =? 0); rewrite !bank_read_write by bank_room; reflexivity.
  - transitivity (bank_read c4 13); [destruct is_glibc; rewrite !bank_read_write by bank_room; reflexivity|].
    rewrite <- H13. unfold c4. destruct (sz =? 0); rewrite ?bank_read_write by bank_room; reflexivity.
  - transitivity (bank_read c4 14); [destruct is_glibc; rewrite !bank_read_write by bank_room; reflexivity|].
    unfold c4, c3, c2. destruct (sz =? 0), is_glibc; rewrite !bank_read_write by bank_room; reflexivity.
  - intros i a Ha. destruct (Hi i a Ha) as (p & Hpl & Hpi & Hpa).
    rewrite (fast_read_ext (view m3) (view m2) (argv_base + 4 * Z.of_nat i)) by (intros q Hq; apply Hq3; lia).
    rewrite (Hw2 i (AC_RAM_END - 512 + Z.of_nat p)) by (unfold ws; rewrite lookup_app_l by (apply lookup_lt_Some in Ha; lia); exact Hpi).
    rewrite (bytes_at_view m3 m1) by (intros q Hq; rewrite Hq3 by (unfold argv_base; lia); apply Hq2; unfold argv_base; lia).
    rewrite (bytes_at_inside m1 _ _ _ p (length a + 1) Hv1) by lia. rewrite Hpa, map_app. f_equal.
    rewrite Forall_forall in Hbytes. specialize (Hbytes a (list_elem_of_lookup_2 _ _ _ Ha)).
    transitivity (map id a); [|apply map_id]. apply map_ext_in. intros x Hx%list_elem_of_In. rewrite Forall_forall in Hbytes.
    apply uwrap_small. exact (Hbytes x Hx).
  - rewrite (fast_read_ext (view m3) (view m2)) by (intros q Hq; apply Hq3; lia).
    apply Hw2. unfold ws. rewrite lookup_app_r, Hp, Nat.sub_diag by lia. reflexivity.
  - intros q Hq. assert (Hsp : start_sp is_glibc <= argv_base) by (unfold start_sp; destruct is_glibc; lia).
    rewrite Hq3 by (unfold argv_base in *; lia). rewrite Hq2 by (unfold argv_base in *; lia). rewrite Hv1. unfold stored.
    replace ((AC_RAM_END - 512 <=? q) && (q <? AC_RAM_END - 512 + Z.of_nat (length strs'))) with false; [reflexivity|].
    rewrite Hs', Hstrs. change (Z.of_nat 512) with 512. unfold argv_base in *. lia.
Qed.

(** C35. The arguments of the program: when there are at most 28 strings of at
    most 512 characters altogether, their NULs included, the program starts with
    the address of a table on its stack whose entries point to the strings and
    whose last is NULL: with newlib their number is in register 0, the address of
    the table in register 1 and in the stack pointer; with glibc register 0 has
    0x84, the hook for the termination functions, and the stack pointer is at the
    number of arguments, in the word below the table.  The return address is 0x80
    when there are start functions.  Memory below the stack pointer and from the
    end of the memory on is untouched.  Otherwise an array of [set_prog_args] is
    overrun: nothing checks the command line. *)
Theorem arguments_reach_program argv words strs is_glibc sz c m :
  Forall (Forall (fun x => 0 <= x < 256)) argv ->
  length words = 30%nat -> Forall (fun w => word w) words -> length strs = 512%nat ->
  (15 <= length (RB c))%nat -> ready m -> area m (argv_base - 4) (4 + 120 + 512) ->
  let run := set_prog_args argv words strs is_glibc sz (c, m) in
  if (length argv <=? 28)%nat && (args_size argv <=? 512)%nat then
    exists c' m', run = Done (c', m') /\ arguments_seen argv is_glibc sz c m c' m'
  else run = Fault.
Proof.
  intros Hbytes Hwords Hww Hstrs HRB Hr Har run.
  destruct (Nat.leb_spec (length argv) 28) as [Hc|Hc], (Nat.leb_spec (args_size argv) 512) as [Hs|Hs]; cbn [andb];
    [exact (arguments_placed argv words strs is_glibc sz c m Hc Hs Hbytes Hwords Hww Hstrs HRB Hr Har)|..]; unfold run, set_prog_args.
  - rewrite layout_overflow by lia. reflexivity.
  - destruct (layout_spec (AC_RAM_END - 512) argv 0 strs ltac:(lia)) as (ptrs & strs' & El & _). rewrite El.
    cbn [of_opt mbind outcome_bind]. destruct (Nat.ltb_spec (length words) (length argv + 2)); [reflexivity|lia].
  - rewrite layout_overflow by lia. reflexivity.
Qed.

(** ** Start and termination functions *)

(** The functions entered by successive jumps to 0x80, the machines being
    whatever the program has made of them. *)
Fixpoint starts (ms : list machine) (s : sstate) : outcome machine (list (Z * Z * Z) * sstate) :=
  match ms with
  | [] => Done ([], s)
  | m :: ms =>
      '(_, s) ← ac_rtld_init (set_target m s);
      '(l, s') ← starts ms s;
      Done ((ac_pc (target s).1, reg s 0, reg s 14) :: l, s')
  end.

(** What a start function is entered with: the program, the last one, gets the
    address of [ac_rtld_fini] in register 0. *)
Fixpoint entries (l : list Z) : list (Z * Z * Z) :=
  match l with [] => [] | [pc] => [(pc, 0x84, 0x80)] | pc :: l => (pc, 0, 0x80) :: entries l end.

Lemma starts_entries l : forall ms s, startvec (vecs s) = l -> length ms = length l ->
  Forall (fun m => (16 <= length (RB m.1))%nat) ms ->
  exists s', starts ms s = Done (entries l, s') /\ startvec (vecs s') = [] /\ finivec (vecs s') = finivec (vecs s).
Proof.
  induction l as [|pc l IH]; intros [|m ms] s Hv Hl Hm; cbn [length] in Hl; try lia.
  - exists s. auto.
  - inversion_clear Hm as [|? ? Hm0 Hms]. cbn [starts]. unfold ac_rtld_init.
    rewrite (sys_bind_done loader_vectors _ (set_target m s) (vecs s) _ eq_refl). cbv beta. rewrite Hv.
    set (s1 := set_vecs (MkVectors l (finivec (vecs s)) (pinterp (vecs s))) (set_target m s)).
    rewrite (sys_bind_done (put_vectors _) _ _ tt s1 eq_refl). cbv beta.
    set (last := match l with [] => 0x84 | _ => 0 end). set (m2 := arm_set_return 0x80 (arm_set_int 2 0 (arm_set_int 1 0 (arm_set_int 0 last (arm_set_pc pc m))))).
    assert (E : (jump pc;; result 0 last;; result 1 0;; result 2 0;; returns_to 0x80) s1 = Done (tt, set_target m2 s1)).
    { unfold m2, last. destruct l; reflexivity. }
    rewrite E. cbn [mbind outcome_bind].
    destruct (IH ms (set_target m2 s1) eq_refl ltac:(lia) Hms) as (s' & -> & Hs' & Hf). exists s'. split; [|split; [exact Hs'|exact Hf]].
    cbn [mbind outcome_bind]. do 2 f_equal. unfold reg, m2, arm_set_return, arm_set_int, arm_set_pc. cbn [target set_target fst snd ac_pc].
    rewrite !bank_read_write by bank_room. cbn.
    destruct l; reflexivity.
Qed.

Lemma entries_pcs l : map (fun p => p.1.1) (entries l) = l.
Proof. induction l as [|pc [|pc2 l] IH]; cbn in *; try reflexivity. f_equal. exact IH. Qed.

Lemma entries_length l : length (entries l) = length l.
Proof. rewrite <- (length_map (fun p => p.1.1)), entries_pcs. reflexivity. Qed.

Lemma entries_arguments l : forall i pc r0 r14, entries l !! i = Some (pc, r0, r14) ->
  r14 = 0x80 /\ r0 = if Nat.eqb (S i) (length l) then 0x84 else 0.
Proof.
  induction l as [|pc [|pc2 l] IH]; intros i q r0 r14 Hi.
  - destruct i; discriminate.
  - destruct i; [injection Hi as _ <- <-; auto|]. cbn in Hi. discriminate.
  - destruct i as [|i]; [injection Hi as _ <- <-; auto|].
    destruct (IH i q r0 r14 Hi) as [-> ->]. cbn [length Nat.eqb]. auto.
Qed.

(** A dynamic program is started in order: the loader starts the first of
    the start functions of the loaded objects; each of the others is entered by
    a return to 0x80 with that address to return to, once and in order; the
    program itself comes last, and it alone gets the address of the termination
    hook in register 0; one more return ends the simulator. *)
Theorem start_functions_in_order entry v pc v' ms (s : sstate) :
  rotate_start entry v = (pc, v') -> vecs s = v' -> length ms = length (startvec v) ->
  Forall (fun m => (16 <= length (RB m.1))%nat) ms ->
  exists l s', starts ms s = Done (l, s') /\
    pc :: map (fun p => p.1.1) l = startvec v ++ [entry] /\
    (forall i x r0 r14, l !! i = Some (x, r0, r14) -> r14 = 0x80 /\ r0 = if Nat.eqb (S i) (length l) then 0x84 else 0) /\
    ac_rtld_init s' = Exited.
Proof.
  intros Hr Hv Hl Hm. assert (Hpc : pc :: startvec v' = startvec v ++ [entry]).
  { unfold rotate_start in Hr. destruct (startvec v) as [|f fs] eqn:Ev; injection Hr as <- <-; [rewrite Ev|]; reflexivity. }
  assert (Hlen := f_equal length Hpc). rewrite length_app in Hlen. cbn [length] in Hlen.
  destruct (starts_entries (startvec v') ms s) as (s' & E & Hs' & _); [congruence|lia|exact Hm|].
  exists (entries (startvec v')), s'. split; [exact E|]. split; [rewrite entries_pcs; exact Hpc|]. split.
  - intros i x r0 r14 Hi. rewrite entries_length. exact (entries_arguments _ i x r0 r14 Hi).
  - unfold ac_rtld_init. rewrite (sys_bind_done loader_vectors _ s' (vecs s') _ eq_refl). cbv beta. rewrite Hs'. reflexivity.
Qed.

(** The termination functions are entered in order, each with the address of the
    hook to return to; after the last one control goes where the first call came
    from. *)
Lemma fini_next pc l s : finivec (vecs s) = pc :: l -> (16 <= length (RB (target s).1))%nat -> exists s',
  ac_rtld_fini s = Done (tt, s') /\ ac_pc (target s').1 = pc /\ reg s' 14 = 0x84 /\ finivec (vecs s') = l /\
  returnaddr s' = if returnaddr s =? 0 then reg s 14 else returnaddr s.
Proof.
  intros Hv Hl. unfold ac_rtld_fini. rewrite (sys_bind_done first_return _ _ _ _ eq_refl). cbv beta.
  set (s1 := if returnaddr s =? 0 then _ else s).
  assert (E1 : vecs s1 = vecs s /\ target s1 = target s /\ returnaddr s1 = if returnaddr s =? 0 then reg s 14 else returnaddr s)
    by (unfold s1; destruct (returnaddr s =? 0) eqn:E; rewrite ?E; auto).
  destruct E1 as (Ev & Et & Er). rewrite (sys_bind_done loader_vectors _ s1 (vecs s1) _ eq_refl). cbv beta. rewrite Ev, Hv.
  eexists. split; [reflexivity|]. unfold reg. cbn [target set_target vecs set_vecs finivec returnaddr fst].
  cbn [Syscall.set_pc set_return arm_syscall arm_set_pc arm_set_return target set_target set_vecs fst snd ac_pc].
  rewrite Et, bank_read_write, Nat.eqb_refl by bank_room. auto.
Qed.

Lemma fini_last s : finivec (vecs s) = [] -> exists s',
  ac_rtld_fini s = Done (tt, s') /\ ac_pc (target s').1 = if returnaddr s =? 0 then reg s 14 else returnaddr s.
Proof.
  intros Hv. unfold ac_rtld_fini. rewrite (sys_bind_done first_return _ _ _ _ eq_refl). cbv beta.
  set (s1 := if returnaddr s =? 0 then _ else s).
  assert (E1 : vecs s1 = vecs s /\ returnaddr s1 = if returnaddr s =? 0 then reg s 14 else returnaddr s)
    by (unfold s1; destruct (returnaddr s =? 0) eqn:E; rewrite ?E; auto).
  destruct E1 as (Ev & Er). rewrite (sys_bind_done loader_vectors _ s1 (vecs s1) _ eq_refl). cbv beta. rewrite Ev, Hv.
  eexists. split; [reflexivity|]. cbn. exact Er.
Qed.
End ArmCalls.

(** ** Examples *)

(** A host that logs what it is asked; a read delivers five characters. *)
#[local] Instance logging_host : Host (list call) := {|
  kernel c log :=
    (match c with
     | SYS_read _ _ => (5, [104; 101; 108; 108; 111])
     | SYS_write _ buf => (Z.of_nat (length buf), [])
     | _ => (0, [])
     end, log ++ [c]);
  uninitialised := 0
|}.

Definition call_core (number a0 a1 a2 : Z) : core :=
  bank_write (bank_write (bank_write (bank_write (sample_core USER_MODE) 7 number) 0 a0) 1 a1) 2 a2.

Definition sample_state (c : core) (v : vectors) : state (core * system ram_module) (list call) :=
  MkState (c, sample_system 0) [] 0x8000 (new_memmap 4096) v 0 [].

(** The greeting read from descriptor 3 is written to descriptor 4. *)
Lemma file_data_preserved_witness : exists m s1 s2,
  behavior_swi true 0 0 (sample_state (call_core 3 3 0x200 5) (MkVectors [] [] [])) = Done (0, s1) /\
  behavior_swi true 0 0 (set_target (call_core 4 4 0x200 5, m) s1) = Done (0, s2) /\
  host s2 = [SYS_read 3 5; SYS_write 4 [104; 101; 108; 108; 111]].
Proof.
  destruct (file_data_preserved true 0 (sample_state (call_core 3 3 0x200 5) (MkVectors [] [] [])) 5 [104; 101; 108; 108; 111] [SYS_read 3 5])
    as (m & E1 & _ & E2); [apply sample_modes; reflexivity|reflexivity|reflexivity|cbn; lia|lia|apply (bool_decide_unpack _); vm_compute; exact I|vm_compute; discriminate|vm_compute; discriminate
    |split; [reflexivity|apply sample_physical]
    |intros q Hq; apply sample_has; change (0x200 <= q < 0x200 + 5) in Hq; lia|].
  exists m. eexists. eexists. split; [exact E1|]. split.
  - apply E2; [apply sample_modes; reflexivity|reflexivity|reflexivity|reflexivity].
  - reflexivity.
Defined.

Definition sample_argv : list (list Z) := [[97; 98]; []; [99]].

Lemma arguments_reach_program_witness : exists c' m',
  set_prog_args sample_argv (repeat 7 30) (repeat 9 512) true 0 (sample_core USER_MODE, sample_system 0) = Done (c', m') /\
  bank_read c' 0 = 0x84 /\ fast_read (argv_base - 4) (view m') = 3 /\ bytes_at m' (fast_read (argv_base + 8) (view m')) 2 = [99; 0].
Proof.
  assert (Hb : Forall (Forall (fun x => 0 <= x < 256)) sample_argv) by (apply (bool_decide_unpack _); vm_compute; exact I).
  assert (Hw : Forall (fun w => word w) (repeat 7 30)) by (apply Forall_forall; intros x Hx%list_elem_of_In%repeat_spec; lia).
  destruct (arguments_reach_program sample_argv (repeat 7 30) (repeat 9 512) true 0 (sample_core USER_MODE) (sample_system 0)
    Hb eq_refl Hw eq_refl) as (c' & m' & E & (H0 & _ & H1) & _ & _ & Ha & _);
    [cbn; lia|split; [reflexivity|apply sample_physical]|intros q Hq; apply sample_has; unfold argv_base, AC_RAM_END in Hq; lia|].
  exists c', m'. split; [exact E|]. split; [exact H0|]. split; [exact H1|]. exact (Ha 2%nat [99] eq_refl).
Defined.

Lemma start_functions_in_order_witness : exists l s',
  starts [(sample_core USER_MODE, sample_system 0); (sample_core USER_MODE, sample_system 0)]
    (sample_state (sample_core USER_MODE) (MkVectors [200; 0x8000] [] [])) = Done (l, s') /\
  100 :: map (fun p => p.1.1) l = [100; 200; 0x8000].
Proof.
  destruct (start_functions_in_order 0x8000 (MkVectors [100; 200] [] []) 100 (MkVectors [200; 0x8000] [] [])
    [(sample_core USER_MODE, sample_system 0); (sample_core USER_MODE, sample_system 0)]
    (sample_state (sample_core USER_MODE) (MkVectors [200; 0x8000] [] []))) as (l & s' & E & Hl & _);
    [reflexivity|reflexivity|reflexivity|apply (bool_decide_unpack _); vm_compute; exact I|].
  exists l, s'. split; [exact E|exact Hl].
Defined.
