(* ===== verification/Gdb.v ===== *)
(** * The GDB stub

    [archc/src/aclib/ac_gdb]: the breakpoints of [breakpoints.cpp] and the
    remote protocol of [ac_gdb.H], for a word of 32 bits.  The processor is the
    interface [AC_GDB_Interface]; the socket is the list of the bytes still to be
    received and the list of those sent, and [write] accepts every byte.  At the
    end of the input [read] fails and [comm_getchar] gives 0 for ever.  The
    messages on the terminal and the socket calls of [connect] are left out. *)
From S2P Require Import Prelude.

(** ** Breakpoints *)

Record Breakpoints := MkBps { bp : list Z; quantMax : Z }.

Definition quant (b : Breakpoints) : Z := Z.of_nat (length (bp b)).

Definition new_breakpoints (n : Z) : Breakpoints := MkBps [] n.

(** The loop keeps the larger of [address] and each element for the next place. *)
Fixpoint insert_loop (address : Z) (l : list Z) : list Z :=
  match l with
  | [] => [address]
  | b :: l => if address <? b then address :: insert_loop b l else b :: insert_loop address l
  end.

(** [None] is the result -1. *)
Definition add (address : Z) (b : Breakpoints) : option Breakpoints :=
  if quantMax b <=? quant b then None else Some (MkBps (insert_loop address (bp b)) (quantMax b)).

Fixpoint remove_first (address : Z) (l : list Z) : option (list Z) :=
  match l with
  | [] => None
  | b :: l => if b =? address then Some l else cons b <$> remove_first address l
  end.

Definition remove (address : Z) (b : Breakpoints) : option Breakpoints :=
  if quantMax b <=? quant b then None
  else l ← remove_first address (bp b); Some (MkBps l (quantMax b)).

Fixpoint exists_loop (address : Z) (l : list Z) : bool :=
  match l with
  | [] => false
  | b :: l => if address =? b then true else if address <? b then false else exists_loop address l
  end.

Definition bp_exists (address : Z) (b : Breakpoints) : bool :=
  if quantMax b <=? quant b then false else exists_loop address (bp b).

(** ** Outcomes *)

(** A run gives a value, leaves the stub by an exception of the processor with
    its state, ends the simulation, reaches undefined behaviour, or goes on for
    ever. *)
Inductive result (P A : Type) := Value (a : A) | Throw (p : P) | Stopped (status : Z) | Bad | Diverges.
Arguments Value {P A} a.
Arguments Throw {P A} p.
Arguments Stopped {P A} status.
Arguments Bad {P A}.
Arguments Diverges {P A}.

#[export] Instance result_ret P : MRet (result P) := fun A => Value.
#[export] Instance result_bind P : MBind (result P) := fun A B f r =>
  match r with Value a => f a | Throw p => Throw p | Stopped s => Stopped s | Bad => Bad | Diverges => Diverges end.

(** The processor's side. *)
Class Gdb_Interface (P : Type) := {
  tgt_endian : bool;
  ac_stop : P -> result P P;
  nRegs : Z;
  reg_read : Z -> P -> Z;
  reg_write : Z -> Z -> P -> P;
  set_ac_pc : Z -> P -> P;
  mem_read : Z -> P -> result P (Z * P);
  mem_write : Z -> Z -> P -> result P P
}.

(** ** The line *)

Record line := MkLine { input : list Z; sent : list Z }.

Definition send (l : list Z) (s : line) : line := MkLine (input s) (sent s ++ l).

Definition comm_getchar (s : line) : Z * line :=
  match input s with [] => (0, s) | c :: l => (c, MkLine l (sent s)) end.

Definition hexchar (d : Z) : Z := if d <? 10 then 48 + d else 87 + d.

Definition hex (ch : Z) : Z :=
  if (97 <=? ch) && (ch <=? 102) then ch - 97 + 10
  else if (48 <=? ch) && (ch <=? 57) then ch - 48
  else if (65 <=? ch) && (ch <=? 70) then ch - 65 + 10
  else -1.

Definition DOLLAR : Z := 36.
Definition NUMBER_SIGN : Z := 35.
Definition PLUS : Z := 43.
Definition MINUS : Z := 45.
Definition COMMA : Z := 44.
Definition COLON : Z := 58.

Definition GDB_BUFFERSIZE : Z := 2048.

Definition checksum (l : list Z) : Z := fold_left (fun c ch => u8 (c + ch)) l 0.

(** The bytes of a packet. *)
Definition frame (data : list Z) : list Z :=
  DOLLAR :: data ++ [NUMBER_SIGN; hexchar (Z.shiftr (checksum data) 4); hexchar (Z.land (checksum data) 0xf)].

(** [comm_putpacket]: the packet is sent again for every byte received that is
    not a plus sign; at the end of the input it is sent for ever. *)
Fixpoint put_loop {P} (l : list Z) (data out : list Z) : result P line :=
  match l with
  | [] => Diverges
  | c :: l => if Z.land c 0x7f =? PLUS then Value (MkLine l (out ++ frame data)) else put_loop l data (out ++ frame data)
  end.

Definition comm_putpacket {P} (data : list Z) (s : line) : result P line := put_loop (input s) data (sent s).

(** What follows the next dollar sign. *)
Fixpoint skip_to_start (l : list Z) : option (list Z) :=
  match l with [] => None | c :: l => if Z.land c 0x7f =? DOLLAR then Some l else skip_to_start l end.

(** The characters up to a number sign, at most [n] more of them; the flag tells
    whether the sign has been met. *)
Fixpoint read_data (n : nat) (buffer : list Z) (count : nat) (sum : Z) (l : list Z) : bool * list Z * nat * Z * list Z :=
  match n with
  | O => (false, buffer, count, sum, l)
  | S n =>
      let '(ch, l) := match l with [] => (0, []) | c :: l => (c, l) end in
      if ch =? NUMBER_SIGN then (true, buffer, count, sum, l)
      else read_data n (<[count := ch]> buffer) (S count) (u8 (sum + ch)) l
  end.

(** The characters of a buffer before its NUL, if there is one. *)
Fixpoint cstring (l : list Z) : option (list Z) :=
  match l with [] => None | c :: l => if c =? 0 then Some [] else cons c <$> cstring l end.

(** The buffer without the three characters of the sequence number. *)
Definition remove_sequence (buffer : list Z) : list Z :=
  match cstring buffer with
  | None => buffer
  | Some s => let n := (length s - 2)%nat in take n (drop 3 buffer) ++ drop n buffer
  end.

(** The two digits behind the number sign; [-1] stands for a character that is
    none. *)
Definition received_sum (s : line) : Z * line :=
  let '(h, s) := comm_getchar s in let '(l, s) := comm_getchar s in
  (Z.lor (u8 (Z.shiftl (hex (Z.land h 0x7f)) 4)) (u8 (hex (Z.land l 0x7f))), s).

(** [comm_getpacket], with fuel: every round takes a dollar sign. *)
Fixpoint get_loop {P} (fuel : nat) (buffer : list Z) (s : line) : result P (list Z * line) :=
  match fuel with
  | O => Diverges
  | S fuel =>
      match skip_to_start (input s) with
      | None => Diverges
      | Some l =>
          let '(ended, buffer, count, sum, l) := read_data (Z.to_nat GDB_BUFFERSIZE) buffer 0 0 l in
          let s := MkLine l (sent s) in
          if ended : bool then
            let buffer := <[count := 0]> buffer in
            let '(xmitcsum, s) := received_sum s in
            if negb (sum =? xmitcsum) then get_loop fuel buffer (send [MINUS] s)
            else
              let s := send [PLUS] s in
              if nth 2 buffer 0 =? COLON
              then Value (remove_sequence buffer, send [nth 0 buffer 0; nth 1 buffer 0] s)
              else Value (buffer, s)
          else if sum =? 255 then Value (buffer, s) else get_loop fuel buffer s
      end
  end.

Definition comm_getpacket {P} (buffer : list Z) (s : line) : result P (list Z * line) :=
  get_loop (S (length (input s))) buffer s.

(** ** [sscanf] and [sprintf] with ["%x"] *)

Definition is_space (c : Z) : bool := (c =? 32) || ((9 <=? c) && (c <=? 13)).

Fixpoint skip_spaces (s : list Z) : list Z :=
  match s with [] => [] | c :: s' => if is_space c then skip_spaces s' else s end.

(** The hexadecimal digits at the front, at most [w] of them, and what follows. *)
Fixpoint hex_digits (w : nat) (s : list Z) : list Z * list Z :=
  match w, s with
  | S w, c :: s' => if 0 <=? hex c then let '(ds, r) := hex_digits w s' in (hex c :: ds, r) else ([], s)
  | _, _ => ([], s)
  end.

Definition hex_value (ds : list Z) : Z := fold_left (fun n d => 16 * n + d) ds 0.

(** ["%x"] with a width: blanks, a sign, the prefix [0x] and digits; the number
    is that of [strtoul] and keeps its low 32 bits.  [None]: no number. *)
Definition scan_hex (w : nat) (s : list Z) : option (Z * list Z) :=
  let s := skip_spaces s in
  let '(negative, w, s) :=
    match w, s with
    | S w', c :: s' => if c =? 45 then (true, w', s') else if c =? 43 then (false, w', s') else (false, w, s)
    | _, _ => (false, w, s)
    end in
  let '(prefix, w, s) :=
    match w, s with
    | S (S w'), c :: x :: s' => if (c =? 48) && ((x =? 120) || (x =? 88)) then (true, w', s') else (false, w, s)
    | _, _ => (false, w, s)
    end in
  let '(ds, r) := hex_digits w s in
  match ds, prefix with
  | [], false => None
  | _, _ => let n := Z.min (hex_value ds) (2 ^ 64 - 1) in Some (u32 (if negative then - n else n), r)
  end.

Definition scan_number (s : list Z) : option (Z * list Z) := scan_hex (length s) s.

(** A character of the format. *)
Definition scan_char (c : Z) (s : list Z) : option (list Z) :=
  match s with c' :: s => if c' =? c then Some s else None | [] => None end.

(** ["<c>%x,%x"]. *)
Definition scan_pair (c : Z) (s : list Z) : option (Z * Z * list Z) :=
  s ← scan_char c s; '(a, s) ← scan_number s; s ← scan_char COMMA s; '(b, s) ← scan_number s; Some (a, b, s).

(** ["<c>%x,%x,%x"]. *)
Definition scan_triple (c : Z) (s : list Z) : option (Z * Z * Z) :=
  '(a, b, s) ← scan_pair c s; s ← scan_char COMMA s; '(x, _) ← scan_number s; Some (a, b, x).

(** [n] digits, as ["%0<n>x"] prints a number that has no more. *)
Fixpoint print_hex (n : nat) (v : Z) : list Z :=
  match n with O => [] | S n => print_hex n (Z.shiftr v 4) ++ [hexchar (Z.land v 0xf)] end.

(** The word with its four bytes in the other order. *)
Definition changeendianess (src : Z) : Z :=
  fold_left (fun dst i => Z.lor dst (Z.shiftl (Z.land (Z.shiftr src (8 * i)) 0xff) (8 * (3 - i)))) [0; 1; 2; 3] 0.

(** The replies "OK" and "E01". *)
Definition OK : list Z := [79; 75].
Definition E00 : list Z := [69; 48; 48].
Definition E01 : list Z := [69; 48; 49].

Definition SIGINT : Z := 2.
Definition SIGTRAP : Z := 5.

(** "S" and the signal number. *)
Definition signal_reply (n : Z) : list Z := 83 :: print_hex 2 n.

(** ** The stub *)

Section stub.
Context {P : Type} `{!Gdb_Interface P}.

Record AC_GDB := MkGdb {
  bps : Breakpoints;
  connected : bool;
  first_time : bool;
  step : bool;
  disabled : bool;
  in_buffer : list Z;
  proc : P;
  sd : line
}.

Definition set_bps x g := MkGdb x (connected g) (first_time g) (step g) (disabled g) (in_buffer g) (proc g) (sd g).
Definition set_first x g := MkGdb (bps g) (connected g) x (step g) (disabled g) (in_buffer g) (proc g) (sd g).
Definition set_step x g := MkGdb (bps g) (connected g) (first_time g) x (disabled g) (in_buffer g) (proc g) (sd g).
Definition set_disabled x g := MkGdb (bps g) (connected g) (first_time g) (step g) x (in_buffer g) (proc g) (sd g).
Definition set_connected x g := MkGdb (bps g) x (first_time g) (step g) (disabled g) (in_buffer g) (proc g) (sd g).
Definition set_in x s g := MkGdb (bps g) (connected g) (first_time g) (step g) (disabled g) x (proc g) s.
Definition set_proc x g := MkGdb (bps g) (connected g) (first_time g) (step g) (disabled g) (in_buffer g) x (sd g).
Definition set_sd x g := MkGdb (bps g) (connected g) (first_time g) (step g) (disabled g) (in_buffer g) (proc g) x.

Definition BREAKPOINTS : Z := 200.

(** The buffers hold what [new] leaves there. *)
Definition new_gdb (buffer : list Z) (p : P) (s : line) : AC_GDB :=
  MkGdb (new_breakpoints BREAKPOINTS) false true false true buffer p s.

Definition enable : AC_GDB -> AC_GDB := set_disabled false.
Definition disable : AC_GDB -> AC_GDB := set_disabled true.

(** What follows a position of the buffer, up to a NUL; reading on behind the
    buffer is undefined. *)
Definition text_at (buffer : list Z) (pos : nat) : result P (list Z) :=
  match cstring (drop pos buffer) with Some s => Value s | None => Bad end.

(** *** Registers *)

Definition swap_word (r : Z) : Z := if tgt_endian then r else changeendianess r.

Definition reg_text (g : AC_GDB) (i : Z) : list Z := print_hex 8 (swap_word (reg_read i (proc g))).

Definition gdb_reg_read (g : AC_GDB) : result P (list Z) :=
  if GDB_BUFFERSIZE <=? 8 * nRegs then Bad
  else Value (concat (map (fun i => reg_text g (Z.of_nat i)) (seq 0 (Z.to_nat nRegs)))).

(** The registers from [i] on, [n] of them; [aux] is [None] before the first
    number has been read and keeps its value when there is no number. *)
Fixpoint write_regs (n : nat) (i : Z) (pos : nat) (aux : option Z) (buffer : list Z) (p : P) : result P P :=
  match n with
  | O => Value p
  | S n =>
      s ← text_at buffer pos;
      match (match scan_hex 8 s with Some (v, _) => Some v | None => aux end) with
      | None => Bad
      | Some aux => let aux := swap_word aux in write_regs n (i + 1) (pos + 8) (Some aux) buffer (reg_write i aux p)
      end
  end.

Definition gdb_reg_write (g : AC_GDB) : result P (list Z * AC_GDB) :=
  p ← write_regs 32 0 1 None (in_buffer g) (proc g); Value (OK, set_proc p g).

(** *** Memory *)

(** [n] bytes of hexadecimal text from [pos] on; the test for the end of the
    text looks at the character [pos + i], [i] being twice the bytes written. *)
Fixpoint write_bytes (n : nat) (i pos : nat) (address : Z) (buffer : list Z) (p : P) : result P P :=
  match n with
  | O => Value p
  | S n =>
      if GDB_BUFFERSIZE <=? Z.of_nat (pos + i) then Bad
      else
        s ← text_at buffer pos;
        let v := match scan_hex 2 s with Some (v, _) => v | None => 0 end in
        p ← mem_write address (u8 v) p;
        write_bytes n (i + 2) (pos + 2) (u32 (address + 1)) buffer p
  end.

(** The position behind the first colon of a string. *)
Fixpoint behind_colon (s : list Z) : option nat :=
  match s with [] => None | c :: s => if c =? COLON then Some 1%nat else S <$> behind_colon s end.

Definition gdb_mem_write (g : AC_GDB) : result P (list Z * AC_GDB) :=
  s ← text_at (in_buffer g) 0;
  match scan_pair 77 s, behind_colon s with
  | Some (address, bytes, _), Some offset =>
      let bytes :=
        if GDB_BUFFERSIZE <=? u32 (u32 (2 * bytes) + 1 + Z.of_nat offset)
        then Z.shiftr (GDB_BUFFERSIZE - Z.of_nat offset) 1 - 1 else bytes in
      p ← write_bytes (Z.to_nat (u32 (2 * bytes) / 2)) 0 offset address (in_buffer g) (proc g);
      Value (OK, set_proc p g)
  | _, _ => Value (E01, g)
  end.

Fixpoint read_bytes (n : nat) (address : Z) (p : P) : result P (list Z * P) :=
  match n with
  | O => Value ([], p)
  | S n =>
      '(v, p) ← mem_read address p;
      '(t, p) ← read_bytes n (u32 (address + 1)) p;
      Value (print_hex 2 v ++ t, p)
  end.

Definition gdb_mem_read (g : AC_GDB) : result P (list Z * AC_GDB) :=
  s ← text_at (in_buffer g) 0;
  match scan_pair 109 s with
  | None => Value (E01, g)
  | Some (address, bytes, _) =>
      let bytes := if GDB_BUFFERSIZE <=? u32 (u32 (2 * bytes) + 1) then Z.shiftr GDB_BUFFERSIZE 1 - 1 else bytes in
      if GDB_BUFFERSIZE <=? 2 * bytes then Bad
      else '(t, p) ← read_bytes (Z.to_nat bytes) address (proc g); Value (t, set_proc p g)
  end.

(** *** Execution and breakpoints *)

(** "c" and "s" with an optional address. *)
Definition resume (letter : Z) (stepping : bool) (g : AC_GDB) : result P AC_GDB :=
  s ← text_at (in_buffer g) 0;
  let p := match (s ← scan_char letter s; scan_number s) with Some (a, _) => set_ac_pc a (proc g) | None => proc g end in
  Value (set_step stepping (set_proc p g)).

Definition continue_execution : AC_GDB -> result P AC_GDB := resume 99 false.
Definition stepmode : AC_GDB -> result P AC_GDB := resume 115 true.

(** "Z" and "z": [change] adds or removes the breakpoint. *)
Definition break_change (letter : Z) (change : Z -> Breakpoints -> option Breakpoints) (g : AC_GDB) : result P (list Z * AC_GDB) :=
  s ← text_at (in_buffer g) 0;
  Value (match scan_triple letter s with
         | None => (E01, g)
         | Some (type, address, _) =>
             if type =? 0 then
               match change address (bps g) with
               | Some b => (OK, set_bps b g)
               | None => (E00, g)
               end
             else ([], g)
         end).

Definition break_insert : AC_GDB -> result P (list Z * AC_GDB) := break_change 90 add.
Definition break_remove : AC_GDB -> result P (list Z * AC_GDB) := break_change 122 remove.

Definition stop (decoded_pc : Z) (g : AC_GDB) : bool :=
  if disabled g then false else first_time g || step g || bp_exists decoded_pc (bps g).

(** The reply to a packet that does not end the session. *)
Definition answer (g : AC_GDB) : result P (list Z * AC_GDB) :=
  match nth 0 (in_buffer g) 0 with
  | 63 => Value (signal_reply SIGTRAP, g)
  | 103 => t ← gdb_reg_read g; Value (t, g)
  | 71 => gdb_reg_write g
  | 109 => gdb_mem_read g
  | 77 => gdb_mem_write g
  | 107 => p ← ac_stop (proc g); Value ([], set_proc p g)
  | 90 => break_insert g
  | 122 => break_remove g
  | _ => Value ([], g)
  end.

(** The loop over packets, with fuel: every packet takes input. *)
Fixpoint session (fuel : nat) (g : AC_GDB) : result P AC_GDB :=
  match fuel with
  | O => Diverges
  | S fuel =>
      '(buffer, s) ← comm_getpacket (in_buffer g) (sd g);
      let g := set_in buffer s g in
      match nth 0 buffer 0 with
      | 99 => continue_execution g
      | 115 => stepmode g
      | 3 => s ← comm_putpacket (signal_reply SIGINT) (sd g); Value (set_step true (set_sd s g))
      | _ => '(reply, g) ← answer g; s ← comm_putpacket reply (sd g); session fuel (set_sd s g)
      end
  end.

Definition process_bp (g : AC_GDB) : result P AC_GDB :=
  if disabled g then Value g
  else
    let g := set_first false g in
    s ← comm_putpacket (signal_reply SIGTRAP) (sd g);
    let g := set_sd s g in
    if connected g then session (S (length (input (sd g)))) g else Value g.

(** The exit status, printed with at least two digits. *)
Definition status_digits (status : Z) : list Z :=
  let n := u32 status in
  print_hex (Z.to_nat (Z.max 2 (Z.log2 n / 4 + 1))) n.

Definition gdb_exit (ac_exit_status : Z) (g : AC_GDB) : result P AC_GDB :=
  if disabled g then Value g
  else s ← comm_putpacket (87 :: status_digits ac_exit_status) (sd g); Value (set_sd s g).
End stub.
Arguments AC_GDB : clear implicits.
