(* ===== verification/GdbOk.v ===== *)
(** * The GDB protocol: packets, breakpoints and memory

    Packets survive noise and damaged frames; the breakpoints are a bag until
    the table is full; and the bytes written by an "M" packet are those an "m"
    packet reads. *)
From S2P Require Import Prelude Gdb.

(** ** Hexadecimal digits *)

Lemma digit_cases (Q : Z -> bool) : forallb Q (seqZ 0 16) = true -> forall d, 0 <= d < 16 -> Q d = true.
Proof. intros H d Hd. rewrite forallb_forall in H. apply H, list_elem_of_In, elem_of_seqZ. lia. Qed.

Lemma byte_cases (Q : Z -> bool) : forallb Q (seqZ 0 256) = true -> forall d, 0 <= d < 256 -> Q d = true.
Proof. intros H d Hd. rewrite forallb_forall in H. apply H, list_elem_of_In, elem_of_seqZ. lia. Qed.

Lemma hex_hexchar d : 0 <= d < 16 -> hex (hexchar d) = d.
Proof. intros H. apply Z.eqb_eq. revert d H. apply (digit_cases (fun d => hex (hexchar d) =? d)). vm_compute. reflexivity. Qed.

Lemma hexchar_plain d : 0 <= d < 16 -> is_space (hexchar d) = false /\ hexchar d <> 45 /\ hexchar d <> 43 /\ hexchar d <> 0 /\ hexchar d <> 120 /\ hexchar d <> 88 /\ hexchar d <> COLON /\ hexchar d <> COMMA.
Proof.
  intros H. assert (E : (negb (is_space (hexchar d)) && negb (hexchar d =? 45) && negb (hexchar d =? 43) && negb (hexchar d =? 0)
    && negb (hexchar d =? 120) && negb (hexchar d =? 88) && negb (hexchar d =? COLON) && negb (hexchar d =? COMMA)) = true).
  { revert d H. apply (digit_cases (fun d => _)). vm_compute. reflexivity. }
  rewrite !andb_true_iff, !negb_true_iff, !Z.eqb_neq in E. tauto.
Qed.

Lemma nibble v : 0 <= Z.land v 0xf < 16.
Proof. change 0xf with (Z.ones 4). rewrite Z.land_ones by lia. apply Z.mod_pos_bound. lia. Qed.

(** The two digits of a byte, as they are received. *)
Lemma received_byte c l o : 0 <= c < 256 ->
  received_sum (MkLine (hexchar (Z.shiftr c 4) :: hexchar (Z.land c 0xf) :: l) o) = (c, MkLine l o).
Proof.
  intros Hc. unfold received_sum. cbn [comm_getchar input sent]. f_equal.
  apply Z.eqb_eq. revert c Hc. apply (byte_cases (fun c => _ =? c)). vm_compute. reflexivity.
Qed.

(** ** Packets *)

Definition plain (data : list Z) : Prop := Forall (fun c => c <> NUMBER_SIGN) data.
Definition text (data : list Z) : Prop := Forall (fun c => c <> 0) data.
Definition silent (noise : list Z) : Prop := Forall (fun c => Z.land c 0x7f <> DOLLAR) noise.

Definition sum_from (s : Z) (data : list Z) : Z := fold_left (fun c ch => u8 (c + ch)) data s.

Lemma sum_from_range data : forall s, 0 <= s < 256 -> 0 <= sum_from s data < 256.
Proof.
  induction data as [|c data IH]; intros s Hs; [exact Hs|]. cbn. apply IH. apply (uwrap_range 8). lia.
Qed.

Lemma skip_silent noise l : silent noise -> skip_to_start (noise ++ DOLLAR :: l) = Some l.
Proof.
  intros H. induction H as [|c noise Hc _ IH]; [reflexivity|]. cbn [app skip_to_start].
  destruct (Z.eqb_spec (Z.land c 0x7f) DOLLAR); [contradiction|exact IH].
Qed.

(** The data reach the buffer, which keeps what is behind them. *)
Lemma read_data_plain data : forall n buffer count sum l, plain data -> (length data < n)%nat -> (count + length data <= length buffer)%nat ->
  read_data n buffer count sum (data ++ NUMBER_SIGN :: l) =
    (true, take count buffer ++ data ++ drop (count + length data) buffer, (count + length data)%nat, sum_from sum data, l).
Proof.
  induction data as [|c data IH]; intros n buffer count sum l Hp Hn Hb; (destruct n as [|n]; [cbn in Hn; lia|]); cbn [app read_data].
  - rewrite Z.eqb_refl. cbn [length]. rewrite Nat.add_0_r, take_drop. reflexivity.
  - inversion Hp as [|? ? Hc Hp']. destruct (Z.eqb_spec c NUMBER_SIGN); [contradiction|]. cbn [length] in *.
    rewrite IH by (try exact Hp'; rewrite ?length_insert; lia). rewrite (Nat.add_succ_comm count (length data)).
    rewrite drop_insert_lt by lia.
    rewrite (take_S_r _ _ c) by (apply list_lookup_insert_eq; lia). rewrite take_insert_ge by lia.
    rewrite <- app_assoc. reflexivity.
Qed.

Lemma cstring_app data l : text data -> cstring (data ++ 0 :: l) = Some data.
Proof.
  intros H. induction H as [|c data Hc _ IH]; [reflexivity|]. cbn. destruct (Z.eqb_spec c 0); [contradiction|]. rewrite IH. reflexivity.
Qed.

Lemma remove_sequence_short buffer data : cstring buffer = Some data -> (length data < 3)%nat -> remove_sequence buffer = buffer.
Proof.
  intros E Hl. unfold remove_sequence. rewrite E. replace (length data - 2)%nat with O by lia. reflexivity.
Qed.

(** The buffer with a string at its front, and what was there before behind it. *)
Definition overlay (data buffer : list Z) : list Z := data ++ 0 :: drop (S (length data)) buffer.

Lemma overlay_length data buffer : (length data < length buffer)%nat -> length (overlay data buffer) = length buffer.
Proof. intros H. unfold overlay. rewrite length_app. cbn [length]. rewrite length_drop. lia. Qed.

Lemma overlay_insert data buffer : (length data < length buffer)%nat -> <[length data:=0]> (data ++ drop (length data) buffer) = overlay data buffer.
Proof.
  intros H. rewrite insert_app_r_alt, Nat.sub_diag by lia. unfold overlay. f_equal.
  destruct (drop (length data) buffer) as [|x l] eqn:E.
  - apply (f_equal length) in E. rewrite length_drop in E. cbn in E. lia.
  - cbn. f_equal. change l with (drop 1 (x :: l)). rewrite <- E, drop_drop. f_equal. lia.
Qed.

Lemma overlay_third data buffer : (2 <= length data)%nat -> nth 2 (overlay data buffer) 0 = nth 2 data 0.
Proof. intros H. destruct data as [|a [|b [|c data]]]; cbn in *; try lia; reflexivity. Qed.

Lemma remove_overlay data buffer : text data -> nth 2 data 0 = COLON ->
  cstring (remove_sequence (overlay data buffer)) = Some (drop 3 data).
Proof.
  intros Ht H. destruct data as [|a [|b [|c data]]]; try discriminate H. unfold remove_sequence, overlay.
  rewrite (cstring_app _ _ Ht). inversion Ht as [|? ? _ Ht1]. inversion Ht1 as [|? ? _ Ht2]. inversion Ht2 as [|? ? _ Ht3].
  cbn [length Nat.sub drop app]. rewrite !drop_0. replace (S (length data)) with (length data + 1)%nat by lia. rewrite take_app_add. cbn [take].
  rewrite <- app_assoc. apply cstring_app, Ht3.
Qed.

(** What follows the plus sign: the sequence number, when the third character of
    the buffer is a colon. *)
Definition reply (buffer : list Z) : list Z :=
  if nth 2 buffer 0 =? COLON then [nth 0 buffer 0; nth 1 buffer 0] else [].

(** The string that is delivered. *)
Definition delivered (data : list Z) : list Z := if nth 2 data 0 =? COLON then drop 3 data else data.

(** A frame whose two last characters do not give the sum of its data. *)
Record damaged_frame := MkDamaged { df_noise : list Z; df_data : list Z; df_high : Z; df_low : Z }.

Record damaged (f : damaged_frame) : Prop := {
  dm_silent : silent (df_noise f);
  dm_plain : plain (df_data f);
  dm_length : Z.of_nat (length (df_data f)) < GDB_BUFFERSIZE;
  dm_sum : fst (received_sum (MkLine [df_high f; df_low f] [])) <> checksum (df_data f)
}.

Lemma received_sum_pair h l r o : received_sum (MkLine (h :: l :: r) o) = (fst (received_sum (MkLine [h; l] [])), MkLine r o).
Proof. reflexivity. Qed.

Fixpoint arrival (bad : list damaged_frame) (l : list Z) : list Z :=
  match bad with
  | [] => l
  | f :: bad => df_noise f ++ DOLLAR :: df_data f ++ NUMBER_SIGN :: df_high f :: df_low f :: arrival bad l
  end.

(** The buffer after damaged frames. *)
Definition stale (bad : list damaged_frame) (buffer : list Z) : list Z := fold_left (fun b f => overlay (df_data f) b) bad buffer.

Lemma get_loop_damaged {P} fuel buffer f l o : damaged f -> length buffer = Z.to_nat GDB_BUFFERSIZE ->
  @get_loop P (S fuel) buffer (MkLine (df_noise f ++ DOLLAR :: df_data f ++ NUMBER_SIGN :: df_high f :: df_low f :: l) o)
  = get_loop fuel (overlay (df_data f) buffer) (MkLine l (o ++ [MINUS])).
Proof.
  intros [Hn Hp Hlen Hs] Hb. cbn [get_loop input]. rewrite (skip_silent _ _ Hn). unfold GDB_BUFFERSIZE in *.
  rewrite read_data_plain by (try exact Hp; lia). cbn [sent Nat.add take app]. rewrite received_sum_pair.
  change (sum_from 0 (df_data f)) with (checksum (df_data f)).
  destruct (Z.eqb_spec (checksum (df_data f)) (fst (received_sum (MkLine [df_high f; df_low f] [])))) as [Eq|_]; [congruence|]. cbn [negb].
  rewrite take_0, app_nil_l, overlay_insert by lia. reflexivity.
Qed.

Lemma get_loop_good {P} fuel buffer noise data l o : silent noise -> plain data -> text data ->
  Z.of_nat (length data) < GDB_BUFFERSIZE -> length buffer = Z.to_nat GDB_BUFFERSIZE ->
  exists buffer', @get_loop P (S fuel) buffer (MkLine (noise ++ frame data ++ l) o) = Value (buffer', MkLine l (o ++ PLUS :: reply (overlay data buffer))) /\
    cstring buffer' = Some (delivered data).
Proof.
  intros Hn Hp Ht Hlen Hb. cbn [get_loop input]. unfold frame, GDB_BUFFERSIZE in *.
  set (c := checksum data). assert (Hc : 0 <= c < 256) by (apply sum_from_range; lia).
  replace (noise ++ (DOLLAR :: data ++ [NUMBER_SIGN; hexchar (Z.shiftr c 4); hexchar (Z.land c 0xf)]) ++ l)
    with (noise ++ DOLLAR :: (data ++ NUMBER_SIGN :: (hexchar (Z.shiftr c 4) :: hexchar (Z.land c 0xf) :: l)))
    by (cbn; rewrite <- app_assoc; reflexivity).
  rewrite (skip_silent noise _ Hn). rewrite read_data_plain by (try exact Hp; lia). cbn [sent Nat.add take app].
  rewrite (received_byte c l o Hc). change (sum_from 0 data) with c. rewrite Z.eqb_refl. cbn [negb].
  rewrite take_0, app_nil_l, overlay_insert by lia. assert (Hcs : cstring (overlay data buffer) = Some data) by (apply cstring_app, Ht).
  unfold reply, delivered. destruct (Z.eqb_spec (nth 2 (overlay data buffer) 0) COLON) as [E|E].
  - exists (remove_sequence (overlay data buffer)). unfold send. cbn [input sent]. rewrite <- app_assoc. split; [reflexivity|].
    destruct (Nat.lt_ge_cases (length data) 3) as [Hs|Hs].
    + rewrite (remove_sequence_short _ data Hcs Hs), (nth_overflow data) by lia. exact Hcs.
    + rewrite overlay_third in E by lia. rewrite E, Z.eqb_refl. apply remove_overlay; assumption.
  - exists (overlay data buffer). split; [reflexivity|]. destruct (Nat.lt_ge_cases (length data) 3) as [Hs|Hs].
    + rewrite (nth_overflow data) by lia. exact Hcs.
    + rewrite overlay_third in E by lia. rewrite (proj2 (Z.eqb_neq _ _) E). exact Hcs.
Qed.

Lemma arrival_length bad l : (length bad <= length (arrival bad l))%nat.
Proof. induction bad as [|f bad IH]; cbn [arrival length]; [lia|]. rewrite length_app. cbn [length]. rewrite length_app. cbn [length]. lia. Qed.

(** C30. A packet is delivered through noise and damaged frames, all of fewer than
    2048 characters: whatever comes before that is no dollar sign is skipped, each
    damaged frame is refused with a minus sign, and the good frame is accepted
    with a plus sign, its data being the string left in the buffer and the input
    behind it untouched.  When the third character of the buffer is a colon its
    first two follow the plus sign and the three are taken off the string; with
    two characters of data or more that is a matter of the data, with fewer the
    third character is what an earlier packet left there.  The other side's
    [comm_putpacket] sends such a frame once for every answer up to the first
    plus sign. *)
Theorem packet_delivered {P} data bad noise rest buffer out refusals :
  plain data -> text data -> Z.of_nat (length data) < GDB_BUFFERSIZE ->
  silent noise -> Forall damaged bad -> length buffer = Z.to_nat GDB_BUFFERSIZE ->
  Forall (fun c => Z.land c 0x7f <> PLUS) refusals ->
  (exists buffer',
     @comm_getpacket P buffer (MkLine (arrival bad (noise ++ frame data ++ rest)) out) =
       Value (buffer', MkLine rest (out ++ replicate (length bad) MINUS ++ PLUS :: reply (overlay data (stale bad buffer)))) /\
     cstring buffer' = Some (delivered data)) /\
  ((2 <= length data)%nat -> reply (overlay data (stale bad buffer)) = if nth 2 data 0 =? COLON then take 2 data else []) /\
  @comm_putpacket P data (MkLine (refusals ++ PLUS :: rest) out) =
    Value (MkLine rest (out ++ concat (replicate (S (length refusals)) (frame data)))).
Proof.
  intros Hp Ht Hl Hn Hbad Hb Hr. split; [|split].
  - unfold comm_getpacket. cbn [input]. set (fuel := S (length (arrival bad (noise ++ frame data ++ rest)))).
    assert (Hf : (length bad < fuel)%nat) by (pose proof (arrival_length bad (noise ++ frame data ++ rest)); lia).
    clearbody fuel. revert fuel Hf buffer out Hb. induction Hbad as [|f bad Hd Hbad IH]; intros fuel Hf buffer out Hb;
      (destruct fuel as [|fuel]; [cbn in Hf; lia|]).
    + exact (@get_loop_good P fuel buffer noise data rest out Hn Hp Ht Hl Hb).
    + cbn [arrival]. rewrite (@get_loop_damaged P fuel buffer f _ out Hd Hb).
      assert (Hlen : (length (df_data f) < length buffer)%nat) by (pose proof (dm_length f Hd); unfold GDB_BUFFERSIZE in *; lia).
      destruct (IH fuel ltac:(cbn in Hf; lia) (overlay (df_data f) buffer) (out ++ [MINUS])) as (b' & E' & H).
      { rewrite overlay_length by exact Hlen. exact Hb. }
      exists b'. rewrite E'. cbn [length replicate app stale fold_left]. rewrite <- app_assoc. auto.
  - intros H2. unfold reply. rewrite overlay_third by exact H2. destruct data as [|a [|b data]]; cbn in H2; try lia. reflexivity.
  - unfold comm_putpacket. cbn [input sent]. revert out. induction Hr as [|c refusals Hc _ IH]; intros out; cbn [app put_loop length].
    + cbn. rewrite app_nil_r. reflexivity.
    + destruct (Z.eqb_spec (Z.land c 0x7f) PLUS); [contradiction|]. rewrite IH. cbn [replicate concat]. rewrite <- app_assoc. reflexivity.
Qed.

(** "m1,4" behind a byte of noise and a frame with a wrong sum. *)
Lemma packet_delivered_witness : exists buffer,
  @comm_getpacket unit (replicate (Z.to_nat GDB_BUFFERSIZE) 7)
    (MkLine (arrival [MkDamaged [1] [103] 48 48] ([] ++ frame [109; 49; 44; 52] ++ [5])) [9]) =
    Value (buffer, MkLine [5] ([9] ++ [MINUS] ++ [PLUS])) /\
  cstring buffer = Some [109; 49; 44; 52].
Proof.
  destruct (@packet_delivered unit [109; 49; 44; 52] [MkDamaged [1] [103] 48 48] [] [5]
    (replicate (Z.to_nat GDB_BUFFERSIZE) 7) [9] []) as ((buffer & E & Hc) & Hx & _).
  1, 2: repeat constructor; discriminate.
  1: vm_compute; congruence.
  - constructor.
  - repeat constructor; vm_compute; congruence.
  - reflexivity.
  - constructor.
  - exists buffer. rewrite Hx in E by (cbn; lia). split; [exact E|exact Hc].
Defined.

(** A one-character packet after one with a sequence number: the colon that packet
    left makes the stub send the character and a NUL behind its plus sign. *)
Example stale_reply : reply (overlay [63] (remove_sequence (overlay [48; 49; 58; 63] (replicate 8 0)))) = [63; 0].
Proof. reflexivity. Qed.

(** ** Breakpoints *)

Inductive bp_op := Add (a : Z) | Remove (a : Z).

(** A failing call leaves the breakpoints as they are. *)
Definition bp_step (b : Breakpoints) (o : bp_op) : Breakpoints :=
  match (match o with Add a => add a b | Remove a => remove a b end) with Some b' => b' | None => b end.

Definition bp_run (n : Z) (ops : list bp_op) : Breakpoints := fold_left bp_step ops (new_breakpoints n).

(** The bag of addresses. *)
Definition bag_step (bag : Z -> nat) (o : bp_op) : Z -> nat := fun x =>
  match o with
  | Add a => if a =? x then S (bag x) else bag x
  | Remove a => if a =? x then pred (bag x) else bag x
  end.

Definition bag_run (ops : list bp_op) : Z -> nat := fold_left bag_step ops (fun _ => 0%nat).

Definition adds (ops : list bp_op) : Z := Z.of_nat (length (List.filter (fun o => match o with Add _ => true | _ => false end) ops)).

Definition count (x : Z) (l : list Z) : nat := count_occ Z.eq_dec l x.

Lemma insert_loop_count l : forall a x, count x (insert_loop a l) = (if a =? x then S (count x l) else count x l).
Proof.
  unfold count. induction l as [|b l IH]; intros a x; cbn.
  - destruct (Z.eq_dec a x), (Z.eqb_spec a x); congruence || reflexivity.
  - destruct (a <? b); cbn; rewrite IH; destruct (Z.eq_dec a x), (Z.eq_dec b x), (Z.eqb_spec a x), (Z.eqb_spec b x); congruence || reflexivity.
Qed.

Lemma insert_loop_bound l : forall a y, y <= a -> Forall (fun x => y <= x) l -> Forall (fun x => y <= x) (insert_loop a l).
Proof.
  induction l as [|b l IH]; intros a y Ha H; cbn; [auto|]. inversion H. destruct (a <? b); constructor; auto.
Qed.

Lemma insert_loop_sorted l : forall a, Sorted.StronglySorted Z.le l -> Sorted.StronglySorted Z.le (insert_loop a l).
Proof.
  induction l as [|b l IH]; intros a H; cbn; [repeat constructor|]. inversion H as [|? ? Hs Hb].
  destruct (Z.ltb_spec a b); constructor; try (apply IH; assumption); apply insert_loop_bound; try lia; [|assumption].
  eapply Forall_impl; [exact Hb|]. cbn. lia.
Qed.

Lemma insert_loop_length l : forall a, length (insert_loop a l) = S (length l).
Proof. induction l as [|b l IH]; intros a; cbn; [reflexivity|]. destruct (a <? b); cbn; rewrite IH; reflexivity. Qed.

Lemma remove_first_spec a l :
  match remove_first a l with
  | Some l' => (forall x, count x l' = if a =? x then pred (count x l) else count x l) /\ (0 < count a l)%nat /\ sublist l' l
  | None => count a l = 0%nat
  end.
Proof.
  unfold count. induction l as [|b l IH]; cbn [remove_first]; [reflexivity|]. destruct (Z.eqb_spec b a) as [->|Hne].
  - cbn. split; [|split; [destruct (Z.eq_dec a a); [lia|congruence]|apply sublist_cons; reflexivity]].
    intros x. destruct (Z.eqb_spec a x) as [->|]; [destruct (Z.eq_dec x x); [reflexivity|congruence]|destruct (Z.eq_dec a x); [congruence|reflexivity]].
  - destruct (remove_first a l) as [l'|]; cbn.
    + destruct IH as (IH & Hp & Hs). split; [|split; [destruct (Z.eq_dec b a); [congruence|exact Hp]|apply sublist_skip; exact Hs]].
      intros x. rewrite IH. destruct (Z.eqb_spec a x), (Z.eq_dec b x); try congruence; reflexivity.
    + destruct (Z.eq_dec b a); [congruence|exact IH].
Qed.

Lemma sublist_sorted (l' l : list Z) : sublist l' l -> Sorted.StronglySorted Z.le l -> Sorted.StronglySorted Z.le l'.
Proof.
  intros H. induction H as [|x l1 l2 H IH|x l1 l2 H IH]; intros Hs; [constructor|..]; inversion Hs as [|? ? Hs' Hb]; [constructor|]; auto.
  rewrite Forall_forall in *. intros y Hy. apply Hb. eapply elem_of_sublist; [exact Hy|exact H].
Qed.

Lemma exists_loop_spec a l : Sorted.StronglySorted Z.le l -> exists_loop a l = true <-> (0 < count a l)%nat.
Proof.
  unfold count. intros H. induction H as [|b l Hs IH Hb]; cbn; [split; [discriminate|lia]|].
  destruct (Z.eqb_spec a b) as [->|Hne]; [destruct (Z.eq_dec b b); [split; [lia|reflexivity]|congruence]|].
  destruct (Z.eq_dec b a); [congruence|]. destruct (Z.ltb_spec a b); [|exact IH].
  split; [discriminate|]. intros Hc. apply (count_occ_In Z.eq_dec) in Hc. rewrite List.Forall_forall in Hb. specialize (Hb a Hc). lia.
Qed.

(** The table holds the bag, in order. *)
Record holds (n : Z) (bag : Z -> nat) (b : Breakpoints) : Prop := {
  ho_max : quantMax b = n;
  ho_count : forall x, count x (bp b) = bag x;
  ho_sorted : Sorted.StronglySorted Z.le (bp b)
}.

Lemma bp_step_holds n bag b o : quant b < n -> holds n bag b -> holds n (bag_step bag o) (bp_step b o) /\
  quant (bp_step b o) <= quant b + match o with Add _ => 1 | _ => 0 end.
Proof.
  intros Hq [Hm Hc Hs]. unfold quant in *. destruct o as [a|a]; unfold bp_step.
  - unfold add, quant. destruct (Z.leb_spec (quantMax b) (Z.of_nat (length (bp b)))); [lia|]. cbn [bp quantMax]. split; [split; cbn [bp quantMax]|].
    + exact Hm.
    + intros x. rewrite insert_loop_count, Hc. reflexivity.
    + apply insert_loop_sorted, Hs.
    + rewrite insert_loop_length. lia.
  - unfold remove, quant. destruct (Z.leb_spec (quantMax b) (Z.of_nat (length (bp b)))); [lia|]. pose proof (remove_first_spec a (bp b)) as Hr.
    destruct (remove_first a (bp b)) as [l|]; cbn [mbind option_bind bp quantMax].
    + destruct Hr as (Hr & _ & Hl). split; [split; cbn [bp quantMax]|].
      * exact Hm.
      * intros x. rewrite Hr, Hc. reflexivity.
      * exact (sublist_sorted _ _ Hl Hs).
      * cbn [bp]. apply sublist_length in Hl. lia.
    + split; [split|]; try assumption; [|lia]. intros x. rewrite Hc. cbn. destruct (Z.eqb_spec a x) as [->|]; [|reflexivity].
      rewrite <- Hc, Hr. reflexivity.
Qed.

Lemma bp_run_holds n ops : adds ops < n -> holds n (bag_run ops) (bp_run n ops) /\ quant (bp_run n ops) <= adds ops.
Proof.
  induction ops as [|o ops IH] using rev_ind; intros Hn.
  - split; [split|]; try reflexivity. constructor.
  - unfold bp_run, bag_run, adds in *. rewrite !fold_left_app, List.filter_app, length_app in *. cbn [fold_left] in *.
    destruct IH as [IH IHq]; [lia|]. destruct (bp_step_holds n (fold_left bag_step ops (fun _ => 0%nat)) (fold_left bp_step ops (new_breakpoints n)) o) as [H Hq];
      [lia|exact IH|]. split; [exact H|].
    destruct o; cbn in *; lia.
Qed.

(** The breakpoints are a bag: after any insertions and removals with fewer
    insertions than the table has places, the table is in ascending order, it
    holds each address as often as the bag, and the processor stops at an address
    exactly when the bag has it.  A full table has lost all of them: no address
    stops the processor, and none can be removed. *)
Theorem breakpoints_bag n ops : adds ops < n ->
  Sorted.StronglySorted Z.le (bp (bp_run n ops)) /\
  (forall a, count a (bp (bp_run n ops)) = bag_run ops a) /\
  (forall a, bp_exists a (bp_run n ops) = true <-> (0 < bag_run ops a)%nat) /\
  (forall b, quantMax b <= quant b -> forall a, bp_exists a b = false /\ remove a b = None).
Proof.
  intros Hn. destruct (bp_run_holds n ops Hn) as [[Hm Hc Hs] Hq]. split; [exact Hs|]. split; [exact Hc|]. split.
  - intros a. unfold bp_exists. rewrite Hm. destruct (Z.leb_spec n (quant (bp_run n ops))); [lia|]. rewrite <- Hc. apply exists_loop_spec, Hs.
  - intros b Hb a. unfold bp_exists, remove. destruct (Z.leb_spec (quantMax b) (quant b)); [auto|lia].
Qed.

Lemma breakpoints_bag_witness :
  bp_exists 16 (bp_run 3 [Add 32; Add 16; Remove 32]) = true /\ bp_exists 32 (bp_run 3 [Add 32; Add 16; Remove 32]) = false.
Proof.
  destruct (breakpoints_bag 3 [Add 32; Add 16; Remove 32] eq_refl) as (_ & _ & He & _). split; [apply He; vm_compute; lia|].
  destruct (bp_exists 32 _) eqn:E; [|reflexivity]. apply He in E. vm_compute in E. lia.
Defined.

(** With the third breakpoint the other two stop working. *)
Example full_table : map (fun a => bp_exists a (bp_run 3 [Add 16; Add 32; Add 48])) [16; 32; 48] = [false; false; false].
Proof. reflexivity. Qed.

(** ** Numbers on the line *)

Definition hex_number (n : nat) (v : Z) : Prop := 0 <= v < 16 ^ Z.of_nat n.

Lemma hex_digits_app ds : forall w r, Forall (fun d => 0 <= d < 16) ds -> (length ds <= w)%nat ->
  (w = length ds \/ hex (hd 0 r) = -1) -> hex_digits w (map hexchar ds ++ r) = (ds, r).
Proof.
  induction ds as [|d ds IH]; intros w r Hd Hw Hr; cbn [map app].
  - destruct Hr as [->|Hr]; [reflexivity|]. destruct w as [|w]; [reflexivity|]. destruct r as [|c r]; [reflexivity|]. cbn in *. rewrite Hr. reflexivity.
  - destruct w as [|w]; [cbn in Hw; lia|]. inversion Hd as [|? ? H1 H2]. cbn [hex_digits]. rewrite (hex_hexchar d H1).
    destruct (Z.leb_spec 0 d); [|lia]. rewrite IH; [reflexivity|exact H2|cbn in Hw; lia|]. destruct Hr as [Hr|Hr]; [left; cbn in Hr; lia|right; exact Hr].
Qed.

(** The digits that are printed. *)
Fixpoint digits_of (n : nat) (v : Z) : list Z :=
  match n with O => [] | S n => digits_of n (Z.shiftr v 4) ++ [Z.land v 0xf] end.

Lemma print_hex_digits n : forall v, print_hex n v = map hexchar (digits_of n v).
Proof. induction n as [|n IH]; intros v; cbn; [reflexivity|]. rewrite IH, map_app. reflexivity. Qed.

Lemma digits_of_range n : forall v, Forall (fun d => 0 <= d < 16) (digits_of n v).
Proof. induction n as [|n IH]; intros v; cbn; [constructor|]. apply Forall_app. split; [apply IH|]. repeat constructor; apply nibble. Qed.

Lemma digits_of_length n : forall v, length (digits_of n v) = n.
Proof. induction n as [|n IH]; intros v; cbn; [reflexivity|]. rewrite length_app, IH. cbn. lia. Qed.

Lemma hex_value_digits n : forall v, hex_number n v -> hex_value (digits_of n v) = v.
Proof.
  unfold hex_value, hex_number. induction n as [|n IH]; intros v Hv; [cbn in Hv |- *; lia|]. cbn [digits_of].
  rewrite fold_left_app. cbn [fold_left]. replace (16 ^ Z.of_nat (S n)) with (16 * 16 ^ Z.of_nat n) in Hv by (rewrite Nat2Z.inj_succ, Z.pow_succ_r by lia; reflexivity).
  change 0xf with (Z.ones 4). rewrite Z.land_ones, Z.shiftr_div_pow2 by lia. change (2 ^ 4) with 16.
  rewrite IH by (split; [apply Z.div_pos; lia|apply Z.div_lt_upper_bound; lia]). pose proof (Z.div_mod v 16). lia.
Qed.

(** A printed number is scanned back, up to the width or to a character that is
    no digit. *)
Lemma scan_print n v w r : (0 < n)%nat -> (n <= w)%nat -> hex_number n v -> v < 2 ^ 32 -> (w = n \/ hex (hd 0 r) = -1) -> hd 0 r <> 120 -> hd 0 r <> 88 ->
  scan_hex w (print_hex n v ++ r) = Some (v, r).
Proof.
  intros Hn Hw Hv H32 Hr Hx HX. rewrite print_hex_digits. pose proof (digits_of_range n v) as Hd. pose proof (digits_of_length n v) as Hl.
  pose proof (hex_value_digits n v Hv) as Hval.
  assert (Hf : hex_digits w (map hexchar (digits_of n v) ++ r) = (digits_of n v, r)) by (apply hex_digits_app; [exact Hd|lia|rewrite Hl; exact Hr]).
  destruct (digits_of n v) as [|d ds] eqn:Eds; [cbn in Hl; lia|]. inversion Hd as [|? ? H1 H2].
  destruct (hexchar_plain d H1) as (Hs & Hm & Hp & _). unfold scan_hex. cbn [map app] in *. cbn [skip_spaces]. rewrite Hs.
  destruct w as [|w]; [lia|]. destruct (Z.eqb_spec (hexchar d) 45) as [|_]; [contradiction|].
  destruct (Z.eqb_spec (hexchar d) 43) as [|_]; [contradiction|].
  assert (Hpre : match S w, hexchar d :: map hexchar ds ++ r with
    | S (S w'), c :: x :: s' => if (c =? 48) && ((x =? 120) || (x =? 88)) then (true, w', s') else (false, S w, hexchar d :: map hexchar ds ++ r)
    | _, _ => (false, S w, hexchar d :: map hexchar ds ++ r) end = (false, S w, hexchar d :: map hexchar ds ++ r)).
  { destruct w as [|w]; [reflexivity|]. destruct (map hexchar ds ++ r) as [|x0 s0] eqn:Ex; [reflexivity|].
    assert (x0 <> 120 /\ x0 <> 88) as [Hx1 Hx2].
    { destruct ds as [|d' ds]; cbn in Ex; [subst r; auto|]. injection Ex as <- _. inversion H2 as [|? ? H3 _]. pose proof (hexchar_plain d' H3). tauto. }
    destruct (Z.eqb_spec x0 120), (Z.eqb_spec x0 88); try contradiction. rewrite Bool.andb_false_r. reflexivity. }
  rewrite Hpre, Hf, Hval. rewrite Z.min_l by lia. rewrite (uwrap_small 32) by (unfold hex_number in Hv; lia). reflexivity.
Qed.

(** ** Memory *)

(** What the stub needs of a processor's memory: in the states that are [ok],
    bytes that are read as they were written, at the addresses that are
    [valid]. *)
Record gdb_memory {P} `{!Gdb_Interface P} (ok : P -> Prop) (valid : Z -> Prop) (mem : P -> Z -> Z) : Prop := {
  bm_read : forall a p, ok p -> valid a -> mem_read a p = Value (mem p a, p);
  bm_write : forall a v p, ok p -> valid a -> 0 <= v < 256 -> exists p', mem_write a v p = Value p' /\ ok p' /\
    forall b, mem p' b = if b =? a then v else mem p b
}.

Definition bytes_text (bytes : list Z) : list Z := concat (map (print_hex 2) bytes).

Definition write_command (a : Z) (bytes : list Z) : list Z :=
  77 :: print_hex 8 a ++ COMMA :: print_hex 4 (Z.of_nat (length bytes)) ++ COLON :: bytes_text bytes.

Definition read_command (a n : Z) : list Z := 109 :: print_hex 8 a ++ COMMA :: print_hex 4 n.

Section memory.
Context {P : Type} `{!Gdb_Interface P} (ok : P -> Prop) (valid : Z -> Prop) (mem : P -> Z -> Z) (laws : gdb_memory ok valid mem).

Definition byte (b : Z) : Prop := 0 <= b < 256.

Lemma print_hex_length n : forall v, length (print_hex n v) = n.
Proof. intros v. rewrite print_hex_digits, length_map. apply digits_of_length. Qed.

Lemma print_hex_chars (Q : Z -> Prop) n v : (forall d, 0 <= d < 16 -> Q (hexchar d)) -> Forall Q (print_hex n v).
Proof.
  intros H. rewrite print_hex_digits, Forall_map. eapply Forall_impl; [apply digits_of_range|]. exact H.
Qed.

Lemma bytes_text_head bytes r : hd 0 r <> 120 -> hd 0 r <> 88 ->
  hd 0 (bytes_text bytes ++ r) <> 120 /\ hd 0 (bytes_text bytes ++ r) <> 88.
Proof.
  intros H1 H2. destruct bytes as [|b bytes]; [auto|]. cbn [bytes_text map concat]. unfold bytes_text. cbn [map concat].
  rewrite print_hex_digits. pose proof (digits_of_range 2 b) as Hd. pose proof (digits_of_length 2 b) as Hl.
  destruct (digits_of 2 b) as [|d ds]; [discriminate|]. inversion Hd as [|? ? H3 _]. cbn. pose proof (hexchar_plain d H3). tauto.
Qed.

Lemma scan_byte b r : byte b -> hd 0 r <> 120 -> hd 0 r <> 88 -> scan_hex 2 (print_hex 2 b ++ r) = Some (b, r).
Proof. intros Hb H1 H2. apply scan_print; try assumption; try lia; unfold hex_number, byte in *; change (16 ^ Z.of_nat 2) with 256; try lia. Qed.

Lemma bytes_text_no_nul bytes : text (bytes_text bytes).
Proof.
  induction bytes as [|b bytes IH]; [constructor|]. unfold text, bytes_text in *. cbn [map concat]. apply Forall_app.
  split; [|exact IH]. apply print_hex_chars. intros d Hd. apply (hexchar_plain d Hd).
Qed.

(** The bytes behind [pos] are written one after the other. *)
Lemma write_bytes_ok bytes : forall i pos a buffer rest p, ok p -> Forall byte bytes -> drop pos buffer = bytes_text bytes ++ 0 :: rest ->
  Z.of_nat (pos + i + 4 * length bytes) <= GDB_BUFFERSIZE + 3 -> 0 <= a -> a + Z.of_nat (length bytes) <= 2 ^ 32 ->
  (forall b, a <= b < a + Z.of_nat (length bytes) -> valid b) ->
  exists p', write_bytes (length bytes) i pos a buffer p = Value p' /\ ok p' /\
    forall b, mem p' b = if (a <=? b) && (b <? a + Z.of_nat (length bytes)) then nth (Z.to_nat (b - a)) bytes 0 else mem p b.
Proof.
  induction bytes as [|x bytes IH]; intros i pos a buffer rest p Hok Hb Hd Hlen Ha Hmax Hv.
  - exists p. split; [reflexivity|]. split; [exact Hok|]. intros b. cbn [length]. destruct (Z.leb_spec a b), (Z.ltb_spec b (a + Z.of_nat 0)); try lia; reflexivity.
  - inversion Hb as [|? ? Hx Hb']. cbn [length] in *. cbn [write_bytes].
    destruct (Z.leb_spec GDB_BUFFERSIZE (Z.of_nat (pos + i))) as [|_]; [lia|].
    unfold text_at. rewrite Hd, (cstring_app _ rest (bytes_text_no_nul (x :: bytes))). cbn [mbind result_bind].
    change (bytes_text (x :: bytes)) with (print_hex 2 x ++ bytes_text bytes).
    assert (Hh : hd 0 (bytes_text bytes) <> 120 /\ hd 0 (bytes_text bytes) <> 88).
    { destruct (bytes_text_head bytes []) as [H1 H2]; try discriminate.
      rewrite app_nil_r in H1, H2. auto. }
    rewrite (scan_byte x _ Hx (proj1 Hh) (proj2 Hh)). rewrite (uwrap_small 8) by exact Hx.
    destruct (bm_write _ _ _ laws a x p Hok (Hv a ltac:(lia)) Hx) as (p1 & E1 & Hok1 & Hm1). rewrite E1. cbn [mbind result_bind].
    destruct (Nat.eq_0_gt_0_cases (length bytes)) as [E0|Hpos].
    + destruct bytes; [|discriminate]. exists p1. split; [reflexivity|]. split; [exact Hok1|]. intros b. rewrite Hm1. cbn [length].
      destruct (Z.eqb_spec b a) as [Heq|Hne], (Z.leb_spec a b), (Z.ltb_spec b (a + Z.of_nat 1)); try lia; try reflexivity.
      subst b. cbn [andb]. rewrite Z.sub_diag. reflexivity.
    + destruct (IH (i + 2)%nat (pos + 2)%nat (a + 1) buffer rest p1 Hok1 Hb') as (p2 & E2 & Hok2 & Hm2); try lia.
      * rewrite <- drop_drop, Hd. change (bytes_text (x :: bytes)) with (print_hex 2 x ++ bytes_text bytes). rewrite <- app_assoc.
        rewrite drop_app_length' by (symmetry; apply print_hex_length). reflexivity.
      * intros b Hbb. apply Hv. lia.
      * exists p2. rewrite (uwrap_small 32) by lia. split; [exact E2|]. split; [exact Hok2|]. intros b. rewrite Hm2, Hm1.
        destruct (Z.leb_spec (a + 1) b), (Z.ltb_spec b (a + 1 + Z.of_nat (length bytes))), (Z.leb_spec a b), (Z.ltb_spec b (a + Z.of_nat (S (length bytes)))), (Z.eqb_spec b a);
          cbn [andb]; try lia; try reflexivity.
        -- replace (Z.to_nat (b - a)) with (S (Z.to_nat (b - (a + 1)))) by lia. reflexivity.
        -- subst b. rewrite Z.sub_diag. reflexivity.
Qed.

Lemma read_bytes_ok bytes : forall a p, ok p -> Forall byte bytes -> 0 <= a -> a + Z.of_nat (length bytes) <= 2 ^ 32 ->
  (forall b, a <= b < a + Z.of_nat (length bytes) -> valid b /\ mem p b = nth (Z.to_nat (b - a)) bytes 0) ->
  read_bytes (length bytes) a p = Value (bytes_text bytes, p).
Proof.
  induction bytes as [|x bytes IH]; intros a p Hok Hb Ha Hmax Hv; [reflexivity|]. inversion Hb as [|? ? Hx Hb']. cbn [length] in *. cbn [read_bytes].
  destruct (Hv a ltac:(lia)) as [Hva Hma]. rewrite Z.sub_diag in Hma. cbn in Hma.
  rewrite (bm_read _ _ _ laws a p Hok Hva), Hma. cbn [mbind result_bind].
  destruct (Nat.eq_0_gt_0_cases (length bytes)) as [E0|Hpos].
  - destruct bytes; [|discriminate]. reflexivity.
  - rewrite (uwrap_small 32) by lia. rewrite (IH (a + 1) p Hok Hb'); try lia; [reflexivity|].
    intros b Hbb. destruct (Hv b ltac:(lia)) as [H1 H2]. split; [exact H1|]. rewrite H2.
    replace (Z.to_nat (b - a)) with (S (Z.to_nat (b - (a + 1)))) by lia. reflexivity.
Qed.

Lemma scan_command letter a n r : 0 <= a < 2 ^ 32 -> 0 <= n < 65536 -> hex (hd 0 r) = -1 -> hd 0 r <> 120 -> hd 0 r <> 88 ->
  scan_pair letter (letter :: print_hex 8 a ++ COMMA :: print_hex 4 n ++ r) = Some (a, n, r).
Proof.
  intros Ha Hn Hr H1 H2. unfold scan_pair, scan_number. cbn [scan_char]. rewrite Z.eqb_refl. cbn [mbind option_bind].
  rewrite (scan_print 8 a); [|lia|rewrite length_app, print_hex_length; lia|unfold hex_number; change (16 ^ Z.of_nat 8) with (2 ^ 32); lia|lia|
    right; reflexivity|discriminate|discriminate].
  cbn [mbind option_bind scan_char]. rewrite Z.eqb_refl. cbn [mbind option_bind].
  rewrite (scan_print 4 n); [reflexivity|lia|rewrite length_app, print_hex_length; lia|unfold hex_number; change (16 ^ Z.of_nat 4) with 65536; lia|
    lia|right; exact Hr|exact H1|exact H2].
Qed.

Lemma behind_colon_app l r : Forall (fun c => c <> COLON) l -> behind_colon (l ++ COLON :: r) = Some (S (length l)).
Proof.
  intros H. induction H as [|c l Hc _ IH]; [reflexivity|]. cbn [app behind_colon]. destruct (Z.eqb_spec c COLON); [contradiction|].
  rewrite IH. reflexivity.
Qed.

Lemma cstring_split buffer s : cstring buffer = Some s -> exists rest, buffer = s ++ 0 :: rest.
Proof.
  revert s. induction buffer as [|c buffer IH]; intros s H; [discriminate|]. cbn in H. destruct (Z.eqb_spec c 0) as [->|].
  - injection H as <-. exists buffer. reflexivity.
  - destruct (cstring buffer) as [s'|]; [|discriminate]. injection H as <-. destruct (IH s' eq_refl) as (r & ->). exists r. reflexivity.
Qed.

Definition command_head (a n : Z) : list Z := 77 :: print_hex 8 a ++ COMMA :: print_hex 4 n.

Lemma command_head_spec a n : length (command_head a n) = 14%nat /\ Forall (fun c => c <> COLON) (command_head a n).
Proof.
  unfold command_head. split; [cbn [length]; rewrite length_app; cbn [length]; rewrite !print_hex_length; reflexivity|].
  constructor; [discriminate|]. apply Forall_app. split; [|constructor; [discriminate|]];
    apply print_hex_chars; intros d Hd; apply (hexchar_plain d Hd).
Qed.

Lemma mem_write_ok g a bytes : ok (proc g) -> cstring (in_buffer g) = Some (write_command a bytes) -> Forall byte bytes -> (length bytes <= 509)%nat ->
  0 <= a -> a + Z.of_nat (length bytes) <= 2 ^ 32 -> a < 2 ^ 32 -> (forall b, a <= b < a + Z.of_nat (length bytes) -> valid b) ->
  exists p, gdb_mem_write g = Value (OK, set_proc p g) /\ ok p /\
    forall b, mem p b = if (a <=? b) && (b <? a + Z.of_nat (length bytes)) then nth (Z.to_nat (b - a)) bytes 0 else mem (proc g) b.
Proof.
  intros Hok Hc Hb Hlen Ha Hmax Ha2 Hv. set (n := Z.of_nat (length bytes)) in *.
  assert (Es : write_command a bytes = command_head a n ++ COLON :: bytes_text bytes).
  { unfold write_command, command_head. cbn [app]. rewrite <- app_assoc. reflexivity. }
  destruct (command_head_spec a n) as [Hl Hno]. destruct (cstring_split _ _ Hc) as (rest & Eb).
  unfold gdb_mem_write, text_at. rewrite drop_0, Hc. cbn [mbind result_bind].
  unfold write_command. rewrite (scan_command 77 a n); [|lia|lia|reflexivity|discriminate|discriminate].
  change (77 :: print_hex 8 a ++ COMMA :: print_hex 4 (Z.of_nat (length bytes)) ++ COLON :: bytes_text bytes) with (write_command a bytes).
  rewrite Es, (behind_colon_app _ _ Hno), Hl.
  rewrite (uwrap_small 32 (2 * n)) by lia. rewrite (uwrap_small 32 (2 * n + 1 + _)) by lia.
  unfold GDB_BUFFERSIZE. destruct (Z.leb_spec 2048 (2 * n + 1 + Z.of_nat 15)); [lia|].
  replace (Z.to_nat (u32 (2 * n) / 2)) with (length bytes).
  2: { rewrite (uwrap_small 32) by lia. rewrite Z.mul_comm, Z.div_mul by lia. lia. }
  destruct (write_bytes_ok bytes 0 15 a (in_buffer g) rest (proc g) Hok Hb) as (p & E & Hok' & Hm).
  - rewrite Eb, Es. rewrite <- app_assoc. rewrite (drop_app_ge _ _ 15) by lia. rewrite Hl. reflexivity.
  - unfold GDB_BUFFERSIZE. lia.
  - exact Ha.
  - exact Hmax.
  - exact Hv.
  - exists p. rewrite E. split; [reflexivity|]. split; [exact Hok'|exact Hm].
Qed.

Lemma mem_read_ok g a bytes : ok (proc g) -> cstring (in_buffer g) = Some (read_command a (Z.of_nat (length bytes))) -> Forall byte bytes ->
  (length bytes <= 1022)%nat -> 0 <= a < 2 ^ 32 -> a + Z.of_nat (length bytes) <= 2 ^ 32 ->
  (forall b, a <= b < a + Z.of_nat (length bytes) -> valid b /\ mem (proc g) b = nth (Z.to_nat (b - a)) bytes 0) ->
  gdb_mem_read g = Value (bytes_text bytes, set_proc (proc g) g).
Proof.
  intros Hok Hc Hb Hlen Ha Hmax Hv. set (n := Z.of_nat (length bytes)) in *. unfold gdb_mem_read, text_at. rewrite drop_0, Hc. cbn [mbind result_bind].
  unfold read_command. rewrite <- (app_nil_r (print_hex 4 n)). rewrite (scan_command 109 a n []); [|lia|lia|reflexivity|discriminate|discriminate].
  rewrite (uwrap_small 32 (2 * n)) by lia. rewrite (uwrap_small 32) by lia. unfold GDB_BUFFERSIZE.
  destruct (Z.leb_spec 2048 (2 * n + 1)); [lia|]. destruct (Z.leb_spec 2048 (2 * n)); [lia|].
  unfold n at 1. rewrite Nat2Z.id, (read_bytes_ok bytes a (proc g) Hok Hb); try assumption; try lia. reflexivity.
Qed.
End memory.

(** C31. What an "M" packet writes, an "m" packet reads: for up to 509 bytes the
    write stores each byte at its address and changes no other, answers "OK", and
    the read that follows answers with the same digits. *)
Theorem memory_roundtrip {P} `{!Gdb_Interface P} ok valid (mem : P -> Z -> Z) g a bytes buffer :
  gdb_memory ok valid mem -> ok (proc g) -> cstring (in_buffer g) = Some (write_command a bytes) ->
  cstring buffer = Some (read_command a (Z.of_nat (length bytes))) ->
  Forall byte bytes -> (length bytes <= 509)%nat -> 0 <= a < 2 ^ 32 -> a + Z.of_nat (length bytes) <= 2 ^ 32 ->
  (forall b, a <= b < a + Z.of_nat (length bytes) -> valid b) ->
  exists g', gdb_mem_write g = Value (OK, g') /\ ok (proc g') /\
    (forall b, mem (proc g') b = if (a <=? b) && (b <? a + Z.of_nat (length bytes)) then nth (Z.to_nat (b - a)) bytes 0 else mem (proc g) b) /\
    gdb_mem_read (set_in buffer (sd g') g') = Value (bytes_text bytes, set_in buffer (sd g') g').
Proof.
  intros Hl Hok Hw Hr Hb Hlen Ha Hmax Hv.
  destruct (mem_write_ok ok valid mem Hl g a bytes Hok Hw Hb Hlen) as (p & E & Hok' & Hm); try assumption; try lia.
  exists (set_proc p g). split; [exact E|]. split; [exact Hok'|]. split; [exact Hm|].
  rewrite (mem_read_ok ok valid mem Hl (set_in buffer (sd (set_proc p g)) (set_proc p g)) a bytes); try assumption; try lia; [reflexivity|].
  intros b Hbr. split; [apply Hv, Hbr|]. cbn [proc set_in set_proc]. rewrite Hm.
  destruct (Z.leb_spec a b), (Z.ltb_spec b (a + Z.of_nat (length bytes))); try lia. reflexivity.
Qed.
