(* ===== verification/ArmGdb.v ===== *)
(** * The ARM under the GDB stub

    [armv7/src/arm_gdb_funcs.cpp] and the functions of [arm.cpp] that implement
    [AC_GDB_Interface] for the ARM; the target is little endian.  [stop] leaves
    the simulation with [longjmp]. *)
From S2P Require Import Prelude ArmCore ArmFormats ArmMem Gdb.

Section arm.
Context {mem : Type} `{!MemPort mem}.
Notation machine := (core * mem)%type.

Definition result_of {A} (x : flow machine A) : result machine A :=
  match x with Next a => Value a | Annul m => Throw m | Stop st => Stopped st end.

Definition arm_reg_read (reg : Z) (m : machine) : Z :=
  if (0 <=? reg) && (reg <? 15) then bypass_read m.1 reg
  else if reg =? 15 then ac_pc m.1
  else readCPSR m.1.

Definition arm_reg_write (reg value : Z) (m : machine) : machine :=
  on_core (if (0 <=? reg) && (reg <? 15) then bypass_write reg value
           else if reg =? 15 then set_pc value
           else writeCPSR value) m.

Definition arm_mem_read (address : Z) (m : machine) : result machine (Z * machine) :=
  let offset := address mod 4 * 8 in
  '(res, m) ← result_of (MEM_read (Z.shiftl (Z.shiftr address 2) 2) m);
  Value (u8 (Z.shiftr res offset), m).

Definition arm_mem_write (address byte : Z) (m : machine) : result machine machine :=
  result_of (MEM_write_byte address byte m).

#[export] Instance arm_gdb : Gdb_Interface machine := {|
  tgt_endian := false;
  ac_stop _ := Stopped 0;
  nRegs := 17;
  reg_read := arm_reg_read;
  reg_write := arm_reg_write;
  set_ac_pc v := on_core (set_pc v);
  mem_read := arm_mem_read;
  mem_write := arm_mem_write
|}.
End arm.

(** ** Debugging the ARM

    The memory of the ARM is one the stub can write and read back, and what a
    "G" packet does to the status register. *)
From S2P Require Import Prelude DynMem ArmCore ArmFormats ArmData ArmMem ArmIsa ArmMmu ArmCoreOk ArmFormatsOk ArmDataOk ArmStepOk ArmMemOk ArmMmuOk ArmSystemOk Gdb GdbOk.

Section memory.
Context {mem : Type} `{!MemPort mem, !Memory mem}.
Notation machine := (core * mem)%type.

(** The memory is ready, holds bytes, and has the words at and around the
    addresses. *)
Record debuggable (valid : Z -> Prop) (m : machine) : Prop := {
  db_ready : ready m.2;
  db_bytes : forall a, 0 <= view m.2 a < 256;
  db_has : forall a, valid a -> has m.2 a /\ has m.2 (Z.shiftl (Z.shiftr a 2) 2)
}.

Lemma word_byte (f : ArmMmu.bytes) a : (forall q, 0 <= f q < 256) -> u8 (Z.shiftr (fast_read (Z.shiftl (Z.shiftr a 2) 2) f) (a mod 4 * 8)) = f a.
Proof.
  intros Hf. rewrite Z.shiftl_mul_pow2, (Z.shiftr_div_pow2 a) by lia. change (2 ^ 2) with 4. unfold fast_read.
  pose proof (Z.mod_pos_bound a 4 eq_refl) as Hr. pose proof (Z.div_mod a 4 ltac:(lia)) as Ha. set (w := a / 4 * 4) in *.
  assert (E : a = w + a mod 4) by lia. rewrite E at 2. rewrite Z.shiftr_div_pow2 by lia. unfold uwrap.
  pose proof (Hf w) as H0. pose proof (Hf (w + 1)) as H1. pose proof (Hf (w + 2)) as H2. pose proof (Hf (w + 3)) as H3.
  change (2 ^ 8) with 256. change (2 ^ 16) with 65536. change (2 ^ 24) with 16777216.
  assert (a mod 4 = 0 \/ a mod 4 = 1 \/ a mod 4 = 2 \/ a mod 4 = 3) as [R|[R|[R|R]]] by lia; rewrite R; rewrite ?Z.add_0_r;
    revert H0 H1 H2 H3; generalize (f w), (f (w + 1)), (f (w + 2)), (f (w + 3)); intros b0 b1 b2 b3 H0 H1 H2 H3; zlits;
    [change (2 ^ 0) with 1|change (2 ^ 8) with 256|change (2 ^ 16) with 65536|change (2 ^ 24) with 16777216]; clear - H0 H1 H2 H3; Z.div_mod_to_equations; lia.
Qed.

Lemma arm_gdb_memory valid : gdb_memory (P := machine) (debuggable valid) valid (fun m => view m.2).
Proof.
  split.
  - intros a [c s] [Hr Hb Hh] Hv. cbn [mem_read arm_gdb]. unfold arm_mem_read. rewrite law_read by (try apply Hh; assumption).
    cbn [result_of mbind result_bind fst snd] in *. rewrite (word_byte (view s) a Hb). reflexivity.
  - intros a v [c s] [Hr Hb Hh] Hv Hbv. cbn [mem_write arm_gdb]. unfold arm_mem_write.
    destruct (law_write_byte a v c s Hr (proj1 (Hh a Hv))) as (s' & -> & Hr' & Hview & Hhas). exists (c, s'). split; [reflexivity|].
    cbn [fst snd] in *. split.
    + split; cbn [fst snd]; [exact Hr'| |].
      * intros q. rewrite Hview. destruct (q =? a); [apply (uwrap_range 8); lia|apply Hb].
      * intros q Hq. destruct (Hh q Hq). auto.
    + intros q. rewrite Hview. rewrite (uwrap_small 8) by exact Hbv. reflexivity.
Qed.
End memory.

(** ** The other byte order *)

Lemma lor_byte q b k : 0 <= k -> 0 <= b < 256 -> Z.lor (q * 2 ^ (k + 8)) (Z.shiftl b k) = q * 2 ^ (k + 8) + b * 2 ^ k.
Proof.
  intros Hk Hb. rewrite <- Z.lxor_lor, <- Z.add_nocarry_lxor.
  - rewrite Z.shiftl_mul_pow2 by lia. reflexivity.
  - apply Z.bits_inj'. intros i Hi. rewrite Z.land_spec, Z.bits_0. destruct (Z.ltb_spec i (k + 8)).
    + rewrite Z.mul_pow2_bits_low by lia. reflexivity.
    + rewrite Z.shiftl_spec, (testbit_high 8 b) by (try lia; exact Hb). apply Bool.andb_false_r.
  - apply Z.bits_inj'. intros i Hi. rewrite Z.land_spec, Z.bits_0. destruct (Z.ltb_spec i (k + 8)).
    + rewrite Z.mul_pow2_bits_low by lia. reflexivity.
    + rewrite Z.shiftl_spec, (testbit_high 8 b) by (try lia; exact Hb). apply Bool.andb_false_r.
Qed.

Lemma changeendianess_convert x : changeendianess x = convert_endian 4 x false.
Proof.
  rewrite swap4. unfold changeendianess. cbn [fold_left]. zlits. change 0xff with 0xFF.
  change (Z.land (Z.shiftr x 0) 0xFF) with (byte_of x 0). change (Z.land (Z.shiftr x 8) 0xFF) with (byte_of x 1).
  change (Z.land (Z.shiftr x 16) 0xFF) with (byte_of x 2). change (Z.land (Z.shiftr x 24) 0xFF) with (byte_of x 3).
  pose proof (byte_of_byte x 0) as B0. pose proof (byte_of_byte x 1) as B1. pose proof (byte_of_byte x 2) as B2. pose proof (byte_of_byte x 3) as B3.
  revert B0 B1 B2 B3. generalize (byte_of x 0), (byte_of x 1), (byte_of x 2), (byte_of x 3). intros b0 b1 b2 b3 B0 B1 B2 B3.
  change (8 * (3 - 0)) with 24. change (8 * (3 - 1)) with 16. change (8 * (3 - 2)) with 8. change (8 * (3 - 3)) with 0.
  pose proof (lor_byte 0 b0 24 ltac:(lia) B0) as E0. pose proof (lor_byte b0 b1 16 ltac:(lia) B1) as E1.
  pose proof (lor_byte (b0 * 256 + b1) b2 8 ltac:(lia) B2) as E2. pose proof (lor_byte (b0 * 65536 + b1 * 256 + b2) b3 0 ltac:(lia) B3) as E3.
  change (16 + 8) with 24 in E1. change (8 + 8) with 16 in E2. change (0 + 8) with 8 in E3.
  change (2 ^ 24) with 16777216 in *. change (2 ^ 16) with 65536 in *. change (2 ^ 8) with 256 in *. change (2 ^ 0) with 1 in *.
  rewrite Z.mul_0_l in E0. rewrite E0.
  replace (0 + b0 * 16777216) with (b0 * 16777216) by lia. rewrite E1.
  replace (b0 * 16777216 + b1 * 65536) with ((b0 * 256 + b1) * 65536) by lia. rewrite E2.
  replace ((b0 * 256 + b1) * 65536 + b2 * 256) with ((b0 * 65536 + b1 * 256 + b2) * 256) by lia. rewrite E3. lia.
Qed.

Lemma changeendianess_range x : word x -> word (changeendianess x).
Proof. intros H. rewrite changeendianess_convert. apply convert_range. exact H. Qed.

Lemma changeendianess_involutive x : word x -> changeendianess (changeendianess x) = x.
Proof. intros H. rewrite !changeendianess_convert. apply convert_involutive. exact H. Qed.

(** ** The register packet *)

Section registers.
Context {mem : Type} `{!MemPort mem}.
Notation machine := (core * mem)%type.

(** The "G" packet that GDB sends for the seventeen registers, each in the order
    of the target. *)
Definition register_packet (values : list Z) : list Z := 71 :: concat (map (fun v => print_hex 8 (changeendianess v)) values).

Definition write_all (values : list Z) (i : Z) (m : machine) : machine :=
  fst (fold_left (fun '(m, i) v => (arm_reg_write i v m, i + 1)) values (m, i)).

(** ** What the packet does *)

Lemma nth_error_replicate {A} (x : A) n : forall k, (k < n)%nat -> nth_error (replicate n x) k = Some x.
Proof. induction n as [|n IH]; intros [|k] Hk; [lia|lia|reflexivity|]. apply IH. lia. Qed.

Definition register_text (values : list Z) : list Z := concat (map (fun v => print_hex 8 (changeendianess v)) values).

Lemma register_text_length values : length (register_text values) = (8 * length values)%nat.
Proof.
  induction values as [|v values IH]; [reflexivity|]. unfold register_text in *. cbn [map concat length].
  rewrite length_app, print_hex_length, IH. lia.
Qed.

Lemma register_text_plain values : GdbOk.text (register_text values) /\ hd 0 (register_text values) <> 120 /\ hd 0 (register_text values) <> 88.
Proof.
  split.
  - induction values as [|v values IH]; [constructor|]. unfold register_text in *. cbn [map concat]. apply Forall_app.
    split; [|exact IH]. apply print_hex_chars. intros d Hd. apply (hexchar_plain d Hd).
  - destruct values as [|v values]; [split; discriminate|]. unfold register_text. cbn [map concat]. rewrite print_hex_digits.
    pose proof (digits_of_range 8 (changeendianess v)) as Hd. pose proof (digits_of_length 8 (changeendianess v)) as Hl.
    destruct (digits_of 8 _) as [|d ds]; [discriminate|]. inversion Hd as [|? ? H3 _]. cbn. pose proof (hexchar_plain d H3). tauto.
Qed.

(** The registers of the packet are written one after the other. *)
Lemma write_regs_values values : forall i pos aux buffer rest (m : machine) n, Forall (fun v => word v) values ->
  drop pos buffer = register_text values ++ 0 :: rest ->
  write_regs (length values + n) i pos aux buffer m =
  write_regs n (i + Z.of_nat (length values)) (pos + 8 * length values) (match last values with Some v => Some v | None => aux end) buffer
    (write_all values i m).
Proof.
  induction values as [|v values IH]; intros i pos aux buffer rest m n Hw Hd.
  - cbn [length]. rewrite Nat.mul_0_r, !Nat.add_0_r, Z.add_0_r. reflexivity.
  - inversion Hw as [|? ? Hv Hw']. cbn [length Nat.add write_regs]. unfold text_at.
    rewrite Hd, (cstring_app _ rest (proj1 (register_text_plain (v :: values)))). cbn [mbind result_bind].
    change (register_text (v :: values)) with (print_hex 8 (changeendianess v) ++ register_text values).
    destruct (register_text_plain values) as (_ & Hx & HX). pose proof (changeendianess_range v Hv) as Hcv.
    rewrite (scan_print 8 (changeendianess v) 8 (register_text values)); [|lia|lia|unfold hex_number; change (16 ^ Z.of_nat 8) with (2 ^ 32); exact Hcv|exact (proj2 Hcv)|left; reflexivity|exact Hx|exact HX].
    unfold swap_word. cbn [tgt_endian arm_gdb]. rewrite (changeendianess_involutive v Hv).
    rewrite (IH (i + 1) (pos + 8)%nat (Some v) buffer rest _ n Hw').
    + f_equal; try lia. rewrite last_cons. destruct (last values); reflexivity.
    + rewrite <- drop_drop, Hd. change (register_text (v :: values)) with (print_hex 8 (changeendianess v) ++ register_text values).
      rewrite <- app_assoc. rewrite drop_app_length' by (symmetry; apply print_hex_length). reflexivity.
Qed.

(** Behind the text the value is swapped once more for every register. *)
Lemma writeCPSR_twice v w c : writeCPSR v (writeCPSR w c) = writeCPSR v c.
Proof. reflexivity. Qed.

Lemma write_regs_behind n : forall i pos aux buffer (m : machine), 16 <= i ->
  (forall k, (k <= n)%nat -> nth_error buffer (pos + 8 * k) = Some 0) ->
  write_regs (S n) i pos (Some aux) buffer m = Value (on_core (writeCPSR (Nat.iter (S n) changeendianess aux)) m).
Proof.
  induction n as [|n IH]; intros i pos aux buffer m Hi Hz;
    (assert (E : @text_at machine buffer pos = Value []);
     [unfold text_at; specialize (Hz O ltac:(lia)); rewrite Nat.mul_0_r, Nat.add_0_r in Hz; apply nth_error_split in Hz as (l1 & l2 & -> & <-);
      rewrite drop_app_length; reflexivity|]);
    unfold arm_reg_write in *.
  - cbn [write_regs]. rewrite E. cbn. unfold arm_reg_write. destruct (Z.leb_spec 0 i), (Z.ltb_spec i 15), (Z.eqb_spec i 15); try lia. reflexivity.
  - change (write_regs (S (S n)) i pos (Some aux) buffer m) with
      (s ← text_at buffer pos; match (match scan_hex 8 s with Some (v, _) => Some v | None => Some aux end) with
        | None => Bad
        | Some aux => write_regs (S n) (i + 1) (pos + 8) (Some (swap_word aux)) buffer (arm_reg_write i (swap_word aux) m) end).
    rewrite E. cbn [mbind result_bind]. change (scan_hex 8 []) with (@None (Z * list Z)). cbn iota.
    rewrite IH; [|lia|intros k Hk; rewrite <- (Hz (S k)) by lia; f_equal; lia].
    unfold arm_reg_write. destruct (Z.leb_spec 0 i), (Z.ltb_spec i 15), (Z.eqb_spec i 15); try lia.
    unfold swap_word. cbn [tgt_endian arm_gdb]. destruct m as [c s]. unfold on_core. cbn [andb fst snd]. rewrite writeCPSR_twice.
    rewrite !Nat.iter_succ_r. reflexivity.
Qed.

(** The "G" packet GDB sends for the seventeen registers of the ARM, in a
    buffer that is otherwise clear: the general registers and the program counter
    get their values, but the stub goes on to thirty-two registers, and the
    status register is left with its value in the wrong byte order. *)
Theorem register_packet_spoils_cpsr (g : AC_GDB machine) values cpsr k :
  Forall (fun v => word v) values -> word cpsr -> length values = 16%nat -> (112 <= k)%nat ->
  in_buffer g = register_packet (values ++ [cpsr]) ++ replicate (S k) 0 ->
  gdb_reg_write g =
  Value (OK, set_proc (on_core (writeCPSR (changeendianess cpsr)) (write_all values 0 (proc g))) g).
Proof.
  intros Hw Hc Hl Hk Hb. set (all := values ++ [cpsr]) in *.
  assert (Hall : Forall (fun v => word v) all) by (apply Forall_app; auto). assert (Hlen : length all = 17%nat) by (unfold all; rewrite length_app; cbn; lia).
  unfold gdb_reg_write. change 32%nat with (17 + 15)%nat. rewrite <- Hlen.
  rewrite (write_regs_values all 0 1 None (in_buffer g) (replicate k 0) (proc g) 15 Hall) by (rewrite Hb; reflexivity).
  rewrite Hlen. unfold all at 1. rewrite last_snoc. change (0 + Z.of_nat 17) with 17. change (1 + 8 * 17)%nat with 137%nat.
  rewrite write_regs_behind; [|lia|].
  - assert (Ea : write_all all 0 (proc g) = on_core (writeCPSR cpsr) (write_all values 0 (proc g))).
    { unfold write_all, all. rewrite fold_left_app. cbn [fold_left].
      assert (Ei : forall l (m : machine) i, snd (fold_left (fun '(m, i) v => (arm_reg_write i v m, i + 1)) l (m, i)) = i + Z.of_nat (length l)).
      { induction l as [|x l IH]; intros m i; cbn [fold_left]; [cbn; lia|]. rewrite IH. cbn [length]. lia. }
      specialize (Ei values (proc g) 0). destruct (fold_left _ values _) as [m i]. cbn [fst snd] in *. rewrite Hl in Ei. subst i. reflexivity. }
    rewrite Ea. cbn [mbind result_bind]. f_equal. f_equal. f_equal. unfold on_core. cbn [fst snd]. rewrite writeCPSR_twice.
    f_equal. f_equal. rewrite !Nat.iter_succ. cbn [Nat.iter nat_rect]. rewrite !(changeendianess_involutive cpsr Hc). reflexivity.
  - intros j Hj. rewrite Hb. unfold register_packet. fold (register_text all).
    rewrite nth_error_app2; cbn [length]; rewrite register_text_length, Hlen; [|lia]. apply nth_error_replicate. lia.
Qed.
End registers.

(** ** Examples *)

(** The ARM on a bus of memory, and the stub with a text in its buffer. *)
Definition sample_stub (text : list Z) : AC_GDB (core * system ram_module) :=
  MkGdb (new_breakpoints BREAKPOINTS) true false false false (text ++ replicate 200 0) (sample_core USER_MODE, sample_system 0) (MkLine [] []).

Lemma sample_debuggable : debuggable (fun a => 0 <= a < 2 ^ 32 - 3) (sample_core USER_MODE, sample_system 0).
Proof.
  split; cbn [snd].
  - split; [reflexivity|apply sample_physical].
  - apply sample_physical.
  - intros a Ha. split; [apply sample_has, Ha|]. apply sample_has. rewrite Z.shiftl_mul_pow2, Z.shiftr_div_pow2 by lia.
    change (2 ^ 2) with 4. Z.div_mod_to_equations. lia.
Qed.

Lemma register_packet_spoils_cpsr_witness : exists g',
  gdb_reg_write (sample_stub (register_packet (replicate 16 5 ++ [0x10]))) = Value (OK, g').
Proof.
  eexists. apply (register_packet_spoils_cpsr (sample_stub (register_packet (replicate 16 5 ++ [0x10]))) (replicate 16 5) 0x10 199).
  - repeat constructor; lia.
  - lia.
  - reflexivity.
  - lia.
  - reflexivity.
Defined.

Lemma memory_roundtrip_witness : exists g',
  gdb_mem_write (sample_stub (write_command 0x100 [0xEF; 0xBE])) = Value (OK, g') /\
  gdb_mem_read (set_in (read_command 0x100 2 ++ [0]) (sd g') g') = Value (bytes_text [0xEF; 0xBE], set_in (read_command 0x100 2 ++ [0]) (sd g') g').
Proof.
  destruct (memory_roundtrip _ _ _ (sample_stub (write_command 0x100 [0xEF; 0xBE])) 0x100 [0xEF; 0xBE] (read_command 0x100 2 ++ [0])
    (arm_gdb_memory (fun a => 0 <= a < 2 ^ 32 - 3))) as (g' & H1 & _ & _ & H2).
  - exact sample_debuggable.
  - vm_compute. reflexivity.
  - vm_compute. reflexivity.
  - repeat constructor; lia.
  - cbn. lia.
  - lia.
  - cbn. lia.
  - intros b Hb. cbn in Hb. lia.
  - exists g'. split; assumption.
Defined.
