(* ===== verification/AcSim.v ===== *)
(** * The simulator generator: printing, options and the description

    [archc/src/acsim/acsim.c] and [acsim.h]: formatted output, the command line,
    the configuration file, and what the parser leaves for the functions that
    write the files of a simulator.  A format is the C literal with [\q] for the
    escaped quotation mark.  The messages on the terminal are left out. *)
From S2P Require Import Prelude CString DecTypes CoreActions AsmTypes BinUtils.

(** ** Formatted output *)

(** An argument of [fprintf]: a string, a pointer that may be NULL, a number. *)
Inductive arg := Str (s : string) | Ptr (s : option string) | Num (z : Z).
Coercion Str : string >-> arg.
Coercion Num : Z >-> arg.

Definition pad_right (n : nat) (s : string) : string :=
  s +:+ String.concat "" (repeat " " (n - String.length s)).

(** ["%s"] with the flags ["-<n>"], ["%d"], ["%ld"], ["%u"] and ["%x"]. *)
Definition convert (flags : string) (c : ascii) (a : arg) : string :=
  match a with
  | Str s =>
      match flags with
      | String c' n => if is_char "-" c' then pad_right (Z.to_nat (fst (strtol 10 n))) s else s
      | EmptyString => s
      end
  | Ptr s => match s with Some s => s | None => "(null)" end
  | Num z => if is_char "x" c then fmt_x false (u32 z) else if is_char "u" c then fmt_d (u32 z) else fmt_d z
  end.

Definition escape (c : ascii) : string :=
  if is_char "n" c then nl else if is_char "t" c then tab else if is_char "q" c then quote
  else String c EmptyString.

(** Plain text, behind a backslash, or behind a percent sign and flags. *)
Inductive mode := Plain | Escaped | Spec (flags : string).

Fixpoint out_from (md : mode) (f : string) (args : list arg) : string :=
  match f with
  | EmptyString => EmptyString
  | String c f =>
      match md with
      | Plain =>
          if is_char "\" c then out_from Escaped f args
          else if is_char "%" c then out_from (Spec EmptyString) f args
          else String c (out_from Plain f args)
      | Escaped => escape c +:+ out_from Plain f args
      | Spec flags =>
          if is_char "%" c then String c (out_from Plain f args)
          else if is_char "s" c || is_char "d" c || is_char "u" c || is_char "x" c then
            match args with
            | a :: args => convert flags c a +:+ out_from Plain f args
            | [] => out_from Plain f []
            end
          else out_from (Spec (flags +:+ String c EmptyString)) f args
      end
  end.

(** [fprintf(output, f, ...)]. *)
Definition out (f : string) (args : list arg) : string := out_from Plain f args.

Notation "f %: x , .. , y" := (out f (cons (x : arg) .. (cons (y : arg) nil) ..)) (at level 70, x at level 69, y at level 69).

(** [fprintf(output, f)]. *)
Definition lit (f : string) : string := out f [].

(** The text of a sequence of statements. *)
Fixpoint cat (l : list string) : string :=
  match l with [] => EmptyString | s :: l => s +:+ cat l end.

Definition is_some {A} (o : option A) : bool := match o with Some _ => true | None => false end.

Definition when (b : bool) (s : string) : string := if b then s else EmptyString.

(** A loop over a list; the function is told whether another element follows. *)
Fixpoint each {A} (f : A -> bool -> string) (l : list A) : string :=
  match l with
  | [] => EmptyString
  | x :: l => f x (match l with [] => false | _ => true end) +:+ each f l
  end.

(** The same with the number of the element. *)
Fixpoint eachi {A} (f : Z -> A -> bool -> string) (i : Z) (l : list A) : string :=
  match l with
  | [] => EmptyString
  | x :: l => f i x (match l with [] => false | _ => true end) +:+ eachi f (i + 1) l
  end.

(** [INDENT[n]]; the array has eight entries. *)
Definition INDENT (n : nat) : string := String.concat "" (repeat "  " n).

Definition COMMENT (i f : string) (args : list arg) : string := cat ["%s//!" %: i; out f args; nl].
Definition COMMENT_MAKE (f : string) (args : list arg) : string := cat ["# "; out f args; nl].

Definition print_comment (description : string) : string := cat [
  lit "/******************************************************\n";
  " * %-50s *\n" %: description;
  lit " * This file is automatically generated by ArchC      *\n";
  lit " * WITHOUT WARRANTY OF ANY KIND, either express       *\n";
  lit " * or implied.                                        *\n";
  lit " * For more information on ArchC, please visit:       *\n";
  lit " * http://www.archc.org                               *\n";
  lit " *                                                    *\n";
  lit " * The ArchC Team                                     *\n";
  lit " * Computer Systems Laboratory (LSC)                  *\n";
  lit " * IC-UNICAMP                                         *\n";
  lit " * http://www.lsc.ic.unicamp.br                       *\n";
  lit " ******************************************************/\n";
  lit " \n\n"].

(** ** The command line *)

(** The flags, and [ACOptions], the text of the options given. *)
Class options := {
  ACABIFlag : bool;
  ACDebugFlag : bool;
  ACDecCacheFlag : bool;
  ACDelayFlag : bool;
  ACDDecoderFlag : bool;
  ACStatsFlag : bool;
  ACVerboseFlag : bool;
  ACGDBIntegrationFlag : bool;
  ACWaitFlag : bool;
  ACargHandleParamFlag : bool;
  ACOptions : string;
  arch_filename : string
}.

Definition default_options (file : string) : options := Build_options false false true false false false false false true true "" file.

Inductive cmd_option := OPABI | OPDebug | OPDelay | OPDDecoder | OPHelp | OPDecCache | OPStats | OPVerbose | OPVersion
  | OPGDBIntegration | OPWait | OPNoHandleParam.

(** [option_map]: the long and the short name of each option. *)
Definition option_map : list (cmd_option * string * string) := [
  (OPABI, "--abi-included", "-abi"); (OPDebug, "--debug", "-g"); (OPDelay, "--delay", "-dy");
  (OPDDecoder, "--dumpdecoder", "-dd"); (OPHelp, "--help", "-h"); (OPDecCache, "--no-dec-cache", "-ndc");
  (OPStats, "--stats", "-s"); (OPVerbose, "--verbose", "-vb"); (OPVersion, "--version", "-vrs");
  (OPGDBIntegration, "--gdb-integration", "-gdb"); (OPWait, "--no-wait", "-nw"); (OPNoHandleParam, "--nohandle-param", "-np")].

Definition find_option (arg : string) : option cmd_option :=
  (fun '(k, _, _) => k) <$> list_first (fun '(_, name, equivalent) => streq arg name || streq arg equivalent) option_map.

(** The [switch] on the option found. *)
Definition apply_option (k : cmd_option) (arg : string) (o : options) : options :=
  let text := ACOptions +:+ ("%s " %: arg) in
  let '(Build_options abi debug cache delay dump stats verbose gdb wait handle opts file) := o in
  match k with
  | OPABI => Build_options true debug cache delay dump stats verbose gdb wait handle text file
  | OPDebug => Build_options abi true cache delay dump stats verbose gdb wait handle text file
  | OPDelay => Build_options abi debug cache true dump stats verbose gdb wait handle text file
  | OPDDecoder => Build_options abi debug cache delay true stats verbose gdb wait handle text file
  | OPDecCache => Build_options abi debug false delay dump stats verbose gdb wait handle text file
  | OPStats => Build_options abi debug cache delay dump true verbose gdb wait handle text file
  | OPVerbose => Build_options abi debug cache delay dump stats true gdb wait handle text file
  | OPGDBIntegration => Build_options abi debug cache delay dump stats verbose true wait handle text file
  | OPWait => Build_options abi debug cache delay dump stats verbose gdb false handle text file
  | OPNoHandleParam => Build_options abi debug cache delay dump stats verbose gdb wait false opts file
  | OPHelp | OPVersion => o
  end.

(** The loop over the arguments behind the file name: one that is no option
    stays at the front, and the test behind the loop finds it. *)
Fixpoint handle_options (args : list string) (o : options) : exec options :=
  match args with
  | [] => Ret o
  | arg :: args =>
      match find_option arg with
      | Some k => handle_options args (apply_option k arg o)
      | None => Exit ("Invalid argument %s.\n" %: arg)
      end
  end.

Inductive command := ShowHelp | ShowVersion | Generate (o : options).

(** The command line, up to the reading of the description; [loads] tells
    whether [acppLoad] finds the file. *)
Definition command_line (loads : string -> bool) (argv : list string) : exec command :=
  match argv with
  | [] => Exit (lit "No input file provided.\n")
  | arg :: args =>
      if streq arg "--help" || streq arg "-h" then Ret ShowHelp
      else if streq arg "--version" || streq arg "-vrs" then Ret ShowVersion
      else if loads arg then Generate <$> handle_options args (default_options arg)
      else Exit ("Invalid input file: %s\n" %: arg)
  end.

(** ** The configuration file *)

(** NULL until the file sets them. *)
Record configuration := MkConf {
  SYSTEMC_PATH : option string;
  TLM_PATH : option string;
  TARGET_ARCH : option string;
  CC_PATH : option string;
  OPT_FLAGS : option string;
  DEBUG_FLAGS : option string;
  OTHER_FLAGS : option string
}.

Definition CONF_MAX_LINE : nat := 256.

(** [fgets]: up to 255 characters, ending behind a line feed. *)
Fixpoint fgets (n : nat) (s : string) : string * string :=
  match n, s with
  | S n, String c s =>
      if cc c =? 10 then (String c EmptyString, s)
      else let '(line, s) := fgets n s in (String c line, s)
  | _, _ => (EmptyString, s)
  end.

Fixpoint lines_of (fuel : nat) (s : string) : list string :=
  match fuel, s with
  | S fuel, String _ _ => let '(line, s) := fgets (CONF_MAX_LINE - 1) s in line :: lines_of fuel s
  | _, _ => []
  end.

(** [sscanf(line, "%s", var)]. *)
Fixpoint word_of (s : string) : string :=
  match s with
  | String c s => if isspace c then EmptyString else String c (word_of s)
  | EmptyString => EmptyString
  end.

(** [strchr(line, '=') + 1]. *)
Fixpoint behind_equals (s : string) : option string :=
  match s with
  | String c s => if is_char "=" c then Some s else behind_equals s
  | EmptyString => None
  end.

Definition set_variable (var value : string) (c : configuration) : exec configuration :=
  let c := if streq var "TLM_PATH" then MkConf (SYSTEMC_PATH c) (Some value) (TARGET_ARCH c) (CC_PATH c) (OPT_FLAGS c) (DEBUG_FLAGS c) (OTHER_FLAGS c) else c in
  let '(MkConf systemc tlm target cc_path opt debug other) := c in
  if streq var "SYSTEMC_PATH" then
    if (String.length value <=? 2)%nat
    then Exit (lit "Please configure a SystemC path running install.sh script in ArchC directory.\n")
    else Ret (MkConf (Some value) tlm target cc_path opt debug other)
  else if streq var "CC" then Ret (MkConf systemc tlm target (Some value) opt debug other)
  else if streq var "OPT" then Ret (MkConf systemc tlm target cc_path (Some value) debug other)
  else if streq var "DEBUG" then Ret (MkConf systemc tlm target cc_path opt (Some value) other)
  else if streq var "OTHER" then Ret (MkConf systemc tlm target cc_path opt debug (Some value))
  else if streq var "TARGET_ARCH" then Ret (MkConf systemc tlm (Some value) cc_path opt debug other)
  else Ret c.

Fixpoint read_lines (lines : list string) (c : configuration) : exec configuration :=
  match lines with
  | [] => Ret c
  | line :: lines =>
      let first := match line with String x _ => cc x | EmptyString => 0 end in
      if (first =? 35) || (first =? 10) then read_lines lines c
      else
        value ← of_option (behind_equals line);
        c ← set_variable (word_of (skip_spaces line)) value c;
        read_lines lines c
  end.

(** [file] gives the contents of a file that can be opened. *)
Definition ReadConfFile (SYSCONFDIR : string) (HOME : option string) (file : string -> option string) : exec configuration :=
  home ← of_option HOME;
  match (match file (home +:+ "/.archc/archc.conf") with Some s => Some s | None => file (SYSCONFDIR +:+ "/archc.conf") end) with
  | None => Exit (lit "Could not open archc.conf configuration file.\n")
  | Some s => read_lines (lines_of (String.length s) s) (MkConf None None None None None None None)
  end.

(** ** The description *)

(** A register with a format has a class of its own. *)
Definition formatted (pstorage : ac_sto_list) : bool :=
  bool_decide (sto_type pstorage = REG) && is_some (sto_format pstorage).

(** What the functions that write files read: the names and sizes the parser
    set, and the lists as [CreateDecoder] leaves them. *)
Class model := {
  project_name : string;
  upper_project_name : string;
  helper_contents : option string;
  wordsize : Z;
  fetchsize : Z;
  ac_match_endian : Z;
  ac_tgt_endian : Z;
  HaveFormattedRegs : bool;
  HaveMemHier : bool;
  HaveTLMPorts : bool;
  HaveTLMIntrPorts : bool;
  HaveMultiCycleIns : bool;
  HaveCycleRange : bool;
  format_ins_list : list ac_dec_format;
  format_reg_list : list ac_dec_format;
  common_instr_field_list : list ac_dec_field;
  instr_list : list ac_dec_instr;
  group_list : list ac_grp_list;
  storage_list : list ac_sto_list;
  tlm_intr_port_list : list ac_sto_list;
  fetch_device : option nat;
  decoder_nFields : Z;
  instr_num : Z;
  format_num : Z;
  largest_format_size : Z
}.

(** The target is little endian: bits count from the other end of the word. *)
Definition invert_field (size : Z) (field : ac_dec_field) : ac_dec_field :=
  MkField (f_name field) (f_size field) (size - 2 - f_first_bit field + f_size field) (f_id field) (f_val field) (f_sign field).

Definition invert_fields (formats : list ac_dec_format) : list ac_dec_format :=
  map (fun format => set_fmt_fields (map (invert_field (fmt_size format)) (fmt_fields format)) format) formats.

(** The format of each instruction; a loop that finds none leaves a NULL that
    is dereferenced. *)
Definition format_of `{!model} (pinstr : ac_dec_instr) : exec ac_dec_format :=
  of_option (list_first (fun pformat => streq (i_format pinstr) (fmt_name pformat)) format_ins_list).

Fixpoint with_formats `{!model} (l : list ac_dec_instr) : exec (list (ac_dec_instr * ac_dec_format)) :=
  match l with
  | [] => Ret []
  | pinstr :: l => pformat ← format_of pinstr; l ← with_formats l; Ret ((pinstr, pformat) :: l)
  end.

(** Parameters of a method: the fields of a format. *)
Definition parameters (fields : list ac_dec_field) : string :=
  each (fun pfield more => cat [
    if negb (f_sign pfield =? 0) then "int %s" %: f_name pfield else "unsigned int %s" %: f_name pfield;
    when more (lit ", ")]) fields.
