(* ===== verification/AcSimRes.v ===== *)
(** * The simulator generator: resources and parameters

    The files [<arch>_arch.H], [<arch>_arch_ref.H], [<arch>_arch_ref.cpp],
    [<arch>_parms.H] and [<arch>_arch.cpp] of [archc/src/acsim/acsim.c]: the
    storage devices of a model, references to them, the types and sizes of its
    words, and the choice of the devices that are fetched from and loaded. *)
From S2P Require Import Prelude CString DecTypes CoreActions AsmTypes BinUtils AcSim.

Section resources.
Context `{!options} `{!model}.

(** ** The resources *)

(** The members of a storage device. *)
Definition arch_member (pstorage : ac_sto_list) : string :=
  match sto_type pstorage with
  | REG =>
    if is_some (sto_format pstorage) then "%s%s_fmt_%s %s;\n" %: INDENT 1, project_name, sto_name pstorage, sto_name pstorage
    else
      match u32 (sto_width pstorage) with
      | 0 => "%sac_reg<%s_parms::ac_word> %s;\n" %: INDENT 1, project_name, sto_name pstorage
      | 1 => "%sac_reg<bool> %s;\n" %: INDENT 1, sto_name pstorage
      | 8 => "%sac_reg<unsigned char> %s;\n" %: INDENT 1, sto_name pstorage
      | 16 => "%sac_reg<unsigned short> %s;\n" %: INDENT 1, sto_name pstorage
      | 32 => "%sac_reg<unsigned long> %s;\n" %: INDENT 1, sto_name pstorage
      | 64 => "%sac_reg<unsigned long long> %s;\n" %: INDENT 1, sto_name pstorage
      | _ => EmptyString
      end
  | REGBANK =>
    match u32 (sto_width pstorage) with
    | 0 => "%sac_regbank<%d, %s_parms::ac_word, %s_parms::ac_Dword> %s;\n" %: INDENT 1, sto_size pstorage, project_name, project_name, sto_name pstorage
    | 8 => "%sac_regbank<%d, unsigned char, unsigned char> %s;\n" %: INDENT 1, sto_size pstorage, sto_name pstorage
    | 16 => "%sac_regbank<%d, unsigned short, unsigned long> %s;\n" %: INDENT 1, sto_size pstorage, sto_name pstorage
    | 32 => "%sac_regbank<%d, unsigned long, unsigned long long> %s;\n" %: INDENT 1, sto_size pstorage, sto_name pstorage
    | 64 => "%sac_regbank<%d, unsigned long long, unsigned long> %s;\n" %: INDENT 1, sto_size pstorage, sto_name pstorage
    | _ => EmptyString
    end
  | CACHE | ICACHE | DCACHE =>
    if negb HaveMemHier then cat [
      "%sac_storage %s_stg;\n" %: INDENT 1, sto_name pstorage;
      "%sac_memport<%s_parms::ac_word, %s_parms::ac_Hword> %s;\n" %: INDENT 1, project_name, project_name, sto_name pstorage]
    else "%sac_cache %s;\n" %: INDENT 1, sto_name pstorage
  | MEM =>
    if negb HaveMemHier then cat [
      "%sac_storage %s_stg;\n" %: INDENT 1, sto_name pstorage;
      "%sac_memport<%s_parms::ac_word, %s_parms::ac_Hword> %s;\n" %: INDENT 1, project_name, project_name, sto_name pstorage]
    else "%sac_mem %s;\n" %: INDENT 1, sto_name pstorage
  | TLM_PORT => cat [
    "%sac_tlm_port %s_port;\n" %: INDENT 1, sto_name pstorage;
    "%sac_memport<%s_parms::ac_word, %s_parms::ac_Hword> %s;\n" %: INDENT 1, project_name, project_name, sto_name pstorage]
  | _ => cat [
    "%sac_storage %s_stg;\n" %: INDENT 1, sto_name pstorage;
    "%sac_memport<%s_parms::ac_word, %s_parms::ac_Hword> %s;\n" %: INDENT 1, project_name, project_name, sto_name pstorage]
  end.

Definition CreateArchHeader : string := cat [
  print_comment "ArchC Resources header file.";
  "#ifndef  %s_ARCH_H\n" %: upper_project_name;
  "#define  %s_ARCH_H\n\n" %: upper_project_name;
  "#include  \q%s_parms.H\q\n" %: project_name;
  lit "#include  \qac_arch_dec_if.H\q\n";
  lit "#include  \qac_storage.H\q\n";
  lit "#include  \qac_memport.H\q\n";
  lit "#include  \qac_regbank.H\q\n";
  lit "#include  \qac_reg.H\q\n";
  when HaveTLMPorts (lit "#include  \qac_tlm_port.H\q\n");
  when HaveTLMIntrPorts (lit "#include  \qac_tlm_intr_port.H\q\n");
  when HaveFormattedRegs ("#include  \q%s_fmt_regs.H\q\n" %: project_name);
  lit " \n";
  when ACGDBIntegrationFlag (cat [
    lit "// AC_GDB template class forward declaration\n";
    lit "template <typename ac_word> class AC_GDB;\n\n"]);
  COMMENT (INDENT 0) "ArchC class for model-specific architectural resources.\n" [];
  "class %s_arch : public ac_arch_dec_if<%s_parms::ac_word, %s_parms::ac_Hword> {\n" %: project_name, project_name, project_name;
  lit "public:\n";
  lit " \n";
  COMMENT (INDENT 1) "Program Counter." [];
  "%sac_reg<unsigned> ac_pc;\n\n" %: INDENT 1;
  COMMENT (INDENT 1) "Storage Devices." [];
  each (fun pstorage _ => arch_member pstorage) storage_list;
  lit "\n\n";
  COMMENT (INDENT 1) "Constructor." [];
  "%sexplicit %s_arch();\n\n" %: INDENT 1, project_name;
  COMMENT (INDENT 1) "Module initialization method." [];
  "%svirtual void init(int ac, char* av[]) = 0;\n\n" %: INDENT 1;
  COMMENT (INDENT 1) "Module finalization method." [];
  "%svirtual void stop(int status = 0) = 0;\n\n" %: INDENT 1;
  when ACGDBIntegrationFlag (cat [
    COMMENT (INDENT 1) "GDB stub access virtual method declaration." [];
    "%svirtual AC_GDB<%s_parms::ac_word>* get_gdbstub() = 0;\n\n" %: INDENT 1, project_name]);
  COMMENT (INDENT 1) "Virtual destructor declaration." [];
  "%svirtual ~%s_arch() {};\n\n" %: INDENT 1, project_name;
  lit "};\n\n";
  "#endif  //_%s_ARCH_H\n" %: upper_project_name].

(** ** References to the resources *)

Definition arch_ref_member (pstorage : ac_sto_list) : string :=
  match sto_type pstorage with
  | REG =>
    if is_some (sto_format pstorage) then "%s%s_fmt_%s& %s;\n" %: INDENT 1, project_name, sto_name pstorage, sto_name pstorage
    else
      match u32 (sto_width pstorage) with
      | 0 => "%sac_reg<%s_parms::ac_word>& %s;\n" %: INDENT 1, project_name, sto_name pstorage
      | 1 => "%sac_reg<bool>& %s;\n" %: INDENT 1, sto_name pstorage
      | 8 => "%sac_reg<unsigned char>& %s;\n" %: INDENT 1, sto_name pstorage
      | 16 => "%sac_reg<unsigned short>& %s;\n" %: INDENT 1, sto_name pstorage
      | 32 => "%sac_reg<unsigned long>& %s;\n" %: INDENT 1, sto_name pstorage
      | 64 => "%sac_reg<unsigned long long>& %s;\n" %: INDENT 1, sto_name pstorage
      | _ => EmptyString
      end
  | REGBANK =>
    match u32 (sto_width pstorage) with
    | 0 => "%sac_regbank<%d, %s_parms::ac_word, %s_parms::ac_Dword>& %s;\n" %: INDENT 1, sto_size pstorage, project_name, project_name, sto_name pstorage
    | 8 => "%sac_regbank<%d, unsigned char, unsigned char>& %s;\n" %: INDENT 1, sto_size pstorage, sto_name pstorage
    | 16 => "%sac_regbank<%d, unsigned short, unsigned long>& %s;\n" %: INDENT 1, sto_size pstorage, sto_name pstorage
    | 32 => "%sac_regbank<%d, unsigned long, unsigned long long>& %s;\n" %: INDENT 1, sto_size pstorage, sto_name pstorage
    | 64 => "%sac_regbank<%d, unsigned long long, unsigned long long>& %s;\n" %: INDENT 1, sto_size pstorage, sto_name pstorage
    | _ => EmptyString
    end
  | CACHE | ICACHE | DCACHE =>
    if negb HaveMemHier then "%sac_memport<%s_parms::ac_word, %s_parms::ac_Hword>& %s;\n" %: INDENT 1, project_name, project_name, sto_name pstorage
    else "%sac_cache& %s;\n" %: INDENT 1, sto_name pstorage
  | MEM =>
    if negb HaveMemHier then "%sac_memport<%s_parms::ac_word, %s_parms::ac_Hword>& %s;\n" %: INDENT 1, project_name, project_name, sto_name pstorage
    else "%sac_mem& %s;\n" %: INDENT 1, sto_name pstorage
  | _ => "%sac_memport<%s_parms::ac_word, %s_parms::ac_Hword>& %s;\n" %: INDENT 1, project_name, project_name, sto_name pstorage
  end.

Definition CreateArchRefHeader : string := cat [
  print_comment "ArchC Resources header file.";
  "#ifndef  _%s_ARCH_REF_H\n" %: upper_project_name;
  "#define  _%s_ARCH_REF_H\n\n" %: upper_project_name;
  "#include  \q%s_parms.H\q\n" %: project_name;
  lit "#include  \qac_arch_ref.H\q\n";
  lit "#include  \qac_memport.H\q\n";
  lit "#include  \qac_reg.H\q\n";
  lit "#include  \qac_regbank.H\q\n";
  when HaveTLMIntrPorts (lit "#include  \qac_tlm_intr_port.H\q\n");
  lit "\n";
  COMMENT (INDENT 0) "Forward class declaration, needed to compile." [];
  "class %s_arch;\n\n" %: project_name;
  COMMENT (INDENT 0) "ArchC class for model-specific architectural resources." [];
  "class %s_arch_ref : public ac_arch_ref<%s_parms::ac_word, %s_parms::ac_Hword> {\n" %: project_name, project_name, project_name;
  lit "public:\n";
  lit " \n";
  COMMENT (INDENT 1) "Program Counter." [];
  "%sac_reg<unsigned>& ac_pc;\n\n" %: INDENT 1;
  COMMENT (INDENT 1) "Storage Devices." [];
  each (fun pstorage _ => arch_ref_member pstorage) storage_list;
  lit "\n";
  COMMENT (INDENT 1) "Constructor." [];
  "%s %s_arch_ref(%s_arch& arch);\n" %: INDENT 1, project_name, project_name;
  lit "\n";
  lit "};\n\n";
  "#endif  //_%s_ARCH_REF_H\n" %: upper_project_name].

Definition CreateArchRefImpl : string := cat [
  print_comment "ArchC Resources implementation file.";
  "#include  \q%s_arch.H\q\n" %: project_name;
  "#include  \q%s_arch_ref.H\q\n\n" %: project_name;
  COMMENT (INDENT 0) "/Default constructor." [];
  "%s_arch_ref::%s_arch_ref(%s_arch& arch) : ac_arch_ref<%s_parms::ac_word, %s_parms::ac_Hword>(arch),\n" %: project_name, project_name, project_name, project_name, project_name;
  "%sac_pc(arch.ac_pc),\n" %: INDENT 1;
  each (fun pstorage more => cat [
    "%s%s(arch.%s)" %: INDENT 1, sto_name pstorage, sto_name pstorage;
    when more (lit ", ")]) storage_list;
  lit " {}\n\n"].

(** ** Parameters *)

Definition word_types : string :=
  match wordsize with
  | 8 => cat [
    lit "typedef  unsigned char ac_word; \t //!< Unsigned word.\n";
    lit "typedef  unsigned char ac_Uword; \t //!< Unsigned word.\n";
    lit "typedef  char ac_Sword; \t //!< Signed word.\n";
    lit "typedef  unsigned char ac_Hword; \t //!< Signed half word.\n";
    lit "typedef  unsigned char ac_UHword; \t //!< Unsigned half word.\n";
    lit "typedef  char ac_SHword; \t //!< Signed half word.\n";
    lit "typedef  unsigned short ac_Dword; \t //!< Signed double word.\n";
    lit "typedef  unsigned short ac_UDword; \t //!< Unsigned double word.\n";
    lit "typedef  short ac_SDword; \t //!< Signed double word.\n"]
  | 16 => cat [
    lit "typedef  unsigned short int ac_word; \t //!< Unsigned word.\n";
    lit "typedef  unsigned short int ac_Uword; \t //!< Unsigned word.\n";
    lit "typedef  short int ac_Sword; \t //!< Signed word.\n";
    lit "typedef  unsigned char ac_Hword; \t //!< Signed half word.\n";
    lit "typedef  unsigned char ac_UHword; \t //!< Unsigned half word.\n";
    lit "typedef  char ac_SHword; \t //!< Signed half word.\n";
    lit "typedef  unsigned int ac_Dword; \t //!< Signed double word.\n";
    lit "typedef  unsigned int ac_UDword; \t //!< Unsigned double word.\n";
    lit "typedef  int ac_SDword; \t //!< Signed double word.\n"]
  | 32 => cat [
    lit "typedef  unsigned int ac_word; \t //!< Unsigned word.\n";
    lit "typedef  unsigned int ac_Uword; \t //!< Unsigned word.\n";
    lit "typedef  int ac_Sword; \t //!< Signed word.\n";
    lit "typedef  short int ac_SHword; \t //!< Signed half word.\n";
    lit "typedef  unsigned short int  ac_UHword; \t //!< Unsigned half word.\n";
    lit "typedef  unsigned short int  ac_Hword; \t //!< Unsigned half word.\n";
    lit "typedef  unsigned long long ac_Dword; \t //!< Signed double word.\n";
    lit "typedef  unsigned long long ac_UDword; \t //!< Unsigned double word.\n";
    lit "typedef  long long ac_SDword; \t //!< Signed double word.\n"]
  | 64 => cat [
    lit "typedef  unsigned long long ac_word; \t //!< Unsigned word.\n";
    lit "typedef  unsigned long long ac_Uword; \t //!< Unsigned word.\n";
    lit "typedef  long long ac_Sword; \t //!< Signed word.\n";
    lit "typedef  int ac_SHword; \t //!< Signed half word.\n";
    lit "typedef  unsigned int  ac_UHword; \t //!< Unsigned half word.\n";
    lit "typedef  unsigned int  ac_UHword; \t //!< Unsigned half word.\n"]
  | _ => EmptyString
  end.

Definition fetch_type : string :=
  match fetchsize with
  | 8 => lit "typedef  unsigned char ac_fetch; \t //!< Unsigned word.\n"
  | 16 => lit "typedef  unsigned short int ac_fetch; \t //!< Unsigned word.\n"
  | 32 => lit "typedef  unsigned int ac_fetch; \t //!< Unsigned word.\n"
  | 64 => lit "typedef  unsigned long long ac_fetch; \t //!< Unsigned word.\n"
  | _ => EmptyString
  end.

Definition constants (declist_num : Z) (load_device : ac_sto_list) : string := cat [
  "\nstatic const unsigned int AC_DEC_FIELD_NUMBER = %d; \t //!< Number of Fields used by decoder.\n" %: decoder_nFields;
  "static const unsigned int AC_DEC_INSTR_NUMBER = %d; \t //!< Number of Instructions declared.\n" %: instr_num;
  "static const unsigned int AC_DEC_FORMAT_NUMBER = %d; \t //!< Number of Formats declared.\n" %: format_num;
  "static const unsigned int AC_DEC_LIST_NUMBER = %d; \t //!< Number of decodification lists used by decoder.\n" %: declist_num;
  "static const unsigned int AC_MAX_BUFFER = %d; \t //!< This is the size needed by decoder buffer. It is equal to the biggest instruction size.\n" %: Z.quot largest_format_size 8;
  "static const unsigned int AC_WORDSIZE = %d; \t //!< Architecture wordsize in bits.\n" %: wordsize;
  "static const unsigned int AC_FETCHSIZE = %d; \t //!< Architecture fetchsize in bits.\n" %: fetchsize;
  "static const unsigned int AC_MATCH_ENDIAN = %d; \t //!< If the simulated arch match the endian with host.\n" %: ac_match_endian;
  "static const unsigned int AC_PROC_ENDIAN = %d; \t //!< The simulated arch is big endian?\n" %: ac_tgt_endian;
  "static const unsigned int AC_RAMSIZE = %uU; \t //!< Architecture RAM size in bytes (storage %s).\n" %: sto_size load_device, sto_name load_device;
  "static const unsigned int AC_RAM_END = %uU; \t //!< Architecture end of RAM (storage %s).\n" %: sto_size load_device, sto_name load_device;
  when ACGDBIntegrationFlag (lit "static const unsigned int GDB_PORT_NUM = 5000; \t //!< GDB port number.\n")].

Definition CreateParmHeader (declist_num : Z) (load_device : ac_sto_list) : string := cat [
  print_comment "ArchC Parameters header file.";
  "#ifndef  _%s_PARMS_H\n" %: upper_project_name;
  "#define  _%s_PARMS_H\n\n" %: upper_project_name;
  when ACVerboseFlag (cat [
    lit "#define  AC_UPDATE_LOG \t //!< Update log generation turned on.\n";
    lit "#define  AC_VERBOSE \t //!< Indicates Verbose mode. Where update logs are dumped on screen.\n"]);
  when ACDebugFlag (lit "#define  AC_DEBUG \t //!< Indicates that debug option is turned on.\n\n");
  when ACDelayFlag (lit "#define  AC_DELAY \t //!< Indicates that delay option is turned on.\n\n");
  when ACStatsFlag (lit "#define  AC_STATS \t //!< Indicates that statistics collection is turned on.\n");
  when HaveMemHier (lit "#define  AC_MEM_HIERARCHY \t //!< Indicates that a memory hierarchy was declared.\n\n");
  when HaveCycleRange (lit "#define  AC_CYCLE_RANGE \t //!< Indicates that cycle range for instructions were declared.\n\n");
  "namespace %s_parms {\n\n" %: project_name;
  constants declist_num load_device;
  lit "\n\n";
  COMMENT (INDENT 0) "Word type definitions." [];
  word_types;
  lit "typedef  char ac_byte; \t //!< Signed byte word.\n";
  lit "typedef  unsigned char ac_Ubyte; \t //!< Unsigned byte word.\n";
  lit "\n\n";
  COMMENT (INDENT 0) "Fetch type definition." [];
  fetch_type;
  lit "\n\n";
  lit "enum ac_stage_list {";
  lit "ST0";
  lit "};\n\n";
  lit "}\n\n";
  COMMENT (INDENT 0) "Create a compiler error if delay assignment is used without the -dy option" [];
  lit "#ifndef AC_DELAY\n";
  "extern %s_parms::ac_word ArchC_ERROR___PLEASE_USE_OPTION_DELAY_WHEN_CREATING_SIMULATOR___;\n" %: project_name;
  lit "#define delay(a,b) ArchC_ERROR___PLEASE_USE_OPTION_DELAY_WHEN_CREATING_SIMULATOR___\n";
  lit "#endif\n\n\n";
  "#endif  //_%s_PARMS_H\n" %: upper_project_name].

(** ** The parameters of a cache *)

Definition WRITE_THROUGH : Z := 0x01.
Definition WRITE_BACK : Z := 0x02.
Definition WRITE_AROUND : Z := 0x20.
Definition WRITE_ALLOCATE : Z := 0x10.

(** The local variables of [EmitCacheDeclaration]; a buffer that has not been
    written is [None]. *)
Record cache_args := MkCacheArgs {
  parm2 : option string;
  parm3 : option string;
  parm4 : option string;
  parm5 : option string;
  wp : Z;
  is_dm : bool;
  is_fully : bool
}.

Definition set_wp (w : Z) (c : cache_args) : cache_args :=
  MkCacheArgs (parm2 c) (parm3 c) (parm4 c) (parm5 c) w (is_dm c) (is_fully c).
Definition set_parm5 (s : string) (c : cache_args) : cache_args :=
  MkCacheArgs (parm2 c) (parm3 c) (parm4 c) (Some s) (wp c) (is_dm c) (is_fully c).

Definition bad_parameter {A} (name : string) : exec A := Exit ("Invalid parameter in cache declaration: %s\n" %: name).

(** [strcmp] with two spellings. *)
Definition spelled (s a b : string) : bool := streq s a || streq s b.

Fixpoint has_char (x : ascii) (s : string) : bool :=
  match s with String c s => is_char x c || has_char x s | EmptyString => false end.

Definition associativity (name : string) (p : ac_cache_parms) (c : cache_args) : exec cache_args :=
  match parm_str p with
  | None => bad_parameter name
  | Some s =>
      if spelled s "dm" "DM" then Ret (MkCacheArgs (parm2 c) (parm3 c) (Some "1") (Some "DEFAULT") (wp c) true (is_fully c))
      else if spelled s "fully" "FULLY" then Ret (MkCacheArgs (parm2 c) (parm3 c) (parm4 c) (parm5 c) (wp c) (is_dm c) true)
      else if negb (has_char "w" s) then bad_parameter name
      else Ret (MkCacheArgs (parm2 c) (parm3 c) (Some (str_take (String.length s - 1) s)) (parm5 c) (wp c) (is_dm c) (is_fully c))
  end.

Definition write_policy (name s : string) (c : cache_args) : exec cache_args :=
  if spelled s "wt" "WT" then Ret (set_wp WRITE_THROUGH c)
  else if spelled s "wb" "WB" then Ret (set_wp WRITE_BACK c)
  else bad_parameter name.

Definition write_miss (name s : string) (c : cache_args) : exec cache_args :=
  if spelled s "war" "WAR" then Ret (set_wp (Z.lor (wp c) WRITE_AROUND) c)
  else if spelled s "wal" "WAL" then Ret (set_wp (Z.lor (wp c) WRITE_ALLOCATE) c)
  else bad_parameter name.

Definition replacement (name s : string) (c : cache_args) : exec cache_args :=
  if spelled s "lru" "LRU" then Ret (set_parm5 "LRU" c)
  else if spelled s "random" "RANDOM" then Ret (set_parm5 "RANDOM" c)
  else bad_parameter name.

(** The [switch] on the number of the parameter. *)
Definition cache_parameter (name : string) (i : Z) (p : ac_cache_parms) (c : cache_args) : exec cache_args :=
  match i with
  | 1 => associativity name p c
  | 2 =>
      if negb (u32 (parm_value p) >? 0) then bad_parameter name
      else
        let n := fmt_d (s32 (parm_value p)) in
        Ret (MkCacheArgs (parm2 c) (Some n) (if is_fully c then Some n else parm4 c) (parm5 c) (wp c) (is_dm c) (is_fully c))
  | 3 =>
      if negb (u32 (parm_value p) >? 0) then bad_parameter name
      else Ret (MkCacheArgs (Some (fmt_d (s32 (parm_value p)))) (parm3 c) (parm4 c) (parm5 c) (wp c) (is_dm c) (is_fully c))
  | 4 => s ← of_option (parm_str p); if is_dm c then write_policy name s c else replacement name s c
  | 5 => s ← of_option (parm_str p); if negb (is_dm c) then write_policy name s c else write_miss name s c
  | 6 => if negb (is_dm c) then s ← of_option (parm_str p); write_miss name s c else bad_parameter name
  | _ => Ret c
  end.

Fixpoint cache_parameters (name : string) (i : Z) (parms : list ac_cache_parms) (c : cache_args) : exec cache_args :=
  match parms with
  | [] => Ret c
  | p :: parms => c ← cache_parameter name i p c; cache_parameters name (i + 1) parms c
  end.

Definition no_cache_args : cache_args := MkCacheArgs None None None None 0 false false.

(** A buffer that no parameter has filled is read uninitialised. *)
Definition EmitCacheDeclaration (name : string) (parms : list ac_cache_parms) (base_indent : nat) : exec string :=
  c ← cache_parameters name 1 parms no_cache_args;
  match parm2 c, parm3 c, parm4 c, parm5 c with
  | Some p2, Some p3, Some p4, Some p5 =>
      Ret ("%sac_cache ac_resources::%s(\q%s\q, %s, %s, %s, %s, 0x%x);\n" %: INDENT base_indent, name, name, p2, p3, p4, p5, wp c)
  | _, _, _, _ => Crash
  end.

(** ** The implementation of the resources *)

Definition arch_impl_head : string := cat [
  print_comment "ArchC Resources Implementation file.";
  "#include \q%s_arch.H\q\n" %: project_name;
  lit "\n";
  "%s%s_arch::%s_arch() :\n" %: INDENT 0, project_name, project_name;
  "%sac_arch_dec_if<%s_parms::ac_word, %s_parms::ac_Hword>(%s_parms::AC_MAX_BUFFER),\n" %: INDENT 1, project_name, project_name, project_name;
  "%sac_pc(\qac_pc\q, 0" %: INDENT 1;
  when ACDelayFlag (lit ", time_step");
  lit "),\n"].

(** The initialiser of a storage device. *)
Definition arch_init (pstorage : ac_sto_list) : exec string :=
  match sto_type pstorage with
  | REG => Ret (cat [
    if is_some (sto_format pstorage) then "%s%s(\q%s\q" %: INDENT 1, sto_name pstorage, sto_name pstorage
    else "%s%s(\q%s\q, 0" %: INDENT 1, sto_name pstorage, sto_name pstorage;
    when ACDelayFlag (lit ", time_step");
    lit ")"])
  | REGBANK => Ret (cat [
    "%s%s(\q%s\q" %: INDENT 1, sto_name pstorage, sto_name pstorage;
    when ACDelayFlag (lit ", time_step");
    lit ")"])
  | CACHE | ICACHE | DCACHE =>
    match sto_parms pstorage with
    | None => Crash
    | Some [] => Ret (cat [
      "%s%s_stg(\q%s_stg\q, %uU),\n" %: INDENT 1, sto_name pstorage, sto_name pstorage, sto_size pstorage;
      "%s%s(*this, %s_stg)" %: INDENT 1, sto_name pstorage, sto_name pstorage])
    | Some parms => EmitCacheDeclaration (sto_name pstorage) parms 0
    end
  | MEM => Ret (
    if negb HaveMemHier then cat [
      "%s%s_stg(\q%s_stg\q, %uU),\n" %: INDENT 1, sto_name pstorage, sto_name pstorage, sto_size pstorage;
      "%s%s(*this, %s_stg)" %: INDENT 1, sto_name pstorage, sto_name pstorage]
    else cat [
      "%s%s_stg(\q%s_stg\q, %uU),\n" %: INDENT 1, sto_name pstorage, sto_name pstorage, sto_size pstorage;
      "%s%s(*this, %s_stg)" %: INDENT 1, sto_name pstorage, sto_name pstorage])
  | TLM_PORT => Ret (cat [
    "%s%s_port(\q%s_port\q, %uU),\n" %: INDENT 1, sto_name pstorage, sto_name pstorage, sto_size pstorage;
    "%s%s(*this, %s_port)" %: INDENT 1, sto_name pstorage, sto_name pstorage])
  | _ => Ret (cat [
    "%s%s_stg(\q%s_stg\q, %uU),\n" %: INDENT 1, sto_name pstorage, sto_name pstorage, sto_size pstorage;
    "%s%s(*this, %s_stg)" %: INDENT 1, sto_name pstorage, sto_name pstorage])
  end.

Fixpoint arch_inits (l : list ac_sto_list) : exec string :=
  match l with
  | [] => Ret EmptyString
  | pstorage :: l =>
      t ← arch_init pstorage; ts ← arch_inits l;
      Ret (cat [t; when (match l with [] => false | _ => true end) (lit ",\n"); ts])
  end.

(** The device instructions are fetched from: the instruction cache, or the
    last device of level 0 that is no register and no interrupt port. *)
Definition fetches (pstorage : ac_sto_list) : bool :=
  (sto_level pstorage =? 0) && match sto_type pstorage with REG | REGBANK | TLM_INTR_PORT => false | _ => true end.

Definition choose_fetch_device : exec ac_sto_list :=
  match fetch_device with
  | Some k => of_option (storage_list !! k)
  | None =>
      match last (filter (fun p => fetches p = true) storage_list) with
      | Some p => Ret p
      | None => Exit (lit "Could not determine a device for fetching.")
      end
  end.

(** The device programs are loaded to: the first one of the highest level, or
    the one that is fetched from when all are of level 0. *)
Definition choose_load_device (fetch : ac_sto_list) : exec ac_sto_list :=
  first ← of_option (head storage_list);
  let load := fold_left (fun load pstorage => if sto_level pstorage >? sto_level load then pstorage else load) storage_list first in
  Ret (if sto_level load =? 0 then fetch else load).

Fixpoint bindings (l : list ac_sto_list) : exec string :=
  match l with
  | [] => Ret EmptyString
  | pstorage :: l =>
      t ← match sto_higher pstorage with
          | None => Ret EmptyString
          | Some k => higher ← of_option (storage_list !! k);
                      Ret ("%s%s.bindToNext(%s);\n" %: INDENT 1, sto_name pstorage, sto_name higher)
          end;
      ts ← bindings l; Ret (t +:+ ts)
  end.

(** The text, and the device chosen for loading. *)
Definition CreateArchImpl : exec (string * ac_sto_list) :=
  inits ← arch_inits storage_list;
  fetch ← choose_fetch_device;
  load_device ← choose_load_device fetch;
  binds ← bindings storage_list;
  Ret (cat [
    arch_impl_head;
    inits;
    lit " {\n\n";
    "%sac_mt_endian = %s_parms::AC_MATCH_ENDIAN;\n" %: INDENT 1, project_name;
    "%sac_tgt_endian = %s_parms::AC_PROC_ENDIAN;\n\n" %: INDENT 1, project_name;
    "%sIM = &%s;\n" %: INDENT 1, sto_name fetch;
    "%sAPP_MEM = &%s;\n" %: INDENT 1, sto_name load_device;
    lit "\n";
    binds;
    lit "}\n\n"], load_device).
End resources.
