(* ===== verification/AcSimIsa.v ===== *)
(** * The simulator generator: the instruction set

    The files [<arch>_isa.H], [<arch>_bhv_macros.H], [<arch>_isa.cpp.tmpl] and
    [<arch>_isa_init.cpp] of [archc/src/acsim/acsim.c].  The tables of the last
    one are lists of rows in which a pointer to an element of an array is its
    index; the text prints the rows.  An instruction comes with its format. *)
From S2P Require Import Prelude CString DecTypes CoreActions AsmTypes BinUtils AcDecoder AcSim.

Section isa.
Context `{!options} `{!model}.

(** ** The class of the instruction set *)

(** The beginning of the class: its static tables. *)
Definition isa_statics : string := cat [
  "namespace %s_parms\n{\n" %: project_name;
  "class %s_isa: public %s_arch_ref" %: project_name, project_name;
  when ACStatsFlag (", public %s_all_stats" %: project_name);
  lit " {\n";
  lit "private:\n";
  lit "typedef ac_instr<AC_DEC_FIELD_NUMBER> ac_instr_t;\n";
  each (fun pgroup _ => "%sstatic bool group_%s[AC_DEC_INSTR_NUMBER];\n" %: INDENT 1, grp_name pgroup) group_list;
  lit "\n";
  lit "public:\n";
  "%sstatic ac_dec_field fields[AC_DEC_FIELD_NUMBER];\n" %: INDENT 1;
  "%sstatic ac_dec_format formats[AC_DEC_FORMAT_NUMBER];\n" %: INDENT 1;
  "%sstatic ac_dec_list dec_list[AC_DEC_LIST_NUMBER];\n" %: INDENT 1;
  "%sstatic ac_dec_instr instructions[AC_DEC_INSTR_NUMBER];\n" %: INDENT 1;
  "%sstatic const ac_instr_info instr_table[AC_DEC_INSTR_NUMBER + 1];\n\n" %: INDENT 1;
  "%sstatic const unsigned instr_format_table[AC_DEC_INSTR_NUMBER + 1];\n\n" %: INDENT 1;
  when ACABIFlag ("%s%s_syscall syscall;\n" %: INDENT 1, project_name);
  "%sint cur_instr_id;\n\n" %: INDENT 1;
  match helper_contents with Some text => cat ["%s" %: text; lit "\n"] | None => EmptyString end].

(** The constructor and the queries. *)
Definition isa_getters : string := cat [
  COMMENT (INDENT 1) "Constructor." [];
  "%s%s_isa(%s_arch& ref) : %s_arch_ref(ref) " %: INDENT 1, project_name, project_name, project_name;
  when ACABIFlag (lit ", syscall(ref)");
  lit " {\n";
  "%s}\n\n" %: INDENT 1;
  "%sinline __attribute__((always_inline)) const char* get_name() { return instr_table[cur_instr_id].ac_instr_name; }\n" %: INDENT 1;
  "%sinline __attribute__((always_inline)) const char* get_mnemonic() { return instr_table[cur_instr_id].ac_instr_mnemonic; }\n" %: INDENT 1;
  "%sinline __attribute__((always_inline)) unsigned get_size() { return instr_table[cur_instr_id].ac_instr_size; };\n" %: INDENT 1;
  "%sinline __attribute__((always_inline)) unsigned get_cycles() { return instr_table[cur_instr_id].ac_instr_cycles; };\n" %: INDENT 1;
  "%sinline __attribute__((always_inline)) unsigned get_min_latency() { return instr_table[cur_instr_id].ac_instr_min_latency; };\n" %: INDENT 1;
  "%sinline __attribute__((always_inline)) unsigned get_max_latency() { return instr_table[cur_instr_id].ac_instr_max_latency; };\n\n" %: INDENT 1;
  each (fun pgroup _ => cat [
    "%sinline __attribute__((always_inline)) const bool belongs_to_%s()\n%s{\n" %: INDENT 2, grp_name pgroup, INDENT 2;
    "%sreturn group_%s[cur_instr_id];\n%s}\n" %: INDENT 3, grp_name pgroup, INDENT 2;
    lit "\n"]) group_list].

(** The methods. *)
Definition isa_behaviors (behaviors : list (ac_dec_instr * ac_dec_format)) : string := cat [
  "%sinline __attribute__((always_inline)) void _behavior_instruction(" %: INDENT 1;
  parameters common_instr_field_list;
  lit ");\n\n";
  "%sinline __attribute__((always_inline)) void _behavior_begin();\n" %: INDENT 1;
  "%sinline __attribute__((always_inline)) void _behavior_end();\n\n" %: INDENT 1;
  each (fun pformat _ => cat [
    "%sinline __attribute__((always_inline)) void _behavior_%s_%s(" %: INDENT 1, project_name, fmt_name pformat;
    parameters (fmt_fields pformat);
    lit ");\n"]) format_ins_list;
  lit "\n";
  each (fun '(pinstr, pformat) _ => cat [
    "%sinline __attribute__((always_inline)) void behavior_%s(" %: INDENT 1, i_name pinstr;
    parameters (fmt_fields pformat);
    lit ");\n"]) behaviors;
  lit "\n"].

Definition CreateISAHeader (behaviors : list (ac_dec_instr * ac_dec_format)) : string := cat [
  print_comment "Instruction Set Architecture header file.";
  "#ifndef _%s_ISA_H\n" %: upper_project_name;
  "#define _%s_ISA_H\n\n" %: upper_project_name;
  "#include \q%s_parms.H\q\n" %: project_name;
  lit "#include \qac_instr.H\q\n";
  lit "#include \qac_decoder_rt.H\q\n";
  lit "#include \qac_instr_info.H\q\n";
  "#include \q%s_arch.H\q\n" %: project_name;
  "#include \q%s_arch_ref.H\q\n" %: project_name;
  when ACABIFlag ("#include \q%s_syscall.H\q\n" %: project_name);
  when ACStatsFlag ("#include \q%s_stats.H\q\n" %: project_name);
  lit "\n";
  isa_statics;
  isa_getters;
  isa_behaviors behaviors;
  lit "};\n";
  lit "};\n\n";
  "\n\n#endif //_%s_ISA_H\n\n" %: upper_project_name].

(** The macros that give the methods their signatures. *)
Definition behavior_macros (behaviors : list (ac_dec_instr * ac_dec_format)) : string := cat [
  "#ifndef _%s_BHV_MACROS_H\n" %: upper_project_name;
  "#define _%s_BHV_MACROS_H\n\n" %: upper_project_name;
  "typedef ac_memport<%s_parms::ac_word, %s_parms::ac_Hword> ac_memory;\n\n" %: project_name, project_name;
  lit "#define ac_behavior(instr) AC_BEHAVIOR_##instr ()\n\n";
  "#define AC_BEHAVIOR_instruction() %s_parms::%s_isa::_behavior_instruction(" %: project_name, project_name;
  parameters common_instr_field_list;
  lit ")\n\n";
  "#define AC_BEHAVIOR_begin() %s_parms::%s_isa::_behavior_begin()\n" %: project_name, project_name;
  "#define AC_BEHAVIOR_end() %s_parms::%s_isa::_behavior_end()\n" %: project_name, project_name;
  lit "\n";
  each (fun pformat _ => cat [
    "#define AC_BEHAVIOR_%s() %s_parms::%s_isa::_behavior_%s_%s(" %: fmt_name pformat, project_name, project_name, project_name, fmt_name pformat;
    parameters (fmt_fields pformat);
    lit ")\n"]) format_ins_list;
  lit "\n";
  each (fun '(pinstr, pformat) _ => cat [
    "#define AC_BEHAVIOR_%s() %s_parms::%s_isa::behavior_%s(" %: i_name pinstr, project_name, project_name, i_name pinstr;
    parameters (fmt_fields pformat);
    lit ")\n"]) behaviors;
  "\n\n#endif //_%s_BHV_MACROS_H\n\n" %: upper_project_name].

(** ** The template of the behaviors *)

Definition behavior_template : string := cat [
  print_comment "Behavior implementation file template.";
  "#include  \q%s_isa.H\q\n" %: project_name;
  "#include  \q%s_isa_init.cpp\q\n" %: project_name;
  "#include  \q%s_bhv_macros.H\q\n" %: project_name;
  lit "\n";
  COMMENT (INDENT 0) "'using namespace' statement to allow access to all %s-specific datatypes" [project_name : arg];
  "using namespace %s_parms;\n\n" %: project_name;
  COMMENT (INDENT 0) "Behavior executed before simulation begins." [];
  "%svoid ac_behavior( begin ){};\n" %: INDENT 0;
  lit "\n";
  COMMENT (INDENT 0) "Behavior executed after simulation ends." [];
  "%svoid ac_behavior( end ){};\n" %: INDENT 0;
  lit "\n";
  COMMENT (INDENT 0) "Generic instruction behavior method." [];
  "%svoid ac_behavior( instruction ){};\n" %: INDENT 0;
  lit " \n";
  COMMENT (INDENT 0) " Instruction Format behavior methods." [];
  each (fun pformat _ => "%svoid ac_behavior( %s ){}\n" %: INDENT 0, fmt_name pformat) format_ins_list;
  lit " \n";
  each (fun pinstr _ => cat [
    COMMENT (INDENT 0) "Instruction %s behavior method." [i_name pinstr : arg];
    "%svoid ac_behavior( %s ){}\n\n" %: INDENT 0, i_name pinstr]) instr_list].

(** ** The tables of the decoder *)

(** A row of each array; a link is an index in the array it points to. *)
Record field_row := MkFieldRow { fr_field : ac_dec_field; fr_next : option Z }.
Record format_row := MkFormatRow { fmr_id : Z; fmr_name : string; fmr_size : Z; fmr_fields : Z; fmr_next : option Z }.
Record dec_row := MkDecRow { dr_dec : ac_dec_list; dr_next : option Z }.
Record instr_row := MkInstrRow { ir_instr : ac_dec_instr; ir_dec : Z; ir_next : option Z }.

(** [next] as the index of the following row. *)
Definition link {A} (i : Z) (l : list A) : option Z := match l with [] => None | _ => Some (i + 1) end.

Fixpoint rows_from {A R} (row : Z -> A -> option Z -> R) (i : Z) (l : list A) : list R :=
  match l with [] => [] | x :: l => row i x (link i l) :: rows_from row (i + 1) l end.

(** The rows of the fields, a list for every format. *)
Fixpoint field_rows (i : Z) (formats : list ac_dec_format) : list (list field_row) :=
  match formats with
  | [] => []
  | pformat :: formats =>
      rows_from (fun _ => MkFieldRow) i (fmt_fields pformat) :: field_rows (i + Z.of_nat (length (fmt_fields pformat))) formats
  end.

Fixpoint format_rows (i count_fields : Z) (formats : list ac_dec_format) : list format_row :=
  match formats with
  | [] => []
  | pformat :: formats =>
      MkFormatRow (fmt_id pformat) (fmt_name pformat) (fmt_size pformat) count_fields (link i formats)
      :: format_rows (i + 1) (count_fields + Z.of_nat (length (fmt_fields pformat))) formats
  end.

Fixpoint dec_rows (i : Z) (instrs : list ac_dec_instr) : list (list dec_row) :=
  match instrs with
  | [] => []
  | pinstr :: instrs =>
      rows_from (fun _ => MkDecRow) i (i_dec_list pinstr) :: dec_rows (i + Z.of_nat (length (i_dec_list pinstr))) instrs
  end.

Fixpoint instr_rows (i count_fields : Z) (instrs : list ac_dec_instr) : list instr_row :=
  match instrs with
  | [] => []
  | pinstr :: instrs =>
      MkInstrRow pinstr count_fields (link i instrs)
      :: instr_rows (i + 1) (count_fields + Z.of_nat (length (i_dec_list pinstr))) instrs
  end.

(** The number of elements of the decode lists. *)
Definition declist_num : Z := Z.of_nat (length (concat (dec_rows 0 instr_list))).

(** The format number of each instruction; [FindFormat] ends the run when there
    is none. *)
Fixpoint format_numbers (instrs : list ac_dec_instr) : exec (list Z) :=
  match instrs with
  | [] => Ret []
  | pinstr :: instrs =>
      pformat ← FindFormat format_ins_list (i_format pinstr); l ← format_numbers instrs; Ret (fmt_id pformat :: l)
  end.

(** ** The text of the tables *)

(** The pointer that closes a row. *)
Definition print_link (array : string) (next : option Z) (last_row : string) : string :=
  match next with
  | Some i => "&(%s_parms::%s_isa::%s[%d])},\n" %: project_name, project_name, array, i
  | None => lit last_row
  end.

Definition print_field_row (r : field_row) : string :=
  let pdecfield := fr_field r in cat [
  "%s{\q%s\q, %d, %d, %d, %ld, %d, " %: INDENT 1, f_name pdecfield, f_size pdecfield, f_first_bit pdecfield, f_id pdecfield, f_val pdecfield, f_sign pdecfield;
  print_link "fields" (fr_next r) "NULL}"].

Definition print_format_row (r : format_row) : string := cat [
  "%s{%d, \q%s\q, %d, &(%s_parms::%s_isa::fields[%d]), " %: INDENT 1, fmr_id r, fmr_name r, fmr_size r, project_name, project_name, fmr_fields r;
  print_link "formats" (fmr_next r) "NULL}"].

Definition print_dec_row (r : dec_row) : string :=
  let pdeclist := dr_dec r in cat [
  "%s{\q%s\q, %d, %d, " %: INDENT 1, dl_name pdeclist, dl_id pdeclist, dl_value pdeclist;
  print_link "dec_list" (dr_next r) "NULL}"].

Definition print_instr_row (r : instr_row) : string :=
  let pinstr := ir_instr r in cat [
  "%s{\q%s\q, %d, \q%s\q, \q%s\q, \q%s\q, %d, %d, %d, %d, &(%s_parms::%s_isa::dec_list[%d]), %d, " %: INDENT 1, i_name pinstr, i_size pinstr, Ptr (i_mnemonic pinstr), Ptr (i_asm_str pinstr), i_format pinstr, i_id pinstr, i_cycles pinstr, i_min_latency pinstr, i_max_latency pinstr, project_name, project_name, ir_dec r, 0;
  print_link "instructions" (ir_next r) "NULL}\n"].

(** The rows of lists of rows, a comma between the lists. *)
Definition print_rows {R} (print : R -> string) (rows : list (list R)) : string :=
  each (fun l more => cat [each (fun r _ => print r) l; when more (lit ",\n")]) rows.

Definition print_group (pgroup : ac_grp_list) : string := cat [
  COMMENT (INDENT 0) "Group %s table initialization." [grp_name pgroup : arg];
  "%sbool %s_parms::%s_isa::group_%s[%s_parms::AC_DEC_INSTR_NUMBER] =\n%s{\n" %: INDENT 0, project_name, project_name, grp_name pgroup, project_name, INDENT 1;
  eachi (fun i pinstr more => cat [
    if existsb (fun k => Z.of_nat k =? i) (grp_instrs pgroup) then "%strue" %: INDENT 2 else "%sfalse" %: INDENT 2;
    if more : bool then lit ",\n" else "\n%s};\n\n" %: INDENT 1]) 0 instr_list].

(** The four arrays the decoder reads. *)
Definition decoder_tables : string := cat [
  COMMENT (INDENT 0) "Fields table declaration." [];
  "ac_dec_field %s_parms::%s_isa::fields[%s_parms::AC_DEC_FIELD_NUMBER] = {\n" %: project_name, project_name, project_name;
  print_rows print_field_row (field_rows 0 format_ins_list);
  lit "\n};\n\n";
  "ac_dec_format %s_parms::%s_isa::formats[%s_parms::AC_DEC_FORMAT_NUMBER] = {\n" %: project_name, project_name, project_name;
  each (fun r _ => print_format_row r) (format_rows 0 0 format_ins_list);
  lit "\n};\n\n";
  "ac_dec_list %s_parms::%s_isa::dec_list[%s_parms::AC_DEC_LIST_NUMBER] = {\n" %: project_name, project_name, project_name;
  print_rows print_dec_row (dec_rows 0 instr_list);
  lit "\n};\n\n";
  "ac_dec_instr %s_parms::%s_isa::instructions[%s_parms::AC_DEC_INSTR_NUMBER] = {\n" %: project_name, project_name, project_name;
  each (fun r _ => print_instr_row r) (instr_rows 0 0 instr_list);
  lit "};\n\n"].

Definition isa_init (numbers : list Z) : string := cat [
  print_comment "AC_ISA Initialization File";
  "%s#include \q%s_isa.H\q\n" %: INDENT 0, project_name;
  lit "\n";
  each (fun pgroup _ => print_group pgroup) group_list;
  decoder_tables;
  lit "const ac_instr_info\n";
  "%s_parms::%s_isa::instr_table[%s_parms::AC_DEC_INSTR_NUMBER + 1] = {\n" %: project_name, project_name, project_name;
  "%sac_instr_info(0, \q_ac_invalid_\q, \q_ac_invalid_\q, %d),\n" %: INDENT 1, Z.quot wordsize 8;
  each (fun pinstr more => cat [
    "%sac_instr_info(%d, \q%s\q, \q%s\q, %d)" %: INDENT 1, i_id pinstr, i_name pinstr, Ptr (i_mnemonic pinstr), i_size pinstr;
    when more (lit ",\n")]) instr_list;
  lit "\n};\n\n";
  "const unsigned %s_parms::%s_isa::instr_format_table[%s_parms::AC_DEC_INSTR_NUMBER + 1] = {\n" %: project_name, project_name, project_name;
  "%s0,\n" %: INDENT 1;
  each (fun (number : Z) more => cat ["%s%d" %: INDENT 1, number; when more (lit ",\n")]) numbers;
  lit "\n};\n"].

(** The two files: the template and the tables. *)
Definition CreateImplTmpl : exec (string * string) :=
  numbers ← format_numbers instr_list; Ret (behavior_template, isa_init numbers).
End isa.
