(* ===== verification/AcSimProc.v ===== *)
(** * The simulator generator: the processor

    The files [<arch>.H] and [<arch>.cpp] of [archc/src/acsim/acsim.c]: the
    module of the processor, its fetch loop with the dispatch to the behaviours
    of the instructions, and the functions around it.  What [INDENT] is indexed
    with stays below eight. *)
From S2P Require Import Prelude CString DecTypes CoreActions AsmTypes BinUtils AcDecoder AcSim.

Section processor.
Context `{!options} `{!model}.

Definition PRINT_TRACE : string := "%strace_file << hex << decode_pc << dec <<\q\\n\q;\n".

(** ** The fetch loop *)

Definition EmitFetchInit (base_indent : nat) : string := cat [
  when (negb ACDecCacheFlag) ("%sif( ac_pc >= APP_MEM->get_size()){\n" %: INDENT base_indent);
  "%s%s_decode_unit::instr_dec *instr_dec;\n" %: INDENT (S base_indent), project_name;
  "%sdecode_pc = ac_pc;\n" %: INDENT (S base_indent);
  "%sif( start_up ){\n" %: INDENT (S base_indent);
  when ACABIFlag ("%sISA.syscall.set_prog_args(argc, argv);\n" %: INDENT 3);
  "%sstart_up=0;\n" %: INDENT (S (S base_indent));
  "%s}\n" %: INDENT (S base_indent);
  when (HaveMultiCycleIns && negb ACDecCacheFlag) (cat [
    "%selse{ \n" %: INDENT (S base_indent);
    "%sdelete(instr_vec);\n" %: INDENT (S (S base_indent));
    "%s}\n \n" %: INDENT (S base_indent)])].

(** The fetch through a memory hierarchy. *)
Definition hierarchy_fetch (base_indent : nat) : exec string :=
  if negb HaveMemHier then Ret EmptyString
  else
    let waits := cat [
      "%sif( ac_wait_sig ) {\n" %: INDENT base_indent;
      "%sreturn;\n" %: INDENT (S base_indent);
      "%s}\n" %: INDENT base_indent] in
    if fetchsize =? wordsize then Ret (cat ["%s*((ac_fetch*)(fetch)) = IM->read( decode_pc );\n\n" %: INDENT base_indent; waits])
    else if fetchsize =? Z.quot wordsize 2 then Ret (cat ["%s*((ac_fetch*)(fetch)) = IM->read_half( decode_pc );\n\n" %: INDENT base_indent; waits])
    else if fetchsize =? 8 then Ret (cat ["%s*((ac_fetch*)(fetch)) = IM->read_byte( decode_pc );\n\n" %: INDENT base_indent; waits])
    else Exit (lit "Fetchsize differs from wordsize or (wordsize/2) or 8: not implemented.").

(** The call of the decode unit and the test of its result. *)
Definition decode_call (base_indent : nat) : string := cat [
  "%sinstr_dec = decode_unit->decode(decode_pc);\n" %: INDENT base_indent;
  "%sins_id = instr_dec->id;\n" %: INDENT base_indent;
  "%sif( ins_id == 0 ) {\n" %: INDENT base_indent;
  "%scerr << \qArchC Error: Unidentified instruction. \q << endl;\n" %: INDENT (S base_indent);
  "%scerr << \qPC = \q << hex << decode_pc << dec << endl;\n" %: INDENT (S base_indent);
  "%sstop();\n" %: INDENT (S base_indent);
  "%sreturn;\n" %: INDENT (S base_indent);
  "%s}\n" %: INDENT base_indent;
  lit "\n"].

Definition EmitDecodification (base_indent : nat) : exec string :=
  let base_indent := S base_indent in
  t ← hierarchy_fetch base_indent; Ret (cat [t; decode_call base_indent]).

(** The operand of a field, in a structure of the format or in the array the
    decoder returns. *)
Definition argument (pformat : ac_dec_format) (pfield : ac_dec_field) : string :=
  if ACDecCacheFlag then "instr_dec->F_%s.%s" %: fmt_name pformat, f_name pfield else "ins_cache[%d]" %: f_id pfield.

Definition arguments (pformat : ac_dec_format) (fields : list ac_dec_field) : string :=
  each (fun pfield more => cat [argument pformat pfield; when more (lit ", ")]) fields.

(** The common fields are read from the structure of the first format. *)
Definition generic_arguments : exec string :=
  match common_instr_field_list, format_ins_list with
  | [], _ => Ret EmptyString
  | fields, pformat :: _ => Ret (arguments pformat fields)
  | _, [] => Crash
  end.

(** The case of an instruction. *)
Definition instr_case (base_indent : nat) (behavior : ac_dec_instr * ac_dec_format) : string :=
  let '(pinstr, pformat) := behavior in cat [
  "%scase %d: // Instruction %s\n" %: INDENT base_indent, i_id pinstr, i_name pinstr;
  "%sISA._behavior_%s_%s(" %: INDENT (S base_indent), project_name, fmt_name pformat;
  arguments pformat (fmt_fields pformat);
  lit ");\n";
  "%sISA.behavior_%s(" %: INDENT (S base_indent), i_name pinstr;
  arguments pformat (fmt_fields pformat);
  lit ");\n";
  "%sbreak;\n" %: INDENT (S base_indent)].

Definition instr_exec (generic : string) (behaviors : list (ac_dec_instr * ac_dec_format)) (base_indent : nat) : string := cat [
  when ACGDBIntegrationFlag ("%sif (gdbstub && gdbstub->stop(decode_pc)) gdbstub->process_bp();\n\n" %: INDENT base_indent);
  "%sac_pc = decode_pc;\n\n" %: INDENT base_indent;
  "%sISA.cur_instr_id = ins_id;\n" %: INDENT base_indent;
  "%sISA._behavior_instruction(" %: INDENT base_indent;
  generic;
  lit ");\n";
  "%sswitch (ins_id) {\n" %: INDENT base_indent;
  each (fun behavior _ => instr_case base_indent behavior) behaviors;
  "%s} // switch (ins_id)\n" %: INDENT base_indent;
  when ACStatsFlag (cat [
    "%sif(!ac_wait_sig) {\n" %: INDENT base_indent;
    "%sISA.stats[%s_stat_ids::INSTRUCTIONS]++;\n" %: INDENT (S base_indent), project_name;
    "%s(*(ISA.instr_stats[ins_id]))[%s_instr_stat_ids::COUNT]++;\n" %: INDENT (S base_indent), project_name;
    "%s}\n" %: INDENT base_indent]);
  when ACDebugFlag (cat [
    "%sif( ac_do_trace != 0 ) \n" %: INDENT base_indent;
    PRINT_TRACE %: INDENT (S base_indent)])].

Definition EmitInstrExec (behaviors : list (ac_dec_instr * ac_dec_format)) (base_indent : nat) : exec string :=
  generic ← generic_arguments; Ret (instr_exec generic behaviors base_indent).

Definition EmitABIDefine : string := cat [
  "%s#define AC_SYSC(NAME,LOCATION) \\\n" %: INDENT 0;
  "%scase LOCATION: \\\n" %: INDENT 2;
  when ACStatsFlag ("%sISA.stats[%s_stat_ids::SYSCALLS]++; \\\n" %: INDENT 4, project_name);
  when ACDebugFlag (cat [
    "%sif( ac_do_trace != 0 )\\\n" %: INDENT 4;
    "%strace_file << hex << decode_pc << dec << endl; \\\n" %: INDENT 5]);
  "%sISA.syscall.NAME(); \\\n" %: INDENT 4;
  "%sbreak;  \\\n" %: INDENT 3].

Definition EmitABIAddrList : string := cat [
  lit "#include <ac_syscall.def>\n";
  lit "\n";
  lit "#undef AC_SYSC\n\n"].

Definition EmitProcessorBhv (behaviors : list (ac_dec_instr * ac_dec_format)) : exec string :=
  decodification ← EmitDecodification 1;
  instr ← EmitInstrExec behaviors 2;
  Ret (cat [
    "%sfor (;;) {\n\n" %: INDENT 1;
    EmitFetchInit 1;
    decodification;
    instr;
    "%sif (!ac_wait_sig) ac_instr_counter++;\n" %: INDENT 2;
    when ACVerboseFlag ("%sbhv_done.write(1);\n" %: INDENT 2)]).

Definition EmitProcessorBhv_ABI (behaviors : list (ac_dec_instr * ac_dec_format)) : exec string :=
  decodification ← EmitDecodification 2;
  instr ← EmitInstrExec behaviors 3;
  Ret (cat [
    "%sfor (;;) {\n\n" %: INDENT 1;
    EmitFetchInit 1;
    COMMENT (INDENT 2) "Handling System calls." [];
    "%sswitch( decode_pc ){\n\n" %: INDENT 2;
    EmitABIDefine;
    lit "\n\n";
    EmitABIAddrList;
    "%sdefault:\n\n" %: INDENT 2;
    decodification;
    instr;
    "%sbreak;\n" %: INDENT 3;
    "%s}\n" %: INDENT 2;
    "%sif (!ac_wait_sig) ac_instr_counter++;\n" %: INDENT 2;
    when ACVerboseFlag ("%sdone.write(1);\n" %: INDENT 2);
    "%s}\n" %: INDENT 1]).

Definition EmitMultiCycleProcessorBhv : exec string :=
  decodification ← EmitDecodification 3;
  Ret (cat [
    "%sif( ac_cycle == 1 ){\n\n" %: INDENT 1;
    EmitFetchInit 2;
    decodification;
    "%sac_pc = decode_pc;\n" %: INDENT 3;
    "%sac_cycle = 1;\n" %: INDENT 3;
    "%sinstr = (ac_instruction *)ISA.instr_table[ins_id][1];\n" %: INDENT 3;
    "%sformat = (ac_instruction *)ISA.instr_table[ins_id][2];\n" %: INDENT 3;
    "%sformat->set_fields( *instr_vec  );\n" %: INDENT 3;
    "%sinstr->set_fields( *instr_vec  );\n" %: INDENT 3;
    when ACDebugFlag (cat [
      "%sif( ac_do_trace != 0 ) \n" %: INDENT 3;
      PRINT_TRACE %: INDENT 4]);
    when ACStatsFlag (cat [
      "%sac_sim_stats.instr_executed++;;\n" %: INDENT 3;
      "%sac_sim_stats.instr_table[ins_id].count++;\n" %: INDENT 3;
      "%sac_sim_stats.ac_min_cycle_count += instr->get_min_latency();\n" %: INDENT 3;
      "%sac_sim_stats.ac_max_cycle_count += instr->get_max_latency();\n" %: INDENT 3]);
    "%sISA.instruction.set_cycles( instr->get_cycles());\n" %: INDENT 3;
    "%sISA.instruction.set_size( instr->get_size());\n" %: INDENT 3;
    "%s}\n" %: INDENT 2;
    "%sac_instr_counter+= 1;\n" %: INDENT 2;
    "%s}\n" %: INDENT 1;
    "%sISA.instruction.behavior( (ac_stage_list)0, ac_cycle );\n" %: INDENT 1;
    "%sformat->behavior((ac_stage_list)0, ac_cycle );\n" %: INDENT 1;
    "%sinstr->behavior((ac_stage_list)0, ac_cycle );\n" %: INDENT 1;
    "%sif( ac_cycle > instr->get_cycles())\n" %: INDENT 1;
    "%sac_cycle=1;\n\n" %: INDENT 2;
    "%sbhv_done.write(1);\n" %: INDENT 1;
    lit "}\n\n"]).

Definition EmitUpdateMethod : string := cat [
  COMMENT (INDENT 0) "Updating Regs for behavioral simulation." [];
  when (ACDelayFlag || HaveMultiCycleIns) ("%sif(!ac_wait_sig){\n" %: INDENT 1);
  when ACDelayFlag (cat [
    each (fun pstorage _ => "%s%s.commit_delays( (double)ac_cycle_counter );\n" %: INDENT 2, sto_name pstorage) storage_list;
    "%sac_pc.commit_delays(  (double)ac_cycle_counter );\n" %: INDENT 2;
    "%sif(!ac_parallel_sig)\n" %: INDENT 2;
    "%sac_cycle_counter+=1;\n" %: INDENT 3;
    "%selse\n" %: INDENT 2;
    "%sac_parallel_sig = 0;\n\n" %: INDENT 3]);
  when HaveMultiCycleIns ("%sbhv_cycle.write( ac_cycle );\n" %: INDENT 2);
  when (ACDelayFlag || HaveMultiCycleIns) ("%s}\n" %: INDENT 1);
  when HaveMemHier (each (fun pstorage _ => when (is_cache (sto_type pstorage) || bool_decide (sto_type pstorage = MEM)) ("%s%s.process_request( );\n" %: INDENT 1, sto_name pstorage)) storage_list);
  when ACWaitFlag (cat [
    "%sif (instr_in_batch < instr_batch_size) {\n" %: INDENT 2;
    "%sinstr_in_batch++;\n" %: INDENT 3;
    "%s}\n" %: INDENT 2;
    "%selse {\n" %: INDENT 2;
    "%sinstr_in_batch = 0;\n" %: INDENT 3;
    "%swait(1, SC_NS);\n" %: INDENT 3;
    "%s}\n" %: INDENT 2]);
  "%s} // for (;;)\n" %: INDENT 1;
  "%s} // behavior()\n\n" %: INDENT 0].

(** ** The functions around it *)

(** The beginning of the file and of [behavior]. *)
Definition behavior_head : string := cat [
  print_comment "Processor Module Implementation File.";
  "#include  \q%s.H\q\n" %: project_name;
  "#include  \q%s_isa.cpp\q\n\n" %: project_name;
  when ACABIFlag ("#include  \q%s_syscall.H\q\n\n" %: project_name);
  "void %s::behavior() {\n\n" %: project_name;
  when ACDebugFlag (cat [
    "%sextern bool ac_do_trace;\n" %: INDENT 1;
    "%sextern ofstream trace_file;\n" %: INDENT 1]);
  "%sunsigned ins_id;\n" %: INDENT 1;
  "%sif (has_delayed_load) {\n" %: INDENT 1;
  "%sAPP_MEM->load(delayed_load_program);\n" %: INDENT 2;
  "%sac_pc = ac_start_addr;\n" %: INDENT 2;
  "%shas_delayed_load = false;\n" %: INDENT 2;
  "%s}\n\n" %: INDENT 1;
  when HaveMemHier (cat [
    "%sif( ac_wait_sig ) {\n" %: INDENT 1;
    "%sreturn;\n" %: INDENT 2;
    "%s}\n\n" %: INDENT 1]);
  "%sint action = setjmp(ac_env);\n" %: INDENT 1;
  "%sif (action == 2) return;\n\n" %: INDENT 1].

(** The thread that reports changes. *)
Definition verify_method : string :=
  when ACVerboseFlag (cat [
    COMMENT (INDENT 0) "Verification method.\n" [];
    "%svoid %s::ac_verify(){\n" %: INDENT 0, project_name;
    "%sfor (;;) {\n\n" %: INDENT 1;
    "%sif( " %: INDENT 1;
    lit "done.read() )\n";
    "%s  {\n" %: INDENT 2;
    lit "#ifdef AC_VERBOSE\n";
    each (fun pstorage _ => "%s%s.change_dump(cerr);\n" %: INDENT 3, sto_name pstorage) storage_list;
    lit "#endif\n";
    lit "#ifdef AC_UPDATE_LOG\n";
    each (fun pstorage _ => "%s%s.reset_log();\n" %: INDENT 3, sto_name pstorage) storage_list;
    lit "#endif\n";
    "%sdone.write(0);\n" %: INDENT 3;
    "%s  }\n\n" %: INDENT 2;
    "%swait();\n\n" %: INDENT 1;
    "%s}\n" %: INDENT 1;
    "%s}\n\n" %: INDENT 0]).

(** [init] without parameters. *)
Definition init_method : string := cat [
  "void %s::init() {\n" %: project_name;
  "%sset_args(ac_argc, ac_argv);\n" %: INDENT 1;
  lit "#ifdef AC_VERIFY\n";
  "%sset_queue(av[0]);\n" %: INDENT 1;
  lit "#endif\n\n";
  "%sac_pc = ac_start_addr;\n" %: INDENT 1;
  "%sISA._behavior_begin();\n" %: INDENT 1;
  "%scerr << \qArchC: -------------------- Starting Simulation --------------------\q << endl;\n" %: INDENT 1;
  "%sInitStat();\n\n" %: INDENT 1;
  "%ssignal(SIGINT, sigint_handler);\n" %: INDENT 1;
  "%ssignal(SIGTERM, sigint_handler);\n" %: INDENT 1;
  "%ssignal(SIGSEGV, sigsegv_handler);\n" %: INDENT 1;
  "%ssignal(SIGUSR1, sigusr1_handler);\n" %: INDENT 1;
  lit "#ifdef USE_GDB\n";
  "%ssignal(SIGUSR2, sigusr2_handler);\n" %: INDENT 1;
  lit "#endif\n";
  lit "#ifndef AC_COMPSIM\n";
  "%sset_running();\n" %: INDENT 1;
  lit "#else\n";
  "%svoid Execute(int argc, char *argv[]);\n" %: INDENT 1;
  "%sExecute(argc, argv);\n" %: INDENT 1;
  lit "#endif\n";
  lit "}\n\n"].

(** [init] with the command line. *)
Definition init_args_method : string := cat [
  "void %s::init(int ac, char *av[]) {\n" %: project_name;
  "%sextern char* appfilename;\n" %: INDENT 1;
  when ACargHandleParamFlag (cat [
    "%sac_init_opt( ac, av);\n" %: INDENT 1;
    "%sac_init_app( ac, av);\n" %: INDENT 1;
    "%sAPP_MEM->load(appfilename);\n" %: INDENT 1]);
  "%sset_args(ac_argc, ac_argv);\n" %: INDENT 1;
  lit "#ifdef AC_VERIFY\n";
  "%sset_queue(av[0]);\n" %: INDENT 1;
  lit "#endif\n\n";
  "%sac_pc = ac_start_addr;\n" %: INDENT 1;
  "%sISA._behavior_begin();\n" %: INDENT 1;
  "%scerr << \qArchC: -------------------- Starting Simulation --------------------\q << endl;\n" %: INDENT 1;
  "%sInitStat();\n\n" %: INDENT 1;
  "%ssignal(SIGINT, sigint_handler);\n" %: INDENT 1;
  "%ssignal(SIGTERM, sigint_handler);\n" %: INDENT 1;
  "%ssignal(SIGSEGV, sigsegv_handler);\n" %: INDENT 1;
  "%ssignal(SIGUSR1, sigusr1_handler);\n" %: INDENT 1;
  lit "#ifdef USE_GDB\n";
  "%ssignal(SIGUSR2, sigusr2_handler);\n" %: INDENT 1;
  lit "#endif\n";
  lit "#ifndef AC_COMPSIM\n";
  "%sset_running();\n" %: INDENT 1;
  lit "#else\n";
  "%svoid Execute(int argc, char *argv[]);\n" %: INDENT 1;
  "%sExecute(argc, argv);\n" %: INDENT 1;
  lit "#endif\n";
  lit "}\n\n"].

(** [stop], [load] and [delayed_load]. *)
Definition stop_methods : string := cat [
  lit "//Stop simulation (may receive exit status)\n";
  "void %s::stop(int status) {\n" %: project_name;
  "%scerr << \qArchC: -------------------- Simulation Finished --------------------\q << endl;\n" %: INDENT 1;
  "%sISA._behavior_end();\n" %: INDENT 1;
  "%sac_stop_flag = 1;\n" %: INDENT 1;
  "%sac_exit_status = status;\n" %: INDENT 1;
  lit "#ifndef AC_COMPSIM\n";
  "%sset_stopped();\n" %: INDENT 1;
  lit "#endif\n";
  "%slongjmp(ac_env, 2);\n" %: INDENT 1;
  lit "}\n\n";
  "void %s::load(char* program) {\n" %: project_name;
  "%sAPP_MEM->load(program);\n" %: INDENT 1;
  lit "}\n\n";
  "void %s::delayed_load(char* program) {\n" %: project_name;
  "%shas_delayed_load = true;\n" %: INDENT 1;
  "%sdelayed_load_program = new char[strlen(program)];\n" %: INDENT 1;
  "%sstrcpy(delayed_load_program, program);\n" %: INDENT 1;
  lit "}\n\n"].

(** The methods behind [get_gdbstub]. *)
Definition gdb_stub_methods : string :=
  when ACGDBIntegrationFlag (cat [
    lit "// Returns pointer to gdbstub\n";
    "AC_GDB<%s_parms::ac_word>* %s::get_gdbstub() {\n" %: project_name, project_name;
    "%sreturn gdbstub;\n" %: INDENT 1;
    lit "}\n\n";
    lit "// Returns true if model endianness doesn't match with host's, false otherwise\n";
    "bool %s::get_ac_tgt_endian() {\n" %: project_name;
    "%sreturn ac_tgt_endian;\n" %: INDENT 1;
    lit "}\n\n";
    lit "// Stops the processor\n";
    "void %s::ac_stop() {\n" %: project_name;
    "%sstop();\n" %: INDENT 1;
    lit "}\n\n"]).

(** The program counter, statistics and the start of the stub. *)
Definition pc_methods : string := cat [
  lit "// Returns ac_pc value\n";
  "unsigned %s::get_ac_pc() {\n" %: project_name;
  "%sreturn ac_pc;\n" %: INDENT 1;
  lit "}\n\n";
  lit "// Assigns value to ac_pc\n";
  "void %s::set_ac_pc(unsigned int value) {\n" %: project_name;
  "%sac_pc = value;\n" %: INDENT 1;
  lit "}\n\n";
  lit "// Wrapper function to PrintStat().\n";
  "void %s::PrintStat() {\n" %: project_name;
  "%sac_arch<%s_parms::ac_word, %s_parms::ac_Hword>::PrintStat();\n" %: INDENT 1, project_name, project_name;
  lit "}\n\n";
  when ACGDBIntegrationFlag (cat [
    lit "// Enables GDB\n";
    "void %s::enable_gdb(int port) {\n" %: project_name;
    "%sgdbstub->set_port(port);\n" %: INDENT 1;
    "%sgdbstub->enable();\n" %: INDENT 1;
    "%sgdbstub->connect();\n" %: INDENT 1;
    lit "}\n\n"])].

Definition behavior_body (behaviors : list (ac_dec_instr * ac_dec_format)) : exec string :=
  if HaveMultiCycleIns then EmitMultiCycleProcessorBhv
  else if ACABIFlag then EmitProcessorBhv_ABI behaviors
  else EmitProcessorBhv behaviors.

Definition CreateProcessorImpl (behaviors : list (ac_dec_instr * ac_dec_format)) : exec string :=
  body ← behavior_body behaviors;
  Ret (cat [
    behavior_head;
    body;
    EmitUpdateMethod;
    lit "\n";
    verify_method;
    lit "#include <ac_sighandlers.H>\n\n";
    init_method;
    init_args_method;
    stop_methods;
    gdb_stub_methods;
    pc_methods]).

(** ** The module *)

(** The constructor of the module. *)
Definition processor_constructor : string := cat [
  COMMENT (INDENT 1) "Constructor." [];
  "%s%s( sc_module_name name_ ): ac_module(name_), %s_arch(), ISA(*this)" %: INDENT 1, project_name, project_name;
  when HaveTLMIntrPorts (each (fun pport _ => cat [
    ", %s_hnd(*this)" %: sto_name pport;
    ", %s(\q%s\q, %s_hnd)" %: sto_name pport, sto_name pport, sto_name pport]) tlm_intr_port_list);
  lit " {\n";
  "%sSC_THREAD( behavior );\n" %: INDENT 2;
  when ACVerboseFlag (cat [
    "%sSC_THREAD( ac_verify );\n" %: INDENT 2;
    "%ssensitive<< done;\n\n" %: INDENT 2]);
  "%shas_delayed_load = false;\n" %: INDENT 2;
  "%sstart_up=1;\n" %: INDENT 2;
  "%sid = %d;\n" %: INDENT 2, 1;
  "%sdecode_unit = new %s_decode_unit(this, &ISA);\n" %: INDENT 2, project_name;
  when ACGDBIntegrationFlag ("%sgdbstub = new AC_GDB<%s_parms::ac_word>(this, %s_parms::GDB_PORT_NUM);\n\n" %: INDENT 2, project_name, project_name);
  "%s}\n\n" %: INDENT 1].

(** What the GDB stub asks for. *)
Definition gdb_methods : string :=
  when ACGDBIntegrationFlag (cat [
    "%s/***********\n" %: INDENT 1;
    "%s * GDB Support - user supplied methods\n" %: INDENT 1;
    "%s * For further information, look at ~/src/aclib/ac_gdb/ac_gdb_interface.H\n" %: INDENT 1;
    "%s ***********/\n\n" %: INDENT 1;
    "%s/* Processor Feature Support */\n" %: INDENT 1;
    "%sbool get_ac_tgt_endian();\n\n" %: INDENT 1;
    "%svoid ac_stop();\n\n" %: INDENT 1;
    "%s/* Register access */\n" %: INDENT 1;
    "%sint nRegs(void);\n" %: INDENT 1;
    "%s%s_parms::ac_word reg_read(int reg);\n" %: INDENT 1, project_name;
    "%svoid reg_write( int reg, %s_parms::ac_word value );\n" %: INDENT 1, project_name;
    "%s/* Memory access */\n" %: INDENT 1;
    "%sunsigned char mem_read( unsigned int address );\n" %: INDENT 1;
    "%svoid mem_write( unsigned int address, unsigned char byte );\n" %: INDENT 1;
    "%s/* GDB stub access */\n" %: INDENT 1;
    "%sAC_GDB<%s_parms::ac_word>* get_gdbstub();\n" %: INDENT 1, project_name]).

Definition CreateProcessorHeader : string := cat [
  print_comment "Architecture Module header file.";
  "#ifndef  _%s_H\n" %: upper_project_name;
  "#define  _%s_H\n\n" %: upper_project_name;
  lit "#include \qsystemc.h\q\n";
  lit "#include \qac_module.H\q\n";
  lit "#include \qac_utils.H\q\n";
  "#include \q%s_parms.H\q\n" %: project_name;
  "#include \q%s_arch.H\q\n" %: project_name;
  "#include \q%s_isa.H\q\n" %: project_name;
  "#include \q%s_decode_unit.H\q\n" %: project_name;
  when ACABIFlag ("#include \q%s_syscall.H\q\n" %: project_name);
  when HaveTLMIntrPorts (cat [
    lit "#include \qac_tlm_intr_port.H\q\n";
    "#include \q%s_intr_handlers.H\q\n" %: project_name]);
  when ACGDBIntegrationFlag (cat [
    lit "#include \qac_gdb_interface.H\q\n";
    lit "#include \qac_gdb.H\q\n"]);
  lit "\n\n";
  "class %s: public ac_module, public %s_arch" %: project_name, project_name;
  when ACGDBIntegrationFlag (", public AC_GDB_Interface<%s_parms::ac_word>" %: project_name);
  lit " {\n";
  lit "public:\n";
  when HaveMultiCycleIns ("%ssc_signal<unsigned> bhv_cycle;\n" %: INDENT 1);
  when ACVerboseFlag ("%ssc_signal<bool> done;\n\n" %: INDENT 1);
  "%sbool has_delayed_load;\n" %: INDENT 1;
  "%schar* delayed_load_program;\n" %: INDENT 1;
  "%s%s_parms::%s_isa ISA;\n" %: INDENT 1, project_name, project_name;
  when HaveTLMIntrPorts (each (fun pport _ => cat [
    "%s%s_%s_handler %s_hnd;\n" %: INDENT 1, project_name, sto_name pport, sto_name pport;
    "%sac_tlm_intr_port %s;\n\n" %: INDENT 1, sto_name pport]) tlm_intr_port_list);
  "%sunsigned id;\n" %: INDENT 1;
  "%sbool start_up;\n" %: INDENT 1;
  "%s%s_decode_unit *decode_unit;\n" %: INDENT 1, project_name;
  when ACGDBIntegrationFlag ("%sAC_GDB<%s_parms::ac_word>* gdbstub;\n" %: INDENT 1, project_name);
  lit "\n";
  COMMENT (INDENT 1) "Behavior execution method." [];
  "%svoid behavior();\n\n" %: INDENT 1;
  when ACVerboseFlag (cat [
    COMMENT (INDENT 1) "Verification method." [];
    "%svoid ac_verify();\n\n" %: INDENT 1]);
  "%sSC_HAS_PROCESS( %s );\n\n" %: INDENT 1, project_name;
  processor_constructor;
  gdb_methods;
  "%sunsigned get_ac_pc();\n\n" %: INDENT 1;
  "%svoid set_ac_pc( unsigned int value );\n\n" %: INDENT 1;
  "%svirtual void PrintStat();\n\n" %: INDENT 1;
  "%svoid init(int ac, char* av[]);\n\n" %: INDENT 1;
  "%svoid init();\n\n" %: INDENT 1;
  "%svoid load(char* program);\n\n" %: INDENT 1;
  "%svoid delayed_load(char* program);\n\n" %: INDENT 1;
  "%svoid stop(int status = 0);\n\n" %: INDENT 1;
  when ACGDBIntegrationFlag ("%svoid enable_gdb(int port = 5000);\n\n" %: INDENT 1);
  "%svirtual ~%s() {};\n\n" %: INDENT 1, project_name;
  "%s};\n" %: INDENT 0;
  "#endif  //_%s_H\n\n" %: upper_project_name].
End processor.
