(* ===== verification/AcSimFiles.v ===== *)
(** * The simulator generator: the smaller files

    The headers of formatted registers, statistics, interrupt handlers and system
    calls, the template of [main], the decode unit and the makefile of
    [archc/src/acsim/acsim.c]. *)
From S2P Require Import Prelude CString DecTypes CoreActions AsmTypes BinUtils AcSim.

Section files.
Context `{!options} `{!model}.

(** ** Formatted registers *)

Definition regs_head : string := cat [
  print_comment "ArchC Formatted Registers header file.";
  "#ifndef  %s_FMT_REGS_H\n" %: upper_project_name;
  "#define  %s_FMT_REGS_H\n\n" %: upper_project_name;
  lit "#include  <iostream>\n";
  lit "#include  <string>\n";
  lit "#include  \qac_reg.H\q\n";
  "#include  \q%s_parms.H\q\n" %: project_name;
  lit "\n\n";
  lit "using std::ostream;\n";
  lit "using std::string;\n\n";
  COMMENT (INDENT 0) "ArchC classes for formatted registers.\n" []].

(** The class of a register; the last field ends the constructor. *)
Definition regs_class (pstorage : ac_sto_list) (pformat : ac_dec_format) : string := cat [
  "class %s_fmt_%s {\n" %: project_name, sto_name pstorage;
  "%sstring name;\n" %: INDENT 1;
  lit "public:\n";
  each (fun pfield _ => "%sac_reg<unsigned> %s;\n" %: INDENT 1, f_name pfield) (fmt_fields pformat);
  lit "\n\n";
  if ACDelayFlag then "%s%s_fmt_%s(char* n, double& ts): \n" %: INDENT 1, project_name, sto_name pstorage
  else "%s%s_fmt_%s(char* n): \n" %: INDENT 1, project_name, sto_name pstorage;
  each (fun pfield more =>
    if more : bool then
      if ACDelayFlag then "%s%s(\q%s\q,%d,ts),\n" %: INDENT 2, f_name pfield, sto_name pstorage, 0
      else "%s%s(\q%s\q,%d),\n" %: INDENT 2, f_name pfield, sto_name pstorage, 0
    else
      if ACDelayFlag then "%s%s(\q%s\q,%d,ts){name = n;}\n\n" %: INDENT 2, f_name pfield, sto_name pstorage, 0
      else "%s%s(\q%s\q,%d){name = n;}\n\n" %: INDENT 2, f_name pfield, sto_name pstorage, 0) (fmt_fields pformat);
  "%svoid change_dump(ostream& output){}\n\n" %: INDENT 1;
  "%svoid reset_log(){}\n\n" %: INDENT 1;
  when ACDelayFlag (cat [
    "%svoid commit_delays(double time)\n" %: INDENT 1;
    "%s{\n" %: INDENT 1;
    each (fun pfield _ => "%s%s.commit_delays(time);\n" %: INDENT 2, f_name pfield) (fmt_fields pformat);
    "%s}\n" %: INDENT 1]);
  lit "};\n\n"].

(** A register without its format, or with one that has no field, is a NULL
    dereference. *)
Fixpoint regs_classes (l : list ac_sto_list) : exec string :=
  match l with
  | [] => Ret EmptyString
  | pstorage :: l =>
      pformat ← of_option (name ← sto_format pstorage; list_first (fun f => streq (fmt_name f) name) format_reg_list);
      match fmt_fields pformat with
      | [] => Crash
      | _ => t ← regs_classes l; Ret (regs_class pstorage pformat +:+ t)
      end
  end.

(** The file is opened at the first formatted register. *)
Definition CreateRegsHeader : exec (option string) :=
  match filter (fun p => formatted p = true) storage_list with
  | [] => Ret None
  | l => t ← regs_classes l; Ret (Some (cat [regs_head; t; "#endif // %s_FMT_REGS_H\n" %: upper_project_name]))
  end.

Definition CreateRegsImpl : string := cat [
  print_comment "Formatted Register Behavior implementation file.";
  "#include \q%s_fmt_regs.H\q\n" %: project_name;
  lit "#include \qac_utils.H\q\n";
  lit " \n";
  each (fun pstorage _ => when (formatted pstorage) ("%svoid ac_behavior( %s ){}\n" %: INDENT 0, sto_name pstorage)) storage_list].

(** ** Statistics *)

Definition CreateStatsHeaderTmpl : string := cat [
  print_comment "ArchC Processor statistics data header file.";
  "#ifndef  %s_STATS_H\n" %: upper_project_name;
  "#define  %s_STATS_H\n\n" %: upper_project_name;
  lit "#include  <fstream>\n";
  "#include  \q%s_parms.H\q\n" %: project_name;
  lit "#include  \qac_stats.H\q\n";
  lit "\n";
  "AC_SET_STATS(%s, INSTRUCTIONS, SYSCALLS);\n" %: project_name;
  "AC_SET_INSTR_STATS(%s, COUNT);\n\n" %: project_name;
  "struct %s_all_stats {\n" %: project_name;
  "%s%s_stats stats;\n\n" %: INDENT 1, project_name;
  each (fun pinstr _ => "%s%s_instr_stats %s_istats;\n" %: INDENT 1, project_name, i_name pinstr) instr_list;
  lit "\n";
  "%s%s_instr_stats* instr_stats[%s_parms::AC_DEC_INSTR_NUMBER + 1];\n\n" %: INDENT 1, project_name, project_name;
  "%s%s_all_stats();\n" %: INDENT 1, project_name;
  "}; // struct %s_stats\n" %: project_name;
  "#endif // %s_STATS_H\n" %: upper_project_name].

Definition CreateStatsImplTmpl : string := cat [
  print_comment "ArchC Processor statistics data implementation file.";
  "#include \q%s_stats.H\q\n" %: project_name;
  lit "\n";
  "AC_CONF_STAT_LIST(%s, INSTRUCTIONS, SYSCALLS);\n" %: project_name;
  "AC_CONF_INSTR_STAT_LIST(%s, COUNT);\n\n" %: project_name;
  "%s_all_stats::%s_all_stats() :\n" %: project_name, project_name;
  "%sstats(\q%s\q)\n" %: INDENT 1, project_name;
  each (fun pinstr _ => "%s, %s_istats(\q%s\q, stats)\n" %: INDENT 1, i_name pinstr, i_name pinstr) instr_list;
  lit "{\n";
  COMMENT (INDENT 2) "Configuring stats collectors for each instruction" [];
  each (fun pinstr _ => "%sinstr_stats[%d] = &%s_istats;\n" %: INDENT 2, i_id pinstr, i_name pinstr) instr_list;
  lit "}\n"].

(** ** Interrupt handlers *)

Definition CreateIntrHeader : string := cat [
  print_comment "Interrupt Handlers header file.";
  "#ifndef _%s_INTR_HANDLERS_H\n" %: upper_project_name;
  "#define _%s_INTR_HANDLERS_H\n\n" %: upper_project_name;
  lit "#include \qac_intr_handler.H\q\n";
  "#include \q%s_parms.H\q\n" %: project_name;
  "#include \q%s_arch.H\q\n" %: project_name;
  "#include \q%s_arch_ref.H\q\n" %: project_name;
  lit "\n";
  each (fun pport _ => cat [
    "class %s_%s_handler :\n" %: project_name, sto_name pport;
    "%spublic ac_intr_handler,\n" %: INDENT 1;
    "%spublic %s_arch_ref\n" %: INDENT 1, project_name;
    lit "{\n";
    lit " public:\n\n";
    "%sexplicit %s_%s_handler(%s_arch& ref) : %s_arch_ref(ref) {}\n\n" %: INDENT 1, project_name, sto_name pport, project_name, project_name;
    "%svoid handle(uint32_t value);\n\n" %: INDENT 1;
    lit "};\n\n\n"]) tlm_intr_port_list;
  "#endif // _%s_INTR_HANDLERS_H\n" %: upper_project_name].

Definition CreateIntrMacrosHeader : string := cat [
  print_comment "Interrupt Handlers ac_behavior macros header file.";
  "#ifndef _%s_IH_BHV_MACROS_H\n" %: upper_project_name;
  "#define _%s_IH_BHV_MACROS_H\n\n\n" %: upper_project_name;
  "#define ac_behavior(intrp, value) %s_##intrp##_handler::handle(uint32_t value)\n\n" %: project_name;
  "#endif // _%s_IH_BHV_MACROS_H\n" %: upper_project_name].

Definition CreateIntrTmpl : string := cat [
  print_comment "Interrupt Handlers implementation file.";
  lit "#include \qac_intr_handler.H\q\n";
  "#include \q%s_intr_handlers.H\q\n\n" %: project_name;
  "#include \q%s_ih_bhv_macros.H\q\n\n" %: project_name;
  COMMENT (INDENT 0) "'using namespace' statement to allow access to all %s-specific datatypes" [project_name : arg];
  "using namespace %s_parms;\n\n" %: project_name;
  each (fun pport _ => cat [
    "// Interrupt handler behavior for interrupt port %s.\n" %: sto_name pport;
    "void ac_behavior(%s, value) {\n}\n\n" %: sto_name pport]) tlm_intr_port_list].

(** ** System calls and the main program *)

Definition CreateArchSyscallHeader : string := cat [
  print_comment "ArchC Architecture Dependent Syscall header file.";
  "#ifndef %s_SYSCALL_H\n" %: project_name;
  "#define %s_SYSCALL_H\n" %: project_name;
  lit "\n";
  "#include \q%s_arch.H\q\n" %: project_name;
  "#include \q%s_arch_ref.H\q\n" %: project_name;
  "#include \q%s_parms.H\q\n" %: project_name;
  lit "#include \qac_syscall.H\q\n";
  lit "\n";
  "//%s system calls\n" %: project_name;
  "class %s_syscall : public ac_syscall<%s_parms::ac_word, %s_parms::ac_Hword>, public %s_arch_ref\n" %: project_name, project_name, project_name, project_name;
  lit "{\n";
  lit "public:\n";
  "  %s_syscall(%s_arch& ref) : ac_syscall<%s_parms::ac_word, %s_parms::ac_Hword>(ref, %s_parms::AC_RAMSIZE), %s_arch_ref(ref) {};\n" %: project_name, project_name, project_name, project_name, project_name, project_name;
  "  virtual ~%s_syscall() {};\n" %: project_name;
  lit "\n";
  lit "  void get_buffer(int argn, unsigned char* buf, unsigned int size);\n";
  lit "  void set_buffer(int argn, unsigned char* buf, unsigned int size);\n";
  lit "  void set_buffer_noinvert(int argn, unsigned char* buf, unsigned int size);\n";
  lit "  int  get_int(int argn);\n";
  lit "  void set_int(int argn, int val);\n";
  lit "  void return_from_syscall();\n";
  lit "  void set_prog_args(int argc, char **argv);\n";
  lit "};\n";
  lit "\n";
  lit "#endif\n"].

Definition CreateMainTmpl (ACVERSION : string) : string := cat [
  print_comment ("This is the main file for the %s ArchC model" %: project_name);
  "const char *project_name=\q%s\q;\n" %: project_name;
  "const char *project_file=\q%s\q;\n" %: arch_filename;
  "const char *archc_version=\q%s\q;\n" %: ACVERSION;
  "const char *archc_options=\q%s\q;\n" %: ACOptions;
  lit "\n";
  lit "#include  <iostream>\n";
  lit "#include  <systemc.h>\n";
  lit "#include  \qac_stats_base.H\q\n";
  "#include  \q%s.H\q\n\n" %: project_name;
  lit "\n\n";
  lit "int sc_main(int ac, char *av[])\n";
  lit "{\n\n";
  COMMENT (INDENT 1) "%sISA simulator" [INDENT 1 : arg];
  "%s%s %s_proc1(\q%s\q);\n\n" %: INDENT 1, project_name, project_name, project_name;
  lit "#ifdef AC_DEBUG\n";
  "%sac_trace(\q%s_proc1.trace\q);\n" %: INDENT 1, project_name;
  lit "#endif \n\n";
  when ACGDBIntegrationFlag ("%s%s_proc1.enable_gdb();\n" %: INDENT 1, project_name);
  "%s%s_proc1.init(ac, av);\n" %: INDENT 1, project_name;
  "%scerr << endl;\n\n" %: INDENT 1;
  "%ssc_start();\n\n" %: INDENT 1;
  "%s%s_proc1.PrintStat();\n" %: INDENT 1, project_name;
  "%scerr << endl;\n\n" %: INDENT 1;
  lit "#ifdef AC_STATS\n";
  "%sac_stats_base::print_all_stats(std::cerr);\n" %: INDENT 1;
  lit "#endif \n\n";
  lit "#ifdef AC_DEBUG\n";
  "%sac_close_trace();\n" %: INDENT 1;
  lit "#endif \n\n";
  "%sreturn %s_proc1.ac_exit_status;\n" %: INDENT 1, project_name;
  lit "}\n"].

(** ** The decode unit *)

Definition EmitDecCacheTypes (base_indent : nat) : string := cat [
  each (fun pformat _ => cat [
    "%stypedef struct {\n" %: INDENT base_indent;
    each (fun pfield _ => cat [
      "%s" %: INDENT (S base_indent);
      if negb (f_sign pfield =? 0) then lit "signed"
      else lit "unsigned";
      " long %s:%d;\n" %: f_name pfield, f_size pfield]) (fmt_fields pformat);
    "%s} T_%s;\n\n" %: INDENT base_indent, fmt_name pformat]) format_ins_list;
  "%stypedef struct {\n" %: INDENT base_indent;
  "%sunsigned id;\n" %: INDENT (S base_indent);
  "%sunion {\n" %: INDENT (S base_indent);
  each (fun pformat _ => "%sT_%s F_%s;\n" %: INDENT (S (S base_indent)), fmt_name pformat, fmt_name pformat) format_ins_list;
  "%s};\n" %: INDENT (S base_indent);
  "%s} instr_dec;\n\n" %: INDENT base_indent].

Definition EmitDecCacheAt (base_indent : nat) : string := cat [
  "%sswitch (ISA->instr_format_table[instr_dec->id]) {\n" %: INDENT base_indent;
  each (fun pformat _ => cat [
    "%scase %d:\n" %: INDENT (S base_indent), fmt_id pformat;
    each (fun pfield _ => "%sinstr_dec->F_%s.%s = ins_cache[%d];\n" %: INDENT (S (S base_indent)), fmt_name pformat, f_name pfield, f_id pfield) (fmt_fields pformat);
    "%sbreak;\n" %: INDENT (S (S base_indent))]) format_ins_list;
  "%sdefault:\n" %: INDENT (S base_indent);
  "%sinstr_dec->id = 0;\n" %: INDENT (S (S base_indent));
  "%sbreak;\n" %: INDENT (S (S base_indent));
  "%s}\n" %: INDENT base_indent].

Definition EmitDecodeUnitDeclaration : string := cat [
  "#ifndef %s_DECODE_UNIT\n" %: upper_project_name;
  "#define %s_DECODE_UNIT\n\n" %: upper_project_name;
  lit "#include \qac_decoder_rt.H\q\n";
  lit "#include \qac_instr.H\q\n";
  lit "#include \qac_instr_info.H\q\n";
  lit "#include \qac_arch_dec_if.H\q\n";
  lit "#include \qac_decoded_cache.H\q\n";
  lit "#include \qstring.h\q\n\n";
  "#include \q%s_parms.H\q\n" %: project_name;
  "#include \q%s_isa.H\q\n\n" %: project_name;
  "class %s_decode_unit {\n" %: project_name;
  lit "public:\n";
  EmitDecCacheTypes 1;
  lit "private:\n";
  "%stypedef ac_decoded_cache<%s_parms::ac_word, instr_dec, 21> ac_decoded_cache_t;\n\n" %: INDENT 1, project_name;
  COMMENT (INDENT 1) "Reference to architecture model. Required to build decoder and" [];
  COMMENT (INDENT 1) "fetch data from memory." [];
  "%s%s_arch *arch;\n\n" %: INDENT 1, project_name;
  COMMENT (INDENT 1) "Reference to architecture ISA. Required to perform instruction" [];
  COMMENT (INDENT 1) "decoding." [];
  "%s%s_parms::%s_isa *ISA;\n\n" %: INDENT 1, project_name, project_name;
  COMMENT (INDENT 1) "Reference to decoder." [];
  "%sac_decoder_full *decoder;\n\n" %: INDENT 1;
  COMMENT (INDENT 1) "Reference to decoder cache." [];
  "%sac_decoded_cache_t *dec_cache;\n\n" %: INDENT 1;
  lit "public:\n";
  "%s%s_decode_unit (%s_arch *arch, %s_parms::%s_isa *ISA);\n" %: INDENT 1, project_name, project_name, project_name, project_name;
  "%sinstr_dec *decode (%s_parms::ac_word decode_pc);\n" %: INDENT 1, project_name;
  lit "};\n";
  "#endif // %s_DECODE_UNIT" %: upper_project_name].

Definition EmitDecodeUnitImpl : string := cat [
  "#include \q%s_decode_unit.H\q\n\n" %: project_name;
  "%s_decode_unit::%s_decode_unit (%s_arch *arch_, %s_parms::%s_isa *ISA_) {\n\n" %: project_name, project_name, project_name, project_name, project_name;
  "%sarch = arch_;\n" %: INDENT 1;
  "%sISA = ISA_;\n" %: INDENT 1;
  "%sdecoder = ac_decoder_full::CreateDecoder (ISA->formats, ISA->instructions, arch);\n" %: INDENT 1;
  "%sdec_cache = new ac_decoded_cache_t ();\n" %: INDENT 1;
  lit "}\n\n";
  "%s_decode_unit::instr_dec " %: project_name;
  "*%s_decode_unit::decode (%s_parms::ac_word decode_pc) {\n\n" %: project_name, project_name;
  "%sunsigned *ins_cache = NULL;\n" %: INDENT 1;
  "%s%s_decode_unit::instr_dec *instr_dec = NULL;\n" %: INDENT 1, project_name;
  "%s%s_parms::ac_fetch buffer[4];\n" %: INDENT 1, project_name;
  "%sconst unsigned quant = %d;\n\n" %: INDENT 1, Z.quot fetchsize wordsize;
  COMMENT (INDENT 1) "Perfom Instruction Fetch." [];
  "%sfor(int i = 0; i < quant; i++)\n" %: INDENT 1;
  "%sbuffer[i] = arch->IM->read (decode_pc + i*sizeof(%s_parms::ac_word));\n\n" %: INDENT 2, project_name;
  COMMENT (INDENT 1) "Attempt to use decoded cache." [];
  "%sinstr_dec = dec_cache->fetch_item (decode_pc, buffer, quant);\n\n" %: INDENT 1;
  "%sif (instr_dec) {\n" %: INDENT 1;
  "%sreturn instr_dec;\n" %: INDENT 2;
  "%s}\n" %: INDENT 1;
  COMMENT (INDENT 1) "Perform decode." [];
  "%sins_cache = decoder->Decode (reinterpret_cast<unsigned char *>(buffer), quant);\n\n" %: INDENT 1;
  COMMENT (INDENT 1) "Insert decoded instruction into decoded cache." [];
  "%sinstr_dec = dec_cache->insert_item (decode_pc, buffer, quant);\n\n" %: INDENT 1;
  "%sinstr_dec->id = ins_cache[IDENT];\n" %: INDENT 1;
  EmitDecCacheAt 1;
  "%sreturn instr_dec;\n" %: INDENT 1;
  lit "}\n"].

(** ** The makefile *)

Section makefile.
Context (BINDIR INCLUDEDIR LIBDIR : string) (conf : configuration) (systemc : bool).

(** Paths, compilers and flags. *)
Definition make_variables : string := cat [
  COMMENT_MAKE "####################################################" [];
  COMMENT_MAKE "This is the Makefile for building the %s ArchC model" [project_name : arg];
  COMMENT_MAKE "This file is automatically generated by ArchC" [];
  COMMENT_MAKE "WITHOUT WARRANTY OF ANY KIND, either express" [];
  COMMENT_MAKE "or implied." [];
  COMMENT_MAKE "For more information on ArchC, please visit:   " [];
  COMMENT_MAKE "http://www.archc.org                           " [];
  COMMENT_MAKE "                                               " [];
  COMMENT_MAKE "The ArchC Team                                 " [];
  COMMENT_MAKE "Computer Systems Laboratory (LSC)              " [];
  COMMENT_MAKE "IC-UNICAMP                                     " [];
  COMMENT_MAKE "http://www.lsc.ic.unicamp.br                   " [];
  COMMENT_MAKE "####################################################" [];
  lit "\n\n";
  COMMENT_MAKE "Variable that points to SystemC installation path" [];
  "SYSTEMC := %s\n" %: Ptr (SYSTEMC_PATH conf);
  lit "\n\n";
  COMMENT_MAKE "Variable that points to ArchC installation path" [];
  "ARCHC := %s\n" %: BINDIR;
  lit "\n";
  COMMENT_MAKE "Target Arch used by SystemC" [];
  "TARGET_ARCH := %s\n" %: Ptr (TARGET_ARCH conf);
  lit "\n\n";
  "INC_DIR := -I. -I%s -I$(SYSTEMC)/include " %: INCLUDEDIR;
  when (HaveTLMPorts || HaveTLMIntrPorts) ("-I%s" %: Ptr (TLM_PATH conf));
  lit "\n";
  "LIB_DIR := -L. -L$(SYSTEMC)/lib-$(TARGET_ARCH) -L%s\n" %: LIBDIR;
  lit "\n";
  "LIB_SYSTEMC := %s\n" %: (if systemc then "-lsystemc" else EmptyString);
  lit "LIBS := $(LIB_SYSTEMC) -lm $(EXTRA_LIBS) -larchc\n";
  "CC :=  %s\n" %: Ptr (CC_PATH conf);
  "OPT :=  %s\n" %: Ptr (OPT_FLAGS conf);
  "DEBUG :=  %s\n" %: Ptr (DEBUG_FLAGS conf);
  lit "OTHER := ";
  when (negb (ac_tgt_endian =? 0)) (lit " -DAC_GUEST_BIG_ENDIAN");
  when (negb (ac_match_endian =? 0)) (lit " -DAC_MATCH_ENDIANNESS");
  " %s\n" %: Ptr (OTHER_FLAGS conf);
  "CFLAGS := $(DEBUG) $(OPT) $(OTHER) %s\n" %: (if ACGDBIntegrationFlag then "-DUSE_GDB" else EmptyString);
  lit "\n";
  "MODULE := %s\n" %: project_name;
  lit "\n"].

(** The files of the model and of the library. *)
Definition make_sources : string := cat [
  COMMENT_MAKE "These are the source files automatically generated by ArchC, that must appear in the SRCS variable" [];
  lit "ACSRCS := $(MODULE)_arch.cpp $(MODULE)_arch_ref.cpp ";
  lit "$(MODULE).cpp ";
  lit "$(MODULE)_decode_unit.cpp";
  lit "\n\n";
  COMMENT_MAKE "These are the source files automatically generated  by ArchC that are included by other files in ACSRCS" [];
  lit "ACINCS := $(MODULE)_isa_init.cpp";
  lit "\n\n";
  COMMENT_MAKE "These are the header files automatically generated by ArchC" [];
  lit "ACHEAD := $(MODULE)_parms.H $(MODULE)_arch.H $(MODULE)_arch_ref.H $(MODULE)_isa.H $(MODULE)_bhv_macros.H ";
  when HaveFormattedRegs (lit "$(MODULE)_fmt_regs.H ");
  when ACStatsFlag ("%s_stats.H " %: project_name);
  lit "$(MODULE).H ";
  when HaveTLMIntrPorts (lit "$(MODULE)_intr_handlers.H $(MODULE)_ih_bhv_macros.H ");
  lit "\n\n";
  COMMENT_MAKE "These are the source files provided by ArchC that must be compiled together with the ACSRCS" [];
  COMMENT_MAKE "They are stored in the archc/src/aclib directory" [];
  lit "ACFILES := ";
  when HaveMemHier (lit "ac_cache.cpp ac_mem.cpp ac_cache_if.cpp ");
  lit "\n\n";
  COMMENT_MAKE "These are the library files provided by ArchC" [];
  COMMENT_MAKE "They are stored in the archc/lib directory" [];
  lit "ACLIBFILES := ac_decoder_rt.o ac_module.o ac_storage.o ac_utils.o ";
  when ACABIFlag (lit "ac_syscall.o ");
  when HaveTLMPorts (lit "ac_tlm_port.o ");
  when HaveTLMIntrPorts (lit "ac_tlm_intr_port.o ");
  lit "\n\n";
  COMMENT_MAKE "These are the headers files provided by ArchC" [];
  COMMENT_MAKE "They are stored in the archc/include directory" [];
  lit "ACFILESHEAD := $(ACFILES:.cpp=.H) ac_decoder_rt.H ac_module.H ac_storage.H ac_utils.H ac_regbank.H ac_debug_model.H ac_sighandlers.H ac_ptr.H ac_memport.H ac_arch.H ac_arch_dec_if.H ac_arch_ref.H ";
  when ACABIFlag (lit "ac_syscall.H ");
  when HaveTLMPorts (lit "ac_tlm_port.H ");
  when HaveTLMIntrPorts (lit "ac_tlm_intr_port.H ");
  when (HaveTLMPorts || HaveTLMIntrPorts) (lit "ac_tlm_protocol.H ");
  when ACStatsFlag (lit "ac_stats.H ac_stats_base.H ");
  lit "\n\n"].

(** Objects and the executable. *)
Definition make_rules : string := cat [
  COMMENT_MAKE "These are the source files provided by the user + ArchC sources" [];
  "SRCS := main.cpp $(ACSRCS) $(ACFILES) %s" %: (if ACGDBIntegrationFlag then "$(MODULE)_gdb_funcs.cpp" else EmptyString);
  when ACABIFlag (lit " $(MODULE)_syscall.cpp");
  when HaveTLMIntrPorts (lit " $(MODULE)_intr_handlers.cpp");
  when ACStatsFlag (lit " $(MODULE)_stats.cpp");
  lit "\n\n";
  lit "OBJS := $(SRCS:.cpp=.o)\n\n";
  lit "\n";
  lit "EXE := $(MODULE).x\n\n";
  lit ".SUFFIXES: .cc .cpp .o .x\n\n";
  "all: $(addprefix %s/, $(ACFILESHEAD))" %: INCLUDEDIR;
  when ACABIFlag (lit " $(MODULE)_syscall.H");
  lit " $(ACHEAD) $(ACFILES) $(EXE)\n\n";
  "$(EXE): $(OBJS) %s\n" %: (if systemc then "$(SYSTEMC)/lib-$(TARGET_ARCH)/libsystemc.a" else EmptyString);
  lit "\t$(CC) $(CFLAGS) $(INC_DIR) $(LIB_DIR) -o $@ $(OBJS) $(LIBS) 2>&1 | c++filt\n\n"].

(** The files that start as copies of templates. *)
Definition make_templates : string := cat [
  COMMENT_MAKE "Copy from template if main.cpp not exist" [];
  lit "main.cpp:\n";
  lit "\tcp main.cpp.tmpl main.cpp\n\n";
  when ACABIFlag (cat [
    COMMENT_MAKE "Copy from template if %s_syscall.H not exist" [project_name : arg];
    "%s_syscall.H:\n" %: project_name;
    "\tcp %s_syscall.H.tmpl %s_syscall.H\n\n" %: project_name, project_name]);
  when ACStatsFlag (cat [
    COMMENT_MAKE "Copy from template if %s_stats.H not exist" [project_name : arg];
    "%s_stats.H:\n" %: project_name;
    "\tcp %s_stats.H.tmpl %s_stats.H\n\n" %: project_name, project_name;
    COMMENT_MAKE "Copy from template if %s_stats.cpp not exist" [project_name : arg];
    "%s_stats.cpp:\n" %: project_name;
    "\tcp %s_stats.cpp.tmpl %s_stats.cpp\n\n" %: project_name, project_name]);
  when HaveTLMIntrPorts (cat [
    COMMENT_MAKE "Copy from template if %s_intr_handlers.cpp not exist" [project_name : arg];
    "%s_intr_handlers.cpp:\n" %: project_name;
    "\tcp %s_intr_handlers.cpp.tmpl %s_intr_handlers.cpp\n\n" %: project_name, project_name])].

Definition make_text : string := cat [
  make_variables;
  make_sources;
  make_rules;
  make_templates;
  lit ".cpp.o:\n";
  lit "\t$(CC) $(CFLAGS) $(INC_DIR) -c $<\n\n";
  lit ".cc.o:\n";
  lit "\t$(CC) $(CFLAGS) $(INC_DIR) -c $<\n\n";
  lit "clean:\n";
  lit "\trm -f $(OBJS) *~ $(EXE) core *.o \n\n";
  lit "model_clean:\n";
  lit "\trm -f $(ACSRCS) $(ACHEAD) $(ACINCS) $(ACFILESHEAD) $(ACFILES) *.tmpl loader.ac \n\n";
  lit "sim_clean: clean model_clean\n\n";
  lit "distclean: sim_clean\n";
  lit "\trm -f main.cpp Makefile.archc\n\n"].
End makefile.

(** [strlen(SYSTEMC_PATH)] is read when the library is chosen. *)
Definition CreateMakefile (BINDIR INCLUDEDIR LIBDIR : string) (conf : configuration) : exec string :=
  match SYSTEMC_PATH conf with
  | None => Crash
  | Some path => Ret (make_text BINDIR INCLUDEDIR LIBDIR conf (2 <? String.length path)%nat)
  end.
End files.
