(* ===== verification/AcSimMain.v ===== *)
(** * The simulator generator: the driver

    [main] of [archc/src/acsim/acsim.c] from the parsed description on: sizes that
    were not declared, the order of the bits, the decoder, and the files in the
    order they are written.  The first file that cannot be opened ends the run,
    the files before it stay. *)
From S2P Require Import Prelude CString DecTypes CoreActions AsmTypes BinUtils AcDecoder AcSim AcSimRes AcSimIsa AcSimProc AcSimFiles.

Definition file : Type := string * string.

(** The version and the directories of the installation. *)
Record installation := MkInstall { ACVERSION : string; BINDIR : string; INCLUDEDIR : string; LIBDIR : string }.

(** What [main] does to the description before the first file: [m] is what the
    parser left, [host_big] the byte order of the host. *)
Definition prepare (host_big : bool) (m : model) : exec model :=
  let wordsize := if wordsize =? 0 then 32 else wordsize in
  let fetchsize := if fetchsize =? 0 then wordsize else fetchsize in
  let match_endian := if (if host_big then 1 else 0) =? ac_tgt_endian then 1 else 0 in
  let formats := if ac_tgt_endian =? 0 then invert_fields format_ins_list else format_ins_list in
  decoder ← CreateDecoder formats instr_list;
  Ret (Build_model project_name upper_project_name helper_contents wordsize fetchsize match_endian ac_tgt_endian
    HaveFormattedRegs HaveMemHier HaveTLMPorts HaveTLMIntrPorts HaveMultiCycleIns HaveCycleRange
    (full_formats decoder) format_reg_list common_instr_field_list (full_instructions decoder) group_list
    storage_list tlm_intr_port_list fetch_device (full_nFields decoder) instr_num format_num largest_format_size).

Section files.
Context `{!options} `{!model}.

(** A file of the model. *)
Definition named (suffix : string) : string := project_name +:+ suffix.

Definition regs_step : list (string * exec string) :=
  let name := named "_fmt_regs.H" in
  if negb HaveFormattedRegs then []
  else match CreateRegsHeader with
       | Ret None => []
       | Ret (Some t) => [(name, Ret t)]
       | Exit msg => [(name, Exit msg)]
       | Crash => [(name, Crash)]
       end.

Definition when_files (b : bool) (l : list (string * exec string)) : list (string * exec string) := if b then l else [].

(** The files in order; [load_device] is chosen with [<arch>_arch.cpp]. *)
Definition steps (inst : installation) (conf : configuration) : list (string * exec string) :=
  let behaviors := with_formats instr_list in
  [(named "_arch.H", Ret CreateArchHeader);
   (named "_arch_ref.H", Ret CreateArchRefHeader);
   (named "_arch.cpp", fst <$> CreateArchImpl);
   (named "_arch_ref.cpp", Ret CreateArchRefImpl);
   (named "_isa.H", CreateISAHeader <$> behaviors);
   (named "_bhv_macros.H", behavior_macros <$> behaviors);
   (named "_decode_unit.H", Ret EmitDecodeUnitDeclaration);
   (named "_decode_unit.cpp", Ret EmitDecodeUnitImpl);
   (named ".H", Ret CreateProcessorHeader);
   (named ".cpp", b ← behaviors; CreateProcessorImpl b)]
  ++ regs_step
  ++ when_files HaveTLMIntrPorts
       [(named "_intr_handlers.H", Ret CreateIntrHeader);
        (named "_ih_bhv_macros.H", Ret CreateIntrMacrosHeader);
        (named "_intr_handlers.cpp.tmpl", Ret CreateIntrTmpl)]
  ++ when_files ACStatsFlag
       [(named "_stats.H.tmpl", Ret CreateStatsHeaderTmpl); (named "_stats.cpp.tmpl", Ret CreateStatsImplTmpl)]
  ++ when_files ACABIFlag [(named "_syscall.H.tmpl", Ret CreateArchSyscallHeader)]
  ++ [(named "_isa.cpp.tmpl", Ret behavior_template);
      (named "_isa_init.cpp", snd <$> CreateImplTmpl);
      (named "_parms.H", CreateParmHeader declist_num ∘ snd <$> CreateArchImpl);
      ("main.cpp.tmpl", Ret (CreateMainTmpl (ACVERSION inst)));
      ("Makefile.archc", CreateMakefile (BINDIR inst) (INCLUDEDIR inst) (LIBDIR inst) conf)].
End files.

(** Opens and writes one file after the other. *)
Fixpoint write_files (opens : string -> bool) (l : list (string * exec string)) : list file * exec () :=
  match l with
  | [] => ([], Ret ())
  | (name, text) :: l =>
      if opens name then
        match text with
        | Ret t => let '(files, r) := write_files opens l in ((name, t) :: files, r)
        | Exit msg => ([], Exit msg)
        | Crash => ([], Crash)
        end
      else ([], Exit (lit "ArchC could not open output file"))
  end.

Definition generate (host_big : bool) (opens : string -> bool) (inst : installation) (conf : configuration) (o : options) (m : model)
    : list file * exec () :=
  match prepare host_big m with
  | Ret m => write_files opens (@steps o m inst conf)
  | Exit msg => ([], Exit msg)
  | Crash => ([], Crash)
  end.
