(* ===== verification/AcSimOk.v ===== *)
(** * The simulator generator: what its files say

    The tables that [AcSimIsa] prints are read back the way the decoder of the
    simulator reads them, by following pointers, and give the description the
    generator started from. *)
From S2P Require Import Prelude CString DecTypes CoreActions AsmTypes BinUtils AcDecoder AcDecoderOk AcSim AcSimRes AcSimIsa AcSimProc AcSimFiles AcSimMain.

(** ** Reading the tables *)

Section read.
Context {R A : Type} (item : R -> A) (next : R -> option Z).

(** The list behind a pointer to the element [i] of an array; no element or
    no end of the list is [None]. *)
Fixpoint follow (rows : list R) (fuel : nat) (i : Z) : option (list A) :=
  match fuel with
  | O => None
  | S fuel =>
      r ← rows !! Z.to_nat i;
      match next r with
      | None => Some [item r]
      | Some j => l ← follow rows fuel j; Some (item r :: l)
      end
  end.

(** The list that starts with the first element. *)
Definition elements (rows : list R) : option (list A) :=
  match rows with [] => Some [] | _ => follow rows (length rows) 0 end.

Lemma follow_nonempty rows fuel i l : follow rows fuel i = Some l -> l <> [].
Proof.
  destruct fuel; cbn; [discriminate|]. destruct (rows !! Z.to_nat i); cbn; [|discriminate].
  destruct (next r); [|congruence]. destruct (follow rows fuel z); cbn; congruence.
Qed.

(** A part of an array whose elements are chained in order. *)
Definition linked (base : Z) (rows : list R) : Prop :=
  forall k r, rows !! k = Some r -> next r = if (S k <? length rows)%nat then Some (base + Z.of_nat k + 1) else None.

Lemma linked_tail base r rows : linked base (r :: rows) -> linked (base + 1) rows.
Proof.
  intros H k r' Hk. rewrite (H (S k) r' Hk). cbn [length].
  change (S (S k) <? S (length rows))%nat with (S k <? length rows)%nat.
  destruct (S k <? length rows)%nat; [f_equal; lia|reflexivity].
Qed.

Lemma linked_cons base r rows :
  next r = match rows with [] => None | _ => Some (base + 1) end -> linked (base + 1) rows -> linked base (r :: rows).
Proof.
  intros Hr H k r' Hk. destruct k as [|k]; cbn in Hk.
  - injection Hk as <-. rewrite Hr. destruct rows; cbn; f_equal; lia.
  - rewrite (H k r' Hk). cbn [length]. change (S (S k) <? S (length rows))%nat with (S k <? length rows)%nat.
    destruct (S k <? length rows)%nat; [f_equal; lia|reflexivity].
Qed.

(** Such a part is read to its end. *)
Lemma follow_linked pre post rows fuel base :
  rows <> [] -> base = Z.of_nat (length pre) -> (length rows <= fuel)%nat -> linked base rows ->
  follow (pre ++ rows ++ post) fuel base = Some (map item rows).
Proof.
  revert pre fuel base. induction rows as [|r rows IH]; intros pre fuel base Hne Hb Hfuel Hl; [congruence|].
  destruct fuel as [|fuel]; cbn [length] in Hfuel; [lia|]. cbn [follow app].
  rewrite Hb, Nat2Z.id, lookup_app_r, Nat.sub_diag by lia. cbn. rewrite (Hl 0%nat r eq_refl). cbn [length].
  destruct rows as [|r' rows]; [reflexivity|]. cbn [length Nat.ltb Nat.leb]. rewrite Z.add_0_r.
  replace (pre ++ r :: (r' :: rows) ++ post) with ((pre ++ [r]) ++ (r' :: rows) ++ post) by (rewrite <- app_assoc; reflexivity).
  rewrite IH; [reflexivity|discriminate|rewrite length_app; cbn; lia|cbn in *; lia|]. eapply linked_tail; eassumption.
Qed.

Lemma elements_linked rows : linked 0 rows -> elements rows = Some (map item rows).
Proof.
  intros H. unfold elements. destruct rows as [|r rows]; [reflexivity|].
  pose proof (follow_linked [] [] (r :: rows) (length (r :: rows)) 0) as F. rewrite app_nil_r in F. cbn [app] in F.
  apply F; [discriminate|reflexivity|lia|assumption].
Qed.

Lemma rows_from_length {B} (row : Z -> B -> option Z -> R) i l : length (rows_from row i l) = length l.
Proof. revert i. induction l as [|x l IH]; intros i; cbn; [|rewrite IH]; reflexivity. Qed.

Lemma rows_from_linked {B} (row : Z -> B -> option Z -> R) i l :
  (forall i x n, next (row i x n) = n) -> linked i (rows_from row i l).
Proof.
  intros H. revert i. induction l as [|x l IH]; intros i; cbn; [intros k r Hk; discriminate|].
  apply linked_cons; [|apply IH]. rewrite H. destruct l; reflexivity.
Qed.

Lemma rows_from_items {B} (row : Z -> B -> option Z -> R) (g : B -> A) i l :
  (forall i x n, item (row i x n) = g x) -> map item (rows_from row i l) = map g l.
Proof. intros H. revert i. induction l as [|x l IH]; intros i; cbn; [|rewrite H, IH]; reflexivity. Qed.
End read.

(** The formats behind the first row, with the fields behind their pointers. *)
Definition read_format (fields : list field_row) (r : format_row) : option ac_dec_format :=
  MkFormat (fmr_id r) (fmr_name r) (fmr_size r) <$> follow fr_field fr_next fields (length fields) (fmr_fields r).
Definition read_formats (fields : list field_row) (formats : list format_row) : option (list ac_dec_format) :=
  rs ← elements id fmr_next formats; mapM (read_format fields) rs.

(** The instructions with their decode lists. *)
Definition read_instr (decs : list dec_row) (r : instr_row) : option ac_dec_instr :=
  (fun l => set_i_dec_list l (ir_instr r)) <$> follow dr_dec dr_next decs (length decs) (ir_dec r).
Definition read_instrs (decs : list dec_row) (instrs : list instr_row) : option (list ac_dec_instr) :=
  rs ← elements id ir_next instrs; mapM (read_instr decs) rs.

(** ** Arrays that hold several lists *)

Section blocks.
Context {R A B : Type} (item : R -> A) (next : R -> option Z) (row : Z -> B -> option Z -> R) (g : B -> A).
Hypothesis next_row : forall i x n, next (row i x n) = n.
Hypothesis item_row : forall i x n, item (row i x n) = g x.

(** The rows of one list after the other, numbered from [c]. *)
Fixpoint blocks (c : Z) (ls : list (list B)) : list (list R) :=
  match ls with [] => [] | l :: ls => rows_from row c l :: blocks (c + Z.of_nat (length l)) ls end.

(** Where the list [k] starts. *)
Definition start (c : Z) (ls : list (list B)) (k : nat) : Z := c + Z.of_nat (length (concat (take k ls))).

Lemma start_0 c ls : start c ls 0 = c.
Proof. unfold start. rewrite take_0. cbn. lia. Qed.

Lemma start_S c l ls k : start c (l :: ls) (S k) = start (c + Z.of_nat (length l)) ls k.
Proof. unfold start. rewrite firstn_cons. cbn [concat]. rewrite length_app. lia. Qed.

Lemma blocks_length c ls : length (concat (blocks c ls)) = length (concat ls).
Proof. revert c. induction ls as [|l ls IH]; intros c; cbn; [reflexivity|]. rewrite !length_app, rows_from_length, IH. reflexivity. Qed.

(** A list that is not empty is read back. *)
Lemma follow_blocks pre c ls fuel k l :
  c = Z.of_nat (length pre) -> (length (concat ls) <= fuel)%nat -> ls !! k = Some l -> l <> [] ->
  follow item next (pre ++ concat (blocks c ls)) fuel (start c ls k) = Some (map g l).
Proof.
  revert pre c k. induction ls as [|l' ls IH]; intros pre c k Hc Hfuel Hk Hne; [discriminate|].
  cbn [concat] in Hfuel. rewrite length_app in Hfuel. cbn [blocks concat]. destruct k as [|k]; cbn in Hk.
  - injection Hk as ->. rewrite start_0, follow_linked.
    + f_equal. apply rows_from_items. assumption.
    + destruct l; cbn; congruence.
    + assumption.
    + rewrite rows_from_length. lia.
    + apply rows_from_linked. assumption.
  - rewrite start_S, app_assoc. apply IH; [|lia|assumption..]. rewrite length_app, rows_from_length. lia.
Qed.
End blocks.

Lemma field_rows_blocks c formats : field_rows c formats = blocks (fun _ => MkFieldRow) c (map fmt_fields formats).
Proof. revert c. induction formats as [|f fs IH]; intros c; cbn; [|rewrite IH]; reflexivity. Qed.

Lemma dec_rows_blocks c instrs : dec_rows c instrs = blocks (fun _ => MkDecRow) c (map i_dec_list instrs).
Proof. revert c. induction instrs as [|i l IH]; intros c; cbn; [|rewrite IH]; reflexivity. Qed.

Lemma format_rows_lookup i c formats k :
  format_rows i c formats !! k =
  (fun f => MkFormatRow (fmt_id f) (fmt_name f) (fmt_size f) (start c (map fmt_fields formats) k) (link (i + Z.of_nat k) (drop (S k) formats)))
  <$> formats !! k.
Proof.
  revert i c k. induction formats as [|f fs IH]; intros i c k; [reflexivity|]. destruct k as [|k]; cbn [format_rows lookup list_lookup map].
  - rewrite start_0, Z.add_0_r. reflexivity.
  - rewrite IH, start_S. replace (i + 1 + Z.of_nat k) with (i + Z.of_nat (S k)) by lia. reflexivity.
Qed.

Lemma instr_rows_lookup i c instrs k :
  instr_rows i c instrs !! k =
  (fun p => MkInstrRow p (start c (map i_dec_list instrs) k) (link (i + Z.of_nat k) (drop (S k) instrs))) <$> instrs !! k.
Proof.
  revert i c k. induction instrs as [|f fs IH]; intros i c k; [reflexivity|]. destruct k as [|k]; cbn [instr_rows lookup list_lookup map].
  - rewrite start_0, Z.add_0_r. reflexivity.
  - rewrite IH, start_S. replace (i + 1 + Z.of_nat k) with (i + Z.of_nat (S k)) by lia. reflexivity.
Qed.

Lemma link_drop {A} i k (l : list A) : (k < length l)%nat ->
  link (i + Z.of_nat k) (drop (S k) l) = if (S k <? length l)%nat then Some (i + Z.of_nat k + 1) else None.
Proof.
  intros Hk. destruct (drop (S k) l) eqn:E; destruct (S k <? length l)%nat eqn:E'; try reflexivity.
  - apply Nat.ltb_lt in E'. apply (f_equal length) in E. rewrite length_drop in E. cbn in E. lia.
  - apply Nat.ltb_ge in E'. rewrite drop_ge in E by lia. discriminate.
Qed.

Lemma format_rows_length i c formats : length (format_rows i c formats) = length formats.
Proof. revert i c. induction formats as [|f fs IH]; intros i c; cbn; [|rewrite IH]; reflexivity. Qed.

Lemma instr_rows_length i c instrs : length (instr_rows i c instrs) = length instrs.
Proof. revert i c. induction instrs as [|f fs IH]; intros i c; cbn; [|rewrite IH]; reflexivity. Qed.

Lemma format_rows_linked i c formats : linked fmr_next i (format_rows i c formats).
Proof.
  intros k r Hk. rewrite format_rows_length. rewrite format_rows_lookup in Hk.
  apply fmap_Some in Hk as (f & Hf & ->). cbn. apply link_drop. eapply lookup_lt_Some; eassumption.
Qed.

Lemma instr_rows_linked i c instrs : linked ir_next i (instr_rows i c instrs).
Proof.
  intros k r Hk. rewrite instr_rows_length. rewrite instr_rows_lookup in Hk.
  apply fmap_Some in Hk as (f & Hf & ->). cbn. apply link_drop. eapply lookup_lt_Some; eassumption.
Qed.

(** The list behind the pointer of the format [k]. *)
Lemma read_fields formats k f : formats !! k = Some f -> fmt_fields f <> [] ->
  let fields := concat (field_rows 0 formats) in
  follow fr_field fr_next fields (length fields) (start 0 (map fmt_fields formats) k) = Some (fmt_fields f).
Proof.
  intros Hk Hne. rewrite field_rows_blocks. cbn zeta. rewrite blocks_length.
  pose proof (follow_blocks fr_field fr_next (fun _ => MkFieldRow) id (fun _ _ _ => eq_refl) (fun _ _ _ => eq_refl)
    [] 0 (map fmt_fields formats) (length (concat (map fmt_fields formats))) k (fmt_fields f)) as F.
  rewrite map_id in F. apply F; [reflexivity|lia| |assumption]. rewrite list_lookup_fmap, Hk. reflexivity.
Qed.

Lemma read_dec_list instrs k p : instrs !! k = Some p -> i_dec_list p <> [] ->
  let decs := concat (dec_rows 0 instrs) in
  follow dr_dec dr_next decs (length decs) (start 0 (map i_dec_list instrs) k) = Some (i_dec_list p).
Proof.
  intros Hk Hne. rewrite dec_rows_blocks. cbn zeta. rewrite blocks_length.
  pose proof (follow_blocks dr_dec dr_next (fun _ => MkDecRow) id (fun _ _ _ => eq_refl) (fun _ _ _ => eq_refl)
    [] 0 (map i_dec_list instrs) (length (concat (map i_dec_list instrs))) k (i_dec_list p)) as F.
  rewrite map_id in F. apply F; [reflexivity|lia| |assumption]. rewrite list_lookup_fmap, Hk. reflexivity.
Qed.

(** The formats are read back exactly when every format has a field. *)
Lemma read_formats_iff formats :
  read_formats (concat (field_rows 0 formats)) (format_rows 0 0 formats) = Some formats
  <-> Forall (fun f => fmt_fields f <> []) formats.
Proof.
  unfold read_formats. rewrite elements_linked by apply format_rows_linked. cbn. rewrite map_id, mapM_Some. split.
  - intros H. apply Forall_lookup. intros k f Hf.
    destruct (Forall2_lookup_r _ _ _ _ _ H Hf) as (r & Hr & Hread). unfold read_format in Hread.
    apply fmap_Some in Hread as (l & Hl & ->). cbn. eapply follow_nonempty; eassumption.
  - intros H. apply Forall2_same_length_lookup. split; [apply format_rows_length|].
    intros k r f Hr Hf. rewrite format_rows_lookup, Hf in Hr. injection Hr as <-.
    unfold read_format. cbn [fmr_fields fmr_id fmr_name fmr_size].
    rewrite (read_fields formats k f Hf) by (rewrite Forall_lookup in H; eapply H; eassumption).
    destruct f; reflexivity.
Qed.

Lemma read_instrs_iff instrs :
  read_instrs (concat (dec_rows 0 instrs)) (instr_rows 0 0 instrs) = Some instrs
  <-> Forall (fun p => i_dec_list p <> []) instrs.
Proof.
  unfold read_instrs. rewrite elements_linked by apply instr_rows_linked. cbn. rewrite map_id, mapM_Some. split.
  - intros H. apply Forall_lookup. intros k p Hp.
    destruct (Forall2_lookup_r _ _ _ _ _ H Hp) as (r & Hr & Hread). unfold read_instr in Hread.
    apply fmap_Some in Hread as (l & Hl & ->). cbn. eapply follow_nonempty; eassumption.
  - intros H. apply Forall2_same_length_lookup. split; [apply instr_rows_length|].
    intros k r p Hr Hp. rewrite instr_rows_lookup, Hp in Hr. injection Hr as <-.
    unfold read_instr. cbn [ir_dec ir_instr].
    rewrite (read_dec_list instrs k p Hp) by (rewrite Forall_lookup in H; eapply H; eassumption).
    destruct p; reflexivity.
Qed.

(** ** What [CreateDecoder] guarantees *)

(** The instruction has a decode list and its format is declared. *)
Definition complete (formats : list ac_dec_format) (p : ac_dec_instr) : Prop :=
  i_dec_list p <> [] /\ exists f, list_first (fun f => streq (fmt_name f) (i_format p)) formats = Some f.

Lemma add_instructions_complete name_of formats instrs : forall k dec dec' instrs',
  add_instructions name_of formats k dec instrs = Ret (dec', instrs') -> Forall (complete formats) instrs'.
Proof.
  induction instrs as [|p instrs IH]; intros k dec dec' instrs' H; cbn [add_instructions] in H.
  - injection H as <- <-. constructor.
  - unfold FindFormat in H. destruct (list_first _ formats) as [f|] eqn:Hf; [|discriminate]. cbn in H.
    exec_inv H. destruct a as [dec1 p1]. unfold AddToDecoder in E.
    destruct (i_dec_list p) as [|c l] eqn:Hl; [discriminate|]. exec_inv E. injection E as <- <-.
    exec_inv H. destruct a0 as [dec2 l2]. injection H as <- <-.
    constructor; [|eapply IH; eassumption]. split; cbn; [discriminate|]. exists f. exact Hf.
Qed.

Lemma streq_comm s t : streq s t = streq t s.
Proof. apply eq_bool_prop_intro. rewrite !Is_true_true, !streq_spec. split; congruence. Qed.

Lemma complete_format_of (m : model) p : complete format_ins_list p ->
  exists f, format_of p = Ret f /\ FindFormat format_ins_list (i_format p) = Ret f.
Proof.
  intros [_ [f Hf]]. exists f. unfold format_of, FindFormat. rewrite Hf. split; [|reflexivity].
  enough (list_first (fun pformat => streq (i_format p) (fmt_name pformat)) format_ins_list = Some f) as -> by reflexivity.
  rewrite <- Hf. clear Hf. induction format_ins_list as [|x l IH]; cbn; [reflexivity|]. rewrite streq_comm, IH. reflexivity.
Qed.

(** Both searches find a format for every instruction, the same one. *)
Lemma complete_formats (m : model) instrs : Forall (complete format_ins_list) instrs ->
  exists behaviors, with_formats instrs = Ret behaviors /\
    format_numbers instrs = Ret (map (fun b => fmt_id (snd b)) behaviors) /\ map fst behaviors = instrs.
Proof.
  induction 1 as [|p instrs Hp _ IH]; [exists []; repeat split|].
  destruct IH as (behaviors & Hb & Hn & Hf), (complete_format_of m p Hp) as (f & Hf1 & Hf2).
  exists ((p, f) :: behaviors). cbn [with_formats format_numbers]. rewrite Hf1, Hf2, Hb, Hn. cbn.
  rewrite Hf. repeat split.
Qed.

Lemma prepare_complete host_big m m' : prepare host_big m = Ret m' -> Forall (complete (@format_ins_list m')) (@instr_list m').
Proof.
  unfold prepare, CreateDecoder. intros H. exec_inv H. injection H as <-. cbn.
  destruct (PutIDs _) as [fields formats]. exec_inv E. destruct a0 as [dec instrs]. injection E as <-. cbn.
  eapply add_instructions_complete. eassumption.
Qed.

(** ** What [prepare] keeps of the description *)

(** A field as it was read: for a target of little-endian words the bits are counted from
    the other end, so the last bit becomes the first one. *)
Definition kept_field (little : bool) (size : Z) (f g : ac_dec_field) : Prop :=
  f_name g = f_name f /\ f_size g = f_size f /\ f_val g = f_val f /\ f_sign g = f_sign f /\
  f_first_bit g = if little then size - 1 - (f_first_bit f - (f_size f - 1)) else f_first_bit f.

(** A format as it was read; its id is its place in the list. *)
Definition kept_format (little : bool) (k : nat) (f g : ac_dec_format) : Prop :=
  fmt_id g = Z.of_nat k /\ fmt_name g = fmt_name f /\ fmt_size g = fmt_size f /\
  Forall2 (kept_field little (fmt_size f)) (fmt_fields f) (fmt_fields g).

(** An instruction as it was read: its size comes from its format, and each
    element of its decode list has the id of the field of that name. *)
Definition kept_instr (formats : list ac_dec_format) (p q : ac_dec_instr) : Prop :=
  exists f, list_first (fun f => streq (fmt_name f) (i_format p)) formats = Some f /\
    q = set_i_size (Z.quot (fmt_size f) 8) (set_i_dec_list (i_dec_list q) p) /\
    Forall2 (fun l l' => dl_name l' = dl_name l /\ dl_value l' = dl_value l /\
      forall g, list_first (fun g => streq (f_name g) (dl_name l)) (fmt_fields f) = Some g -> dl_id l' = f_id g)
      (i_dec_list p) (i_dec_list q).

Lemma assign_ids_kept f l : Forall2 (fun x x' => dl_name x' = dl_name x /\ dl_value x' = dl_value x /\
  forall g, list_first (fun g => streq (f_name g) (dl_name x)) (fmt_fields f) = Some g -> dl_id x' = f_id g) l (assign_id f <$> l).
Proof.
  induction l as [|x l IH]; [constructor|]. rewrite fmap_cons. constructor; [|exact IH]. unfold assign_id.
  destruct (list_first _ (fmt_fields f)) as [g|]; (split; [reflexivity|]); (split; [reflexivity|]); [intros g' [= <-]; reflexivity|discriminate].
Qed.

Lemma add_instructions_prepared name_of formats todo : forall k dec dec' todo',
  add_instructions name_of formats k dec todo = Ret (dec', todo') -> Forall2 (kept_instr formats) todo todo'.
Proof.
  induction todo as [|p todo IH]; intros k dec dec' todo' H; cbn [add_instructions] in H.
  - injection H as <- <-. constructor.
  - unfold FindFormat in H. destruct (list_first _ formats) as [f|] eqn:Hf; [|discriminate]. cbn in H.
    exec_inv H. destruct a as [dec1 p1]. unfold AddToDecoder in E.
    destruct (i_dec_list p) as [|c l] eqn:Hl; [discriminate|]. exec_inv E. injection E as <- <-.
    exec_inv H. destruct a0 as [dec2 l2]. injection H as <- <-. constructor; [|eapply IH; eassumption].
    exists f. split; [exact Hf|]. split; [reflexivity|]. cbn [i_dec_list set_i_size set_i_dec_list]. rewrite Hl.
    exact (assign_ids_kept f (c :: l)).
Qed.

Lemma number_formats_lookup l : forall n k, number_formats n l !! k = set_fmt_id (n + Z.of_nat k) <$> (l !! k).
Proof.
  induction l as [|f l IH]; intros n [|k]; cbn; try reflexivity; [rewrite Z.add_0_r; reflexivity|].
  rewrite IH. do 2 f_equal. lia.
Qed.

(** Numbering changes the ids of the fields only. *)
Lemma erased_fields l : forall l', set_f_id 0 <$> l' = set_f_id 0 <$> l ->
  Forall2 (fun f g => f_name g = f_name f /\ f_size g = f_size f /\ f_val g = f_val f /\ f_sign g = f_sign f /\ f_first_bit g = f_first_bit f) l l'.
Proof.
  induction l as [|f l IH]; intros [|g l'] H; try discriminate; [constructor|]. injection H as H1 H2 H3 H4 H5 H6. constructor; auto.
Qed.

Lemma prepare_keeps host_big (m m' : model) : prepare host_big m = Ret m' ->
  (forall k, option_Forall2 (kept_format (@ac_tgt_endian m =? 0) k) (@format_ins_list m !! k) (@format_ins_list m' !! k)) /\
  Forall2 (kept_instr (@format_ins_list m')) (@instr_list m) (@instr_list m').
Proof.
  unfold prepare, CreateDecoder. intros H. exec_inv H. injection H as <-. cbn.
  set (l := if @ac_tgt_endian m =? 0 then invert_fields (@format_ins_list m) else @format_ins_list m) in *.
  pose proof (PutIDs_numbered (number_formats 0 l)) as Hn.
  destruct (PutIDs (number_formats 0 l)) as [fields formats]. destruct Hn as (_ & _ & He & _). exec_inv E. destruct a0 as [dec instrs]. injection E as <-. cbn.
  split; [|eapply add_instructions_prepared; eassumption]. intros k.
  assert (Hk := f_equal (fun x => x !! k) He). cbn in Hk. rewrite !list_lookup_fmap, number_formats_lookup in Hk.
  destruct (@format_ins_list m !! k) as [f|] eqn:Ef.
  - assert (El : l !! k = Some (if @ac_tgt_endian m =? 0 then set_fmt_fields (map (invert_field (fmt_size f)) (fmt_fields f)) f else f)).
    { unfold l. destruct (@ac_tgt_endian m =? 0); [|exact Ef]. unfold invert_fields. change (@map ac_dec_format ac_dec_format) with (@fmap list list_fmap ac_dec_format ac_dec_format).
      rewrite list_lookup_fmap, Ef. reflexivity. }
    rewrite El in Hk. destruct (formats !! k) as [g|]; [|discriminate]. cbn in Hk. injection Hk as H1 H2 H3 H4. constructor.
    apply erased_fields in H4. destruct (@ac_tgt_endian m =? 0); cbn in *; (split; [exact H1|]); (split; [exact H2|]); (split; [exact H3|]).
    + apply Forall2_fmap_l in H4. eapply Forall2_impl; [exact H4|]. intros x y (A1 & A2 & A3 & A4 & A5). cbn in *.
      repeat (split; [assumption|]). rewrite A5. lia.
    + eapply Forall2_impl; [exact H4|]. intros x y (A1 & A2 & A3 & A4 & A5). repeat (split; [assumption|]). exact A5.
  - assert (El : l !! k = None).
    { unfold l. destruct (@ac_tgt_endian m =? 0); [|exact Ef]. unfold invert_fields. change (@map ac_dec_format ac_dec_format) with (@fmap list list_fmap ac_dec_format ac_dec_format).
      rewrite list_lookup_fmap, Ef. reflexivity. }
    rewrite El in Hk. destruct (formats !! k); [discriminate|]. constructor.
Qed.

(** C32. Once [main] has built the decoder, the tables hold the description it
    read: every format is there with its fields in their order, its number being its
    place, and the fields keep name, size, value and sign, and their bits, counted from
    the other end for a little-endian target; every instruction is there, with
    the size of its format and its decode list, whose elements get the numbers of
    the fields.  The arrays it prints describe that: the run-time decoder, which
    follows pointers from the first row of each array, finds every instruction
    with its decode list and, exactly when every format has a field, every format
    with its fields; and a format is found for every instruction. *)
Theorem prepared_tables_read_back host_big (m m' : model) :
  prepare host_big m = Ret m' ->
  let formats := @format_ins_list m' in
  let instrs := @instr_list m' in
  (forall k, option_Forall2 (kept_format (@ac_tgt_endian m =? 0) k) (@format_ins_list m !! k) (formats !! k)) /\
  Forall2 (kept_instr formats) (@instr_list m) instrs /\
  read_instrs (concat (dec_rows 0 instrs)) (instr_rows 0 0 instrs) = Some instrs /\
  (read_formats (concat (field_rows 0 formats)) (format_rows 0 0 formats) = Some formats
   <-> Forall (fun f => fmt_fields f <> []) formats) /\
  (exists behaviors, with_formats instrs = Ret behaviors /\ map fst behaviors = instrs /\
     format_numbers instrs = Ret (map (fun b => fmt_id (snd b)) behaviors)).
Proof.
  intros H. destruct (prepare_keeps _ _ _ H) as [Hf Hi]. apply prepare_complete in H. cbn zeta.
  split; [exact Hf|]. split; [exact Hi|]. split; [|split].
  - apply read_instrs_iff. eapply Forall_impl; [eassumption|]. intros p [Hp _]. assumption.
  - apply read_formats_iff.
  - destruct (complete_formats m' _ H) as (b & ? & ? & ?). exists b. repeat split; assumption.
Qed.

(** A description with two formats. *)
Definition demo_model : model :=
  Build_model "demo" "DEMO" None 16 0 0 0 false false true false false false demo_formats [] [] demo_instrs []
    [MkSto "MEM" None 4096 0 0 TLM_PORT None None; MkSto "RB" None 16 0 0 REGBANK None None] [] None 0 0 2 16.

Lemma prepared_tables_read_back_witness :
  exists m', prepare false demo_model = Ret m' /\
    read_formats (concat (field_rows 0 (@format_ins_list m'))) (format_rows 0 0 (@format_ins_list m')) = Some (@format_ins_list m').
Proof.
  destruct (prepare false demo_model) as [m'| |] eqn:E; [|vm_compute in E; discriminate E..].
  exists m'. split; [reflexivity|]. apply (prepared_tables_read_back false demo_model m' E).
  vm_compute in E. injection E as <-. repeat constructor; discriminate.
Defined.

(** ** The files *)

(** When every file can be opened and every text is produced, all are written. *)
Lemma write_files_all opens l :
  Forall (fun step => opens (fst step) = true /\ exists t, snd step = Ret t) l ->
  exists files, write_files opens l = (files, Ret ()) /\ map fst files = map fst l.
Proof.
  induction 1 as [|[name text] l [Ho [t Ht]] _ (files & Hw & Hf)]; [exists []; split; reflexivity|].
  cbn [fst snd] in *. exists ((name, t) :: files). cbn [write_files]. rewrite Ho, Ht, Hw. cbn [map fst]. rewrite Hf. split; reflexivity.
Qed.

Section files.
Context `{!options} `{!model}.

(** A description without caches and without a hierarchy. *)
Record flat_storage : Prop := {
  flat_hier : HaveMemHier = false;
  flat_regs : HaveFormattedRegs = false;
  flat_fetch : fetch_device = None;
  flat_devices : Forall (fun p => is_cache (sto_type p) = false /\ sto_higher p = None) storage_list
}.
Context (Hflat : flat_storage).

Lemma arch_inits_flat l : Forall (fun p => is_cache (sto_type p) = false /\ sto_higher p = None) l -> exists t, arch_inits l = Ret t.
Proof using.
  induction 1 as [|p l [Hp _] _ [t Ht]]; cbn [arch_inits]; [eexists; reflexivity|]. rewrite Ht.
  unfold arch_init. destruct (sto_type p); try discriminate; eexists; reflexivity.
Qed.

Lemma bindings_flat l : Forall (fun p => is_cache (sto_type p) = false /\ sto_higher p = None) l -> exists t, bindings l = Ret t.
Proof using.
  induction 1 as [|p l [_ Hp] _ [t Ht]]; cbn [bindings]; [eexists; reflexivity|]. rewrite Hp, Ht. eexists; reflexivity.
Qed.

Lemma CreateArchImpl_flat : Exists (fun p => fetches p = true) storage_list -> exists t, CreateArchImpl = Ret t.
Proof using Hflat.
  destruct Hflat as [_ _ Hf Hd]. intros He. unfold CreateArchImpl, choose_fetch_device, choose_load_device. rewrite Hf.
  destruct (arch_inits_flat _ Hd) as [t1 ->], (bindings_flat _ Hd) as [t2 ->].
  destruct (last (filter (fun p => fetches p = true) storage_list)) as [p|] eqn:E.
  - destruct storage_list; [inversion He|]. cbn. eexists; reflexivity.
  - apply last_None in E. apply Exists_exists in He as (p & Hp & Hpf).
    assert (p ∈ filter (fun p => fetches p = true) storage_list) as Hin by (apply list_elem_of_filter; split; assumption).
    rewrite E in Hin. inversion Hin.
Qed.

Lemma CreateArchImpl_no_device : ~ Exists (fun p => fetches p = true) storage_list ->
  CreateArchImpl = Exit (lit "Could not determine a device for fetching.").
Proof using Hflat.
  destruct Hflat as [_ _ Hf Hd]. intros He. unfold CreateArchImpl, choose_fetch_device. rewrite Hf.
  destruct (arch_inits_flat _ Hd) as [t1 ->].
  destruct (last (filter (fun p => fetches p = true) storage_list)) as [p|] eqn:E; [|reflexivity].
  exfalso. apply He, Exists_exists. exists p.
  assert (p ∈ filter (fun p => fetches p = true) storage_list) as Hin by (apply last_Some_elem_of; assumption).
  apply list_elem_of_filter in Hin as [? ?]. split; assumption.
Qed.
End files.

(** The steps do not depend on the texts: their names are known. *)
Lemma steps_succeed (o : options) (m : model) inst conf behaviors numbers :
  @flat_storage m -> Exists (fun p => fetches p = true) (@storage_list m) -> is_some (SYSTEMC_PATH conf) = true ->
  with_formats (@instr_list m) = Ret behaviors -> format_numbers (@instr_list m) = Ret numbers ->
  (@common_instr_field_list m <> [] -> @format_ins_list m <> []) ->
  Forall (fun step => exists t, snd step = Ret t) (@steps o m inst conf).
Proof.
  intros Hflat Hfetch Hconf Hb Hn Hcommon. destruct (CreateArchImpl_flat Hflat Hfetch) as [[text device] Ht].
  pose proof (flat_hier Hflat) as Hh. pose proof (flat_regs Hflat) as Hr.
  assert (Hgen : exists t, @generic_arguments o m = Ret t).
  { unfold generic_arguments. destruct common_instr_field_list as [|c l]; [eexists; reflexivity|].
    destruct format_ins_list; [|eexists; reflexivity]. exfalso. apply Hcommon; [discriminate|reflexivity]. }
  destruct Hgen as [generic Hgen].
  assert (Hdec : forall n, exists t, @EmitDecodification m n = Ret t).
  { intros n. unfold EmitDecodification, hierarchy_fetch. rewrite Hh. eexists; reflexivity. }
  assert (Hbody : exists t, @behavior_body o m behaviors = Ret t).
  { unfold behavior_body, EmitMultiCycleProcessorBhv, EmitProcessorBhv_ABI, EmitProcessorBhv, EmitInstrExec. rewrite Hgen.
    destruct (Hdec 1%nat) as [t1 ->], (Hdec 2%nat) as [t2 ->], (Hdec 3%nat) as [t3 ->].
    destruct HaveMultiCycleIns, ACABIFlag; eexists; reflexivity. }
  destruct Hbody as [body Hbody].
  unfold steps, regs_step, CreateImplTmpl, CreateProcessorImpl, CreateMakefile. rewrite Hb, Hn, Ht, Hr. cbn [negb app].
  destruct (SYSTEMC_PATH conf) as [path|]; [|discriminate].
  repeat first [apply Forall_app_2 | apply Forall_cons_2 | apply Forall_nil_2];
    try (eexists; reflexivity); try (cbn; rewrite Hbody; eexists; reflexivity);
    match goal with |- Forall _ (when_files ?b _) => destruct b end; cbn [when_files]; repeat constructor; eexists; reflexivity.
Qed.

(** The run of the generator behind the parser: when the decoder can be built,
    the devices form no hierarchy, the configuration names SystemC and every
    file can be opened, all files are written if some device can be fetched from;
    otherwise the run ends behind the first two files. *)
Theorem generation_completes host_big opens inst conf (o : options) (m m' : model) :
  prepare host_big m = Ret m' -> @flat_storage m' -> is_some (SYSTEMC_PATH conf) = true -> (forall f, opens f = true) ->
  (@common_instr_field_list m' <> [] -> @format_ins_list m' <> []) ->
  (Exists (fun p => fetches p = true) (@storage_list m') ->
   exists files, generate host_big opens inst conf o m = (files, Ret ()) /\ map fst files = map fst (@steps o m' inst conf)) /\
  (~ Exists (fun p => fetches p = true) (@storage_list m') ->
   generate host_big opens inst conf o m =
   ([(@named m' "_arch.H", @CreateArchHeader o m'); (@named m' "_arch_ref.H", @CreateArchRefHeader m')],
    Exit (lit "Could not determine a device for fetching."))).
Proof.
  intros Hp Hflat Hconf Hopens Hcommon. unfold generate. rewrite Hp.
  destruct (complete_formats m' _ (prepare_complete host_big m m' Hp)) as (behaviors & Hb & Hn & _). split; intros Hfetch.
  - apply write_files_all. eapply Forall_impl; [eapply steps_succeed; eassumption|]. intros step Ht. split; [apply Hopens|exact Ht].
  - unfold steps. cbn [app write_files]. rewrite !Hopens, (CreateArchImpl_no_device Hflat Hfetch). reflexivity.
Qed.

Lemma generation_completes_witness :
  exists m' files, prepare false demo_model = Ret m' /\
    generate false (fun _ => true) (MkInstall "2.2" "bin" "include" "lib") (MkConf (Some "/usr") None None None None None None)
      (default_options "demo.ac") demo_model = (files, Ret ()) /\ length files = 15%nat.
Proof.
  destruct (prepare false demo_model) as [m'| |] eqn:E; [|vm_compute in E; discriminate E..].
  destruct (generation_completes false (fun _ => true) (MkInstall "2.2" "bin" "include" "lib")
    (MkConf (Some "/usr") None None None None None None) (default_options "demo.ac") demo_model m' E) as [H _].
  - vm_compute in E. injection E as <-. constructor; [reflexivity..|]. repeat constructor.
  - reflexivity.
  - reflexivity.
  - vm_compute in E. injection E as <-. discriminate.
  - destruct H as (files & Hg & Hf); [vm_compute in E; injection E as <-; apply Exists_cons_hd; reflexivity|].
    exists m', files. split; [reflexivity|]. split; [exact Hg|].
    apply (f_equal length) in Hf. rewrite !length_map in Hf. etransitivity; [exact Hf|].
    vm_compute in E. injection E as <-. reflexivity.
Defined.
