(* ===== verification/AcSimTextOk.v ===== *)
(** * The simulator generator: the braces of the text

    Which options leave the braces of [<arch>.cpp] unbalanced.  The braces of a
    printed text are those of its formats when the arguments have none. *)
From S2P Require Import Prelude CString DecTypes CoreActions AsmTypes BinUtils AcDecoder AcSim AcSimProc AcSimOk.

(** ** Counting *)

Definition brace (c : ascii) : Z := if is_char "{" c then 1 else if is_char "}" c then -1 else 0.

(** The opening braces of a text less the closing ones. *)
Fixpoint braces (s : string) : Z :=
  match s with EmptyString => 0 | String c s => brace c + braces s end.

Lemma braces_app s t : braces (s +:+ t) = braces s + braces t.
Proof. induction s as [|c s IH]; [reflexivity|]. change (brace c + braces (s +:+ t) = brace c + braces s + braces t). lia. Qed.

(** The braces of the plain text of a format. *)
Fixpoint format_braces (md : mode) (f : string) : Z :=
  match f with
  | EmptyString => 0
  | String c f =>
      match md with
      | Plain =>
          if is_char "\" c then format_braces Escaped f
          else if is_char "%" c then format_braces (Spec EmptyString) f
          else brace c + format_braces Plain f
      | Escaped => braces (escape c) + format_braces Plain f
      | Spec flags =>
          if is_char "%" c then brace c + format_braces Plain f
          else if is_char "s" c || is_char "d" c || is_char "u" c || is_char "x" c then format_braces Plain f
          else format_braces (Spec (flags +:+ String c EmptyString)) f
      end
  end.

(** An argument is printed without braces. *)
Definition flat (a : arg) : Prop := forall flags c, braces (convert flags c a) = 0.

Lemma braces_out_from f : forall md args, Forall flat args -> braces (out_from md f args) = format_braces md f.
Proof.
  induction f as [|c f IH]; intros md args H; [destruct md; reflexivity|].
  destruct md; cbn [out_from format_braces].
  - repeat case_match; [apply IH; assumption..|]. cbn [braces]. rewrite IH by assumption. reflexivity.
  - rewrite braces_app, IH by assumption. reflexivity.
  - repeat case_match; try (apply IH; assumption).
    + cbn [braces]. rewrite IH by assumption. reflexivity.
    + apply Forall_cons in H as [Ha H]. rewrite braces_app, Ha, IH by assumption. reflexivity.
Qed.

Lemma braces_out f args : Forall flat args -> braces (out f args) = format_braces Plain f.
Proof. apply braces_out_from. Qed.

Lemma braces_lit f : braces (lit f) = format_braces Plain f.
Proof. apply braces_out. constructor. Qed.

Lemma braces_cat_cons s l : braces (cat (s :: l)) = braces s + braces (cat l).
Proof. apply braces_app. Qed.

Lemma braces_cat_nil : braces (cat []) = 0.
Proof. reflexivity. Qed.

Lemma braces_when b s : braces (when b s) = if b then braces s else 0.
Proof. destruct b; reflexivity. Qed.

(** A loop whose body has no braces, or as many of both. *)
Lemma braces_each {A} (f : A -> bool -> string) l :
  Forall (fun x => forall more, braces (f x more) = 0) l -> braces (each f l) = 0.
Proof. induction 1 as [|x l Hx _ IH]; cbn [each]; [reflexivity|]. rewrite braces_app, Hx, IH. reflexivity. Qed.

Lemma Ret_inj {A} (x y : A) : Ret x = Ret y -> x = y.
Proof. intros H. exact (f_equal (fun r => match r with Ret z => z | _ => x end) H). Qed.

(** ** Arguments without braces *)

Lemma braces_repeat s n : braces s = 0 -> braces (String.concat "" (repeat s n)) = 0.
Proof.
  intros Hs. induction n as [|n IH]; [reflexivity|]. cbn [repeat String.concat].
  destruct (repeat s n) eqn:E; [assumption|]. rewrite !braces_app, Hs, IH. reflexivity.
Qed.

Lemma braces_INDENT n : braces (INDENT n) = 0.
Proof. apply braces_repeat. reflexivity. Qed.

Lemma flat_string s : braces s = 0 -> flat (Str s).
Proof.
  intros H [|c' n] c; cbn [convert]; [assumption|]. case_match; [|assumption].
  unfold pad_right. rewrite braces_app, H, braces_repeat; reflexivity.
Qed.

Lemma braces_pretty_N_go x s : braces (pretty_N_go x s) = braces s.
Proof.
  revert s. induction (N.lt_wf_0 x) as [x _ IH]; intros s.
  assert (x = 0 \/ 0 < x)%N as [->|Hx] by lia; [rewrite pretty_N_go_0; reflexivity|].
  rewrite pretty_N_go_step by assumption. rewrite IH by (apply N.div_lt; lia).
  unfold pretty_N_char. repeat case_match; reflexivity.
Qed.

Lemma braces_fmt_d z : braces (fmt_d z) = 0.
Proof.
  assert (Hn : forall x : N, braces (pretty x) = 0).
  { intros x. unfold pretty, pretty_N. destruct (decide (x = 0%N)); [reflexivity|]. apply braces_pretty_N_go. }
  unfold fmt_d. destruct z as [|p|p]; cbn [pretty pretty_Z]; [reflexivity|apply Hn|].
  change (brace "-" + braces (pretty (Npos p)) = 0). rewrite Hn. reflexivity.
Qed.

Lemma braces_hex_digits fuel z acc : braces acc = 0 -> braces (hex_digits fuel false z acc) = 0.
Proof.
  revert z acc. induction fuel as [|n IH]; intros z acc H; [assumption|]. cbn [hex_digits].
  assert (Hd : braces (String (hex_digit false (z mod 16)) acc) = 0).
  { cbn [braces]. rewrite H. pose proof (Z.mod_pos_bound z 16 ltac:(lia)) as Hm.
    assert (Hall : forallb (fun k => brace (hex_digit false (Z.of_nat k)) =? 0) (seq 0 16) = true) by reflexivity.
    rewrite forallb_forall in Hall. specialize (Hall (Z.to_nat (z mod 16)) ltac:(apply in_seq; lia)).
    rewrite Z2Nat.id in Hall by lia. apply Z.eqb_eq in Hall. lia. }
  case_match; [assumption|]. apply IH. assumption.
Qed.

Lemma flat_number z : flat (Num z).
Proof.
  intros flags c. cbn [convert]. repeat case_match; [|apply braces_fmt_d..]. apply braces_hex_digits. reflexivity.
Qed.

(** The arguments of a call have no braces. *)
Ltac flat_args :=
  repeat first
    [ apply Forall_nil_2
    | apply Forall_cons_2; [first [apply flat_number | apply flat_string; first [assumption | apply braces_INDENT | reflexivity]]|] ].

(** Braces of the formats that are left. *)
Ltac literal_braces :=
  repeat match goal with
  | |- context [format_braces Plain ?f] => let v := eval vm_compute in (format_braces Plain f) in
      match v with Z0 => idtac | Zpos _ => idtac | Zneg _ => idtac end; change (format_braces Plain f) with v
  | |- context [braces nl] => change (braces nl) with 0
  | |- context [braces EmptyString] => change (braces EmptyString) with 0
  end.

(** Sums the braces of the statements of a function. *)
Ltac sum_braces :=
  repeat match goal with
  | |- context [braces (cat (?s :: ?l))] => rewrite (braces_cat_cons s l)
  | |- context [braces (cat [])] => rewrite braces_cat_nil
  | |- context [braces (?s +:+ ?t)] => rewrite (braces_app s t)
  | |- context [braces (when ?b ?s)] => rewrite (braces_when b s)
  | |- context [braces (lit ?f)] => rewrite (braces_lit f)
  | |- context [braces (out ?f ?args)] => rewrite (braces_out f args) by flat_args
  end;
  literal_braces.

Section text.
Context `{!options} `{!model}.

(** The names of the description are identifiers; here: have no braces. *)
Definition plain_fields (fields : list ac_dec_field) : Prop := Forall (fun f => braces (f_name f) = 0) fields.
Definition plain_format (f : ac_dec_format) : Prop := braces (fmt_name f) = 0 /\ plain_fields (fmt_fields f).
Record plain_names (behaviors : list (ac_dec_instr * ac_dec_format)) : Prop := {
  plain_project : braces project_name = 0;
  plain_storage : Forall (fun p => braces (sto_name p) = 0) storage_list;
  plain_formats : Forall plain_format format_ins_list;
  plain_common : plain_fields common_instr_field_list;
  plain_behaviors : Forall (fun b => braces (i_name (fst b)) = 0 /\ plain_format (snd b)) behaviors
}.
Context (behaviors : list (ac_dec_instr * ac_dec_format)) (Hnames : plain_names behaviors).
Let Hproject := plain_project _ Hnames.

Lemma braces_EmitFetchInit n : braces (EmitFetchInit n) = if ACDecCacheFlag then 0 else 1.
Proof using Hproject. unfold EmitFetchInit. sum_braces. destruct ACABIFlag, HaveMultiCycleIns, ACDecCacheFlag; reflexivity. Qed.

Lemma braces_COMMENT i f args : braces i = 0 -> Forall flat args -> braces (COMMENT i f args) = format_braces Plain f.
Proof using. intros Hi Hargs. unfold COMMENT. sum_braces. rewrite braces_out by assumption. lia. Qed.

Lemma braces_EmitDecodification n t : EmitDecodification n = Ret t -> braces t = 0.
Proof using.
  unfold EmitDecodification, hierarchy_fetch, decode_call. intros Hd. exec_inv Hd. apply Ret_inj in Hd as <-. sum_braces.
  enough (braces a = 0) by lia.
  destruct HaveMemHier; cbn [negb] in E; [|apply Ret_inj in E as <-; reflexivity].
  repeat case_match; try discriminate; apply Ret_inj in E as <-; sum_braces; reflexivity.
Qed.

Lemma plain_argument fmt f : braces (fmt_name fmt) = 0 -> braces (f_name f) = 0 -> braces (argument fmt f) = 0.
Proof using. intros Hf Hn. unfold argument. destruct ACDecCacheFlag; sum_braces; reflexivity. Qed.

Lemma braces_arguments fmt fields : braces (fmt_name fmt) = 0 -> plain_fields fields -> braces (arguments fmt fields) = 0.
Proof using.
  intros Hf Hl. apply braces_each. eapply Forall_impl; [exact Hl|]. intros x Hx more. cbn beta in Hx. sum_braces.
  rewrite plain_argument by assumption. destruct more; reflexivity.
Qed.

Lemma braces_generic t : generic_arguments = Ret t -> braces t = 0.
Proof using Hnames.
  unfold generic_arguments. intros Hg. pose proof (plain_common _ Hnames) as Hc. pose proof (plain_formats _ Hnames) as Hf.
  destruct common_instr_field_list as [|c l], format_ins_list as [|f fs]; try discriminate; apply Ret_inj in Hg as <-; try reflexivity.
  apply Forall_cons in Hf as [[Hf _] _]. apply braces_arguments; assumption.
Qed.

Lemma braces_instr_case n b : b ∈ behaviors -> braces (instr_case n b) = 0.
Proof using Hnames.
  intros Hb. pose proof (plain_behaviors _ Hnames) as Hp. rewrite Forall_forall in Hp. destruct (Hp b Hb) as (Hi & Hf & Hl).
  destruct b as [i f]. cbn [fst snd] in *. unfold instr_case. sum_braces. rewrite braces_arguments by assumption. reflexivity.
Qed.

Lemma braces_EmitInstrExec n t : EmitInstrExec behaviors n = Ret t -> braces t = 0.
Proof using Hnames.
  unfold EmitInstrExec. intros Hx. exec_inv Hx. apply Ret_inj in Hx as <-. unfold instr_exec, PRINT_TRACE. sum_braces.
  rewrite (braces_generic _ E), braces_each; [destruct ACGDBIntegrationFlag, ACStatsFlag, ACDebugFlag; reflexivity|].
  rewrite Forall_forall. intros b Hb more. apply braces_instr_case. assumption.
Qed.

(** The braces the fetch loop opens and does not close. *)
Definition left_open : Z := if ACDecCacheFlag then 0 else 1.

Lemma braces_behavior_body t : behavior_body behaviors = Ret t ->
  braces t = left_open + if HaveMultiCycleIns then -2 else if ACABIFlag then 0 else 1.
Proof using Hnames.
  unfold behavior_body, left_open, EmitMultiCycleProcessorBhv, EmitProcessorBhv_ABI, EmitProcessorBhv. intros Hb.
  destruct HaveMultiCycleIns; [|destruct ACABIFlag eqn:Habi]; exec_inv Hb; try (exec_inv Hb); apply Ret_inj in Hb as <-;
    unfold PRINT_TRACE, EmitABIDefine, EmitABIAddrList; sum_braces; rewrite ?braces_EmitFetchInit;
    rewrite ?(braces_COMMENT (INDENT 2)) by (first [apply braces_INDENT | constructor]); literal_braces;
    rewrite (braces_EmitDecodification _ _ E), ?(braces_EmitInstrExec _ _ E0);
    destruct ACDebugFlag, ACStatsFlag, ACVerboseFlag, ACDecCacheFlag; reflexivity.
Qed.

Lemma braces_storage (f : ac_sto_list -> bool -> string) :
  (forall p more, braces (sto_name p) = 0 -> braces (f p more) = 0) -> braces (each f storage_list) = 0.
Proof using Hnames.
  intros Hf. apply braces_each. eapply Forall_impl; [apply (plain_storage _ Hnames)|]. intros p Hp more. apply Hf, Hp.
Qed.

Lemma braces_EmitUpdateMethod : braces EmitUpdateMethod = -2.
Proof using Hnames.
  unfold EmitUpdateMethod. sum_braces.
  rewrite (braces_COMMENT (INDENT 0)), (braces_storage (fun p _ => "%s%s.commit_delays( (double)ac_cycle_counter );\n" %: INDENT 2, sto_name p)),
    braces_storage; [|intros p more Hp; sum_braces; destruct (_ || _); reflexivity|intros p more Hp; sum_braces; reflexivity|apply braces_INDENT|constructor].
  literal_braces. destruct ACDelayFlag, HaveMultiCycleIns, HaveMemHier, ACWaitFlag; reflexivity.
Qed.

Lemma braces_behavior_head : braces behavior_head = 1.
Proof using Hproject. unfold behavior_head, print_comment. sum_braces. destruct ACABIFlag, ACDebugFlag, HaveMemHier; reflexivity. Qed.

Lemma braces_verify_method : braces verify_method = 0.
Proof using Hnames.
  unfold verify_method. sum_braces.
  rewrite (braces_COMMENT (INDENT 0)), (braces_storage (fun p _ => "%s%s.change_dump(cerr);\n" %: INDENT 3, sto_name p)),
    braces_storage; [|intros p more Hp; sum_braces; reflexivity|intros p more Hp; sum_braces; reflexivity|apply braces_INDENT|constructor].
  literal_braces. destruct ACVerboseFlag; reflexivity.
Qed.

Lemma braces_methods : braces (cat [init_method; init_args_method; stop_methods; gdb_stub_methods; pc_methods]) = 0.
Proof using Hproject.
  unfold init_method, init_args_method, stop_methods, gdb_stub_methods, pc_methods. sum_braces.
  destruct ACargHandleParamFlag, ACGDBIntegrationFlag; reflexivity.
Qed.

(** The braces of [<arch>.cpp]: without the decoder cache the fetch loop
    leaves one open; system calls close one brace too many and multi-cycle
    instructions three.  So the file is balanced with the default options, and
    is not with [-abi] or [-ndc] alone, or when an instruction takes cycles. *)
Theorem processor_braces t : CreateProcessorImpl behaviors = Ret t ->
  braces t = (if ACDecCacheFlag then 0 else 1) - (if HaveMultiCycleIns then 3 else if ACABIFlag then 1 else 0).
Proof using Hnames.
  unfold CreateProcessorImpl. intros Hx. exec_inv Hx. apply Ret_inj in Hx as <-.
  pose proof braces_methods as Hm. sum_braces. repeat rewrite braces_cat_cons in Hm. rewrite braces_cat_nil in Hm.
  rewrite braces_behavior_head, (braces_behavior_body _ E), braces_EmitUpdateMethod, braces_verify_method.
  unfold left_open. destruct HaveMultiCycleIns, ACABIFlag, ACDecCacheFlag; lia.
Qed.
End text.

Lemma processor_braces_witness :
  exists behaviors t, @with_formats demo_model demo_instrs = Ret behaviors /\
    @CreateProcessorImpl (apply_option OPABI "-abi" (default_options "demo.ac")) demo_model behaviors = Ret t /\ braces t = -1.
Proof.
  destruct (@with_formats demo_model demo_instrs) as [behaviors| |] eqn:Eb; [|vm_compute in Eb; discriminate Eb..].
  destruct (@CreateProcessorImpl (apply_option OPABI "-abi" (default_options "demo.ac")) demo_model behaviors) as [t| |] eqn:E.
  - exists behaviors, t. split; [reflexivity|]. split; [exact E|].
    apply (@processor_braces (apply_option OPABI "-abi" (default_options "demo.ac")) demo_model behaviors); [|exact E].
    vm_compute in Eb. injection Eb as <-. constructor; repeat constructor.
  - exfalso. vm_compute in Eb. injection Eb as <-. vm_compute in E. discriminate E.
  - exfalso. vm_compute in Eb. injection Eb as <-. vm_compute in E. discriminate E.
Defined.
