(* ===== verification/ArmGen.v ===== *)
(** * The ARM model as the generator reads it

    The declarations of [src/armv7/src/arm.ac] and [src/armv7/src/arm_isa.ac] in
    the order of the grammar's actions, the state they leave, and the model from
    which the files [arm_*.H] and [arm_*.cpp] are written.  Of [set_asm] only the
    mnemonic and the text kept with the instruction are needed here. *)
From S2P Require Import Prelude CString DecTypes SymTab CoreActions AsmTypes BinUtils AcDecoder AcSim AcSimRes AcSimIsa AcSimProc AcSimFiles AcSimMain.

(** ** The declarations *)

(** [ac_format NAME = TEXT;] *)
Definition arm_formats : list (string * string) := [
  ("Type_DPI1", "%cond:4 %op:3 %func1:4 %s:1 %rn:4 %rd:4 %shiftamount:5 %shift:2 %subop1:1 %rm:4");
  ("Type_DPI2", "%cond:4 %op:3 %func1:4 %s:1 %rn:4 %rd:4 %rs:4 %subop2:1 %shift:2 %subop1:1 %rm:4");
  ("Type_DPI3", "%cond:4 %op:3 %func1:4 %s:1 %rn:4 %rd:4 %rotate:4 %imm8:8");
  ("Type_DPI4", "%cond:4 %op:3 %func1:4 %s:1 %imm4:4 %rd:4 %imm12:12");
  ("Type_DPI5", "%cond:4 %op:3 %func1:4 %s:1 %rn:4 %rd:4 shiftamount:5 %tb:1 %subop1:2 %rm:4");
  ("Type_BTM1", "%cond:4 %op:7 %msb:5 %rd:4 %lsb:5 %func1:3 %rn:4");
  ("Type_PCK1", "%cond:4 %op1:4 %func1:4 %rn:4 %rd:4 %rotate:4 %func2:4 %rm:4");
  ("Type_MED1", "%cond:4 %op:3 %op1:4 %widthm1:5 %rd:4 %lsb:5 %op2:3 %rn:4");
  ("Type_BBL", "%cond:4 %op:3 %h:1 %offset:24");
  ("Type_BBLT", "%cond:4 %op:3 %h:1 %offset:24");
  ("Type_MBXBLX", "%cond:4 %op:3 %func1:4 %s:1 %one1:4 %one2:4 %one3:4 %subop2:1 %func2:2 %subop1:1 %rm:4");
  ("Type_MULT1", "%cond:4 %op:3 %func1:4 %s:1 %rn:4 %rd:4 %rs:4 %subop2:1 %func2:2 %subop1:1 %rm:4");
  ("Type_MULT2", "%cond:4 %op:3 %func1:4 %s:1 %rdhi:4 %rdlo:4 %rs:4 %subop2:1 %func2:2 %subop1:1 %rm:4");
  ("Type_LSI", "%cond:4 %op:3 %p:1 %u:1 %b:1 %w:1 %l:1 %rn:4 %rd:4 %imm12:12");
  ("Type_LSR", "%cond:4 %op:3 %p:1 %u:1 %b:1 %w:1 %l:1 %rn:4 %rd:4 %shiftamount:5 %shift:2 %subop1:1 %rm:4");
  ("Type_LSE", "%cond:4 %op:3 %p:1 %u:1 %i:1 %w:1 %l:1 %rn:4 %rd:4 %addr1:4 %subop2:1 %ss:1 %hh:1 %subop1:1 %addr2:4");
  ("Type_LSM", "%cond:4 %op:3 %p:1 %u:1 %r:1 %w:1 %l:1 %rn:4 %rlist:16");
  ("Type_MEMEX", "%cond:4 %op:7 %s:1 %rn:4 %rd:4 %subop1:4 %func1:4 %rt:4");
  ("Type_CDP", "%cond:4 %op:3 %subop3:1 %funcc1:4 %crn:4 %crd:4 %cp_num:4 %funcc3:3 %subop1:1 %crm:4");
  ("Type_CRT", "%cond:4 %op:3 %subop3:1 %funcc2:3 %l:1 %crn:4 %rd:4 %cp_num:4 %funcc3:3 %subop1:1 %crm:4");
  ("Type_CLS", "%cond:4 %op:3 %p:1 %u:1 %n:1 %w:1 %l:1 %rn:4 %crd:4 %cp_num:4 %imm8:8");
  ("Type_MBKPT", "%cond:4 %op:3 %func1:4 %s:1 %immediate:12 %subop2:1 %func2:2 %subop1:1 %rm:4");
  ("Type_MSWI", "%cond:4 %op:3 %subop3:1 %swinumber:24");
  ("Type_MSMC", "%cond:4 %op:7 %subop1:1 %func1:12 %func2:4 %imm4:4");
  ("Type_MCLZ", "%cond:4 %op:3 %func1:4 %s:1 %one1:4 %rd:4 %one3:4 %subop2:1 %func2:2 %subop1:1 %rm:4");
  ("Type_MMSR1", "%cond:4 %op:3 %func11:2 %r:1 %func12:2 %fieldmask:4 %rd:4 %zero3:4 %subop2:1 %func2:2 %subop1:1 %rm:4");
  ("Type_MMSR2", "%cond:4 %op:3 %func11:2 %r:1 %func12:2 %fieldmask:4 %one2:4 %rotate:4 %imm8:8");
  ("Type_DSPSM", "%cond:4 %sm:8 %drd:4 %drn:4 %rs:4 %subop2:1 %yy:1 %xx:1 %subop1:1 %rm:4")].

(** [ac_instr<FORMAT> NAMES;] *)
Definition arm_instrs : list (string * list string) := [
  ("Type_DPI1", [
    "and1"; "eor1"; "sub1"; "rsb1"; "add1"; "adc1"; "sbc1"; "rsc1"; "tst1"; "teq1"; "cmp1"; "cmn1"; "orr1"; "mov1";
    "bic1"; "mvn1"]);
  ("Type_DPI2", [
    "and2"; "eor2"; "sub2"; "rsb2"; "add2"; "adc2"; "sbc2"; "rsc2"; "tst2"; "teq2"; "cmp2"; "cmn2"; "orr2"; "mov2";
    "bic2"; "mvn2"]);
  ("Type_DPI3", [
    "and3"; "eor3"; "sub3"; "rsb3"; "add3"; "adc3"; "sbc3"; "rsc3"; "tst3"; "teq3"; "cmp3"; "cmn3"; "orr3"; "mov3";
    "bic3"; "mvn3"]);
  ("Type_DPI4", [
    "mov4"; "movt"; "nop"]);
  ("Type_DPI5", [
    "pkh"]);
  ("Type_BTM1", [
    "bfi"]);
  ("Type_MED1", [
    "ubfx"; "sbfx"]);
  ("Type_PCK1", [
    "uxtb"; "uxth"; "sxth"; "rev"]);
  ("Type_BBLT", [
    "blx1"]);
  ("Type_BBL", [
    "b"]);
  ("Type_MBXBLX", [
    "bx"; "blx2"]);
  ("Type_MULT1", [
    "swp"; "swpb"; "mla"; "mul"; "mls"]);
  ("Type_MULT2", [
    "smlal"; "smull"; "umlal"; "umull"]);
  ("Type_LSI", [
    "ldrt1"; "ldrbt1"; "ldr1"; "ldrb1"; "strt1"; "strbt1"; "str1"; "strb1"]);
  ("Type_LSR", [
    "ldrt2"; "ldrbt2"; "ldr2"; "ldrb2"; "strt2"; "strbt2"; "str2"; "strb2"]);
  ("Type_LSE", [
    "ldrh"; "ldrsb"; "ldrsh"; "strh"; "ldrd"; "strd"]);
  ("Type_LSM", [
    "ldm"; "stm"]);
  ("Type_MEMEX", [
    "strex"; "ldrex"]);
  ("Type_CDP", [
    "cdp"]);
  ("Type_CRT", [
    "mcr"; "mrc"]);
  ("Type_CLS", [
    "ldc"; "stc"]);
  ("Type_MBKPT", [
    "bkpt"]);
  ("Type_MSWI", [
    "swi"]);
  ("Type_MCLZ", [
    "clz"]);
  ("Type_MMSR1", [
    "mrs"; "msr1"]);
  ("Type_MMSR2", [
    "msr2"]);
  ("Type_MSMC", [
    "smc"]);
  ("Type_DSPSM", [
    "dsmla"; "dsmlal"; "dsmul"; "dsmlaw"; "dsmulw"])].

(** The text of the first [set_asm] of an instruction. *)
Definition arm_asm : list (string * string) := [
  ("and1", "and%[cond]%sf %reg, %reg, %reg");
  ("and2", "and%[cond]%sf %reg, %reg, %reg, %shift %reg");
  ("and3", "and%[cond]%sf %reg, %reg, #%imm(aimm)");
  ("eor1", "eor%[cond]%sf %reg, %reg, %reg");
  ("eor2", "eor%[cond]%sf %reg, %reg, %reg, %shift %reg");
  ("eor3", "eor%[cond]%sf %reg, %reg, #%imm(aimm)");
  ("sub1", "sub%[cond]%sf %reg, %reg, %reg");
  ("sub2", "sub%[cond]%sf %reg, %reg, %reg, %shift %reg");
  ("sub3", "sub%[cond]%sf %reg, %reg, #%imm(aimm)");
  ("rsb1", "rsb%[cond]%sf %reg, %reg, %reg");
  ("rsb2", "rsb%[cond]%sf %reg, %reg, %reg, %shift %reg");
  ("rsb3", "rsb%[cond]%sf %reg, %reg, #%imm(aimm)");
  ("add1", "add%[cond]%sf %reg, %reg, %reg");
  ("add2", "add%[cond]%sf %reg, %reg, %reg, %shift %reg");
  ("add3", "add%[cond]%sf %reg, %reg, #%imm(aimm)");
  ("adc1", "adc%[cond]%sf %reg, %reg, %reg");
  ("adc2", "adc%[cond]%sf %reg, %reg, %reg, %shift %reg");
  ("adc3", "adc%[cond]%sf %reg, %reg, #%imm(aimm)");
  ("sbc1", "sbc%[cond]%sf %reg, %reg, %reg");
  ("sbc2", "sbc%[cond]%sf %reg, %reg, %reg, %shift %reg");
  ("sbc3", "sbc%[cond]%sf %reg, %reg, #%imm(aimm)");
  ("rsc1", "rsc%[cond]%sf %reg, %reg, %reg");
  ("rsc2", "rsc%[cond]%sf %reg, %reg, %reg, %shift %reg");
  ("rsc3", "rsc%[cond]%sf %reg, %reg, #%imm(aimm)");
  ("tst1", "tst%[cond] %reg, %reg");
  ("tst2", "tst%[cond] %reg, %reg, %shift %reg");
  ("tst3", "tst%[cond] %reg, #%imm(aimm)");
  ("teq1", "teq%[cond] %reg, %reg");
  ("teq2", "teq%[cond] %reg, %reg, %shift %reg");
  ("teq3", "teq%[cond] %reg, #%imm(aimm)");
  ("cmp1", "cmp%[cond] %reg, %reg");
  ("cmp2", "cmp%[cond] %reg, %reg, %shift %reg");
  ("cmp3", "cmp%[cond] %reg, #%imm(aimm)");
  ("cmn1", "cmn%[cond] %reg, %reg");
  ("cmn2", "cmn%[cond] %reg, %reg, %shift %reg");
  ("cmn3", "cmn%[cond] %reg, #%imm(aimm)");
  ("orr1", "orr%[cond]%sf %reg, %reg, %reg");
  ("orr2", "orr%[cond]%sf %reg, %reg, %reg, %shift %reg");
  ("orr3", "orr%[cond]%sf %reg, %reg, #%imm(aimm)");
  ("mov1", "mov%[cond]%sf %reg, %reg");
  ("mov2", "mov%[cond]%sf %reg, %reg, %shift %reg");
  ("mov3", "mov%[cond]%sf %reg, #%imm(aimm)");
  ("mov4", "movw%[cond] %reg, #%imm");
  ("movt", "movt%[cond] %reg, #%imm");
  ("bic1", "bic%[cond]%sf %reg, %reg, %reg");
  ("bic2", "bic%[cond]%sf %reg, %reg, %reg, %shift %reg");
  ("bic3", "bic%[cond]%sf %reg, %reg, #%imm(aimm)");
  ("mvn1", "mvn%[cond]%sf %reg, %reg");
  ("mvn2", "mvn%[cond]%sf %reg, %reg, %shift %reg");
  ("mvn3", "mvn%[cond]%sf %reg, #%imm(aimm)");
  ("pkh", "pkhbt%[cond] %reg, %reg, %reg, LSL #%imm");
  ("bfi", "bfi%[cond], %reg, %reg, #%imm, #%imm(bdist)");
  ("ubfx", "ubfx%[cond] %reg, %reg, #%imm, #%imm(subimm)");
  ("blx1", "blx %exp(bximm)");
  ("b", "b%[cond] %exp(bimm)");
  ("bx", "bx%[cond] %reg");
  ("blx2", "blx%[cond] %reg");
  ("swp", "swp%[cond] %reg, %reg, [%reg]");
  ("swpb", "swp%[cond]b %reg, %reg, [%reg]");
  ("mul", "mul%[cond]%sf %reg, %reg, %reg");
  ("mla", "mla%[cond]%sf %reg, %reg, %reg, %reg");
  ("smlal", "smlal%[cond]%sf %reg, %reg, %reg, %reg");
  ("smull", "smull%[cond]%sf %reg, %reg, %reg, %reg");
  ("umlal", "umlal%[cond]%sf %reg, %reg, %reg, %reg");
  ("umull", "umull%[cond]%sf %reg, %reg, %reg, %reg");
  ("mls", "mls%[cond] %reg, %reg, %reg, %reg");
  ("ldrt1", "ldr%[cond]t %reg, [%reg]");
  ("ldrt2", "ldr%[cond]t %reg, [%reg], +%reg");
  ("ldrbt1", "ldr%[cond]bt %reg, [%reg]");
  ("ldrbt2", "ldr%[cond]bt %reg, [%reg], +%reg");
  ("ldr1", "ldr%[cond] %reg, [%reg]");
  ("ldr2", "ldr%[cond] %reg, [%reg, +%reg]");
  ("ldrb1", "ldr%[cond]b %reg, [%reg]");
  ("ldrb2", "ldr%[cond]b %reg, [%reg, +%reg]");
  ("ldrh", "ldr%[cond]h %reg, [%reg]");
  ("ldrsb", "ldr%[cond]sb %reg, [%reg]");
  ("ldrsh", "ldr%[cond]sh %reg, [%reg]");
  ("strt1", "str%[cond]t %reg, [%reg]");
  ("strt2", "str%[cond]t %reg, [%reg], +%reg");
  ("strbt1", "str%[cond]bt %reg, [%reg]");
  ("strbt2", "str%[cond]bt %reg, [%reg], +%reg");
  ("str1", "str%[cond] %reg, [%reg]");
  ("str2", "str%[cond] %reg, [%reg, +%reg]");
  ("strb1", "str%[cond]b %reg, [%reg]");
  ("strb2", "str%[cond]b %reg, [%reg, +%reg]");
  ("strh", "str%[cond]h %reg, [%reg]");
  ("ldm", "ldm%cond%lstype %reg, {%reg...(dorlist)}");
  ("stm", "stm%cond%sstype %reg, {%reg...(dorlist)}");
  ("mcr", "mcr%[cond] %coproc, #%imm, %reg, %coreg, %coreg");
  ("mrc", "mrc%[cond] %coproc, #%imm, %reg, %coreg, %coreg");
  ("bkpt", "bkpt %imm");
  ("swi", "swi%[cond] %imm");
  ("clz", "clz%[cond] %reg, %reg");
  ("mrs", "mrs%[cond] %reg, %psr");
  ("nop", "nop%[cond]");
  ("smc", "smc%[cond] #%imm")].

(** [NAME.set_decoder(FIELD = VALUE, ...)]; the first sixty. *)
Definition arm_decoders_1 : list (string * list (string * Z)) := [
  ("and1", [("op", 0); ("subop1", 0); ("func1", 0)]);
  ("and2", [("op", 0); ("subop1", 1); ("subop2", 0); ("func1", 0)]);
  ("and3", [("op", 1); ("func1", 0)]);
  ("eor1", [("op", 0); ("subop1", 0); ("func1", 1)]);
  ("eor2", [("op", 0); ("subop1", 1); ("subop2", 0); ("func1", 1)]);
  ("eor3", [("op", 1); ("func1", 1)]);
  ("sub1", [("op", 0); ("subop1", 0); ("func1", 2)]);
  ("sub2", [("op", 0); ("subop1", 1); ("subop2", 0); ("func1", 2)]);
  ("sub3", [("op", 1); ("func1", 2)]);
  ("rsb1", [("op", 0); ("subop1", 0); ("func1", 3)]);
  ("rsb2", [("op", 0); ("subop1", 1); ("subop2", 0); ("func1", 3)]);
  ("rsb3", [("op", 1); ("func1", 3)]);
  ("add1", [("op", 0); ("subop1", 0); ("func1", 4)]);
  ("add2", [("op", 0); ("subop1", 1); ("subop2", 0); ("func1", 4)]);
  ("add3", [("op", 1); ("func1", 4)]);
  ("adc1", [("op", 0); ("subop1", 0); ("func1", 5)]);
  ("adc2", [("op", 0); ("subop1", 1); ("subop2", 0); ("func1", 5)]);
  ("adc3", [("op", 1); ("func1", 5)]);
  ("sbc1", [("op", 0); ("subop1", 0); ("func1", 6)]);
  ("sbc2", [("op", 0); ("subop1", 1); ("subop2", 0); ("func1", 6)]);
  ("sbc3", [("op", 1); ("func1", 6)]);
  ("rsc1", [("op", 0); ("subop1", 0); ("func1", 7)]);
  ("rsc2", [("op", 0); ("subop1", 1); ("subop2", 0); ("func1", 7)]);
  ("rsc3", [("op", 1); ("func1", 7)]);
  ("tst1", [("op", 0); ("subop1", 0); ("func1", 8); ("s", 1)]);
  ("tst2", [("op", 0); ("subop1", 1); ("subop2", 0); ("func1", 8); ("s", 1)]);
  ("tst3", [("op", 1); ("func1", 8); ("s", 1)]);
  ("teq1", [("op", 0); ("subop1", 0); ("func1", 9); ("s", 1)]);
  ("teq2", [("op", 0); ("subop1", 1); ("subop2", 0); ("func1", 9); ("s", 1)]);
  ("teq3", [("op", 1); ("func1", 9); ("s", 1)]);
  ("cmp1", [("op", 0); ("subop1", 0); ("func1", 10); ("s", 1)]);
  ("cmp2", [("op", 0); ("subop1", 1); ("subop2", 0); ("func1", 10); ("s", 1)]);
  ("cmp3", [("op", 1); ("func1", 10); ("s", 1)]);
  ("cmn1", [("op", 0); ("subop1", 0); ("func1", 11); ("s", 1)]);
  ("cmn2", [("op", 0); ("subop1", 1); ("subop2", 0); ("func1", 11); ("s", 1)]);
  ("cmn3", [("op", 1); ("func1", 11); ("s", 1)]);
  ("orr1", [("op", 0); ("subop1", 0); ("func1", 12)]);
  ("orr2", [("op", 0); ("subop1", 1); ("subop2", 0); ("func1", 12)]);
  ("orr3", [("op", 1); ("func1", 12)]);
  ("mov1", [("op", 0); ("subop1", 0); ("func1", 13)]);
  ("mov2", [("op", 0); ("subop1", 1); ("subop2", 0); ("func1", 13)]);
  ("mov3", [("op", 1); ("func1", 13)]);
  ("mov4", [("op", 1); ("func1", 8); ("s", 0)]);
  ("movt", [("op", 1); ("func1", 10); ("s", 0)]);
  ("bic1", [("op", 0); ("subop1", 0); ("func1", 14)]);
  ("bic2", [("op", 0); ("subop1", 1); ("subop2", 0); ("func1", 14)]);
  ("bic3", [("op", 1); ("func1", 14)]);
  ("mvn1", [("op", 0); ("subop1", 0); ("func1", 15)]);
  ("mvn2", [("op", 0); ("subop1", 1); ("subop2", 0); ("func1", 15)]);
  ("mvn3", [("op", 1); ("func1", 15)]);
  ("pkh", [("op", 3); ("func1", 4); ("s", 0); ("subop1", 1)]);
  ("bfi", [("op", 62); ("func1", 1)]);
  ("ubfx", [("op", 3); ("op1", 15); ("op2", 5)]);
  ("sbfx", [("op", 3); ("op1", 13); ("op2", 5)]);
  ("uxtb", [("op1", 6); ("func1", 14); ("rn", 15); ("func2", 7)]);
  ("uxth", [("op1", 6); ("func1", 15); ("rn", 15); ("func2", 7)]);
  ("sxth", [("op1", 6); ("func1", 11); ("rn", 15); ("func2", 7)]);
  ("rev", [("op1", 6); ("func1", 11); ("rn", 15); ("rotate", 15); ("func2", 3)]);
  ("blx1", [("op", 5); ("cond", 15)]);
  ("b", [("op", 5)])].

(** The others. *)
Definition arm_decoders_2 : list (string * list (string * Z)) := [
  ("bx", [("op", 0); ("subop1", 1); ("subop2", 0); ("func1", 9); ("s", 0); ("func2", 0)]);
  ("blx2", [("op", 0); ("subop1", 1); ("subop2", 0); ("func1", 9); ("s", 0); ("func2", 1)]);
  ("swp", [("op", 0); ("subop1", 1); ("subop2", 1); ("func1", 8); ("func2", 0); ("s", 0)]);
  ("swpb", [("op", 0); ("subop1", 1); ("subop2", 1); ("func1", 10); ("func2", 0); ("s", 0)]);
  ("mul", [("op", 0); ("subop1", 1); ("subop2", 1); ("func1", 0); ("func2", 0)]);
  ("mla", [("op", 0); ("subop1", 1); ("subop2", 1); ("func1", 1); ("func2", 0)]);
  ("smlal", [("op", 0); ("subop1", 1); ("subop2", 1); ("func1", 7); ("func2", 0)]);
  ("smull", [("op", 0); ("subop1", 1); ("subop2", 1); ("func1", 6); ("func2", 0)]);
  ("umlal", [("op", 0); ("subop1", 1); ("subop2", 1); ("func1", 5); ("func2", 0)]);
  ("umull", [("op", 0); ("subop1", 1); ("subop2", 1); ("func1", 4); ("func2", 0)]);
  ("mls", [("op", 0); ("func1", 3); ("s", 0); ("subop2", 1); ("func2", 0); ("subop1", 1)]);
  ("ldrt1", [("op", 2); ("p", 0); ("b", 0); ("w", 1); ("l", 1)]);
  ("ldrt2", [("op", 3); ("subop1", 0); ("p", 0); ("b", 0); ("w", 1); ("l", 1)]);
  ("ldrbt1", [("op", 2); ("p", 0); ("b", 1); ("w", 1); ("l", 1)]);
  ("ldrbt2", [("op", 3); ("subop1", 0); ("p", 0); ("b", 1); ("w", 1); ("l", 1)]);
  ("ldr1", [("op", 2); ("b", 0); ("l", 1)]);
  ("ldr2", [("op", 3); ("subop1", 0); ("b", 0); ("l", 1)]);
  ("ldrb1", [("op", 2); ("b", 1); ("l", 1)]);
  ("ldrb2", [("op", 3); ("subop1", 0); ("b", 1); ("l", 1)]);
  ("ldrh", [("op", 0); ("subop1", 1); ("subop2", 1); ("ss", 0); ("hh", 1); ("l", 1)]);
  ("ldrsb", [("op", 0); ("subop1", 1); ("subop2", 1); ("ss", 1); ("hh", 0); ("l", 1)]);
  ("ldrsh", [("op", 0); ("subop1", 1); ("subop2", 1); ("ss", 1); ("hh", 1); ("l", 1)]);
  ("strt1", [("op", 2); ("p", 0); ("b", 0); ("w", 1); ("l", 0)]);
  ("strt2", [("op", 3); ("subop1", 0); ("p", 0); ("b", 0); ("w", 1); ("l", 0)]);
  ("strbt1", [("op", 2); ("p", 0); ("b", 1); ("w", 1); ("l", 0)]);
  ("strbt2", [("op", 3); ("subop1", 0); ("p", 0); ("b", 1); ("w", 1); ("l", 0)]);
  ("str1", [("op", 2); ("b", 0); ("l", 0)]);
  ("str2", [("op", 3); ("subop1", 0); ("b", 0); ("l", 0)]);
  ("strb1", [("op", 2); ("b", 1); ("l", 0)]);
  ("strb2", [("op", 3); ("subop1", 0); ("b", 1); ("l", 0)]);
  ("strh", [("op", 0); ("subop1", 1); ("subop2", 1); ("ss", 0); ("hh", 1); ("l", 0)]);
  ("ldm", [("op", 4); ("l", 1)]);
  ("stm", [("op", 4); ("l", 0)]);
  ("strex", [("op", 12); ("s", 0); ("subop1", 15); ("func1", 9)]);
  ("ldrex", [("op", 12); ("s", 1); ("subop1", 15); ("func1", 9); ("rt", 15)]);
  ("cdp", [("op", 7); ("subop1", 0); ("subop3", 0)]);
  ("mcr", [("op", 7); ("subop1", 1); ("subop3", 0); ("l", 0)]);
  ("mrc", [("op", 7); ("subop1", 1); ("subop3", 0); ("l", 1)]);
  ("ldc", [("op", 6); ("l", 1)]);
  ("stc", [("op", 6); ("l", 0)]);
  ("bkpt", [("op", 0); ("subop1", 1); ("subop2", 0); ("func1", 9); ("func2", 3); ("s", 0); ("cond", 14)]);
  ("swi", [("op", 7); ("subop3", 1)]);
  ("clz", [("op", 0); ("subop1", 1); ("subop2", 0); ("func1", 11); ("func2", 0); ("s", 0)]);
  ("mrs", [("op", 0); ("subop1", 0); ("subop2", 0); ("func11", 2); ("func12", 0); ("rm", 0); ("fieldmask", 15)]);
  ("msr1", [("op", 0); ("subop1", 0); ("subop2", 0); ("func11", 2); ("func12", 2); ("zero3", 0); ("func2", 0)]);
  ("msr2", [("op", 1); ("func11", 2); ("func12", 2); ("one2", 15)]);
  ("nop", [("op", 1); ("func1", 9); ("s", 0); ("imm4", 0); ("rd", 15); ("imm12", 0)]);
  ("smc", [("op", 11); ("subop1", 0); ("func1", 0); ("func2", 7)]);
  ("ldrd", [("op", 0); ("subop1", 1); ("subop2", 1); ("ss", 1); ("hh", 0); ("l", 0)]);
  ("strd", [("op", 0); ("subop1", 1); ("subop2", 1); ("ss", 1); ("hh", 1); ("l", 0)]);
  ("dsmla", [("sm", 16); ("subop2", 1); ("subop1", 0)]);
  ("dsmlal", [("sm", 20); ("subop2", 1); ("subop1", 0)]);
  ("dsmlaw", [("sm", 18); ("subop2", 1); ("xx", 0); ("subop1", 0)]);
  ("dsmul", [("sm", 22); ("subop2", 1); ("subop1", 0)]);
  ("dsmulw", [("sm", 18); ("subop2", 1); ("xx", 1); ("subop1", 0)])].

(** The storage devices of [arm.ac]. *)
Definition arm_registers : list string := [
  "R14_irq"; "R14_fiq"; "R14_svc"; "R14_abt"; "R14_und"; "R13_irq"; "R13_svc"; "R13_abt"; "R13_und"; "R13_fiq";
  "SPSR_irq"; "SPSR_fiq"; "SPSR_svc"; "SPSR_abt"; "SPSR_und"; "R12_fiq"; "R11_fiq"; "R10_fiq"; "R9_fiq"; "R8_fiq"].

Definition MBYTE : Z := 1048576.

Definition arm_storage : list declaration :=
  [DStorage "inta" 0 TLM_INTR_PORT None; DStorage "MEM" (10 * MBYTE) TLM_PORT None; DStorage "RB" 31 REGBANK None]
  ++ map (fun r => DStorage r 0 REG None) arm_registers.

(** The declarations before the constructor of the instruction set. *)
Definition arm_declared : list declaration :=
  arm_storage ++ map (fun p => DFormat (fst p) (snd p)) arm_formats
  ++ concat (map (fun p => map (DInstr (fst p)) (snd p)) arm_instrs).

Definition arm_decoders : list declaration :=
  concat (map (fun p => map (fun c => DDecoder (fst p) (fst c) (snd c)) (snd p)) (arm_decoders_1 ++ arm_decoders_2)).

Definition arm_description : list declaration := arm_declared ++ arm_decoders.

(** ** [set_asm] *)

Section asm.
Context {T : Type} `{!SymbolMap info T}.

(** The text up to the first space. *)
Fixpoint mnemonic_of (s : string) : string :=
  match s with
  | String c s => if is_char " " c then EmptyString else String c (mnemonic_of s)
  | EmptyString => EmptyString
  end.

(** The instruction keeps the first text and the first mnemonic. *)
Definition keep_asm (str : string) (i : ac_dec_instr) : ac_dec_instr :=
  let asm_str := match i_asm_str i with Some s => s | None => str end in
  let mnemonic := match i_mnemonic i with Some s => s | None => mnemonic_of str end in
  MkInstr (i_name i) (i_size i) (Some mnemonic) (Some asm_str) (i_format i) (i_id i) (i_cycles i)
    (i_min_latency i) (i_max_latency i) (i_dec_list i) (i_cflow i).

(** [NAME.set_asm(STR, ...)], up to the format; false for the errors. *)
Definition set_asm (s : core_state T) (name str : string) : exec (core_state T * bool) :=
  p ← find_instr s name;
  match p with
  | None => Ret (s, false)
  | Some p =>
      instr ← deref_instr s p;
      let instr := keep_asm str instr in
      f ← find_format s (i_format instr);
      match p with
      | PInstr k => Ret (set_instrs (MkInstrs (CoreActions.instr_num (instrs s)) (<[k := instr]> (CoreActions.instr_list (instrs s)))) s, is_some f)
      | _ => Crash
      end
  end.

(** Every declaration in turn; false with the first one that reports an error. *)
Fixpoint declare_all (uninit : Z) (l : list declaration) (s : core_state T) : exec (core_state T * bool) :=
  match l with
  | [] => Ret (s, true)
  | d :: l => '(s, ok) ← declare uninit s d; if ok : bool then declare_all uninit l s else Ret (s, false)
  end.

Fixpoint set_asm_all (l : list (string * string)) (s : core_state T) : exec (core_state T * bool) :=
  match l with
  | [] => Ret (s, true)
  | (name, str) :: l => '(s, ok) ← set_asm s name str; if ok : bool then set_asm_all l s else Ret (s, false)
  end.
End asm.

(** ** The model *)

(** What the parser leaves behind [arm.ac] and [arm_isa.ac]. *)
Definition model_of {T} (s : core_state T) : model :=
  Build_model "arm" (str_upper "arm") None 32 0 0 0 false false true true false false
    (CoreActions.format_ins_list (formats s)) (CoreActions.format_reg_list (formats s))
    (CoreActions.common_instr_field_list (formats s)) (CoreActions.instr_list (instrs s)) (CoreActions.group_list (groups s))
    (CoreActions.storage_list (storage s)) (CoreActions.tlm_intr_port_list (storage s)) (CoreActions.fetch_device (storage s))
    0 (CoreActions.instr_num (instrs s)) (Z.of_nat (length (CoreActions.format_ins_list (formats s))))
    (CoreActions.largest_format_size (formats s)).

Definition arm_core (uninit : Z) : exec (core_state (symbol_table info) * bool) :=
  '(s, ok) ← declare_all uninit arm_description (init_core_actions zero_core);
  if ok : bool then set_asm_all arm_asm s else Ret (s, false).

(** [main] on a little-endian host, up to the first file. *)
Definition arm_model : exec model := '(s, _) ← arm_core 0; prepare false (model_of s).

(** ** The ARM model comes from its description

    The tables the decode unit of the simulator uses ([ArmDecode], from
    [src/armv7/src/arm_isa_init.cpp]) are those the generator writes for
    [arm.ac] and [arm_isa.ac]. *)
From S2P Require Import Prelude CString DecTypes SymTab CoreActions AcDecoder AcSim AcSimIsa AcSimMain AcSimOk ArmDecode.

(** An instruction as the text of the tables gives it: a string that is not
    declared is printed as [(null)]. *)
Definition as_printed (i : ac_dec_instr) : ac_dec_instr :=
  let printed s := Some (convert EmptyString "s" (Ptr s)) in
  MkInstr (i_name i) (i_size i) (printed (i_mnemonic i)) (printed (i_asm_str i)) (i_format i) (i_id i) (i_cycles i)
    (i_min_latency i) (i_max_latency i) (i_dec_list i) (i_cflow i).

(** What the tables of a model say. *)
Definition model_formats (m : model) : option (list ac_dec_format) :=
  let formats := @format_ins_list m in read_formats (concat (field_rows 0 formats)) (format_rows 0 0 formats).
Definition model_instrs (m : model) : option (list ac_dec_instr) :=
  let instrs := @instr_list m in map as_printed <$> read_instrs (concat (dec_rows 0 instrs)) (instr_rows 0 0 instrs).

(** The comparison with [ArmDecode], as a computation. *)
Definition same_tables (m : model) : bool :=
  bool_decide (model_formats m = Some formats) && bool_decide (model_instrs m = Some instructions)
  && match @format_numbers m (@instr_list m) with Ret l => bool_decide (0 :: l = instr_format_table) | _ => false end
  && bool_decide ((@decoder_nFields m, @declist_num m, @AcSim.instr_num m, @format_num m, @AcSim.largest_format_size m) = (259, 450, 115, 28, 32)).

Lemma arm_same_tables : match arm_model with Ret m => same_tables m | _ => false end = true.
Proof. vm_compute. reflexivity. Qed.

(** The description of the ARM is accepted without an error, its decoder can
    be built, and the tables the generator prints hold the formats, the
    instructions with their decode lists and the format numbers that the decode
    unit of the simulator works with; the sizes are those of [arm_parms.H]. *)
Theorem arm_tables_generated :
  exists m : model, arm_model = Ret m /\
    model_formats m = Some formats /\ model_instrs m = Some instructions /\
    (cons 0 <$> @format_numbers m (@instr_list m)) = Ret instr_format_table /\
    (@decoder_nFields m, @declist_num m, @AcSim.instr_num m, @format_num m, @AcSim.largest_format_size m) = (259, 450, 115, 28, 32).
Proof.
  pose proof arm_same_tables as H. destruct arm_model as [m| |]; [|discriminate H..]. exists m. split; [reflexivity|].
  unfold same_tables in H. apply andb_true_iff in H as [H H4]. apply andb_true_iff in H as [H H3]. apply andb_true_iff in H as [H1 H2].
  apply bool_decide_eq_true in H1, H2, H4. destruct (format_numbers instr_list) as [l| |]; [|discriminate H3..].
  apply bool_decide_eq_true in H3. cbn. rewrite H3. repeat split; assumption.
Qed.
